(* ===== verification/_CoqProject ===== *)
-Q . S2P
Prelude.v
GoLib.v
GoCodec.v
GoLemmas.v
Nostr.v
GoStrings.v
GoRunes.v
NostrSerialize.v
NostrProps.v
Filter.v
FilterProps.v
SyncProtocol.v
Store.v
StoreQuery.v
StoreAdmin.v
StoreInv.v
StoreProps.v
StoreSave.v
StoreMaint.v
Artifacts.v
GitMeta.v
GitRelay.v
GitInv.v
Work.v
WorkProps.v
Maintenance.v
Wiki.v
WikiProps.v
WikiNames.v
Policy.v
Sites.v
SitesProps.v
Roster.v
Agents.v
AgentsProps.v
Community.v
Membership.v
Rooms.v
GrantRequests.v
GrantRequestsProps.v
CommunityExec.v
CommunityProps.v
CommunityInv.v
RoomsProps.v
ConfigProps.v
Auth.v
Replication.v
ReplicationProps.v
AuthProps.v
Catalog.v
CatalogProps.v
CatalogRules.v
Relay.v
RelayProps.v
RelayRuns.v
RelayDelivery.v
Gates.v
GatesProps.v
Tenant.v
TenantWrite.v
TenantProps.v
TenantWriteProps.v
TenantPrivate.v
Records.v
Views.v
Succession.v
RecordsProps.v
ViewsProps.v
SuccessionProps.v
Blob.v
Multipart.v
BlobProps.v
BlobRuns.v
BlobSafe.v
BlobClaims.v
Blossom.v
BlossomProps.v
BlobHttp.v
BlobHttpProps.v
BlobHttpClaims.v
