(* ===== verification/Prelude.v ===== *)
(** * Verification of the tiny Nostr relay host

    ** The program

    The repository is a Go server that hosts several Nostr relays ("tenants").
    A process opens a catalog of tenants (internal/catalog).  A tenant is a
    SQLite database of events (internal/storage) with a roster and rooms
    (internal/community), a policy (internal/policy), gates that decide what
    may be written and seen (internal/gates), a router that speaks the relay
    protocol over websockets (internal/relay, internal/syncprotocol), a
    durable queue of background work (internal/work), a gate for exclusive
    maintenance (internal/daemon/maintenance.go), a wiki renderer
    (internal/wiki) and static sites (internal/sites).  Events, filters and
    request proofs are the packages protocol/nostr and protocol/auth.

    A client message travels: Relay (frame, connection, subscription) calls its
    backend; the backend asks Gates, which read the community's answers
    (Community, Agents, Rooms) and the policy; an admitted event is stored by
    Store in one transaction with the community's own changes (Membership,
    Rooms); the router then delivers it to the connections whose filters match
    and which CanSee admits.

    ** Files

    - Prelude: results, the hint database, lemmas on filters and lists.
    - GoLib, GoCodec, GoStrings, GoRunes: the parts of the Go standard library
      the code uses; GoLemmas: facts about them.
    - Nostr, Filter (protocol/nostr, internal/event): events, kinds,
      canonical serialization, validation, signing, filters, decoding.
      NostrSerialize, NostrProps, FilterProps: the serializer agrees with the
      byte-wise rules and commits to every field, signing then validating,
      filters parse back.
    - Store, StoreQuery, StoreAdmin (internal/storage): the tables and each
      statement of save.go, query.go, maintenance.go, retention.go, history.go
      and wiki.go.  StoreInv, StoreSave, StoreProps, StoreMaint: the
      table invariant with the exact search index, permanence of deletions and vanish requests, the outcome
      of a save, convergence of replaceable events, pages and cursors, privacy
      of private kinds, retention, with concrete inputs.
    - Work, WorkProps (internal/work): claims, fencing, backoff, final states.
    - Maintenance (internal/daemon/maintenance.go): exclusion,
      draining and closing under every interleaving of goroutines.
    - Wiki, WikiProps, WikiNames (internal/wiki/wiki.go): the
      parsers end, the markup is inert and well nested, names are canonical,
      links are complete.
    - Policy (internal/policy, internal/peerurl): validation,
      patches, access rules, privacy.
    - Sites, SitesProps (internal/sites): bech32 and base-36 labels,
      manifests, round trip of labels.
    - Roster, Community, Membership, Rooms, CommunityExec, Agents
      (internal/community): the tables with their triggers, the management
      methods, the membership, moderation and room events, agent grants.
      CommunityProps describes each operation as a sequence of statements;
      [CommunityInv.cstep] is a run of every key, [CommunityInv.hstep] of the host;
      CommunityInv, RoomsProps, ConfigProps, AgentsProps: the
      mirror of the roster, who may promote whom, the removal of a subtree of
      invitations, rooms, export and import, what a grant lets through.
    - Auth, AuthProps (protocol/auth): request proofs and their single use.
    - Catalog, CatalogProps, CatalogRules (internal/catalog):
      unique names and hosts, the life of a tenant, creation and deletion a step at
      a time, deletion completed after a crash, routing.
    - SyncProtocol (internal/syncprotocol): count sketches and the
      reconciliation session.
    - Relay, RelayProps, RelayRuns, RelayDelivery
      (internal/relay): the router as steps, bounded queues, where session keys
      come from, snapshots before live events, delivery, refusals.
    - GrantRequests, GrantRequestsProps
      (internal/community/agent_grant_requests.go): an agent's request for a
      changed grant and the operator's replacement, which gives what was asked.
    - Replication, ReplicationProps (internal/replication): what may leave the
      relay, what the other relay answered and where a push resumes, callback
      registrations.
    - Blob, Multipart (internal/blob: storage.go, metadata.go, service.go,
      multipart.go): the blob tables and the directory of their bytes, an
      operation as a sequence of durable statements, chunked uploads with the
      sessions in memory, and the runs of the service with the statements of its
      deletions, its crashes and recoveries.  BlobProps: the invariant of the disk and the file names an
      operation may touch; BlobRuns: it holds in every run; BlobSafe: the quota;
      BlobClaims: what is read is what its name says, recovery always succeeds,
      quotas hold, pages are complete.
    - Blossom, BlobHttp (internal/blob: format.go, blossom.go, http.go,
      path_upload.go): references, addresses, the handlers and their dispatch, and
      [http.ServeContent] with its preconditions and ranges.
      BlossomProps: references read back; BlobHttpProps: a traversal of the
      handlers; BlobHttpClaims: a request is a run of the store, only readers get
      bytes, only holders and owners remove, only public hosts are fetched.
    - Gates, GatesProps (internal/gates): what Write, Import, Read and CanSee
      admit.
    - Tenant, TenantWrite (internal/daemon/tenant.go, client_events.go,
      event_commit.go, membership_protocol.go): the composition of the parts
      above into one relay, its reads and its writes.  TenantProps: what a query
      and a count answer; TenantWriteProps: what a publication stores, or leaves
      alone; TenantPrivate: a private tenant stays private, an open one open, in
      every reachable state.
    - Records, Views, Succession (internal/records): the records the relay
      signs about itself and their clock, the schedule of the stored views, the
      handover of the relay to an heir.  RecordsProps: the published membership
      is the projection of roster and policy; ViewsProps: after a pass nothing
      is overdue; SuccessionProps: no handover without a warning and thirty
      days, and the handover when they have passed, with examples.
    - Artifacts (internal/daemon/custom_views_validation.go): what a stored view
      keeps of an image or drawing that a transform sends.  What is kept is the
      text within its limit, and a kept SVG is one element tree without scripts,
      handlers, active elements or outward references, where every token sequence
      of such a tree passes.
    - GitMeta, GitRelay, GitInv (tinygit, internal/gitstore): repository metadata,
      ref files and the hooks; admission, journals, promotion, expiry, reload and
      the requests of the Git relay over the store; [GitInv.reach] is a run with
      crashes after any statement, and GitInv shows that every ref file lists
      what an owner or a maintainer signed, so what a push may do.

    ** How code becomes definitions

    A Go struct is a Record, a [(value, error)] pair is [result], an error is
    its message (a Go panic is the [Err] of its runtime message).  Strings are
    byte strings.  Machine integers are Z with wrap-around written out where the
    code can reach it.  A SQL table is a list of rows in insertion order or a
    finite map where it has one key and no scan order matters; a statement is
    the list operation it denotes; a transaction that fails returns the state it
    started from.  An unordered Go map range takes its order as an argument.
    The clock, random bytes and identifiers are arguments.

    Third-party or runtime code that is not in the repository is a parameter,
    as a type class: [NostrCrypto] (signatures, with the laws [NostrCryptoLaws]),
    [GoUnicode], [GoLetters], [GoPrint] (Unicode tables), [GoJson] (the JSON text
    parser), [GoJsonDecoder] (its streaming form), [GoURL], [GoURLText], [GoURLs] (net/url), [GoNet], [GoRegexp], [Regexp2], [GoFTS]
    (the search engine), [NostrKeys], [Negentropy], [GoSniff] (content types by
    their first bytes), [GoMime], [GoHttpTime] (dates in headers) and [Nip44] (encryption of private messages).
    [GoJsonInts] is the law that the parser reads a printed integer.  [TenantParts]
    stands for parts of the repository a tenant calls and that are not modelled:
    tinygit's validation and staging, the planning of follow-ups, the visibility
    of stored views; [ViewFolds] for what a stored view folds out of the events.

    ** Fuel

    Loops that are not structural carry fuel: the walk over invitations (the
    number of members, [CommunityInv.subtree_terminates]), the block and inline
    parsers and the renderer of the wiki (the number of lines and the length of
    the text, [WikiProps.wiki_parsers_terminate]), decimal output (the binary
    length of the number), the checks of a stylesheet (the length of the text,
    [Artifacts.safeSVGCSSText_ascii]), the tags a conditional request lists (the
    length of the header, [BlobHttpProps.listed_enough]).  Elsewhere recursion is structural.

    ** Not modelled

    Sockets, the daemon's HTTP handlers and page templates, the user interface (tinyclient),
    the command lines, tinygit's server, repairs, private transport and browsing, the
    transforms of stored views, the agent client (tinyagent),
    MCP tools, backups, jobs and the replication clients, web push,
    podcasts, telemetry and domain provisioning: they are I/O around the parts
    above or present their data.  Driver and file-system failures are outside
    the model, except where an operation is a sequence of steps that may stop
    anywhere (Catalog, Work, Blob).  In a run of the blob service a part of a request that
    holds one of its locks is one step, and so is the sweep of lapsed claims; a
    deletion or a block, which takes no lock, makes its statements one at a time
    between such steps ([BlobClaims.delete_race_loses_bytes] is what that allows),
    not within them.  In the router a handler is one step, as its fence
    makes it, and the writer goroutine takes one queued message per step.  A
    statement of the Git relay is one step and its operations follow each other; journal files are their records, the path of
    a request and the CGI process are outside.  The
    triggers that only enqueue a records projection under a random identifier
    are left out, and HandleMembershipEvent outside a transaction, which has no
    caller. *)

From stdpp Require Export base tactics option list strings gmap numbers pretty sorting.
From Stdlib Require Export Ascii String.

#[global] Open Scope Z_scope.

(** The hint database of the development. *)
Create HintDb tiny.
#[global] Arguments String.append !_ _ : simpl nomatch.

(** ** Results: a Go [(value, error)] pair whose error is its message. *)

Inductive result (A : Type) : Type :=
| Ok (a : A)
| Err (e : string).
Arguments Ok {A} a.
Arguments Err {A} e%_string.

#[export] Instance result_ret : MRet result := λ A a, Ok a.
#[export] Instance result_bind : MBind result := λ A B f m,
  match m with Ok a => f a | Err e => Err e end.
#[export] Instance result_fmap : FMap result := λ A B f m,
  match m with Ok a => Ok (f a) | Err e => Err e end.

#[export] Instance Ok_inj {A} : Inj (=) (=) (@Ok A).
Proof. intros x y H. by injection H. Qed.

Definition is_ok {A} (m : result A) : bool :=
  match m with Ok _ => true | Err _ => false end.

(** [guard_err b msg]: the early return [if b { return errors.New(msg) }]. *)
Definition guard_err (b : bool) (msg : string) : result unit :=
  if b then Err msg else Ok tt.

(** [first_err]: the first error of a sequence of checks, or success. *)
Fixpoint first_err (l : list (result unit)) : result unit :=
  match l with
  | [] => Ok tt
  | Err e :: _ => Err e
  | Ok _ :: r => first_err r
  end.

Lemma result_bind_Ok {A B} (m : result A) (f : A → result B) b :
  m ≫= f = Ok b ↔ ∃ a, m = Ok a ∧ f a = Ok b.
Proof. destruct m; cbn; naive_solver. Qed.

Lemma result_bind_Err {A B} (m : result A) (f : A → result B) e :
  m ≫= f = Err e ↔ m = Err e ∨ ∃ a, m = Ok a ∧ f a = Err e.
Proof. destruct m; cbn; naive_solver. Qed.

Lemma guard_err_Ok b msg u : guard_err b msg = Ok u ↔ b = false.
Proof. destruct b, u; cbn; naive_solver. Qed.

Lemma guard_err_Err b msg e : guard_err b msg = Err e ↔ b = true ∧ msg = e.
Proof. destruct b; cbn; naive_solver. Qed.

Lemma guard_bind_Ok {B} b msg (k : result B) x :
  (guard_err b msg;; k) = Ok x ↔ b = false ∧ k = Ok x.
Proof. destruct b; cbn; naive_solver. Qed.

Lemma guard_bind_Err {B} b msg (k : result B) x :
  (guard_err b msg;; k) = Err x ↔ (b = true ∧ msg = x) ∨ (b = false ∧ k = Err x).
Proof. destruct b; cbn; naive_solver. Qed.

Lemma guard_Ok_tt b msg : guard_err b msg = Ok tt ↔ b = false.
Proof. destruct b; cbn; naive_solver. Qed.

(** ** Lists *)

Lemma elem_of_concat {A} (x : A) (ls : list (list A)) :
  x ∈ List.concat ls ↔ ∃ l, x ∈ l ∧ l ∈ ls.
Proof.
  rewrite list_elem_of_In, in_concat. setoid_rewrite list_elem_of_In. naive_solver.
Qed.

(** Boolean filters of the standard library, as the SQL models use them. *)
Lemma elem_of_lfilter {A} (p : A → bool) (x : A) (l : list A) :
  x ∈ List.filter p l ↔ x ∈ l ∧ p x = true.
Proof. rewrite !list_elem_of_In. apply filter_In. Qed.

Lemma existsb_elem {A} (p : A → bool) (l : list A) :
  existsb p l = true ↔ ∃ x, x ∈ l ∧ p x = true.
Proof. rewrite existsb_exists. by setoid_rewrite list_elem_of_In. Qed.

Lemma existsb_elem_false {A} (p : A → bool) (l : list A) :
  existsb p l = false ↔ ∀ x, x ∈ l → p x = false.
Proof.
  rewrite <-not_true_iff_false, existsb_elem. split.
  - intros H x Hx. destruct (p x) eqn:E; [|done]. destruct H. by exists x.
  - intros H (x & Hx & E). by rewrite H in E.
Qed.

Lemma forallb_elem {A} (p : A → bool) (l : list A) :
  forallb p l = true ↔ ∀ x, x ∈ l → p x = true.
Proof. rewrite forallb_forall. by setoid_rewrite list_elem_of_In. Qed.

Lemma lfilter_sublist {A} (p : A → bool) (l : list A) : List.filter p l `sublist_of` l.
Proof. induction l as [|x l IH]; cbn; [done|]. destruct (p x); by constructor. Qed.

Lemma lfilter_none {A} (p : A → bool) (l : list A) :
  (∀ x, x ∈ l → p x = false) → List.filter p l = [].
Proof.
  induction l as [|x l IH]; intros H; [done|]. cbn. rewrite H by set_solver.
  apply IH. set_solver.
Qed.

Lemma lfilter_all {A} (p : A → bool) (l : list A) :
  (∀ x, x ∈ l → p x = true) → List.filter p l = l.
Proof.
  induction l as [|x l IH]; intros H; [done|]. cbn. rewrite H by set_solver.
  f_equal. apply IH. set_solver.
Qed.

Lemma lfilter_ext {A} (p q : A → bool) (l : list A) :
  (∀ x, x ∈ l → p x = q x) → List.filter p l = List.filter q l.
Proof.
  induction l as [|x l IH]; intros H; [done|]. cbn. rewrite H by set_solver.
  rewrite IH by set_solver. done.
Qed.

Lemma lfilter_app {A} (p : A → bool) (l l' : list A) :
  List.filter p (l ++ l') = List.filter p l ++ List.filter p l'.
Proof. induction l as [|x l IH]; cbn; [done|]. destruct (p x); cbn; by rewrite IH. Qed.

Lemma lfilter_lfilter {A} (p q : A → bool) (l : list A) :
  List.filter p (List.filter q l) = List.filter (λ x, q x && p x) l.
Proof.
  induction l as [|x l IH]; [done|]. cbn. destruct (q x); cbn; [|done].
  destruct (p x); by rewrite IH.
Qed.

Lemma NoDup_fmap_elem {A B} (f : A → B) (l : list A) x y :
  NoDup (f <$> l) → x ∈ l → y ∈ l → f x = f y → x = y.
Proof.
  induction l as [|a l IH]; [set_solver|]. cbn. rewrite NoDup_cons.
  intros [Ha Hl] Hx Hy E. rewrite elem_of_cons in Hx, Hy.
  destruct Hx as [->|Hx], Hy as [->|Hy]; [done|..|by apply IH].
  - destruct Ha. rewrite E. by apply list_elem_of_fmap_2.
  - destruct Ha. rewrite <-E. by apply list_elem_of_fmap_2.
Qed.
