(* ===== verification/GoLib.v ===== *)
(** * The parts of the Go standard library the modelled code uses

    Strings are byte strings, as in Go ([string] over 8-bit [ascii]).  This
    file models [utf8], [strings], [strconv], [encoding/hex], the string
    encoder of [encoding/json], [bytes.ReplaceAll] and [crypto/sha256].  The
    Unicode case tables are not written out: [GoUnicode] carries
    [unicode.ToLower], [unicode.ToUpper] and simple case folding for runes
    outside ASCII, and the ASCII behaviour is given by the definitions. *)

From S2P Require Import Prelude.

(** ** Bytes *)

Definition byte_of (a : ascii) : Z := Z.of_N (N_of_ascii a).
Definition char (z : Z) : ascii := ascii_of_N (Z.to_N z).
Definition str1 (z : Z) : string := String (char z) EmptyString.

Fixpoint bytes_of (s : string) : list Z :=
  match s with EmptyString => [] | String a r => byte_of a :: bytes_of r end.
Fixpoint string_of_bytes (l : list Z) : string :=
  match l with [] => EmptyString | b :: r => String (char b) (string_of_bytes r) end.

Lemma byte_of_range a : 0 ≤ byte_of a < 256.
Proof. unfold byte_of. pose proof (N_ascii_bounded a). lia. Qed.

Lemma char_byte_of a : char (byte_of a) = a.
Proof. unfold char, byte_of. rewrite N2Z.id. apply ascii_N_embedding. Qed.

Lemma byte_of_char z : 0 ≤ z < 256 → byte_of (char z) = z.
Proof. intros. unfold char, byte_of. rewrite N_ascii_embedding; lia. Qed.

Lemma byte_of_inj a b : byte_of a = byte_of b → a = b.
Proof. intros H. by rewrite <-(char_byte_of a), H, char_byte_of. Qed.

Lemma string_of_bytes_of s : string_of_bytes (bytes_of s) = s.
Proof. induction s as [|a s IH]; cbn; [done|]. by rewrite char_byte_of, IH. Qed.

Lemma bytes_of_string l :
  Forall (λ b, 0 ≤ b < 256) l → bytes_of (string_of_bytes l) = l.
Proof. induction 1; cbn; [done|]. by rewrite byte_of_char, IHForall. Qed.

Lemma length_bytes_of s : List.length (bytes_of s) = String.length s.
Proof. induction s; cbn; congruence. Qed.

Lemma length_string_of_bytes l : String.length (string_of_bytes l) = List.length l.
Proof. induction l; cbn; congruence. Qed.

Lemma bytes_of_app s t : bytes_of (s +:+ t) = bytes_of s ++ bytes_of t.
Proof. induction s; cbn; congruence. Qed.

Lemma str_app_length s t :
  String.length (s +:+ t) = (String.length s + String.length t)%nat.
Proof. induction s; cbn; congruence. Qed.

Lemma str_app_inv_head s t u : s +:+ t = s +:+ u → t = u.
Proof. induction s; cbn; intros; [done|]. simplify_eq. auto. Qed.

Lemma str_app_cons a s t : String a s +:+ t = String a (s +:+ t).
Proof. done. Qed.

Lemma str_app_assoc s t u : (s +:+ t) +:+ u = s +:+ (t +:+ u).
Proof. induction s; cbn; congruence. Qed.

Lemma str_app_nil_r s : s +:+ "" = s.
Proof. induction s; cbn; congruence. Qed.

(** Byte order, as [<] on Go strings and SQLite's BINARY collation. *)
Definition str_ltb (s t : string) : bool := String.ltb s t.

(** ** utf8: runes of a string, after [utf8.DecodeRuneInString].

    Each element is the code point and the source bytes it was read from;
    an invalid byte gives [RuneError] from one byte. *)

Definition RuneError : Z := 65533.
Definition cont (b : Z) : bool := (128 <=? b) && (b <=? 191).
Definition in_range (lo b hi : Z) : bool := (lo <=? b) && (b <=? hi).

Definition valid2 (b0 b1 : Z) : bool := in_range 194 b0 223 && cont b1.
Definition valid3 (b0 b1 b2 : Z) : bool :=
  in_range 224 b0 239
  && in_range (if b0 =? 224 then 160 else 128) b1 (if b0 =? 237 then 159 else 191)
  && cont b2.
Definition valid4 (b0 b1 b2 b3 : Z) : bool :=
  in_range 240 b0 244
  && in_range (if b0 =? 240 then 144 else 128) b1 (if b0 =? 244 then 143 else 191)
  && cont b2 && cont b3.

Record rune := Rune { rune_code : Z; rune_src : string }.

Fixpoint runes (s : string) : list rune :=
  match s with
  | EmptyString => []
  | String c0 r0 =>
    let b0 := byte_of c0 in
    let bad := Rune RuneError (String c0 "") in
    if b0 <? 128 then Rune b0 (String c0 "") :: runes r0 else
    match r0 with
    | EmptyString => [bad]
    | String c1 r1 =>
      let b1 := byte_of c1 in
      if valid2 b0 b1
      then Rune (Z.lor (Z.shiftl (Z.land b0 31) 6) (Z.land b1 63))
             (String c0 (String c1 "")) :: runes r1 else
      match r1 with
      | EmptyString => bad :: runes r0
      | String c2 r2 =>
        let b2 := byte_of c2 in
        if valid3 b0 b1 b2
        then Rune (Z.lor (Z.shiftl (Z.land b0 15) 12)
                     (Z.lor (Z.shiftl (Z.land b1 63) 6) (Z.land b2 63)))
               (String c0 (String c1 (String c2 ""))) :: runes r2 else
        match r2 with
        | EmptyString => bad :: runes r0
        | String c3 r3 =>
          let b3 := byte_of c3 in
          if valid4 b0 b1 b2 b3
          then Rune (Z.lor (Z.shiftl (Z.land b0 7) 18)
                       (Z.lor (Z.shiftl (Z.land b1 63) 12)
                          (Z.lor (Z.shiftl (Z.land b2 63) 6) (Z.land b3 63))))
                 (String c0 (String c1 (String c2 (String c3 "")))) :: runes r3
          else bad :: runes r0
        end
      end
    end
  end.

(** A rune read from an invalid byte: [RuneError] of width one. *)
Definition rune_invalid (r : rune) : bool :=
  (rune_code r =? RuneError) && (String.length (rune_src r) =? 1)%nat.

Definition valid_utf8 (s : string) : bool := forallb (λ r, negb (rune_invalid r)) (runes s).

Fixpoint str_concat (l : list string) : string :=
  match l with [] => "" | s :: r => s +:+ str_concat r end.

(** [utf8.AppendRune] *)
Definition encode_rune (r : Z) : string :=
  let r := if (r <? 0) || (1114111 <? r) || in_range 55296 r 57343 then RuneError else r in
  if r <? 128 then str1 r
  else if r <? 2048 then
    string_of_bytes [Z.lor 192 (Z.shiftr r 6); Z.lor 128 (Z.land r 63)]
  else if r <? 65536 then
    string_of_bytes [Z.lor 224 (Z.shiftr r 12); Z.lor 128 (Z.land (Z.shiftr r 6) 63);
                     Z.lor 128 (Z.land r 63)]
  else
    string_of_bytes [Z.lor 240 (Z.shiftr r 18); Z.lor 128 (Z.land (Z.shiftr r 12) 63);
                     Z.lor 128 (Z.land (Z.shiftr r 6) 63); Z.lor 128 (Z.land r 63)].

(** ** strings *)

(** [len(s)] *)
Definition len (s : string) : Z := Z.of_nat (String.length s).

Definition HasPrefix (s p : string) : bool := String.prefix p s.

Fixpoint Contains (s sub : string) : bool :=
  String.prefix sub s ||
  match s with EmptyString => false | String _ r => Contains r sub end.

(** [unicode.IsSpace] *)
Definition is_space (r : Z) : bool :=
  in_range 9 r 13 || (r =? 32) || (r =? 133) || (r =? 160) || (r =? 5760)
  || in_range 8192 r 8202 || (r =? 8232) || (r =? 8233) || (r =? 8239)
  || (r =? 8287) || (r =? 12288).

Fixpoint fields_go (cur : string) (l : list rune) : list string :=
  match l with
  | [] => if String.eqb cur "" then [] else [cur]
  | r :: l' =>
    if is_space (rune_code r)
    then (if String.eqb cur "" then [] else [cur]) ++ fields_go "" l'
    else fields_go (cur +:+ rune_src r) l'
  end.

(** [strings.Fields] *)
Definition Fields (s : string) : list string := fields_go "" (runes s).

Fixpoint drop_space (l : list rune) : list rune :=
  match l with
  | r :: l' => if is_space (rune_code r) then drop_space l' else l
  | [] => []
  end.

(** [strings.TrimSpace] *)
Definition TrimSpace (s : string) : string :=
  str_concat (rune_src <$> rev (drop_space (rev (drop_space (runes s))))).

(** [strings.SplitN(s, sep, n)] and [strings.Split] for a one-byte separator;
    [n] counts the pieces still allowed, [None] is no limit. *)
Fixpoint split_go (sep : ascii) (n : option nat) (cur : string) (s : string) : list string :=
  match s with
  | EmptyString => [cur]
  | String a r =>
    if Ascii.eqb a sep && negb (match n with Some k => (k <=? 1)%nat | None => false end)
    then cur :: split_go sep (pred <$> n) "" r
    else split_go sep n (cur +:+ String a "") r
  end.
Definition SplitN (s : string) (sep : ascii) (n : nat) : list string :=
  split_go sep (Some n) "" s.
Definition Split (s : string) (sep : ascii) : list string := split_go sep None "" s.

Fixpoint trim_right_go (c : ascii) (s : string) : string * bool :=
  match s with
  | EmptyString => ("", true)
  | String a r =>
    let '(t, e) := trim_right_go c r in
    if e && Ascii.eqb a c then ("", true) else (String a t, false)
  end.
(** [strings.TrimRight(s, "/")] *)
Definition TrimRightSlash (s : string) : string := (trim_right_go (char 47) s).1.

(** [bytes.ReplaceAll] and [strings.ReplaceAll] for a nonempty [old]: leftmost
    non-overlapping occurrences; [skip] counts the bytes of [old] still to drop. *)
Fixpoint replace_go (old new : string) (skip : nat) (s : string) : string :=
  match s with
  | EmptyString => ""
  | String a r =>
    match skip with
    | S k => replace_go old new k r
    | O => if String.prefix old s
           then new +:+ replace_go old new (pred (String.length old)) r
           else String a (replace_go old new 0 r)
    end
  end.
Definition ReplaceAll (s old new : string) : string := replace_go old new 0 s.

(** The Unicode tables: rune mappings and simple folding outside ASCII. *)
Class GoUnicode := {
  uni_lower : Z → Z;
  uni_upper : Z → Z;
  uni_fold : Z → Z → bool;
}.

Definition ascii_lower (b : Z) : Z := if in_range 65 b 90 then b + 32 else b.
Definition ascii_upper (b : Z) : Z := if in_range 97 b 122 then b - 32 else b.

Fixpoint str_map (f : Z → Z) (s : string) : string :=
  match s with EmptyString => "" | String a r => String (char (f (byte_of a))) (str_map f r) end.

Definition is_ascii (s : string) : bool := forallb (λ b, b <? 128) (bytes_of s).

Section Case.
Context `{GoUnicode}.

(** [strings.Map]: a negative rune is dropped. *)
Definition Map (f : Z → Z) (s : string) : string :=
  str_concat ((λ r, let m := f (rune_code r) in if m <? 0 then "" else encode_rune m)
                <$> runes s).

Definition ToLowerRune (r : Z) : Z := if r <? 128 then ascii_lower r else uni_lower r.
Definition ToUpperRune (r : Z) : Z := if r <? 128 then ascii_upper r else uni_upper r.

(** [strings.ToLower], [strings.ToUpper] *)
Definition ToLower (s : string) : string :=
  if is_ascii s then str_map ascii_lower s else Map ToLowerRune s.
Definition ToUpper (s : string) : string :=
  if is_ascii s then str_map ascii_upper s else Map ToUpperRune s.

Definition fold_eq (a b : Z) : bool :=
  (a =? b) || if (a <? 128) && (b <? 128) then ascii_lower a =? ascii_lower b
              else uni_fold a b.

Fixpoint fold_all (l m : list rune) : bool :=
  match l, m with
  | [], [] => true
  | a :: l', b :: m' => fold_eq (rune_code a) (rune_code b) && fold_all l' m'
  | _, _ => false
  end.

(** [strings.EqualFold] *)
Definition EqualFold (s t : string) : bool := fold_all (runes s) (runes t).
End Case.

(** The tables of an ASCII-only Unicode, used where a concrete instance is
    needed. *)
Definition ascii_unicode : GoUnicode :=
  {| uni_lower := λ r, r; uni_upper := λ r, r; uni_fold := Z.eqb |}.

(** Membership in a slice, the [contains] helper several packages declare. *)
Fixpoint contains (values : list string) (want : string) : bool :=
  match values with [] => false | v :: r => String.eqb v want || contains r want end.
Fixpoint containsInt (values : list Z) (want : Z) : bool :=
  match values with [] => false | v :: r => (v =? want) || containsInt r want end.

Lemma contains_spec values want : contains values want = true ↔ want ∈ values.
Proof.
  induction values as [|v r IH]; cbn; [set_solver|].
  rewrite orb_true_iff, IH, String.eqb_eq. set_solver.
Qed.

Lemma containsInt_spec values want : containsInt values want = true ↔ want ∈ values.
Proof.
  induction values as [|v r IH]; cbn; [set_solver|].
  rewrite orb_true_iff, IH, Z.eqb_eq. set_solver.
Qed.
