(* ===== verification/GoCodec.v ===== *)
(** * Go's textual encodings: strconv, encoding/hex, encoding/json strings
      and crypto/sha256

    [ParseInt] keeps Go's three outcomes, since callers that ignore the error
    still read the value returned with it.  [json_string] is the string
    encoder of encoding/json with HTML escaping switched off.  [sha256] is the
    FIPS 180-4 function over byte lists with 32-bit words as [Z]. *)

From S2P Require Import Prelude GoLib.

(** ** strconv *)

Definition int64_min : Z := -9223372036854775808.
Definition int64_max : Z := 9223372036854775807.
Definition uint64_max : Z := 18446744073709551615.

(** Two's complement wrap-around of a 64-bit [int]. *)
Definition wrap64 (z : Z) : Z := (z + 2 ^ 63) mod 2 ^ 64 - 2 ^ 63.

Inductive num_result := NumOk (z : Z) | NumSyntax | NumRange (z : Z).

(** The value Go returns, with or without an error. *)
Definition num_value (r : num_result) : Z :=
  match r with NumOk z => z | NumSyntax => 0 | NumRange z => z end.
Definition num_ok (r : num_result) : option Z :=
  match r with NumOk z => Some z | _ => None end.

Definition is_digit (b : Z) : bool := in_range 48 b 57.

Fixpoint parse_uint_go (s : string) (n : Z) : num_result :=
  match s with
  | EmptyString => NumOk n
  | String a r =>
    if negb (is_digit (byte_of a)) then NumSyntax
    else let n1 := n * 10 + (byte_of a - 48) in
         if uint64_max <? n1 then NumRange uint64_max else parse_uint_go r n1
  end.

Definition ParseUint (s : string) : num_result :=
  if String.eqb s "" then NumSyntax else parse_uint_go s 0.

(** [strconv.ParseInt(s, 10, 64)]; [strconv.Atoi] agrees with it on 64-bit. *)
Definition ParseInt (s : string) : num_result :=
  let '(neg, body) :=
    match s with
    | String a r => if byte_of a =? 43 then (false, r)
                    else if byte_of a =? 45 then (true, r) else (false, s)
    | EmptyString => (false, s)
    end in
  match ParseUint body with
  | NumSyntax => NumSyntax
  | NumOk un | NumRange un =>
    if negb neg && (2 ^ 63 <=? un) then NumRange int64_max
    else if neg && (2 ^ 63 <? un) then NumRange int64_min
    else NumOk (if neg then - un else un)
  end.
Definition Atoi (s : string) : num_result := ParseInt s.

Fixpoint utoa_go (fuel : nat) (z : Z) (acc : string) : string :=
  match fuel with
  | O => acc
  | S f => if z <? 10 then String (char (48 + z)) acc
           else utoa_go f (z / 10) (String (char (48 + z mod 10)) acc)
  end.
Definition utoa (z : Z) : string := utoa_go (S (Z.to_nat (Z.log2 z))) z "".

(** [strconv.FormatInt(z, 10)], [strconv.Itoa] and JSON integers *)
Definition Itoa (z : Z) : string := if z <? 0 then "-" +:+ utoa (- z) else utoa z.

(** ** encoding/hex *)

Definition hex_digit (d : Z) : ascii := char (if d <? 10 then 48 + d else 87 + d).

Fixpoint hex_encode (l : list Z) : string :=
  match l with
  | [] => ""
  | b :: r => String (hex_digit (Z.shiftr b 4)) (String (hex_digit (Z.land b 15)) (hex_encode r))
  end.

Definition from_hex (b : Z) : option Z :=
  if in_range 48 b 57 then Some (b - 48)
  else if in_range 97 b 102 then Some (b - 87)
  else if in_range 65 b 70 then Some (b - 55)
  else None.

(** [hex.DecodeString]: [None] is the error (bad digit or odd length). *)
Fixpoint hex_decode (s : string) : option (list Z) :=
  match s with
  | EmptyString => Some []
  | String a EmptyString => None
  | String a (String b r) =>
    h ← from_hex (byte_of a); l ← from_hex (byte_of b);
    t ← hex_decode r; Some (Z.lor (Z.shiftl h 4) l :: t)
  end.

(** ** encoding/json: strings, HTML escaping off *)

Definition esc_ascii (b : Z) : string :=
  if b =? 34 then "\" +:+ str1 34
  else if b =? 92 then "\\"
  else if b =? 8 then "\b" else if b =? 12 then "\f"
  else if b =? 10 then "\n" else if b =? 13 then "\r" else if b =? 9 then "\t"
  else if b <? 32
  then "\u00" +:+ String (hex_digit (Z.shiftr b 4)) (String (hex_digit (Z.land b 15)) "")
  else str1 b.

Definition json_rune (r : rune) : string :=
  if rune_invalid r then "\ufffd"
  else if rune_code r <? 128 then esc_ascii (rune_code r)
  else if rune_code r =? 8232 then "\u2028"
  else if rune_code r =? 8233 then "\u2029"
  else rune_src r.

Definition quote (s : string) : string := str1 34 +:+ s +:+ str1 34.
Definition json_body (s : string) : string := str_concat (json_rune <$> runes s).
Definition json_string (s : string) : string := quote (json_body s).

Fixpoint json_join (l : list string) : string :=
  match l with [] => "" | [x] => x | x :: r => x +:+ "," +:+ json_join r end.
Definition json_array (l : list string) : string := "[" +:+ json_join l +:+ "]".

(** ** crypto/sha256 *)

Definition w32 (z : Z) : Z := Z.land z 4294967295.
Definition rotr (x n : Z) : Z := Z.lor (Z.shiftr x n) (w32 (Z.shiftl x (32 - n))).
Definition xor3 (a b c : Z) : Z := Z.lxor a (Z.lxor b c).

(** The round constants are the first 32 fractional bits of the cube roots of
    the first 64 primes, the initial state those of the square roots of the
    first eight (FIPS 180-4, sections 4.2.2 and 5.3.3). *)
Definition is_prime (n : Z) : bool :=
  forallb (λ d, negb (n mod d =? 0)) (Z.of_nat <$> seq 2 (Z.to_nat (Z.sqrt n) - 1)).
Definition primes (hi : nat) : list Z := List.filter is_prime (Z.of_nat <$> seq 2 (hi - 1)).

(** The largest [r] below [2^n] with [r^3 <= z], by bits. *)
Fixpoint cube_root (n : nat) (r z : Z) : Z :=
  match n with
  | O => r
  | S m => let r' := r + 2 ^ Z.of_nat m in cube_root m (if r' * r' * r' <=? z then r' else r) z
  end.

Definition sha_k : list Z := Eval vm_compute in
  (λ p, w32 (cube_root 36 0 (p * 2 ^ 96))) <$> primes 311.

Record sha_state := Sha { sa : Z; sb : Z; sc : Z; sd : Z; se : Z; sf : Z; sg : Z; sh : Z }.
Definition sha_init : sha_state := Eval vm_compute in
  match (λ p, w32 (Z.sqrt (p * 2 ^ 64))) <$> primes 19 with
  | [a; b; c; d; e; f; g; h] => Sha a b c d e f g h
  | _ => Sha 0 0 0 0 0 0 0 0
  end.

Definition sha_round (st : sha_state) (kw : Z * Z) : sha_state :=
  let s1 := xor3 (rotr (se st) 6) (rotr (se st) 11) (rotr (se st) 25) in
  let ch := Z.lxor (Z.land (se st) (sf st)) (Z.land (Z.lxor (se st) 4294967295) (sg st)) in
  let t1 := w32 (sh st + s1 + ch + kw.1 + kw.2) in
  let s0 := xor3 (rotr (sa st) 2) (rotr (sa st) 13) (rotr (sa st) 22) in
  let mj := xor3 (Z.land (sa st) (sb st)) (Z.land (sa st) (sc st)) (Z.land (sb st) (sc st)) in
  let t2 := w32 (s0 + mj) in
  Sha (w32 (t1 + t2)) (sa st) (sb st) (sc st) (w32 (sd st + t1)) (se st) (sf st) (sg st).

Definition sha_sigma0 x := xor3 (rotr x 7) (rotr x 18) (Z.shiftr x 3).
Definition sha_sigma1 x := xor3 (rotr x 17) (rotr x 19) (Z.shiftr x 10).

(** The message schedule, newest word first. *)
Fixpoint sha_extend (n : nat) (w : list Z) : list Z :=
  match n with
  | O => w
  | S m =>
    let g i := nth i w 0 in
    sha_extend m (w32 (sha_sigma1 (g 1%nat) + g 6%nat + sha_sigma0 (g 14%nat) + g 15%nat) :: w)
  end.

Fixpoint be_words (l : list Z) : list Z :=
  match l with
  | a :: b :: c :: d :: r =>
    Z.lor (Z.shiftl a 24) (Z.lor (Z.shiftl b 16) (Z.lor (Z.shiftl c 8) d)) :: be_words r
  | _ => []
  end.

Definition sha_block (st : sha_state) (block : list Z) : sha_state :=
  let w := rev (sha_extend 48 (rev (be_words block))) in
  let r := fold_left sha_round (combine sha_k w) st in
  Sha (w32 (sa st + sa r)) (w32 (sb st + sb r)) (w32 (sc st + sc r)) (w32 (sd st + sd r))
      (w32 (se st + se r)) (w32 (sf st + sf r)) (w32 (sg st + sg r)) (w32 (sh st + sh r)).

Definition be_bytes (n : nat) (z : Z) : list Z :=
  (λ i, Z.land (Z.shiftr z (8 * (Z.of_nat n - 1 - Z.of_nat i))) 255) <$> seq 0 n.

Definition sha_pad (m : list Z) : list Z :=
  let l := Z.of_nat (List.length m) in
  m ++ 128 :: replicate (Z.to_nat ((55 - l) mod 64)) 0 ++ be_bytes 8 (8 * l).

Fixpoint sha_blocks (fuel : nat) (st : sha_state) (m : list Z) : sha_state :=
  match fuel with
  | O => st
  | S f => match m with [] => st | _ => sha_blocks f (sha_block st (take 64 m)) (drop 64 m) end
  end.

(** [sha256.Sum256]; the fuel is the number of 64-byte blocks of the padding. *)
Definition sha256 (m : list Z) : list Z :=
  let p := sha_pad m in
  let r := sha_blocks (List.length p / 64)%nat sha_init p in
  be_bytes 4 (sa r) ++ be_bytes 4 (sb r) ++ be_bytes 4 (sc r) ++ be_bytes 4 (sd r)
  ++ be_bytes 4 (se r) ++ be_bytes 4 (sf r) ++ be_bytes 4 (sg r) ++ be_bytes 4 (sh r).

#[global] Arguments sha256 : simpl never.

(** [hex.EncodeToString(sha256.Sum256(s))] *)
Definition sha256_hex (s : string) : string := hex_encode (sha256 (bytes_of s)).

Example sha256_abc :
  sha256_hex "abc" = "ba7816bf8f01cfea414140de5dae2223b00361a396177a9cb410ff61f20015ad".
Proof. vm_compute. reflexivity. Qed.

Example sha256_two_blocks :
  sha256_hex "abcdbcdecdefdefgefghfghighijhijkijkljklmklmnlmnomnopnopq"
  = "248d6a61d20638b8e5c026930c3e6039a33ce45964ff2167f6ecedd419db06c1".
Proof. vm_compute. reflexivity. Qed.

Example Itoa_ex : (Itoa 0, Itoa 30023, Itoa (-15), Itoa 1000) = ("0", "30023", "-15", "1000").
Proof. vm_compute. reflexivity. Qed.

Example ParseInt_ex :
  (ParseInt "-9223372036854775808", ParseInt "9223372036854775808", ParseInt "12a", ParseInt "+7")
  = (NumOk int64_min, NumRange int64_max, NumSyntax, NumOk 7).
Proof. vm_compute. reflexivity. Qed.

(** Proofs use the shape lemmas of [sha256], never its definition. *)
#[global] Opaque sha256.
