(* ===== verification/GoLemmas.v ===== *)
(** * Facts about the modelled Go library: rune decoding, ReplaceAll,
      decimal and hexadecimal round trips. *)

From S2P Require Import Prelude GoLib GoCodec.
From Stdlib Require Import OrderedTypeEx.

(** ** Rune decoding *)

(** The three ways a rune is read: one ASCII byte, a multi-byte sequence, or
    an invalid byte. *)
Inductive rune_shape : rune → Prop :=
| shape_ascii b : 0 ≤ b < 128 → rune_shape (Rune b (String (char b) ""))
| shape_multi c src :
    128 ≤ c → (1 < String.length src)%nat →
    Forall (λ b, 128 ≤ b < 256) (bytes_of src) →
    (c = 8232 → src = string_of_bytes [226; 128; 168]) →
    (c = 8233 → src = string_of_bytes [226; 128; 169]) →
    rune_shape (Rune c src)
| shape_bad a : 128 ≤ byte_of a → rune_shape (Rune RuneError (String a "")).

Lemma in_range_true lo b hi : in_range lo b hi = true ↔ lo ≤ b ≤ hi.
Proof. unfold in_range. rewrite andb_true_iff, !Z.leb_le. done. Qed.

(** The list [lo, lo+1, ..., hi]. *)
Definition zrange (lo hi : Z) : list Z :=
  (λ i, lo + Z.of_nat i) <$> seq 0 (Z.to_nat (hi - lo + 1)).

Lemma zrange_spec lo hi b : lo ≤ b ≤ hi → b ∈ zrange lo hi.
Proof.
  intros. unfold zrange. apply list_elem_of_fmap. exists (Z.to_nat (b - lo)).
  split; [lia|]. apply elem_of_seq. lia.
Qed.

Lemma forallb_zrange (f : Z → bool) lo hi b :
  forallb f (zrange lo hi) = true → lo ≤ b ≤ hi → f b = true.
Proof.
  intros Hf Hb. rewrite forallb_forall in Hf. apply Hf, list_elem_of_In.
  by apply zrange_spec.
Qed.

Definition code3 (b0 b1 b2 : Z) : Z :=
  Z.lor (Z.shiftl (Z.land b0 15) 12) (Z.lor (Z.shiftl (Z.land b1 63) 6) (Z.land b2 63)).

Definition check3 (b0 b1 b2 : Z) : bool :=
  implb (valid3 b0 b1 b2)
    ((128 <=? code3 b0 b1 b2)
     && implb (code3 b0 b1 b2 =? 8232) ((b0 =? 226) && (b1 =? 128) && (b2 =? 168))
     && implb (code3 b0 b1 b2 =? 8233) ((b0 =? 226) && (b1 =? 128) && (b2 =? 169))).

Lemma check3_all b0 b1 b2 :
  224 ≤ b0 ≤ 239 → 128 ≤ b1 ≤ 191 → 128 ≤ b2 ≤ 191 → check3 b0 b1 b2 = true.
Proof.
  assert (forallb (λ b0, forallb (λ b1, forallb (λ b2, check3 b0 b1 b2)
    (zrange 128 191)) (zrange 128 191)) (zrange 224 239) = true) as C
    by (vm_compute; reflexivity).
  intros H0 H1 H2.
  exact (forallb_zrange _ _ _ b2 (forallb_zrange _ _ _ b1
    (forallb_zrange _ _ _ b0 C H0) H1) H2).
Qed.

Lemma valid3_spec b0 b1 b2 :
  valid3 b0 b1 b2 = true →
  128 ≤ code3 b0 b1 b2 ∧ 128 ≤ b0 ∧ 128 ≤ b1 ∧ 128 ≤ b2 ∧
  (code3 b0 b1 b2 = 8232 → b0 = 226 ∧ b1 = 128 ∧ b2 = 168) ∧
  (code3 b0 b1 b2 = 8233 → b0 = 226 ∧ b1 = 128 ∧ b2 = 169).
Proof.
  intros Hv. pose proof Hv as Hr. unfold valid3 in Hr.
  rewrite !andb_true_iff in Hr. destruct Hr as [[H0 H1] H2].
  unfold cont in H2. rewrite andb_true_iff, !Z.leb_le in H2.
  rewrite in_range_true in H0, H1.
  assert (128 ≤ b1 ≤ 191) as H1'.
  { destruct (b0 =? 224), (b0 =? 237); lia. }
  pose proof (check3_all b0 b1 b2 H0 H1' H2) as C2. unfold check3 in C2.
  rewrite Hv in C2. cbn [implb] in C2. rewrite !andb_true_iff, Z.leb_le in C2.
  destruct C2 as [[C2 C3] C4]. repeat split; try lia.
  all: intros E; rewrite E in *; cbn in C3, C4; lia.
Qed.

Lemma lor_ge_l a b : 0 ≤ a → 0 ≤ b → a ≤ Z.lor a b.
Proof.
  intros. apply Z.ldiff_le; [by apply Z.lor_nonneg|].
  apply Z.bits_inj'. intros n Hn.
  rewrite Z.ldiff_spec, Z.lor_spec, Z.bits_0. by destruct (Z.testbit a n).
Qed.

Lemma lor_ge_r a b : 0 ≤ a → 0 ≤ b → b ≤ Z.lor a b.
Proof. intros. rewrite Z.lor_comm. by apply lor_ge_l. Qed.

Lemma valid2_spec b0 b1 :
  valid2 b0 b1 = true →
  128 ≤ Z.lor (Z.shiftl (Z.land b0 31) 6) (Z.land b1 63) < 2048 ∧ 128 ≤ b0 ∧ 128 ≤ b1.
Proof.
  intros Hv. pose proof Hv as Hr. unfold valid2, cont in Hr.
  rewrite !andb_true_iff, in_range_true, !Z.leb_le in Hr.
  assert (forallb (λ b0, forallb (λ b1,
    let c := Z.lor (Z.shiftl (Z.land b0 31) 6) (Z.land b1 63) in
    (128 <=? c) && (c <? 2048)) (zrange 128 191)) (zrange 194 223) = true) as C
    by (vm_compute; reflexivity).
  pose proof (forallb_zrange _ _ _ b0 C ltac:(lia)) as C1; cbv beta in C1.
  pose proof (forallb_zrange _ _ _ b1 C1 ltac:(lia)) as C2; cbv beta zeta in C2.
  rewrite andb_true_iff, Z.leb_le, Z.ltb_lt in C2. lia.
Qed.

Lemma valid4_spec b0 b1 b2 b3 :
  valid4 b0 b1 b2 b3 = true →
  65536 ≤ Z.lor (Z.shiftl (Z.land b0 7) 18)
            (Z.lor (Z.shiftl (Z.land b1 63) 12)
               (Z.lor (Z.shiftl (Z.land b2 63) 6) (Z.land b3 63))) ∧
  128 ≤ b0 ∧ 128 ≤ b1 ∧ 128 ≤ b2 ∧ 128 ≤ b3.
Proof.
  intros Hv. pose proof Hv as Hr. unfold valid4, cont in Hr.
  rewrite !andb_true_iff, !in_range_true, !Z.leb_le in Hr.
  destruct Hr as [[[H0 H1] H2] H3].
  assert (128 ≤ b1 ≤ 191) as H1' by (destruct (b0 =? 240), (b0 =? 244); lia).
  assert (forallb (λ b0, forallb (λ b1,
    implb (in_range (if b0 =? 240 then 144 else 128) b1 (if b0 =? 244 then 143 else 191))
    (65536 <=? Z.lor (Z.shiftl (Z.land b0 7) 18) (Z.shiftl (Z.land b1 63) 12)))
    (zrange 128 191)) (zrange 240 244) = true) as C by (vm_compute; reflexivity).
  pose proof (forallb_zrange _ _ _ b0 C ltac:(lia)) as C1; cbv beta in C1.
  pose proof (forallb_zrange _ _ _ b1 C1 ltac:(lia)) as C2; cbv beta in C2.
  rewrite (proj2 (in_range_true _ b1 _) H1) in C2. cbn [implb] in C2.
  apply Z.leb_le in C2.
  assert (∀ x k, 0 ≤ k → 0 ≤ Z.land x k) as Hl by (intros; apply Z.land_nonneg; lia).
  assert (∀ x k, 0 ≤ x → 0 ≤ Z.shiftl x k) as Hs by (intros; by apply Z.shiftl_nonneg).
  split; [|lia]. etrans; [exact C2|]. rewrite Z.lor_assoc.
  apply lor_ge_l; repeat (apply Z.lor_nonneg; split); eauto with lia.
Qed.

#[local] Ltac src_bytes :=
  cbn; repeat (apply Forall_cons; split);
  [try (match goal with |- context [byte_of ?a] => pose proof (byte_of_range a); lia end)..|
   apply Forall_nil; done].

Lemma runes_view s :
  s ≠ "" →
  ∃ r rest, runes s = r :: runes rest ∧ s = rune_src r +:+ rest ∧ rune_shape r ∧
            (String.length rest < String.length s)%nat.
Proof.
  intros Hs. destruct s as [|c0 r0]; [done|]. clear Hs.
  pose proof (byte_of_range c0).
  destruct (Z.ltb_spec (byte_of c0) 128) as [Hlt|Hge].
  { exists (Rune (byte_of c0) (String c0 "")), r0. cbn.
    rewrite (proj2 (Z.ltb_lt _ _) Hlt). repeat split; [|lia].
    rewrite <-(char_byte_of c0) at 2. apply shape_ascii. lia. }
  assert (rune_shape (Rune RuneError (String c0 ""))) as Hbad by by apply shape_bad.
  assert ((byte_of c0 <? 128) = false) as E by lia.
  cbn [runes]. rewrite E.
  destruct r0 as [|c1 r1].
  { exists (Rune RuneError (String c0 "")), "". cbn. auto with lia. }
  destruct (valid2 _ _) eqn:V2.
  { apply valid2_spec in V2. eexists (Rune _ _), r1. repeat split; [|cbn; lia].
    apply shape_multi; [lia|cbn; lia|src_bytes|intros; lia..]. }
  destruct r1 as [|c2 r2].
  { eexists (Rune RuneError (String c0 "")), _. repeat split; cbn; auto with lia. }
  destruct (valid3 _ _ _) eqn:V3.
  { apply valid3_spec in V3 as (V & ? & ? & ? & V1 & V1').
    eexists (Rune _ _), r2. repeat split; [|cbn; lia].
    apply shape_multi; [exact V|cbn; lia|src_bytes|..].
    - intros (E0 & E1 & E2)%V1. cbn [string_of_bytes]. by rewrite <-E0, <-E1, <-E2, !char_byte_of.
    - intros (E0 & E1 & E2)%V1'. cbn [string_of_bytes]. by rewrite <-E0, <-E1, <-E2, !char_byte_of. }
  destruct r2 as [|c3 r3].
  { eexists (Rune RuneError (String c0 "")), _. repeat split; cbn; auto with lia. }
  destruct (valid4 _ _ _ _) eqn:V4.
  { apply valid4_spec in V4. eexists (Rune _ _), r3. repeat split; [|cbn; lia].
    apply shape_multi; [lia|cbn; lia|src_bytes|intros; lia..]. }
  eexists (Rune RuneError (String c0 "")), _. repeat split; cbn; auto with lia.
Qed.

(** Induction over the runes of a string. *)
Lemma runes_ind (P : string → Prop) :
  P "" →
  (∀ r rest, rune_shape r → runes (rune_src r +:+ rest) = r :: runes rest →
             P rest → P (rune_src r +:+ rest)) →
  ∀ s, P s.
Proof.
  intros H0 Hs s. remember (String.length s) as n eqn:Hn.
  revert s Hn. induction (lt_wf n) as [n _ IH]. intros s ->.
  destruct (decide (s = "")) as [->|Hne]; [done|].
  destruct (runes_view s Hne) as (r & rest & Hr & Heq & Hsh & Hlt).
  rewrite Heq. apply Hs; [done| |].
  - by rewrite <-Heq.
  - by apply (IH (String.length rest)).
Qed.

Lemma runes_src s : str_concat (rune_src <$> runes s) = s.
Proof.
  induction s using runes_ind; [done|]. rewrite H0. cbn. by rewrite IHs.
Qed.

Lemma rune_invalid_multi c src :
  (1 < String.length src)%nat → rune_invalid (Rune c src) = false.
Proof.
  intros. unfold rune_invalid. cbn. apply andb_false_iff. right.
  apply Nat.eqb_neq. lia.
Qed.

Lemma valid_utf8_rest r rest :
  runes (rune_src r +:+ rest) = r :: runes rest →
  valid_utf8 (rune_src r +:+ rest) = true → rune_invalid r = false ∧ valid_utf8 rest = true.
Proof.
  unfold valid_utf8. intros ->. cbn. rewrite andb_true_iff, negb_true_iff. done.
Qed.

(** ** ReplaceAll *)

Definition no_char (c : ascii) (s : string) : Prop := Forall (λ b, b ≠ byte_of c) (bytes_of s).

(** [Rep old new x y]: in every right context, [x] is rewritten to [y]. *)
Definition Rep (old new x y : string) : Prop :=
  ∀ tail, replace_go old new 0 (x +:+ tail) = y +:+ replace_go old new 0 tail.

Lemma Rep_nil old new : Rep old new "" "".
Proof. done. Qed.

Lemma Rep_app old new x y x' y' :
  Rep old new x y → Rep old new x' y' → Rep old new (x +:+ x') (y +:+ y').
Proof. intros H H' tail. by rewrite !str_app_assoc, H, H'. Qed.

Lemma Rep_plain c old new x : no_char c x → Rep (String c old) new x x.
Proof.
  unfold no_char. induction x as [|a x IH]; cbn; intros Hx; [apply Rep_nil|].
  inversion Hx; simplify_eq. intros tail. cbn.
  destruct (ascii_dec c a) as [->|Hne]; [done|]. by rewrite (IH ltac:(done)).
Qed.

Lemma replace_go_skip old new x tail :
  replace_go old new (String.length x) (x +:+ tail) = replace_go old new 0 tail.
Proof. induction x; cbn; done. Qed.

Lemma prefix_refl_app x tail : String.prefix x (x +:+ tail) = true.
Proof.
  induction x as [|a x IH]; cbn; [by destruct tail|].
  by rewrite (decide_True_pi eq_refl) || (destruct (ascii_dec a a); [exact IH|done]).
Qed.

Lemma Rep_hit c old new : Rep (String c old) new (String c old) new.
Proof.
  intros tail.
  change (replace_go (String c old) new 0 (String c (old +:+ tail))
          = new +:+ replace_go (String c old) new 0 tail).
  cbn [replace_go]. change (String c (old +:+ tail)) with (String c old +:+ tail).
  rewrite prefix_refl_app. f_equal. apply (replace_go_skip _ _ old).
Qed.

Lemma Rep_concat old new l l' :
  Forall2 (Rep old new) l l' → Rep old new (str_concat l) (str_concat l').
Proof. induction 1; cbn; [apply Rep_nil|by apply Rep_app]. Qed.

Lemma Rep_ReplaceAll old new x y : Rep old new x y → ReplaceAll x old new = y.
Proof.
  intros H. unfold ReplaceAll. rewrite <-(str_app_nil_r x), H. cbn. apply str_app_nil_r.
Qed.

(** ** Decimal round trip *)

Lemma digit_byte d : 0 ≤ d < 10 → byte_of (char (48 + d)) = 48 + d.
Proof. intros. apply byte_of_char. lia. Qed.

Fixpoint dec_value (s : string) (n : Z) : option Z :=
  match s with
  | EmptyString => Some n
  | String a r => if is_digit (byte_of a) then dec_value r (n * 10 + (byte_of a - 48)) else None
  end.

Lemma dec_value_digit d acc n :
  0 ≤ d < 10 → dec_value (String (char (48 + d)) acc) n = dec_value acc (n * 10 + d).
Proof.
  intros. cbn. rewrite digit_byte by lia. unfold is_digit.
  rewrite (proj2 (in_range_true _ _ _)) by lia. do 2 f_equal. lia.
Qed.

Lemma dec_value_utoa_go fuel z acc :
  0 ≤ z < 10 ^ Z.of_nat fuel → dec_value (utoa_go fuel z acc) 0 = dec_value acc z.
Proof.
  revert z acc. induction fuel as [|f IH]; intros z acc Hz.
  { cbn in Hz. assert (z = 0) as -> by lia. done. }
  cbn [utoa_go]. destruct (Z.ltb_spec z 10) as [Hl|Hg].
  { rewrite dec_value_digit by lia. f_equal. }
  rewrite Nat2Z.inj_succ, Z.pow_succ_r in Hz by lia.
  rewrite IH.
  - rewrite dec_value_digit by (apply Z.mod_pos_bound; lia). f_equal.
    rewrite (Z.div_mod z 10) at 3 by lia. lia.
  - split; [apply Z.div_pos; lia|]. apply Z.div_lt_upper_bound; lia.
Qed.

Lemma utoa_fuel z : 0 ≤ z → 0 ≤ z < 10 ^ Z.of_nat (S (Z.to_nat (Z.log2 z))).
Proof.
  intros Hz. split; [done|]. rewrite Nat2Z.inj_succ, Z2Nat.id by apply Z.log2_nonneg.
  destruct (decide (z = 0)) as [->|]; [done|].
  pose proof (Z.log2_spec z ltac:(lia)).
  pose proof (Z.pow_le_mono_l 2 10 (Z.succ (Z.log2 z)) ltac:(lia)). lia.
Qed.

Lemma dec_value_utoa z : 0 ≤ z → dec_value (utoa z) 0 = Some z.
Proof. intros. unfold utoa. rewrite dec_value_utoa_go by by apply utoa_fuel. done. Qed.

(** Every byte of a decimal is a digit, and there is at least one. *)
Lemma utoa_go_digits fuel z acc :
  0 ≤ z → Forall (λ b, is_digit b = true) (bytes_of acc) →
  Forall (λ b, is_digit b = true) (bytes_of (utoa_go fuel z acc)).
Proof.
  revert z acc. induction fuel as [|f IH]; intros z acc Hz Ha; [done|].
  assert (∀ d, 0 ≤ d < 10 → Forall (λ b, is_digit b = true) (bytes_of (String (char (48 + d)) acc)))
    as Hd.
  { intros d Hd. cbn. constructor; [|done]. rewrite digit_byte by lia. apply in_range_true. lia. }
  cbn. destruct (Z.ltb_spec z 10); [by apply Hd|].
  apply IH; [apply Z.div_pos; lia|]. apply Hd, Z.mod_pos_bound. lia.
Qed.

Lemma utoa_digits z : 0 ≤ z → Forall (λ b, is_digit b = true) (bytes_of (utoa z)).
Proof. intros. by apply utoa_go_digits. Qed.

Lemma utoa_nonempty z : 0 ≤ z → utoa z ≠ "".
Proof. intros Hz E. pose proof (dec_value_utoa z Hz). rewrite E in H. cbn in H. unfold utoa in E.
  cbn in E. destruct (Z.ltb_spec z 10); [done|].
  assert (∀ f n a, a ≠ "" → utoa_go f n a ≠ "") as Hne.
  { induction f as [|f IH]; cbn; intros; [done|]. case_match; [done|]. by apply IH. }
  by apply Hne in E.
Qed.

Lemma parse_uint_go_dec s n z :
  0 ≤ n → dec_value s n = Some z → z ≤ uint64_max → parse_uint_go s n = NumOk z.
Proof.
  revert n. induction s as [|a s IH]; cbn; intros n Hn Hd Hz; [by simplify_eq|].
  destruct (is_digit (byte_of a)) eqn:E; [|done]. cbn.
  unfold is_digit in E. apply in_range_true in E.
  assert (n * 10 + (byte_of a - 48) ≤ z) as Hle.
  { assert (∀ s n z, 0 ≤ n → dec_value s n = Some z → n ≤ z) as Hm.
    { clear. induction s as [|a s IH]; cbn; intros n z Hn; [naive_solver lia|].
      destruct (is_digit _) eqn:E; [|done]. unfold is_digit in E. apply in_range_true in E.
      intros H%IH; lia. }
    eapply Hm; [|done]. lia. }
  rewrite (proj2 (Z.ltb_ge _ _)) by lia. apply IH; [lia|done..].
Qed.

Lemma first_digit s : s ≠ "" → Forall (λ b, is_digit b = true) (bytes_of s) →
  ∃ a r, s = String a r ∧ 48 ≤ byte_of a ≤ 57.
Proof.
  destruct s as [|a r]; [done|]. cbn. intros _ H. inversion H; subst.
  eexists _, _. split; [done|]. by apply in_range_true.
Qed.

Lemma ParseInt_body s neg :
  s ≠ "" → Forall (λ b, is_digit b = true) (bytes_of s) →
  ParseInt (if neg : bool then "-" +:+ s else s) =
  match ParseUint s with
  | NumSyntax => NumSyntax
  | NumOk un | NumRange un =>
    if negb neg && (2 ^ 63 <=? un) then NumRange int64_max
    else if neg && (2 ^ 63 <? un) then NumRange int64_min
    else NumOk (if neg then - un else un)
  end.
Proof.
  intros Hne Hd. destruct neg; [done|].
  destruct (first_digit s Hne Hd) as (a & r & -> & Ha). unfold ParseInt.
  by rewrite (proj2 (Z.eqb_neq _ 43)), (proj2 (Z.eqb_neq _ 45)) by lia.
Qed.

(** Printing then parsing a 64-bit integer gives it back. *)
Lemma ParseInt_Itoa z : int64_min ≤ z ≤ int64_max → ParseInt (Itoa z) = NumOk z.
Proof.
  intros Hz. unfold int64_min, int64_max in Hz. unfold Itoa.
  assert (∀ n, 0 ≤ n ≤ 2 ^ 63 → ParseUint (utoa n) = NumOk n) as Hp.
  { intros n Hn. unfold ParseUint. rewrite (proj2 (String.eqb_neq _ _)) by (apply utoa_nonempty; lia).
    apply parse_uint_go_dec; [lia|apply dec_value_utoa; lia|unfold uint64_max; lia]. }
  destruct (Z.ltb_spec z 0).
  - rewrite (ParseInt_body _ true) by first [by apply utoa_nonempty; lia|by apply utoa_digits; lia].
    rewrite Hp by lia. cbn [negb andb]. rewrite (proj2 (Z.ltb_ge _ _)) by lia. f_equal. lia.
  - rewrite (ParseInt_body _ false) by first [by apply utoa_nonempty; lia|by apply utoa_digits; lia].
    rewrite Hp by lia. cbn [negb andb]. rewrite (proj2 (Z.leb_gt _ _)) by lia. done.
Qed.

(** ** Hexadecimal round trip *)

Lemma from_hex_digit d : 0 ≤ d < 16 → from_hex (byte_of (hex_digit d)) = Some d.
Proof.
  intros Hd.
  assert (forallb (λ d, match from_hex (byte_of (hex_digit d)) with
    | Some e => e =? d | None => false end) (zrange 0 15) = true) as C by (vm_compute; reflexivity).
  pose proof (forallb_zrange _ _ _ d C ltac:(lia)) as C1. cbv beta in C1.
  destruct (from_hex _); [|done]. f_equal. lia.
Qed.

Lemma nibbles b : 0 ≤ b < 256 → Z.lor (Z.shiftl (Z.shiftr b 4) 4) (Z.land b 15) = b.
Proof.
  intros Hb.
  assert (forallb (λ b, Z.lor (Z.shiftl (Z.shiftr b 4) 4) (Z.land b 15) =? b) (zrange 0 255) = true)
    as C by (vm_compute; reflexivity).
  pose proof (forallb_zrange _ _ _ b C ltac:(lia)) as C1. cbv beta in C1. lia.
Qed.

Lemma nibble_bounds b : 0 ≤ b < 256 → 0 ≤ Z.shiftr b 4 < 16 ∧ 0 ≤ Z.land b 15 < 16.
Proof.
  intros. rewrite Z.shiftr_div_pow2 by lia. change 15 with (Z.ones 4).
  rewrite Z.land_ones by lia. split; [|apply Z.mod_pos_bound; lia].
  split; [apply Z.div_pos; lia|apply Z.div_lt_upper_bound; lia].
Qed.

Lemma hex_decode_encode l : Forall (λ b, 0 ≤ b < 256) l → hex_decode (hex_encode l) = Some l.
Proof.
  induction 1 as [|b l Hb _ IH]; [done|]. cbn.
  pose proof (nibble_bounds b Hb) as [? ?].
  rewrite !from_hex_digit by done. cbn. rewrite IH. cbn. by rewrite nibbles.
Qed.

Lemma length_hex_encode l : String.length (hex_encode l) = (2 * List.length l)%nat.
Proof. induction l; cbn; lia. Qed.

Lemma hex_decode_cons a b r l :
  hex_decode (String a (String b r)) = Some l →
  ∃ h k t, from_hex (byte_of a) = Some h ∧ from_hex (byte_of b) = Some k ∧
           hex_decode r = Some t ∧ l = Z.lor (Z.shiftl h 4) k :: t.
Proof.
  cbn. destruct (from_hex (byte_of a)), (from_hex (byte_of b)), (hex_decode r);
    cbn; naive_solver.
Qed.

Lemma hex_decode_length l : ∀ s,
  hex_decode s = Some l → String.length s = (2 * List.length l)%nat.
Proof.
  induction l as [|x l IH]; intros [|a [|b r]]; try done.
  all: intros (h & k & t & _ & _ & Hr & ?)%hex_decode_cons; simplify_eq.
  apply IH in Hr. cbn. lia.
Qed.

(** ** SHA-256 output shape *)

Lemma length_be_bytes n z : List.length (be_bytes n z) = n.
Proof. unfold be_bytes. by rewrite length_fmap, length_seq. Qed.

Lemma be_bytes_range n z : Forall (λ b, 0 ≤ b < 256) (be_bytes n z).
Proof.
  unfold be_bytes. rewrite Forall_fmap. apply Forall_true. intros i. cbn.
  change 255 with (Z.ones 8). rewrite Z.land_ones by lia. apply Z.mod_pos_bound. lia.
Qed.

Lemma sha256_length m : List.length (sha256 m) = 32%nat.
Proof. Transparent sha256. unfold sha256. by rewrite !length_app, !length_be_bytes. Qed.

Lemma sha256_range m : Forall (λ b, 0 ≤ b < 256) (sha256 m).
Proof. Transparent sha256. unfold sha256. rewrite !Forall_app. repeat split; apply be_bytes_range. Qed.

#[global] Opaque sha256.

#[export] Hint Resolve sha256_length sha256_range be_bytes_range : tiny.

(** ** Machine integers *)

Lemma wrap64_small z : int64_min ≤ z ≤ int64_max → wrap64 z = z.
Proof. unfold wrap64, int64_min, int64_max. intros. rewrite Z.mod_small by lia. lia. Qed.

(** * Byte order on strings: a strict total order

    [str_ltb] is Go's [<] on strings and SQLite's BINARY collation; ordering
    an event list by (created_at, id) relies on it being total. *)

Lemma str_ltb_lt s t : str_ltb s t = true ↔ String_as_OT.lt s t.
Proof.
  rewrite <-String_as_OT.cmp_lt. unfold str_ltb, String.ltb.
  change (String_as_OT.cmp s t) with (String.compare s t).
  by destruct (String.compare s t).
Qed.

Lemma str_ltb_trans s t u : str_ltb s t = true → str_ltb t u = true → str_ltb s u = true.
Proof. rewrite !str_ltb_lt. apply String_as_OT.lt_trans. Qed.

Lemma str_ltb_irrefl s : str_ltb s s = false.
Proof.
  apply not_true_iff_false. rewrite str_ltb_lt. intros H. by apply String_as_OT.lt_not_eq in H.
Qed.

Lemma str_trichotomy s t : str_ltb s t = true ∨ s = t ∨ str_ltb t s = true.
Proof.
  unfold str_ltb, String.ltb. rewrite (String.compare_antisym t s).
  destruct (String.compare s t) eqn:E; cbn; [|auto|auto].
  right; left. by apply String.compare_eq_iff.
Qed.

Lemma str_ltb_asym s t : str_ltb s t = true → str_ltb t s = false.
Proof.
  intros H. apply not_true_iff_false. intros H'.
  pose proof (str_ltb_trans _ _ _ H H') as Hs. by rewrite str_ltb_irrefl in Hs.
Qed.

(** ** The order of a result page: newest first, then by identifier *)

(** [before c1 i1 c2 i2]: the key (c1, i1) comes strictly first. *)
Definition key_before (c1 : Z) (i1 : string) (c2 : Z) (i2 : string) : bool :=
  (c2 <? c1) || (c1 =? c2) && str_ltb i1 i2.

Lemma key_before_trans c1 i1 c2 i2 c3 i3 :
  key_before c1 i1 c2 i2 = true → key_before c2 i2 c3 i3 = true → key_before c1 i1 c3 i3 = true.
Proof.
  unfold key_before. rewrite !orb_true_iff, !andb_true_iff, !Z.ltb_lt, !Z.eqb_eq.
  intros [?|[? H1]] [?|[? H2]]; [left; lia..|].
  right. split; [lia|]. by eapply str_ltb_trans.
Qed.

Lemma key_before_irrefl c i : key_before c i c i = false.
Proof. unfold key_before. by rewrite Z.ltb_irrefl, Z.eqb_refl, str_ltb_irrefl. Qed.

Lemma key_before_asym c1 i1 c2 i2 : key_before c1 i1 c2 i2 = true → key_before c2 i2 c1 i1 = false.
Proof.
  intros H. apply not_true_iff_false. intros H'.
  pose proof (key_before_trans _ _ _ _ _ _ H H') as Hs. by rewrite key_before_irrefl in Hs.
Qed.

Lemma key_trichotomy c1 i1 c2 i2 :
  key_before c1 i1 c2 i2 = true ∨ (c1 = c2 ∧ i1 = i2) ∨ key_before c2 i2 c1 i1 = true.
Proof.
  unfold key_before. rewrite !orb_true_iff, !andb_true_iff, !Z.ltb_lt, !Z.eqb_eq.
  destruct (Z.lt_trichotomy c1 c2) as [?|[?|?]]; [auto| |auto].
  destruct (str_trichotomy i1 i2) as [?|[?|?]]; auto.
Qed.

(** ** ORDER BY *)

Definition ordered {A} (leb : A → A → bool) (a b : A) : Prop := leb a b = true.
#[export] Instance ordered_dec {A} (leb : A → A → bool) : RelDecision (ordered leb).
Proof. intros a b. unfold ordered. apply _. Defined.
Definition sort_by {A} (leb : A → A → bool) (l : list A) : list A := merge_sort (ordered leb) l.

Lemma sort_by_perm {A} (leb : A → A → bool) (l : list A) : sort_by leb l ≡ₚ l.
Proof. apply merge_sort_Permutation. Qed.

(** ORDER BY a number, then a string; newest first. *)
Definition by_time_key (a b : Z * string) : bool := (a.1 <? b.1) || (a.1 =? b.1) && negb (str_ltb b.2 a.2).

(** Not after: the weak order of the keys. *)
Definition not_after (c1 : Z) (i1 : string) (c2 : Z) (i2 : string) : Prop := key_before c2 i2 c1 i1 = false.

Lemma not_after_total c1 i1 c2 i2 : not_after c1 i1 c2 i2 ∨ not_after c2 i2 c1 i1.
Proof. unfold not_after. destruct (key_before c2 i2 c1 i1) eqn:E; [right; by apply key_before_asym|by left]. Qed.

Lemma not_after_trans c1 i1 c2 i2 c3 i3 : not_after c1 i1 c2 i2 → not_after c2 i2 c3 i3 → not_after c1 i1 c3 i3.
Proof.
  unfold not_after. intros H1 H2. destruct (key_trichotomy c2 i2 c1 i1) as [E|[[-> ->]|E]]; [by rewrite E in H1|done|].
  destruct (key_trichotomy c3 i3 c2 i2) as [E'|[[-> ->]|E']]; [by rewrite E' in H2|done|].
  apply key_before_asym. by eapply key_before_trans.
Qed.

(** ** Splitting *)

Lemma no_char_digits s c : Forall (λ b, is_digit b = true) (bytes_of s) →
  (byte_of c < 48 ∨ 57 < byte_of c) → no_char c s.
Proof.
  intros H Hc. eapply Forall_impl; [exact H|]. intros b Hb. cbn in Hb.
  apply in_range_true in Hb. lia.
Qed.

Lemma split_go_step sep n cur a rest :
  no_char sep a →
  split_go sep (Some (S (S n))) cur (a +:+ String sep rest)
  = (cur +:+ a) :: split_go sep (Some (S n)) "" rest.
Proof.
  revert cur. induction a as [|x a IH]; intros cur Ha; cbn.
  - rewrite Ascii.eqb_refl. cbn. by rewrite str_app_nil_r.
  - inversion Ha as [|? ? Hx Hr]; subst.
    destruct (Ascii.eqb_spec x sep) as [->|_]; [done|]. cbn. rewrite IH by done.
    by rewrite str_app_assoc.
Qed.

Lemma split_go_last sep cur s : split_go sep (Some 1%nat) cur s = [cur +:+ s].
Proof.
  revert cur. induction s as [|x s IH]; intros cur; cbn.
  - by rewrite str_app_nil_r.
  - rewrite andb_false_r. cbn. rewrite IH. by rewrite str_app_assoc.
Qed.
