(* ===== verification/Nostr.v ===== *)
(** * protocol/nostr: events

    The event record, its canonical serialization and identifier, the wire
    checks of [Validate], signing, and the tag helpers of event.go.  Schnorr
    signatures and key derivation (btcec) and proof-of-work counting (nip13)
    are third-party code and appear as the parameters of [NostrCrypto]. *)

From S2P Require Import Prelude GoLib GoCodec.

(** [Tags] is [None] for a nil slice; a nil inner tag is the empty list. *)
Record Event := mkEvent {
  ID : string;
  PubKey : string;
  CreatedAt : Z;
  Kind : Z;
  Tags : option (list (list string));
  Content : string;
  Sig : string;
}.

#[export] Instance Event_eq_dec : EqDecision Event.
Proof. solve_decision. Defined.

(** The tags a [range] loop visits. *)
Definition etags (e : Event) : list (list string) := default [] (Tags e).

(** [nil_event]: Go's zero [Event{}]. *)
Definition nil_event : Event := mkEvent "" "" 0 0 None "" "".

(** ** Third-party cryptography *)

Class NostrCrypto := {
  (** [schnorr.ParsePubKey], [ParseSignature] and [Verify] on raw bytes *)
  schnorr_verify : list Z → list Z → list Z → bool;
  (** x-only public key of a 32-byte secret *)
  schnorr_pubkey : list Z → list Z;
  (** [schnorr.Sign]; [None] is its error *)
  schnorr_sign : list Z → list Z → option (list Z);
  (** [nostr.IDFromHex] followed by [nip13.Difficulty], 0 for a bad id *)
  nip13_difficulty : string → Z;
}.

(** The documented contract of the signature library: keys and signatures
    have their fixed widths and a signature made with a secret verifies
    under its public key. *)
Class NostrCryptoLaws `{NostrCrypto} := {
  schnorr_pubkey_len sk : List.length (schnorr_pubkey sk) = 32%nat;
  schnorr_pubkey_bytes sk : Forall (λ b, 0 ≤ b < 256) (schnorr_pubkey sk);
  schnorr_sign_len sk h s : schnorr_sign sk h = Some s → List.length s = 64%nat;
  schnorr_sign_bytes sk h s : schnorr_sign sk h = Some s → Forall (λ b, 0 ≤ b < 256) s;
  schnorr_sign_verify sk h s :
    schnorr_sign sk h = Some s → schnorr_verify (schnorr_pubkey sk) s h = true;
}.

(** ** Hexadecimal fields *)

Fixpoint isHex (s : string) : bool :=
  match s with
  | EmptyString => true
  | String a r => (in_range 48 (byte_of a) 57 || in_range 97 (byte_of a) 102) && isHex r
  end.
Definition hex64 (s : string) : bool := (len s =? 64) && isHex s.

(** ** Canonical serialization *)

Definition json_tag (t : list string) : string := json_array (json_string <$> t).
Definition json_tags (t : option (list (list string))) : string :=
  match t with None => "null" | Some l => json_array (json_tag <$> l) end.

(** The encoder's output for [[]any{0, pubkey, created_at, kind, tags, content}]
    with the trailing newline trimmed. *)
Definition encode_for_id (e : Event) : string :=
  json_array ["0"; json_string (PubKey e); Itoa (CreatedAt e); Itoa (Kind e);
              json_tags (Tags e); json_string (Content e)].

Definition LS : string := string_of_bytes [226; 128; 168].
Definition PS : string := string_of_bytes [226; 128; 169].

Definition serializeForID (e : Event) : string :=
  ReplaceAll (ReplaceAll (encode_for_id e) "\u2028" LS) "\u2029" PS.

Definition Canonical (e : Event) : string :=
  let field n v := json_string n +:+ ":" +:+ v in
  "{" +:+ json_join [field "id" (json_string (ID e)); field "pubkey" (json_string (PubKey e));
    field "created_at" (Itoa (CreatedAt e)); field "kind" (Itoa (Kind e));
    field "tags" (json_tags (Tags e)); field "content" (json_string (Content e));
    field "sig" (json_string (Sig e))] +:+ "}".

(** ** Tag helpers *)

Fixpoint tag_first (tags : list (list string)) (name : string) : string :=
  match tags with
  | (n :: v :: _) :: r => if String.eqb n name then v else tag_first r name
  | _ :: r => tag_first r name
  | [] => ""
  end.
Definition Tag (e : Event) (name : string) : string := tag_first (etags e) name.

Fixpoint tag_values (tags : list (list string)) (name : string) : list string :=
  match tags with
  | (n :: v :: _) :: r => if String.eqb n name then v :: tag_values r name else tag_values r name
  | _ :: r => tag_values r name
  | [] => []
  end.
Definition TagValues (e : Event) (name : string) : list string := tag_values (etags e) name.

Definition Expiration (e : Event) : Z :=
  match ParseInt (Tag e "expiration") with
  | NumOk v => if v <=? 0 then 0 else v
  | _ => 0
  end.

Fixpoint committed_go (tags : list (list string)) : Z :=
  match tags with
  | (n :: _ :: t :: _) :: r => if String.eqb n "nonce" then num_value (Atoi t) else committed_go r
  | _ :: r => committed_go r
  | [] => 0
  end.
Definition CommittedDifficulty (e : Event) : Z := committed_go (etags e).

(** ** Kind ranges *)

Definition IsEphemeral (k : Z) : bool := (20000 <=? k) && (k <? 30000).
Definition IsReplaceable (k : Z) : bool :=
  (k =? 0) || (k =? 3) || (10000 <=? k) && (k <? 20000).
Definition IsAddressable (k : Z) : bool := (30000 <=? k) && (k <? 40000).

(** ** Validation, keys and signing *)

Definition allZero (value : list Z) : bool := forallb (λ b, b =? 0) value.

Section Crypto.
Context `{NostrCrypto} `{GoUnicode}.

Definition Difficulty (id : string) : Z := nip13_difficulty id.

Definition verifySignature (e : Event) (hash : list Z) : bool :=
  match hex_decode (PubKey e), hex_decode (Sig e) with
  | Some pubkey, Some signature => schnorr_verify pubkey signature hash
  | _, _ => false
  end.

Definition Validate (e : Event) : result unit :=
  guard_err (negb (hex64 (ID e))) "invalid: bad id";;
  guard_err (negb (hex64 (PubKey e))) "invalid: bad pubkey";;
  guard_err (negb (len (Sig e) =? 128) || negb (isHex (Sig e))) "invalid: bad sig";;
  guard_err ((Kind e <? 0) || (65535 <? Kind e)) "invalid: kind out of range";;
  guard_err (CreatedAt e <? 0) "invalid: bad created_at";;
  guard_err (match Tags e with None => true | _ => false end) "invalid: tags must be a list";;
  guard_err (existsb (λ t, match t with [] => true | _ => false end) (etags e))
    "invalid: bad tag";;
  let sum := sha256 (bytes_of (serializeForID e)) in
  guard_err (negb (String.eqb (ID e) (hex_encode sum)) || negb (verifySignature e sum))
    "invalid: id or signature does not match content".

Definition decodeSecret (value : string) : result (list Z) :=
  guard_err (negb (len value =? 64)) "invalid secret key: expected 64 hex characters";;
  match hex_decode (ToLower value) with
  | None => Err "invalid secret key: encoding/hex: invalid byte"
  | Some secret => guard_err (allZero secret) "invalid secret key";; mret secret
  end.

Definition PublicKey (secretHex : string) : result string :=
  secret ← decodeSecret secretHex; mret (hex_encode (schnorr_pubkey secret)).

(** [Sign(e, secretHex)]: the event after the call, or the error. *)
Definition Sign (e : Event) (secretHex : string) : result Event :=
  secret ← decodeSecret secretHex;
  let tags := Some (etags e) in
  let pk := hex_encode (schnorr_pubkey secret) in
  let e1 := mkEvent (ID e) pk (CreatedAt e) (Kind e) tags (Content e) (Sig e) in
  let sum := sha256 (bytes_of (serializeForID e1)) in
  match schnorr_sign secret sum with
  | None => Err "sign event"
  | Some signature =>
    mret (mkEvent (hex_encode sum) pk (CreatedAt e) (Kind e) tags (Content e)
            (hex_encode signature))
  end.
End Crypto.
