(* ===== verification/GoStrings.v ===== *)
(** * Go strings: slicing, searching, trimming, and the escapers

    The functions of [strings] the renderers and parsers use, on byte strings;
    a cutset is a predicate on ASCII bytes.  [HTMLEscapeString] is the one of
    text/template, [PathEscape] and [QueryEscape] those of net/url, whose
    parser is the parameter [GoURL]. *)

From S2P Require Import Prelude GoLib GoCodec GoLemmas.
From S2P Require Import Nostr.

(** ** net/url *)

Record URL := mkURL {
  u_scheme : string; u_host : string; u_path : string; u_user : bool; u_query : string; u_fragment : string }.
Class GoURL := {
  url_parse : string → option URL;
  (** [URL.String] of a URL with the fields given *)
  url_string : URL → string;
}.

(** ** Slices and searches *)

Fixpoint drop_str (n : nat) (s : string) : string :=
  match n, s with S k, String _ r => drop_str k r | _, _ => s end.
Fixpoint take_str (n : nat) (s : string) : string :=
  match n, s with S k, String a r => String a (take_str k r) | _, _ => "" end.

#[global] Arguments drop_str !n !s : simpl nomatch.
#[global] Arguments take_str !n !s : simpl nomatch.

(** [s[n]], where [n] is in range *)
Definition byte_at (s : string) (n : nat) : Z := match drop_str n s with String a _ => byte_of a | EmptyString => -1 end.

Definition HasSuffix (s p : string) : bool :=
  (String.length p <=? String.length s)%nat
  && String.eqb (String.substring (String.length s - String.length p) (String.length p) s) p.

Definition TrimPrefix (s p : string) : string := if HasPrefix s p then drop_str (String.length p) s else s.
Definition TrimSuffix (s p : string) : string :=
  if HasSuffix s p then take_str (String.length s - String.length p) s else s.

Fixpoint TrimLeft (cut : Z → bool) (s : string) : string :=
  match s with String a r => if cut (byte_of a) then TrimLeft cut r else s | EmptyString => "" end.
Fixpoint TrimRight (cut : Z → bool) (s : string) : string :=
  match s with
  | EmptyString => ""
  | String a r => match TrimRight cut r with "" => if cut (byte_of a) then "" else String a "" | t => String a t end
  end.
Definition Trim (cut : Z → bool) (s : string) : string := TrimRight cut (TrimLeft cut s).

(** [strings.Index], -1 as [None] *)
Fixpoint Index (s sub : string) : option nat :=
  if String.prefix sub s then Some O else match s with EmptyString => None | String _ r => S <$> Index r sub end.

(** [strings.Cut], its third result left out *)
Definition Cut (s sep : string) : string * string :=
  match Index s sep with
  | Some i => (take_str i s, drop_str (i + String.length sep) s)
  | None => (s, "")
  end.

Definition ContainsAny (cut : Z → bool) (s : string) : bool := existsb cut (bytes_of s).

Fixpoint Join (l : list string) (sep : string) : string :=
  match l with [] => "" | [s] => s | s :: r => s +:+ sep +:+ Join r sep end.

(** ** Escaping *)

Fixpoint flat_str (f : Z → string) (s : string) : string :=
  match s with EmptyString => "" | String a r => f (byte_of a) +:+ flat_str f r end.

Definition html_escape (b : Z) : string :=
  if b =? 0 then string_of_bytes [239; 191; 189]
  else if b =? 34 then "&#34;" else if b =? 38 then "&amp;" else if b =? 39 then "&#39;"
  else if b =? 60 then "&lt;" else if b =? 62 then "&gt;" else str1 b.
Definition HTMLEscapeString (s : string) : string := flat_str html_escape s.

Definition upper_hex (d : Z) : string := str1 (if d <? 10 then 48 + d else 55 + d).
Definition percent (b : Z) : string := "%" +:+ upper_hex (Z.shiftr b 4) +:+ upper_hex (Z.land b 15).
Definition unreserved (b : Z) : bool :=
  in_range 97 b 122 || in_range 65 b 90 || in_range 48 b 57 || containsInt [45; 95; 46; 126] b.
Definition PathEscape (s : string) : string :=
  flat_str (λ b, if unreserved b || containsInt [36; 38; 43; 58; 61; 64] b then str1 b else percent b) s.
Definition QueryEscape (s : string) : string :=
  flat_str (λ b, if unreserved b then str1 b else if b =? 32 then "+" else percent b) s.

(** ** Lengths *)

Lemma length_drop_str n s : String.length (drop_str n s) = (String.length s - n)%nat.
Proof. revert s; induction n as [|n IH]; intros [|a s]; cbn; auto. Qed.

Lemma length_take_str n s : String.length (take_str n s) = min n (String.length s).
Proof. revert s; induction n as [|n IH]; intros [|a s]; cbn; auto. Qed.

Lemma take_drop_str n s : take_str n s +:+ drop_str n s = s.
Proof. revert s; induction n as [|n IH]; intros [|a s]; cbn; [done..|]. by rewrite IH. Qed.

Lemma length_TrimLeft cut s : (String.length (TrimLeft cut s) <= String.length s)%nat.
Proof. induction s as [|a s IH]; cbn; [lia|]. destruct (cut (byte_of a)); cbn; lia. Qed.

Lemma length_str_concat_le l l' :
  l `sublist_of` l' →
  (String.length (str_concat (rune_src <$> l)) <= String.length (str_concat (rune_src <$> l')))%nat.
Proof. induction 1; cbn; rewrite ?str_app_length; lia. Qed.

Lemma drop_space_sublist l : drop_space l `sublist_of` l.
Proof. induction l as [|r l IH]; cbn; [done|]. destruct (is_space (rune_code r)); [by apply sublist_cons|done]. Qed.

Lemma rev_sublist {A} (l l' : list A) : l `sublist_of` l' → rev l `sublist_of` rev l'.
Proof.
  induction 1; cbn; [done|by apply sublist_app|]. by apply sublist_inserts_r.
Qed.

Lemma length_TrimSpace s : (String.length (TrimSpace s) <= String.length s)%nat.
Proof.
  rewrite <-(runes_src s) at 2. apply length_str_concat_le.
  etrans; [apply rev_sublist, drop_space_sublist|]. rewrite rev_involutive. apply drop_space_sublist.
Qed.

Lemma prefix_length p s : String.prefix p s = true → (String.length p <= String.length s)%nat.
Proof.
  revert s; induction p as [|a p IH]; intros [|b s]; cbn; [lia|lia|done|].
  destruct (ascii_dec a b); [|done]. intros ?%IH. lia.
Qed.

Lemma Index_bound s sub i : Index s sub = Some i → (i + String.length sub <= String.length s)%nat.
Proof.
  revert i; induction s as [|a s IH]; intros i; cbn [Index].
  - destruct sub; cbn; [by intros [= <-]|done].
  - destruct (String.prefix sub (String a s)) eqn:E; [intros [= <-]; by apply prefix_length in E|].
    destruct (Index s sub) as [j|] eqn:Ej; [|done]. intros [= <-]. specialize (IH j eq_refl). cbn. lia.
Qed.

Lemma flat_str_app f s t : flat_str f (s +:+ t) = flat_str f s +:+ flat_str f t.
Proof. induction s as [|a s IH]; cbn; [done|]. by rewrite IH, str_app_assoc. Qed.

Lemma str_concat_app l l' : str_concat (l ++ l') = str_concat l +:+ str_concat l'.
Proof. induction l as [|x l IH]; cbn; [done|]. by rewrite IH, str_app_assoc. Qed.

(** * Go text output: HTML-safe JSON and quoted strings

    [json.Marshal] on strings (escaping the HTML characters), on events and on
    the message arrays the relay writes, and [strconv.Quote], which [%q] uses.
    Which runes outside ASCII print is the Unicode table of the language
    runtime ([is_print]). *)

(** ** encoding/json with HTML escaping *)

Definition html_ascii (b : Z) : string :=
  if (b =? 60) || (b =? 62) || (b =? 38)
  then "\u00" +:+ String (hex_digit (Z.shiftr b 4)) (String (hex_digit (Z.land b 15)) "")
  else esc_ascii b.

Definition html_rune (r : rune) : string :=
  if negb (rune_invalid r) && (rune_code r <? 128) then html_ascii (rune_code r) else json_rune r.

Definition json_html (s : string) : string := quote (str_concat (html_rune <$> runes s)).

Definition json_bool (b : bool) : string := if b then "true" else "false".

(** The struct's fields in order, as [json.Marshal(e)] writes them. *)
Definition event_json (e : Event) : string :=
  let field n v := json_html n +:+ ":" +:+ v in
  let tags := match Tags e with
              | None => "null"
              | Some l => json_array ((λ t, json_array (json_html <$> t)) <$> l)
              end in
  "{" +:+ json_join [field "id" (json_html (ID e)); field "pubkey" (json_html (PubKey e));
    field "created_at" (Itoa (CreatedAt e)); field "kind" (Itoa (Kind e)); field "tags" tags;
    field "content" (json_html (Content e)); field "sig" (json_html (Sig e))] +:+ "}".

(** ** strconv.Quote *)

Class GoPrint := { is_print : Z → bool }.

Fixpoint hex_digits (n : nat) (z : Z) : string :=
  match n with
  | O => ""
  | S m => hex_digits m (Z.shiftr z 4) +:+ String (hex_digit (Z.land z 15)) ""
  end.

Section Quote.
Context `{GoPrint}.

Definition IsPrint (r : Z) : bool := if r <? 128 then in_range 32 r 126 else is_print r.

Definition quote_rune (r : rune) : string :=
  let c := rune_code r in
  if rune_invalid r then str_concat ((λ b, "\x" +:+ hex_digits 2 b) <$> bytes_of (rune_src r))
  else if (c =? 34) || (c =? 92) then "\" +:+ str1 c
  else if IsPrint c then rune_src r
  else if c =? 7 then "\a" else if c =? 8 then "\b" else if c =? 12 then "\f" else if c =? 10 then "\n"
  else if c =? 13 then "\r" else if c =? 9 then "\t" else if c =? 11 then "\v"
  else if (c <? 32) || (c =? 127) then "\x" +:+ hex_digits 2 c
  else if c <? 65536 then "\u" +:+ hex_digits 4 c
  else "\U" +:+ hex_digits 8 c.

Definition Quote (s : string) : string := quote (str_concat (quote_rune <$> runes s)).
End Quote.

(** * encoding/base64: the decoders the code uses

    [Encoding.DecodeString] for the standard and the URL alphabet, padded and
    raw, strict (unused bits must be zero) and lenient: groups of four, line
    breaks skipped, padding only at the end. *)

Record b64_encoding := B64 { b64_url : bool; b64_padded : bool; b64_strict : bool }.
Definition StdEncoding : b64_encoding := B64 false true false.
Definition RawStdEncoding : b64_encoding := B64 false false false.
Definition URLEncoding : b64_encoding := B64 true true false.
Definition RawURLEncoding : b64_encoding := B64 true false false.
Definition Strict (enc : b64_encoding) : b64_encoding := B64 (b64_url enc) (b64_padded enc) true.

Definition b64_value (url : bool) (b : Z) : option Z :=
  if in_range 65 b 90 then Some (b - 65)
  else if in_range 97 b 122 then Some (b - 71)
  else if in_range 48 b 57 then Some (b + 4)
  else if b =? (if url then 45 else 43) then Some 62
  else if b =? (if url then 95 else 47) then Some 63
  else None.

(** The one byte of two digits, and the two bytes of three. *)
Definition b64_two (strict : bool) (va vb : Z) : option (list Z) :=
  if strict && negb (Z.land vb 15 =? 0) then None else Some [Z.lor (Z.shiftl va 2) (Z.shiftr vb 4)].
Definition b64_three (strict : bool) (va vb vc : Z) : option (list Z) :=
  if strict && negb (Z.land vc 3 =? 0) then None
  else Some [Z.lor (Z.shiftl va 2) (Z.shiftr vb 4); Z.lor (Z.shiftl (Z.land vb 15) 4) (Z.shiftr vc 2)].

(** The groups of the text; [61] is the padding character. *)
Fixpoint b64_groups (enc : b64_encoding) (l : list Z) : option (list Z) :=
  let value := b64_value (b64_url enc) in
  let pad b := b64_padded enc && (b =? 61) in
  match l with
  | [] => Some []
  | [a; b] =>
    if b64_padded enc then None else va ← value a; vb ← value b; b64_two (b64_strict enc) va vb
  | [a; b; c] =>
    if b64_padded enc then None
    else va ← value a; vb ← value b; vc ← value c; b64_three (b64_strict enc) va vb vc
  | a :: b :: c :: d :: r =>
    va ← value a; vb ← value b;
    if pad c then
      if pad d && Nat.eqb (List.length r) 0 then b64_two (b64_strict enc) va vb else None
    else
      vc ← value c;
      if pad d then
        if Nat.eqb (List.length r) 0 then b64_three (b64_strict enc) va vb vc else None
      else
        vd ← value d; rest ← b64_groups enc r;
        Some (Z.lor (Z.shiftl va 2) (Z.shiftr vb 4) :: Z.lor (Z.shiftl (Z.land vb 15) 4) (Z.shiftr vc 2)
              :: Z.lor (Z.shiftl (Z.land vc 3) 6) vd :: rest)
  | _ => None
  end.

Definition DecodeString (enc : b64_encoding) (s : string) : option (list Z) :=
  b64_groups enc (List.filter (λ b, negb ((b =? 10) || (b =? 13))) (bytes_of s)).

(** [base64.StdEncoding.Strict().DecodeString] *)
Definition base64_decode (s : string) : option (list Z) := DecodeString (Strict StdEncoding) s.

Example base64_hello : base64_decode "aGVsbG8=" = Some (bytes_of "hello").
Proof. reflexivity. Qed.
Example base64_trailing_bits : base64_decode "aGVsbG9=" = None.
Proof. reflexivity. Qed.
Example base64_raw : DecodeString RawURLEncoding "aGVsbG9" = Some (bytes_of "hello").
Proof. reflexivity. Qed.
