(* ===== verification/GoRunes.v ===== *)
(** * Encoding a rune and reading it back

    [encode_rune] (utf8.AppendRune) and [runes] are inverse on code points,
    and mapping the runes of such a string maps its code points. *)

From S2P Require Import Prelude GoLib GoCodec GoLemmas GoStrings.

(** A Unicode scalar value. *)
Definition scalar (r : Z) : bool := in_range 0 r 1114111 && negb (in_range 55296 r 57343).

Lemma lor_low a n x : 0 ≤ n → 0 ≤ x < 2 ^ n → Z.lor (Z.shiftl a n) x = a * 2 ^ n + x.
Proof.
  intros Hn Hx. rewrite Z.shiftl_mul_pow2 by done. symmetry. rewrite Z.add_comm.
  rewrite <-(Z.lor_comm x). apply Z.bits_inj'. intros i Hi. rewrite Z.lor_spec.
  destruct (Z.lt_ge_cases i n).
  - rewrite (Z.mul_pow2_bits_low a n i) by done. rewrite orb_false_r.
    rewrite <-(Z.mod_pow2_bits_low _ n i) by done. rewrite Z.mod_add by (apply Z.pow_nonzero; lia).
    by rewrite (Z.mod_small x) by done.
  - replace (Z.testbit x i) with false by (symmetry; rewrite <-(Z.mod_small x (2 ^ n)) by done; by apply Z.mod_pow2_bits_high).
    rewrite Z.mul_pow2_bits by done. replace i with (i - n + n) at 1 by lia. rewrite <-Z.div_pow2_bits by lia.
    rewrite Z.div_add by (apply Z.pow_nonzero; lia). by rewrite (Z.div_small x) by done.
Qed.

(** The marker bits of a byte and its payload. *)
Lemma marked m k x :
  (m, k) ∈ [(128, 64); (192, 32); (224, 16); (240, 8)] → 0 ≤ x < k → Z.lor m x = m + x ∧ Z.land (m + x) (k - 1) = x.
Proof.
  assert (∀ m k, forallb (λ x, (Z.lor m x =? m + x) && (Z.land (m + x) (k - 1) =? x)) (zrange 0 (k - 1)) = true →
    0 ≤ x < k → Z.lor m x = m + x ∧ Z.land (m + x) (k - 1) = x) as Hgen.
  { intros m' k' Hf Hx. pose proof (forallb_zrange _ _ _ x Hf ltac:(lia)) as Hc. cbv beta in Hc.
    rewrite andb_true_iff, !Z.eqb_eq in Hc. done. }
  intros Hin. repeat (apply elem_of_cons in Hin as [[= -> ->]|Hin]; [apply Hgen; vm_compute; done|]). by apply elem_of_nil in Hin.
Qed.

Lemma payload r n k : 0 ≤ n → Z.land (Z.shiftr r n) 63 = (r / 2 ^ n) mod 64 ∧ (k = 63 → Z.land r k = r mod 64).
Proof.
  intros Hn. rewrite Z.shiftr_div_pow2 by done. change 63 with (Z.ones 6). split; [by rewrite Z.land_ones|].
  intros ->. by rewrite Z.land_ones.
Qed.

Lemma bytes_str_cons b l : string_of_bytes (b :: l) = String (char b) (string_of_bytes l).
Proof. done. Qed.

#[local] Ltac cases_range :=
  repeat match goal with
  | |- context [?a <? ?b] => first [rewrite (proj2 (Z.ltb_lt a b)) by lia | rewrite (proj2 (Z.ltb_ge a b)) by lia]
  end.

Lemma in_range_yes lo b hi : lo ≤ b ≤ hi → in_range lo b hi = true.
Proof. by rewrite in_range_true. Qed.
Lemma in_range_no lo b hi : b < lo ∨ hi < b → in_range lo b hi = false.
Proof. intros Hb. apply not_true_iff_false. rewrite in_range_true. lia. Qed.

(** A code point that is not replaced. *)
Lemma encode_rune_scalar r : scalar r = true →
  encode_rune r =
    if r <? 128 then str1 r
    else if r <? 2048 then string_of_bytes [192 + r / 64; 128 + r mod 64]
    else if r <? 65536 then string_of_bytes [224 + r / 4096; 128 + (r / 64) mod 64; 128 + r mod 64]
    else string_of_bytes [240 + r / 262144; 128 + (r / 4096) mod 64; 128 + (r / 64) mod 64; 128 + r mod 64].
Proof.
  intros [Hr Hs]%andb_true_iff. rewrite in_range_true in Hr. apply negb_true_iff in Hs.
  unfold encode_rune. rewrite Hs. cases_range. cbn [orb]. cbv zeta.
  destruct (Z.ltb_spec r 128) as [|H1]; [done|].
  assert (∀ n, 0 ≤ n → Z.lor 128 (Z.land (Z.shiftr r n) 63) = 128 + (r / 2 ^ n) mod 64) as Hc.
  { intros n Hn. destruct (payload r n 63 Hn) as (-> & _). by apply (marked 128 64); [set_solver|apply Z.mod_pos_bound]. }
  rewrite !Hc by lia. destruct (payload r 0 63 ltac:(lia)) as (_ & ->); [|done].
  destruct (marked 128 64 (r mod 64) ltac:(set_solver) ltac:(apply Z.mod_pos_bound; lia)) as (-> & _).
  rewrite !Z.shiftr_div_pow2 by done. change (2 ^ 6) with 64. change (2 ^ 12) with 4096. change (2 ^ 18) with 262144.
  repeat case_match; repeat match goal with H : (_ <? _) = true |- _ => apply Z.ltb_lt in H | H : (_ <? _) = false |- _ => apply Z.ltb_ge in H end.
  - destruct (marked 192 32 (r / 64) ltac:(set_solver)) as (-> & _); [split; [apply Z.div_pos; lia|apply Z.div_lt_upper_bound; lia]|done].
  - destruct (marked 224 16 (r / 4096) ltac:(set_solver)) as (-> & _); [split; [apply Z.div_pos; lia|apply Z.div_lt_upper_bound; lia]|done].
  - destruct (marked 240 8 (r / 262144) ltac:(set_solver)) as (-> & _); [split; [apply Z.div_pos; lia|apply Z.div_lt_upper_bound; lia]|done].
Qed.

Lemma cont_yes x : 0 ≤ x < 64 → cont (128 + x) = true.
Proof. intros. unfold cont. rewrite !(proj2 (Z.leb_le _ _)) by lia. done. Qed.

Lemma encode2 r rest : 128 ≤ r < 2048 →
  runes (string_of_bytes [192 + r / 64; 128 + r mod 64] +:+ rest) = Rune r (string_of_bytes [192 + r / 64; 128 + r mod 64]) :: runes rest.
Proof.
  intros Hr. assert (2 ≤ r / 64 < 32) as Ha by (split; [apply Z.div_le_lower_bound; lia|apply Z.div_lt_upper_bound; lia]).
  pose proof (Z.mod_pos_bound r 64 ltac:(lia)) as Hb. pose proof (Z.div_mod r 64 ltac:(lia)) as Hd.
  set (a := r / 64) in *. set (b := r mod 64) in *.
  destruct (marked 192 32 a ltac:(set_solver) ltac:(lia)) as (_ & E1). destruct (marked 128 64 b ltac:(set_solver) Hb) as (_ & E2).
  cbn [string_of_bytes String.append runes]. rewrite !byte_of_char by lia. cases_range.
  unfold valid2. rewrite in_range_yes, cont_yes by lia. cbn [andb].
  change 31 with (32 - 1). change 63 with (64 - 1). rewrite E1, E2, lor_low by lia. do 2 f_equal. lia.
Qed.

Lemma encode3 r rest : scalar r = true → 2048 ≤ r < 65536 →
  let bs := string_of_bytes [224 + r / 4096; 128 + (r / 64) mod 64; 128 + r mod 64] in
  runes (bs +:+ rest) = Rune r bs :: runes rest.
Proof.
  intros [_ Hs%negb_true_iff]%andb_true_iff Hr.
  assert (0 ≤ r / 4096 < 16) as Ha by (split; [apply Z.div_pos; lia|apply Z.div_lt_upper_bound; lia]).
  pose proof (Z.mod_pos_bound (r / 64) 64 ltac:(lia)) as Hb. pose proof (Z.mod_pos_bound r 64 ltac:(lia)) as Hc.
  assert (r = r / 4096 * 4096 + (r / 64) mod 64 * 64 + r mod 64) as Hd.
  { pose proof (Z.div_mod r 64 ltac:(lia)). pose proof (Z.div_mod (r / 64) 64 ltac:(lia)) as Hq.
    rewrite Z.div_div in Hq by lia. change (64 * 64) with 4096 in Hq. lia. }
  apply not_true_iff_false in Hs. rewrite in_range_true in Hs.
  set (a := r / 4096) in *. set (b := (r / 64) mod 64) in *. set (c := r mod 64) in *.
  destruct (marked 224 16 a ltac:(set_solver) ltac:(lia)) as (_ & E1). destruct (marked 128 64 b ltac:(set_solver) Hb) as (_ & E2).
  destruct (marked 128 64 c ltac:(set_solver) Hc) as (_ & E3).
  cbn [string_of_bytes String.append runes]. rewrite !byte_of_char by lia. cases_range.
  unfold valid2. rewrite in_range_no by lia. cbn [andb].
  unfold valid3. rewrite in_range_yes, cont_yes by lia.
  assert (in_range (if 224 + a =? 224 then 160 else 128) (128 + b) (if 224 + a =? 237 then 159 else 191) = true) as ->.
  { apply in_range_true. destruct (Z.eqb_spec (224 + a) 224), (Z.eqb_spec (224 + a) 237); lia. }
  cbn [andb]. change 15 with (16 - 1). change 63 with (64 - 1). rewrite E1, E2, E3, (lor_low b 6) by lia.
  rewrite lor_low by lia. do 2 f_equal. lia.
Qed.

Lemma encode4 r rest : scalar r = true → 65536 ≤ r →
  let bs := string_of_bytes [240 + r / 262144; 128 + (r / 4096) mod 64; 128 + (r / 64) mod 64; 128 + r mod 64] in
  runes (bs +:+ rest) = Rune r bs :: runes rest.
Proof.
  intros [Hi%in_range_true _]%andb_true_iff Hr.
  assert (0 ≤ r / 262144 < 5) as Ha by (split; [apply Z.div_pos; lia|apply Z.div_lt_upper_bound; lia]).
  pose proof (Z.mod_pos_bound (r / 4096) 64 ltac:(lia)) as Hx.
  pose proof (Z.mod_pos_bound (r / 64) 64 ltac:(lia)) as Hb. pose proof (Z.mod_pos_bound r 64 ltac:(lia)) as Hc.
  assert (r = r / 262144 * 262144 + (r / 4096) mod 64 * 4096 + (r / 64) mod 64 * 64 + r mod 64) as Hd.
  { pose proof (Z.div_mod r 64 ltac:(lia)). pose proof (Z.div_mod (r / 64) 64 ltac:(lia)) as Hq.
    pose proof (Z.div_mod (r / 4096) 64 ltac:(lia)) as Hq'. rewrite Z.div_div in Hq, Hq' by lia.
    change (64 * 64) with 4096 in Hq. change (4096 * 64) with 262144 in Hq'. lia. }
  set (a := r / 262144) in *. set (x := (r / 4096) mod 64) in *. set (b := (r / 64) mod 64) in *. set (c := r mod 64) in *.
  destruct (marked 240 8 a ltac:(set_solver) ltac:(lia)) as (_ & E1). destruct (marked 128 64 b ltac:(set_solver) Hb) as (_ & E2).
  destruct (marked 128 64 c ltac:(set_solver) Hc) as (_ & E3). destruct (marked 128 64 x ltac:(set_solver) Hx) as (_ & E4).
  cbn [string_of_bytes String.append runes]. rewrite !byte_of_char by lia. cases_range.
  unfold valid2. rewrite in_range_no by lia. cbn [andb].
  unfold valid3. rewrite in_range_no by lia. cbn [andb].
  unfold valid4. rewrite in_range_yes, !cont_yes by lia.
  assert (in_range (if 240 + a =? 240 then 144 else 128) (128 + x) (if 240 + a =? 244 then 143 else 191) = true) as ->.
  { apply in_range_true. destruct (Z.eqb_spec (240 + a) 240), (Z.eqb_spec (240 + a) 244); lia. }
  cbn [andb]. change 7 with (8 - 1). change 63 with (64 - 1). rewrite E1, E2, E3, E4, (lor_low b 6) by lia.
  rewrite (lor_low x 12) by lia. rewrite lor_low by lia. do 2 f_equal. lia.
Qed.

(** Reading an encoded code point gives it back. *)
Lemma runes_encode r rest : scalar r = true → runes (encode_rune r +:+ rest) = Rune r (encode_rune r) :: runes rest.
Proof.
  intros Hs. rewrite encode_rune_scalar by done. pose proof Hs as [Hi%in_range_true _]%andb_true_iff.
  destruct (Z.ltb_spec r 128).
  { unfold str1. cbn [String.append runes]. rewrite byte_of_char by lia. by rewrite (proj2 (Z.ltb_lt _ _)) by lia. }
  destruct (Z.ltb_spec r 2048); [by apply encode2|]. destruct (Z.ltb_spec r 65536); [by apply encode3|by apply encode4].
Qed.

Lemma runes_encode_all l : forallb scalar l = true →
  runes (str_concat (encode_rune <$> l)) = (λ r, Rune r (encode_rune r)) <$> l.
Proof.
  induction l as [|r l IH]; cbn; [done|]. intros [Hr Hl]%andb_true_iff. rewrite runes_encode by done. by rewrite IH.
Qed.

(** Outside ASCII every byte of the encoding is a marked one. *)
Lemma encode_bytes_high r : scalar r = true → 128 ≤ r → Forall (λ b, 128 ≤ b) (bytes_of (encode_rune r)) ∧ encode_rune r ≠ "".
Proof.
  intros Hs Hr. rewrite encode_rune_scalar by done. pose proof Hs as [Hi%in_range_true _]%andb_true_iff.
  assert (∀ x, 0 ≤ x mod 64 < 64) as Hm by (intros; by apply Z.mod_pos_bound).
  pose proof (Hm r); pose proof (Hm (r / 64)); pose proof (Hm (r / 4096)).
  rewrite (proj2 (Z.ltb_ge r 128)) by done.
  destruct (Z.ltb_spec r 2048) as [Hl|Hl]; [|destruct (Z.ltb_spec r 65536) as [Hl'|Hl']]; (split; [|done]).
  - assert (0 ≤ r / 64 < 32) by (split; [apply Z.div_pos; lia|apply Z.div_lt_upper_bound; lia]).
    cbn [string_of_bytes bytes_of]. rewrite !byte_of_char by lia. repeat constructor; lia.
  - assert (0 ≤ r / 4096 < 16) by (split; [apply Z.div_pos; lia|apply Z.div_lt_upper_bound; lia]).
    cbn [string_of_bytes bytes_of]. rewrite !byte_of_char by lia. repeat constructor; lia.
  - assert (0 ≤ r / 262144 < 5) by (split; [apply Z.div_pos; lia|apply Z.div_lt_upper_bound; lia]).
    cbn [string_of_bytes bytes_of]. rewrite !byte_of_char by lia. repeat constructor; lia.
Qed.

(** ** What is read is a scalar value *)

Lemma scalar_range r : 0 ≤ r ≤ 1114111 → ¬ (55296 ≤ r ≤ 57343) → scalar r = true.
Proof. intros Hr Hs. unfold scalar. rewrite in_range_yes by done. apply negb_true_iff, not_true_iff_false. by rewrite in_range_true. Qed.

Lemma cont_range b : cont b = true → 0 ≤ b - 128 < 64.
Proof. unfold cont. rewrite andb_true_iff, !Z.leb_le. lia. Qed.

Lemma payload_of m k b : (m, k) ∈ [(128, 64); (192, 32); (224, 16); (240, 8)] → 0 ≤ b - m < k → Z.land b (k - 1) = b - m.
Proof. intros Hm Hb. destruct (marked m k (b - m) Hm Hb) as (_ & <-). f_equal. lia. Qed.

Lemma valid2_scalar b0 b1 : valid2 b0 b1 = true → scalar (Z.lor (Z.shiftl (Z.land b0 31) 6) (Z.land b1 63)) = true.
Proof. intros (? & _)%valid2_spec. apply scalar_range; lia. Qed.

Lemma valid3_scalar b0 b1 b2 : valid3 b0 b1 b2 = true → scalar (code3 b0 b1 b2) = true.
Proof.
  intros Hv. unfold valid3 in Hv. rewrite !andb_true_iff, !in_range_true in Hv. destruct Hv as [[H0 H1] H2%cont_range].
  assert (128 ≤ b1 ≤ 191) as H1' by (destruct (b0 =? 224), (b0 =? 237); lia).
  unfold code3. change 15 with (16 - 1). change 63 with (64 - 1).
  rewrite (payload_of 224 16 b0), (payload_of 128 64 b1), (payload_of 128 64 b2) by (set_solver || lia).
  rewrite (lor_low (b1 - 128) 6) by lia. rewrite lor_low by lia.
  apply scalar_range; destruct (Z.eqb_spec b0 224), (Z.eqb_spec b0 237); lia.
Qed.

Lemma valid4_scalar b0 b1 b2 b3 : valid4 b0 b1 b2 b3 = true →
  scalar (Z.lor (Z.shiftl (Z.land b0 7) 18) (Z.lor (Z.shiftl (Z.land b1 63) 12) (Z.lor (Z.shiftl (Z.land b2 63) 6) (Z.land b3 63)))) = true.
Proof.
  intros Hv. unfold valid4 in Hv. rewrite !andb_true_iff, !in_range_true in Hv. destruct Hv as [[[H0 H1] H2%cont_range] H3%cont_range].
  assert (128 ≤ b1 ≤ 191) as H1' by (destruct (b0 =? 240), (b0 =? 244); lia).
  change 7 with (8 - 1). change 63 with (64 - 1).
  rewrite (payload_of 240 8 b0), (payload_of 128 64 b1), (payload_of 128 64 b2), (payload_of 128 64 b3) by (set_solver || lia).
  rewrite (lor_low (b2 - 128) 6) by lia. rewrite (lor_low (b1 - 128) 12) by lia. rewrite lor_low by lia.
  apply scalar_range; destruct (Z.eqb_spec b0 240), (Z.eqb_spec b0 244); lia.
Qed.

Lemma runes_scalar s : Forall (λ r, scalar (rune_code r) = true) (runes s).
Proof.
  remember (String.length s) as n eqn:Hn. revert s Hn. induction (lt_wf n) as [n _ IH]. intros s ->.
  assert (∀ t, (String.length t < String.length s)%nat → Forall (λ r, scalar (rune_code r) = true) (runes t)) as IH'.
  { intros t Ht. by apply (IH (String.length t)). }
  clear IH. destruct s as [|c0 r0]; [constructor|]. cbn [runes].
  pose proof (byte_of_range c0). destruct (Z.ltb_spec (byte_of c0) 128).
  { constructor; [apply scalar_range; cbn; lia|apply IH'; cbn; lia]. }
  destruct r0 as [|c1 r1]; [by repeat constructor|].
  destruct (valid2 _ _) eqn:V2; [constructor; [by apply valid2_scalar|apply IH'; cbn; lia]|].
  assert (Forall (λ r, scalar (rune_code r) = true) (Rune RuneError (String c0 "") :: runes (String c1 r1))) as Hbad.
  { constructor; [done|apply IH'; cbn; lia]. }
  destruct r1 as [|c2 r2]; [exact Hbad|].
  destruct (valid3 _ _ _) eqn:V3; [constructor; [by apply valid3_scalar|apply IH'; cbn; lia]|].
  destruct r2 as [|c3 r3]; [exact Hbad|].
  destruct (valid4 _ _ _ _) eqn:V4; [constructor; [by apply valid4_scalar|apply IH'; cbn; lia]|exact Hbad].
Qed.
