(* ===== verification/NostrSerialize.v ===== *)
(** * Canonical serialization: the optimised path equals the byte-wise rules

    [serializeForID] runs Go's JSON encoder and then undoes its escaping of
    U+2028 and U+2029 with two ReplaceAll passes.  The reference
    [nip01_serialize] escapes byte by byte.  The two agree on valid UTF-8 that
    does not itself contain the six characters \u2028 or \u2029, and the
    reference is injective: an event identifier commits to every field. *)

From S2P Require Import Prelude GoLib GoCodec GoLemmas Nostr.

Definition nip01_byte (b : Z) : string := if b <? 128 then esc_ascii b else str1 b.
Definition nip01_body (s : string) : string := str_concat (nip01_byte <$> bytes_of s).
Definition nip01_string (s : string) : string := quote (nip01_body s).
Definition nip01_tags (l : list (list string)) : string :=
  json_array ((λ t, json_array (nip01_string <$> t)) <$> l).
Definition nip01_serialize (e : Event) : string :=
  json_array ["0"; nip01_string (PubKey e); Itoa (CreatedAt e); Itoa (Kind e);
              nip01_tags (etags e); nip01_string (Content e)].

(** ** Escapes that never contain the start of a match *)

(** [x] and [p] differ at a position both have. *)
Fixpoint diverge (p x : string) : bool :=
  match p, x with
  | String a p', String b x' => if ascii_dec a b then diverge p' x' else true
  | _, _ => false
  end.

Lemma diverge_prefix p x tail : diverge p x = true → String.prefix p (x +:+ tail) = false.
Proof.
  revert x. induction p as [|a p IH]; intros [|b x]; cbn; try done.
  destruct (ascii_dec a b); [apply IH|done].
Qed.

(** No match of [p] starts inside [x], whatever follows. *)
Fixpoint safe (p x : string) : bool :=
  match x with
  | EmptyString => true
  | String a r => diverge p x && safe p r
  end.

Lemma Rep_safe p new x : safe p x = true → Rep p new x x.
Proof.
  induction x as [|a x IH]; [intros; apply Rep_nil|].
  cbn [safe]. rewrite andb_true_iff. intros [Hd Hs] tail.
  pose proof (diverge_prefix _ _ tail Hd) as Hp. cbn in Hp. cbn.
  by rewrite Hp, (IH Hs).
Qed.

Lemma prefix_cons c p s : String.prefix (String c p) (String c s) = String.prefix p s.
Proof. cbn. by destruct (ascii_dec c c). Qed.

Lemma prefix_nil s : String.prefix "" s = true.
Proof. by destruct s. Qed.

Lemma Contains_head s p : Contains s p = false → String.prefix p s = false.
Proof. destruct s; cbn; [by rewrite orb_false_r|]. by intros [? _]%orb_false_iff. Qed.

Lemma Contains_tail s t p : Contains (s +:+ t) p = false → Contains t p = false.
Proof. induction s as [|a s IH]; cbn; [done|]. rewrite orb_false_iff. intros [_ ?]; auto. Qed.

(** ** One ReplaceAll pass over an encoded string *)

Definition bslash : ascii := char 92.
Definition word_byte (b : Z) : bool := is_digit b || in_range 97 b 122.

Section Pass.
(** [f] and [g] encode a rune before and after the pass. *)
Variables (f g : rune → string) (p' new : string).
Notation pat := (String bslash p').
Hypothesis p'_word : Forall (λ b, word_byte b = true) (bytes_of p').
Hypothesis ascii_safe : ∀ b, 0 ≤ b < 128 → b ≠ 92 → safe pat (esc_ascii b) = true.
Hypothesis slash_diverge : diverge pat (String bslash (String bslash "")) = true.
Hypothesis quote_safe : safe pat (str1 34) = true.
Hypothesis f_ascii : ∀ r, rune_shape r → rune_code r < 128 → f r = esc_ascii (rune_code r).
Hypothesis g_ascii : ∀ r, rune_shape r → rune_code r < 128 → g r = esc_ascii (rune_code r).
Hypothesis multi_rep : ∀ r, rune_shape r → 128 ≤ rune_code r → Rep pat new (f r) (g r).
Hypothesis multi_head : ∀ r, rune_shape r → 128 ≤ rune_code r →
  ∃ a x, f r = String a x ∧ word_byte (byte_of a) = false.

Definition enc_body (h : rune → string) (s : string) : string := str_concat (h <$> runes s).

Lemma esc_ascii_head b : 0 ≤ b < 128 →
  esc_ascii b = str1 b ∨ ∃ x, esc_ascii b = String bslash x.
Proof.
  intros. unfold esc_ascii. repeat (case_match; [right; by eexists|]). by left.
Qed.

Lemma prefix_word w s tail :
  Forall (λ b, word_byte b = true) (bytes_of w) →
  String.prefix w (enc_body f s +:+ String (char 34) tail) = true → String.prefix w s = true.
Proof.
  intros Hw. revert w Hw. induction s as [|r rest Hsh Hr IH] using runes_ind; intros w Hw.
  all: destruct w as [|a w]; [intros; apply prefix_nil|].
  all: inversion Hw as [|? ? Ha Hw']; subst.
  { cbn. destruct (ascii_dec a _) as [->|]; [|done]. by vm_compute in Ha. }
  unfold enc_body. rewrite Hr. cbn [fmap list_fmap str_concat]. rewrite str_app_assoc.
  destruct (Z.lt_ge_cases (rune_code r) 128) as [Hlt|Hge].
  - rewrite f_ascii by done. inversion Hsh; subst; cbn [rune_code rune_src] in *; try lia;
      [|unfold RuneError in *; lia].
    destruct (esc_ascii_head b ltac:(done)) as [->|[x ->]].
    + cbn. destruct (ascii_dec a (char b)); [|done]. by apply IH.
    + cbn. case_match; [|done]. subst a. by vm_compute in Ha.
  - destruct (multi_head r Hsh Hge) as (c & x & -> & Hc). cbn.
    destruct (ascii_dec a c) as [->|]; [|done]. congruence.
Qed.

Lemma pass_body s tail :
  Contains s pat = false →
  replace_go pat new 0 (enc_body f s +:+ String (char 34) tail)
  = enc_body g s +:+ replace_go pat new 0 (String (char 34) tail).
Proof.
  induction s as [|r rest Hsh Hr IH] using runes_ind; intros Hc; [done|].
  specialize (IH (Contains_tail _ _ _ Hc)).
  unfold enc_body in *. rewrite Hr. cbn [fmap list_fmap str_concat]. rewrite !str_app_assoc.
  destruct (Z.lt_ge_cases (rune_code r) 128) as [Hlt|Hge];
    [|by rewrite (multi_rep r Hsh Hge), IH].
  rewrite f_ascii, g_ascii by done.
  inversion Hsh; subst; cbn [rune_code rune_src] in *; try lia;
    [|unfold RuneError in *; lia].
  destruct (decide (b = 92)) as [->|Hne];
    [|by rewrite (Rep_safe _ new _ (ascii_safe _ ltac:(done) Hne)), IH].
  apply Contains_head in Hc.
  change (String (char 92) "" +:+ rest) with (String bslash rest) in Hc.
  rewrite prefix_cons in Hc.
  change (esc_ascii 92) with (String bslash (String bslash "")).
  match type of IH with replace_go _ _ _ ?t = _ => set (body := t) in * end.
  pose proof (diverge_prefix _ _ body slash_diverge) as Hd.
  change (String bslash (String bslash "") +:+ body) with
    (String bslash (String bslash body)) in *.
  cbn [replace_go]. rewrite Hd, prefix_cons.
  destruct (String.prefix p' body) eqn:E.
  { apply (prefix_word p' rest tail p'_word) in E. congruence. }
  by rewrite IH.
Qed.

Lemma pass_string s :
  Contains s pat = false → Rep pat new (quote (enc_body f s)) (quote (enc_body g s)).
Proof.
  intros Hc tail. unfold quote. rewrite !str_app_assoc.
  rewrite (Rep_safe pat new (str1 34) quote_safe).
  change (str1 34 +:+ tail) with (String (char 34) tail).
  rewrite pass_body by done.
  by rewrite <-(Rep_safe pat new (str1 34) quote_safe tail).
Qed.
End Pass.

(** ** The two passes *)

(** The encoder with U+2028 ([k8]) and U+2029 ([k9]) already restored. *)
Definition enc_rune (k8 k9 : bool) (r : rune) : string :=
  if rune_code r <? 128 then esc_ascii (rune_code r)
  else if rune_code r =? 8232 then (if k8 then rune_src r else "\u2028")
  else if rune_code r =? 8233 then (if k9 then rune_src r else "\u2029")
  else rune_src r.
Definition enc_string (k8 k9 : bool) (s : string) : string := quote (enc_body (enc_rune k8 k9) s).

Definition pat8 : string := "\u2028".
Definition pat9 : string := "\u2029".

(** A string without literal separator escapes, as valid UTF-8. *)
Definition plain_text (s : string) : bool :=
  valid_utf8 s && negb (Contains s pat8) && negb (Contains s pat9).

Lemma esc_ascii_safe p b :
  p = pat8 ∨ p = pat9 → 0 ≤ b < 128 → b ≠ 92 → safe p (esc_ascii b) = true.
Proof.
  intros Hp Hb Hne.
  assert (forallb (λ b, (b =? 92) || safe pat8 (esc_ascii b) && safe pat9 (esc_ascii b))
    (zrange 0 127) = true) as C by (vm_compute; reflexivity).
  pose proof (forallb_zrange _ _ _ b C ltac:(lia)) as C1. cbv beta in C1.
  rewrite (proj2 (Z.eqb_neq b 92) Hne), orb_false_l, andb_true_iff in C1.
  destruct Hp as [-> | ->]; tauto.
Qed.

Lemma multi_no_slash src :
  Forall (λ b, 128 ≤ b < 256) (bytes_of src) → no_char bslash src.
Proof. unfold no_char. intros H; eapply Forall_impl; [exact H|]. intros b Hb. cbn in Hb. change (byte_of bslash) with 92. lia. Qed.

Lemma multi_first src :
  Forall (λ b, 128 ≤ b < 256) (bytes_of src) → src ≠ "" →
  ∃ a x, src = String a x ∧ word_byte (byte_of a) = false.
Proof.
  intros Hb Hne. destruct src as [|a x]; [done|]. exists a, x. split; [done|].
  inversion Hb; subst. unfold word_byte, is_digit, in_range. lia.
Qed.

Lemma enc_rune_ascii k8 k9 r :
  rune_code r < 128 → enc_rune k8 k9 r = esc_ascii (rune_code r).
Proof. intros H. unfold enc_rune. by rewrite (proj2 (Z.ltb_lt _ _) H). Qed.

Lemma bad_src_no_slash a : 128 ≤ byte_of a → no_char bslash (String a "").
Proof.
  intros. unfold no_char. repeat constructor. change (byte_of bslash) with 92. lia.
Qed.

Lemma enc_rune_head k8 k9 r :
  rune_shape r → 128 ≤ rune_code r →
  ∃ a x, enc_rune k8 k9 r = String a x ∧ word_byte (byte_of a) = false.
Proof.
  intros Hsh Hge. unfold enc_rune. rewrite (proj2 (Z.ltb_ge _ _) Hge).
  assert (∃ a x, rune_src r = String a x ∧ word_byte (byte_of a) = false) as Hs.
  { inversion Hsh; subst; cbn in *; [lia|..].
    - apply multi_first; [done|]. by intros ->; cbn in *; lia.
    - exists a, "". split; [done|]. pose proof (byte_of_range a).
      unfold word_byte, is_digit, in_range. lia. }
  repeat case_match; try done; eexists _, _; split; by vm_compute.
Qed.

(** A multi-byte rune is rewritten by a pass exactly when it is its separator. *)
Lemma enc_rune_rep p new k8 k9 k8' k9' r :
  (p = pat8 ∧ new = LS ∧ k8 = false ∧ k8' = true ∧ k9 = false ∧ k9' = false) ∨
  (p = pat9 ∧ new = PS ∧ k8 = true ∧ k8' = true ∧ k9 = false ∧ k9' = true) →
  rune_shape r → 128 ≤ rune_code r → Rep p new (enc_rune k8 k9 r) (enc_rune k8' k9' r).
Proof.
  intros Hc Hsh Hge. unfold enc_rune. rewrite (proj2 (Z.ltb_ge _ _) Hge).
  assert (no_char bslash (rune_src r)) as Hn.
  { inversion Hsh; subst; cbn in *; [lia|by apply multi_no_slash|by apply bad_src_no_slash]. }
  assert (rune_code r = 8232 → rune_src r = LS) as H8.
  { inversion Hsh; subst; cbn in *; [lia|done|by intros ?%(f_equal (Z.eqb 65533))]. }
  assert (rune_code r = 8233 → rune_src r = PS) as H9.
  { inversion Hsh; subst; cbn in *; [lia|done|by intros ?%(f_equal (Z.eqb 65533))]. }
  destruct Hc as [(-> & -> & -> & -> & -> & ->)|(-> & -> & -> & -> & -> & ->)].
  - destruct (Z.eqb_spec (rune_code r) 8232) as [E|_]; [rewrite H8 by done; apply Rep_hit|].
    destruct (rune_code r =? 8233); [by apply Rep_safe|by apply (Rep_plain bslash)].
  - destruct (Z.eqb_spec (rune_code r) 8232); [by apply (Rep_plain bslash)|].
    destruct (Z.eqb_spec (rune_code r) 8233) as [E|_];
      [rewrite H9 by done; apply Rep_hit|by apply (Rep_plain bslash)].
Qed.

Lemma pass8_string s :
  Contains s pat8 = false → Rep pat8 LS (enc_string false false s) (enc_string true false s).
Proof.
  apply (pass_string (enc_rune false false) (enc_rune true false) "u2028" LS).
  - by repeat constructor.
  - intros. apply esc_ascii_safe; auto.
  - done.
  - done.
  - intros. by apply enc_rune_ascii.
  - intros. by apply enc_rune_ascii.
  - intros. apply enc_rune_rep; [left|..]; auto 6.
  - intros. by apply enc_rune_head.
Qed.

Lemma pass9_string s :
  Contains s pat9 = false → Rep pat9 PS (enc_string true false s) (enc_string true true s).
Proof.
  apply (pass_string (enc_rune true false) (enc_rune true true) "u2029" PS).
  - by repeat constructor.
  - intros. apply esc_ascii_safe; auto.
  - done.
  - done.
  - intros. by apply enc_rune_ascii.
  - intros. by apply enc_rune_ascii.
  - intros. apply enc_rune_rep; [right|..]; auto 6.
  - intros. by apply enc_rune_head.
Qed.

Lemma json_string_enc s : valid_utf8 s = true → json_string s = enc_string false false s.
Proof.
  intros Hv. unfold json_string, enc_string, json_body, enc_body. f_equal.
  induction s as [|r rest Hsh Hr IH] using runes_ind; [done|].
  apply valid_utf8_rest in Hv as [Hi Hv]; [|done].
  rewrite Hr. cbn [fmap list_fmap str_concat]. rewrite IH by done. f_equal.
  unfold json_rune, enc_rune. by rewrite Hi.
Qed.

Lemma nip01_body_app s t : nip01_body (s +:+ t) = nip01_body s +:+ nip01_body t.
Proof.
  unfold nip01_body. induction s as [|a s IH]; [done|]. cbn. rewrite IH. by rewrite str_app_assoc.
Qed.

Lemma nip01_body_high s : Forall (λ b, 128 ≤ b < 256) (bytes_of s) → nip01_body s = s.
Proof.
  unfold nip01_body. induction s as [|a s IH]; [done|]. cbn. intros H. inversion H; subst.
  rewrite IH by done. unfold nip01_byte. rewrite (proj2 (Z.ltb_ge _ _)) by lia.
  unfold str1. by rewrite char_byte_of.
Qed.

Lemma enc_string_nip01 s : valid_utf8 s = true → enc_string true true s = nip01_string s.
Proof.
  intros Hv. unfold enc_string, nip01_string, enc_body. f_equal.
  induction s as [|r rest Hsh Hr IH] using runes_ind; [done|].
  apply valid_utf8_rest in Hv as [Hi Hv]; [|done].
  rewrite Hr, nip01_body_app. cbn [fmap list_fmap str_concat]. rewrite IH by done. f_equal.
  inversion Hsh; subst; [| |done].
  - rewrite enc_rune_ascii by (cbn; lia). cbn [rune_src rune_code].
    unfold nip01_body. cbn [bytes_of fmap list_fmap str_concat].
    rewrite byte_of_char by lia. unfold nip01_byte.
    by rewrite (proj2 (Z.ltb_lt _ _)), str_app_nil_r by lia.
  - cbn [rune_src]. rewrite nip01_body_high by done. unfold enc_rune. cbn [rune_code rune_src].
    rewrite (proj2 (Z.ltb_ge _ _)) by lia. by repeat case_match.
Qed.

(** ** Whole events *)

Lemma Rep_join p new l l' :
  safe p "," = true → Forall2 (Rep p new) l l' → Rep p new (json_join l) (json_join l').
Proof.
  intros Hs. induction 1 as [|x y l l' Hxy Hl IH]; [apply Rep_nil|].
  inversion Hl as [|a b m m']; subst; [done|].
  apply (Rep_app _ _ x y ("," +:+ json_join (a :: m)) ("," +:+ json_join (b :: m')) Hxy).
  apply Rep_app; [by apply Rep_safe|done].
Qed.

Lemma Rep_array p new l l' :
  safe p "," = true → safe p "[" = true → safe p "]" = true →
  Forall2 (Rep p new) l l' → Rep p new (json_array l) (json_array l').
Proof.
  intros. unfold json_array.
  repeat first [apply Rep_app | by apply Rep_safe | by apply Rep_join].
Qed.

Lemma Itoa_no_slash z : no_char bslash (Itoa z).
Proof.
  assert (∀ n, 0 ≤ n → no_char bslash (utoa n)) as Hu.
  { intros n Hn. unfold no_char. eapply Forall_impl; [by apply utoa_digits|].
    intros b Hb. unfold is_digit in Hb. apply in_range_true in Hb.
    change (byte_of bslash) with 92. lia. }
  unfold Itoa. destruct (Z.ltb_spec z 0); [|by apply Hu].
  unfold no_char. rewrite bytes_of_app. apply Forall_app. split; [by repeat constructor|].
  apply Hu. lia.
Qed.

(** The encoding of an event with a given string encoder. *)
Definition encode_with (enc : string → string) (e : Event) : string :=
  json_array ["0"; enc (PubKey e); Itoa (CreatedAt e); Itoa (Kind e);
              json_array ((λ t, json_array (enc <$> t)) <$> etags e); enc (Content e)].

Definition event_strings (e : Event) : list string :=
  PubKey e :: Content e :: List.concat (etags e).

Lemma Rep_encode p new enc enc' e :
  p = pat8 ∨ p = pat9 →
  (∀ s, s ∈ event_strings e → Rep p new (enc s) (enc' s)) →
  Rep p new (encode_with enc e) (encode_with enc' e).
Proof.
  intros Hp He.
  assert (safe p "," = true ∧ safe p "[" = true ∧ safe p "]" = true ∧ safe p "0" = true
          ∧ ∃ q, p = String bslash q) as (S1 & S2 & S3 & S4 & q & ->).
  { destruct Hp as [-> | ->]; repeat split; eexists; reflexivity. }
  unfold encode_with. apply Rep_array; [done..|]. unfold event_strings in He.
  constructor; [by apply Rep_safe|]. constructor; [apply He; set_solver|].
  constructor; [apply Rep_plain, Itoa_no_slash|].
  constructor; [apply Rep_plain, Itoa_no_slash|].
  constructor; [|constructor; [apply He; set_solver|constructor]].
  apply Rep_array; [done..|]. rewrite Forall2_fmap. apply Forall_Forall2_diag.
  apply Forall_forall. intros t Ht. apply Rep_array; [done..|].
  rewrite Forall2_fmap. apply Forall_Forall2_diag, Forall_forall. intros s Hs.
  apply He. do 2 right. apply elem_of_concat. by exists t.
Qed.

Lemma encode_with_ext enc enc' e :
  (∀ s, s ∈ event_strings e → enc s = enc' s) → encode_with enc e = encode_with enc' e.
Proof.
  intros He.
  assert ((λ t, json_array (enc <$> t)) <$> etags e = (λ t, json_array (enc' <$> t)) <$> etags e)
    as Ht.
  { apply list_fmap_ext. intros i t Ht. f_equal. apply list_fmap_ext. intros j s Hs.
    apply He. do 2 right. apply elem_of_concat. exists t.
    split; eapply list_elem_of_lookup_2; eassumption. }
  unfold encode_with. by rewrite Ht, !He by (unfold event_strings; set_solver).
Qed.

(** The strings of an event are valid UTF-8 and contain no literal escape of
    a separator. *)
Definition plain_event (e : Event) : bool := forallb plain_text (event_strings e).

Lemma plain_event_spec e s :
  plain_event e = true → s ∈ event_strings e →
  valid_utf8 s = true ∧ Contains s pat8 = false ∧ Contains s pat9 = false.
Proof.
  unfold plain_event. rewrite forallb_forall. intros H Hs%list_elem_of_In.
  apply H in Hs. unfold plain_text in Hs. rewrite !andb_true_iff, !negb_true_iff in Hs. tauto.
Qed.

Lemma serializeForID_nip01 e :
  Tags e ≠ None → plain_event e = true → serializeForID e = nip01_serialize e.
Proof.
  intros Ht Hp. pose proof (λ s, plain_event_spec e s Hp) as Hs.
  unfold serializeForID.
  assert (encode_for_id e = encode_with (enc_string false false) e) as ->.
  { transitivity (encode_with json_string e).
    - unfold encode_for_id, encode_with, etags, json_tags. by destruct (Tags e).
    - apply encode_with_ext. intros s Hse. by apply json_string_enc, Hs. }
  fold pat8 pat9.
  rewrite (Rep_ReplaceAll pat8 LS _ (encode_with (enc_string true false) e)).
  2: { apply Rep_encode; [by left|]. intros s Hse. by apply pass8_string, Hs. }
  rewrite (Rep_ReplaceAll pat9 PS _ (encode_with (enc_string true true) e)).
  2: { apply Rep_encode; [by right|]. intros s Hse. by apply pass9_string, Hs. }
  apply (encode_with_ext _ nip01_string). intros s Hse. by apply enc_string_nip01, Hs.
Qed.

(** C29: for every event whose strings are valid UTF-8 without a literal
    separator escape, the two-pass serialization hashed by the relay is the
    byte-wise NIP-01 serialization. *)
Theorem serializeForID_canonical e :
  Tags e ≠ None → plain_event e = true → serializeForID e = nip01_serialize e.
Proof. exact (serializeForID_nip01 e). Qed.

(** ** The reference serialization is uniquely readable *)

(** [UD enc]: an encoding can be read off the front of any string. *)
Definition UD {A} (enc : A → string) : Prop :=
  ∀ a b t u, enc a +:+ t = enc b +:+ u → a = b ∧ t = u.

Lemma diverge_app p x t u : diverge p x = true → p +:+ t = x +:+ u → False.
Proof.
  revert x. induction p as [|a p IH]; intros [|b x]; cbn; try done.
  destruct (ascii_dec a b) as [->|]; intros; simplify_eq. eauto.
Qed.

Lemma nip01_byte_diverge b b' :
  0 ≤ b ≤ 255 → 0 ≤ b' ≤ 255 → (b =? b') || diverge (nip01_byte b) (nip01_byte b') = true.
Proof.
  assert (forallb (λ b, forallb (λ b', (b =? b') || diverge (nip01_byte b) (nip01_byte b'))
    (zrange 0 255)) (zrange 0 255) = true) as C by (vm_compute; reflexivity).
  intros Hb Hb'.
  exact (forallb_zrange _ _ _ b' (forallb_zrange _ _ _ b C Hb) Hb').
Qed.

Lemma nip01_byte_UD b b' t u :
  0 ≤ b < 256 → 0 ≤ b' < 256 →
  nip01_byte b +:+ t = nip01_byte b' +:+ u → b = b' ∧ t = u.
Proof.
  intros Hb Hb' E. pose proof (nip01_byte_diverge b b' ltac:(lia) ltac:(lia)) as D.
  apply orb_true_iff in D as [->%Z.eqb_eq|D]; [|by destruct (diverge_app _ _ _ _ D E)].
  split; [done|]. by apply str_app_inv_head in E.
Qed.

Lemma nip01_byte_quote_diverge b :
  0 ≤ b ≤ 255 → diverge (nip01_byte b) (str1 34) = true.
Proof.
  assert (forallb (λ b, diverge (nip01_byte b) (str1 34)) (zrange 0 255) = true) as C
    by (vm_compute; reflexivity).
  intros Hb. exact (forallb_zrange _ _ _ b C Hb).
Qed.

Lemma nip01_byte_not_quote b t u :
  0 ≤ b < 256 → nip01_byte b +:+ t = String (char 34) u → False.
Proof.
  intros Hb E. refine (diverge_app _ (str1 34) t u (nip01_byte_quote_diverge b _) E). lia.
Qed.

Lemma nip01_body_cons a s : nip01_body (String a s) = nip01_byte (byte_of a) +:+ nip01_body s.
Proof. done. Qed.

Lemma nip01_body_UD s s' t u :
  nip01_body s +:+ String (char 34) t = nip01_body s' +:+ String (char 34) u → s = s' ∧ t = u.
Proof.
  revert s'. induction s as [|a s IH]; intros [|b s']; rewrite ?nip01_body_cons, ?str_app_assoc;
    intros E.
  - cbn in E. by simplify_eq.
  - symmetry in E. apply nip01_byte_not_quote in E; [done|apply byte_of_range].
  - apply nip01_byte_not_quote in E; [done|apply byte_of_range].
  - destruct (nip01_byte_UD _ _ _ _ (byte_of_range a) (byte_of_range b) E) as [Eb E'].
    apply byte_of_inj in Eb as ->. by apply IH in E' as [-> ->].
Qed.

Lemma nip01_string_UD : UD nip01_string.
Proof.
  intros s s' t u. unfold nip01_string, quote. rewrite !str_app_assoc.
  intros E%str_app_inv_head. by apply nip01_body_UD in E.
Qed.

(** [opens x]: [x] is nonempty and does not start like a closing bracket. *)
Definition opens (x : string) : bool :=
  match x with String a _ => negb (byte_of a =? 93) | _ => false end.

Lemma opens_not_close x t u : opens x = true → x +:+ t = String (char 93) u → False.
Proof. destruct x; [done|]. cbn. intros Ho [= -> _]. by vm_compute in Ho. Qed.

Lemma json_join_UD {A} (enc : A → string) :
  UD enc → (∀ a, opens (enc a) = true) →
  ∀ l l' t u, json_join (enc <$> l) +:+ String (char 93) t
              = json_join (enc <$> l') +:+ String (char 93) u → l = l' ∧ t = u.
Proof.
  intros HUD Ho. induction l as [|a l IH]; intros [|a' l'] t u E.
  - cbn in E. by simplify_eq.
  - symmetry in E. destruct l' as [|b' l']; cbn in E; rewrite ?str_app_assoc in E;
      by apply opens_not_close in E.
  - destruct l as [|b l]; cbn in E; rewrite ?str_app_assoc in E; by apply opens_not_close in E.
  - destruct l as [|b l], l' as [|b' l']; cbn in E; rewrite ?str_app_assoc in E.
    + apply HUD in E as [-> E]. by simplify_eq.
    + apply HUD in E as [-> E]. cbn in E. by simplify_eq.
    + apply HUD in E as [-> E]. cbn in E. by simplify_eq.
    + apply HUD in E as [-> E]. injection E as E.
      destruct (IH (b' :: l') t u E) as [<- ->]. done.
Qed.

Lemma json_array_UD {A} (enc : A → string) :
  UD enc → (∀ a, opens (enc a) = true) → UD (λ l, json_array (enc <$> l)).
Proof.
  intros HUD Ho l l' t u. unfold json_array. cbn. rewrite !str_app_assoc. cbn.
  intros [= E]. by apply (json_join_UD enc HUD Ho) in E.
Qed.

Lemma nip01_tags_UD : UD nip01_tags.
Proof.
  apply (json_array_UD (λ t, json_array (nip01_string <$> t))); [|done].
  by apply json_array_UD; [apply nip01_string_UD|].
Qed.

(** A number followed by a comma. *)
Lemma digits_comma s s' t u :
  Forall (λ b, b ≠ 44) (bytes_of s) → Forall (λ b, b ≠ 44) (bytes_of s') →
  s +:+ String (char 44) t = s' +:+ String (char 44) u → s = s' ∧ t = u.
Proof.
  revert s'. induction s as [|a s IH]; intros [|b s'] Hs Hs'; cbn.
  - by intros [= ->].
  - intros [= <- _]. inversion Hs' as [|? ? Hb]. by vm_compute in Hb.
  - intros [= -> _]. inversion Hs as [|? ? Ha]. by vm_compute in Ha.
  - intros [= -> E]. inversion Hs; inversion Hs'. by apply IH in E as [-> ->].
Qed.

Lemma utoa_no_byte z c : 0 ≤ z → is_digit c = false → Forall (λ b, b ≠ c) (bytes_of (utoa z)).
Proof.
  intros Hz Hc. eapply Forall_impl; [by apply utoa_digits|]. cbv beta. intros b Hb ->. congruence.
Qed.

Lemma Itoa_no_comma z : Forall (λ b, b ≠ 44) (bytes_of (Itoa z)).
Proof.
  unfold Itoa. destruct (Z.ltb_spec z 0); [|by apply utoa_no_byte].
  rewrite bytes_of_app. apply Forall_app. split; [by repeat constructor|].
  apply utoa_no_byte; [lia|done].
Qed.

Lemma utoa_inj x y : 0 ≤ x → 0 ≤ y → utoa x = utoa y → x = y.
Proof.
  intros Hx Hy E. apply (f_equal (λ s, dec_value s 0)) in E.
  rewrite !dec_value_utoa in E by done. by simplify_eq.
Qed.

Lemma Itoa_inj x y : Itoa x = Itoa y → x = y.
Proof.
  unfold Itoa. assert (∀ z r, 0 ≤ z → utoa z = String "-" r → False) as Hm.
  { intros z r Hz E. pose proof (utoa_digits z Hz) as H. rewrite E in H.
    inversion H; subst. done. }
  destruct (Z.ltb_spec x 0), (Z.ltb_spec y 0); cbn; intros E; simplify_eq.
  - apply utoa_inj in E; lia.
  - symmetry in E. apply Hm in E; done.
  - apply Hm in E; done.
  - apply utoa_inj in E; lia.
Qed.

Lemma nip01_serialize_inj e e' :
  nip01_serialize e = nip01_serialize e' →
  PubKey e = PubKey e' ∧ CreatedAt e = CreatedAt e' ∧ Kind e = Kind e' ∧
  etags e = etags e' ∧ Content e = Content e'.
Proof.
  unfold nip01_serialize, json_array. cbn [json_join]. rewrite !str_app_assoc.
  intros E%str_app_inv_head%str_app_inv_head%str_app_inv_head.
  apply nip01_string_UD in E as [Hp E%str_app_inv_head].
  apply (digits_comma _ _ _ _ (Itoa_no_comma _) (Itoa_no_comma _)) in E as [Hc E].
  apply (digits_comma _ _ _ _ (Itoa_no_comma _) (Itoa_no_comma _)) in E as [Hk E].
  apply nip01_tags_UD in E as [Ht E%str_app_inv_head].
  apply nip01_string_UD in E as [Hn _].
  apply Itoa_inj in Hc, Hk. done.
Qed.

(** Two events with readable strings are hashed from the same bytes only
    when they agree on every field an identifier commits to. *)
Theorem serializeForID_injective e e' :
  Tags e ≠ None → Tags e' ≠ None → plain_event e = true → plain_event e' = true →
  serializeForID e = serializeForID e' →
  PubKey e = PubKey e' ∧ CreatedAt e = CreatedAt e' ∧ Kind e = Kind e' ∧
  etags e = etags e' ∧ Content e = Content e'.
Proof.
  intros. apply nip01_serialize_inj.
  by rewrite <-!serializeForID_nip01.
Qed.
