(* ===== verification/NostrProps.v ===== *)
(** * protocol/nostr: validation and signing

    What [Validate] accepts, that [Sign] produces accepted events, and the
    event whose correct identifier [Validate] refuses. *)

From S2P Require Import Prelude GoLib GoCodec GoLemmas Nostr NostrSerialize.

(** A concrete signature scheme that satisfies [NostrCryptoLaws]: the public
    key is the hash of the secret and a signature is the key with the hash of
    the message. *)
Definition toy_crypto : NostrCrypto :=
  {| schnorr_verify := λ pk s h, bool_decide (s = pk ++ sha256 h);
     schnorr_pubkey := sha256;
     schnorr_sign := λ sk h, Some (sha256 sk ++ sha256 h);
     nip13_difficulty := λ _, 0 |}.

Lemma toy_crypto_laws : @NostrCryptoLaws toy_crypto.
Proof.
  split; cbn.
  - auto with tiny.
  - auto with tiny.
  - intros sk h s [= <-]. by rewrite length_app, !sha256_length.
  - intros sk h s [= <-]. apply Forall_app; auto with tiny.
  - intros sk h s [= <-]. by apply bool_decide_eq_true.
Qed.

(** ** Hexadecimal fields *)

Lemma isHex_hex_encode l : Forall (λ b, 0 ≤ b < 256) l → isHex (hex_encode l) = true.
Proof.
  assert (∀ d, 0 ≤ d < 16 → in_range 48 (byte_of (hex_digit d)) 57
    || in_range 97 (byte_of (hex_digit d)) 102 = true) as Hd.
  { assert (forallb (λ d, in_range 48 (byte_of (hex_digit d)) 57
      || in_range 97 (byte_of (hex_digit d)) 102) (zrange 0 15) = true) as C
      by (vm_compute; reflexivity).
    intros d ?. apply (forallb_zrange _ _ _ d C). lia. }
  induction 1 as [|b l Hb _ IH]; [done|]. cbn [hex_encode isHex].
  pose proof (nibble_bounds b Hb) as [? ?]. by rewrite !Hd, IH.
Qed.

Lemma len_hex_encode l : len (hex_encode l) = 2 * Z.of_nat (List.length l).
Proof. unfold len. rewrite length_hex_encode. lia. Qed.

Lemma hex64_hex_encode l :
  Forall (λ b, 0 ≤ b < 256) l → List.length l = 32%nat → hex64 (hex_encode l) = true.
Proof. intros Hl Hn. unfold hex64. by rewrite len_hex_encode, isHex_hex_encode, Hn. Qed.

(** ** What Validate accepts *)

(** The wire shape [Validate] checks before it hashes. *)
Definition wire_shape (e : Event) : Prop :=
  hex64 (ID e) = true ∧ hex64 (PubKey e) = true ∧
  String.length (Sig e) = 128%nat ∧ isHex (Sig e) = true ∧
  0 ≤ Kind e ≤ 65535 ∧ 0 ≤ CreatedAt e ∧ Tags e ≠ None ∧ Forall (λ t, t ≠ []) (etags e).

Lemma existsb_nil_tag (l : list (list string)) :
  existsb (λ t, match t with [] => true | _ => false end) l = false ↔ Forall (λ t, t ≠ []) l.
Proof.
  induction l as [|t l IH]; cbn; [done|]. rewrite orb_false_iff, IH, Forall_cons.
  destruct t; naive_solver.
Qed.

Lemma Validate_iff `{NostrCrypto} e :
  Validate e = Ok tt ↔
  wire_shape e ∧ ID e = sha256_hex (serializeForID e) ∧
  verifySignature e (sha256 (bytes_of (serializeForID e))) = true.
Proof.
  unfold Validate, wire_shape, sha256_hex. cbv zeta. set (sum := sha256 _).
  rewrite !guard_bind_Ok, guard_Ok_tt, existsb_nil_tag.
  rewrite !orb_false_iff, !negb_false_iff, String.eqb_eq, !Z.ltb_ge.
  assert (len (Sig e) =? 128 = true ↔ String.length (Sig e) = 128%nat) as ->.
  { unfold len. rewrite Z.eqb_eq. lia. }
  assert ((match Tags e with Some _ => false | None => true end) = false ↔ Tags e ≠ None) as ->.
  { by destruct (Tags e). }
  naive_solver lia.
Qed.

(** C17: [Validate] accepts exactly the events of the right wire shape whose
    identifier is the SHA-256 of the canonical serialization and whose
    signature verifies over it. *)
Theorem Validate_accepts `{NostrCrypto} e :
  Validate e = Ok tt ↔
  wire_shape e ∧ ID e = sha256_hex (serializeForID e) ∧
  verifySignature e (sha256 (bytes_of (serializeForID e))) = true.
Proof. exact (Validate_iff e). Qed.

Definition sample_event : Event :=
  mkEvent "" "" 1700000000 1 (Some [["t"; "go"]; ["p"; "bob"]]) "hello" "".

Definition sample_secret : string :=
  "0000000000000000000000000000000000000000000000000000000000000001".

(** ** Signing *)

(** C31: [Sign] with a well-formed secret gives an event that [Validate]
    accepts, with the tags, kind, time and content of the input. *)
Theorem Sign_Validate `{NostrCrypto, !NostrCryptoLaws} `{GoUnicode} e secretHex e' :
  Sign e secretHex = Ok e' →
  0 ≤ Kind e ≤ 65535 → 0 ≤ CreatedAt e → Forall (λ t, t ≠ []) (etags e) →
  Validate e' = Ok tt ∧ Kind e' = Kind e ∧ CreatedAt e' = CreatedAt e ∧
  etags e' = etags e ∧ Content e' = Content e ∧ PublicKey secretHex = Ok (PubKey e').
Proof.
  unfold Sign, PublicKey. intros (secret & Hs & Hsig)%result_bind_Ok Hk Hc Ht.
  rewrite Hs. cbn [mbind result_bind].
  set (e1 := mkEvent _ _ _ _ _ _ _) in Hsig.
  destruct (schnorr_sign secret _) as [sg|] eqn:E; [|done].
  apply (inj Ok) in Hsig as <-. cbn [ID PubKey Kind CreatedAt Content Tags Sig etags default].
  split; [|done]. rewrite Validate_iff.
  assert (∀ id s, serializeForID (mkEvent id (PubKey e1) (CreatedAt e) (Kind e)
    (Some (etags e)) (Content e) s) = serializeForID e1) as Hser by done.
  cbn [PubKey e1] in Hser. rewrite !Hser. cbn [ID PubKey Sig].
  split; [|split; [done|]].
  - unfold wire_shape. cbn [ID PubKey Kind CreatedAt Content Tags Sig etags default].
    repeat split; try done; try lia.
    + apply hex64_hex_encode; auto with tiny.
    + apply hex64_hex_encode; [apply schnorr_pubkey_bytes|apply schnorr_pubkey_len].
    + rewrite length_hex_encode, (schnorr_sign_len _ _ _ E). done.
    + apply isHex_hex_encode, (schnorr_sign_bytes _ _ _ E).
  - unfold verifySignature. cbn [PubKey Sig].
    rewrite !hex_decode_encode by (apply schnorr_pubkey_bytes || apply (schnorr_sign_bytes _ _ _ E)).
    by apply schnorr_sign_verify.
Qed.

Lemma Sign_Validate_witness :
  let e' := match @Sign toy_crypto ascii_unicode sample_event sample_secret with
            | Ok e' => e' | Err _ => nil_event end in
  @Validate toy_crypto e' = Ok tt ∧ Content e' = "hello".
Proof.
  destruct (@Sign toy_crypto ascii_unicode sample_event sample_secret) as [e'|] eqn:E;
    [|exfalso; by vm_compute in E].
  destruct (@Sign_Validate toy_crypto toy_crypto_laws ascii_unicode _ _ _ E)
    as (? & _ & _ & _ & ? & _); [done|done|by repeat constructor|done].
Defined.

(** ** The literal-escape event *)

(** An event whose text is the six characters \u2028, with the identifier of
    its canonical serialization. *)
Definition escape_body : Event :=
  mkEvent "" "79be667ef9dcbbac55a06295ce870b07029bfcdb2dce28d959f2815b16f81798"
    1700000000 1 (Some []) "\u2028" "".
Definition escape_event : Event :=
  mkEvent (sha256_hex (nip01_serialize escape_body)) (PubKey escape_body) 1700000000 1
    (Some []) "\u2028" (hex_encode (replicate 64 0)).

(** The separator rewriting also hits text that merely spells an escape:
    the event [escape_event], named by the hash of its canonical
    serialization, is refused whatever its signature. *)
Theorem literal_escape_refused :
  ID escape_event = sha256_hex (nip01_serialize escape_event) ∧
  valid_utf8 (Content escape_event) = true ∧
  serializeForID escape_event ≠ nip01_serialize escape_event ∧
  ∀ crypto : NostrCrypto,
    @Validate crypto escape_event = Err "invalid: id or signature does not match content".
Proof.
  split; [done|]. split; [done|]. split; [by vm_compute|]. intros crypto.
  assert (String.eqb (ID escape_event) (hex_encode (sha256 (bytes_of (serializeForID escape_event))))
          = false) as Hid by (vm_compute; reflexivity).
  unfold Validate. cbv zeta. rewrite Hid. cbn [negb orb guard_err].
  assert (hex64 (ID escape_event) = true) as -> by (vm_compute; reflexivity).
  reflexivity.
Qed.

Lemma serializeForID_canonical_witness :
  serializeForID sample_event = nip01_serialize sample_event.
Proof. apply serializeForID_canonical; [done|]. vm_compute. reflexivity. Defined.

Lemma serializeForID_injective_witness :
  let e' := mkEvent "x" "" 1700000000 1 (Some [["t"; "go"]; ["p"; "bob"]]) "hello" "y" in
  Content sample_event = Content e'.
Proof.
  intros e'. destruct (serializeForID_injective sample_event e') as (_ & _ & _ & _ & ?);
    [done|done|by vm_compute|by vm_compute|reflexivity|done].
Defined.
