(* ===== verification/Filter.v ===== *)
(** * protocol/nostr: filters

    [Filter], its JSON decoding and encoding, and [Matches].  The decoder
    works on parsed JSON values; the JSON text parser of encoding/json is the
    parameter [json_parse].  A nil inner tag list is the empty list. *)

From S2P Require Import Prelude GoLib GoCodec GoLemmas Nostr.

(** ** JSON values *)

Inductive json :=
| JNull
| JBool (b : bool)
| JNum (lit : string)
| JStr (s : string)
| JArr (l : list json)
| JObj (m : list (string * json)).

Class GoJson := { json_parse : string → option json }.

Definition is_null (j : json) : bool := match j with JNull => true | _ => false end.

(** [json.Unmarshal] into [string] and into [int64]/[int], nulls excluded by
    the callers. *)
Definition unmarshal_string (j : json) : option string :=
  match j with JStr s => Some s | _ => None end.
Definition unmarshal_int (j : json) : option Z :=
  match j with JNum lit => num_ok (ParseInt lit) | _ => None end.

(** An array without null elements, decoded element by element. *)
Definition json_list {A} (decode : json → option A) (j : json) : option (list A) :=
  match j with
  | JArr l => if existsb is_null l then None else mapM decode l
  | _ => None
  end.

(** ** Filters *)

Record Filter := mkFilter {
  IDs : option (list string);
  Authors : option (list string);
  Kinds : option (list Z);
  FTags : gmap string (list string);
  Since : option Z;
  Until : option Z;
  Limit : option Z;
  Search : string;
}.

Definition empty_filter : Filter := mkFilter None None None ∅ None None None "".

#[export] Instance Filter_eq_dec : EqDecision Filter.
Proof. solve_decision. Defined.

Definition need {A} (o : option A) (msg : string) : result A :=
  match o with Some a => Ok a | None => Err msg end.

(** One iteration of the loop over the decoded object. *)
Definition filter_field (f : Filter) (kv : string * json) : result Filter :=
  let '(key, value) := kv in
  let '(mkFilter ids authors kinds tags since until limit search) := f in
  if String.eqb key "ids" then
    out ← need (json_list unmarshal_string value) (key +:+ " must be a list of strings");
    mret (mkFilter (Some out) authors kinds tags since until limit search)
  else if String.eqb key "authors" then
    out ← need (json_list unmarshal_string value) (key +:+ " must be a list of strings");
    mret (mkFilter ids (Some out) kinds tags since until limit search)
  else if String.eqb key "kinds" then
    out ← need (json_list unmarshal_int value) "kinds must be a list of integers";
    mret (mkFilter ids authors (Some out) tags since until limit search)
  else if String.eqb key "since" then
    n ← need (unmarshal_int value) (key +:+ " must be an integer");
    mret (mkFilter ids authors kinds tags (Some n) until limit search)
  else if String.eqb key "until" then
    n ← need (unmarshal_int value) (key +:+ " must be an integer");
    mret (mkFilter ids authors kinds tags since (Some n) limit search)
  else if String.eqb key "limit" then
    n ← need (unmarshal_int value) "limit must be an integer";
    mret (mkFilter ids authors kinds tags since until (Some n) search)
  else if String.eqb key "search" then
    s ← need (unmarshal_string value) "search must be a string";
    mret (mkFilter ids authors kinds tags since until limit s)
  else match key with
  | String h (String c EmptyString) =>
    if Ascii.eqb h "#" then
      out ← need (json_list unmarshal_string value) (key +:+ " must be a list of strings");
      mret (mkFilter ids authors kinds (<[String c "" := out]> tags) since until limit search)
    else mret f
  | _ => mret f
  end.

Fixpoint filter_fields (f : Filter) (members : list (string * json)) : result Filter :=
  match members with
  | [] => Ok f
  | kv :: r => f' ← filter_field f kv; filter_fields f' r
  end.

(** Decoding into a Go map: the last of several equal keys wins. *)
Definition json_members (m : list (string * json)) : gmap string json := list_to_map (reverse m).

(** [ParseFilter] on a parsed value; Go's map iteration order is unspecified
    and is here the order of [map_to_list]. *)
Definition ParseFilter_value (j : json) : result Filter :=
  match j with
  | JObj m => filter_fields empty_filter (map_to_list (json_members m))
  | _ => Err "filter must be an object"
  end.

Definition ParseFilter `{GoJson} (raw : string) : result Filter :=
  match json_parse raw with
  | Some j => ParseFilter_value j
  | None => Err "filter must be an object"
  end.

Definition raw_strings (l : list string) : json := JArr (JStr <$> l).
Definition raw_int (z : Z) : json := JNum (Itoa z).

Definition opt_member {A} (k : string) (enc : A → json) (o : option A) : list (string * json) :=
  match o with Some a => [(k, enc a)] | None => [] end.

(** [MarshalJSON]: the object written, as its map of members. *)
Definition MarshalJSON (f : Filter) : json :=
  JObj (opt_member "ids" raw_strings (IDs f)
        ++ opt_member "authors" raw_strings (Authors f)
        ++ opt_member "kinds" (λ l, JArr (raw_int <$> l)) (Kinds f)
        ++ opt_member "since" raw_int (Since f)
        ++ opt_member "until" raw_int (Until f)
        ++ opt_member "limit" raw_int (Limit f)
        ++ (if String.eqb (Search f) "" then [] else [("search", JStr (Search f))])
        ++ ((λ kv, ("#" +:+ kv.1, raw_strings kv.2)) <$> map_to_list (FTags f))).

(** ** Matching *)

Definition slicesFilter (words : list string) : list string :=
  List.filter (λ w, negb (Contains w ":")) words.
Definition SearchTerms (query : string) : list string := slicesFilter (Fields query).

Fixpoint tag_match (tags : list (list string)) (name : string) (values : list string) : bool :=
  match tags with
  | (n :: v :: _) :: r => String.eqb n name && contains values v || tag_match r name values
  | _ :: r => tag_match r name values
  | [] => false
  end.
Definition tagMatch (e : Event) (name : string) (values : list string) : bool :=
  tag_match (etags e) name values.

Definition in_opt {A} (test : list A → A → bool) (o : option (list A)) (x : A) : bool :=
  match o with None => true | Some l => test l x end.

(** The field constraints of [Matches], before the search terms. *)
Definition matches_fields (f : Filter) (e : Event) : bool :=
  in_opt contains (IDs f) (ID e) && in_opt contains (Authors f) (PubKey e)
  && in_opt containsInt (Kinds f) (Kind e)
  && match Since f with Some s => s <=? CreatedAt e | None => true end
  && match Until f with Some u => CreatedAt e <=? u | None => true end
  && forallb (λ kv, tagMatch e kv.1 kv.2) (map_to_list (FTags f)).

Definition Matches `{GoUnicode} (f : Filter) (e : Event) : bool :=
  matches_fields f e &&
  let content := ToLower (Content e) in
  forallb (λ term, Contains content (ToLower term)) (SearchTerms (Search f)).

(** * internal/event: kind constants, job kinds, private kinds, room replies *)

Definition KIND_PROFILE : Z := 0.
Definition KIND_DELETION : Z := 5.
Definition KIND_VANISH : Z := 62.
Definition KIND_AUTH : Z := 22242.
Definition KIND_DM : Z := 14.
Definition KIND_WRAP : Z := 1059.
Definition KIND_REPORT : Z := 1984.
Definition KIND_NOSTR_CONNECT : Z := 24133.
Definition KIND_APP_DATA : Z := 30078.
Definition KIND_VIEW : Z := KIND_APP_DATA.
Definition KIND_NIP43_JOIN : Z := 28934.
Definition KIND_NIP43_LEAVE : Z := 28936.
Definition KIND_PUT_USER : Z := 9000.
Definition KIND_REMOVE_USER : Z := 9001.
Definition KIND_EDIT_METADATA : Z := 9002.
Definition KIND_DELETE_EVENT : Z := 9005.
Definition KIND_CREATE_GROUP : Z := 9007.
Definition KIND_DELETE_GROUP : Z := 9008.
Definition KIND_CREATE_INVITE : Z := 9009.
Definition KIND_PINS : Z := 9010.
Definition KIND_JOIN : Z := 9021.
Definition KIND_LEAVE : Z := 9022.
Definition KIND_GROUP_METADATA : Z := 39000.
Definition KIND_GROUP_ADMINS : Z := 39001.
Definition KIND_GROUP_MEMBERS : Z := 39002.
Definition KIND_MARMOT_GROUP : Z := 445.
Definition KIND_MARMOT_KEY_PACKAGE : Z := 30443.
Definition KIND_REPO : Z := 30617.
Definition KIND_REPO_STATE : Z := 30618.
Definition KIND_PUSH_REGISTRATION : Z := 30390.
Definition KIND_CHAT : Z := 9.
Definition KIND_THREAD_REPLY : Z := 12.
Definition KIND_ROOM_MEMBER_ADDED : Z := 44100.
Definition KIND_ROOM_MEMBER_REMOVED : Z := 44101.
Definition KIND_WIKI_ARTICLE : Z := 30818.
Definition KIND_AGENT_GRANT : Z := 30392.
Definition KIND_JOB_REQUEST : Z := 43001.
Definition KIND_JOB_ACCEPTED : Z := 43002.
Definition KIND_JOB_PROGRESS : Z := 43003.
Definition KIND_JOB_RESULT : Z := 43004.
Definition KIND_JOB_CANCEL : Z := 43005.
Definition KIND_JOB_ERROR : Z := 43006.

(** ** Long tasks *)

Definition IsJobRequest (kind : Z) : bool := kind =? KIND_JOB_REQUEST.
Definition IsJobResult (kind : Z) : bool := kind =? KIND_JOB_RESULT.
Definition IsJobAnswer (kind : Z) : bool :=
  (kind =? KIND_JOB_ACCEPTED) || (kind =? KIND_JOB_PROGRESS) || (kind =? KIND_JOB_RESULT)
  || (kind =? KIND_JOB_ERROR).
Definition IsJobCancel (kind : Z) : bool := kind =? KIND_JOB_CANCEL.
Definition IsJobTerminal (kind : Z) : bool :=
  (kind =? KIND_JOB_RESULT) || (kind =? KIND_JOB_CANCEL) || (kind =? KIND_JOB_ERROR).
Definition IsJobKind (kind : Z) : bool := IsJobRequest kind || IsJobAnswer kind || IsJobCancel kind.

(** ** Private kinds and search visibility *)

Definition IsPrivate (k : Z) : bool :=
  (k =? 4) || (k =? 13) || (k =? KIND_WRAP) || (k =? 21059) || (k =? KIND_NOSTR_CONNECT)
  || (k =? KIND_PUSH_REGISTRATION).

(** [event.Matches]: the host's search exclusion on top of [nostr.Matches]. *)
Definition EventMatches `{GoUnicode} (f : Filter) (e : Event) : bool :=
  if IsPrivate (Kind e) && negb (Nat.eqb (List.length (SearchTerms (Search f))) 0) then false
  else Matches f e.

(** ** Room replies *)

Record reply_scan := ReplyScan { rs_root : string; rs_reply : string; rs_first : string; rs_marked : bool }.

(** One iteration over a tag. *)
Definition reply_step (st : reply_scan) (tag : list string) : reply_scan :=
  match tag with
  | n :: id :: rest =>
    if negb (String.eqb n "e") || negb (len id =? 64) then st
    else match hex_decode id with
    | None => st
    | Some _ =>
      let marker := match rest with _ :: m :: _ => m | _ => "" end in
      let st := ReplyScan (rs_root st) (rs_reply st) (rs_first st)
                  (rs_marked st || negb (String.eqb marker "")) in
      if String.eqb marker "root" then ReplyScan id (rs_reply st) (rs_first st) (rs_marked st)
      else if String.eqb marker "reply" then ReplyScan (rs_root st) id (rs_first st) (rs_marked st)
      else if String.eqb marker "" then
        ReplyScan (rs_root st) (rs_reply st)
          (if String.eqb (rs_first st) "" then id else rs_first st) (rs_marked st)
      else st
    end
  | _ => st
  end.

Definition RoomReplyRoot (e : Event) : string :=
  if negb (Kind e =? KIND_CHAT) && negb (Kind e =? KIND_THREAD_REPLY) then ""
  else
    let st := fold_left reply_step (etags e) (ReplyScan "" "" "" false) in
    if negb (String.eqb (rs_root st) "") then rs_root st
    else if negb (String.eqb (rs_reply st) "") then rs_reply st
    else if negb (rs_marked st) then rs_first st
    else "".

(** * protocol/nostr: decoding an event

    [Parse] over parsed JSON: the presence check of [requireFields], the struct
    decoding of encoding/json (a member names its field exactly or up to case
    folding, a null leaves the field as it is, a later member wins) and
    validation.  Error messages of the JSON library are cut to their prefix. *)

Definition event_fields : list string := ["id"; "pubkey"; "created_at"; "kind"; "tags"; "content"; "sig"].

Definition requireFields (j : json) : result unit :=
  members ← (match j with
             | JObj m => mret m
             | JNull => mret []
             | _ => Err "invalid event JSON"
             end);
  match List.filter (λ field, negb (contains members.*1 field)) event_fields with
  | [] => mret tt
  | field :: _ => Err ("invalid: missing " +:+ field)
  end.

(** The values of the struct's fields; a null keeps the [old] value. *)
Definition decode_string (old : string) (j : json) : option string :=
  match j with JStr s => Some s | JNull => Some old | _ => None end.
Definition decode_int (old : Z) (j : json) : option Z :=
  match j with JNum lit => num_ok (ParseInt lit) | JNull => Some old | _ => None end.
Definition decode_tag (j : json) : option (list string) :=
  match j with JArr l => mapM (decode_string "") l | JNull => Some [] | _ => None end.
Definition decode_tags (j : json) : option (option (list (list string))) :=
  match j with JArr l => Some <$> mapM decode_tag l | JNull => Some None | _ => None end.

Section EventJson.
Context `{GoUnicode}.

(** The field a key names: byExactName, else byFoldedName. *)
Definition field_of (key : string) : option string :=
  if contains event_fields key then Some key else List.find (λ f, EqualFold f key) event_fields.

Definition decode_member (e : Event) (kv : string * json) : option Event :=
  let '(key, v) := kv in
  match field_of key with
  | None => Some e
  | Some f =>
    if String.eqb f "id" then
      (λ s, mkEvent s (PubKey e) (CreatedAt e) (Kind e) (Tags e) (Content e) (Sig e)) <$> decode_string (ID e) v
    else if String.eqb f "pubkey" then
      (λ s, mkEvent (ID e) s (CreatedAt e) (Kind e) (Tags e) (Content e) (Sig e)) <$> decode_string (PubKey e) v
    else if String.eqb f "created_at" then
      (λ n, mkEvent (ID e) (PubKey e) n (Kind e) (Tags e) (Content e) (Sig e)) <$> decode_int (CreatedAt e) v
    else if String.eqb f "kind" then
      (λ n, mkEvent (ID e) (PubKey e) (CreatedAt e) n (Tags e) (Content e) (Sig e)) <$> decode_int (Kind e) v
    else if String.eqb f "tags" then
      (λ t, mkEvent (ID e) (PubKey e) (CreatedAt e) (Kind e) t (Content e) (Sig e)) <$> decode_tags v
    else if String.eqb f "content" then
      (λ s, mkEvent (ID e) (PubKey e) (CreatedAt e) (Kind e) (Tags e) s (Sig e)) <$> decode_string (Content e) v
    else
      (λ s, mkEvent (ID e) (PubKey e) (CreatedAt e) (Kind e) (Tags e) (Content e) s) <$> decode_string (Sig e) v
  end.

Fixpoint decode_members (e : Event) (m : list (string * json)) : option Event :=
  match m with [] => Some e | kv :: r => e' ← decode_member e kv; decode_members e' r end.

(** [Parse] on the decoded JSON value of its input. *)
Definition Parse_value `{NostrCrypto} (j : json) : result Event :=
  requireFields j;;
  match j with
  | JObj m =>
    match decode_members nil_event m with
    | None => Err "invalid event JSON"
    | Some e => Validate e;; mret e
    end
  | _ => Err "invalid event JSON" (* [requireFields] has refused *)
  end.

Definition Parse `{NostrCrypto} `{GoJson} (raw : string) : result Event :=
  match json_parse raw with
  | None => Err "invalid event JSON"
  | Some j => Parse_value j
  end.

(** The members [Canonical] writes. *)
Definition event_members (e : Event) : list (string * json) :=
  [("id", JStr (ID e)); ("pubkey", JStr (PubKey e)); ("created_at", JNum (Itoa (CreatedAt e)));
   ("kind", JNum (Itoa (Kind e)));
   ("tags", match Tags e with Some l => JArr ((λ t, JArr (JStr <$> t)) <$> l) | None => JNull end);
   ("content", JStr (Content e)); ("sig", JStr (Sig e))].
End EventJson.

Lemma decode_strings_fmap l : mapM (decode_string "") (JStr <$> l) = Some l.
Proof. induction l as [|s l IH]; [done|]. cbn. by rewrite IH. Qed.

Lemma decode_tags_fmap l : mapM decode_tag ((λ t, JArr (JStr <$> t)) <$> l) = Some l.
Proof. induction l as [|t l IH]; [done|]. cbn. by rewrite decode_strings_fmap, IH. Qed.

(** Decoding the members of an event's JSON gives the event, whatever the
    struct held before. *)
Lemma decode_event_members `{GoUnicode} e old :
  int64_min ≤ CreatedAt e ≤ int64_max → int64_min ≤ Kind e ≤ int64_max →
  decode_members old (event_members e) = Some e.
Proof.
  intros Hc Hk. unfold event_members. cbn. rewrite !ParseInt_Itoa by done. cbn.
  destruct e as [id pk c k [tags|] content sg]; cbn; [rewrite decode_tags_fmap|]; done.
Qed.
