(* ===== verification/FilterProps.v ===== *)
(** * protocol/nostr filters: decoding, encoding and matching laws *)

From S2P Require Import Prelude GoLib GoCodec GoLemmas Nostr Filter.

(** ** The order of the decoded members does not matter *)

Definition ok_of {A} (m : result A) : option A := match m with Ok a => Some a | Err _ => None end.

Lemma ok_of_Some {A} (m : result A) a : ok_of m = Some a ↔ m = Ok a.
Proof. destruct m; cbn; naive_solver. Qed.

(** The keys [filter_field] gives a meaning to. *)
Lemma filter_key_cases key :
  key = "ids" ∨ key = "authors" ∨ key = "kinds" ∨ key = "since" ∨ key = "until" ∨
  key = "limit" ∨ key = "search" ∨ (∃ c, key = String "#" (String c "")) ∨
  ∀ f v, filter_field f (key, v) = Ok f.
Proof.
  destruct (String.eqb_spec key "ids"); [tauto|]. destruct (String.eqb_spec key "authors"); [tauto|].
  destruct (String.eqb_spec key "kinds"); [tauto|]. destruct (String.eqb_spec key "since"); [tauto|].
  destruct (String.eqb_spec key "until"); [tauto|]. destruct (String.eqb_spec key "limit"); [tauto|].
  destruct (String.eqb_spec key "search"); [tauto|].
  destruct key as [|a [|b [|c r]]]; [| |destruct (Ascii.eqb_spec a "#") as [->|Ha]|].
  3: { do 7 right. left. by exists b. }
  all: do 8 right; intros [] v; unfold filter_field;
    repeat (rewrite (proj2 (String.eqb_neq _ _)) by done); try done.
  by rewrite (proj2 (Ascii.eqb_neq _ _) Ha).
Qed.

Lemma filter_other_comm f ka va b :
  (∀ f v, filter_field f (ka, v) = Ok f) →
  (filter_field f (ka, va) ≫= λ f', filter_field f' b)
  = (filter_field f b ≫= λ f', filter_field f' (ka, va)).
Proof.
  intros Ha. rewrite Ha. cbn [mbind result_bind].
  destruct (filter_field f b); cbn [mbind result_bind]; [by rewrite Ha|done].
Qed.

Lemma filter_field_comm f a b :
  a.1 ≠ b.1 →
  ok_of (filter_field f a ≫= λ f', filter_field f' b)
  = ok_of (filter_field f b ≫= λ f', filter_field f' a).
Proof.
  destruct a as [ka va], b as [kb vb]; cbn [fst]. intros Hne.
  destruct (filter_key_cases kb) as [->|[->|[->|[->|[->|[->|[->|[[c ->]|Hb]]]]]]]].
  9: { by rewrite <-(filter_other_comm f kb vb (ka, va) Hb). }
  all: destruct (filter_key_cases ka) as [->|[->|[->|[->|[->|[->|[->|[[c' ->]|Ha]]]]]]]]; try done.
  all: try (rewrite (filter_other_comm _ _ _ _ Ha); reflexivity).
  all: destruct f; unfold filter_field; cbn -[json_list];
    repeat (match goal with
    | |- context [json_list ?d ?v] => destruct (json_list d v); cbn -[json_list]
    | |- context [unmarshal_int ?v] => destruct (unmarshal_int v); cbn -[json_list]
    | |- context [unmarshal_string ?v] => destruct (unmarshal_string v); cbn -[json_list]
    end); try done.
  do 2 f_equal. apply insert_insert_ne. by intros [= ->].
Qed.

Lemma filter_fields_perm l l' :
  l ≡ₚ l' → NoDup l.*1 → ∀ f, ok_of (filter_fields f l) = ok_of (filter_fields f l').
Proof.
  induction 1 as [|x l l' Hp IH|x y l|l l' l'' H1 IH1 H2 IH2]; intros Hnd f; cbn in *.
  - done.
  - apply NoDup_cons in Hnd as [_ Hnd]. destruct (filter_field f x); cbn; auto.
  - apply NoDup_cons in Hnd as [Hx Hnd].
    assert (y.1 ≠ x.1) as Hne by set_solver.
    pose proof (filter_field_comm f y x Hne) as Hc.
    destruct (filter_field f y) as [fy|] eqn:Ey, (filter_field f x) as [fx|] eqn:Ex; cbn in *.
    + destruct (filter_field fy x) eqn:E1, (filter_field fx y) eqn:E2; cbn in *; by simplify_eq.
    + destruct (filter_field fy x) eqn:E1; cbn in *; by simplify_eq.
    + destruct (filter_field fx y) eqn:E2; cbn in *; by simplify_eq.
    + done.
  - rewrite IH1 by done. apply IH2. by rewrite <-H1.
Qed.

(** ** Encoding a filter and decoding it gives it back *)

Definition int64 (z : Z) : Prop := int64_min ≤ z ≤ int64_max.

(** The filters [MarshalJSON] can express: 64-bit integers and one-byte tag
    names, as [ParseFilter] produces. *)
Record wire_filter (f : Filter) : Prop := {
  wf_kinds : ∀ l, Kinds f = Some l → Forall int64 l;
  wf_since : ∀ n, Since f = Some n → int64 n;
  wf_until : ∀ n, Until f = Some n → int64 n;
  wf_limit : ∀ n, Limit f = Some n → int64 n;
  wf_tags : ∀ k l, FTags f !! k = Some l → ∃ c, k = String c "";
}.

Lemma json_list_fmap {A} (decode : json → option A) (enc : A → json) l :
  Forall (λ a, decode (enc a) = Some a ∧ is_null (enc a) = false) l →
  json_list decode (JArr (enc <$> l)) = Some l.
Proof.
  intros Hl. unfold json_list.
  assert (existsb is_null (enc <$> l) = false) as ->.
  { induction Hl as [|a l [_ Ha] _ IH]; [done|]. cbn. by rewrite Ha, IH. }
  induction Hl as [|a l [Ha _] _ IH]; [done|]. cbn. by rewrite Ha, IH.
Qed.

Lemma json_list_strings l : json_list unmarshal_string (raw_strings l) = Some l.
Proof. apply json_list_fmap, Forall_true. done. Qed.

Lemma unmarshal_raw_int z : int64 z → unmarshal_int (raw_int z) = Some z.
Proof. intros Hz. unfold raw_int, unmarshal_int. rewrite ParseInt_Itoa; [done|exact Hz]. Qed.

Lemma json_list_ints l :
  Forall int64 l → json_list unmarshal_int (JArr (raw_int <$> l)) = Some l.
Proof.
  intros Hl. apply json_list_fmap. eapply Forall_impl; [exact Hl|]. intros z Hz.
  by rewrite unmarshal_raw_int.
Qed.

Lemma filter_fields_app f l l' :
  filter_fields f (l ++ l') = (f' ← filter_fields f l; filter_fields f' l').
Proof. revert f. induction l as [|a l IH]; intros f; cbn; [done|]. destruct (filter_field f a); cbn; [apply IH|done]. Qed.

Lemma filter_fields_tags ids authors kinds t since until limit search l :
  Forall (λ kv, ∃ c, kv.1 = String c "") l →
  filter_fields (mkFilter ids authors kinds t since until limit search)
    ((λ kv, ("#" +:+ kv.1, raw_strings kv.2)) <$> l)
  = Ok (mkFilter ids authors kinds (foldl (λ m kv, <[kv.1:=kv.2]> m) t l)
          since until limit search).
Proof.
  intros Hl. revert t. induction Hl as [|[k v] l [c Hc] _ IH]; intros t; [done|].
  cbn in Hc. subst k. cbn [fmap list_fmap filter_fields fst snd].
  unfold filter_field. cbn -[json_list raw_strings]. rewrite json_list_strings. cbn. apply IH.
Qed.

Lemma foldl_insert_union (t : gmap string (list string)) l :
  foldl (λ m kv, <[kv.1:=kv.2]> m) t l = list_to_map (reverse l) ∪ t.
Proof.
  revert t. induction l as [|[k v] l IH]; intros t; cbn [foldl].
  { rewrite reverse_nil. cbn. by rewrite (left_id_L ∅ (∪)). }
  rewrite IH, reverse_cons, list_to_map_app. cbn.
  by rewrite <-(assoc_L (∪)), insert_empty, <-insert_union_singleton_l.
Qed.

Lemma foldl_insert_to_map (m : gmap string (list string)) :
  foldl (λ m kv, <[kv.1:=kv.2]> m) ∅ (map_to_list m) = m.
Proof.
  rewrite foldl_insert_union, (right_id_L ∅ (∪)).
  rewrite (list_to_map_proper _ (map_to_list m)); [apply list_to_map_to_list| |].
  - rewrite fmap_reverse, reverse_Permutation. apply NoDup_fst_map_to_list.
  - apply reverse_Permutation.
Qed.

Definition marshal_members (f : Filter) : list (string * json) :=
  match MarshalJSON f with JObj m => m | _ => [] end.

Lemma marshal_members_decode f :
  wire_filter f → filter_fields empty_filter (marshal_members f) = Ok f.
Proof.
  intros [Hk Hs Hu Hl Ht]. destruct f as [ids authors kinds t since until limit search].
  cbn [Kinds Since Until Limit FTags] in *.
  unfold marshal_members, MarshalJSON. cbn [IDs Authors Kinds Since Until Limit FTags Search].
  rewrite !filter_fields_app. unfold empty_filter.
  destruct ids as [ids|]; cbn -[json_list raw_strings]; rewrite ?json_list_strings; cbn -[json_list raw_strings].
  all: destruct authors as [au|]; cbn -[json_list raw_strings]; rewrite ?json_list_strings;
    cbn -[json_list raw_strings raw_int].
  all: destruct kinds as [ks|]; cbn -[json_list raw_strings raw_int];
    rewrite ?json_list_ints by auto; cbn -[unmarshal_int raw_int raw_strings].
  all: destruct since as [si|]; cbn -[unmarshal_int raw_int raw_strings];
    rewrite ?unmarshal_raw_int by auto; cbn -[unmarshal_int raw_int raw_strings].
  all: destruct until as [un|]; cbn -[unmarshal_int raw_int raw_strings];
    rewrite ?unmarshal_raw_int by auto; cbn -[unmarshal_int raw_int raw_strings].
  all: destruct limit as [li|]; cbn -[unmarshal_int raw_int raw_strings];
    rewrite ?unmarshal_raw_int by auto; cbn -[unmarshal_int raw_int raw_strings].
  all: destruct (String.eqb_spec search "") as [->|]; cbn -[raw_strings].
  all: rewrite filter_fields_tags, foldl_insert_to_map; [done|];
    apply Forall_forall; intros [k v] Hkv%elem_of_map_to_list; by eapply Ht.
Qed.

Lemma opt_member_keys {A} k (enc : A → json) o : (opt_member k enc o).*1 `sublist_of` [k].
Proof. destruct o; cbn; [done|]. apply sublist_nil_l. Qed.

Lemma marshal_members_NoDup f : NoDup (marshal_members f).*1.
Proof.
  pose (names := ["ids"; "authors"; "kinds"; "since"; "until"; "limit"; "search"]).
  pose (tags := (λ kv : string * list string, "#" +:+ kv.1) <$> map_to_list (FTags f)).
  assert (NoDup (names ++ tags)) as Hnd.
  { apply NoDup_app. split_and!.
    - by apply (bool_decide_unpack _).
    - intros k Hk. unfold tags. rewrite list_elem_of_fmap. intros ([k' v] & -> & _).
      unfold names in Hk. repeat (apply elem_of_cons in Hk as [Hk|Hk]; [done|]).
      by apply elem_of_nil in Hk.
    - assert (tags = (λ k, "#" +:+ k) <$> (map_to_list (FTags f)).*1) as ->.
      { unfold tags. by rewrite <-list_fmap_compose. }
      apply NoDup_fmap; [by intros ? ? [= ->]|]. apply NoDup_fst_map_to_list. }
  assert ((marshal_members f).*1 `sublist_of` names ++ tags) as Hsub.
  { unfold marshal_members, MarshalJSON. rewrite !fmap_app. unfold names.
    change ["ids"; "authors"; "kinds"; "since"; "until"; "limit"; "search"] with
      (["ids"] ++ ["authors"] ++ ["kinds"] ++ ["since"] ++ ["until"] ++ ["limit"] ++ ["search"]).
    rewrite <-!app_assoc. repeat (apply sublist_app; [apply opt_member_keys|]).
    apply sublist_app.
    - destruct (String.eqb (Search f) ""); [apply sublist_nil_l|done].
    - unfold tags. by rewrite <-list_fmap_compose. }
  by eapply sublist_NoDup.
Qed.

(** Decoding the JSON a filter is encoded to gives the filter back, for
    every order in which Go may range over the decoded object. *)
Theorem ParseFilter_MarshalJSON f members :
  wire_filter f → members ≡ₚ map_to_list (json_members (marshal_members f)) →
  filter_fields empty_filter members = Ok f ∧ ParseFilter_value (MarshalJSON f) = Ok f.
Proof.
  intros Hf Hp. pose proof (marshal_members_NoDup f) as Hnd.
  assert (map_to_list (json_members (marshal_members f)) ≡ₚ marshal_members f) as Hm.
  { unfold json_members. rewrite map_to_list_to_map; [apply reverse_Permutation|].
    by rewrite fmap_reverse, reverse_Permutation. }
  assert (∀ ms, ms ≡ₚ marshal_members f → filter_fields empty_filter ms = Ok f) as Hall.
  { intros ms Hms. apply ok_of_Some.
    rewrite (filter_fields_perm ms (marshal_members f) Hms) by (by rewrite Hms).
    apply ok_of_Some, marshal_members_decode, Hf. }
  split; [apply Hall; by rewrite Hp|]. apply (Hall _ Hm).
Qed.

Definition sample_filter : Filter :=
  mkFilter (Some ["a"; "b"]) None (Some [1; 30023]) {["t" := ["go"]]} (Some 5) None (Some 10) "hi".

Lemma ParseFilter_MarshalJSON_witness : ParseFilter_value (MarshalJSON sample_filter) = Ok sample_filter.
Proof.
  refine (proj2 (ParseFilter_MarshalJSON sample_filter _ _ (Permutation_refl _))).
  split; cbn; intros; simplify_eq; try (split; vm_compute; congruence).
  - repeat constructor; vm_compute; congruence.
  - apply lookup_singleton_Some in H as [<- _]. by eexists.
Defined.

(** ** Room replies *)

(** The [e] tags [RoomReplyRoot] considers, with their marker. *)
Definition reply_ref (tag : list string) : option (string * string) :=
  match tag with
  | n :: id :: rest =>
    if String.eqb n "e" && (len id =? 64) && (match hex_decode id with Some _ => true | _ => false end)
    then Some (id, match rest with _ :: m :: _ => m | _ => "" end) else None
  | _ => None
  end.

Definition refs_marked (m : string) (tags : list (list string)) : list string :=
  omap (λ t, r ← reply_ref t; if String.eqb r.2 m then Some r.1 else None) tags.

Lemma reply_step_ref st tag :
  reply_step st tag =
  match reply_ref tag with
  | None => st
  | Some (id, m) =>
    ReplyScan (if String.eqb m "root" then id else rs_root st)
      (if String.eqb m "reply" then id else rs_reply st)
      (if String.eqb m "" && String.eqb (rs_first st) "" then id else rs_first st)
      (rs_marked st || negb (String.eqb m ""))
  end.
Proof.
  destruct tag as [|n [|id rest]]; [by destruct st..|]. unfold reply_step, reply_ref.
  destruct (String.eqb n "e"); [|by destruct st]. destruct (len id =? 64); [|by destruct st].
  destruct (hex_decode id); [|by destruct st]. cbn [negb orb andb].
  set (m := match rest with _ :: m :: _ => m | _ => "" end).
  destruct (String.eqb_spec m "root") as [->|]; [done|].
  destruct (String.eqb_spec m "reply") as [->|]; [done|].
  by destruct (String.eqb_spec m "").
Qed.

Definition last_or (d : string) (l : list string) : string := default d (last l).
Definition head_or (d : string) (l : list string) : string := default d (head l).

Lemma last_or_cons d x l : last_or d (x :: l) = last_or x l.
Proof. unfold last_or. rewrite last_cons. by destruct (last l). Qed.

Lemma reply_ref_nonempty tag id m : reply_ref tag = Some (id, m) → String.eqb id "" = false.
Proof.
  destruct tag as [|n [|i rest]]; [done..|]. cbn.
  destruct (String.eqb n "e"); [|done]. destruct (len i =? 64) eqn:E; [|done].
  destruct (hex_decode i); [|done]. intros [= <- _].
  destruct (String.eqb_spec i "") as [->|]; [by vm_compute in E|done].
Qed.

Lemma reply_scan_spec tags st :
  let st' := fold_left reply_step tags st in
  rs_root st' = last_or (rs_root st) (refs_marked "root" tags) ∧
  rs_reply st' = last_or (rs_reply st) (refs_marked "reply" tags) ∧
  rs_first st' = (if String.eqb (rs_first st) "" then head_or "" (refs_marked "" tags)
                  else rs_first st) ∧
  rs_marked st' = rs_marked st ||
    existsb (λ t, match reply_ref t with Some (_, m) => negb (String.eqb m "") | None => false end) tags.
Proof.
  revert st. induction tags as [|t tags IH]; intros st; cbn [fold_left].
  { cbn. rewrite orb_false_r. destruct (String.eqb_spec (rs_first st) "") as [E|]; auto. }
  destruct (IH (reply_step st t)) as (-> & -> & -> & ->).
  rewrite reply_step_ref. unfold refs_marked. cbn [omap list_omap existsb].
  destruct (reply_ref t) as [[id m]|] eqn:Er; cbn [mbind option_bind]; [|done].
  cbn [rs_root rs_reply rs_first rs_marked fst snd].
  pose proof (reply_ref_nonempty _ _ _ Er) as Hid.
  repeat split.
  - destruct (String.eqb m "root"); [by rewrite last_or_cons|done].
  - destruct (String.eqb m "reply"); [by rewrite last_or_cons|done].
  - destruct (String.eqb m ""), (String.eqb (rs_first st) "") eqn:E; cbn [andb]; rewrite ?Hid, ?E; done.
  - by rewrite orb_assoc.
Qed.

(** A chat or thread reply answers the last event marked root, else the
    last marked reply, else the first unmarked reference of a message with no
    marker at all; quotes and mentions never make a reply. *)
Theorem RoomReplyRoot_spec e :
  RoomReplyRoot e =
  if negb ((Kind e =? KIND_CHAT) || (Kind e =? KIND_THREAD_REPLY)) then ""
  else match last (refs_marked "root" (etags e)), last (refs_marked "reply" (etags e)) with
  | Some r, _ => r
  | None, Some r => r
  | None, None =>
    if forallb (λ t, match reply_ref t with Some (_, m) => String.eqb m "" | None => true end) (etags e)
    then head_or "" (refs_marked "" (etags e)) else ""
  end.
Proof.
  unfold RoomReplyRoot. rewrite <-negb_orb.
  destruct (negb _); [done|].
  destruct (reply_scan_spec (etags e) (ReplyScan "" "" "" false)) as (-> & -> & -> & ->).
  cbn [rs_root rs_reply rs_first rs_marked].
  assert (∀ m r, last (refs_marked m (etags e)) = Some r → String.eqb r "" = false) as Hne.
  { intros m r (l' & Hl)%last_Some.
    assert (r ∈ refs_marked m (etags e)) as Hr by (rewrite Hl; set_solver).
    unfold refs_marked in Hr. apply list_elem_of_omap in Hr as (t & _ & Ht).
    destruct (reply_ref t) as [[id m']|] eqn:Er; [|done]. cbn in Ht.
    destruct (String.eqb m' m); [|done]. simplify_eq. by eapply reply_ref_nonempty. }
  unfold last_or. destruct (last (refs_marked "root" (etags e))) as [r|] eqn:E1; unfold default, id.
  { by rewrite (Hne _ _ E1). }
  cbn [String.eqb negb]. destruct (last (refs_marked "reply" (etags e))) as [r|] eqn:E2; unfold default, id.
  { by rewrite (Hne _ _ E2). }
  cbn [String.eqb negb orb].
  assert (∀ l, negb (existsb (λ t, match reply_ref t with
      Some (_, m) => negb (String.eqb m "") | None => false end) l)
    = forallb (λ t, match reply_ref t with Some (_, m) => String.eqb m "" | None => true end) l)
    as <-; [|done].
  induction l as [|t l IH]; [done|]. cbn. rewrite negb_orb, IH.
  destruct (reply_ref t) as [[? m]|]; [by rewrite negb_involutive|done].
Qed.
