(* ===== verification/SyncProtocol.v ===== *)
(** * internal/syncprotocol: count sketches and reconciliation sessions

    The 256-register sketch of hll.go and the wrapper negentropy.go puts
    around the reconciliation library.  The library is [Negentropy]: its index
    and its messages are parameters. *)

From S2P Require Import Prelude GoLib GoCodec GoLemmas Nostr Filter.
From S2P Require Import NostrProps.

(** ** hll.go *)

Definition hllRegisters : nat := 256.

Record HLL := mkHLL { hll_offset : nat; hll_regs : list Z }.

Definition no_registers : list Z := replicate hllRegisters 0.

Definition NewHLL (offset : Z) : HLL :=
  if (offset <? 0) || (32 <=? offset) then mkHLL 0 no_registers else mkHLL (Z.to_nat offset) no_registers.

Definition isLowerHex (value : string) : bool := isHex value.
Definition isHexCharacters (value : string) : bool :=
  forallb (λ b, in_range 48 b 57 || in_range 97 b 102 || in_range 65 b 70) (bytes_of value).

(** [for bit := byte(0x80); value&bit == 0; bit >>= 1]: [None] is a loop that
    has not ended after [fuel] rounds. *)
Fixpoint leading_zeros (fuel : nat) (value bit : Z) : option Z :=
  match fuel with
  | O => None
  | S f => if Z.land value bit =? 0 then Z.succ <$> leading_zeros f value (Z.shiftr bit 1) else Some 0
  end.
Definition leadingZeros8 (value : Z) : Z := default 0 (leading_zeros 8 value 128).

(** The loop over the bytes behind the register byte. *)
Fixpoint zero_run (key : list Z) : Z :=
  match key with
  | [] => 0
  | b :: r => if b =? 0 then 8 + zero_run r else leadingZeros8 b
  end.

(** [uint8(zeros + 1)] *)
Definition rank (offset : nat) (key : list Z) : Z := (zero_run (drop (S offset) key) + 1) mod 256.
Definition register (offset : nat) (key : list Z) : nat := Z.to_nat (default 0 (key !! offset)).

Definition add_key (offset : nat) (regs : list Z) (key : list Z) : list Z :=
  alter (λ old, if old <? rank offset key then rank offset key else old) (register offset key) regs.

Definition Add (h : HLL) (pubkeyHex : string) : result HLL :=
  guard_err (negb (len pubkeyHex =? 64) || negb (isHexCharacters pubkeyHex)) "invalid pubkey: expected 32-byte hex";;
  key ← need (hex_decode pubkeyHex) "decode pubkey: ";
  mret (mkHLL (hll_offset h) (add_key (hll_offset h) (hll_regs h) key)).

Definition Hex (h : HLL) : string := hex_encode (hll_regs h).

(** The registers of two sketches, the larger of each pair. *)
Definition merge_regs (mine other : list Z) : list Z :=
  zip_with (λ old value, if old <? value then value else old) mine other.

Definition MergeHex (h : HLL) (encoded : string) : result HLL :=
  guard_err (negb (len encoded =? 512)) "invalid HLL: expected 512 hex characters";;
  match hex_decode encoded with
  | Some registers =>
    guard_err (negb (Nat.eqb (List.length registers) hllRegisters)) "invalid HLL registers";;
    mret (mkHLL (hll_offset h) (merge_regs (hll_regs h) registers))
  | None => Err "invalid HLL registers"
  end.

(** The value is hashed unless it is lower-case hex of 32 bytes, and
    [value[32]] is its 33rd character. *)
Definition hll_value (value : string) : string :=
  let value := match Split value ":"%char with
               | [_; second; _] => if len second =? 64 then second else value
               | _ => value
               end in
  if negb (len value =? 64) || negb (isLowerHex value) then sha256_hex value else value.

Definition HLLFilterOffset (f : Filter) : option Z :=
  match map_to_list (FTags f) with
  | [(_, value :: _)] =>
    c ← String.get 32 (hll_value value);
    digit ← from_hex (byte_of c);
    Some (digit + 8)
  | _ => None
  end.

(** ** negentropy.go *)

Record Item := mkItem { it_ID : string; it_Timestamp : Z }.

(** nostr.IDFromHex, the sealed vector and the reconciliation object of the
    library: [lib_Reconcile] returns the next message, empty when done. *)
Class Negentropy := {
  Neg : Type;
  lib_IDFromHex : string → result string;
  lib_New : list (Z * string) → bool → Neg;
  lib_Start : Neg → Neg * string;
  lib_Reconcile : Neg → string → Neg * result string;
}.

Section Session.
Context `{Negentropy}.

Record SyncSession := mkSync { neg : Neg; initiator : bool }.

Fixpoint sync_vector (items : list Item) : result (list (Z * string)) :=
  match items with
  | [] => mret []
  | item :: r =>
    match lib_IDFromHex (it_ID item) with
    | Err m => Err ("invalid sync item id: " +:+ m)
    | Ok id => rest ← sync_vector r; mret ((it_Timestamp item, id) :: rest)
    end
  end.

Definition NewSession (items : list Item) (initiator : bool) : result SyncSession :=
  vec ← sync_vector items;
  mret (mkSync (lib_New vec initiator) initiator).

Definition Start (s : SyncSession) : SyncSession * result string :=
  if initiator s then let '(n, m) := lib_Start (neg s) in (mkSync n true, mret m)
  else (s, Err "only the initiator can start a negentropy session").

(** The response; [Done] is [initiator && response = ""]. *)
Definition Reconcile (s : SyncSession) (message : string) : SyncSession * result string :=
  if String.eqb message "" then (s, Err "empty negentropy message")
  else match lib_Reconcile (neg s) message with
  | (n, Ok response) => (mkSync n (initiator s), mret response)
  | (n, Err m) => (mkSync n (initiator s), Err ("reconcile negentropy message: " +:+ m))
  end.
End Session.

(** * Properties of the count sketches

    The bit loop ends, a sketch depends only on the set of keys, and merging
    the sketches of two relays is the sketch of all their keys. *)

(** ** The bit loop *)

(** The loop of [leadingZeros8] as the source runs it: a round shifts the bit
    while it is not set in the value. *)
Inductive bit_loop (value : Z) : Z → Z → Prop :=
| bit_stop bit : Z.land value bit ≠ 0 → bit_loop value bit 0
| bit_round bit n : Z.land value bit = 0 → bit_loop value (Z.shiftr bit 1) n → bit_loop value bit (n + 1).

Lemma leading_zeros_loop fuel value bit n : leading_zeros fuel value bit = Some n → bit_loop value bit n.
Proof.
  revert bit n. induction fuel as [|f IH]; intros bit n; simpl; [done|].
  destruct (Z.land value bit =? 0) eqn:E; [|intros [= <-]; constructor; by apply Z.eqb_neq].
  intros (m & Hm & ->)%fmap_Some. unfold Z.succ. constructor; [by apply Z.eqb_eq|by apply IH].
Qed.

Definition byte_zeros_ok (b : Z) : bool :=
  match leading_zeros 8 b 128 with Some n => (n =? 7 - Z.log2 b) && (0 <=? n) && (n <=? 7) | None => false end.

Lemma leading_zeros_byte b : 1 ≤ b ≤ 255 → leading_zeros 8 b 128 = Some (7 - Z.log2 b) ∧ 0 ≤ 7 - Z.log2 b ≤ 7.
Proof.
  intros Hb. assert (E : byte_zeros_ok b = true) by (apply (forallb_zrange _ 1 255); [by vm_compute|lia]).
  unfold byte_zeros_ok in E. destruct (leading_zeros 8 b 128) as [n|]; [|done].
  rewrite !andb_true_iff, Z.eqb_eq, !Z.leb_le in E. destruct E as ((->&?)&?). done.
Qed.

(** The bit loop of the sketch ends for every byte it is called with, after
    as many rounds as the byte has leading zero bits; on a zero byte it would
    never end. *)
Theorem leadingZeros8_terminates b :
  1 ≤ b ≤ 255 → bit_loop b 128 (leadingZeros8 b) ∧ leadingZeros8 b = 7 - Z.log2 b ∧ ∀ bit n, ¬ bit_loop 0 bit n.
Proof.
  intros Hb. destruct (leading_zeros_byte b Hb) as (E&_). unfold leadingZeros8. rewrite E. simpl.
  split_and!; [by eapply leading_zeros_loop|done|]. intros bit n. by induction 1.
Qed.

Lemma leadingZeros8_terminates_witness : bit_loop 9 128 4.
Proof. destruct (leadingZeros8_terminates 9) as (Hl&_&_); [lia|exact Hl]. Defined.

(** ** Registers *)

Definition octets (l : list Z) : Prop := Forall (λ b, 0 ≤ b < 256) l.

Lemma zero_run_bounds key : octets key → 0 ≤ zero_run key ≤ 8 * Z.of_nat (List.length key).
Proof.
  induction 1 as [|b key Hb _ IH]; simpl; [lia|]. destruct (b =? 0) eqn:E; [lia|].
  destruct (leading_zeros_byte b ltac:(lia)) as (El&?). unfold leadingZeros8. rewrite El. simpl. lia.
Qed.

(** The rank fits the 8-bit register: no wrap-around happens. *)
Lemma rank_small offset key :
  octets key → List.length key = 32%nat → rank offset key = zero_run (drop (S offset) key) + 1 ∧ 1 ≤ rank offset key ≤ 249.
Proof.
  intros Hk Hl. assert (Hd : octets (drop (S offset) key)) by (by apply Forall_drop).
  pose proof (zero_run_bounds _ Hd) as Hz. rewrite length_drop, Hl in Hz.
  unfold rank. rewrite Z.mod_small by lia. lia.
Qed.

Lemma register_range offset key : octets key → (register offset key < 256)%nat.
Proof.
  intros Hk. unfold register. destruct (key !! offset) as [b|] eqn:E; simpl; [|lia].
  pose proof (proj1 (Forall_lookup _ _) Hk offset b E) as Hb. simpl in Hb. lia.
Qed.

Lemma add_key_alter offset regs key :
  add_key offset regs key = alter (λ old, Z.max old (rank offset key)) (register offset key) regs.
Proof. unfold add_key. apply list_alter_ext; [|done]. intros x _. case_match; lia. Qed.

Lemma merge_regs_max mine other : merge_regs mine other = zip_with Z.max mine other.
Proof.
  unfold merge_regs. revert other. induction mine as [|x l IH]; intros [|y other]; simpl; try done.
  rewrite IH. f_equal. case_match; lia.
Qed.

Lemma length_add_key offset regs key : List.length (add_key offset regs key) = List.length regs.
Proof. apply length_alter. Qed.

Lemma add_key_comm offset regs k k' :
  add_key offset (add_key offset regs k) k' = add_key offset (add_key offset regs k') k.
Proof.
  rewrite !add_key_alter. destruct (decide (register offset k = register offset k')) as [E|E].
  - rewrite E, !list_alter_alter_eq. apply list_alter_ext; [|done]. intros x _. simpl. lia.
  - apply list_alter_alter_ne. congruence.
Qed.

Lemma add_key_idem offset regs k : add_key offset (add_key offset regs k) k = add_key offset regs k.
Proof. rewrite !add_key_alter, list_alter_alter_eq. apply list_alter_ext; [|done]. intros x _. simpl. lia. Qed.

Lemma merge_add offset r r' k :
  List.length r = List.length r' →
  zip_with Z.max r (add_key offset r' k) = add_key offset (zip_with Z.max r r') k.
Proof.
  rewrite !add_key_alter. generalize (register offset k) as i. intros i. revert r r'.
  induction i as [|i IH]; intros [|x r] [|y r'] Hl; simpl; try done; [f_equal; lia|].
  f_equal. apply IH. by injection Hl.
Qed.

(** The sketch of a list of keys. *)
Definition sketch (offset : nat) (keys : list (list Z)) : list Z := foldl (add_key offset) no_registers keys.

Lemma length_sketch offset regs keys : List.length (foldl (add_key offset) regs keys) = List.length regs.
Proof. revert regs. induction keys as [|k keys IH]; intros regs; simpl; [done|]. by rewrite IH, length_add_key. Qed.

Lemma merge_foldl offset r r' keys :
  List.length r = List.length r' →
  zip_with Z.max r (foldl (add_key offset) r' keys) = foldl (add_key offset) (zip_with Z.max r r') keys.
Proof.
  revert r'. induction keys as [|k keys IH]; intros r' Hl; simpl; [done|].
  rewrite IH by (by rewrite length_add_key). by rewrite merge_add.
Qed.

Lemma merge_zero r n : Forall (λ x, 0 ≤ x) r → List.length r = n → zip_with Z.max r (replicate n 0) = r.
Proof.
  intros Hr <-. induction Hr as [|x r Hx _ IH]; simpl; [done|]. rewrite IH. f_equal. lia.
Qed.

Lemma add_key_bytes offset regs key :
  octets key → List.length key = 32%nat → octets regs → octets (add_key offset regs key).
Proof.
  intros Hk Hl Hr. rewrite add_key_alter. apply Forall_alter; [done|].
  intros x _ Hx. destruct (rank_small offset key Hk Hl) as (_&?). simpl in *. lia.
Qed.

Definition pubkey_bytes (key : list Z) : Prop := octets key ∧ List.length key = 32%nat.

Lemma foldl_bytes offset regs keys : Forall pubkey_bytes keys → octets regs → octets (foldl (add_key offset) regs keys).
Proof.
  intros Hk. revert regs. induction Hk as [|k keys (Hb&Hl) _ IH]; intros regs Hr; simpl; [done|].
  apply IH. by apply add_key_bytes.
Qed.

Lemma sketch_bytes offset keys : Forall pubkey_bytes keys → octets (sketch offset keys).
Proof. intros Hk. apply foldl_bytes; [done|]. apply Forall_replicate. lia. Qed.

Lemma sketch_perm offset keys keys' : keys ≡ₚ keys' → sketch offset keys = sketch offset keys'.
Proof.
  unfold sketch. generalize no_registers as regs. intros regs E. revert regs.
  induction E as [|k l l' _ IH|k k' l|l l' l'' _ IH _ IH']; intros regs; simpl; [done|apply IH| |].
  - by rewrite add_key_comm.
  - by rewrite IH.
Qed.

Lemma sketch_cons offset regs k keys :
  foldl (add_key offset) (add_key offset regs k) keys = add_key offset (foldl (add_key offset) regs keys) k.
Proof.
  revert regs. induction keys as [|k' keys IH]; intros regs; simpl; [done|].
  rewrite add_key_comm. apply IH.
Qed.

Lemma sketch_dup offset k keys : k ∈ keys → sketch offset (k :: keys) = sketch offset keys.
Proof.
  intros Hin. unfold sketch. simpl. induction keys as [|k' keys IH]; [by apply elem_of_nil in Hin|].
  simpl. rewrite !sketch_cons. apply elem_of_cons in Hin as [<-|Hin]; [by rewrite add_key_idem|].
  rewrite <-(sketch_cons _ _ k), IH by done. done.
Qed.

Lemma sketch_same_keys offset keys keys' :
  (∀ k, k ∈ keys ↔ k ∈ keys') → sketch offset keys = sketch offset keys'.
Proof.
  assert (Hd : ∀ l, sketch offset l = sketch offset (remove_dups l)).
  { induction l as [|k l IH]; [done|]. simpl. case_decide as Hin; [by rewrite sketch_dup|].
    unfold sketch in *. cbn [foldl]. by rewrite !sketch_cons, IH. }
  intros E. rewrite (Hd keys), (Hd keys'). apply sketch_perm, NoDup_Permutation; [apply NoDup_remove_dups..|].
  intros k. by rewrite !elem_of_remove_dups.
Qed.

Lemma merge_sketch offset keys keys' :
  Forall pubkey_bytes keys → merge_regs (sketch offset keys) (sketch offset keys') = sketch offset (keys ++ keys').
Proof.
  intros Hk. rewrite merge_regs_max. unfold sketch at 2. rewrite merge_foldl.
  - change no_registers with (replicate hllRegisters 0).
    rewrite (merge_zero (sketch offset keys) hllRegisters);
      [by unfold sketch; rewrite foldl_app| |unfold sketch; by rewrite length_sketch].
    eapply Forall_impl; [apply (sketch_bytes offset keys Hk)|]. simpl. lia.
  - unfold sketch. by rewrite length_sketch.
Qed.

(** ** The sketch of the wire *)

(** Adding every key of a list, as the count handler does. *)
Fixpoint AddAll (h : HLL) (pubkeys : list string) : result HLL :=
  match pubkeys with [] => mret h | p :: r => h' ← Add h p; AddAll h' r end.

Lemma from_hex_range b h : from_hex b = Some h → 0 ≤ h < 16.
Proof.
  unfold from_hex. repeat case_match; intros [= <-];
    match goal with E : in_range _ _ _ = true |- _ => apply in_range_true in E end; lia.
Qed.

Definition nibble_pair_ok (h k : Z) : bool := (0 <=? Z.lor (Z.shiftl h 4) k) && (Z.lor (Z.shiftl h 4) k <=? 255).

Lemma nibble_pair h k : 0 ≤ h < 16 → 0 ≤ k < 16 → 0 ≤ Z.lor (Z.shiftl h 4) k < 256.
Proof.
  intros Hh Hk. assert (E : forallb (λ k, nibble_pair_ok h k) (zrange 0 15) = true).
  { apply (forallb_zrange (λ h, forallb (λ k, nibble_pair_ok h k) (zrange 0 15)) 0 15); [by vm_compute|lia]. }
  apply (forallb_zrange _ 0 15 k) in E; [|lia]. unfold nibble_pair_ok in E. rewrite andb_true_iff, !Z.leb_le in E. lia.
Qed.

Lemma hex_decode_octets l : ∀ s, hex_decode s = Some l → octets l.
Proof.
  induction l as [|x l IH]; [by constructor|]. intros [|a [|b r]]; try done.
  intros (h & k & t & Hh%from_hex_range & Hk%from_hex_range & Hr & [= -> ->])%hex_decode_cons.
  constructor; [by apply nibble_pair|by eapply IH].
Qed.

Definition decoded (p : string) : list Z := default [] (hex_decode p).

Lemma Add_Ok h p h' :
  Add h p = Ok h' →
  pubkey_bytes (decoded p) ∧ h' = mkHLL (hll_offset h) (add_key (hll_offset h) (hll_regs h) (decoded p)).
Proof.
  unfold Add, decoded. rewrite guard_bind_Ok. intros (Hg & Hr). apply result_bind_Ok in Hr as (key & Hk & [= <-]).
  destruct (hex_decode p) as [l|] eqn:Hd; [|done]. injection Hk as ->. simpl. split; [|done].
  split; [by eapply hex_decode_octets|]. apply hex_decode_length in Hd.
  apply orb_false_iff in Hg as (Hlen%negb_false_iff%Z.eqb_eq & _). unfold len in Hlen. lia.
Qed.

Lemma AddAll_Ok pubkeys h h' :
  AddAll h pubkeys = Ok h' →
  Forall pubkey_bytes (decoded <$> pubkeys) ∧
  h' = mkHLL (hll_offset h) (foldl (add_key (hll_offset h)) (hll_regs h) (decoded <$> pubkeys)).
Proof.
  revert h. induction pubkeys as [|p ps IH]; intros h; simpl; [intros [= <-]; by destruct h|].
  intros (h1 & (Hp & ->)%Add_Ok & (Hps & ->)%IH)%result_bind_Ok. split; [by constructor|done].
Qed.

Lemma AddAll_total pubkeys h :
  Forall (λ p, len p = 64 ∧ isHexCharacters p = true ∧ is_Some (hex_decode p)) pubkeys → is_ok (AddAll h pubkeys) = true.
Proof.
  intros Hp. revert h. induction Hp as [|p ps (Hl & Hx & [key Hd]) _ IH]; intros h; simpl; [done|].
  unfold Add. rewrite Hl, Hx, Hd. simpl. apply IH.
Qed.

(** Counts merge. Whatever keys two relays count, merging the second
    relay's wire sketch into the first gives the sketch of a relay that counted
    exactly the keys of both, in any order and with any repetition; no register
    overflows on the way. *)
Theorem count_sketch_merges o mine theirs all h h' h'' :
  AddAll (NewHLL o) mine = Ok h → AddAll (NewHLL o) theirs = Ok h' → AddAll (NewHLL o) all = Ok h'' →
  (∀ p, p ∈ all ↔ p ∈ mine ∨ p ∈ theirs) →
  MergeHex h (Hex h') = Ok h'' ∧ Forall (λ r, 0 ≤ r ≤ 255) (hll_regs h'').
Proof.
  intros (Hm&->)%AddAll_Ok (Ht&->)%AddAll_Ok (Ha&->)%AddAll_Ok Hall.
  assert (Hr : hll_regs (NewHLL o) = no_registers) by (unfold NewHLL; by case_match).
  rewrite Hr. set (off := hll_offset (NewHLL o)). fold (sketch off (decoded <$> mine)) (sketch off (decoded <$> theirs)) (sketch off (decoded <$> all)).
  assert (E : sketch off (decoded <$> all) = sketch off ((decoded <$> mine) ++ (decoded <$> theirs))).
  { apply sketch_same_keys. intros k. rewrite <-fmap_app, !list_elem_of_fmap. setoid_rewrite elem_of_app.
    setoid_rewrite Hall. done. }
  split.
  - unfold MergeHex, Hex. simpl. assert (Hl : List.length (sketch off (decoded <$> theirs)) = 256%nat) by (unfold sketch; by rewrite length_sketch).
    unfold len. rewrite length_hex_encode, Hl. simpl. rewrite hex_decode_encode by (by apply sketch_bytes).
    rewrite Hl. simpl. by rewrite merge_sketch, <-E.
  - simpl. eapply Forall_impl; [by apply sketch_bytes|]. simpl. lia.
Qed.

Definition key_a : string := hex_encode (replicate 32 9).
Definition key_b : string := hex_encode (5 :: replicate 31 0).

Lemma count_sketch_merges_witness : ∃ h h' h'',
  AddAll (NewHLL 8) [key_a] = Ok h ∧ AddAll (NewHLL 8) [key_b; key_a] = Ok h' ∧ AddAll (NewHLL 8) [key_a; key_b] = Ok h'' ∧
  MergeHex h (Hex h') = Ok h''.
Proof.
  destruct (AddAll (NewHLL 8) [key_a]) as [h|] eqn:E; [|vm_compute in E; discriminate].
  destruct (AddAll (NewHLL 8) [key_b; key_a]) as [h'|] eqn:E'; [|vm_compute in E'; discriminate].
  destruct (AddAll (NewHLL 8) [key_a; key_b]) as [h''|] eqn:E''; [|vm_compute in E''; discriminate].
  exists h, h', h''. split_and!; [done..|].
  apply (count_sketch_merges 8 [key_a] [key_b; key_a] [key_a; key_b] h h' h'' E E' E'').
  intros p. set_solver.
Defined.

(** A count filter's offset leaves room for the run behind it. *)
Lemma HLLFilterOffset_range f o : HLLFilterOffset f = Some o → 8 ≤ o ≤ 23.
Proof.
  unfold HLLFilterOffset. destruct (map_to_list (FTags f)) as [|[k [|v vs]] [|]]; try done.
  destruct (String.get 32 (hll_value v)) as [c|]; simpl; [|done]. destruct (from_hex (byte_of c)) as [d|] eqn:E; simpl; [|done].
  intros [= <-]. apply from_hex_range in E. lia.
Qed.
