(* ===== verification/Store.v ===== *)
(** * internal/storage: the tenant database and event persistence

    Tables are lists of rows in insertion order, or finite maps where the
    table has a single-column primary key and no ordered scan.  Each SQL
    statement of save.go is the list operation it denotes, with the cascades
    of the schema: deleting an event removes its tags and its Marmot principal
    (foreign keys are switched on) and its search row (the delete trigger).
    The [raw] column, which holds the canonical JSON of an event, is the event
    itself.  Driver and I/O failures are outside the model; the rejections and
    the constraint failure of the insert are in it. *)

From S2P Require Import Prelude GoLib GoCodec Nostr Filter.

(** ** Rows *)

Record EventRow := mkRow {
  r_seq : Z; r_id : string; r_pubkey : string; r_created : Z; r_kind : Z;
  r_d : string; r_expires : Z; r_raw : Event;
}.

Record TagRow := mkTagRow { t_event : string; t_name : string; t_value : string }.

Record HistRow := mkHist {
  h_owner : string; h_kind : Z; h_d : string; h_event : string; h_created : Z;
  h_saved : Z; h_expires : Z; h_raw : Event;
}.

(** [wiki_revisions] and [agent_grant_revisions] have the same columns. *)
Record RevRow := mkRev {
  v_event : string; v_author : string; v_d : string; v_created : Z;
  v_raw : Event; v_superseded : string;
}.

Inductive WorkState := WPending | WRunning | WCompleted | WCancelled.
#[export] Instance WorkState_eq_dec : EqDecision WorkState.
Proof. solve_decision. Defined.

Record WorkRow := mkWork {
  w_id : string; w_kind : string; w_event : string; w_target : string; w_payload : string;
  w_state : WorkState; w_attempts : Z; w_next : Z; w_created : Z; w_updated : Z;
  w_error : string; w_token : string; w_until : Z;
}.

Record DB := mkDB {
  events : list EventRow;
  next_seq : Z;
  tags : list TagRow;
  search : list (Z * string);
  vanished : gmap string Z;
  deletions : gmap (string * string * string) Z;
  hidden : gmap string string;
  pending : gmap string string;
  marmot : gmap string string;
  history : list HistRow;
  wiki : list RevRow;
  grants : list RevRow;
  settings : gmap string string;
  intents : list WorkRow;
}.

Definition empty_db : DB := mkDB [] 1 [] [] ∅ ∅ ∅ ∅ ∅ [] [] [] ∅ [].

Definition set_history (h : list HistRow) (db : DB) : DB :=
  mkDB (events db) (next_seq db) (tags db) (search db) (vanished db) (deletions db) (hidden db)
    (pending db) (marmot db) h (wiki db) (grants db) (settings db) (intents db).
Definition set_wiki (w : list RevRow) (db : DB) : DB :=
  mkDB (events db) (next_seq db) (tags db) (search db) (vanished db) (deletions db) (hidden db)
    (pending db) (marmot db) (history db) w (grants db) (settings db) (intents db).
Definition set_grants (g : list RevRow) (db : DB) : DB :=
  mkDB (events db) (next_seq db) (tags db) (search db) (vanished db) (deletions db) (hidden db)
    (pending db) (marmot db) (history db) (wiki db) g (settings db) (intents db).
Definition set_intents (w : list WorkRow) (db : DB) : DB :=
  mkDB (events db) (next_seq db) (tags db) (search db) (vanished db) (deletions db) (hidden db)
    (pending db) (marmot db) (history db) (wiki db) (grants db) (settings db) w.
Definition set_deletions (d : gmap (string * string * string) Z) (db : DB) : DB :=
  mkDB (events db) (next_seq db) (tags db) (search db) (vanished db) d (hidden db)
    (pending db) (marmot db) (history db) (wiki db) (grants db) (settings db) (intents db).
Definition set_vanished (v : gmap string Z) (db : DB) : DB :=
  mkDB (events db) (next_seq db) (tags db) (search db) v (deletions db) (hidden db)
    (pending db) (marmot db) (history db) (wiki db) (grants db) (settings db) (intents db).
Definition set_settings (s : gmap string string) (db : DB) : DB :=
  mkDB (events db) (next_seq db) (tags db) (search db) (vanished db) (deletions db) (hidden db)
    (pending db) (marmot db) (history db) (wiki db) (grants db) s (intents db).

(** ** Statements shared by the operations *)

(** Delete the event rows satisfying [p], with the schema's cascades; the
    second result is RowsAffected. *)
Definition delete_events (p : EventRow → bool) (db : DB) : DB * Z :=
  let gone := List.filter p (events db) in
  let gone_id i := existsb (λ r, String.eqb (r_id r) i) gone in
  let gone_seq n := existsb (λ r, r_seq r =? n) gone in
  (mkDB (List.filter (λ r, negb (p r)) (events db)) (next_seq db)
     (List.filter (λ t, negb (gone_id (t_event t))) (tags db))
     (List.filter (λ s, negb (gone_seq s.1)) (search db))
     (vanished db) (deletions db) (hidden db) (pending db)
     (filter (λ kv, gone_id kv.1 = false) (marmot db))
     (history db) (wiki db) (grants db) (settings db) (intents db),
   Z.of_nat (List.length gone)).

(** [EXISTS(SELECT 1 FROM tags WHERE event_id=? AND name=? AND value IN ...)] *)
Definition has_tag (db : DB) (id name : string) (values : list string) : bool :=
  existsb (λ t, String.eqb (t_event t) id && String.eqb (t_name t) name
                && contains values (t_value t)) (tags db).

(** [INSERT OR IGNORE] of several rows under a uniqueness test. *)
Fixpoint insert_or_ignore {A} (same : A → A → bool) (rows table : list A) : list A :=
  match rows with
  | [] => table
  | x :: r => insert_or_ignore same r (if existsb (same x) table then table else table ++ [x])
  end.

Definition same_hist (a b : HistRow) : bool :=
  String.eqb (h_owner a) (h_owner b) && (h_kind a =? h_kind b)
  && String.eqb (h_d a) (h_d b) && String.eqb (h_event a) (h_event b).
Definition same_rev (a b : RevRow) : bool := String.eqb (v_event a) (v_event b).
Definition same_work (a b : WorkRow) : bool :=
  String.eqb (w_id a) (w_id b)
  || String.eqb (w_kind a) (w_kind b) && String.eqb (w_event a) (w_event b)
     && String.eqb (w_target a) (w_target b).

(** ** Saving an event (save.go) *)

Definition ErrDuplicate : string := "duplicate: already have this event".
Definition ErrReplaced : string := "duplicate: a newer version exists".
Definition ErrDeleted : string := "blocked: event was previously deleted by its author".
Definition ErrVanished : string := "blocked: this pubkey asked for its events to be deleted".

Record Intent := mkIntent { i_kind : string; i_event : string; i_target : string; i_payload : string }.

(** [BeforeCommit] is a function of the transaction's database. *)
Record SaveOptions := mkSaveOptions {
  Now : Z;
  SearchMode : string;
  Intents : list Intent;
  BeforeCommit : option (DB → result DB);
}.

Record SaveResult := mkSaveResult { Sequence : Z; Ephemeral : bool }.

(** The address column: the d tag of addressable kinds, empty otherwise. *)
Definition d_of (e : Event) : string := if IsAddressable (Kind e) then Tag e "d" else "".

Definition address_of (kind : Z) (pubkey d : string) : string :=
  Itoa kind +:+ ":" +:+ pubkey +:+ ":" +:+ d.

Definition checkDeleted (db : DB) (e : Event) : result unit :=
  let deleters := PubKey e :: (if Kind e =? 1059 then TagValues e "p" else []) in
  guard_err (existsb (λ a, match deletions db !! (a, "e", ID e) with Some _ => true | None => false end)
               deleters) ErrDeleted;;
  if negb (IsAddressable (Kind e)) then mret tt
  else guard_err
    (match deletions db !! (PubKey e, "a", address_of (Kind e) (PubKey e) (Tag e "d")) with
     | Some until => CreatedAt e <=? until
     | None => false
     end) ErrDeleted.

Definition checkSave (db : DB) (e : Event) : result unit :=
  guard_err (existsb (λ r, String.eqb (r_id r) (ID e)) (events db)) ErrDuplicate;;
  guard_err (match vanished db !! PubKey e with Some until => CreatedAt e <=? until | None => false end)
    ErrVanished;;
  checkDeleted db e.

Definition isListKind (kind : Z) : bool :=
  (kind =? 3) || (kind =? 10002) || (kind =? 10003) || (kind =? 30003).
Definition kindWikiArticle : Z := 30818.

(** The row holds the address (pubkey, kind, d). *)
Definition at_address (pubkey : string) (kind : Z) (d : string) (r : EventRow) : bool :=
  String.eqb (r_pubkey r) pubkey && (r_kind r =? kind) && String.eqb (r_d r) d.

(** [created_at>? OR (created_at=? AND id<?)]: the row wins over the event. *)
Definition newer_row (e : Event) (r : EventRow) : bool :=
  (CreatedAt e <? r_created r) || (r_created r =? CreatedAt e) && str_ltb (r_id r) (ID e).

Definition rev_row (by_id : string) (r : EventRow) : RevRow :=
  mkRev (r_id r) (r_pubkey r) (r_d r) (r_created r) (r_raw r) by_id.

Definition replace (db : DB) (e : Event) (now : Z) : result DB :=
  let d := d_of e in
  let here := List.filter (at_address (PubKey e) (Kind e) d) (events db) in
  guard_err (existsb (newer_row e) here) ErrReplaced;;
  let db := if isListKind (Kind e) then
      set_history (insert_or_ignore same_hist
        ((λ r, mkHist (r_pubkey r) (r_kind r) (r_d r) (r_id r) (r_created r) now (r_expires r) (r_raw r))
           <$> here) (history db)) db
    else db in
  let db := if Kind e =? kindWikiArticle then
      set_wiki (insert_or_ignore same_rev (rev_row (ID e) <$> here) (wiki db)) db
    else db in
  let db := if Kind e =? KIND_AGENT_GRANT then
      set_grants (insert_or_ignore same_rev (rev_row (ID e) <$> here) (grants db)) db
    else db in
  mret (delete_events (at_address (PubKey e) (Kind e) d) db).1.

Definition archiveAgentGrantDeletion (db : DB) (deletion : Event) (owner d : string) : DB :=
  let rows := List.filter (λ r, at_address owner KIND_AGENT_GRANT d r && (r_created r <=? CreatedAt deletion))
                (events db) in
  set_grants (insert_or_ignore same_rev (rev_row (ID deletion) <$> rows) (grants db)) db.

Definition archiveAgentGrantEventDeletion (db : DB) (deletion : Event) (target : string) : DB :=
  let rows := List.filter (λ r, String.eqb (r_id r) target && (r_kind r =? KIND_AGENT_GRANT)
                           && String.eqb (r_pubkey r) (PubKey deletion)) (events db) in
  set_grants (insert_or_ignore same_rev (rev_row (ID deletion) <$> rows) (grants db)) db.

(** [INSERT INTO deletions ... ON CONFLICT DO UPDATE SET until=max(...)] *)
Definition put_tombstone (db : DB) (author ty target : string) (until : Z) : DB :=
  set_deletions (<[(author, ty, target) :=
    match deletions db !! (author, ty, target) with
    | Some old => Z.max old until
    | None => until
    end]> (deletions db)) db.

Definition delete_address (db : DB) (e : Event) (kind : Z) (d : string) : DB :=
  let db := if kind =? KIND_AGENT_GRANT then archiveAgentGrantDeletion db e (PubKey e) d else db in
  let db := (delete_events (λ r, at_address (PubKey e) kind d r && (r_created r <=? CreatedAt e)) db).1 in
  let db := set_history (List.filter (λ h, negb ((h_kind h =? kind) && String.eqb (h_owner h) (PubKey e)
              && String.eqb (h_d h) d && (h_created h <=? CreatedAt e))) (history db)) db in
  if kind =? kindWikiArticle then
    set_wiki (List.filter (λ v, negb (String.eqb (v_author v) (PubKey e) && String.eqb (v_d v) d
                && (v_created v <=? CreatedAt e))) (wiki db)) db
  else db.

Definition delete_by_id (db : DB) (e : Event) (target : string) : DB :=
  let db := archiveAgentGrantEventDeletion db e target in
  let db := (delete_events (λ r, String.eqb (r_id r) target
               && (String.eqb (r_pubkey r) (PubKey e)
                   || (r_kind r =? 1059) && has_tag db (r_id r) "p" [PubKey e])) db).1 in
  let db := set_history (List.filter (λ h, negb (String.eqb (h_owner h) (PubKey e)
              && String.eqb (h_event h) target)) (history db)) db in
  set_wiki (List.filter (λ v, negb (String.eqb (v_author v) (PubKey e)
              && String.eqb (v_event v) target)) (wiki db)) db.

(** [applyDeletion] for a tag with name [name] and value [value]. *)
Definition applyDeletion (db : DB) (e : Event) (name value : string) : DB :=
  if String.eqb name "a" then
    match SplitN value (char 58) 3 with
    | [k; pk; d] =>
      if negb (String.eqb pk (PubKey e)) then db
      else match num_ok (Atoi k) with
      | None => db
      | Some kind => put_tombstone (delete_address db e kind d) (PubKey e) name value (CreatedAt e)
      end
    | _ => db
    end
  else put_tombstone (delete_by_id db e value) (PubKey e) name value (CreatedAt e).

Definition deletion_tag (e : Event) (db : DB) (tag : list string) : DB :=
  match tag with
  | name :: value :: _ =>
    if String.eqb name "e" || String.eqb name "a" then applyDeletion db e name value else db
  | _ => db
  end.

Definition replaceOrDelete (db : DB) (e : Event) (now : Z) : result DB :=
  if IsReplaceable (Kind e) || IsAddressable (Kind e) then replace db e now
  else if negb (Kind e =? 5) then mret db
  else mret (fold_left (deletion_tag e) (etags e) db).

Definition indexed (kind : Z) (mode : string) : bool :=
  if IsPrivate kind || String.eqb mode "off" then false
  else if String.eqb mode "full" then true
  else containsInt [0; 1; 11; 1111; 9802; 30023; 30024; 30818] kind.

(** Rows of the tag index: one-letter names with a value. *)
Fixpoint tag_rows (id : string) (l : list (list string)) : list TagRow :=
  match l with
  | (n :: v :: _) :: r =>
    if Nat.eqb (String.length n) 1 then mkTagRow id n v :: tag_rows id r else tag_rows id r
  | _ :: r => tag_rows id r
  | [] => []
  end.

Definition event_row (seq : Z) (e : Event) : EventRow :=
  mkRow seq (ID e) (PubKey e) (CreatedAt e) (Kind e) (d_of e) (Expiration e) e.

Definition insertEvent (db : DB) (e : Event) (mode : string) : result (DB * Z) :=
  guard_err (existsb (λ r, String.eqb (r_id r) (ID e)) (events db)) "insert event";;
  let seq := next_seq db in
  mret (mkDB (events db ++ [event_row seq e]) (seq + 1)
          (tags db ++ tag_rows (ID e) (etags e))
          (search db ++ if negb (String.eqb (Content e) "") && indexed (Kind e) mode
                        then [(seq, Content e)] else [])
          (vanished db) (deletions db) (hidden db) (pending db) (marmot db) (history db)
          (wiki db) (grants db) (settings db) (intents db), seq).

(** [IntentID]: the hash of the NUL-separated key. *)
Definition IntentID (kind eventID target : string) : string :=
  sha256_hex (kind +:+ str1 0 +:+ eventID +:+ str1 0 +:+ target).

Definition intent_row (now : Z) (i : Intent) : WorkRow :=
  mkWork (IntentID (i_kind i) (i_event i) (i_target i)) (i_kind i) (i_event i) (i_target i)
    (i_payload i) WPending 0 now now now "" "" 0.

Definition AddIntents (db : DB) (l : list Intent) (now : Z) : DB :=
  set_intents (insert_or_ignore same_work (intent_row now <$> l) (intents db)) db.

Definition SaveTx (db : DB) (e : Event) (opts : SaveOptions) : result (DB * SaveResult) :=
  if IsEphemeral (Kind e) then mret (db, mkSaveResult 0 true)
  else
    checkSave db e;;
    db1 ← replaceOrDelete db e (Now opts);
    ins ← insertEvent db1 e (SearchMode opts);
    let db3 := AddIntents ins.1 (Intents opts) (Now opts) in
    db4 ← (match BeforeCommit opts with Some hook => hook db3 | None => mret db3 end);
    mret (db4, mkSaveResult ins.2 false).

(** [WithTx]: commit the database of a successful body, keep the old one
    otherwise. *)
Definition WithTx {A} (db : DB) (body : result (DB * A)) : DB * result A :=
  match body with Ok (db', a) => (db', Ok a) | Err m => (db, Err m) end.

Definition Save (db : DB) (e : Event) (opts : SaveOptions) : DB * result SaveResult :=
  WithTx db (SaveTx db e opts).

(** [AddBeforeCommit] (projection.go): hooks run in registration order. *)
Definition AddBeforeCommit (o : SaveOptions) (next : option (DB → result DB)) : SaveOptions :=
  match next with
  | None => o
  | Some next =>
    mkSaveOptions (Now o) (SearchMode o) (Intents o)
      (Some (λ db, match BeforeCommit o with Some previous => db' ← previous db; next db' | None => next db end))
  end.
