(* ===== verification/StoreQuery.v ===== *)
(** * internal/storage: queries (query.go, private_repository.go)

    The WHERE clause is a boolean over event rows, built from the filter in
    the order of [where]; ordering is a merge sort on the ORDER BY key and
    LIMIT keeps SQLite's meaning of a negative bound.  The FTS5 engine is the
    parameter [fts_match] on the query text [where] builds. *)


From S2P Require Import Prelude GoLib GoCodec Nostr Filter Store.

Class GoFTS := { fts_match : string → string → bool }.

Record Access := mkAccess {
  A_PubKeys : list string;
  A_All : bool;
  IncludeCallbackRegistrations : bool;
}.

Record EventCursor := mkCursor { C_CreatedAt : Z; C_ID : string }.

Record QueryOptions := mkQueryOptions {
  Q_Now : Z;
  Q_Access : Access;
  Q_Limit : Z;
  Q_Before : option EventCursor;
}.

Record QueryResult := mkQueryResult { R_Events : list Event; R_More : bool }.

(** A search term as an FTS5 string: quotes doubled, wrapped in quotes. *)
Definition fts_quote (term : string) : string :=
  str1 34 +:+ ReplaceAll term (str1 34) (str1 34 +:+ str1 34) +:+ str1 34.
Fixpoint join_and (l : list string) : string :=
  match l with [] => "" | [x] => x | x :: r => x +:+ " AND " +:+ join_and r end.
Definition fts_query (terms : list string) : string := join_and (fts_quote <$> terms).

Definition cursor_cond (before : option EventCursor) (r : EventRow) : bool :=
  match before with
  | None => true
  | Some c => (r_created r <? C_CreatedAt c)
              || (r_created r =? C_CreatedAt c) && str_ltb (C_ID c) (r_id r)
  end.

(** [addAccess] *)
Definition access_cond (db : DB) (who : Access) (r : EventRow) : bool :=
  (IncludeCallbackRegistrations who
   || negb (r_kind r =? KIND_PUSH_REGISTRATION) || contains (A_PubKeys who) (r_pubkey r))
  && (A_All who
      || negb (containsInt [4; 13; 1059; 21059; 24133] (r_kind r))
      || contains (A_PubKeys who) (r_pubkey r)
      || negb (r_kind r =? 13) && has_tag db (r_id r) "p" (A_PubKeys who)).

(** Not expired, hidden or pending. *)
Definition live_cond (db : DB) (now : Z) (r : EventRow) : bool :=
  ((r_expires r =? 0) || (now <? r_expires r))
  && (match hidden db !! r_id r with Some _ => false | None => true end)
  && (match pending db !! r_id r with Some _ => false | None => true end).

Section Query.
Context `{GoFTS}.

Definition search_cond (db : DB) (f : Filter) (r : EventRow) : bool :=
  match SearchTerms (Search f) with
  | [] => true
  | terms => existsb (λ s, (s.1 =? r_seq r) && fts_match (fts_query terms) s.2) (search db)
  end.

(** The field and tag conditions of the filter. *)
Definition filter_cond (db : DB) (f : Filter) (r : EventRow) : bool :=
  in_opt contains (IDs f) (r_id r) && in_opt contains (Authors f) (r_pubkey r)
  && in_opt containsInt (Kinds f) (r_kind r)
  && match Since f with Some s => s <=? r_created r | None => true end
  && match Until f with Some u => r_created r <=? u | None => true end
  && forallb (λ kv, has_tag db (r_id r) kv.1 kv.2) (map_to_list (FTags f)).

Definition where_cond (db : DB) (f : Filter) (opts : QueryOptions) (r : EventRow) : bool :=
  cursor_cond (Q_Before opts) r && filter_cond db f r && search_cond db f r
  && live_cond db (Q_Now opts) r && access_cond db (Q_Access opts) r.

(** ORDER BY created_at DESC, id ASC *)
Definition row_leb (a b : EventRow) : bool :=
  (r_created b <? r_created a)
  || (r_created a =? r_created b) && negb (str_ltb (r_id b) (r_id a)).
Definition newest_first (a b : EventRow) : Prop := row_leb a b = true.
#[export] Instance newest_first_dec : RelDecision newest_first.
Proof. intros a b. unfold newest_first. apply _. Defined.

Definition sql_limit {A} (n : Z) (l : list A) : list A :=
  if n <? 0 then l else take (Z.to_nat n) l.

(** The limit [Query] applies, when it applies one. *)
Definition query_limit (f : Filter) (opts : QueryOptions) : option Z :=
  let limit := match Limit f with
               | Some n => if (Q_Limit opts <=? 0) || (n <? Q_Limit opts) then n else Q_Limit opts
               | None => Q_Limit opts
               end in
  if (0 <? Q_Limit opts) || (match Limit f with Some _ => true | None => false end)
  then Some (if limit <? 0 then 0 else limit) else None.

(** The scan loop: it stops with [More] when the limit is reached and
    another row arrives. *)
Fixpoint scan_rows (limit : option Z) (rows : list EventRow) (acc : list Event) : QueryResult :=
  match rows with
  | [] => mkQueryResult acc false
  | r :: rest =>
    if match limit with Some n => Z.of_nat (List.length acc) =? n | None => false end
    then mkQueryResult acc true
    else scan_rows limit rest (acc ++ [r_raw r])
  end.

Definition query_rows (db : DB) (f : Filter) (opts : QueryOptions) : list EventRow :=
  merge_sort newest_first (List.filter (where_cond db f opts) (events db)).

Definition Query (db : DB) (f : Filter) (opts : QueryOptions) : QueryResult :=
  let rows := query_rows db f opts in
  match query_limit f opts with
  | Some limit => scan_rows (Some limit) (sql_limit (wrap64 (limit + 1)) rows) []
  | None => scan_rows None rows []
  end.

Definition Count (db : DB) (filters : list Filter) (opts : QueryOptions) : Z :=
  match filters with
  | [] => 0
  | _ => Z.of_nat (List.length
           (List.filter (λ r, existsb (λ f, where_cond db f opts r) filters) (events db)))
  end.

Definition seq_order (a b : EventRow) : Prop := r_seq a ≤ r_seq b.
#[export] Instance seq_order_dec : RelDecision seq_order.
Proof. intros a b. unfold seq_order. apply _. Defined.

Definition After (db : DB) (seq : Z) (f : Filter) (opts : QueryOptions) : list (Z * Event) :=
  let rows := merge_sort seq_order
    (List.filter (λ r, where_cond db f opts r && (seq <? r_seq r)) (events db)) in
  (λ r, (r_seq r, r_raw r)) <$>
    (if 0 <? Q_Limit opts then sql_limit (Q_Limit opts) rows else rows).
End Query.

(** [lower(x)='true'] is SQLite's ASCII lower. *)
Definition private_marker (tag : list string) : bool :=
  match tag with
  | n :: v :: _ => String.eqb n "private" && String.eqb (str_map ascii_lower v) "true"
  | _ => false
  end.

Definition hasPrivateRepository (db : DB) (pubkey identifier : string) : bool :=
  existsb (λ r, (r_kind r =? KIND_REPO)
    && (String.eqb pubkey "" || String.eqb (r_pubkey r) pubkey && String.eqb (r_d r) identifier)
    && existsb private_marker (etags (r_raw r))) (events db).
Definition HasPrivateRepositories (db : DB) : bool := hasPrivateRepository db "" "".
Definition IsPrivateRepository (db : DB) (pubkey identifier : string) : bool :=
  hasPrivateRepository db pubkey identifier.
