(* ===== verification/StoreAdmin.v ===== *)
(** * internal/storage: maintenance, retention, list history, wiki revisions *)

From S2P Require Import Prelude GoLib GoCodec Nostr Filter Store StoreQuery.

(** ** maintenance.go *)

Definition Vanish (db : DB) (pubkey : string) (until : Z) : DB :=
  let db := set_vanished (<[pubkey :=
    match vanished db !! pubkey with Some old => Z.max old until | None => until end]>
    (vanished db)) db in
  let db := (delete_events (λ r, String.eqb (r_pubkey r) pubkey && (r_created r <=? until)) db).1 in
  let db := (delete_events (λ r, (r_kind r =? 1059)
    && existsb (λ t, String.eqb (t_name t) "p" && String.eqb (t_value t) pubkey
                     && String.eqb (t_event t) (r_id r)) (tags db)) db).1 in
  let db := set_history (List.filter (λ h, negb (String.eqb (h_owner h) pubkey)) (history db)) db in
  let db := set_wiki (List.filter (λ v, negb (String.eqb (v_author v) pubkey)) (wiki db)) db in
  set_grants (List.filter (λ v, negb (String.eqb (v_author v) pubkey)) (grants db)) db.

Definition expired (now expires : Z) : bool := (0 <? expires) && (expires <=? now).

Fixpoint min_list (l : list Z) : Z :=
  match l with [] => 0 | [x] => x | x :: r => Z.min x (min_list r) end.
Fixpoint max_list (l : list Z) : Z :=
  match l with [] => 0 | [x] => x | x :: r => Z.max x (max_list r) end.

(** [SweepExpired]: the database and the next expiration, zero when none. *)
Definition SweepExpired (db : DB) (now : Z) : DB * Z :=
  let db := (delete_events (λ r, expired now (r_expires r)) db).1 in
  let db := set_history (List.filter (λ h, negb (expired now (h_expires h))) (history db)) db in
  (db, min_list (List.filter (λ x, 0 <? x) (r_expires <$> events db))).

Definition DeleteEvent (db : DB) (id : string) : DB * bool :=
  let '(db', n) := delete_events (λ r, String.eqb (r_id r) id) db in (db', 0 <? n).

Definition EraseAuthor (db : DB) (pubkey : string) : DB * Z :=
  let '(db, n) := delete_events (λ r, String.eqb (r_pubkey r) pubkey) db in
  let db := set_history (List.filter (λ h, negb (String.eqb (h_owner h) pubkey)) (history db)) db in
  let db := set_wiki (List.filter (λ v, negb (String.eqb (v_author v) pubkey)) (wiki db)) db in
  (set_grants (List.filter (λ v, negb (String.eqb (v_author v) pubkey)) (grants db)) db, n).

(** Counts and time bounds of [Stats]; the page and WAL sizes are the
    database file's. *)
Definition Stats (db : DB) : Z * Z * Z :=
  let rows := List.filter (λ r, negb (r_kind r =? KIND_PUSH_REGISTRATION)) (events db) in
  (Z.of_nat (List.length rows), min_list (r_created <$> rows), max_list (r_created <$> rows)).

(** Settings values are their JSON text. *)
Definition PutSetting (db : DB) (key value : string) : DB :=
  set_settings (<[key := value]> (settings db)) db.
Definition DeleteSetting (db : DB) (key : string) : DB :=
  set_settings (delete key (settings db)) db.
Definition GetSetting (db : DB) (key : string) : option string := settings db !! key.
Definition PruneSettings (db : DB) (prefix : string) (keep : gset string) : DB :=
  let stale := List.filter (λ k, HasPrefix k prefix && negb (bool_decide (k ∈ keep)))
                 (map_to_list (settings db)).*1 in
  fold_left DeleteSetting stale db.

(** ** retention.go *)

Record RetentionRule := mkRetention { RR_Kind : Z; RR_Days : Z }.
Record MemberRetention := mkMemberRetention { MR_PubKey : string; MR_Days : Z }.
Record RetentionOptions := mkRetentionOptions {
  RO_Now : Z; RO_Identity : string; RO_Rules : list RetentionRule; RO_Members : list MemberRetention;
}.

Definition keepableKinds (kind : Z) : bool :=
  negb (containsInt [0; 3; 10002; 9735; 13534; 8000; 8001; 9000; 9001; 33534;
                     39000; 39001; 39002; 39003; 39005] kind)
  && negb (in_range 10000 kind 19999) && negb (in_range 30000 kind 39999).

Definition specific_kinds (rules : list RetentionRule) : list Z :=
  RR_Kind <$> List.filter (λ rule, 0 <=? RR_Kind rule) rules.

Definition rule_cond (opts : RetentionOptions) (rule : RetentionRule) (r : EventRow) : bool :=
  (r_created r <? wrap64 (RO_Now opts - wrap64 (RR_Days rule * 86400)))
  && negb (String.eqb (r_pubkey r) (RO_Identity opts))
  && if RR_Kind rule <? 0
     then keepableKinds (r_kind r) && negb (r_kind r =? 1059)
          && negb (containsInt (specific_kinds (RO_Rules opts)) (r_kind r))
     else r_kind r =? RR_Kind rule.

Definition retention_rule (opts : RetentionOptions) (st : DB * Z) (rule : RetentionRule) : DB * Z :=
  if RR_Days rule <=? 0 then st
  else let '(db, n) := delete_events (rule_cond opts rule) st.1 in (db, st.2 + n).

Definition retention_member (opts : RetentionOptions) (st : DB * Z) (m : MemberRetention) : DB * Z :=
  if MR_Days m <=? 0 then st
  else
    let before := wrap64 (RO_Now opts - wrap64 (MR_Days m * 86400)) in
    let '(db, n) := delete_events (λ r, String.eqb (r_pubkey r) (MR_PubKey m)
                      && (r_created r <? before) && keepableKinds (r_kind r)) st.1 in
    (set_history (List.filter (λ h, negb (String.eqb (h_owner h) (MR_PubKey m)
                    && (h_created h <? before))) (history db)) db, st.2 + n).

Definition SweepRetention (db : DB) (opts : RetentionOptions) : DB * Z :=
  fold_left (retention_member opts) (RO_Members opts)
    (fold_left (retention_rule opts) (RO_Rules opts) (db, 0)).

(** ** history.go *)

Record HistoryRow := mkHistoryRow {
  HR_Kind : Z; HR_D : string; HR_EventID : string; HR_CreatedAt : Z; HR_SavedAt : Z }.

Definition hist_leb (a b : HistRow) : bool :=
  (h_saved b <? h_saved a) || (h_saved a =? h_saved b) && negb (str_ltb (h_event b) (h_event a)).
Definition hist_order (a b : HistRow) : Prop := hist_leb a b = true.
#[export] Instance hist_order_dec : RelDecision hist_order.
Proof. intros a b. unfold hist_order. apply _. Defined.

Definition hist_live (now : Z) (h : HistRow) : bool := (h_expires h =? 0) || (now <? h_expires h).

Definition ListHistory (db : DB) (owner : string) (now : Z) : list HistoryRow :=
  (λ h, mkHistoryRow (h_kind h) (h_d h) (h_event h) (h_created h) (h_saved h)) <$>
    merge_sort hist_order
      (List.filter (λ h, String.eqb (h_owner h) owner && hist_live now h) (history db)).

Record Draft := mkDraft { D_Kind : Z; D_CreatedAt : Z; D_Tags : option (list (list string)); D_Content : string }.
Record Diff := mkDiff { AddedTags : list (list string); RemovedTags : list (list string); ContentChanged : bool }.

Fixpoint equalTag (a b : list string) : bool :=
  match a, b with
  | [], [] => true
  | x :: a', y :: b' => String.eqb x y && equalTag a' b'
  | _, _ => false
  end.
Definition tagDifference (first second : list (list string)) : list (list string) :=
  List.filter (λ a, negb (existsb (equalTag a) second)) first.

Definition RestoreHistory `{GoFTS} (db : DB) (owner eventID : string) (now : Z) : result (Draft * Diff) :=
  match List.filter (λ h, String.eqb (h_owner h) owner && String.eqb (h_event h) eventID
                          && hist_live now h) (history db) with
  | [] => Err "load owned list history: sql: no rows in result set"
  | h :: _ =>
    let old := h_raw h in
    let f := mkFilter None (Some [owner]) (Some [Kind old])
               (if IsAddressable (Kind old) then {["d" := [Tag old "d"]]} else ∅) None None None "" in
    let current := Query db f (mkQueryOptions now (mkAccess [owner] false false) 1 None) in
    let cur := match R_Events current with c :: _ => c | [] => nil_event end in
    let at_ := if now <=? CreatedAt cur then wrap64 (CreatedAt cur + 1) else now in
    mret (mkDraft (Kind old) at_ (Tags old) (Content old),
          mkDiff (tagDifference (etags old) (etags cur)) (tagDifference (etags cur) (etags old))
            (negb (String.eqb (Content cur) (Content old))))
  end.

(** ** wiki.go *)

Definition rev_leb (a b : RevRow) : bool :=
  (v_created b <? v_created a)
  || (v_created a =? v_created b) && negb (str_ltb (v_event b) (v_event a)).
Definition rev_order (a b : RevRow) : Prop := rev_leb a b = true.
#[export] Instance rev_order_dec : RelDecision rev_order.
Proof. intros a b. unfold rev_order. apply _. Defined.

Definition WikiRevisions (db : DB) (author d : string) : list RevRow :=
  merge_sort rev_order
    (List.filter (λ v, (String.eqb author "" || String.eqb (v_author v) author)
                       && (String.eqb d "" || String.eqb (v_d v) d)) (wiki db)).
Definition WikiRevision (db : DB) (id : string) : option RevRow :=
  List.find (λ v, String.eqb (v_event v) id) (wiki db).
