(* ===== verification/StoreInv.v ===== *)
(** * internal/storage: the database invariant

    [WF]: every stored row is the row of its event, identifiers and sequence
    numbers are unique, the tag index holds exactly the one-letter tags of the
    stored events, the search index and the principals refer to stored events,
    and an address has at most one row.  [Indexed]: the search index holds the
    contents of exactly those stored events that the search mode of their save
    indexes.  Every operation preserves both: [Kept] is the interface of an
    invariant that deletions of rows preserve. *)

From S2P Require Import Prelude GoLib GoCodec GoLemmas Nostr NostrProps Filter Store StoreQuery StoreAdmin.

(** The tag index of a list of rows. *)
Fixpoint row_tags (rows : list EventRow) : list TagRow :=
  match rows with
  | [] => []
  | r :: l => tag_rows (r_id r) (etags (r_raw r)) ++ row_tags l
  end.

Definition replaces (kind : Z) : bool := IsReplaceable kind || IsAddressable kind.

Record WF (db : DB) : Prop := {
  wf_rows : ∀ r, r ∈ events db →
    r = event_row (r_seq r) (r_raw r) ∧ r_seq r < next_seq db ∧ wire_shape (r_raw r);
  wf_ids : NoDup (r_id <$> events db);
  wf_seqs : StronglySorted Z.lt (r_seq <$> events db);
  wf_tags : tags db = row_tags (events db);
  wf_search : ∀ s, s ∈ search db → ∃ r, r ∈ events db ∧ r_seq r = s.1 ∧ Content (r_raw r) = s.2;
  wf_unique : ∀ r r', r ∈ events db → r' ∈ events db → replaces (r_kind r) = true →
    at_address (r_pubkey r) (r_kind r) (r_d r) r' = true → r = r';
  wf_marmot : ∀ id, is_Some (marmot db !! id) → id ∈ r_id <$> events db;
}.

(** The tables the invariant reads. *)
Definition same_core (db db' : DB) : Prop :=
  events db' = events db ∧ next_seq db' = next_seq db ∧ tags db' = tags db ∧
  search db' = search db ∧ marmot db' = marmot db.

Lemma WF_core db db' : same_core db db' → WF db → WF db'.
Proof. intros (E1 & E2 & E3 & E4 & E5) []. split; rewrite ?E1, ?E2, ?E3, ?E4, ?E5; done. Qed.

Lemma WF_empty : WF empty_db.
Proof.
  split; cbn; try set_solver; try constructor.
  intros id [? H]. by rewrite lookup_empty in H.
Qed.

(** ** Deleting rows *)

Lemma events_delete p db : events (delete_events p db).1 = List.filter (λ r, negb (p r)) (events db).
Proof. done. Qed.

Lemma elem_of_events_delete p db r :
  r ∈ events (delete_events p db).1 ↔ r ∈ events db ∧ p r = false.
Proof. rewrite events_delete, elem_of_lfilter, negb_true_iff. done. Qed.

(** With unique keys, a key is among the deleted ones exactly when its row is
    deleted. *)
Lemma gone_key {B} (key : EventRow → B) (test : B → B → bool) p rows r :
  (∀ x y, test x y = true ↔ x = y) → NoDup (key <$> rows) → r ∈ rows →
  existsb (λ x, test (key x) (key r)) (List.filter p rows) = p r.
Proof.
  intros Ht Hnd Hr. apply eq_true_iff_eq. rewrite existsb_elem. split.
  - intros (x & [Hx Hp]%elem_of_lfilter & Hk%Ht).
    by rewrite (NoDup_fmap_elem key rows r x Hnd Hr Hx (eq_sym Hk)).
  - intros Hp. exists r. rewrite elem_of_lfilter. by rewrite Ht.
Qed.

Lemma tag_rows_event id l t : t ∈ tag_rows id l → t_event t = id.
Proof.
  induction l as [|[|n [|v rest]] l IH]; cbn; try set_solver.
  case_match; set_solver.
Qed.

Lemma row_tags_filter (p : EventRow → bool) (g : string → bool) rows :
  (∀ r, r ∈ rows → g (r_id r) = p r) →
  List.filter (λ t, negb (g (t_event t))) (row_tags rows)
  = row_tags (List.filter (λ r, negb (p r)) rows).
Proof.
  induction rows as [|r rows IH]; intros Hg; cbn; [done|].
  rewrite lfilter_app, IH by set_solver. pose proof (Hg r ltac:(set_solver)) as Hr.
  destruct (p r); cbn.
  - rewrite lfilter_none; [done|]. intros t Ht%tag_rows_event. by rewrite Ht, Hr.
  - rewrite lfilter_all; [done|]. intros t Ht%tag_rows_event. by rewrite Ht, Hr.
Qed.

Lemma sorted_NoDup (l : list Z) : StronglySorted Z.lt l → NoDup l.
Proof.
  induction 1 as [|x l _ IH Hx]; constructor; [|done].
  intros Hin. rewrite Forall_forall in Hx. specialize (Hx x Hin). lia.
Qed.

Lemma sublist_sorted (l k : list Z) : l `sublist_of` k → StronglySorted Z.lt k → StronglySorted Z.lt l.
Proof.
  induction 1 as [|x l k Hl IH|x l k Hl IH]; intros Hs; [done| |]; inversion Hs as [|? ? Hk Hx]; subst; auto.
  constructor; [by apply IH|]. rewrite Forall_forall in *. intros y Hy. apply Hx.
  by eapply elem_of_sublist.
Qed.

Lemma lfilter_fmap_sublist {A B} (f : A → B) p (l : list A) :
  f <$> List.filter p l `sublist_of` f <$> l.
Proof. induction l as [|x l IH]; cbn; [done|]. destruct (p x); by constructor. Qed.

Lemma WF_delete p db : WF db → WF (delete_events p db).1.
Proof.
  intros [Hrows Hids Hseqs Htags Hsearch Huniq Hmar].
  pose proof (sorted_NoDup _ Hseqs) as Hsq.
  split; cbn [delete_events fst events next_seq tags search marmot].
  - intros r [Hr _]%elem_of_lfilter. by apply Hrows.
  - eapply sublist_NoDup; [exact Hids|]. apply lfilter_fmap_sublist.
  - eapply sublist_sorted; [apply lfilter_fmap_sublist|exact Hseqs].
  - rewrite Htags.
    apply (row_tags_filter p (λ i, existsb (λ r, String.eqb (r_id r) i) (List.filter p (events db)))).
    intros r Hr. apply (gone_key r_id String.eqb); [apply String.eqb_eq|done..].
  - intros s [Hs Hg]%elem_of_lfilter. destruct (Hsearch s Hs) as (r & Hr & E & Hc).
    exists r. split; [|done]. apply elem_of_lfilter. split; [done|].
    rewrite <-E in Hg. by rewrite (gone_key r_seq Z.eqb p _ r) in Hg by (done || apply Z.eqb_eq).
  - intros r r' [Hr _]%elem_of_lfilter [Hr' _]%elem_of_lfilter. by apply Huniq.
  - intros id [v [Hm Hg]%map_lookup_filter_Some]. cbn in Hg.
    destruct (proj1 (list_elem_of_fmap _ _ _) (Hmar id (ex_intro _ v Hm))) as (r & -> & Hr).
    apply list_elem_of_fmap_2, elem_of_lfilter. split; [done|].
    rewrite (gone_key r_id String.eqb p _ r) in Hg by (done || apply String.eqb_eq).
    by rewrite Hg.
Qed.

(** ** The search index *)

Definition search_row (mode : string) (r : EventRow) : list (Z * string) :=
  if negb (String.eqb (Content (r_raw r)) "") && indexed (Kind (r_raw r)) mode then [(r_seq r, Content (r_raw r))] else [].
(** The index of rows that were saved under these search modes. *)
Fixpoint search_rows (mode_of : Z → string) (rows : list EventRow) : list (Z * string) :=
  match rows with [] => [] | r :: l => search_row (mode_of (r_seq r)) r ++ search_rows mode_of l end.

(** The index is that of the rows, each under a mode of [M]. *)
Definition Indexed (M : string → Prop) (db : DB) : Prop :=
  ∃ mode_of, (∀ r, r ∈ events db → M (mode_of (r_seq r))) ∧ search db = search_rows mode_of (events db).

Lemma search_row_seq mode r s : s ∈ search_row mode r → s.1 = r_seq r.
Proof. unfold search_row. case_match; [by intros ->%list_elem_of_singleton|by intros ?%not_elem_of_nil]. Qed.

Lemma search_rows_filter (p : EventRow → bool) (g : Z → bool) mode_of rows :
  (∀ r, r ∈ rows → g (r_seq r) = p r) →
  List.filter (λ s, negb (g s.1)) (search_rows mode_of rows) = search_rows mode_of (List.filter (λ r, negb (p r)) rows).
Proof.
  induction rows as [|r rows IH]; intros Hg; cbn; [done|].
  rewrite lfilter_app, IH by set_solver. pose proof (Hg r ltac:(set_solver)) as Hr.
  destruct (p r); cbn.
  - rewrite lfilter_none; [done|]. intros s Hs%search_row_seq. by rewrite Hs, Hr.
  - rewrite lfilter_all; [done|]. intros s Hs%search_row_seq. by rewrite Hs, Hr.
Qed.

Lemma search_rows_app mode_of l k : search_rows mode_of (l ++ k) = search_rows mode_of l ++ search_rows mode_of k.
Proof. induction l as [|r l IH]; cbn; [done|]. by rewrite IH, app_assoc. Qed.

Lemma search_rows_ext f g rows : (∀ r, r ∈ rows → f (r_seq r) = g (r_seq r)) → search_rows f rows = search_rows g rows.
Proof. induction rows as [|r rows IH]; intros E; cbn; [done|]. rewrite E, IH by set_solver. done. Qed.

Lemma Indexed_empty M : Indexed M empty_db.
Proof. exists (λ _, ""). split; [|done]. by intros r ?%not_elem_of_nil. Qed.

(** Which events of a database are searched, when every save has the mode. *)
Lemma Indexed_exact mode db : Indexed (λ m, m = mode) db →
  ∀ seq text, (seq, text) ∈ search db ↔
    ∃ r, r ∈ events db ∧ r_seq r = seq ∧ Content (r_raw r) = text ∧ text ≠ "" ∧ indexed (Kind (r_raw r)) mode = true.
Proof.
  intros (mode_of & Hm & ->) seq text. assert (search_rows mode_of (events db) = search_rows (λ _, mode) (events db)) as ->
    by by apply search_rows_ext.
  clear Hm. induction (events db) as [|r rows IH]; cbn.
  - split; [by intros ?%not_elem_of_nil|by intros (r & ?%not_elem_of_nil & _)].
  - rewrite elem_of_app, IH. unfold search_row. setoid_rewrite elem_of_cons.
    destruct (String.eqb_spec (Content (r_raw r)) "") as [E|N], (indexed (Kind (r_raw r)) mode) eqn:Ei; cbn [negb andb];
      rewrite ?list_elem_of_singleton, ?elem_of_nil; naive_solver congruence.
Qed.

(** ** Invariants that deletions preserve *)

Class Kept (P : DB → Prop) : Prop := {
  kept_core : ∀ db db', same_core db db' → P db → P db';
  kept_delete : ∀ p db, P db → P (delete_events p db).1 }.

#[export] Instance WF_kept : Kept WF.
Proof. split; [apply WF_core|apply WF_delete]. Qed.

#[export] Instance Indexed_kept M : Kept (λ db, WF db ∧ Indexed M db).
Proof.
  split.
  - intros db db' Hc [Hw (mode_of & Hm & E)]. split; [by eapply WF_core|]. destruct Hc as (E1 & _ & _ & E4 & _). exists mode_of. by rewrite E1, E4.
  - intros p db [Hw (mode_of & Hm & E)]. split; [by apply WF_delete|]. exists mode_of. split.
    + intros r [Hr _]%elem_of_events_delete. by apply Hm.
    + cbn [delete_events fst search events]. rewrite E.
      apply (search_rows_filter p (λ n, existsb (λ r, r_seq r =? n) (List.filter p (events db)))). intros r Hr.
      by apply (gone_key r_seq Z.eqb p); [apply Z.eqb_eq|apply sorted_NoDup, wf_seqs|].
Qed.

Create HintDb store.

(** ** Maintenance preserves the invariants *)

Section Keeping.
Context {P : DB → Prop} `{!Kept P}.

Lemma kept_set_history h db : P db → P (set_history h db).
Proof. by apply kept_core. Qed.
Lemma kept_set_wiki h db : P db → P (set_wiki h db).
Proof. by apply kept_core. Qed.
Lemma kept_set_grants h db : P db → P (set_grants h db).
Proof. by apply kept_core. Qed.
Lemma kept_set_intents h db : P db → P (set_intents h db).
Proof. by apply kept_core. Qed.
Lemma kept_set_deletions h db : P db → P (set_deletions h db).
Proof. by apply kept_core. Qed.
Lemma kept_set_vanished h db : P db → P (set_vanished h db).
Proof. by apply kept_core. Qed.
Lemma kept_set_settings h db : P db → P (set_settings h db).
Proof. by apply kept_core. Qed.
#[local] Hint Resolve kept_set_history kept_set_wiki kept_set_grants kept_set_intents
  kept_set_deletions kept_set_vanished kept_set_settings : store.
#[local] Hint Extern 1 (P (delete_events _ _).1) => apply kept_delete : store.

Lemma kept_Vanish db pk u : P db → P (Vanish db pk u).
Proof. intros. unfold Vanish. auto 10 with store. Qed.

Lemma kept_SweepExpired db now : P db → P (SweepExpired db now).1.
Proof. intros. cbn [SweepExpired fst]. auto with store. Qed.

Lemma kept_DeleteEvent db id : P db → P (DeleteEvent db id).1.
Proof. intros. unfold DeleteEvent. apply (kept_delete (λ r, String.eqb (r_id r) id)) in H. exact H. Qed.

Lemma kept_EraseAuthor db pk : P db → P (EraseAuthor db pk).1.
Proof.
  intros H. apply (kept_delete (λ r, String.eqb (r_pubkey r) pk)) in H.
  exact (kept_set_grants _ _ (kept_set_wiki _ _ (kept_set_history _ _ H))).
Qed.

Lemma fold_left_inv {A B} (Q : A → Prop) (f : A → B → A) l a :
  Q a → (∀ a b, Q a → Q (f a b)) → Q (fold_left f l a).
Proof. intros Ha Hf. revert a Ha. induction l; cbn; auto. Qed.

Lemma kept_SweepRetention db opts : P db → P (SweepRetention db opts).1.
Proof.
  intros H. unfold SweepRetention.
  apply (fold_left_inv (λ st, P st.1)); [apply (fold_left_inv (λ st, P st.1)); [done|]|].
  - intros [d n] rule Hd. unfold retention_rule. cbn [fst] in *. case_match; [done|].
    apply (kept_delete (rule_cond opts rule)) in Hd. exact Hd.
  - intros [d n] m Hd. unfold retention_member. cbn [fst] in *. case_match; [done|].
    apply kept_set_history.
    exact (kept_delete (λ r, String.eqb (r_pubkey r) (MR_PubKey m)
      && (r_created r <? wrap64 (RO_Now opts - wrap64 (MR_Days m * 86400)))
      && keepableKinds (r_kind r)) d Hd).
Qed.

(** ** Saving preserves the invariant *)

Lemma replace_Ok db e now db' :
  replace db e now = Ok db' →
  existsb (newer_row e) (List.filter (at_address (PubKey e) (Kind e) (d_of e)) (events db)) = false ∧
  events db' = List.filter (λ r, negb (at_address (PubKey e) (Kind e) (d_of e) r)) (events db) ∧
  vanished db' = vanished db ∧ deletions db' = deletions db ∧ next_seq db' = next_seq db ∧
  hidden db' = hidden db ∧ pending db' = pending db ∧ settings db' = settings db ∧
  intents db' = intents db.
Proof.
  unfold replace. rewrite guard_bind_Ok. intros [Hn H]. apply (inj Ok) in H. subst db'.
  split; [exact Hn|]. by repeat case_match.
Qed.

Lemma kept_replace db e now db' : P db → replace db e now = Ok db' → P db'.
Proof.
  unfold replace. rewrite guard_bind_Ok. intros Hwf [_ H]. apply (inj Ok) in H. subst db'.
  apply kept_delete. repeat case_match; auto with store.
Qed.

Lemma kept_delete_address db e kind d : P db → P (delete_address db e kind d).
Proof.
  intros H. unfold delete_address, archiveAgentGrantDeletion. cbv zeta.
  repeat case_match; auto 10 with store.
Qed.

Lemma kept_delete_by_id db e target : P db → P (delete_by_id db e target).
Proof.
  intros H. unfold delete_by_id, archiveAgentGrantEventDeletion. auto 10 with store.
Qed.

Lemma kept_applyDeletion db e name value : P db → P (applyDeletion db e name value).
Proof.
  intros H. unfold applyDeletion, put_tombstone.
  repeat case_match; auto using kept_delete_address, kept_delete_by_id with store.
Qed.

Lemma kept_deletion_tag e db tag : P db → P (deletion_tag e db tag).
Proof.
  intros H. unfold deletion_tag. repeat case_match; auto using kept_applyDeletion.
Qed.

Lemma kept_replaceOrDelete db e now db' : P db → replaceOrDelete db e now = Ok db' → P db'.
Proof.
  intros H. unfold replaceOrDelete. case_match; [by apply kept_replace|].
  case_match; intros E; apply (inj Ok) in E; subst db'; [done|].
  apply fold_left_inv; [done|]. intros. by apply kept_deletion_tag.
Qed.

End Keeping.
#[export] Hint Resolve WF_empty : store.

Lemma at_address_row pk k d r :
  at_address pk k d r = true ↔ r_pubkey r = pk ∧ r_kind r = k ∧ r_d r = d.
Proof.
  unfold at_address. rewrite !andb_true_iff, !String.eqb_eq, Z.eqb_eq. tauto.
Qed.

(** The address of a replaced event is free afterwards. *)
Lemma replaceOrDelete_free db e now db' :
  replaceOrDelete db e now = Ok db' → replaces (Kind e) = true →
  ∀ r, r ∈ events db' → at_address (PubKey e) (Kind e) (d_of e) r = false.
Proof.
  unfold replaceOrDelete, replaces. intros H Hr. rewrite Hr in H.
  apply replace_Ok in H as (_ & He & _). rewrite He. intros r [_ Hn]%elem_of_lfilter.
  by apply negb_true_iff in Hn.
Qed.

Lemma row_tags_app l k : row_tags (l ++ k) = row_tags l ++ row_tags k.
Proof. induction l as [|r l IH]; cbn; [done|]. by rewrite IH, app_assoc. Qed.

Lemma StronglySorted_snoc (l : list Z) x :
  StronglySorted Z.lt l → (∀ y, y ∈ l → y < x) → StronglySorted Z.lt (l ++ [x]).
Proof.
  induction 1 as [|y l Hl IH Hy]; intros Hx; cbn; [repeat constructor|].
  constructor; [apply IH; set_solver|]. rewrite Forall_app. split; [done|].
  constructor; [apply Hx; set_solver|constructor].
Qed.

Lemma WF_insertEvent db e mode db' seq :
  WF db → wire_shape e →
  (replaces (Kind e) = true → ∀ r, r ∈ events db → at_address (PubKey e) (Kind e) (d_of e) r = false) →
  insertEvent db e mode = Ok (db', seq) → WF db'.
Proof.
  intros [Hrows Hids Hseqs Htags Hsearch Huniq Hmar] He Hfree. unfold insertEvent.
  rewrite guard_bind_Ok. intros [Hnew Hins]. cbv zeta in Hins.
  apply (inj Ok), (f_equal fst) in Hins. cbn [fst] in Hins. subst db'.
  rewrite existsb_elem_false in Hnew.
  assert (∀ r, r ∈ events db ++ [event_row (next_seq db) e] →
            r ∈ events db ∨ r = event_row (next_seq db) e) as Hin by set_solver.
  split; cbn [events next_seq tags search marmot].
  - intros r [Hr| ->]%Hin.
    + destruct (Hrows r Hr) as (? & ? & ?). split_and!; [done|lia|done].
    + cbn. split_and!; [done|lia|done].
  - rewrite fmap_app. apply NoDup_app. split_and!; [done| |apply NoDup_singleton].
    intros i (r & -> & Hr)%list_elem_of_fmap. cbn. rewrite list_elem_of_singleton. intros E.
    specialize (Hnew r Hr). by rewrite E, String.eqb_refl in Hnew.
  - rewrite fmap_app. apply StronglySorted_snoc; [done|].
    intros y (r & -> & Hr)%list_elem_of_fmap. by destruct (Hrows r Hr) as (_ & ? & _).
  - rewrite row_tags_app, Htags. cbn. by rewrite app_nil_r.
  - intros s Hs. apply elem_of_app in Hs as [Hs|Hs].
    + destruct (Hsearch s Hs) as (r & ? & ? & ?). exists r. set_solver.
    + case_match; [|set_solver]. apply list_elem_of_singleton in Hs. subst s.
      exists (event_row (next_seq db) e). set_solver.
  - intros r r' [Hr| ->]%Hin [Hr'| ->]%Hin Hk Ha; [by apply Huniq| | |done].
    + exfalso. apply at_address_row in Ha as (Hp & Hk' & Hd). cbn in Hp, Hk', Hd.
      rewrite <-Hk' in Hk. specialize (Hfree Hk r Hr).
      rewrite (proj2 (at_address_row _ _ _ _)) in Hfree by done. done.
    + exfalso. cbn in Hk, Ha. by rewrite (Hfree Hk r' Hr') in Ha.
  - intros id Hm. rewrite fmap_app, elem_of_app. left. by apply Hmar.
Qed.

(** What a commit hook may do to an invariant. *)
Definition hook_preserves (P : DB → Prop) (opts : SaveOptions) : Prop :=
  ∀ hook db db', BeforeCommit opts = Some hook → P db → hook db = Ok db' → P db'.

Lemma SaveTx_Ok db e opts db' res :
  SaveTx db e opts = Ok (db', res) → IsEphemeral (Kind e) = false →
  ∃ db1 db2, checkSave db e = Ok tt ∧ replaceOrDelete db e (Now opts) = Ok db1 ∧
    insertEvent db1 e (SearchMode opts) = Ok (db2, Sequence res) ∧
    (match BeforeCommit opts with
     | Some hook => hook (AddIntents db2 (Intents opts) (Now opts))
     | None => Ok (AddIntents db2 (Intents opts) (Now opts))
     end) = Ok db'.
Proof.
  unfold SaveTx. intros H Hk. rewrite Hk in H.
  apply result_bind_Ok in H as ([] & Hc & H).
  apply result_bind_Ok in H as (db1 & Hr & H).
  apply result_bind_Ok in H as ([db2 seq] & Hi & H). cbn [fst snd] in H.
  apply result_bind_Ok in H as (db4 & Hh & H). apply (inj Ok) in H.
  exists db1, db2. injection H as <- <-. cbn [Sequence]. split_and!; try done.
Qed.

(** A save preserves what its insertion and its hook preserve. *)
Lemma kept_Save `{!Kept P} db e opts :
  P db → hook_preserves P opts →
  (∀ db1 db2 seq, P db1 → (replaces (Kind e) = true → ∀ r, r ∈ events db1 → at_address (PubKey e) (Kind e) (d_of e) r = false) →
     insertEvent db1 e (SearchMode opts) = Ok (db2, seq) → P db2) →
  P (Save db e opts).1.
Proof.
  intros Hp Hh Hins. unfold Save, WithTx.
  destruct (SaveTx db e opts) as [[db' res]|m] eqn:E; [|done]. cbn [fst].
  destruct (IsEphemeral (Kind e)) eqn:Hk.
  { unfold SaveTx in E. rewrite Hk in E. apply (inj Ok) in E. by injection E as <- _. }
  destruct (SaveTx_Ok _ _ _ _ _ E Hk) as (db1 & db2 & _ & Hr & Hi & Hb).
  assert (P (AddIntents db2 (Intents opts) (Now opts))) as H3.
  { apply kept_set_intents. eapply Hins; [by eapply kept_replaceOrDelete|by eapply replaceOrDelete_free|exact Hi]. }
  destruct (BeforeCommit opts) as [hook|] eqn:Eb; [by eapply Hh|].
  apply (inj Ok) in Hb. by subst db'.
Qed.

Lemma WF_Save db e opts :
  WF db → wire_shape e → hook_preserves WF opts → WF (Save db e opts).1.
Proof. intros Hwf He Hh. apply kept_Save; [done..|]. intros. by eapply WF_insertEvent. Qed.

Lemma Indexed_insertEvent (M : string → Prop) db e mode db' seq :
  WF db → Indexed M db → M mode → insertEvent db e mode = Ok (db', seq) → Indexed M db'.
Proof.
  intros Hwf (mode_of & Hm & E) Hmode. unfold insertEvent. rewrite guard_bind_Ok. intros [_ Hi]. cbv zeta in Hi.
  apply (inj Ok), (f_equal fst) in Hi. cbn [fst] in Hi. subst db'. cbn [events search].
  assert (∀ r, r ∈ events db → r_seq r =? next_seq db = false) as Hold.
  { intros r Hr. apply Z.eqb_neq. destruct (wf_rows _ Hwf r Hr) as (_ & ? & _). lia. }
  exists (λ n, if n =? next_seq db then mode else mode_of n). cbn [events search]. split.
  - intros r [Hr|Hr%list_elem_of_singleton]%elem_of_app; [rewrite (Hold r Hr); by apply Hm|].
    subst r. cbn. by rewrite Z.eqb_refl.
  - rewrite search_rows_app, E. f_equal.
    + apply search_rows_ext. intros r Hr. by rewrite (Hold r Hr).
    + cbn. rewrite Z.eqb_refl, app_nil_r. done.
Qed.

(** What is asked of a save to keep the index under the modes of [M]. *)
Definition saves_under (M : string → Prop) (opts : SaveOptions) : Prop :=
  M (SearchMode opts) ∧ hook_preserves (λ db, WF db ∧ Indexed M db) opts.

Lemma Indexed_Save M db e opts :
  WF db ∧ Indexed M db → wire_shape e → saves_under M opts → WF (Save db e opts).1 ∧ Indexed M (Save db e opts).1.
Proof.
  intros HP He [Hm Hh]. apply (kept_Save (P := λ db, WF db ∧ Indexed M db)); [done..|].
  intros db1 db2 seq [Hw Hi] Hfree Hins. split; [by eapply WF_insertEvent|by eapply Indexed_insertEvent].
Qed.

(** ** The tag index *)

Lemma elem_of_tag_rows id l t :
  t ∈ tag_rows id l ↔
  t_event t = id ∧ String.length (t_name t) = 1%nat ∧ t_value t ∈ tag_values l (t_name t).
Proof.
  induction l as [|[|n [|v rest]] l IH]; cbn; try done.
  - split; [by intros ?%not_elem_of_nil|]. by intros (_ & _ & ?%not_elem_of_nil).
  - destruct (Nat.eqb_spec (String.length n) 1) as [E|E]; destruct (String.eqb_spec n (t_name t)) as [Hn|Hn];
      rewrite ?elem_of_cons, IH; destruct t as [ev na va]; cbn in *; naive_solver congruence.
Qed.

Lemma elem_of_row_tags rows t :
  t ∈ row_tags rows ↔ ∃ r, r ∈ rows ∧ t ∈ tag_rows (r_id r) (etags (r_raw r)).
Proof.
  induction rows as [|r rows IH]; cbn.
  - split; [by intros ?%not_elem_of_nil|]. by intros (? & ?%not_elem_of_nil & _).
  - rewrite elem_of_app, IH. setoid_rewrite elem_of_cons. naive_solver.
Qed.

(** On a well-formed database the index answers like the stored event. *)
Lemma has_tag_spec db r n vs :
  WF db → r ∈ events db → String.length n = 1%nat →
  has_tag db (r_id r) n vs = true ↔ ∃ v, v ∈ vs ∧ v ∈ TagValues (r_raw r) n.
Proof.
  intros Hwf Hr Hn. unfold has_tag. rewrite (wf_tags _ Hwf), existsb_elem. split.
  - intros (t & Ht & Hc). rewrite !andb_true_iff, !String.eqb_eq in Hc.
    destruct Hc as [[Hid Hna] Hv]. apply elem_of_row_tags in Ht as (r' & Hr' & Ht).
    apply elem_of_tag_rows in Ht as (Hev & _ & Hval). rewrite Hid in Hev.
    rewrite (NoDup_fmap_elem r_id _ r r' (wf_ids _ Hwf) Hr Hr' Hev).
    exists (t_value t). rewrite <-Hna. split; [by apply contains_spec|done].
  - intros (v & Hv & Ht). exists (mkTagRow (r_id r) n v). split.
    + apply elem_of_row_tags. exists r. split; [done|]. by apply elem_of_tag_rows.
    + cbn. rewrite !String.eqb_refl. cbn. by apply contains_spec.
Qed.

Lemma row_fields db r : WF db → r ∈ events db →
  r_id r = ID (r_raw r) ∧ r_pubkey r = PubKey (r_raw r) ∧ r_created r = CreatedAt (r_raw r) ∧
  r_kind r = Kind (r_raw r) ∧ r_d r = d_of (r_raw r) ∧ r_expires r = Expiration (r_raw r) ∧
  wire_shape (r_raw r).
Proof.
  intros Hwf Hr. destruct (wf_rows _ Hwf r Hr) as (E & _ & Hs).
  destruct r; cbn in *; injection E as; by subst.
Qed.

(** * internal/storage: tombstones and vanish requests hold

    [Clean]: no stored row is covered by a deletion tombstone of its author
    (or of a gift wrap's recipient) or by a vanish request.  Every storage
    operation preserves it and never drops a tombstone, so an event deleted
    or vanished once is never stored again. *)

(** Whose e-tag deletions reach the row: its author and, for a gift wrap,
    the recipients. *)
Definition can_delete (a : string) (r : EventRow) : Prop :=
  r_pubkey r = a ∨ r_kind r = 1059 ∧ a ∈ TagValues (r_raw r) "p".

Record Clean (db : DB) : Prop := {
  clean_vanished : ∀ r u, r ∈ events db → vanished db !! r_pubkey r = Some u → u < r_created r;
  clean_e : ∀ r a, r ∈ events db → can_delete a r → deletions db !! (a, "e", r_id r) = None;
  clean_a : ∀ r u, r ∈ events db → IsAddressable (r_kind r) = true →
    deletions db !! (r_pubkey r, "a", address_of (r_kind r) (r_pubkey r) (r_d r)) = Some u →
    u < r_created r;
}.

Definition map_le `{Countable K} (m m' : gmap K Z) : Prop :=
  ∀ k u, m !! k = Some u → ∃ u', m' !! k = Some u' ∧ u ≤ u'.

(** The tombstones of the second database extend those of the first. *)
Definition tombs_le (db db' : DB) : Prop :=
  map_le (deletions db) (deletions db') ∧ map_le (vanished db) (vanished db').

Definition Inv (db : DB) : Prop := WF db ∧ Clean db.

(** A commit hook keeps the invariant and drops no tombstone. *)
Definition hook_ok (opts : SaveOptions) : Prop :=
  ∀ hook db db', BeforeCommit opts = Some hook → Inv db → hook db = Ok db' →
    Inv db' ∧ tombs_le db db'.

(** The storage operations of a running tenant, the saves with options of
    [O]. *)
Inductive step_in (O : SaveOptions → Prop) : DB → DB → Prop :=
| step_save db e opts :
    wire_shape e → ID e ∉ TagValues e "e" → hook_ok opts → O opts → step_in O db (Save db e opts).1
| step_vanish db pk u : step_in O db (Vanish db pk u)
| step_expire db now : step_in O db (SweepExpired db now).1
| step_retention db opts : step_in O db (SweepRetention db opts).1
| step_delete db id : step_in O db (DeleteEvent db id).1
| step_erase db pk : step_in O db (EraseAuthor db pk).1
| step_put db k v : step_in O db (PutSetting db k v)
| step_drop db k : step_in O db (DeleteSetting db k).

Notation step := (step_in (λ _, True)).
Notation steps := (rtc step).

Lemma step_any O db db' : step_in O db db' → step db db'.
Proof. intros []; by constructor. Qed.
Lemma steps_any O db db' : rtc (step_in O) db db' → steps db db'.
Proof. induction 1; [done|]. eapply rtc_l; [by eapply step_any|done]. Qed.

Lemma step_Indexed O M db db' : (∀ opts, O opts → saves_under M opts) → step_in O db db' → WF db ∧ Indexed M db → WF db' ∧ Indexed M db'.
Proof.
  intros HO Hs HP. pose proof (Indexed_kept M). destruct Hs as [db e opts He _ _ Ho|db pk u|db now|db opts|db id|db pk|db k v|db k].
  - apply Indexed_Save; auto.
  - by apply (kept_Vanish (P := λ db, WF db ∧ Indexed M db)).
  - by apply (kept_SweepExpired (P := λ db, WF db ∧ Indexed M db)).
  - by apply (kept_SweepRetention (P := λ db, WF db ∧ Indexed M db)).
  - by apply (kept_DeleteEvent (P := λ db, WF db ∧ Indexed M db)).
  - by apply (kept_EraseAuthor (P := λ db, WF db ∧ Indexed M db)).
  - by apply (kept_set_settings (P := λ db, WF db ∧ Indexed M db)).
  - by apply (kept_set_settings (P := λ db, WF db ∧ Indexed M db)).
Qed.

Lemma steps_Indexed O M db db' : (∀ opts, O opts → saves_under M opts) → rtc (step_in O) db db' → WF db ∧ Indexed M db → WF db' ∧ Indexed M db'.
Proof. intros HO. induction 1 as [|db1 db2 db3 Hs _ IH]; intros HP; [done|]. by eapply IH, step_Indexed. Qed.

Lemma map_le_refl `{Countable K} (m : gmap K Z) : map_le m m.
Proof. intros k u ?. exists u. split; [done|lia]. Qed.

Lemma map_le_trans `{Countable K} (m1 m2 m3 : gmap K Z) : map_le m1 m2 → map_le m2 m3 → map_le m1 m3.
Proof.
  intros H1 H2 k u Hk. destruct (H1 k u Hk) as (u1 & Hu1 & ?).
  destruct (H2 k u1 Hu1) as (u2 & Hu2 & ?). exists u2. split; [done|lia].
Qed.

#[export] Instance tombs_le_preorder : PreOrder tombs_le.
Proof.
  split.
  - intros db. split; apply map_le_refl.
  - intros a b c [] []. split; by eapply map_le_trans.
Qed.

Lemma map_le_insert `{Countable K} (m : gmap K Z) k u :
  map_le m (<[k := match m !! k with Some old => Z.max old u | None => u end]> m).
Proof.
  intros k' v Hk. destruct (decide (k = k')) as [->|Hne].
  - rewrite lookup_insert_eq, Hk. eexists. split; [done|lia].
  - rewrite lookup_insert_ne by done. exists v. split; [done|lia].
Qed.

(** ** Fewer rows, same tombstones *)

Lemma Clean_sub db db' :
  (∀ r, r ∈ events db' → r ∈ events db) → deletions db' = deletions db →
  vanished db' = vanished db → Clean db → Clean db'.
Proof.
  intros He Hd Hv []. split; rewrite ?Hd, ?Hv; intros; eauto.
Qed.

Lemma Clean_delete p db : Clean db → Clean (delete_events p db).1.
Proof. apply Clean_sub; [|done..]. by intros r [? _]%elem_of_events_delete. Qed.

Lemma Clean_empty : Clean empty_db.
Proof. split; intros ? ? H; inversion H. Qed.

(** Deletes and writes to the other tables. *)
Definition trims (db db' : DB) : Prop :=
  (∀ r, r ∈ events db' → r ∈ events db) ∧ deletions db' = deletions db ∧
  vanished db' = vanished db.

Lemma trims_Clean db db' : trims db db' → Clean db → Clean db'.
Proof. intros (? & ? & ?). by apply Clean_sub. Qed.

Lemma trims_tombs db db' : trims db db' → tombs_le db db'.
Proof. intros (_ & Hd & Hv). unfold tombs_le. rewrite Hd, Hv. split; apply map_le_refl. Qed.

#[export] Instance trims_preorder : PreOrder trims.
Proof.
  split.
  - by intros db.
  - intros a b c (H1 & H2 & H3) (H4 & H5 & H6).
    split_and!; [intros r Hr; by apply H1, H4|by rewrite H5|by rewrite H6].
Qed.

Lemma trims_delete p db : trims db (delete_events p db).1.
Proof. split_and!; [|done..]. by intros r [? _]%elem_of_events_delete. Qed.

Lemma trims_fold {B} (f : DB * Z → B → DB * Z) l st :
  (∀ st b, trims st.1 (f st b).1) → trims st.1 (fold_left f l st).1.
Proof.
  intros Hf. revert st. induction l as [|b l IH]; intros st; cbn; [done|].
  transitivity (f st b).1; [apply Hf|apply IH].
Qed.

Lemma trims_SweepRetention db opts : trims db (SweepRetention db opts).1.
Proof.
  unfold SweepRetention. etransitivity; [|apply trims_fold].
  - apply (trims_fold _ _ (db, 0)). intros [d n] rule. unfold retention_rule. cbn [fst].
    case_match; [done|]. apply (trims_delete (rule_cond opts rule)).
  - intros [d n] m. unfold retention_member. cbn [fst]. case_match; [done|]. cbn.
    split_and!; [|done..]. by intros r [? _]%elem_of_lfilter.
Qed.

(** ** Vanish *)

Lemma Clean_Vanish db pk u : Clean db → Clean (Vanish db pk u).
Proof.
  intros [Hv He Ha]. unfold Vanish. cbv zeta.
  split; cbn [events vanished deletions set_vanished set_history set_wiki set_grants delete_events fst];
    intros r x; rewrite !elem_of_lfilter; intros [[Hr Hnot] _].
  - destruct (decide (pk = r_pubkey r)) as [->|Hne].
    + rewrite lookup_insert_eq. rewrite String.eqb_refl in Hnot. cbn in Hnot.
      apply negb_true_iff, Z.leb_gt in Hnot.
      destruct (vanished db !! r_pubkey r) as [old|] eqn:E; intros [= <-]; [|done].
      specialize (Hv r old Hr E). lia.
    + rewrite lookup_insert_ne by done. by apply Hv.
  - by apply He.
  - by apply Ha.
Qed.

Lemma tombs_Vanish db pk u : tombs_le db (Vanish db pk u).
Proof. split; [apply map_le_refl|apply map_le_insert]. Qed.

(** ** Deletion events *)

Lemma events_delete_by_id db e target :
  events (delete_by_id db e target)
  = List.filter (λ r, negb (String.eqb (r_id r) target
      && (String.eqb (r_pubkey r) (PubKey e)
          || (r_kind r =? 1059) && has_tag db (r_id r) "p" [PubKey e]))) (events db).
Proof. done. Qed.

Lemma trims_delete_by_id db e target : trims db (delete_by_id db e target).
Proof.
  split_and!; [|done..]. intros r. rewrite events_delete_by_id. by intros [? _]%elem_of_lfilter.
Qed.

Lemma events_delete_address db e kind d :
  events (delete_address db e kind d)
  = List.filter (λ r, negb (at_address (PubKey e) kind d r && (r_created r <=? CreatedAt e))) (events db).
Proof. unfold delete_address, archiveAgentGrantDeletion. by repeat case_match. Qed.

Lemma trims_delete_address db e kind d : trims db (delete_address db e kind d).
Proof.
  split_and!.
  - intros r. rewrite events_delete_address. by intros [? _]%elem_of_lfilter.
  - unfold delete_address, archiveAgentGrantDeletion. by repeat case_match.
  - unfold delete_address, archiveAgentGrantDeletion. by repeat case_match.
Qed.

Lemma no_char_hex s c : isHex s = true → (byte_of c < 48 ∨ 57 < byte_of c < 97) → no_char c s.
Proof.
  intros H Hc. unfold no_char. induction s as [|a s IH]; cbn in *; constructor.
  - apply andb_true_iff in H as [H _]. apply orb_true_iff in H as [H|H];
      apply in_range_true in H; lia.
  - apply IH. by apply andb_true_iff in H as [_ ?].
Qed.

(** An address splits into its kind, author and d tag, whatever the d tag. *)
Lemma SplitN_address k pk d :
  0 ≤ k → no_char (char 58) pk → SplitN (address_of k pk d) (char 58) 3 = [Itoa k; pk; d].
Proof.
  intros Hk Hpk. unfold SplitN, address_of. rewrite ?str_app_assoc.
  change (":" +:+ (pk +:+ ":" +:+ d)) with (String (char 58) (pk +:+ String (char 58) d)).
  rewrite split_go_step.
  - rewrite split_go_step by done. by rewrite split_go_last.
  - unfold Itoa. rewrite (proj2 (Z.ltb_ge k 0)) by done. apply no_char_digits; [by apply utoa_digits|].
    right. done.
Qed.

Lemma can_delete_spec db r a : WF db → r ∈ events db →
  can_delete a r ↔
  String.eqb (r_pubkey r) a || (r_kind r =? 1059) && has_tag db (r_id r) "p" [a] = true.
Proof.
  intros Hwf Hr. unfold can_delete.
  rewrite orb_true_iff, andb_true_iff, String.eqb_eq, Z.eqb_eq, has_tag_spec by done.
  setoid_rewrite list_elem_of_singleton. naive_solver.
Qed.

(** Writing a tombstone keeps [Clean] when no row is left under its key. *)
Lemma Clean_put_tombstone db a ty target u :
  (∀ r, r ∈ events db → ty = "e" → r_id r = target → ¬ can_delete a r) →
  (∀ r, r ∈ events db → ty = "a" → IsAddressable (r_kind r) = true → r_pubkey r = a →
     address_of (r_kind r) a (r_d r) = target → u < r_created r) →
  Clean db → Clean (put_tombstone db a ty target u).
Proof.
  intros He Ha [Hv Hte Hta]. unfold put_tombstone.
  split; cbn [events vanished deletions set_deletions]; intros r x Hr; [by apply Hv|..].
  - intros Hc. rewrite lookup_insert_ne; [by apply Hte|].
    intros [= <- -> E]. by apply (He r Hr).
  - intros Hk. destruct (decide ((a, ty, target) = (r_pubkey r, "a", address_of (r_kind r) (r_pubkey r) (r_d r)))) as [E|E].
    + rewrite E, lookup_insert_eq. injection E as -> -> ->.
      specialize (Ha r Hr eq_refl Hk eq_refl eq_refl).
      destruct (deletions db !! _) as [old|] eqn:Eo; intros [= <-]; [|done].
      specialize (Hta r old Hr Hk Eo). lia.
    + rewrite lookup_insert_ne by done. by apply Hta.
Qed.

Lemma tombs_put_tombstone db a ty target u : tombs_le db (put_tombstone db a ty target u).
Proof. split; [apply map_le_insert|apply map_le_refl]. Qed.

Lemma Atoi_kind k : 0 ≤ k ≤ 65535 → num_ok (Atoi (Itoa k)) = Some k.
Proof.
  intros. unfold Atoi. rewrite ParseInt_Itoa; [done|]. unfold int64_min, int64_max. lia.
Qed.

Lemma Clean_applyDeletion db e name value :
  name = "e" ∨ name = "a" → WF db → Clean db → Clean (applyDeletion db e name value).
Proof.
  intros Hname Hwf Hc. unfold applyDeletion. destruct (String.eqb_spec name "a") as [->|Hna].
  - destruct (SplitN value (char 58) 3) as [|k [|pk [|d [|]]]] eqn:Es; try done.
    destruct (String.eqb_spec pk (PubKey e)) as [->|]; [|done]. cbn [negb].
    destruct (num_ok (Atoi k)) as [kind|] eqn:Ek; [|done].
    apply Clean_put_tombstone; [done| |].
    + intros r Hr _ Hk Hpk Haddr. rewrite events_delete_address in Hr.
      apply elem_of_lfilter in Hr as [Hr Hkeep].
      destruct (row_fields db r Hwf Hr) as (_ & Ep & _ & Ekd & _ & _ & Hs).
      destruct Hs as (_ & Hpkh & _ & _ & Hkr & _).
      rewrite <-Haddr, SplitN_address in Es.
      * injection Es as <- <-. rewrite Ekd, Atoi_kind in Ek by done. injection Ek as <-.
        rewrite <-Ekd in Hkeep. rewrite (proj2 (at_address_row _ _ _ _)) in Hkeep by done.
        cbn in Hkeep. apply negb_true_iff, Z.leb_gt in Hkeep. done.
      * rewrite Ekd. lia.
      * rewrite <-Hpk, Ep. apply andb_true_iff in Hpkh as [_ Hh].
        apply no_char_hex; [done|]. right. done.
    + eapply trims_Clean; [apply trims_delete_address|done].
  - destruct Hname as [->|]; [|done]. apply Clean_put_tombstone; [|done|].
    + intros r Hr _ Hid Hcan. rewrite events_delete_by_id in Hr.
      apply elem_of_lfilter in Hr as [Hr Hkeep].
      rewrite (can_delete_spec db) in Hcan by done.
      rewrite Hcan, Hid, String.eqb_refl in Hkeep. done.
    + eapply trims_Clean; [apply trims_delete_by_id|done].
Qed.

(** What one deletion tag does to rows and tombstones. *)
Lemma applyDeletion_frame db e name value :
  (∀ r, r ∈ events (applyDeletion db e name value) → r ∈ events db) ∧
  tombs_le db (applyDeletion db e name value) ∧
  vanished (applyDeletion db e name value) = vanished db ∧
  next_seq (applyDeletion db e name value) = next_seq db ∧
  (∀ k, k ≠ (PubKey e, name, value) →
     deletions (applyDeletion db e name value) !! k = deletions db !! k).
Proof.
  assert (∀ db', trims db db' → next_seq db' = next_seq db →
    let db2 := put_tombstone db' (PubKey e) name value (CreatedAt e) in
    (∀ r, r ∈ events db2 → r ∈ events db) ∧ tombs_le db db2 ∧ vanished db2 = vanished db ∧
    next_seq db2 = next_seq db ∧
    (∀ k, k ≠ (PubKey e, name, value) → deletions db2 !! k = deletions db !! k)) as Hput.
  { intros db' Ht Hn. destruct Ht as (H1 & H2 & H3) eqn:Hte. cbv zeta.
    split_and!; [exact H1| |exact H3|exact Hn|].
    - etransitivity; [by apply trims_tombs|apply tombs_put_tombstone].
    - intros k Hk. unfold put_tombstone. cbn. rewrite lookup_insert_ne by done. by rewrite H2. }
  assert (∀ k, k ≠ (PubKey e, name, value) → deletions db !! k = deletions db !! k) by done.
  unfold applyDeletion. destruct (String.eqb name "a").
  - destruct (SplitN value (char 58) 3) as [|k [|pk [|d [|]]]]; try by split_and!.
    destruct (negb (String.eqb pk (PubKey e))); [by split_and!|].
    destruct (num_ok (Atoi k)) as [kind|]; [|by split_and!].
    apply Hput; [apply trims_delete_address|].
    unfold delete_address, archiveAgentGrantDeletion. by repeat case_match.
  - apply Hput; [apply trims_delete_by_id|done].
Qed.

Lemma applyDeletion_sublist db e name value :
  events (applyDeletion db e name value) `sublist_of` events db.
Proof.
  unfold applyDeletion. repeat case_match; try done; cbn [events put_tombstone set_deletions].
  - rewrite events_delete_address. apply lfilter_sublist.
  - rewrite events_delete_by_id. apply lfilter_sublist.
Qed.

Lemma deletion_tag_sublist e db tag : events (deletion_tag e db tag) `sublist_of` events db.
Proof.
  unfold deletion_tag. destruct tag as [|n [|v rest]]; [done..|].
  destruct (_ || _); [apply applyDeletion_sublist|done].
Qed.

(** The whole deletion loop over the tags [l]. *)
Lemma deletion_loop e l db :
  WF db → Clean db →
  let db' := fold_left (deletion_tag e) l db in
  WF db' ∧ Clean db' ∧ (∀ r, r ∈ events db' → r ∈ events db) ∧ tombs_le db db' ∧
  vanished db' = vanished db ∧ next_seq db' = next_seq db ∧
  (∀ v, v ∈ tag_values l "e" →
     is_Some (deletions db' !! (PubKey e, "e", v))) ∧
  (∀ k, (∀ n v, v ∈ tag_values l n → k ≠ (PubKey e, n, v)) → deletions db' !! k = deletions db !! k).
Proof.
  revert db. induction l as [|tag l IH]; intros db Hwf Hc; cbn [fold_left].
  { split_and!; try done. by intros v ?%not_elem_of_nil. }
  assert (∀ n v, v ∈ tag_values l n → v ∈ tag_values (tag :: l) n) as Hsub.
  { intros n v Hv. destruct tag as [|m [|w rest]]; cbn; [done..|]. case_match; [|done].
    by apply list_elem_of_further. }
  destruct (IH (deletion_tag e db tag)) as (H1 & H2 & H3 & H4 & H5 & H6 & H7 & H8).
  { by apply kept_deletion_tag. }
  { unfold deletion_tag. destruct tag as [|n [|v rest]]; [done..|].
    destruct (String.eqb n "e" || String.eqb n "a") eqn:En; [|done].
    apply Clean_applyDeletion; [|done..].
    apply orb_true_iff in En. rewrite !String.eqb_eq in En. tauto. }
  assert ((∀ r, r ∈ events (deletion_tag e db tag) → r ∈ events db) ∧
    tombs_le db (deletion_tag e db tag) ∧ vanished (deletion_tag e db tag) = vanished db ∧
    next_seq (deletion_tag e db tag) = next_seq db ∧
    (∀ k, (∀ n v, v ∈ tag_values (tag :: l) n → k ≠ (PubKey e, n, v)) →
       deletions (deletion_tag e db tag) !! k = deletions db !! k)) as (G1 & G2 & G3 & G4 & G5).
  { unfold deletion_tag. destruct tag as [|n [|v rest]]; [by split_and!..|].
    destruct (String.eqb n "e" || String.eqb n "a"); [|by split_and!].
    destruct (applyDeletion_frame db e n v) as (F1 & F2 & F3 & F4 & F5).
    split_and!; try done. intros k Hk. apply F5, Hk. cbn. rewrite String.eqb_refl.
    apply list_elem_of_here. }
  split_and!; [done|done| | |by rewrite H5|by rewrite H6| |].
  - intros r Hr. by apply G1, H3.
  - by etransitivity.
  - intros v Hv. destruct tag as [|n [|w rest]]; cbn in Hv; [by apply H7..|].
    destruct (String.eqb_spec n "e") as [->|]; [|by apply H7].
    apply elem_of_cons in Hv as [->|Hv]; [|by apply H7].
    assert (is_Some (deletions (deletion_tag e db ("e" :: w :: rest)) !! (PubKey e, "e", w))) as [u Hu].
    { unfold deletion_tag, applyDeletion, put_tombstone. cbn. rewrite lookup_insert_eq. done. }
    destruct H4 as [Hd _]. destruct (Hd _ _ Hu) as (u' & -> & _). done.
  - intros k Hk. rewrite H8, G5; [done|done|]. intros n v Hv. by apply Hk, Hsub.
Qed.

Lemma replaceOrDelete_ok db e now db' :
  WF db → Clean db → replaceOrDelete db e now = Ok db' →
  WF db' ∧ Clean db' ∧ tombs_le db db' ∧ vanished db' = vanished db ∧
  (Kind e = 5 → ∀ v, v ∈ TagValues e "e" → is_Some (deletions db' !! (PubKey e, "e", v))) ∧
  (∀ k, (Kind e = 5 → ∀ n v, v ∈ TagValues e n → k ≠ (PubKey e, n, v)) →
     deletions db' !! k = deletions db !! k).
Proof.
  intros Hwf Hc H. split; [by eapply kept_replaceOrDelete|]. unfold replaceOrDelete in H.
  destruct (IsReplaceable (Kind e) || IsAddressable (Kind e)) eqn:Hr.
  - apply replace_Ok in H as (_ & He & Hv & Hd & _).
    assert (trims db db') as Ht.
    { split_and!; [|done..]. rewrite He. by intros r [? _]%elem_of_lfilter. }
    split_and!; [by eapply trims_Clean|by apply trims_tombs|done| |by rewrite Hd].
    intros E. by rewrite E in Hr.
  - destruct (Z.eqb_spec (Kind e) 5) as [E5|E5]; cbn [negb] in H; apply (inj Ok) in H; subst db'.
    + destruct (deletion_loop e (etags e) db Hwf Hc) as (_ & H2 & _ & H4 & H5 & _ & H7 & H8).
      split_and!; [done..|auto|auto].
    + by split_and!.
Qed.

Lemma checkSave_ok db e : checkSave db e = Ok tt →
  (∀ u, vanished db !! PubKey e = Some u → u < CreatedAt e) ∧
  (∀ a, a = PubKey e ∨ Kind e = 1059 ∧ a ∈ TagValues e "p" → deletions db !! (a, "e", ID e) = None) ∧
  (IsAddressable (Kind e) = true → ∀ u,
     deletions db !! (PubKey e, "a", address_of (Kind e) (PubKey e) (Tag e "d")) = Some u → u < CreatedAt e).
Proof.
  unfold checkSave. rewrite !guard_bind_Ok. intros (_ & Hv & Hd). unfold checkDeleted in Hd.
  rewrite guard_bind_Ok, existsb_elem_false in Hd. destruct Hd as [He Ha]. split_and!.
  - intros u Hu. rewrite Hu in Hv. by apply Z.leb_gt.
  - intros a Hin. destruct (deletions db !! (a, "e", ID e)) eqn:E; [|done].
    enough (a ∈ PubKey e :: (if Kind e =? 1059 then TagValues e "p" else [])) as Hin'.
    { specialize (He a Hin'). cbn in He. by rewrite E in He. }
    destruct Hin as [->|[-> Hp]]; [apply list_elem_of_here|by apply list_elem_of_further].
  - intros Hk u Hu. rewrite Hk in Ha. cbn [negb] in Ha. apply guard_Ok_tt in Ha.
    rewrite Hu in Ha. by apply Z.leb_gt.
Qed.

(** ** Saving *)

Lemma insertEvent_Ok db e mode db' seq :
  insertEvent db e mode = Ok (db', seq) →
  seq = next_seq db ∧ events db' = events db ++ [event_row seq e] ∧
  deletions db' = deletions db ∧ vanished db' = vanished db.
Proof.
  unfold insertEvent. rewrite guard_bind_Ok. intros [_ H]. cbv zeta in H. apply (inj Ok) in H.
  pose proof (f_equal fst H) as H1. pose proof (f_equal snd H) as H2. cbn in H1, H2. by subst.
Qed.

Lemma Inv_AddIntents db l now : Inv db → Inv (AddIntents db l now).
Proof.
  intros [Hw Hc]. split; [by apply kept_set_intents|].
  by apply (trims_Clean db); [split_and!|].
Qed.

(** Everything a successful save does before its hook runs. *)
Lemma SaveTx_body db e opts db' res :
  Inv db → wire_shape e → ID e ∉ TagValues e "e" → IsEphemeral (Kind e) = false →
  SaveTx db e opts = Ok (db', res) →
  ∃ db3, Inv db3 ∧ tombs_le db db3 ∧
    (Kind e = 5 → ∀ v, v ∈ TagValues e "e" → is_Some (deletions db3 !! (PubKey e, "e", v))) ∧
    (match BeforeCommit opts with Some hook => hook db3 | None => Ok db3 end) = Ok db'.
Proof.
  intros [Hwf Hc] He Hself Hk E.
  destruct (SaveTx_Ok _ _ _ _ _ E Hk) as (db1 & db2 & Hcs & Hr & Hi & Hb).
  pose proof (replaceOrDelete_free _ _ _ _ Hr) as Hfree.
  destruct (replaceOrDelete_ok _ _ _ _ Hwf Hc Hr) as (Hw1 & Hc1 & Ht1 & Hv1 & Hall & Hd1).
  destruct (checkSave_ok _ _ Hcs) as (Cv & Ce & Ca).
  pose proof (WF_insertEvent _ _ _ _ _ Hw1 He Hfree Hi) as Hw2.
  destruct (insertEvent_Ok _ _ _ _ _ Hi) as (_ & He2 & Hd2 & Hv2).
  assert (∀ a ty target, ty = "e" ∧ target = ID e ∨ IsAddressable (Kind e) = true →
            deletions db2 !! (a, ty, target) = deletions db !! (a, ty, target)) as Hsame.
  { intros a ty target Hc0. rewrite Hd2. apply Hd1. intros E5 n v Hv [= -> -> ->].
    destruct Hc0 as [[-> ->]|Hadr]; [by apply Hself|]. by rewrite E5 in Hadr. }
  assert (Clean db2) as Hc2.
  { split; rewrite ?Hv2; intros r x Hr2; rewrite He2 in Hr2;
      apply elem_of_app in Hr2 as [Hr2|Hr2%list_elem_of_singleton];
      rewrite ?Hd2; try (by destruct Hc1; eauto); subst r; cbn [event_row r_id r_pubkey r_kind r_created r_d r_raw].
    - rewrite Hv1. apply Cv.
    - intros Hcan. rewrite <-Hd2, Hsame by auto. apply Ce. destruct Hcan as [Hcan|[Hk5 Hp]];
        [left; by rewrite <-Hcan|by right].
    - intros Hadr. rewrite <-Hd2, Hsame by auto. unfold d_of. rewrite Hadr. by apply Ca. }
  assert (tombs_le db db2) as Ht2.
  { etransitivity; [exact Ht1|]. unfold tombs_le. rewrite Hd2, Hv2. split; apply map_le_refl. }
  exists (AddIntents db2 (Intents opts) (Now opts)). split_and!; [|exact Ht2| |exact Hb].
  - apply Inv_AddIntents. by split.
  - intros E5 v Hv. cbn. rewrite Hd2. by apply Hall.
Qed.

Lemma hook_result opts db db' :
  hook_ok opts → Inv db →
  (match BeforeCommit opts with Some hook => hook db | None => Ok db end) = Ok db' →
  Inv db' ∧ tombs_le db db'.
Proof.
  intros Hh HI Hb. destruct (BeforeCommit opts) as [hook|] eqn:Eb; [by eapply Hh|].
  apply (inj Ok) in Hb. by subst db'.
Qed.

Lemma Save_step db e opts :
  Inv db → wire_shape e → ID e ∉ TagValues e "e" → hook_ok opts →
  Inv (Save db e opts).1 ∧ tombs_le db (Save db e opts).1.
Proof.
  intros HI He Hself Hh. unfold Save, WithTx.
  destruct (SaveTx db e opts) as [[db' res]|m] eqn:E; [|done].
  cbn [fst]. destruct (IsEphemeral (Kind e)) eqn:Hk.
  { unfold SaveTx in E. rewrite Hk in E. apply (inj Ok) in E. by injection E as <- _. }
  destruct (SaveTx_body _ _ _ _ _ HI He Hself Hk E) as (db3 & HI3 & Ht3 & _ & Hb).
  destruct (hook_result _ _ _ Hh HI3 Hb). split; [done|by etransitivity].
Qed.

Lemma step_Inv db db' : step db db' → Inv db → Inv db' ∧ tombs_le db db'.
Proof.
  intros Hs. destruct Hs as [db e opts He Hself Hh _|db pk u|db now|db opts|db id|db pk|db k v|db k];
    intros HI; [by apply Save_step|..].
  - destruct HI. split; [split; [by apply kept_Vanish|by apply Clean_Vanish]|apply tombs_Vanish].
  - destruct HI. assert (trims db (SweepExpired db now).1) as Ht
      by apply (trims_delete (λ r, expired now (r_expires r))).
    split; [split; [by apply kept_SweepExpired|by eapply trims_Clean]|by apply trims_tombs].
  - destruct HI. pose proof (trims_SweepRetention db opts) as Ht.
    split; [split; [by apply kept_SweepRetention|by eapply trims_Clean]|by apply trims_tombs].
  - destruct HI. assert (trims db (DeleteEvent db id).1) as Ht
      by apply (trims_delete (λ r, String.eqb (r_id r) id)).
    split; [split; [by apply kept_DeleteEvent|by eapply trims_Clean]|by apply trims_tombs].
  - destruct HI. assert (trims db (EraseAuthor db pk).1) as Ht
      by apply (trims_delete (λ r, String.eqb (r_pubkey r) pk)).
    split; [split; [by apply kept_EraseAuthor|by eapply trims_Clean]|by apply trims_tombs].
  - destruct HI. split; [split; [by apply kept_set_settings|by eapply (trims_Clean db)]|by split; apply map_le_refl].
  - destruct HI. split; [split; [by apply kept_set_settings|by eapply (trims_Clean db)]|by split; apply map_le_refl].
Qed.

Lemma steps_Inv db db' : steps db db' → Inv db → Inv db' ∧ tombs_le db db'.
Proof.
  induction 1 as [db|db1 db2 db3 Hs _ IH]; intros HI; [done|].
  destruct (step_Inv _ _ Hs HI) as [HI2 Ht]. destruct (IH HI2) as [HI3 Ht3].
  split; [done|by etransitivity].
Qed.

Lemma Inv_empty : Inv empty_db.
Proof. split; [apply WF_empty|apply Clean_empty]. Qed.

(** C27: every database the storage operations reach from an empty one is well
    formed - rows mirror their events, identifiers, sequence numbers and addresses are
    unique, the tag index holds exactly the one-letter tags of the rows - and holds no
    row its tombstones forbid.  The search index is exact: it is that of the rows, each
    under one of the search modes of the run; when every save of the run has the same
    mode, the index holds the content of a row if and only if it is not empty and the
    mode indexes the kind of the row.  (Commit hooks are taken to keep these
    properties.) *)
Theorem storage_reachable_Inv O db : rtc (step_in O) empty_db db →
  WF db ∧ Clean db ∧ (∀ M, (∀ opts, O opts → saves_under M opts) → Indexed M db) ∧
  ∀ mode, (∀ opts, O opts → saves_under (λ m, m = mode) opts) → ∀ seq text, (seq, text) ∈ search db ↔
    ∃ r, r ∈ events db ∧ r_seq r = seq ∧ Content (r_raw r) = text ∧ text ≠ "" ∧ indexed (Kind (r_raw r)) mode = true.
Proof.
  intros H. assert (∀ M, (∀ opts, O opts → saves_under M opts) → Indexed M db) as Hi.
  { intros M HO. exact (proj2 (steps_Indexed O M _ _ HO H (conj WF_empty (Indexed_empty M)))). }
  destruct (steps_Inv _ _ (steps_any _ _ _ H) Inv_empty) as [[Hw Hc] _]. split_and!; [done..|].
  intros mode HO. by apply Indexed_exact, Hi.
Qed.

(** C1: an event named by a stored deletion of its author (or, for a gift
    wrap, of a recipient) is gone, and no later sequence of operations brings
    it back. *)
Theorem deletion_is_permanent db e opts db1 res db2 target r :
  steps empty_db db → wire_shape e → ID e ∉ TagValues e "e" → hook_ok opts →
  Kind e = 5 → Save db e opts = (db1, Ok res) → target ∈ TagValues e "e" →
  steps db1 db2 → r_id r = target → can_delete (PubKey e) r → r ∉ events db2.
Proof.
  intros H0 He Hself Hh Hk Hsave Htgt H1 Hid Hcan Hr.
  destruct (steps_Inv _ _ H0 Inv_empty) as [HI0 _].
  destruct (Save_step db e opts HI0 He Hself Hh) as [HI1 _]. rewrite Hsave in HI1. cbn in HI1.
  destruct (steps_Inv _ _ H1 HI1) as [[_ Hc2] [Hle _]].
  assert (is_Some (deletions db1 !! (PubKey e, "e", target))) as [u Hu].
  { unfold Save, WithTx in Hsave.
    destruct (SaveTx db e opts) as [[db' res']|] eqn:E; [|done]. injection Hsave as <- <-.
    assert (IsEphemeral (Kind e) = false) as Hne by by rewrite Hk.
    destruct (SaveTx_body _ _ _ _ _ HI0 He Hself Hne E) as (db3 & HI3 & _ & Hall & Hb).
    destruct (hook_result _ _ _ Hh HI3 Hb) as [_ [Hle1 _]].
    destruct (Hall Hk target Htgt) as [u Hu]. destruct (Hle1 _ _ Hu) as (u' & ? & _). by exists u'. }
  destruct (Hle _ _ Hu) as (u' & Hu' & _).
  pose proof (clean_e _ Hc2 r _ Hr Hcan) as Hnone. rewrite Hid, Hu' in Hnone. done.
Qed.

(** After a vanish request, whatever happens next, every stored event of
    that author is newer than the request. *)
Theorem vanish_is_permanent db pk u db2 r :
  steps empty_db db → steps (Vanish db pk u) db2 →
  r ∈ events db2 → r_pubkey r = pk → u < r_created r.
Proof.
  intros H0 H1 Hr Hpk. destruct (steps_Inv _ _ H0 Inv_empty) as [HI0 _].
  destruct (step_Inv _ _ (step_vanish _ db pk u) HI0) as [HI1 _].
  destruct (steps_Inv _ _ H1 HI1) as [[_ Hc2] [_ Hle]].
  destruct (Hle pk (match vanished db !! pk with Some old => Z.max old u | None => u end)) as (u' & Hu' & ?).
  { unfold Vanish. cbn. by rewrite lookup_insert_eq. }
  subst pk. pose proof (clean_vanished _ Hc2 r u' Hr Hu'). case_match; lia.
Qed.
