(* ===== verification/StoreProps.v ===== *)
(** * internal/storage: what a query returns

    The indexed WHERE clause agrees with the in-memory filter on a
    well-formed database; a page is the prefix of the sorted matches and the
    cursor of its last event continues exactly where it stopped; private
    kinds reach only their parties. *)

From S2P Require Import Prelude GoLib GoCodec GoLemmas Nostr NostrProps Filter Store StoreQuery StoreInv.

(** ** WHERE and [Matches] *)

Definition one_letter (f : Filter) : Prop :=
  ∀ n vs, FTags f !! n = Some vs → String.length n = 1%nat.

Lemma filter_field_one_letter f kv f' : filter_field f kv = Ok f' → one_letter f → one_letter f'.
Proof.
  destruct kv as [key value], f as [ids au ki tg si un li se]. unfold one_letter, filter_field.
  repeat case_match; intros Hok Hf; try (apply result_bind_Ok in Hok as (out & _ & Hok));
    apply (inj Ok) in Hok; subst f'; cbn in *; try done.
  intros n vs. rewrite lookup_insert_Some. intros [[<- _]|[_ Hl]]; [done|by eapply Hf].
Qed.

Lemma filter_fields_one_letter l f f' : filter_fields f l = Ok f' → one_letter f → one_letter f'.
Proof.
  revert f. induction l as [|kv l IH]; cbn; intros f H Hf.
  - apply (inj Ok) in H. by subst.
  - apply result_bind_Ok in H as (f1 & H1 & H). eapply IH; [done|].
    by eapply filter_field_one_letter.
Qed.

Lemma ParseFilter_one_letter j f : ParseFilter_value j = Ok f → one_letter f.
Proof.
  destruct j; try done. intros H. eapply filter_fields_one_letter; [exact H|].
  intros n vs Hn. change (FTags empty_filter) with (∅ : gmap string (list string)) in Hn.
  by rewrite lookup_empty in Hn.
Qed.

Lemma tag_match_spec l name values :
  tag_match l name values = true ↔ ∃ v, v ∈ values ∧ v ∈ tag_values l name.
Proof.
  induction l as [|[|n [|v rest]] l IH]; cbn; try done.
  - split; [done|]. by intros (v & _ & ?%not_elem_of_nil).
  - rewrite orb_true_iff, andb_true_iff, String.eqb_eq, contains_spec, IH.
    destruct (String.eqb_spec n name); [|naive_solver].
    setoid_rewrite elem_of_cons. naive_solver.
Qed.

Lemma filter_cond_Matches db f r :
  WF db → r ∈ events db → one_letter f → filter_cond db f r = matches_fields f (r_raw r).
Proof.
  intros Hwf Hr Hone. unfold filter_cond, matches_fields.
  destruct (row_fields db r Hwf Hr) as (E1 & E2 & E3 & E4 & _). rewrite <-E1, <-E2, <-E3, <-E4.
  f_equal. apply eq_true_iff_eq. rewrite !forallb_elem.
  assert (∀ kv, kv ∈ map_to_list (FTags f) →
    (has_tag db (r_id r) kv.1 kv.2 = true ↔ tagMatch (r_raw r) kv.1 kv.2 = true)) as Hkv.
  { intros [n vs] Hin%elem_of_map_to_list. unfold tagMatch.
    rewrite tag_match_spec. apply has_tag_spec; [done..|]. by eapply Hone. }
  split; intros H kv Hin; by apply Hkv, H.
Qed.

(** C26: on a well-formed database a parsed filter without search terms selects
    by SQL exactly the rows whose event [Matches] it in memory: the stored
    backlog and the live subscription agree on every filter. *)
Theorem where_agrees_with_Matches `{GoFTS, GoUnicode} j f db opts r :
  ParseFilter_value j = Ok f → WF db → r ∈ events db → SearchTerms (Search f) = [] →
  where_cond db f opts r
  = cursor_cond (Q_Before opts) r && Matches f (r_raw r)
    && live_cond db (Q_Now opts) r && access_cond db (Q_Access opts) r.
Proof.
  intros Hp Hwf Hr Hs. unfold where_cond, search_cond, Matches. rewrite Hs. cbn.
  rewrite (filter_cond_Matches db f r Hwf Hr (ParseFilter_one_letter _ _ Hp)), !andb_true_r. done.
Qed.

(** ** Sorting and paging *)

Definition row_before (a b : EventRow) : Prop :=
  key_before (r_created a) (r_id a) (r_created b) (r_id b) = true.

#[export] Instance row_before_trans : Transitive row_before.
Proof. intros a b c. apply key_before_trans. Qed.

#[export] Instance row_before_antisymm : AntiSymm (=) row_before.
Proof. intros a b H1 H2. unfold row_before in *. by rewrite (key_before_asym _ _ _ _ H1) in H2. Qed.

Lemma row_leb_key a b : row_leb a b = negb (key_before (r_created b) (r_id b) (r_created a) (r_id a)).
Proof.
  unfold row_leb, key_before. destruct (Z.ltb_spec (r_created b) (r_created a)), (Z.eqb_spec (r_created a) (r_created b)),
    (Z.ltb_spec (r_created a) (r_created b)), (Z.eqb_spec (r_created b) (r_created a)); cbn; try done; lia.
Qed.

#[export] Instance newest_first_total : Total newest_first.
Proof.
  intros a b. unfold newest_first. rewrite !row_leb_key, !negb_true_iff.
  destruct (key_before (r_created b) (r_id b) (r_created a) (r_id a)) eqn:E; [|auto].
  right. by apply key_before_asym.
Qed.

#[export] Instance newest_first_trans : Transitive newest_first.
Proof.
  intros a b c. unfold newest_first. rewrite !row_leb_key, !negb_true_iff. intros H1 H2.
  destruct (key_trichotomy (r_created b) (r_id b) (r_created a) (r_id a)) as [E|[[Ec Ei]|E]].
  - by rewrite E in H1.
  - by rewrite <-Ec, <-Ei.
  - destruct (key_trichotomy (r_created c) (r_id c) (r_created b) (r_id b)) as [E'|[[Ec Ei]|E']].
    + by rewrite E' in H2.
    + by rewrite Ec, Ei.
    + apply key_before_asym. by eapply key_before_trans.
Qed.

Lemma strict_sorted (l : list EventRow) :
  NoDup (r_id <$> l) → StronglySorted newest_first l → StronglySorted row_before l.
Proof.
  intros Hnd. induction 1 as [|r l Hl IH Hr]; [constructor|].
  cbn in Hnd. apply NoDup_cons in Hnd as [Hni Hnd]. constructor; [by apply IH|].
  rewrite Forall_forall in *. intros r' Hr'. specialize (Hr r' Hr').
  unfold newest_first in Hr. rewrite row_leb_key, negb_true_iff in Hr. unfold row_before.
  destruct (key_trichotomy (r_created r) (r_id r) (r_created r') (r_id r')) as [E|[[_ E]|E]];
    [done| |by rewrite E in Hr].
  destruct Hni. rewrite E. by apply list_elem_of_fmap_2.
Qed.

Section Pages.
Context `{GoFTS}.

Lemma query_rows_perm db f opts :
  query_rows db f opts ≡ₚ List.filter (where_cond db f opts) (events db).
Proof. apply merge_sort_Permutation. Qed.

Lemma query_rows_sorted db f opts : WF db → StronglySorted row_before (query_rows db f opts).
Proof.
  intros Hwf. apply strict_sorted.
  - rewrite query_rows_perm. eapply sublist_NoDup; [apply (wf_ids _ Hwf)|apply lfilter_fmap_sublist].
  - unfold query_rows. apply (StronglySorted_merge_sort newest_first).
Qed.

Lemma elem_of_query_rows db f opts r :
  r ∈ query_rows db f opts ↔ r ∈ events db ∧ where_cond db f opts r = true.
Proof. rewrite query_rows_perm. apply elem_of_lfilter. Qed.

Lemma scan_rows_limit n rows acc :
  Z.of_nat (List.length acc) ≤ n →
  scan_rows (Some n) rows acc
  = mkQueryResult (acc ++ take (Z.to_nat n - List.length acc) (r_raw <$> rows))
      (n - Z.of_nat (List.length acc) <? Z.of_nat (List.length rows)).
Proof.
  revert acc. induction rows as [|r rows IH]; intros acc Hacc; cbn [scan_rows List.length].
  - rewrite fmap_nil, take_nil, app_nil_r. f_equal. symmetry. apply Z.ltb_ge. lia.
  - destruct (Z.eqb_spec (Z.of_nat (List.length acc)) n) as [E|E].
    + replace (Z.to_nat n - List.length acc)%nat with 0%nat by lia.
      rewrite take_0, app_nil_r. f_equal. symmetry. apply Z.ltb_lt. lia.
    + rewrite IH by (rewrite length_app; cbn; lia). rewrite length_app. cbn [List.length].
      rewrite fmap_cons.
      replace (Z.to_nat n - List.length acc)%nat with (S (Z.to_nat n - (List.length acc + 1)))%nat by lia.
      cbn [take]. rewrite <-app_assoc. f_equal. apply eq_true_iff_eq. rewrite !Z.ltb_lt. rewrite Nat2Z.inj_add, Nat2Z.inj_succ. split; lia.
Qed.

Lemma scan_rows_all rows acc : scan_rows None rows acc = mkQueryResult (acc ++ (r_raw <$> rows)) false.
Proof.
  revert acc. induction rows as [|r rows IH]; intros acc; cbn; [by rewrite app_nil_r|].
  rewrite IH. by rewrite <-app_assoc.
Qed.

Lemma query_limit_pos f opts n : query_limit f opts = Some n → 0 ≤ n.
Proof. unfold query_limit. case_match; [|done]. intros [= <-]. destruct (Z.ltb_spec (match Limit f with Some m => if (Q_Limit opts <=? 0) || (m <? Q_Limit opts) then m else Q_Limit opts | None => Q_Limit opts end) 0); lia. Qed.

Lemma scan_rows_elem limit rows : ∀ acc e, e ∈ R_Events (scan_rows limit rows acc) → e ∈ acc ∨ e ∈ r_raw <$> rows.
Proof.
  induction rows as [|r rows IH]; intros acc e; cbn [scan_rows]; [auto|]. case_match; [cbn; auto|].
  intros [Ha|Hr]%IH; [|right; rewrite fmap_cons; by apply list_elem_of_further].
  apply elem_of_app in Ha as [?|Hx]; [auto|]. apply list_elem_of_singleton in Hx as ->. right. rewrite fmap_cons. apply list_elem_of_here.
Qed.

Lemma elem_sql_limit {A} n (l : list A) x : x ∈ sql_limit n l → x ∈ l.
Proof. unfold sql_limit. destruct (n <? 0); [done|]. apply subseteq_take. Qed.

(** Whatever its limit, a query returns rows it matches. *)
Lemma Query_sound db f opts e :
  e ∈ R_Events (Query db f opts) → ∃ r, r ∈ events db ∧ r_raw r = e ∧ where_cond db f opts r = true.
Proof.
  unfold Query. intros He.
  assert (e ∈ r_raw <$> query_rows db f opts) as (r & -> & Hr)%list_elem_of_fmap.
  { case_match; apply scan_rows_elem in He as [He|He]; [by apply not_elem_of_nil in He| |by apply not_elem_of_nil in He|done].
    apply list_elem_of_fmap in He as (r & -> & Hr%elem_sql_limit). by apply list_elem_of_fmap_2. }
  apply elem_of_query_rows in Hr as [? ?]. eauto.
Qed.

(** A limited query is the prefix of the sorted matches. *)
Lemma Query_prefix db f opts n :
  query_limit f opts = Some n → n ≤ int64_max →
  Query db f opts
  = mkQueryResult (take (Z.to_nat n) (r_raw <$> query_rows db f opts))
      (n <? Z.of_nat (List.length (query_rows db f opts))).
Proof.
  intros Hl Hn. pose proof (query_limit_pos _ _ _ Hl) as H0. unfold Query. rewrite Hl.
  rewrite scan_rows_limit by (cbn; lia). cbn [List.length]. rewrite Nat.sub_0_r, Z.sub_0_r.
  set (rows := query_rows db f opts).
  assert (sql_limit (wrap64 (n + 1)) rows = take (Z.to_nat (n + 1)) rows
          ∨ sql_limit (wrap64 (n + 1)) rows = rows) as Hlim.
  { unfold sql_limit, wrap64, int64_max in *. case_match eqn:E; [by right|left].
    f_equal. apply Z.ltb_ge in E. f_equal.
    rewrite Z.mod_small; [lia|]. split; [lia|].
    destruct (Z.eq_dec n 9223372036854775807) as [->|]; [|lia]. by vm_compute in E. }
  destruct Hlim as [E|E]; rewrite E; [|done]. cbn [app]. f_equal.
  - rewrite <-!fmap_take, take_take. by replace (Z.to_nat n `min` Z.to_nat (n + 1))%nat with (Z.to_nat n) by lia.
  - apply eq_true_iff_eq. rewrite !Z.ltb_lt, length_take. lia.
Qed.

(** A query returns the matching events, newest first and by
    identifier, cut at the limit; [More] says exactly whether something was
    cut off. *)
Theorem Query_page db f opts n :
  WF db → query_limit f opts = Some n → n ≤ int64_max →
  ∃ rows, rows ≡ₚ List.filter (where_cond db f opts) (events db) ∧
    StronglySorted row_before rows ∧
    R_Events (Query db f opts) = r_raw <$> take (Z.to_nat n) rows ∧
    (R_More (Query db f opts) = true ↔ drop (Z.to_nat n) rows ≠ []).
Proof.
  intros Hwf Hl Hn. exists (query_rows db f opts). rewrite (Query_prefix _ _ _ _ Hl Hn).
  pose proof (query_limit_pos _ _ _ Hl).
  split_and!; [apply query_rows_perm|by apply query_rows_sorted|by rewrite fmap_take|].
  cbn [R_More]. rewrite Z.ltb_lt. rewrite <-length_zero_iff_nil, length_drop. lia.
Qed.

Lemma sorted_app_last (l k : list EventRow) x r :
  StronglySorted row_before ((l ++ [x]) ++ k) →
  r ∈ k ↔ r ∈ (l ++ [x]) ++ k ∧ row_before x r.
Proof.
  intros Hs. rewrite <-app_assoc in *. cbn in *. split.
  - intros Hr. split; [set_solver|]. revert Hs. induction l as [|y l IH]; cbn; intros Hs;
      inversion Hs as [|? ? Hs' Hall]; subst; [|by apply IH].
    rewrite Forall_forall in Hall. by apply Hall.
  - intros [Hr Hx]. rewrite elem_of_app, elem_of_cons in Hr. destruct Hr as [Hr|[->|Hr]]; [| |done].
    + exfalso. induction l as [|y l IH]; [by apply not_elem_of_nil in Hr|].
      cbn in Hs. inversion Hs as [|? ? Hs' Hall]; subst.
      apply elem_of_cons in Hr as [->|Hr]; [|by apply IH].
      rewrite Forall_forall in Hall. assert (row_before y x) as Hyx by (apply Hall; set_solver).
      unfold row_before in *. by rewrite (key_before_asym _ _ _ _ Hx) in Hyx.
    + unfold row_before in Hx. by rewrite key_before_irrefl in Hx.
Qed.

(** The options of the next page: the cursor of the last event read. *)
Definition next_page (opts : QueryOptions) (e : Event) : QueryOptions :=
  mkQueryOptions (Q_Now opts) (Q_Access opts) (Q_Limit opts) (Some (mkCursor (CreatedAt e) (ID e))).

Lemma next_rows db f opts page x rest :
  WF db → query_rows db f opts = (page ++ [x]) ++ rest →
  query_rows db f (next_page opts (r_raw x)) = rest.
Proof.
  intros Hwf E. pose proof (query_rows_sorted db f opts Hwf) as Hs. rewrite E in Hs.
  assert (x ∈ query_rows db f opts) as [Hx Hxc]%elem_of_query_rows by (rewrite E; set_solver).
  destruct (row_fields db x Hwf Hx) as (E1 & _ & E3 & _).
  assert (StronglySorted row_before rest) as Hrest.
  { clear -Hs. induction (page ++ [x]) as [|y l IH]; cbn in Hs; [done|].
    inversion Hs; subst. by apply IH. }
  pose proof (query_rows_sorted db f (next_page opts (r_raw x)) Hwf) as Hs'.
  apply (StronglySorted_unique row_before); [done..|].
  apply NoDup_Permutation.
  - rewrite query_rows_perm. eapply sublist_NoDup; [|apply lfilter_sublist].
    apply (NoDup_fmap_1 r_id), (wf_ids _ Hwf).
  - eapply (NoDup_fmap_1 r_id).
    assert (NoDup (r_id <$> query_rows db f opts)) as Hnd.
    { rewrite query_rows_perm. eapply sublist_NoDup; [apply (wf_ids _ Hwf)|apply lfilter_fmap_sublist]. }
    rewrite E, fmap_app in Hnd. by apply NoDup_app in Hnd as (_ & _ & ?).
  - intros r. rewrite (sorted_app_last page rest x r Hs), <-E, !elem_of_query_rows.
    unfold where_cond in *. cbn [Q_Before Q_Now Q_Access next_page cursor_cond C_CreatedAt C_ID].
    rewrite <-E1, <-E3.
    assert ((r_created r <? r_created x) || (r_created r =? r_created x) && str_ltb (r_id x) (r_id r)
            = key_before (r_created x) (r_id x) (r_created r) (r_id r)) as ->.
    { unfold key_before. by rewrite (Z.eqb_sym (r_created x)). }
    assert (row_before x r → cursor_cond (Q_Before opts) r = true) as Hc.
    { intros Hb. rewrite !andb_true_iff in Hxc. destruct Hxc as ((((Hxc & _) & _) & _) & _).
      destruct (Q_Before opts) as [c|]; [|done]. cbn in *.
      assert (∀ y, (r_created y <? C_CreatedAt c) || (r_created y =? C_CreatedAt c) && str_ltb (C_ID c) (r_id y)
            = key_before (C_CreatedAt c) (C_ID c) (r_created y) (r_id y)) as Hk.
      { intros y. unfold key_before. by rewrite (Z.eqb_sym (C_CreatedAt c)). }
      rewrite Hk in *. by eapply key_before_trans. }
    unfold row_before in *. rewrite !andb_true_iff. tauto.
Qed.

(** Reading on with the cursor of a page's last event returns exactly the
    events after that page: pages neither skip nor repeat an event. *)
Theorem Query_next_page db f opts n e :
  WF db → query_limit f opts = Some n → n ≤ int64_max →
  last (R_Events (Query db f opts)) = Some e →
  R_Events (Query db f (next_page opts e))
  = r_raw <$> take (Z.to_nat n) (drop (Z.to_nat n) (query_rows db f opts)).
Proof.
  intros Hwf Hl Hn Hlast.
  rewrite (Query_prefix db f opts n Hl Hn) in Hlast. cbn [R_Events] in Hlast.
  rewrite <-fmap_take, fmap_last, fmap_Some in Hlast. destruct Hlast as (x & Hx & ->).
  apply last_Some in Hx as [page Hpage].
  assert (query_rows db f opts = (page ++ [x]) ++ drop (Z.to_nat n) (query_rows db f opts)) as E.
  { rewrite <-Hpage. by rewrite take_drop. }
  rewrite (Query_prefix db f (next_page opts (r_raw x)) n Hl Hn). cbn [R_Events].
  rewrite (next_rows db f opts _ _ _ Hwf E). by rewrite fmap_take.
Qed.

(** Without the admin override, a query never returns a direct message,
    seal, gift wrap or Nostr Connect event to someone who is neither its
    author nor (except for seals) a recipient, nor a push registration to
    anyone but its author. *)
Theorem Query_private db f opts n e :
  WF db → query_limit f opts = Some n → n ≤ int64_max → A_All (Q_Access opts) = false →
  IncludeCallbackRegistrations (Q_Access opts) = false →
  e ∈ R_Events (Query db f opts) → IsPrivate (Kind e) = true →
  PubKey e ∈ A_PubKeys (Q_Access opts) ∨
  Kind e ≠ 13 ∧ Kind e ≠ KIND_PUSH_REGISTRATION ∧
    ∃ p, p ∈ A_PubKeys (Q_Access opts) ∧ p ∈ TagValues e "p".
Proof.
  intros Hwf Hl Hn HA HC He Hp. rewrite (Query_prefix _ _ _ _ Hl Hn) in He. cbn [R_Events] in He.
  rewrite <-fmap_take in He. apply list_elem_of_fmap in He as (r & -> & Hr).
  apply (λ h, elem_of_sublist _ _ _ h (sublist_take _ _)) in Hr.
  apply elem_of_query_rows in Hr as [Hr Hw].
  destruct (row_fields db r Hwf Hr) as (_ & E2 & _ & E4 & _).
  unfold where_cond in Hw. apply andb_true_iff in Hw as [_ Hacc]. unfold access_cond in Hacc.
  rewrite HA, HC in Hacc. cbn [orb] in Hacc. rewrite <-E2, <-E4 in *.
  rewrite andb_true_iff, !orb_true_iff, andb_true_iff, !negb_true_iff, !contains_spec in Hacc.
  destruct Hacc as [Hpush Hpriv]. destruct Hpriv as [[Hk|Ha]|[Hk13 Htag]]; [|by left|].
  - destruct Hpush as [Hnp|Ha]; [|by left]. exfalso.
    apply not_true_iff_false in Hk. rewrite containsInt_spec, !elem_of_cons in Hk.
    unfold IsPrivate, KIND_WRAP, KIND_NOSTR_CONNECT in Hp.
    rewrite !orb_true_iff, !Z.eqb_eq in Hp. apply Z.eqb_neq in Hnp. tauto.
  - destruct Hpush as [Hnp|Ha]; [|by left]. right.
    apply Z.eqb_neq in Hnp. apply Z.eqb_neq in Hk13. split_and!; [done..|].
    by apply (has_tag_spec db r "p" _ Hwf Hr eq_refl).
Qed.
End Pages.
