(* ===== verification/StoreSave.v ===== *)
(** * internal/storage: the outcome of a save

    Which saves are accepted and what they change, and the convergence of
    replaceable events: whatever the order in which the versions of an address
    arrive, the newest one (ties broken by the lower identifier) is stored. *)

From S2P Require Import Prelude GoLib GoCodec GoLemmas Nostr NostrProps Filter Store StoreQuery StoreAdmin StoreInv.

Lemma newer_row_key e r :
  newer_row e r = key_before (r_created r) (r_id r) (CreatedAt e) (ID e).
Proof. done. Qed.

Definition holds_id (db : DB) (id : string) : bool := existsb (λ r, String.eqb (r_id r) id) (events db).

(** The rejections of [SaveTx], in the order of the code. *)
Definition save_refusal (db : DB) (e : Event) : result unit :=
  first_err [guard_err (holds_id db (ID e)) ErrDuplicate;
    guard_err (match vanished db !! PubKey e with Some u => CreatedAt e <=? u | None => false end) ErrVanished;
    checkDeleted db e;
    guard_err (replaces (Kind e) && existsb (newer_row e)
      (List.filter (at_address (PubKey e) (Kind e) (d_of e)) (events db))) ErrReplaced].

Lemma deletion_fold_ids e l db id :
  holds_id db id = false → holds_id (fold_left (deletion_tag e) l db) id = false.
Proof.
  intros H. apply (fold_left_inv (λ db, holds_id db id = false)); [done|].
  intros db' tag Hd. unfold deletion_tag. repeat case_match; try done.
  unfold holds_id in *. rewrite existsb_elem_false in *. intros r Hr. apply Hd.
  by apply applyDeletion_frame in Hr.
Qed.

Lemma Save_cases db e opts :
  IsEphemeral (Kind e) = false → BeforeCommit opts = None →
  match save_refusal db e with
  | Err m => Save db e opts = (db, Err m)
  | Ok _ => ∃ db' rest seq, Save db e opts = (db', Ok (mkSaveResult seq false)) ∧
      events db' = rest ++ [event_row seq e] ∧ rest `sublist_of` events db ∧
      (Kind e ≠ 5 → rest = if replaces (Kind e)
         then List.filter (λ r, negb (at_address (PubKey e) (Kind e) (d_of e) r)) (events db)
         else events db)
  end.
Proof.
  intros Hk Hb. unfold Save, SaveTx, checkSave. rewrite Hk, Hb. unfold save_refusal.
  fold (holds_id db (ID e)). unfold first_err, guard_err.
  destruct (holds_id db (ID e)) eqn:Hid; [done|].
  destruct (match vanished db !! PubKey e with Some u => _ | None => _ end); [done|].
  destruct (checkDeleted db e) as [[]|m] eqn:Hcd; [|done]. cbn [mbind result_bind].
  assert (∀ db1, replaceOrDelete db e (Now opts) = Ok db1 → holds_id db1 (ID e) = false →
    ∃ seq, insertEvent db1 e (SearchMode opts)
      = Ok (mkDB (events db1 ++ [event_row seq e]) (seq + 1)
          (tags db1 ++ tag_rows (ID e) (etags e))
          (search db1 ++ if negb (String.eqb (Content e) "") && indexed (Kind e) (SearchMode opts)
                        then [(seq, Content e)] else [])
          (vanished db1) (deletions db1) (hidden db1) (pending db1) (marmot db1) (history db1)
          (wiki db1) (grants db1) (settings db1) (intents db1), seq)) as Hins.
  { intros db1 _ Hh. exists (next_seq db1). unfold insertEvent. fold (holds_id db1 (ID e)).
    by rewrite Hh. }
  unfold replaceOrDelete. fold (replaces (Kind e)). destruct (replaces (Kind e)) eqn:Hr; cbn [andb].
  - destruct (replace db e (Now opts)) as [db1|m] eqn:Erep.
    + pose proof (replace_Ok _ _ _ _ Erep) as (Hn & He & _). rewrite Hn.
      assert (holds_id db1 (ID e) = false) as Hid1.
      { unfold holds_id in *. rewrite existsb_elem_false in *. intros r Hin. apply Hid.
        rewrite He in Hin. by apply elem_of_lfilter in Hin as [? _]. }
      destruct (Hins db1) as [seq Hseq];
        [unfold replaceOrDelete; fold (replaces (Kind e)); by rewrite Hr|done|].
      cbn [mbind result_bind]. rewrite Hseq. cbn.
      do 3 eexists. split; [reflexivity|]. cbn. split; [reflexivity|].
      rewrite He. split; [apply lfilter_sublist|done].
    + unfold replace in Erep. apply guard_bind_Err in Erep as [[-> <-]|[_ Erep]]; done.
  - assert (holds_id (if negb (Kind e =? 5) then db else fold_left (deletion_tag e) (etags e) db) (ID e) = false) as Hid1.
    { destruct (negb (Kind e =? 5)); [done|]. by apply deletion_fold_ids. }
    assert (replaceOrDelete db e (Now opts)
      = Ok (if negb (Kind e =? 5) then db else fold_left (deletion_tag e) (etags e) db)) as Erd.
    { unfold replaceOrDelete. fold (replaces (Kind e)). rewrite Hr. by destruct (negb (Kind e =? 5)). }
    destruct (Hins _ Erd Hid1) as [seq Hseq].
    assert (events (if negb (Kind e =? 5) then db else fold_left (deletion_tag e) (etags e) db)
              `sublist_of` events db) as Hsub.
    { destruct (negb (Kind e =? 5)); [done|]. apply (fold_left_inv (λ d, events d `sublist_of` events db)); [done|].
      intros d t Hd. etransitivity; [|exact Hd]. apply deletion_tag_sublist. }
    destruct (negb (Kind e =? 5)) eqn:E5; cbn [mbind result_bind mret result_ret];
      cbv iota in Hseq; rewrite Hseq; cbn;
      do 3 eexists; (split; [reflexivity|]); cbn; (split; [reflexivity|]); (split; [exact Hsub|]); try done.
    intros Hne. apply negb_false_iff, Z.eqb_eq in E5. done.
Qed.

Lemma replaceOrDelete_next db e now db' : replaceOrDelete db e now = Ok db' → next_seq db' = next_seq db.
Proof.
  unfold replaceOrDelete. case_match; [intros (_ & _ & _ & _ & E & _)%replace_Ok; exact E|].
  case_match; intros [= <-]; [done|]. apply (fold_left_inv (λ d, next_seq d = next_seq db)); [done|].
  intros d [|n [|v tag]] Hd; [done..|]. unfold deletion_tag. destruct (String.eqb n "e" || _); [|done].
  destruct (applyDeletion_frame d e n v) as (_ & _ & _ & E & _). by rewrite E.
Qed.

(** A saved event takes the next number of the sequence. *)
Lemma Save_next db e opts db' res :
  IsEphemeral (Kind e) = false → BeforeCommit opts = None → Save db e opts = (db', Ok res) →
  Sequence res = next_seq db ∧ next_seq db' = next_seq db + 1.
Proof.
  intros Hk Hb. unfold Save, WithTx. destruct (SaveTx db e opts) as [[d r]|m] eqn:E; [|done]. intros [= <- <-].
  destruct (SaveTx_Ok _ _ _ _ _ E Hk) as (db1 & db2 & _ & Hr & Hi & Hh). rewrite Hb in Hh. injection Hh as <-.
  apply replaceOrDelete_next in Hr. unfold insertEvent in Hi. apply guard_bind_Ok in Hi as [_ Hi]. cbv zeta in Hi. apply (inj Ok) in Hi.
  pose proof (f_equal snd Hi) as H2. apply (f_equal fst) in Hi. cbn in Hi, H2. subst db2. cbn. by rewrite <-H2, Hr.
Qed.

(** C25: without a commit hook a save of a stored kind succeeds exactly when none of
    the refusals applies; it then appends the event as the last row, under the next
    number of the sequence, which moves on by one, after the rows that were there:
    without the older versions at its address when its kind is replaced, without some
    when it is a deletion, all of them otherwise.  A refused save changes nothing. *)
Theorem Save_outcome db e opts :
  IsEphemeral (Kind e) = false → BeforeCommit opts = None →
  match save_refusal db e with
  | Err m => Save db e opts = (db, Err m)
  | Ok _ => ∃ db' rest, Save db e opts = (db', Ok (mkSaveResult (next_seq db) false)) ∧
      events db' = rest ++ [event_row (next_seq db) e] ∧ next_seq db' = next_seq db + 1 ∧ rest `sublist_of` events db ∧
      (Kind e ≠ 5 → rest = if replaces (Kind e)
         then List.filter (λ r, negb (at_address (PubKey e) (Kind e) (d_of e) r)) (events db)
         else events db)
  end.
Proof.
  intros Hk Hb. pose proof (Save_cases db e opts Hk Hb) as Hc. destruct (save_refusal db e); [|done].
  destruct Hc as (db' & rest & seq & Hs & He & Hsub & Hrest). destruct (Save_next _ _ _ _ _ Hk Hb Hs) as [Hseq Hn]. cbn in Hseq. subst seq.
  by exists db', rest.
Qed.

(** ** Convergence of replaceable events *)

Lemma existsb_split {A} (p q : A → bool) (l : list A) :
  existsb q l = existsb q (List.filter (λ x, negb (p x)) l) || existsb q (List.filter p l).
Proof.
  induction l as [|x l IH]; [done|]. cbn. destruct (p x); cbn; rewrite IH, ?orb_assoc; [|done].
  by rewrite (orb_comm (q x)).
Qed.

Section Address.
Context (pk : string) (kind : Z) (d : string) (Hk : replaces kind = true).

(** The event has the address. *)
Definition of_address (e : Event) : Prop := PubKey e = pk ∧ Kind e = kind ∧ d_of e = d.

(** What the address holds, and the rows elsewhere. *)
Definition stored (db : DB) : list Event := r_raw <$> List.filter (at_address pk kind d) (events db).
Definition elsewhere (db : DB) : list EventRow :=
  List.filter (λ r, negb (at_address pk kind d r)) (events db).

(** The refusals that do not depend on what the address holds. *)
Definition admissible (db : DB) (e : Event) : bool :=
  negb (existsb (λ r, String.eqb (r_id r) (ID e)) (elsewhere db))
  && negb (match vanished db !! PubKey e with Some u => CreatedAt e <=? u | None => false end)
  && is_ok (checkDeleted db e).

Definition event_before (e c : Event) : Prop :=
  key_before (CreatedAt e) (ID e) (CreatedAt c) (ID c) = true.

Definition saves (opts : Event → SaveOptions) (db : DB) (l : list Event) : DB :=
  fold_left (λ db e, (Save db e (opts e)).1) l db.

(** [m] is the winner among [cands]. *)
Definition winner (cands : list Event) (m : list Event) : Prop :=
  match m with
  | [] => cands = []
  | [e] => e ∈ cands ∧ ∀ c, c ∈ cands → c = e ∨ event_before e c
  | _ => False
  end.

Lemma winner_unique cands cands' m m' :
  (∀ e, e ∈ cands ↔ e ∈ cands') → winner cands m → winner cands' m' → m = m'.
Proof.
  intros Hc H1 H2. destruct m as [|e [|]], m' as [|e' [|]]; cbn in *; try done.
  - subst. destruct H2 as [H2 _]. by apply Hc, not_elem_of_nil in H2.
  - subst. destruct H1 as [H1 _]. by apply Hc, not_elem_of_nil in H1.
  - destruct H1 as [He H1], H2 as [He' H2].
    destruct (H1 e') as [->|Hb]; [by apply Hc|done|].
    destruct (H2 e) as [->|Hb']; [by apply Hc|done|].
    unfold event_before in *. by rewrite (key_before_asym _ _ _ _ Hb) in Hb'.
Qed.

Lemma winner_ext cands cands' m :
  (∀ e, e ∈ cands' ↔ e ∈ cands) → winner cands m → winner cands' m.
Proof.
  intros Hc. destruct m as [|e [|]]; cbn; [|setoid_rewrite Hc; tauto|done].
  intros ->. destruct cands' as [|x l]; [done|]. pose proof (proj1 (Hc x) (list_elem_of_here _ _)) as H.
  by apply not_elem_of_nil in H.
Qed.

(** A candidate that loses to another one does not matter. *)
Lemma winner_loser cands c e m :
  event_before c e → winner (c :: cands) m → winner (e :: c :: cands) m.
Proof.
  intros Hce. destruct m as [|w [|]]; cbn; [done| |done]. intros [Hin Hall].
  split; [by apply list_elem_of_further|]. intros x [->|Hx]%elem_of_cons; [|by apply Hall].
  right. destruct (Hall c (list_elem_of_here _ _)) as [->|Hb]; [done|].
  unfold event_before in *. by eapply key_before_trans.
Qed.

Lemma kind_not_ephemeral e : of_address e → IsEphemeral (Kind e) = false.
Proof.
  intros (_ & -> & _). clear -Hk.
  unfold replaces, IsReplaceable, IsAddressable, IsEphemeral in *.
  rewrite !orb_true_iff, !andb_true_iff, !Z.eqb_eq, !Z.leb_le, !Z.ltb_lt in Hk.
  rewrite andb_false_iff, Z.leb_gt, Z.ltb_ge. lia.
Qed.

Lemma kind_not_deletion e : of_address e → Kind e ≠ 5.
Proof. intros (_ & -> & _) E. by rewrite E in Hk. Qed.

Lemma at_address_new seq e : of_address e → at_address pk kind d (event_row seq e) = true.
Proof. intros (? & ? & ?). by apply at_address_row. Qed.

Lemma stored_shape db :
  WF db → match stored db with [] | [_] => True | _ => False end.
Proof.
  intros Hwf. unfold stored.
  destruct (List.filter (at_address pk kind d) (events db)) as [|r1 [|r2 l]] eqn:E; cbn; try done.
  assert (r1 ∈ List.filter (at_address pk kind d) (events db)) as [H1 A1]%elem_of_lfilter by (rewrite E; set_solver).
  assert (r2 ∈ List.filter (at_address pk kind d) (events db)) as [H2 A2]%elem_of_lfilter by (rewrite E; set_solver).
  apply at_address_row in A1 as (P1 & K1 & D1).
  assert (r1 = r2) as ->.
  { apply (wf_unique _ Hwf); [done|done|by rewrite K1|by rewrite P1, K1, D1]. }
  assert (NoDup (r_id <$> r2 :: r2 :: l)) as Hnd.
  { rewrite <-E. eapply sublist_NoDup; [apply (wf_ids _ Hwf)|apply lfilter_fmap_sublist]. }
  apply NoDup_cons in Hnd as [[] _]. set_solver.
Qed.

(** One save at the address. *)
Lemma save_at_address db e opts :
  WF db → of_address e → wire_shape e → BeforeCommit opts = None →
  let db' := (Save db e opts).1 in
  WF db' ∧ elsewhere db' = elsewhere db ∧ vanished db' = vanished db ∧
  deletions db' = deletions db ∧
  stored db' = (if admissible db e && negb (existsb (λ c, String.eqb (ID c) (ID e)
      || key_before (CreatedAt c) (ID c) (CreatedAt e) (ID e)) (stored db))
    then [e] else stored db).
Proof.
  intros Hwf Ha He Hb. cbv zeta.
  pose proof (kind_not_ephemeral e Ha) as Hne. pose proof (kind_not_deletion e Ha) as Hn5.
  assert (WF (Save db e opts).1) as Hw'.
  { apply WF_Save; [done..|]. intros hook ? ? E. by rewrite Hb in E. }
  pose proof (Save_cases db e opts Hne Hb) as Hout.
  assert (is_ok (save_refusal db e) = admissible db e && negb (existsb (λ c, String.eqb (ID c) (ID e)
      || key_before (CreatedAt c) (ID c) (CreatedAt e) (ID e)) (stored db))) as <-.
  { unfold save_refusal, admissible. pose proof Ha as (Hp & Hkd & Hd). rewrite Hp, Hkd, Hd, Hk.
    set (here := List.filter (at_address pk kind d) (events db)).
    assert (holds_id db (ID e) = existsb (λ r, String.eqb (r_id r) (ID e)) (elsewhere db)
              || existsb (λ r, String.eqb (r_id r) (ID e)) here) as ->.
    { apply existsb_split. }
    assert (existsb (λ c, String.eqb (ID c) (ID e) || key_before (CreatedAt c) (ID c) (CreatedAt e) (ID e)) (stored db)
      = existsb (λ r, String.eqb (r_id r) (ID e)) here || existsb (newer_row e) here) as ->.
    { unfold stored. fold here. assert (∀ r, r ∈ here → r ∈ events db) as Hin
        by (intros r; unfold here; rewrite elem_of_lfilter; tauto).
      induction here as [|r l IH]; [done|]. cbn [existsb fmap list_fmap].
      destruct (row_fields db r Hwf (Hin r (list_elem_of_here _ _))) as (E1 & _ & E3 & _).
      rewrite IH by (intros r' Hr'; apply Hin; by apply list_elem_of_further).
      rewrite newer_row_key, <-E1, <-E3.
      destruct (String.eqb (r_id r) (ID e)), (key_before _ _ _ _),
        (existsb (λ r, String.eqb (r_id r) (ID e)) l); done. }
    destruct (existsb (λ r, String.eqb (r_id r) (ID e)) (elsewhere db)); [done|].
    destruct (match vanished db !! pk with Some _ => _ | None => _ end);
      [by destruct (existsb (λ r, String.eqb (r_id r) (ID e)) here)|].
    destruct (checkDeleted db e) as [[]|];
      destruct (existsb (λ r, String.eqb (r_id r) (ID e)) here); try done.
    cbn. by destruct (existsb (newer_row e) here). }
  split; [done|]. destruct (save_refusal db e) as [u|m].
  - destruct Hout as (db' & rest & seq & E & Hev & _ & Hrest). rewrite E. cbn [fst is_ok].
    specialize (Hrest Hn5). pose proof Ha as (Hp & Hkd & Hd). rewrite Hp, Hkd, Hd, Hk in Hrest.
    fold (elsewhere db) in Hrest.
    assert (vanished db' = vanished db ∧ deletions db' = deletions db) as [Hv Hdl].
    { unfold Save, WithTx in E. destruct (SaveTx db e opts) as [[db1 r1]|] eqn:Es; [|done].
      injection E as -> _.
      destruct (SaveTx_Ok _ _ _ _ _ Es Hne) as (dba & dbb & _ & Hr & Hi & Hh).
      rewrite Hb in Hh. apply (inj Ok) in Hh. subst db'.
      destruct (insertEvent_Ok _ _ _ _ _ Hi) as (_ & _ & Hd2 & Hv2).
      unfold replaceOrDelete in Hr. fold (replaces (Kind e)) in Hr. rewrite Hkd, Hk in Hr.
      destruct (replace_Ok _ _ _ _ Hr) as (_ & _ & Hv1 & Hd1 & _). cbn. by rewrite Hd2, Hv2, Hd1, Hv1. }
    split_and!; [|done|done|].
    + unfold elsewhere at 1. rewrite Hev, Hrest, lfilter_app. cbn. rewrite at_address_new by done.
      cbn. rewrite app_nil_r. apply lfilter_all. by intros r [_ ?]%elem_of_lfilter.
    + unfold stored. rewrite Hev, Hrest, lfilter_app. cbn. rewrite at_address_new by done.
      rewrite lfilter_none; [done|]. intros r [_ Hn]%elem_of_lfilter. by apply negb_true_iff.
  - rewrite Hout. done.
Qed.

Lemma saves_winner opts l db :
  WF db → Forall (λ e, of_address e ∧ wire_shape e) l → (∀ e, BeforeCommit (opts e) = None) →
  (∀ e c, e ∈ stored db ++ l → c ∈ stored db ++ l → ID e = ID c → e = c) →
  winner (stored db ++ List.filter (admissible db) l) (stored (saves opts db l)).
Proof.
  revert db. induction l as [|e l IH]; intros db Hwf Hl Ho Hinj; cbn [saves fold_left List.filter].
  - rewrite app_nil_r. pose proof (stored_shape db Hwf) as Hs.
    destruct (stored db) as [|c [|]]; cbn; try done. split; [apply list_elem_of_here|].
    intros c'. rewrite list_elem_of_singleton. by left.
  - apply Forall_cons in Hl as [[Ha Hw] Hl].
    destruct (save_at_address db e (opts e) Hwf Ha Hw (Ho e)) as (Hw' & Hels & Hv & Hd & Hst).
    set (db' := (Save db e (opts e)).1) in *.
    assert (∀ x, admissible db' x = admissible db x) as Hadm.
    { intros x. unfold admissible, checkDeleted. by rewrite Hels, Hv, Hd. }
    assert (∀ x, x ∈ stored db' ++ l → x ∈ stored db ++ e :: l) as Hsub.
    { intros x. rewrite Hst, !elem_of_app, elem_of_cons.
      destruct (_ && _); rewrite ?list_elem_of_singleton; tauto. }
    specialize (IH db' Hw' Hl Ho).
    assert (winner (stored db' ++ List.filter (admissible db') l) (stored (saves opts db' l))) as Hwin.
    { apply IH. intros x y Hx Hy. by apply Hinj; apply Hsub. }
    rewrite (lfilter_ext (admissible db') (admissible db)) in Hwin by done.
    fold (saves opts db' l). set (m := stored (saves opts db' l)) in *.
    pose proof (stored_shape db Hwf) as Hshape.
    destruct (admissible db e) eqn:Had; cbn [andb] in Hst.
    2: { by rewrite Hst in Hwin. }
    destruct (stored db) as [|c [|]] eqn:Es; [| |done]; cbn [existsb orb] in Hst.
    { cbn in Hst. by rewrite Hst in Hwin. }
    destruct (String.eqb_spec (ID c) (ID e)) as [Eid|Eid].
    { cbn in Hst.
      assert (c = e) as <- by (apply Hinj; [apply list_elem_of_here|apply list_elem_of_further, list_elem_of_here|done]).
      rewrite Hst in Hwin. eapply winner_ext; [|exact Hwin]. intros x. cbn. rewrite !elem_of_cons. tauto. }
    rewrite orb_false_r in Hst. cbn [orb] in Hst.
    destruct (key_before (CreatedAt c) (ID c) (CreatedAt e) (ID e)) eqn:Hkb; cbn in Hst; rewrite Hst in Hwin.
    + eapply winner_ext; [|exact (winner_loser _ c e _ Hkb Hwin)]. intros x. cbn. rewrite !elem_of_cons. tauto.
    + assert (key_before (CreatedAt e) (ID e) (CreatedAt c) (ID c) = true) as Hec.
      { destruct (key_trichotomy (CreatedAt e) (ID e) (CreatedAt c) (ID c)) as [|[[_ ?]|?]]; [done| |congruence].
        by destruct Eid. }
      exact (winner_loser _ e c _ Hec Hwin).
Qed.

(** C2: the stored version of a replaceable or addressable event does not
    depend on arrival order: any two orders of the same saves leave the same
    event at the address, the newest admissible one. *)
Theorem replaceable_convergence opts db l l' :
  WF db → Forall (λ e, of_address e ∧ wire_shape e) l → (∀ e, BeforeCommit (opts e) = None) →
  (∀ e c, e ∈ stored db ++ l → c ∈ stored db ++ l → ID e = ID c → e = c) →
  l ≡ₚ l' →
  stored (saves opts db l) = stored (saves opts db l') ∧
  winner (stored db ++ List.filter (admissible db) l) (stored (saves opts db l)).
Proof.
  intros Hwf Hl Ho Hinj Hp. pose proof (saves_winner opts l db Hwf Hl Ho Hinj) as H1.
  split; [|done]. eapply winner_unique; [|exact H1|apply saves_winner; [done| |done|]].
  - intros e. rewrite !elem_of_app, !elem_of_lfilter. by rewrite Hp.
  - by rewrite <-Hp.
  - intros e c. rewrite <-Hp. apply Hinj.
Qed.
End Address.
