(* ===== verification/StoreMaint.v ===== *)
(** * internal/storage: maintenance does what it says

    Expiry, retention and list history, and the deletions whose effect is
    narrower than their tombstone. *)

From S2P Require Import Prelude GoLib GoCodec GoLemmas Nostr NostrProps Filter Store StoreQuery StoreAdmin StoreInv StoreSave.
From S2P Require Import StoreProps.

(** ** Expiry *)

Lemma min_list_spec l : l ≠ [] → min_list l ∈ l ∧ ∀ x, x ∈ l → min_list l ≤ x.
Proof.
  induction l as [|x l IH]; [done|]. intros _. destruct l as [|y l].
  { cbn. split; [apply list_elem_of_here|]. intros z ->%list_elem_of_singleton. lia. }
  destruct (IH ltac:(done)) as [Hin Hmin]. change (min_list (x :: y :: l)) with (Z.min x (min_list (y :: l))).
  split.
  - destruct (Z.min_spec x (min_list (y :: l))) as [[_ ->]|[_ ->]];
      [apply list_elem_of_here|by apply list_elem_of_further].
  - intros z [->|Hz]%elem_of_cons; [lia|]. specialize (Hmin z Hz). lia.
Qed.

(** An expiry sweep removes exactly the rows expired by [now] and reports
    when to run next: zero when no remaining row expires, otherwise the
    earliest remaining expiration, which is later than [now]. *)
Theorem SweepExpired_spec db now :
  let '(db', next) := SweepExpired db now in
  events db' = List.filter (λ r, negb (expired now (r_expires r))) (events db) ∧
  (next = 0 → ∀ r, r ∈ events db' → r_expires r ≤ 0) ∧
  (next ≠ 0 → now < next ∧ (∃ r, r ∈ events db' ∧ r_expires r = next) ∧
     ∀ r, r ∈ events db' → 0 < r_expires r → next ≤ r_expires r).
Proof.
  unfold SweepExpired. cbv zeta.
  set (evs := List.filter (λ r, negb (expired now (r_expires r))) (events db)).
  change (events (set_history _ _)) with evs.
  set (exps := List.filter (λ x, 0 <? x) (r_expires <$> evs)).
  assert (∀ x, x ∈ exps ↔ 0 < x ∧ ∃ r, r ∈ evs ∧ r_expires r = x) as Hexps.
  { intros x. unfold exps. rewrite elem_of_lfilter, Z.ltb_lt, list_elem_of_fmap. naive_solver. }
  assert (∀ x, x ∈ exps → now < x) as Hnow.
  { intros x Hx. apply Hexps in Hx as (Hpos & r & Hr & <-).
    apply elem_of_lfilter in Hr as [_ Hr]. unfold expired in Hr.
    rewrite negb_true_iff, andb_false_iff, Z.ltb_ge, Z.leb_gt in Hr. lia. }
  split; [done|]. destruct exps as [|x l] eqn:E.
  - cbn. split; [|done]. intros _ r Hr.
    destruct (Z.le_gt_cases (r_expires r) 0) as [?|Hpos]; [done|].
    assert (r_expires r ∈ []) as Hn by (apply Hexps; split; [lia|by exists r]).
    by apply not_elem_of_nil in Hn.
  - destruct (min_list_spec (x :: l) ltac:(done)) as [Hin Hmin].
    pose proof (Hnow _ Hin) as Hlt. apply Hexps in Hin as (Hpos & r & Hr & Hre). split; [lia|].
    intros _. split_and!; [done|by exists r|]. intros r' Hr' Hp. apply Hmin, Hexps.
    split; [done|by exists r'].
Qed.

(** ** Retention *)

(** The rules and member limits that reach a row. *)
Definition rule_reaches (opts : RetentionOptions) (r : EventRow) (rule : RetentionRule) : Prop :=
  0 < RR_Days rule ∧ rule_cond opts rule r = true.
Definition member_reaches (opts : RetentionOptions) (r : EventRow) (m : MemberRetention) : Prop :=
  0 < MR_Days m ∧ r_pubkey r = MR_PubKey m ∧
  r_created r < wrap64 (RO_Now opts - wrap64 (MR_Days m * 86400)) ∧ keepableKinds (r_kind r) = true.

Lemma retention_fold {B} (f : DB * Z → B → DB * Z) (reach : EventRow → B → Prop) l st :
  (∀ st b, (∀ r, r ∈ events (f st b).1 ↔ r ∈ events st.1 ∧ ¬ reach r b) ∧
     (f st b).2 + Z.of_nat (List.length (events (f st b).1)) = st.2 + Z.of_nat (List.length (events st.1))) →
  (∀ r, r ∈ events (fold_left f l st).1 ↔ r ∈ events st.1 ∧ ∀ b, b ∈ l → ¬ reach r b) ∧
  (fold_left f l st).2 + Z.of_nat (List.length (events (fold_left f l st).1))
    = st.2 + Z.of_nat (List.length (events st.1)).
Proof.
  intros Hf. revert st. induction l as [|b l IH]; intros st; cbn [fold_left].
  - split; [|done]. intros r. split; [|tauto]. intros Hr. split; [done|]. by intros b ?%not_elem_of_nil.
  - destruct (IH (f st b)) as [H1 H2]. destruct (Hf st b) as [G1 G2]. split; [|lia].
    intros r. rewrite H1, G1. setoid_rewrite elem_of_cons. naive_solver.
Qed.

Lemma delete_count p db :
  (delete_events p db).2 + Z.of_nat (List.length (events (delete_events p db).1))
  = Z.of_nat (List.length (events db)).
Proof.
  cbn. induction (events db) as [|r l IH]; [done|]. cbn. destruct (p r); cbn [negb List.length]; lia.
Qed.

(** A retention sweep keeps a row exactly when no rule and no member limit
    in force reaches it, and its result counts the rows removed; the relay's
    own events, lists, room state and zap receipts are reached by none of the
    catch-all limits. *)
Theorem SweepRetention_spec db opts :
  let '(db', n) := SweepRetention db opts in
  (∀ r, r ∈ events db' ↔ r ∈ events db ∧ (∀ rule, rule ∈ RO_Rules opts → ¬ rule_reaches opts r rule) ∧
     (∀ m, m ∈ RO_Members opts → ¬ member_reaches opts r m)) ∧
  n = Z.of_nat (List.length (events db)) - Z.of_nat (List.length (events db')) ∧
  (∀ r rule, rule_reaches opts r rule → r_pubkey r ≠ RO_Identity opts) ∧
  (∀ r rule, RR_Kind rule < 0 → rule_reaches opts r rule → keepableKinds (r_kind r) = true).
Proof.
  destruct (SweepRetention db opts) as [db' n] eqn:E. unfold SweepRetention in E.
  destruct (retention_fold (retention_rule opts) (rule_reaches opts) (RO_Rules opts) (db, 0)) as [H1 H2].
  { intros st rule. unfold retention_rule, rule_reaches.
    destruct (Z.leb_spec (RR_Days rule) 0); [split; [intros r; split; [|tauto]; intros ?; split; [done|lia]|done]|].
    pose proof (delete_count (rule_cond opts rule) st.1).
    destruct (delete_events (rule_cond opts rule) st.1) as [d k] eqn:Ed. cbn [fst snd] in *. split; [|lia].
    intros r. change d with (d, k).1. rewrite <-Ed, elem_of_events_delete, <-not_true_iff_false.
    split; intros [? Hn]; (split; [done|]); [by intros [_ ?]|]. intros Ht. by apply Hn. }
  destruct (retention_fold (retention_member opts) (member_reaches opts) (RO_Members opts)
              (fold_left (retention_rule opts) (RO_Rules opts) (db, 0))) as [G1 G2].
  { intros st m. unfold retention_member, member_reaches.
    destruct (Z.leb_spec (MR_Days m) 0); [split; [intros r; split; [|tauto]; intros ?; split; [done|lia]|done]|].
    cbv zeta. set (p := λ r : EventRow, String.eqb (r_pubkey r) (MR_PubKey m)
      && (r_created r <? wrap64 (RO_Now opts - wrap64 (MR_Days m * 86400))) && keepableKinds (r_kind r)).
    pose proof (delete_count p st.1).
    destruct (delete_events p st.1) as [d k] eqn:Ed. cbn [fst snd] in *.
    change (events (set_history _ d)) with (events d). split; [|lia].
    intros r. change d with (d, k).1. rewrite <-Ed, elem_of_events_delete, <-not_true_iff_false. unfold p.
    rewrite !andb_true_iff, String.eqb_eq, Z.ltb_lt. naive_solver. }
  rewrite E in G1, G2. cbn [fst snd] in *. split_and!.
  - intros r. rewrite G1, H1. tauto.
  - lia.
  - intros r rule [_ Hc] Hid. unfold rule_cond in Hc. rewrite Hid, String.eqb_refl in Hc.
    rewrite andb_false_r in Hc. done.
  - intros r rule Hk [_ Hc]. unfold rule_cond in Hc. rewrite (proj2 (Z.ltb_lt _ _) Hk) in Hc.
    rewrite !andb_true_iff in Hc. tauto.
Qed.

(** ** List history *)

Lemma insert_or_ignore_elem {A} (same : A → A → bool) rows table x :
  x ∈ rows → (∀ y, y ∈ table ++ rows → same x y = true → y = x) → same x x = true →
  (∀ y z, same y z = same z y) →
  x ∈ insert_or_ignore same rows table.
Proof.
  intros Hx Hu Hr Hs. assert (x ∈ table ++ rows) as Hin by set_solver. clear Hx. revert table Hu Hin.
  induction rows as [|y rows IH]; intros table Hu Hin; cbn; [by rewrite app_nil_r in Hin|].
  destruct (existsb (same y) table) eqn:E; apply IH.
  - intros z Hz. apply Hu. set_solver.
  - apply elem_of_app in Hin as [?|Hin]; [set_solver|].
    apply elem_of_cons in Hin as [->|?]; [|set_solver].
    apply existsb_elem in E as (z & Hz & Hyz). rewrite (Hu z) in Hz by (done || set_solver). set_solver.
  - intros z Hz. apply Hu. set_solver.
  - set_solver.
Qed.

Lemma insert_or_ignore_only {A} (same : A → A → bool) rows table x :
  x ∈ insert_or_ignore same rows table → x ∈ table ∨ x ∈ rows.
Proof.
  revert table. induction rows as [|y rows IH]; intros table; cbn; [by left|].
  intros [H|H]%IH; [|right; set_solver]. destruct (existsb (same y) table); set_solver.
Qed.

Lemma isListKind_replaces k : isListKind k = true → replaces k = true.
Proof.
  unfold isListKind. rewrite !orb_true_iff, !Z.eqb_eq. by intros [[[->| ->]| ->]| ->].
Qed.

(** Replacing a contact, relay, bookmark or bookmark-set list keeps the
    replaced version: the owner can restore it as a draft with its kind, tags
    and content while it has not expired. *)
Theorem list_history_restores `{GoFTS} db e opts db' res r now :
  WF db → isListKind (Kind e) = true → BeforeCommit opts = None →
  Save db e opts = (db', Ok res) →
  r ∈ events db → at_address (PubKey e) (Kind e) (d_of e) r = true →
  (∀ h, h ∈ history db → h_event h ≠ r_id r) →
  r_expires r = 0 ∨ now < r_expires r →
  ∃ draft diff, RestoreHistory db' (PubKey e) (r_id r) now = Ok (draft, diff) ∧
    D_Kind draft = Kind e ∧ D_Tags draft = Tags (r_raw r) ∧ D_Content draft = Content (r_raw r).
Proof.
  intros Hwf Hlist Hb Hsave Hr Ha Hnew Hlive.
  pose proof (isListKind_replaces _ Hlist) as Hrep.
  assert (List.filter (at_address (PubKey e) (Kind e) (d_of e)) (events db) = [r]) as Hhere.
  { pose proof (stored_shape (PubKey e) (Kind e) (d_of e) Hrep db Hwf) as Hs. unfold stored in Hs.
    assert (r ∈ List.filter (at_address (PubKey e) (Kind e) (d_of e)) (events db)) as Hin
      by by apply elem_of_lfilter.
    destruct (List.filter _ _) as [|r1 [|]]; cbn in Hs; [by apply not_elem_of_nil in Hin| |done].
    by apply list_elem_of_singleton in Hin as ->. }
  set (hr := mkHist (r_pubkey r) (r_kind r) (r_d r) (r_id r) (r_created r) (Now opts) (r_expires r) (r_raw r)).
  assert (history db' = history db ++ [hr]) as Hhist.
  { assert (IsEphemeral (Kind e) = false) as Hne by (eapply (kind_not_ephemeral _ _ _ Hrep); by split_and!).
    unfold Save, WithTx in Hsave. destruct (SaveTx db e opts) as [[d1 r1]|] eqn:E; [|done].
    injection Hsave as -> _.
    destruct (SaveTx_Ok _ _ _ _ _ E Hne) as (db1 & db2 & _ & Hrd & Hi & Hh).
    rewrite Hb in Hh. apply (inj Ok) in Hh. subst db'. cbn [AddIntents set_intents history].
    assert (history db2 = history db1) as ->.
    { unfold insertEvent in Hi. apply guard_bind_Ok in Hi as [_ Hi]. cbv zeta in Hi.
      apply (inj Ok), (f_equal fst) in Hi. cbn in Hi. by subst. }
    unfold replaceOrDelete in Hrd. fold (replaces (Kind e)) in Hrd. rewrite Hrep in Hrd.
    unfold replace in Hrd. cbv zeta in Hrd. rewrite Hhere, Hlist in Hrd.
    apply guard_bind_Ok in Hrd as [_ Hrd]. apply (inj Ok) in Hrd. subst db1.
    assert (existsb (same_hist hr) (history db) = false) as Hex.
    { apply existsb_elem_false. intros h Hin. unfold same_hist.
      rewrite !andb_false_iff. right. apply String.eqb_neq. intros E'. by apply (Hnew h Hin). }
    cbn [fmap list_fmap insert_or_ignore]. fold hr. rewrite Hex.
    by destruct (Kind e =? kindWikiArticle), (Kind e =? KIND_AGENT_GRANT). }
  apply at_address_row in Ha as (Hp & Hk & Hd).
  destruct (row_fields db r Hwf Hr) as (_ & _ & _ & Ek & _).
  unfold RestoreHistory. rewrite Hhist, lfilter_app.
  rewrite lfilter_none.
  2: { intros h Hin. rewrite (proj2 (String.eqb_neq _ _) (Hnew h Hin)). by rewrite andb_false_r. }
  cbn [app List.filter].
  assert (String.eqb (h_owner hr) (PubKey e) && String.eqb (h_event hr) (r_id r) && hist_live now hr = true) as ->.
  { cbn. rewrite Hp, !String.eqb_refl. cbn. unfold hist_live. cbn.
    rewrite orb_true_iff, Z.eqb_eq, Z.ltb_lt. tauto. }
  do 2 eexists. split; [reflexivity|]. cbn. rewrite <-Ek. done.
Qed.

(** ** Samples *)

Definition repeat_char (n : nat) (c : string) : string := str_concat (repeat c n).
Definition sample_pk : string := repeat_char 64 "a".
Definition sample_pk2 : string := repeat_char 64 "b".
Definition sample_event (id : string) (pk : string) (kind created : Z) (tags : list (list string)) : Event :=
  mkEvent (repeat_char 64 id) pk created kind (Some tags) "x" (repeat_char 128 "0").
Definition sample_opts (now : Z) : SaveOptions := mkSaveOptions now "full" [] None.

Lemma sample_shape id pk kind created tags :
  hex64 (repeat_char 64 id) && hex64 pk && (0 <=? kind) && (kind <=? 65535) && (0 <=? created)
  && forallb (λ t, match t with [] => false | _ => true end) tags = true →
  wire_shape (sample_event id pk kind created tags).
Proof.
  rewrite !andb_true_iff, !Z.leb_le, forallb_elem. intros (((((? & ?) & ?) & ?) & ?) & Ht).
  unfold wire_shape. cbn [sample_event ID PubKey Sig Kind CreatedAt Tags etags default].
  split_and!; try done. apply Forall_forall. intros t Hin. specialize (Ht t Hin). by destruct t.
Qed.

Ltac shape := apply sample_shape; vm_compute; reflexivity.

Lemma sample_hook now : hook_ok (sample_opts now).
Proof. by intros hook db db' E. Qed.

(** ** Two deletions that reach less, or more, than their tombstone *)

Definition relay_list : Event := sample_event "1" sample_pk 10002 100 [["r"; "wss://a.example"]].
Definition relay_list_deletion : Event :=
  sample_event "2" sample_pk 5 200 [["a"; "10002:" +:+ sample_pk +:+ ":"]].

(** An a-tag deletion of a replaceable event (here a relay list) removes
    it, but the very same event is accepted again afterwards: the address
    tombstone is enforced only for the addressable kinds 30000-39999, unlike
    for an e-tag deletion or an addressable event. *)
Theorem replaceable_deletion_not_enforced :
  let db1 := (Save empty_db relay_list (sample_opts 1000)).1 in
  let db2 := (Save db1 relay_list_deletion (sample_opts 1001)).1 in
  let '(db3, again) := Save db2 relay_list (sample_opts 1002) in
  r_raw <$> events db1 = [relay_list] ∧
  r_raw <$> events db2 = [relay_list_deletion] ∧
  deletions db2 !! (sample_pk, "a", address_of 10002 sample_pk "") = Some 200 ∧
  is_ok again = true ∧ r_raw <$> events db3 = [relay_list_deletion; relay_list].
Proof. vm_compute. by split_and!. Qed.

Definition two_notes : list Event :=
  [sample_event "1" sample_pk 1 100 []; sample_event "3" sample_pk 1 101 []].
Definition note_address_deletion : Event :=
  sample_event "2" sample_pk 5 200 [["a"; "1:" +:+ sample_pk +:+ ":"]].

(** An a-tag naming a regular kind, which has no address, deletes every
    note of that kind its author ever published. *)
Theorem regular_kind_address_deletes_all :
  let db := fold_left (λ db e, (Save db e (sample_opts 1000)).1) two_notes empty_db in
  r_raw <$> events db = two_notes ∧
  r_raw <$> events (Save db note_address_deletion (sample_opts 1001)).1 = [note_address_deletion].
Proof. vm_compute. by split_and!. Qed.

(** * internal/storage: the theorems at concrete inputs *)

(** A full-text engine matching on containment. *)
#[local] Instance toy_fts : GoFTS := {| fts_match q s := Contains s q |}.

Definition note : Event := sample_event "1" sample_pk 1 100 [["p"; sample_pk2]].
Definition note_deletion : Event := sample_event "2" sample_pk 5 200 [["e"; ID note]].
Definition db_note : DB := (Save empty_db note (sample_opts 1000)).1.
Definition db_deleted : DB := (Save db_note note_deletion (sample_opts 1001)).1.

Ltac not_self := intros Hin; vm_compute in Hin; repeat (apply elem_of_cons in Hin as [Hin|Hin]; [discriminate|]);
  by apply not_elem_of_nil in Hin.

Lemma steps_db_note : steps empty_db db_note.
Proof. apply rtc_once, step_save; [shape|not_self|apply sample_hook|exact I]. Qed.

Lemma WF_db_note : WF db_note.
Proof. apply (steps_Inv _ _ steps_db_note Inv_empty). Qed.

(** The note saved with a full index can be searched. *)
Lemma storage_reachable_Inv_witness : (WF db_note ∧ Clean db_note) ∧ (1, Content note) ∈ search db_note.
Proof.
  destruct (storage_reachable_Inv (λ opts, opts = sample_opts 1000) db_note) as (Hw & Hc & _ & Hs).
  - apply rtc_once, step_save; [shape|not_self|apply sample_hook|reflexivity].
  - split; [by split|]. apply (Hs "full").
    + intros opts ->. split; [reflexivity|]. intros hook d d' E. discriminate E.
    + exists (event_row 1 note). split; [apply list_elem_of_here|]. repeat split. intros E. discriminate E.
Defined.

(** The note, deleted, then saved again. *)
Lemma deletion_is_permanent_witness :
  event_row 1 note ∉ events (Save db_deleted note (sample_opts 1002)).1.
Proof.
  apply (deletion_is_permanent db_note note_deletion (sample_opts 1001) db_deleted (mkSaveResult 2 false)
    (Save db_deleted note (sample_opts 1002)).1 (ID note) (event_row 1 note)).
  - exact steps_db_note.
  - shape.
  - not_self.
  - apply sample_hook.
  - reflexivity.
  - rewrite (surjective_pairing (Save _ _ _)). apply (f_equal (pair db_deleted)). vm_compute. reflexivity.
  - apply list_elem_of_here.
  - apply rtc_once, step_save; [shape|not_self|apply sample_hook|exact I].
  - reflexivity.
  - left. reflexivity.
Defined.

Lemma vanish_is_permanent_witness :
  let db2 := (Save (Vanish db_note sample_pk 150) note_deletion (sample_opts 1002)).1 in
  150 < r_created (event_row 2 note_deletion).
Proof.
  intros db2. apply (vanish_is_permanent db_note sample_pk 150 db2 (event_row 2 note_deletion)).
  - exact steps_db_note.
  - apply rtc_once, step_save; [shape|not_self|apply sample_hook|exact I].
  - vm_compute. apply list_elem_of_here.
  - reflexivity.
Defined.

Definition note_filter : Filter := mkFilter None (Some [sample_pk]) (Some [1]) ∅ None None None "".
Definition note_filter_json : json :=
  JObj [("kinds", JArr [JNum "1"]); ("authors", JArr [JStr sample_pk])].
Definition all_opts (n : Z) : QueryOptions := mkQueryOptions 1000 (mkAccess [] false false) n None.

Lemma where_agrees_with_Matches_witness :
  let H := ascii_unicode in
  where_cond db_note note_filter (all_opts 10) (event_row 1 note)
  = cursor_cond None (event_row 1 note) && Matches note_filter note
    && live_cond db_note 1000 (event_row 1 note) && access_cond db_note (mkAccess [] false false) (event_row 1 note).
Proof.
  intros H. apply (where_agrees_with_Matches note_filter_json note_filter db_note (all_opts 10) (event_row 1 note)).
  - vm_compute. reflexivity.
  - exact WF_db_note.
  - vm_compute. apply list_elem_of_here.
  - reflexivity.
Defined.

Lemma Query_page_witness :
  ∃ rows, rows ≡ₚ List.filter (where_cond db_note note_filter (all_opts 10)) (events db_note) ∧
    StronglySorted row_before rows ∧
    R_Events (Query db_note note_filter (all_opts 10)) = r_raw <$> take (Z.to_nat 10) rows ∧
    (R_More (Query db_note note_filter (all_opts 10)) = true ↔ drop (Z.to_nat 10) rows ≠ []).
Proof.
  apply (Query_page db_note note_filter (all_opts 10) 10);
    [exact WF_db_note|reflexivity|vm_compute; discriminate].
Defined.

(** Two notes read one at a time. *)
Definition note2 : Event := sample_event "3" sample_pk 1 101 [].
Definition db_notes : DB := (Save db_note note2 (sample_opts 1001)).1.

Lemma steps_db_notes : steps empty_db db_notes.
Proof.
  eapply rtc_r; [exact steps_db_note|]. apply step_save; [shape|not_self|apply sample_hook|exact I].
Qed.

Lemma Query_next_page_witness :
  R_Events (Query db_notes note_filter (next_page (all_opts 1) note2)) = [note].
Proof.
  rewrite (Query_next_page db_notes note_filter (all_opts 1) 1 note2).
  - vm_compute. reflexivity.
  - apply (steps_Inv _ _ steps_db_notes Inv_empty).
  - reflexivity.
  - vm_compute. discriminate.
  - vm_compute. reflexivity.
Defined.

(** A direct message read by its recipient. *)
Definition message : Event := sample_event "4" sample_pk 4 100 [["p"; sample_pk2]].
Definition db_message : DB := (Save empty_db message (sample_opts 1000)).1.
Definition recipient_opts : QueryOptions := mkQueryOptions 1000 (mkAccess [sample_pk2] false false) 10 None.

Lemma Query_private_witness :
  PubKey message ∈ [sample_pk2] ∨
  Kind message ≠ 13 ∧ Kind message ≠ KIND_PUSH_REGISTRATION ∧
    ∃ p, p ∈ [sample_pk2] ∧ p ∈ TagValues message "p".
Proof.
  apply (Query_private db_message (mkFilter None None (Some [4]) ∅ None None None "") recipient_opts 10 message).
  - assert (steps empty_db db_message) as Hs
      by (apply rtc_once, step_save; [shape|not_self|apply sample_hook|exact I]).
    apply (steps_Inv _ _ Hs Inv_empty).
  - reflexivity.
  - vm_compute. discriminate.
  - reflexivity.
  - reflexivity.
  - vm_compute. apply list_elem_of_here.
  - reflexivity.
Defined.

Lemma Save_outcome_witness :
  ∃ db' rest, Save empty_db note (sample_opts 1000) = (db', Ok (mkSaveResult (next_seq empty_db) false)) ∧
    events db' = rest ++ [event_row (next_seq empty_db) note] ∧ next_seq db' = next_seq empty_db + 1 ∧ rest `sublist_of` events empty_db ∧
    (Kind note ≠ 5 → rest = if replaces (Kind note)
       then List.filter (λ r, negb (at_address (PubKey note) (Kind note) (d_of note) r)) (events empty_db)
       else events empty_db).
Proof. exact (Save_outcome empty_db note (sample_opts 1000) eq_refl eq_refl). Defined.

(** Two versions of a profile, in both orders. *)
Definition profile_old : Event := sample_event "5" sample_pk 0 100 [].
Definition profile_new : Event := sample_event "6" sample_pk 0 101 [].

Lemma replaceable_convergence_witness :
  let run l := stored sample_pk 0 "" (saves (λ _, sample_opts 1000) empty_db l) in
  run [profile_old; profile_new] = run [profile_new; profile_old] ∧
  winner (stored sample_pk 0 "" empty_db
          ++ List.filter (admissible sample_pk 0 "" empty_db) [profile_old; profile_new])
    (run [profile_old; profile_new]).
Proof.
  apply (replaceable_convergence sample_pk 0 "" eq_refl (λ _, sample_opts 1000) empty_db
    [profile_old; profile_new] [profile_new; profile_old]).
  - exact WF_empty.
  - repeat constructor; shape.
  - reflexivity.
  - intros e c He Hc. cbn [app stored empty_db events fmap list_fmap List.filter] in He, Hc.
    rewrite !elem_of_cons in He, Hc.
    destruct He as [->|[->|He]]; [..|by apply not_elem_of_nil in He];
      (destruct Hc as [->|[->|Hc]]; [..|by apply not_elem_of_nil in Hc]); done.
  - apply perm_swap.
Defined.

(** A bookmark list replaced by an empty one. *)
Definition bookmarks : Event := sample_event "7" sample_pk 10003 100 [["e"; ID note]].
Definition bookmarks_lost : Event := sample_event "8" sample_pk 10003 110 [].
Definition db_bookmarks : DB := (Save empty_db bookmarks (sample_opts 1000)).1.
Definition db_replaced : DB := (Save db_bookmarks bookmarks_lost (sample_opts 1010)).1.

Lemma list_history_restores_witness :
  ∃ draft diff, RestoreHistory db_replaced sample_pk (ID bookmarks) 1020 = Ok (draft, diff) ∧
    D_Kind draft = 10003 ∧ D_Tags draft = Tags bookmarks ∧ D_Content draft = Content bookmarks.
Proof.
  apply (list_history_restores db_bookmarks bookmarks_lost (sample_opts 1010) db_replaced
    (mkSaveResult 2 false) (event_row 1 bookmarks) 1020).
  - assert (steps empty_db db_bookmarks) as Hs
      by (apply rtc_once, step_save; [shape|not_self|apply sample_hook|exact I]).
    apply (steps_Inv _ _ Hs Inv_empty).
  - reflexivity.
  - reflexivity.
  - vm_compute. reflexivity.
  - vm_compute. apply list_elem_of_here.
  - vm_compute. reflexivity.
  - intros h Hh. vm_compute in Hh. by apply not_elem_of_nil in Hh.
  - left. vm_compute. reflexivity.
Defined.
