(* ===== verification/Artifacts.v ===== *)
(** * internal/daemon: what a stored view accepts from its transform (custom_views_validation.go)

    An artifact is an SVG text or a PNG in base64.  [checkSVG] runs over the
    tokens of encoding/xml ([XmlDecoder]), the PNG codec is [PngDecoder].  The
    slices of the URL scan are written with their bounds: out of range is the
    [Err] of the runtime's panic. *)

From S2P Require Import Prelude GoLib GoCodec GoLemmas GoStrings.

(** ** encoding/xml and image/png *)

Record xml_Name := XmlName { Space : string; Local : string }.
Record xml_Attr := XmlAttr { attr_Name : xml_Name; attr_Value : string }.

Inductive xml_Token :=
| Directive (text : string)
| ProcInst (target inst : string)
| StartElement (name : xml_Name) (attr : list xml_Attr)
| EndElement (name : xml_Name)
| CharData (text : string)
| Comment (text : string).

(** [Decoder.Token] until its error: the tokens, and whether it was [io.EOF]. *)
Class XmlDecoder := { xml_tokens : string → list xml_Token * bool }.

(** [png.DecodeConfig] with the width and height, and whether [png.Decode]
    succeeds. *)
Class PngDecoder := { png_config : list Z → option (Z * Z); png_decodes : list Z → bool }.

Definition slice_panic : string := "runtime error: slice bounds out of range".

(** [s[lo:hi]] *)
Definition slice (s : string) (lo hi : nat) : result string :=
  if (lo <=? hi)%nat && (hi <=? String.length s)%nat then Ok (take_str (hi - lo) (drop_str lo s)) else Err slice_panic.
(** [s[lo:]] *)
Definition slice_from (s : string) (lo : nat) : result string := slice s lo (String.length s).

(** [base64.StdEncoding.EncodeToString] *)
Definition b64_digit (v : Z) : ascii :=
  char (if v <? 26 then 65 + v else if v <? 52 then 71 + v else if v <? 62 then v - 4 else if v =? 62 then 43 else 47).
Fixpoint EncodeToString (l : list Z) : string :=
  match l with
  | [] => ""
  | [a] => String (b64_digit (Z.shiftr a 2)) (String (b64_digit (Z.shiftl (Z.land a 3) 4)) "==")
  | [a; b] =>
    String (b64_digit (Z.shiftr a 2)) (String (b64_digit (Z.lor (Z.shiftl (Z.land a 3) 4) (Z.shiftr b 4)))
      (String (b64_digit (Z.shiftl (Z.land b 15) 2)) "="))
  | a :: b :: c :: r =>
    String (b64_digit (Z.shiftr a 2)) (String (b64_digit (Z.lor (Z.shiftl (Z.land a 3) 4) (Z.shiftr b 4)))
      (String (b64_digit (Z.lor (Z.shiftl (Z.land b 15) 2) (Z.shiftr c 6))) (String (b64_digit (Z.land c 63)) (EncodeToString r))))
  end.

Section Artifacts.
Context `{GoUnicode} `{XmlDecoder} `{PngDecoder}.

(** ** Style text *)

Fixpoint stripCSSComments_go (fuel : nat) (out value : string) : string * bool :=
  match fuel with
  | O => (out, true)
  | S n =>
    if String.eqb value "" then (out, true) else
    match Index value "/*" with
    | None => (out +:+ value, true)
    | Some start =>
      let out := out +:+ take_str start value in
      let value := drop_str (start + 2) value in
      match Index value "*/" with
      | None => ("", false)
      | Some stop => stripCSSComments_go n (out +:+ " ") (drop_str (stop + 2) value)
      end
    end
  end.
Definition stripCSSComments (value : string) : string * bool := stripCSSComments_go (S (String.length value)) "" value.

Definition css_quote (b : Z) : bool := (b =? 34) || (b =? 39).

Fixpoint localSVGURLs_go (fuel : nat) (lower value : string) : result bool :=
  match fuel with
  | O => Ok true
  | S n =>
    match Index lower "url(" with
    | None => Ok true
    | Some at_ =>
      match Index (drop_str (at_ + 4) lower) ")" with
      | None => Ok false
      | Some stop =>
        target ← slice value (at_ + 4) (at_ + 4 + stop);
        if negb (HasPrefix (Trim css_quote (TrimSpace target)) "#") then Ok false else
        value' ← slice_from value (at_ + 4 + stop + 1);
        localSVGURLs_go n (drop_str (at_ + 4 + stop + 1) lower) value'
      end
    end
  end.
Definition localSVGURLs (value : string) : result bool :=
  let lower := ToLower value in localSVGURLs_go (S (String.length lower)) lower value.

Definition safeSVGCSSText (value : string) : result bool :=
  let '(clean, ok) := stripCSSComments value in
  if negb ok || Contains clean "\" then Ok false else
  let lower := ToLower clean in
  let compact := ReplaceAll lower " " "" in
  if Contains lower "@import" || Contains compact "@import" then Ok false else
  a ← localSVGURLs clean;
  if negb a then Ok false else localSVGURLs compact.

Definition isCSSAttribute (name : string) : bool :=
  String.eqb name "style" || Contains name "fill" || Contains name "stroke" || Contains name "filter"
  || Contains name "mask" || Contains name "clip-path" || Contains name "marker-".

(** ** The check of an SVG *)

Record svg_state := Svg { sv_depth : Z; sv_roots : Z; sv_styleDepth : Z; sv_style : string }.

Definition svg_ns : string := "http://www.w3.org/2000/svg".
Definition active_names : list string := ["iframe"; "object"; "embed"; "animate"; "set"; "animatemotion"; "animatetransform"].

Definition checkAttr (attr : xml_Attr) : result unit :=
  let attrName := ToLower (Local (attr_Name attr)) in
  guard_err (String.eqb attrName "base"
             && (String.eqb (Space (attr_Name attr)) "xml"
                 || String.eqb (Space (attr_Name attr)) "http://www.w3.org/XML/1998/namespace")) "invalid: svg has an external base";;
  guard_err (HasPrefix attrName "on" && (2 <? len attrName)) "invalid: svg contains an event handler";;
  let value := TrimSpace (attr_Value attr) in
  (if (String.eqb attrName "href" || String.eqb attrName "src") && (String.eqb value "" || negb (HasPrefix value "#"))
   then if HasPrefix (ToLower value) "javascript:" then Err "invalid: svg contains a javascript reference"
        else Err "invalid: svg references an external target"
   else Ok tt);;
  if isCSSAttribute attrName
  then safe ← safeSVGCSSText value; guard_err (negb safe) "invalid: svg references an external target"
  else Ok tt.

Fixpoint checkAttrs (attrs : list xml_Attr) : result unit :=
  match attrs with [] => Ok tt | a :: r => checkAttr a;; checkAttrs r end.

(** One turn of the loop over the tokens. *)
Definition svg_step (st : svg_state) (token : xml_Token) : result svg_state :=
  let '(Svg depth roots styleDepth style) := st in
  match token with
  | Directive _ => Err "invalid: svg contains a declaration"
  | ProcInst target _ =>
    guard_err (EqualFold target "xml-stylesheet") "invalid: svg contains a stylesheet instruction";; mret st
  | StartElement n attr =>
    guard_err (0 <? styleDepth) "invalid: svg style contains an element";;
    let name := ToLower (Local n) in
    let roots := if depth =? 0 then roots + 1 else roots in
    guard_err ((depth =? 0) && negb (String.eqb name "svg")) "invalid: svg body has no svg element";;
    guard_err (negb (String.eqb (Space n) "") && negb (String.eqb (Space n) svg_ns)) "invalid: svg has an invalid namespace";;
    guard_err (String.eqb name "script") "invalid: svg contains script";;
    guard_err (String.eqb name "foreignobject") "invalid: svg contains a foreign object";;
    guard_err (contains active_names name) "invalid: svg contains active content";;
    let '(styleDepth, style) := if String.eqb name "style" then (depth + 1, "") else (styleDepth, style) in
    checkAttrs attr;;
    mret (Svg (depth + 1) roots styleDepth style)
  | EndElement _ =>
    styleDepth ←
      (if styleDepth =? depth
       then safe ← safeSVGCSSText style; guard_err (negb safe) "invalid: svg references an external target";; mret 0
       else mret styleDepth);
    mret (Svg (depth - 1) roots styleDepth style)
  | CharData text =>
    guard_err ((depth =? 0) && negb (String.eqb (TrimSpace text) "")) "invalid: svg has content outside its root element";;
    mret (Svg depth roots styleDepth (if 0 <? styleDepth then style +:+ text else style))
  | Comment _ => mret st
  end.

Fixpoint svg_steps (st : svg_state) (tokens : list xml_Token) : result svg_state :=
  match tokens with [] => Ok st | t :: r => st ← svg_step st t; svg_steps st r end.

Definition checkSVG (body : string) : result unit :=
  let '(tokens, eof) := xml_tokens body in
  st ← svg_steps (Svg 0 0 0 "") tokens;
  guard_err (negb eof) "invalid: svg is not well-formed XML";;
  guard_err (negb (sv_roots st =? 1) || negb (sv_depth st =? 0) || negb (sv_styleDepth st =? 0)) "invalid: svg is not well-formed XML".

(** ** Artifacts *)

Record viewArtifact := ViewArtifact { va_Block : Z; va_Type : string; va_Body : string; va_Engine : string }.

Definition pngSignature : list Z := [137; 80; 78; 71; 13; 10; 26; 10].
Definition maxArtifactPixels : Z := 16 * 1024 * 1024.

Definition decode_body (body : string) : option (list Z) :=
  match DecodeString StdEncoding body with Some d => Some d | None => DecodeString RawStdEncoding body end.

Definition checkPNG (decoded : list Z) : result string :=
  guard_err (negb (bool_decide (take 8 decoded = pngSignature))) "invalid: png body is not a PNG";;
  match png_config decoded with
  | None => Err "invalid: png body is not a valid PNG"
  | Some (w, h) =>
    guard_err ((w <=? 0) || (h <=? 0)) "invalid: png body is not a valid PNG";;
    guard_err ((maxArtifactPixels <? w) || (maxArtifactPixels <? h) || (maxArtifactPixels <? wrap64 (w * h))) "invalid: png dimensions exceed the limit";;
    guard_err (negb (png_decodes decoded)) "invalid: png body is not a valid PNG";;
    mret (EncodeToString decoded)
  end.

Definition checkArtifact (artifact : viewArtifact) (maxBytes : Z) : result string :=
  if String.eqb (va_Type artifact) "image/svg+xml" then
    guard_err (maxBytes <? len (va_Body artifact)) "invalid: artifact exceeds the size limit";;
    checkSVG (va_Body artifact);; mret (va_Body artifact)
  else if String.eqb (va_Type artifact) "image/png" then
    match decode_body (TrimSpace (va_Body artifact)) with
    | None => Err "invalid: png body must be base64"
    | Some decoded =>
      guard_err (maxBytes <? Z.of_nat (List.length decoded)) "invalid: artifact exceeds the size limit";;
      checkPNG decoded
    end
  else Err "invalid: artifact type must be image/svg+xml or image/png".

(** [artifactRecord.body] (custom_views_transform.go): the bytes served for a
    stored artifact. *)
Definition artifact_body (typ content : string) : option (list Z) :=
  if String.eqb typ "image/png" then DecodeString StdEncoding content else Some (bytes_of content).
End Artifacts.

(** * internal/daemon: an accepted SVG is inert (custom_views_validation.go)

    The URL scan finds every link of an ASCII style text; the loop over the
    tokens accepts exactly the flattened well-nested documents that are inert.
    Outside ASCII the scan is led astray, or out of its bounds. *)

(** ** Searching *)

Lemma drop_str_drop i j s : drop_str i (drop_str j s) = drop_str (j + i) s.
Proof. revert s; induction j as [|j IH]; intros [|a s]; cbn; try done; by destruct i. Qed.

Lemma Index_None_spec s sub : Index s sub = None → ∀ i, (i <= String.length s)%nat → String.prefix sub (drop_str i s) = false.
Proof.
  induction s as [|a s IH]; cbn [Index]; intros Hx i Hi.
  - destruct (String.prefix sub "") eqn:E; [done|]. by destruct i.
  - destruct (String.prefix sub (String a s)) eqn:E; [done|]. destruct (Index s sub) eqn:Es; [done|].
    destruct i as [|i]; [done|]. cbn. apply IH; [done|]. cbn in Hi. lia.
Qed.

Lemma Index_Some_spec s sub i : Index s sub = Some i →
  String.prefix sub (drop_str i s) = true ∧ ∀ j, (j < i)%nat → String.prefix sub (drop_str j s) = false.
Proof.
  revert i. induction s as [|a s IH]; intros i; cbn [Index].
  - destruct (String.prefix sub "") eqn:E; [|done]. intros [= <-]. split; [done|lia].
  - destruct (String.prefix sub (String a s)) eqn:E; [intros [= <-]; split; [done|lia]|].
    destruct (Index s sub) as [k|] eqn:Es; [|done]. intros [= <-]. destruct (IH k eq_refl) as [H1 H2].
    split; [done|]. intros [|j] Hj; [done|]. cbn. apply H2. lia.
Qed.

Lemma prefix_head c p s : String.prefix (String c p) s = true → ∃ r, s = String c r ∧ String.prefix p r = true.
Proof. destruct s as [|a r]; [done|]. cbn. destruct (ascii_dec c a) as [->|]; [|done]. by exists r. Qed.

Lemma drop_str_head i s a r : drop_str i s = String a r → drop_str (S i) s = r.
Proof. intros E. replace (S i) with (i + 1)%nat by lia. rewrite <-drop_str_drop, E. by destruct r. Qed.

Lemma drop_str_length i s : (String.length s <= i)%nat → drop_str i s = "".
Proof. revert s; induction i as [|i IH]; intros [|a s]; cbn; try done; [lia|]. intros. apply IH. lia. Qed.

(** ** ASCII texts in lower case *)

Lemma is_ascii_drop n s : is_ascii s = true → is_ascii (drop_str n s) = true.
Proof. revert n; induction s as [|a s IH]; intros [|n]; cbn; try done. intros [_ ?]%andb_prop. by apply IH. Qed.

Lemma str_map_drop f n s : drop_str n (str_map f s) = str_map f (drop_str n s).
Proof. revert n; induction s as [|a s IH]; intros [|n]; cbn; try done. Qed.

Lemma length_str_map f s : String.length (str_map f s) = String.length s.
Proof. induction s; cbn; congruence. Qed.

Lemma ToLower_plain `{GoUnicode} s : is_ascii s = true → ToLower s = str_map ascii_lower s.
Proof. unfold ToLower. by intros ->. Qed.

(** ** The links of a style text *)

Section Links.
Context `{GoUnicode}.

(** A link opens at [i]; it is still open at [i] when no parenthesis closes
    it before. *)
Definition url_at (v : string) (i : nat) : Prop := String.prefix "url(" (drop_str i (str_map ascii_lower v)) = true.
Definition open_until (v : string) (j i : nat) : Prop :=
  ∀ k, (j + 4 <= k < i)%nat → String.prefix ")" (drop_str k (str_map ascii_lower v)) = false.
(** The link at [i] is closed and names a fragment of the document. *)
Definition fragment_link (v : string) (i : nat) : Prop :=
  ∃ stop, Index (drop_str (i + 4) (str_map ascii_lower v)) ")" = Some stop ∧
          HasPrefix (Trim css_quote (TrimSpace (take_str stop (drop_str (i + 4) v)))) "#" = true.
(** Every link names a fragment, or stands inside one that does. *)
Definition links_local (v : string) : Prop :=
  ∀ i, url_at v i → fragment_link v i ∨ ∃ j, (j < i)%nat ∧ url_at v j ∧ fragment_link v j ∧ open_until v j i.

Lemma url_at_drop v k i : url_at (drop_str k v) i ↔ url_at v (k + i).
Proof. unfold url_at. by rewrite <-str_map_drop, drop_str_drop. Qed.

Lemma open_until_drop v k j i : open_until (drop_str k v) j i → open_until v (k + j) (k + i).
Proof.
  unfold open_until. intros Ho m Hm. specialize (Ho (m - k)%nat ltac:(lia)).
  rewrite <-str_map_drop, drop_str_drop in Ho. by replace (k + (m - k))%nat with m in Ho by lia.
Qed.

Lemma fragment_link_drop v k i : fragment_link (drop_str k v) i ↔ fragment_link v (k + i).
Proof. unfold fragment_link. rewrite <-str_map_drop, !drop_str_drop. by rewrite Nat.add_assoc. Qed.

(** Two links do not overlap. *)
Lemma url_at_apart v i j : url_at v i → url_at v j → (i < j)%nat → (i + 4 <= j)%nat.
Proof.
  intros Hi Hj Hlt. destruct (decide (i + 4 <= j)%nat); [done|]. exfalso. unfold url_at in *.
  apply prefix_head in Hi as (r1 & E1 & Hi). apply prefix_head in Hi as (r2 & -> & Hi).
  apply prefix_head in Hi as (r3 & -> & Hi). apply prefix_head in Hi as (r4 & -> & _).
  apply prefix_head in Hj as (s1 & F1 & _).
  pose proof (drop_str_head _ _ _ _ E1) as E2. pose proof (drop_str_head _ _ _ _ E2) as E3. pose proof (drop_str_head _ _ _ _ E3) as E4.
  assert (j = S i ∨ j = S (S i) ∨ j = S (S (S i))) as [->|[->| ->]] by lia; congruence.
Qed.

Lemma slice_take v lo n : (lo + n <= String.length v)%nat → slice v lo (lo + n) = Ok (take_str n (drop_str lo v)).
Proof.
  intros. unfold slice. assert (lo <= lo + n)%nat by lia. rewrite (proj2 (Nat.leb_le lo (lo + n))), (proj2 (Nat.leb_le (lo + n) _)) by lia.
  cbn. by replace (lo + n - lo)%nat with n by lia.
Qed.

Lemma take_str_all s : take_str (String.length s) s = s.
Proof. induction s; cbn; congruence. Qed.

Lemma slice_from_drop v lo : (lo <= String.length v)%nat → slice_from v lo = Ok (drop_str lo v).
Proof.
  intros Hl. unfold slice_from. replace (String.length v) with (lo + (String.length v - lo))%nat at 1 by lia.
  rewrite slice_take by lia. by rewrite <-length_drop_str, take_str_all.
Qed.

(** The scan of an ASCII text stays in bounds and finds every link. *)
Lemma localSVGURLs_go_sound fuel v :
  (String.length v < fuel)%nat →
  ∃ b, localSVGURLs_go fuel (str_map ascii_lower v) v = Ok b ∧ (b = true → links_local v).
Proof.
  revert v. induction fuel as [|n IH]; intros v Hn; [lia|]. cbn [localSVGURLs_go].
  destruct (Index (str_map ascii_lower v) "url(") as [at_|] eqn:Ea.
  2: { exists true. split; [done|]. intros _ i Hi. exfalso. unfold url_at in Hi.
       destruct (decide (i <= String.length v)%nat) as [Hl|Hl].
       - rewrite (Index_None_spec _ _ Ea) in Hi by (by rewrite length_str_map). done.
       - rewrite drop_str_length in Hi by (rewrite length_str_map; lia). done. }
  pose proof (Index_bound _ _ _ Ea) as Hb. rewrite length_str_map in Hb. cbn in Hb. apply Index_Some_spec in Ea as [Hat Hfirst].
  destruct (Index (drop_str (at_ + 4) (str_map ascii_lower v)) ")") as [stop|] eqn:Es; [|by exists false].
  pose proof (Index_bound _ _ _ Es) as Hs. rewrite length_drop_str, length_str_map in Hs. cbn in Hs.
  rewrite slice_take by lia. cbn [mbind result_bind].
  destruct (HasPrefix (Trim css_quote (TrimSpace (take_str stop (drop_str (at_ + 4) v)))) "#") eqn:Ef; cbn [negb]; [|by exists false].
  rewrite slice_from_drop by lia. cbn [mbind result_bind]. rewrite str_map_drop.
  destruct (IH (drop_str (at_ + 4 + stop + 1) v)) as (b & -> & Hsound); [rewrite length_drop_str; lia|].
  exists b. split; [done|]. intros Hlocal%Hsound i Hi.
  assert (fragment_link v at_) as Hfrag by (by exists stop).
  assert (i = at_ ∨ (at_ < i)%nat) as [->|Hlt].
  { destruct (decide (i < at_)%nat) as [Hlt|]; [|lia]. unfold url_at in Hi. by rewrite (Hfirst i Hlt) in Hi. }
  - by left.
  - pose proof (url_at_apart v at_ i Hat Hi Hlt) as H4. destruct (decide (i <= at_ + 4 + stop)%nat) as [Hin|Hout].
    + right. exists at_. split; [lia|]. do 2 (split; [done|]). intros k Hk. apply Index_Some_spec in Es as [_ Es].
      specialize (Es (k - (at_ + 4))%nat ltac:(lia)). rewrite drop_str_drop in Es. by replace (at_ + 4 + (k - (at_ + 4)))%nat with k in Es by lia.
    + set (k := (at_ + 4 + stop + 1)%nat) in *. specialize (Hlocal (i - k)%nat). rewrite url_at_drop in Hlocal.
      replace (k + (i - k))%nat with i in Hlocal by lia. destruct (Hlocal Hi) as [Hl|(j & Hj & Hu & Hl & Ho)].
      * left. apply fragment_link_drop in Hl. by replace (k + (i - k))%nat with i in Hl by lia.
      * right. exists (k + j)%nat. split; [lia|]. split; [by apply url_at_drop|]. split; [by apply fragment_link_drop|].
        apply open_until_drop in Ho. by replace (k + (i - k))%nat with i in Ho by lia.
Qed.

Lemma localSVGURLs_ascii v : is_ascii v = true → ∃ b, localSVGURLs v = Ok b ∧ (b = true → links_local v).
Proof.
  intros Ha. unfold localSVGURLs. rewrite ToLower_plain by done. apply localSVGURLs_go_sound. rewrite length_str_map. lia.
Qed.

(** A style text without comments whose links are fragments, without imports
    and escapes. *)
Definition css_local (v : string) : Prop :=
  ∃ clean, stripCSSComments v = (clean, true) ∧ Contains clean "\" = false ∧
           Contains (ToLower clean) "@import" = false ∧ links_local clean.
End Links.

(** ** Style texts *)

Section Css.
Context `{GoUnicode}.

Lemma is_ascii_app s t : is_ascii (s +:+ t) = is_ascii s && is_ascii t.
Proof. unfold is_ascii. by rewrite bytes_of_app, forallb_app. Qed.

Lemma is_ascii_cons a s : is_ascii (String a s) = true ↔ byte_of a <? 128 = true ∧ is_ascii s = true.
Proof. apply andb_true_iff. Qed.

Lemma is_ascii_take n s : is_ascii s = true → is_ascii (take_str n s) = true.
Proof. intros Ha. rewrite <-(take_drop_str n s), is_ascii_app in Ha. by apply andb_prop in Ha as [? _]. Qed.

Lemma ascii_lower_byte a : byte_of a <? 128 = true → byte_of (char (ascii_lower (byte_of a))) <? 128 = true.
Proof.
  intros Ha%Z.ltb_lt. pose proof (byte_of_range a). unfold ascii_lower. destruct (in_range 65 (byte_of a) 90) eqn:E.
  - apply in_range_true in E. rewrite byte_of_char by lia. apply Z.ltb_lt. lia.
  - rewrite char_byte_of. by apply Z.ltb_lt.
Qed.

Lemma is_ascii_lower s : is_ascii s = true → is_ascii (str_map ascii_lower s) = true.
Proof. induction s as [|a s IH]; [done|]. cbn. intros [Ha Hs]%andb_prop. apply andb_true_intro. split; [by apply ascii_lower_byte|by apply IH]. Qed.

Lemma is_ascii_replace old k s : is_ascii s = true → is_ascii (replace_go old "" k s) = true.
Proof.
  revert k; induction s as [|a s IH]; intros k Ha; [by destruct k|]. rewrite is_ascii_cons in Ha. destruct Ha as [Ha Hs].
  destruct k; cbn [replace_go]; [|by apply IH]. destruct (String.prefix old (String a s)); [by apply IH|].
  apply is_ascii_cons. split; [done|by apply IH].
Qed.

Lemma stripCSSComments_go_ascii n out v clean :
  is_ascii out = true → is_ascii v = true → stripCSSComments_go n out v = (clean, true) → is_ascii clean = true.
Proof.
  revert out v. induction n as [|n IH]; intros out v Ho Hv; cbn [stripCSSComments_go]; [by intros [= <-]|].
  destruct (String.eqb v ""); [by intros [= <-]|].
  destruct (Index v "/*") as [start|]; [|intros [= <-]; by rewrite is_ascii_app, Ho].
  destruct (Index (drop_str (start + 2) v) "*/"); [|done]. apply IH.
  - by rewrite !is_ascii_app, Ho, is_ascii_take.
  - by do 2 apply is_ascii_drop.
Qed.

(** The fuel of the comment scan is enough: more changes nothing. *)
Lemma stripCSSComments_fuel n m out v :
  (String.length v < n)%nat → (n <= m)%nat → stripCSSComments_go m out v = stripCSSComments_go n out v.
Proof.
  revert m out v. induction n as [|n IH]; intros [|m] out v Hn Hm; try lia. cbn [stripCSSComments_go].
  destruct (String.eqb_spec v "") as [|Hv]; [done|]. destruct (Index v "/*") as [start|]; [|done].
  destruct (Index (drop_str (start + 2) v) "*/") as [stop|]; [|done]. apply IH; [|lia].
  destruct v as [|a v]; [done|]. rewrite !length_drop_str. cbn in *. lia.
Qed.

(** An ASCII style text is judged without a panic; if safe it is local. *)
Lemma safeSVGCSSText_ascii v : is_ascii v = true → ∃ b, safeSVGCSSText v = Ok b ∧ (b = true → css_local v).
Proof.
  intros Ha. unfold safeSVGCSSText. destruct (stripCSSComments v) as [clean [|]] eqn:Ec; [|by exists false]. cbn [negb orb].
  assert (is_ascii clean = true) as Hc by (by apply (stripCSSComments_go_ascii _ "" _ _ eq_refl Ha Ec)).
  destruct (Contains clean "\") eqn:Eb; [by exists false|].
  destruct (Contains (ToLower clean) "@import") eqn:Ei; [by exists false|]. cbn [orb].
  destruct (Contains (ReplaceAll (ToLower clean) " " "") "@import"); [by exists false|].
  destruct (localSVGURLs_ascii clean Hc) as ([|] & -> & Hl); [|by exists false]. cbn [mbind result_bind negb].
  destruct (localSVGURLs_ascii (ReplaceAll (ToLower clean) " " "")) as (b & -> & _).
  { apply is_ascii_replace. rewrite ToLower_plain by done. by apply is_ascii_lower. }
  exists b. split; [done|]. intros _. exists clean. auto.
Qed.

(** An escape, an import or a link out of the document is refused in any text. *)
Lemma safeSVGCSSText_Ok v : safeSVGCSSText v = Ok true → ∃ clean, stripCSSComments v = (clean, true) ∧
  Contains clean "\" = false ∧ Contains (ToLower clean) "@import" = false ∧ localSVGURLs clean = Ok true.
Proof.
  unfold safeSVGCSSText. destruct (stripCSSComments v) as [clean [|]]; [|done]. cbn [negb orb].
  destruct (Contains clean "\") eqn:Eb; [done|]. destruct (Contains (ToLower clean) "@import") eqn:Ei; [done|]. cbn [orb].
  destruct (Contains (ReplaceAll (ToLower clean) " " "") "@import"); [done|].
  destruct (localSVGURLs clean) as [[|]|] eqn:El; [|done|done]. intros _. exists clean. auto.
Qed.
End Css.

(** ** Documents *)

(** An element with its attributes, children and closing name, or any other
    token. *)
Inductive node :=
| Elem (name : xml_Name) (attr : list xml_Attr) (kids : list node) (close : xml_Name)
| Leaf (token : xml_Token).

Fixpoint flatten (n : node) : list xml_Token :=
  match n with
  | Elem name attr kids close => StartElement name attr :: (kids ≫= flatten) ++ [EndElement close]
  | Leaf t => [t]
  end.

Fixpoint node_rect' (P : node → Prop) (He : ∀ name attr kids close, Forall P kids → P (Elem name attr kids close))
    (Hl : ∀ t, P (Leaf t)) (n : node) : P n :=
  match n with
  | Elem name attr kids close =>
    He name attr kids close
      ((fix go (l : list node) : Forall P l :=
          match l with [] => Forall_nil_2 P | k :: r => Forall_cons_2 P k r (node_rect' P He Hl k) (go r) end) kids)
  | Leaf t => Hl t
  end.

(** The text of the leaves of a style element. *)
Definition leaf_text (n : node) : string := match n with Leaf (CharData s) => s | _ => "" end.
Definition style_text (kids : list node) : string := str_concat (leaf_text <$> kids).
#[local] Arguments style_text : simpl never.

Section Inert.
Context `{GoUnicode}.

Definition inert_leaf (t : xml_Token) : Prop :=
  match t with CharData _ | Comment _ => True | ProcInst target _ => EqualFold target "xml-stylesheet" = false | _ => False end.
(** Outside the root only white space. *)
Definition blank_leaf (n : node) : Prop :=
  match n with Leaf (CharData s) => TrimSpace s = "" | Leaf t => inert_leaf t | Elem _ _ _ _ => False end.

Definition inert_name (n : xml_Name) : Prop :=
  (Space n = "" ∨ Space n = svg_ns) ∧ ToLower (Local n) ∉ "script" :: "foreignobject" :: active_names.

(** No base outside the document, no handler, no link but to a fragment, and
    presentation attributes that [css] admits. *)
Definition inert_attr (css : string → Prop) (a : xml_Attr) : Prop :=
  let name := ToLower (Local (attr_Name a)) in
  ¬ (name = "base" ∧ (Space (attr_Name a) = "xml" ∨ Space (attr_Name a) = "http://www.w3.org/XML/1998/namespace")) ∧
  ¬ (HasPrefix name "on" = true ∧ 2 < len name) ∧
  (name = "href" ∨ name = "src" → TrimSpace (attr_Value a) ≠ "" ∧ HasPrefix (TrimSpace (attr_Value a)) "#" = true) ∧
  (isCSSAttribute name = true → css (TrimSpace (attr_Value a))).

Inductive inert (css : string → Prop) : node → Prop :=
| inert_Leaf t : inert_leaf t → inert css (Leaf t)
| inert_Elem name attr kids close :
    inert_name name → Forall (inert_attr css) attr → ToLower (Local name) ≠ "style" →
    Forall (inert css) kids → inert css (Elem name attr kids close)
| inert_Style name attr kids close :
    inert_name name → Forall (inert_attr css) attr → ToLower (Local name) = "style" →
    Forall (λ k, ∃ t, k = Leaf t ∧ inert_leaf t) kids → css (style_text kids) → inert css (Elem name attr kids close).

(** An SVG document: one inert [svg] element between blank leaves. *)
Definition svg_document (css : string → Prop) (tokens : list xml_Token) : Prop :=
  ∃ before name attr kids close after,
    tokens = (before ≫= flatten) ++ flatten (Elem name attr kids close) ++ (after ≫= flatten) ∧
    Forall blank_leaf before ∧ Forall blank_leaf after ∧
    ToLower (Local name) = "svg" ∧ inert css (Elem name attr kids close).

Definition css_safe (v : string) : Prop := safeSVGCSSText v = Ok true.

Lemma and_iff (A B C D : Prop) : (A ↔ B) → (C ↔ D) → (A ∧ C ↔ B ∧ D).
Proof. tauto. Qed.

Lemma checkAttr_inert a : checkAttr a = Ok tt ↔ inert_attr css_safe a.
Proof.
  unfold checkAttr, inert_attr, css_safe. cbv zeta. set (name := ToLower (Local (attr_Name a))). set (value := TrimSpace (attr_Value a)).
  rewrite !guard_bind_Ok, result_bind_Ok, !andb_false_iff, orb_false_iff, !String.eqb_neq, Z.ltb_nlt.
  set (links := if _ && _ then _ else _). set (styles := if isCSSAttribute name then _ else _).
  assert ((∃ u, links = Ok u ∧ styles = Ok tt) ↔
    ((name = "href" ∨ name = "src" → value ≠ "" ∧ HasPrefix value "#" = true) ∧
     (isCSSAttribute name = true → safeSVGCSSText value = Ok true))) as ->.
  { assert ((∃ u, links = Ok u) ↔ (name = "href" ∨ name = "src" → value ≠ "" ∧ HasPrefix value "#" = true)) as <-.
    { unfold links. destruct (String.eqb_spec name "href"), (String.eqb_spec name "src"), (String.eqb_spec value ""), (HasPrefix value "#");
        cbn; try (destruct (HasPrefix (ToLower value) "javascript:")); naive_solver. }
    assert (styles = Ok tt ↔ (isCSSAttribute name = true → safeSVGCSSText value = Ok true)) as <-.
    { unfold styles. destruct (isCSSAttribute name); [|naive_solver]. destruct (safeSVGCSSText value) as [[|]|]; naive_solver. }
    split; [intros (u & Hl & Hs); split; [by exists u|done]|intros ((u & Hl) & Hs); by exists u]. }
  apply and_iff; [|apply and_iff; [|done]].
  - destruct (decide (name = "base")), (decide (Space (attr_Name a) = "xml")), (decide (Space (attr_Name a) = "http://www.w3.org/XML/1998/namespace")); tauto.
  - destruct (HasPrefix name "on"), (decide (2 < len name)); split; try tauto; intuition congruence.
Qed.

Lemma checkAttrs_inert attrs : checkAttrs attrs = Ok tt ↔ Forall (inert_attr css_safe) attrs.
Proof.
  induction attrs as [|a r IH]; cbn [checkAttrs]; [naive_solver|]. rewrite result_bind_Ok, Forall_cons, <-checkAttr_inert, <-IH.
  split; [|naive_solver]. intros ([] & ? & ?). naive_solver.
Qed.

(** ** The steps *)

Lemma svg_steps_app st a b : svg_steps st (a ++ b) = svg_steps st a ≫= λ st', svg_steps st' b.
Proof. revert st; induction a as [|t a IH]; intros st; cbn; [done|]. destruct (svg_step st t) as [st'|]; cbn; [apply IH|done]. Qed.

Definition leaf_style (sd : Z) (style : string) (t : xml_Token) : string := if 0 <? sd then style +:+ leaf_text (Leaf t) else style.
Definition is_leaf (t : xml_Token) : bool := match t with StartElement _ _ | EndElement _ => false | _ => true end.

Lemma svg_step_leaf d r sd style t st' : is_leaf t = true →
  svg_step (Svg d r sd style) t = Ok st' ↔
  (if decide (d = 0) then blank_leaf (Leaf t) else inert_leaf t) ∧ st' = Svg d r sd (leaf_style sd style t).
Proof.
  intros Hl. unfold leaf_style. destruct t as [x|target x|n a|n|x|x]; try discriminate Hl; unfold svg_step; cbn [blank_leaf inert_leaf leaf_text].
  - destruct (decide (d = 0)); split; (done || tauto).
  - rewrite guard_bind_Ok, str_app_nil_r. unfold mret, result_ret. destruct (decide (d = 0)), (0 <? sd); naive_solver.
  - rewrite guard_bind_Ok, andb_false_iff, negb_false_iff, String.eqb_eq, Z.eqb_neq. unfold mret, result_ret.
    destruct (decide (d = 0)); naive_solver.
  - rewrite str_app_nil_r. unfold mret, result_ret. destruct (decide (d = 0)), (0 <? sd); naive_solver.
Qed.

Definition is_style (n : xml_Name) : bool := String.eqb (ToLower (Local n)) "style".

Lemma svg_step_start d r sd style n attr st' :
  svg_step (Svg d r sd style) (StartElement n attr) = Ok st' ↔
  sd <= 0 ∧ (d = 0 → ToLower (Local n) = "svg") ∧ inert_name n ∧ Forall (inert_attr css_safe) attr ∧
  st' = Svg (d + 1) (if d =? 0 then r + 1 else r) (if is_style n then d + 1 else sd) (if is_style n then "" else style).
Proof.
  unfold svg_step, is_style, inert_name. set (name := ToLower (Local n)).
  rewrite !guard_bind_Ok, Z.ltb_ge, <-checkAttrs_inert, !not_elem_of_cons, <-contains_spec, not_true_iff_false.
  rewrite !andb_false_iff, !negb_false_iff, !String.eqb_neq, !String.eqb_eq, Z.eqb_neq.
  assert ((d ≠ 0 ∨ name = "svg") ↔ (d = 0 → name = "svg")) as -> by (destruct (decide (d = 0)); tauto).
  destruct (String.eqb name "style"); rewrite result_bind_Ok; (split; [intros (? & ? & ? & ? & ? & ? & [] & ? & [= <-]); tauto|]);
    (intros (? & ? & (? & ? & ? & ?) & ? & ->); repeat (split; [assumption|]); by exists tt).
Qed.

Lemma svg_step_end d r sd style c st' :
  svg_step (Svg d r sd style) (EndElement c) = Ok st' ↔
  (sd = d → css_safe style) ∧ st' = Svg (d - 1) r (if sd =? d then 0 else sd) style.
Proof.
  unfold svg_step, css_safe. destruct (Z.eqb_spec sd d) as [->|Hn].
  - destruct (safeSVGCSSText style) as [[|]|]; cbn; (split; [intros E|intros [E ->]]); try discriminate (E eq_refl); try discriminate E; auto.
    injection E as <-. auto.
  - cbn. split; [intros [= <-]; tauto|by intros [_ ->]].
Qed.

(** ** Accepted token sequences are inert documents *)

(** Elements that are open, the innermost first, and what came before them at
    the top. *)
Record frame := Frame { fr_name : xml_Name; fr_attr : list xml_Attr; fr_kids : list node }.
Definition frame_tokens (f : frame) : list xml_Token := StartElement (fr_name f) (fr_attr f) :: (fr_kids f ≫= flatten).
Definition read_so_far (top : list node) (frs : list frame) : list xml_Token :=
  (top ≫= flatten) ++ (rev frs ≫= frame_tokens).

Definition frame_head (f : frame) : Prop := inert_name (fr_name f) ∧ Forall (inert_attr css_safe) (fr_attr f).
Definition plain_frame (f : frame) : Prop :=
  frame_head f ∧ is_style (fr_name f) = false ∧ Forall (inert css_safe) (fr_kids f).
Definition style_frame (f : frame) : Prop :=
  frame_head f ∧ is_style (fr_name f) = true ∧ Forall (λ k, ∃ t, k = Leaf t ∧ inert_leaf t) (fr_kids f).

Definition is_root (n : node) : Prop :=
  match n with Elem name _ _ _ => ToLower (Local name) = "svg" ∧ inert css_safe n | Leaf _ => False end.
Definition is_elem (n : node) : bool := match n with Elem _ _ _ _ => true | Leaf _ => false end.

Record reading (st : svg_state) (top : list node) (frs : list frame) : Prop := {
  rd_depth : sv_depth st = Z.of_nat (List.length frs);
  rd_top : Forall (λ n, blank_leaf n ∨ is_root n) top;
  rd_roots : sv_roots st = Z.of_nat (List.length (List.filter is_elem top)) + (if frs is [] then 0 else 1);
  rd_root : ∀ f, last frs = Some f → ToLower (Local (fr_name f)) = "svg";
  rd_frames : match frs with
              | [] => sv_styleDepth st = 0
              | f :: rest => Forall plain_frame rest ∧
                  ((plain_frame f ∧ sv_styleDepth st = 0)
                   ∨ (style_frame f ∧ sv_styleDepth st = sv_depth st ∧ sv_style st = style_text (fr_kids f)))
              end;
}.

(** The tokens of a decoder are nested: no element ends that is not open. *)
Fixpoint nested_from (d : nat) (tokens : list xml_Token) : bool :=
  match tokens with
  | [] => true
  | StartElement _ _ :: r => nested_from (S d) r
  | EndElement _ :: r => match d with O => false | S d' => nested_from d' r end
  | _ :: r => nested_from d r
  end.

#[local] Arguments svg_step : simpl never.

(** A read token goes into the innermost open element, or to the top. *)
Definition add_node (n : node) (top : list node) (frs : list frame) : list node * list frame :=
  match frs with
  | [] => (top ++ [n], [])
  | f :: rest => (top, Frame (fr_name f) (fr_attr f) (fr_kids f ++ [n]) :: rest)
  end.

Lemma read_add n top frs : let '(top', frs') := add_node n top frs in read_so_far top' frs' = read_so_far top frs ++ flatten n.
Proof.
  destruct frs as [|f rest]; cbn; unfold read_so_far, frame_tokens; cbn.
  - rewrite bind_app. cbn. by rewrite !app_nil_r.
  - rewrite !bind_app. cbn. rewrite !bind_app. cbn. rewrite !app_nil_r. by rewrite <-!app_assoc; cbn; rewrite <-?app_assoc.
Qed.

Lemma read_push top frs n attr : read_so_far top (Frame n attr [] :: frs) = read_so_far top frs ++ [StartElement n attr].
Proof. unfold read_so_far. cbn [rev]. rewrite bind_app. cbn. by rewrite <-app_assoc. Qed.

Lemma read_pop top f rest c :
  read_so_far top rest ++ flatten (Elem (fr_name f) (fr_attr f) (fr_kids f) c) = read_so_far top (f :: rest) ++ [EndElement c].
Proof. unfold read_so_far. cbn [rev]. rewrite bind_app. cbn. rewrite app_nil_r, <-!app_assoc. by cbn. Qed.

Lemma style_text_snoc kids n : style_text (kids ++ [n]) = style_text kids +:+ leaf_text n.
Proof. unfold style_text. rewrite fmap_app, str_concat_app. cbn. by rewrite str_app_nil_r. Qed.

Lemma last_head_kids f kids rest g : last (Frame (fr_name f) (fr_attr f) kids :: rest) = Some g →
  ∃ g', last (f :: rest) = Some g' ∧ fr_name g = fr_name g'.
Proof. destruct rest as [|h rest]; cbn; [intros [= <-]; by exists f|]. intros E. by exists g. Qed.

(** A child joins the innermost plain element. *)
Lemma plain_add f n : plain_frame f → inert css_safe n → plain_frame (Frame (fr_name f) (fr_attr f) (fr_kids f ++ [n])).
Proof. intros (Hh & Hs & Hk) Hn. split; [done|]. split; [done|]. cbn. apply Forall_app. by repeat constructor. Qed.

Lemma reading_leaf d r sd style top frs t st' :
  reading (Svg d r sd style) top frs → is_leaf t = true → svg_step (Svg d r sd style) t = Ok st' →
  let '(top', frs') := add_node (Leaf t) top frs in reading st' top' frs'.
Proof.
  intros [Hd Ht Hr Hroot Hf] Hleaf Hs. apply svg_step_leaf in Hs as [Hok ->]; [|done]. cbn in *.
  destruct frs as [|f rest]; cbn in *.
  - split; cbn; [done| |by rewrite lfilter_app, length_app, Hr; cbn; lia|done|done].
    apply Forall_app. split; [done|]. constructor; [|done]. left. by destruct (decide (d = 0)).
  - assert (inert_leaf t) as Hin by (destruct (decide (d = 0)); [lia|done]).
    split; cbn; [done|done|done| |].
    + intros g (g' & Hg & ->)%last_head_kids. by apply Hroot.
    + destruct Hf as [Hrest [[Hp ->]|(Hst & -> & ->)]]; (split; [done|]).
      * left. split; [by apply plain_add; [|constructor]|done].
      * right. unfold leaf_style. rewrite (proj2 (Z.ltb_lt 0 d)) by lia. rewrite style_text_snoc. split; [|done].
        destruct Hst as (Hh & Hn & Hk). do 2 (split; [done|]). cbn. apply Forall_app. split; [done|]. constructor; [|done]. by exists t.
Qed.

Lemma reading_start d r sd style top frs n attr st' :
  reading (Svg d r sd style) top frs → svg_step (Svg d r sd style) (StartElement n attr) = Ok st' →
  reading st' top (Frame n attr [] :: frs).
Proof.
  intros [Hd Ht Hr Hroot Hf] (Hsd & Hsvg & Hname & Hattr & ->)%svg_step_start. cbn in *.
  assert (sd = 0 ∧ Forall plain_frame frs) as [-> Hfrs].
  { destruct frs as [|f rest]; [by split|]. cbn in Hd. destruct Hf as [Hrest [[Hp ->]|(_ & -> & _)]]; [|lia]. split; [done|by constructor]. }
  split; cbn.
  - lia.
  - done.
  - destruct frs; cbn in *; destruct (Z.eqb_spec d 0); lia.
  - destruct frs as [|f rest]; cbn in *; [intros g [= <-]; by apply Hsvg|]. exact Hroot.
  - split; [done|]. assert (frame_head (Frame n attr [])) as Hh by done.
    destruct (is_style n) eqn:E; [right|left]; (split; [split; [done|by split]|done]).
Qed.

Lemma reading_end d r sd style top f rest c st' :
  reading (Svg d r sd style) top (f :: rest) → svg_step (Svg d r sd style) (EndElement c) = Ok st' →
  let '(top', frs') := add_node (Elem (fr_name f) (fr_attr f) (fr_kids f) c) top rest in reading st' top' frs'.
Proof.
  intros [Hd Ht Hr Hroot Hf] (Hcss & ->)%svg_step_end. cbn in *.
  assert (inert css_safe (Elem (fr_name f) (fr_attr f) (fr_kids f) c) ∧ (if sd =? d then 0 else sd) = 0) as [Hin Hsd].
  { destruct Hf as [_ [[((Hn & Ha) & Hs & Hk) ->]|(((Hn & Ha) & Hs & Hk) & -> & ->)]].
    - split; [|by destruct (0 =? d)]. apply inert_Elem; [done|done| |done]. by apply String.eqb_neq.
    - rewrite Z.eqb_refl. split; [|done]. apply inert_Style; [done|done| |done|by apply Hcss]. by apply String.eqb_eq. }
  rewrite Hsd. destruct rest as [|g rest]; cbn.
  - split; cbn; [cbn in Hd; lia| | |done|done].
    + apply Forall_app. split; [done|]. constructor; [|done]. right. split; [by apply (Hroot f)|done].
    + rewrite lfilter_app, length_app, Hr. cbn. lia.
  - split; cbn; [cbn in Hd; lia|done|done| |].
    + intros h (g' & Hg & ->)%last_head_kids. by apply Hroot.
    + destruct Hf as [[Hg Hrest]%Forall_cons _]. split; [done|]. left. split; [by apply plain_add|done].
Qed.

Lemma reading_steps tokens : ∀ st top frs st',
  reading st top frs → nested_from (List.length frs) tokens = true → svg_steps st tokens = Ok st' →
  ∃ top' frs', reading st' top' frs' ∧ read_so_far top' frs' = read_so_far top frs ++ tokens.
Proof.
  induction tokens as [|t tokens IH]; intros [d r sd style] top frs st' Hrd Hnest.
  { cbn. intros [= <-]. exists top, frs. by rewrite app_nil_r. }
  cbn [svg_steps]. intros (st1 & Hs & Hrun)%result_bind_Ok.
  assert (∃ top1 frs1, reading st1 top1 frs1 ∧ nested_from (List.length frs1) tokens = true ∧
            read_so_far top1 frs1 = read_so_far top frs ++ [t]) as (top1 & frs1 & Hrd1 & Hnest1 & E1).
  2: { destruct (IH _ _ _ _ Hrd1 Hnest1 Hrun) as (top' & frs' & Hrd' & E'). exists top', frs'. split; [done|].
       by rewrite E', E1, <-app_assoc. }
  destruct (is_leaf t) eqn:El.
  - pose proof (reading_leaf _ _ _ _ _ _ _ _ Hrd El Hs) as H1. pose proof (read_add (Leaf t) top frs) as H2.
    destruct (add_node (Leaf t) top frs) as [top1 frs1] eqn:Ea. exists top1, frs1. split; [done|]. split; [|done].
    replace (List.length frs1) with (List.length frs) by (destruct frs; cbn in Ea; injection Ea as <- <-; done).
    by destruct t.
  - destruct t as [| |n attr|c| |]; try discriminate El; cbn in Hnest.
    + exists top, (Frame n attr [] :: frs). split; [by eapply reading_start|]. split; [done|apply read_push].
    + destruct frs as [|f rest]; [done|]. pose proof (reading_end _ _ _ _ _ _ _ _ _ Hrd Hs) as H1. cbn in Hnest.
      pose proof (read_add (Elem (fr_name f) (fr_attr f) (fr_kids f) c) top rest) as H2.
      destruct (add_node (Elem _ _ _ c) top rest) as [top1 frs1] eqn:Ea. exists top1, frs1. split; [done|]. split; [|by rewrite H2, read_pop].
      replace (List.length frs1) with (List.length rest) by (destruct rest; cbn in Ea; injection Ea as <- <-; done). done.
Qed.

(** One root among blank leaves. *)
Lemma one_root top :
  Forall (λ n, blank_leaf n ∨ is_root n) top → List.length (List.filter is_elem top) = 1%nat →
  ∃ before name attr kids close after, top = before ++ Elem name attr kids close :: after ∧
    Forall blank_leaf before ∧ Forall blank_leaf after ∧ is_root (Elem name attr kids close).
Proof.
  assert (∀ l, Forall (λ n, blank_leaf n ∨ is_root n) l → List.length (List.filter is_elem l) = 0%nat → Forall blank_leaf l) as Hnone.
  { induction 1 as [|[n a k c|t] l Hn Hl IH]; cbn; [done|done|]. intros. constructor; [by destruct Hn|by apply IH]. }
  induction 1 as [|[n a k c|t] l Hn Hl IH]; cbn; [done| |].
  - intros [= E]. exists [], n, a, k, c, l. split; [done|]. split; [constructor|]. split; [by apply Hnone|]. by destruct Hn.
  - intros E. destruct (IH E) as (b & n & a & k & c & af & -> & Hb & Ha & Hr). exists (Leaf t :: b), n, a, k, c, af.
    split; [done|]. split; [constructor; [by destruct Hn|done]|done].
Qed.

(** ** Inert documents are accepted *)

Lemma inert_leaf_is t : inert_leaf t → is_leaf t = true.
Proof. by destruct t. Qed.

Lemma leaf_run d r sd style t : 0 < d → inert_leaf t → svg_step (Svg d r sd style) t = Ok (Svg d r sd (leaf_style sd style t)).
Proof. intros Hd Ht. apply svg_step_leaf; [by apply inert_leaf_is|]. split; [|done]. by destruct (decide (d = 0)); [lia|]. Qed.

Definition runs_inside (n : node) : Prop :=
  ∀ d r style, 0 < d → ∃ style', svg_steps (Svg d r 0 style) (flatten n) = Ok (Svg d r 0 style').

Lemma kids_run kids d r style : 0 < d → Forall runs_inside kids →
  ∃ style', svg_steps (Svg d r 0 style) (kids ≫= flatten) = Ok (Svg d r 0 style').
Proof.
  intros Hd Hk. revert style. induction Hk as [|k kids Hk _ IH]; intros style; [by exists style|]. cbn.
  rewrite svg_steps_app. destruct (Hk d r style Hd) as [s1 ->]. apply IH.
Qed.

Lemma style_run kids d r style : 0 < d → Forall (λ k, ∃ t, k = Leaf t ∧ inert_leaf t) kids →
  svg_steps (Svg d r d style) (kids ≫= flatten) = Ok (Svg d r d (style +:+ style_text kids)).
Proof.
  intros Hd Hk. revert style. induction Hk as [|k kids (t & -> & Ht) _ IH]; intros style; cbn; [by rewrite str_app_nil_r|].
  rewrite leaf_run by done. cbn. rewrite IH. unfold leaf_style. rewrite (proj2 (Z.ltb_lt 0 d)) by done. by rewrite str_app_assoc.
Qed.

Lemma elem_run name attr kids c d r style :
  0 ≤ d → (d = 0 → ToLower (Local name) = "svg") → inert css_safe (Elem name attr kids c) → Forall (λ k, inert css_safe k → runs_inside k) kids →
  ∃ style', svg_steps (Svg d r 0 style) (flatten (Elem name attr kids c)) = Ok (Svg d (if d =? 0 then r + 1 else r) 0 style').
Proof.
  intros Hd Hroot Hin Hruns. set (r' := if d =? 0 then r + 1 else r). cbn [flatten svg_steps].
  assert (∀ sd style, (sd = d + 1 → css_safe style) → sd = 0 ∨ sd = d + 1 →
    svg_steps (Svg (d + 1) r' sd style) [EndElement c] = Ok (Svg d r' 0 style)) as Hend.
  { intros sd st Hc Hsd. cbn [svg_steps]. rewrite (proj2 (svg_step_end _ _ _ _ _ _) (conj Hc eq_refl)). cbn.
    replace (d + 1 - 1) with d by lia. destruct Hsd as [->| ->]; [destruct (Z.eqb_spec 0 (d + 1)); [lia|done]|by rewrite Z.eqb_refl]. }
  assert (∀ st1, st1 = Svg (d + 1) r' (if is_style name then d + 1 else 0) (if is_style name then "" else style) →
    inert_name name → Forall (inert_attr css_safe) attr → svg_step (Svg d r 0 style) (StartElement name attr) = Ok st1) as Hstart.
  { intros st1 -> Hn Ha. apply svg_step_start. by repeat (split; [done|]). }
  inversion Hin as [|? ? ? ? Hn Ha Hs Hk|? ? ? ? Hn Ha Hs Hk Hc]; subst.
  - rewrite (Hstart _ eq_refl Hn Ha). unfold is_style. rewrite (proj2 (String.eqb_neq _ _) Hs). cbn. rewrite svg_steps_app.
    destruct (kids_run kids (d + 1) r' style ltac:(lia)) as [s1 ->].
    { apply Forall_forall. intros k Hkid. rewrite Forall_forall in Hruns, Hk. by apply Hruns, Hk. }
    exists s1. apply Hend; [lia|by left].
  - rewrite (Hstart _ eq_refl Hn Ha). unfold is_style. rewrite Hs. cbn. rewrite svg_steps_app, style_run by (done || lia).
    exists (style_text kids). by apply Hend; [|right].
Qed.

Lemma inert_runs n : inert css_safe n → runs_inside n.
Proof.
  induction n as [name attr kids c IH|t] using node_rect'; intros Hin d r style Hd.
  - destruct (elem_run name attr kids c d r style) as [s1 E]; [lia|lia|done|done|]. exists s1. rewrite E.
    by destruct (Z.eqb_spec d 0); [lia|].
  - inversion Hin; subst. cbn. rewrite leaf_run by done. by eexists.
Qed.

Lemma blank_run l r style : Forall blank_leaf l → svg_steps (Svg 0 r 0 style) (l ≫= flatten) = Ok (Svg 0 r 0 style).
Proof.
  induction 1 as [|n l Hn _ IH]; [done|]. destruct n as [|t]; [done|]. cbn [flatten mbind list_bind app svg_steps].
  assert (svg_step (Svg 0 r 0 style) t = Ok (Svg 0 r 0 style)) as ->; [|exact IH].
  apply svg_step_leaf; [by destruct t|]. by split.
Qed.

(** The loop accepts exactly the inert documents, when the tokens nest. *)
Lemma svg_steps_exact tokens : nested_from 0 tokens = true →
  (∃ st, svg_steps (Svg 0 0 0 "") tokens = Ok st ∧ sv_roots st = 1 ∧ sv_depth st = 0 ∧ sv_styleDepth st = 0) ↔ svg_document css_safe tokens.
Proof.
  intros Hnest. split.
  - intros (st & Hrun & Hr & Hd & Hsd).
    assert (reading (Svg 0 0 0 "") [] []) as H0 by by split.
    destruct (reading_steps tokens _ [] [] st H0 Hnest Hrun) as (top & frs & [Hdep Htop Hroots _ _] & E).
    assert (frs = []) as -> by (destruct frs; [done|cbn in Hdep; lia]).
    destruct (one_root top Htop ltac:(lia)) as (b & n & a & k & c & af & -> & Hb & Haf & Hn & Hin).
    exists b, n, a, k, c, af. split; [|done]. unfold read_so_far in E. rewrite bind_app in E. cbn [rev mbind list_bind] in E. by rewrite !app_nil_r in E.
  - intros (b & n & a & k & c & af & -> & Hb & Haf & Hn & Hin).
    rewrite svg_steps_app, blank_run by done. cbn [mbind result_bind]. rewrite svg_steps_app.
    destruct (elem_run n a k c 0 0 "") as [s1 E]; [lia|done|done| |].
    { apply Forall_forall. intros. by apply inert_runs. }
    rewrite E. cbn [mbind result_bind]. rewrite blank_run by done. by eexists.
Qed.

Lemma checkSVG_exact `{XmlDecoder} body : nested_from 0 (xml_tokens body).1 = true →
  checkSVG body = Ok tt ↔ (xml_tokens body).2 = true ∧ svg_document css_safe (xml_tokens body).1.
Proof.
  unfold checkSVG. destruct (xml_tokens body) as [tokens eof]. cbn [fst snd]. intros Hn. rewrite <-svg_steps_exact by done.
  rewrite result_bind_Ok. setoid_rewrite guard_bind_Ok. setoid_rewrite guard_Ok_tt.
  setoid_rewrite orb_false_iff. setoid_rewrite orb_false_iff. setoid_rewrite negb_false_iff. setoid_rewrite Z.eqb_eq.
  split; [intros (st & Hs & -> & [Hr Hd] & Hsd); split; [done|by exists st]|].
  intros (-> & st & Hs & Hr & Hd & Hsd). by exists st.
Qed.
End Inert.

(** ** base64 *)

Definition sextet (v : Z) : Prop := 0 ≤ v < 64.
Definition octet (b : Z) : Prop := 0 ≤ b < 256.

Lemma b64_digit_spec v : sextet v →
  b64_value false (byte_of (b64_digit v)) = Some v ∧ (byte_of (b64_digit v) =? 61) = false ∧
  ((byte_of (b64_digit v) =? 10) || (byte_of (b64_digit v) =? 13)) = false.
Proof.
  intros Hv. unfold sextet in Hv.
  assert (forallb (λ v, bool_decide (b64_value false (byte_of (b64_digit v)) = Some v) && negb (byte_of (b64_digit v) =? 61)
    && negb ((byte_of (b64_digit v) =? 10) || (byte_of (b64_digit v) =? 13))) (zrange 0 63) = true) as Hall by (vm_compute; reflexivity).
  pose proof (forallb_zrange _ 0 63 v Hall ltac:(lia)) as E. apply andb_prop in E as [[E1 E2]%andb_prop E3].
  apply bool_decide_eq_true in E1. by rewrite negb_true_iff in E2, E3.
Qed.

Lemma b64_value_sextet b v : b64_value false b = Some v → sextet v.
Proof.
  unfold b64_value, sextet. repeat match goal with |- context [if ?c then _ else _] => destruct c eqn:? end; intros [= <-];
    repeat match goal with E : in_range _ _ _ = true |- _ => apply in_range_true in E end; lia.
Qed.

(** A check of two octets, and of their parts. *)
Lemma octets2 (f : Z → Z → bool) n m a b :
  forallb (λ a, forallb (f a) (zrange 0 m)) (zrange 0 n) = true → 0 ≤ a ≤ n → 0 ≤ b ≤ m → f a b = true.
Proof. intros Hall Ha Hb. pose proof (forallb_zrange _ 0 n a Hall Ha) as E. by apply (forallb_zrange _ 0 m b E). Qed.

Definition first_part (a : Z) : Z := Z.shiftr a 2.
Definition second_part (a b : Z) : Z := Z.lor (Z.shiftl (Z.land a 3) 4) (Z.shiftr b 4).
Definition third_part (b c : Z) : Z := Z.lor (Z.shiftl (Z.land b 15) 2) (Z.shiftr c 6).

Definition inb (x hi : Z) : bool := (0 <=? x) && (x <? hi).
Lemma inb_spec x hi : inb x hi = true ↔ 0 ≤ x < hi.
Proof. unfold inb. rewrite andb_true_iff, Z.leb_le, Z.ltb_lt. tauto. Qed.

Lemma parts_spec a b : octet a → octet b →
  sextet (first_part a) ∧ sextet (second_part a b) ∧ sextet (third_part a b) ∧ sextet (Z.land b 63) ∧
  Z.lor (Z.shiftl (first_part a) 2) (Z.shiftr (second_part a b) 4) = a ∧
  Z.land (second_part a b) 15 = Z.shiftr b 4 ∧
  Z.lor (Z.shiftl (Z.shiftr a 4) 4) (Z.shiftr (third_part a b) 2) = a ∧
  Z.lor (Z.shiftl (Z.land (third_part a b) 3) 6) (Z.land b 63) = b.
Proof.
  unfold octet, sextet. intros Ha Hb.
  assert (forallb (λ a, forallb (λ b, inb (first_part a) 64 && inb (second_part a b) 64 && inb (third_part a b) 64 && inb (Z.land b 63) 64
     && (Z.lor (Z.shiftl (first_part a) 2) (Z.shiftr (second_part a b) 4) =? a)
     && (Z.land (second_part a b) 15 =? Z.shiftr b 4)
     && (Z.lor (Z.shiftl (Z.shiftr a 4) 4) (Z.shiftr (third_part a b) 2) =? a)
     && (Z.lor (Z.shiftl (Z.land (third_part a b) 3) 6) (Z.land b 63) =? b)) (zrange 0 255)) (zrange 0 255) = true) as Hall by (vm_compute; reflexivity).
  pose proof (octets2 _ 255 255 a b Hall ltac:(lia) ltac:(lia)) as E. cbv beta in E. rewrite !andb_true_iff, !inb_spec, !Z.eqb_eq in E. tauto.
Qed.

(** Three octets give four digits, which give the octets back. *)
Lemma EncodeToString_groups l : Forall octet l →
  b64_groups StdEncoding (bytes_of (EncodeToString l)) = Some l ∧
  Forall (λ b, ((b =? 10) || (b =? 13)) = false) (bytes_of (EncodeToString l)).
Proof.
  assert (∀ v, sextet v → b64_value false (byte_of (b64_digit v)) = Some v) as Hval by (intros; by apply b64_digit_spec).
  assert (∀ v, sextet v → (byte_of (b64_digit v) =? 61) = false) as Hpad by (intros; by apply b64_digit_spec).
  assert (∀ v, sextet v → ((byte_of (b64_digit v) =? 10) || (byte_of (b64_digit v) =? 13)) = false) as Hnl by (intros; by apply b64_digit_spec).
  assert (∀ a, octet a → sextet (Z.shiftl (Z.land a 3) 4) ∧ Z.shiftl (Z.land a 3) 4 = second_part a 0) as Hz2.
  { intros a Ha. destruct (parts_spec a 0 Ha ltac:(by split)) as (_ & Hs & _). unfold second_part in *. cbn in *. rewrite Z.lor_0_r in *. by split. }
  induction l as [l IH] using (well_founded_induction (well_founded_ltof _ (@List.length Z))). unfold ltof in IH.
  intros Hl. destruct l as [|a [|b [|c r]]]; cbn [EncodeToString bytes_of].
  - by split.
  - apply Forall_cons in Hl as [Ha _]. destruct (parts_spec a 0 Ha ltac:(by split)) as (H1 & H2 & _ & _ & E1 & _).
    destruct (Hz2 a Ha) as [_ ->]. change (Z.shiftr a 2) with (first_part a). split.
    + cbn -[Z.eqb second_part first_part b64_digit]. rewrite !Hval by done. cbn -[second_part first_part]. by rewrite E1.
    + repeat (constructor; [by (apply Hnl || vm_compute)|]). constructor.
  - apply Forall_cons in Hl as [Ha [Hb _]%Forall_cons]. destruct (parts_spec a b Ha Hb) as (H1 & H2 & _ & _ & E1 & E2 & _).
    destruct (parts_spec b 0 Hb ltac:(by split)) as (_ & _ & H3 & _ & _ & _ & E3 & _).
    replace (Z.shiftl (Z.land b 15) 2) with (third_part b 0) by (unfold third_part; cbn; apply Z.lor_0_r).
    change (Z.shiftr a 2) with (first_part a). fold (second_part a b). split.
    + cbn -[Z.eqb second_part first_part third_part b64_digit Z.land Z.lor Z.shiftl Z.shiftr]. rewrite !Hval, !Hpad by done.
      cbn -[second_part first_part third_part Z.land Z.lor Z.shiftl Z.shiftr]. by rewrite E1, E2, E3.
    + repeat (constructor; [by (apply Hnl || vm_compute)|]). constructor.
  - apply Forall_cons in Hl as [Ha [Hb [Hc Hr]%Forall_cons]%Forall_cons]. destruct (parts_spec a b Ha Hb) as (H1 & H2 & _ & _ & E1 & E2 & _).
    destruct (parts_spec b c Hb Hc) as (_ & _ & H3 & H4 & _ & _ & E3 & E4). destruct (IH r ltac:(cbn; lia) Hr) as [IHg IHn].
    change (Z.shiftr a 2) with (first_part a). fold (second_part a b) (third_part b c). split.
    + cbn -[Z.eqb second_part first_part third_part b64_digit Z.land Z.lor Z.shiftl Z.shiftr b64_groups]. cbn [b64_groups StdEncoding b64_url b64_padded].
      rewrite !Hval, !Hpad by done. cbn -[second_part first_part third_part Z.land Z.lor Z.shiftl Z.shiftr b64_groups].
      rewrite IHg. cbn -[second_part first_part third_part Z.land Z.lor Z.shiftl Z.shiftr]. by rewrite E1, E2, E3, E4.
    + repeat (constructor; [by apply Hnl|]). exact IHn.
Qed.

Lemma DecodeString_EncodeToString l : Forall octet l → DecodeString StdEncoding (EncodeToString l) = Some l.
Proof.
  intros [Hg Hn]%EncodeToString_groups. unfold DecodeString. rewrite lfilter_all; [exact Hg|].
  intros b Hb. rewrite Forall_forall in Hn. by rewrite (Hn b Hb).
Qed.

Lemma group_octets va vb vc : sextet va → sextet vb → sextet vc →
  octet (Z.lor (Z.shiftl va 2) (Z.shiftr vb 4)) ∧ octet (Z.lor (Z.shiftl (Z.land vb 15) 4) (Z.shiftr vc 2)) ∧
  octet (Z.lor (Z.shiftl (Z.land vb 3) 6) vc).
Proof.
  unfold sextet, octet. intros Ha Hb Hc.
  assert (forallb (λ a, forallb (λ b, inb (Z.lor (Z.shiftl a 2) (Z.shiftr b 4)) 256 && inb (Z.lor (Z.shiftl (Z.land a 15) 4) (Z.shiftr b 2)) 256
     && inb (Z.lor (Z.shiftl (Z.land a 3) 6) b) 256) (zrange 0 63)) (zrange 0 63) = true) as Hall by (vm_compute; reflexivity).
  pose proof (octets2 _ 63 63 va vb Hall ltac:(lia) ltac:(lia)) as E1. pose proof (octets2 _ 63 63 vb vc Hall ltac:(lia) ltac:(lia)) as E2.
  cbv beta in E1, E2. rewrite !andb_true_iff, !inb_spec in E1, E2. tauto.
Qed.

Lemma b64_groups_octets enc l : ∀ d, b64_groups enc l = Some d → Forall octet d.
Proof.
  assert (∀ b v, b64_value (b64_url enc) b = Some v → sextet v) as Hv.
  { intros b v. unfold b64_value, sextet. repeat match goal with |- context [if ?c then _ else _] => destruct c eqn:? end; intros [= <-];
      repeat match goal with E : in_range _ _ _ = true |- _ => apply in_range_true in E end; lia. }
  assert (sextet 0) as H0 by by split.
  assert (∀ va vb d, sextet va → sextet vb → b64_two (b64_strict enc) va vb = Some d → Forall octet d) as Htwo.
  { intros va vb d Ha Hb. unfold b64_two. destruct (_ && _); [done|]. intros [= <-]. constructor; [|done]. by apply (group_octets va vb 0). }
  assert (∀ va vb vc d, sextet va → sextet vb → sextet vc → b64_three (b64_strict enc) va vb vc = Some d → Forall octet d) as Hthree.
  { intros va vb vc d Ha Hb Hc. unfold b64_three. destruct (_ && _); [done|]. intros [= <-]. do 2 (constructor; [by apply (group_octets va vb vc)|]). done. }
  induction l as [l IH] using (well_founded_induction (well_founded_ltof _ (@List.length Z))). unfold ltof in IH. intros d.
  destruct l as [|x [|y [|z [|w r]]]]; cbn [b64_groups].
  - intros [= <-]. constructor.
  - done.
  - destruct (b64_padded enc); [done|]. intros (va & Ha & (vb & Hb & Hd)%bind_Some)%bind_Some. eauto.
  - destruct (b64_padded enc); [done|]. intros (va & Ha & (vb & Hb & (vc & Hc & Hd)%bind_Some)%bind_Some)%bind_Some. eauto.
  - intros (va & Ha & (vb & Hb & Hd)%bind_Some)%bind_Some. destruct (b64_padded enc && (z =? 61)).
    { destruct (b64_padded enc && (w =? 61) && Nat.eqb (List.length r) 0); [eauto|done]. }
    apply bind_Some in Hd as (vc & Hc & Hd). destruct (b64_padded enc && (w =? 61)).
    { destruct (Nat.eqb (List.length r) 0); [eauto|done]. }
    apply bind_Some in Hd as (vd & Hd & (rest & Hr & [= <-])%bind_Some). apply IH in Hr; [|cbn; lia].
    destruct (group_octets va vb vc) as (G1 & G2 & _); [eauto..|]. destruct (group_octets 0 vc vd) as (_ & _ & G3); [eauto..|].
    do 3 (constructor; [done|]). done.
Qed.

(** ** Artifacts *)

Section Served.
Context `{GoUnicode} `{XmlDecoder} `{PngDecoder}.

(** The style texts of an accepted document: comments end, no escape, no
    import, and in an ASCII text every link stays in the document. *)
Definition css_inert (v : string) : Prop :=
  ∃ clean, stripCSSComments v = (clean, true) ∧ Contains clean "\" = false ∧ Contains (ToLower clean) "@import" = false ∧
           (is_ascii v = true → links_local clean).

Lemma css_safe_inert v : css_safe v → css_inert v.
Proof.
  intros Hv. pose proof Hv as (clean & Ec & Eb & Ei & _)%safeSVGCSSText_Ok. exists clean. do 3 (split; [done|]). intros Ha.
  destruct (safeSVGCSSText_ascii v Ha) as (b & Hb & Hloc). unfold css_safe in Hv. rewrite Hv in Hb. injection Hb as <-.
  destruct (Hloc eq_refl) as (clean' & Ec' & _ & _ & Hl). rewrite Ec in Ec'. by injection Ec' as <-.
Qed.

Lemma inert_attr_mono (p q : string → Prop) a : (∀ v, p v → q v) → inert_attr p a → inert_attr q a.
Proof. intros Hpq (Hb & Ho & Hl & Hs). do 3 (split; [assumption|]). auto. Qed.

Lemma inert_mono (p q : string → Prop) n : (∀ v, p v → q v) → inert p n → inert q n.
Proof.
  intros Hpq. induction n as [name attr kids c IH|t] using node_rect'; intros Hin; inversion Hin; subst; [| |by constructor].
  - apply inert_Elem; [done| |done|].
    + eapply Forall_impl; [done|]. intros. by eapply inert_attr_mono.
    + rewrite Forall_forall in IH |- *. intros k Hk. apply IH; [done|]. by eapply Forall_forall.
  - apply inert_Style; [done| |done|done|by apply Hpq]. eapply Forall_impl; [done|]. intros. by eapply inert_attr_mono.
Qed.

Lemma svg_document_mono (p q : string → Prop) tokens : (∀ v, p v → q v) → svg_document p tokens → svg_document q tokens.
Proof.
  intros Hpq (b & n & a & k & c & af & E & Hb & Ha & Hn & Hin). exists b, n, a, k, c, af.
  repeat (split; [done|]). by eapply inert_mono.
Qed.

(** C37: what a view keeps of an SVG is the text it was sent, within the limit of
    the view, and the tokens of that text are an inert document: one [svg] element
    among white space; no declaration, stylesheet instruction, script, foreign
    object, animation or embedded frame; no event handler and no base; every
    [href] and [src] names a fragment; every style text has its comments closed,
    no escape and no import, and, when it is ASCII, only links to fragments. *)
Theorem svg_artifact_inert art maxBytes content :
  nested_from 0 (xml_tokens (va_Body art)).1 = true → va_Type art = "image/svg+xml" → checkArtifact art maxBytes = Ok content →
  content = va_Body art ∧ len content ≤ maxBytes ∧ svg_document css_inert (xml_tokens content).1.
Proof.
  intros Hn Ht. unfold checkArtifact. rewrite Ht, String.eqb_refl, guard_bind_Ok, Z.ltb_ge, result_bind_Ok.
  intros (Hl & [] & Hs & [= <-]). split; [done|]. split; [done|]. apply checkSVG_exact in Hs as [_ Hdoc]; [|done].
  eapply svg_document_mono; [apply css_safe_inert|exact Hdoc].
Qed.

(** What a view keeps of a PNG is the canonical base64 of the bytes it checked,
    and those bytes are what it serves. *)
Lemma png_artifact_served art maxBytes content :
  va_Type art = "image/png" → checkArtifact art maxBytes = Ok content →
  ∃ decoded w h, decode_body (TrimSpace (va_Body art)) = Some decoded ∧ artifact_body "image/png" content = Some decoded ∧
    Z.of_nat (List.length decoded) ≤ maxBytes ∧ take 8 decoded = pngSignature ∧ png_config decoded = Some (w, h) ∧
    png_decodes decoded = true ∧ 0 < w ∧ 0 < h ∧ w * h ≤ maxArtifactPixels.
Proof.
  intros Ht. unfold checkArtifact. rewrite Ht. cbn [String.eqb Ascii.eqb Bool.eqb]. unfold checkPNG, artifact_body.
  destruct (decode_body (TrimSpace (va_Body art))) as [decoded|] eqn:Ed; [|done]. rewrite !guard_bind_Ok, Z.ltb_ge, negb_false_iff, bool_decide_eq_true.
  intros (Hl & Hsig & Hc). destruct (png_config decoded) as [[w h]|] eqn:Ec; [|done]. rewrite !guard_bind_Ok in Hc.
  rewrite !orb_false_iff, negb_false_iff, !Z.ltb_ge, !Z.leb_gt in Hc. destruct Hc as ([Hw Hh] & [[Hw' Hh'] Hp] & Hdec & [= <-]).
  exists decoded, w, h. rewrite wrap64_small in Hp by (unfold maxArtifactPixels, int64_min, int64_max in *; nia).
  assert (Forall octet decoded) as Ho.
  { unfold decode_body, DecodeString in Ed. destruct (b64_groups StdEncoding _) eqn:E1; [injection Ed as <-; by eapply b64_groups_octets|by eapply b64_groups_octets]. }
  cbn [String.eqb Ascii.eqb Bool.eqb]. by rewrite DecodeString_EncodeToString.
Qed.
End Served.

(** A decoder of one document, for the examples. *)
Definition decoder_of (tokens : list xml_Token) : XmlDecoder := {| xml_tokens := λ _, (tokens, true) |}.
Definition no_png : PngDecoder := {| png_config := λ _, None; png_decodes := λ _, false |}.
Definition svg_name (n : string) : xml_Name := XmlName svg_ns n.
Definition plain_attr (n v : string) : xml_Attr := XmlAttr (XmlName "" n) v.

Definition drawing : list xml_Token :=
  [ProcInst "xml" "version=1.0"; StartElement (svg_name "svg") [plain_attr "viewBox" "0 0 10 10"];
   StartElement (svg_name "style") []; CharData ".a{fill:url(#g)/* ink */}"; EndElement (svg_name "style");
   StartElement (svg_name "use") [plain_attr "href" " #g"; plain_attr "stroke" "URL('#s')"]; EndElement (svg_name "use"); Comment "end";
   EndElement (svg_name "svg"); CharData " "].

Lemma svg_artifact_inert_witness :
  len "<svg/>" ≤ 1024 ∧ @svg_document ascii_unicode (@css_inert ascii_unicode) drawing.
Proof.
  split; [vm_compute; discriminate|].
  exact (proj2 (proj2 (@svg_artifact_inert ascii_unicode (decoder_of drawing) no_png (ViewArtifact 0 "image/svg+xml" "<svg/>" "") 1024 "<svg/>"
    ltac:(vm_compute; reflexivity) ltac:(reflexivity) ltac:(vm_compute; reflexivity)))).
Defined.

(** ** Letters that grow in lower case

    U+023A is two bytes and its lower case, U+2C65, three: the offsets found in
    the lower-cased text run past the end of the text, and the slice panics.
    Nothing between the check and the worker that called it recovers. *)

Definition grows_unicode : GoUnicode :=
  {| uni_lower := λ r, if r =? 570 then 11365 else r; uni_upper := λ r, r; uni_fold := Z.eqb |}.
Definition growing : string := str_concat (replicate 8 (encode_rune 570)).
Definition growing_svg : list xml_Token :=
  [StartElement (svg_name "svg") [plain_attr "style" (growing +:+ " fill:url(#a)")]; EndElement (svg_name "svg")].

Lemma growing_style_panics :
  @checkArtifact grows_unicode (decoder_of growing_svg) no_png (ViewArtifact 0 "image/svg+xml" "<svg/>" "") 1024 = Err slice_panic.
Proof. vm_compute. reflexivity. Qed.

(** The presentation attribute [cursor] takes a URL and is not among the
    attributes whose style text is checked. *)
Definition cursor_svg : list xml_Token :=
  [StartElement (svg_name "svg") [plain_attr "cursor" "url(https://example.com/c.png)"]; EndElement (svg_name "svg")].

Lemma cursor_link_accepted :
  @checkArtifact ascii_unicode (decoder_of cursor_svg) no_png (ViewArtifact 0 "image/svg+xml" "<svg/>" "") 1024 = Ok "<svg/>".
Proof. vm_compute. reflexivity. Qed.
