(* ===== verification/GitMeta.v ===== *)
(** * tinygit: repository metadata, ref files and hooks (metadata.go, backup_import.go, repository.go)

    The announcement and the state of a repository are Nostr events; the refs a
    state signs are written to files that the pre-receive hook, an awk script,
    reads.  How awk compares a field that looks like a number is the parameter
    [Awk]. *)

From S2P Require Import Prelude GoLib GoCodec GoLemmas GoStrings Nostr.

(** ** Names *)

(** The bytes of the raw string: solidus, reverse solidus, quotes, dollar,
    backquote, semicolon, ampersand, bar, parentheses and angle brackets. *)
Definition identifier_bad (b : Z) : bool := containsInt [47; 92; 34; 39; 36; 96; 59; 38; 124; 40; 41; 60; 62] b.
Definition validIdentifier (id : string) : bool :=
  if String.eqb id "" || String.eqb id "." || String.eqb id ".." || ContainsAny identifier_bad id then false
  else forallb (λ r, 32 <? rune_code r) (runes id).

(** [~^:?*], the opening bracket and the reverse solidus *)
Definition ref_bad (b : Z) : bool := containsInt [126; 94; 58; 63; 42; 91; 92] b.
Definition ref_part_ok (part : string) : bool :=
  negb (String.eqb part "" || HasPrefix part "." || HasSuffix part "." || HasSuffix part ".lock").
Definition validRef (s : string) : bool :=
  if negb (HasPrefix s "refs/") || String.eqb s "refs/" || Contains s "//" || Contains s ".." || Contains s "@{" then false
  else if ContainsAny ref_bad s then false
  else forallb (λ r, (32 <? rune_code r) && negb (rune_code r =? 127)) (runes s)
       && forallb ref_part_ok (Split s (char 47)).

Definition isObjectID (s : string) : bool :=
  (len s =? 40) && forallb (λ r, in_range 48 (rune_code r) 57 || in_range 97 (rune_code r) 102) (runes s).

Definition hex_byte (b : Z) : bool := in_range 48 b 57 || in_range 97 b 102.
Definition isPubKey (s : string) : bool := (len s =? 64) && String.eqb (Trim hex_byte s) "".

(** ** Metadata *)

Record Metadata := mkMetadata {
  md_Kind : Z; md_Author : string; md_Identifier : string; md_EventID : string; md_Private : bool;
  md_Clone : list string; md_Relays : list string; md_Maintainers : list string;
  md_Refs : gmap string string; md_Head : string }.

Definition KIND_ANNOUNCEMENT : Z := 30617.
Definition KIND_STATE : Z := 30618.

Definition validateHead (head : string) : result unit :=
  if String.eqb head "" then Ok tt
  else if negb (HasPrefix head "ref: ") then Err "invalid: HEAD must use ref: syntax"
  else
    let ref := TrimPrefix head "ref: " in
    if negb (HasPrefix ref "refs/heads/") && negb (HasPrefix ref "refs/tags/") then Err "invalid: HEAD must name a branch or tag"
    else guard_err (negb (validRef ref)) "invalid: HEAD ref".

(** The first offending ref of the range names the error. *)
Definition bad_ref (kv : string * string) : bool := negb (validRef kv.1) || negb (String.eqb kv.2 "") && negb (isObjectID kv.2).
Definition validateRefs (refs : gmap string string) : result unit :=
  match List.find bad_ref (map_to_list refs) with
  | Some kv => Err ("invalid: ref " +:+ kv.1)
  | None => Ok tt
  end.

(** One tag of an announcement. *)
Definition announcement_tag (m : Metadata) (tag : list string) : Metadata :=
  match tag with
  | name :: v :: r =>
    let '(mkMetadata k a i e p c rl mt rf h) := m in
    if String.eqb name "private" then mkMetadata k a i e (String.eqb v "true") c rl mt rf h
    else if String.eqb name "clone" then mkMetadata k a i e p (c ++ v :: r) rl mt rf h
    else if String.eqb name "relays" then mkMetadata k a i e p c (rl ++ v :: r) mt rf h
    else if String.eqb name "maintainers" then mkMetadata k a i e p c rl (mt ++ v :: r) rf h
    else m
  | _ => m
  end.

(** One tag of a state: the refs and HEAD read so far. *)
Definition nonzero_oid (v : string) : bool := negb (String.eqb v "") && isObjectID v && negb (String.eqb (Trim (Z.eqb 48) v) "").
Definition state_tag (acc : gmap string string * string) (tag : list string) : result (gmap string string * string) :=
  let '(refs, head) := acc in
  match tag with
  | [] => Ok acc
  | name :: r =>
    if String.eqb name "HEAD" then
      match r with
      | [v] => if String.eqb head "" then Ok (refs, v) else Err "invalid: repository state has multiple HEAD tags"
      | _ => Err "invalid: repository state has multiple HEAD tags"
      end
    else match r with
    | [] => Ok acc
    | v :: _ =>
      if HasPrefix name "refs/" then
        if bool_decide (is_Some (refs !! name)) || negb (nonzero_oid v) then Err ("invalid: ref " +:+ name +:+ " is not a SHA-1")
        else Ok (<[name := v]> refs, head)
      else Ok acc
    end
  end.
Fixpoint state_tags (acc : gmap string string * string) (tags : list (list string)) : result (gmap string string * string) :=
  match tags with [] => Ok acc | t :: r => acc ← state_tag acc t; state_tags acc r end.

Definition ParseMetadata (e : Event) : result Metadata :=
  guard_err (negb (Kind e =? KIND_ANNOUNCEMENT) && negb (Kind e =? KIND_STATE))
    ("unsupported: event kind " +:+ Itoa (Kind e) +:+ " is not GRASP repository metadata");;
  let id := Tag e "d" in
  guard_err (negb (validIdentifier id)) "invalid: repository identifier";;
  let m := mkMetadata (Kind e) (PubKey e) id (ID e) false [] [] [] ∅ "" in
  if Kind e =? KIND_ANNOUNCEMENT then mret (fold_left announcement_tag (etags e) m)
  else
    '(refs, head) ← state_tags (∅, "") (etags e);
    validateRefs refs;; validateHead head;;
    mret (mkMetadata (Kind e) (PubKey e) id (ID e) false [] [] [] refs head).

(** ** Ref files *)

Definition name_leb (a b : string) : bool := negb (str_ltb b a).
Definition sorted_refs (refs : gmap string string) : list (string * string) :=
  sort_by (λ a b : string * string, name_leb a.1 b.1) (map_to_list refs).
Definition ref_line (kv : string * string) : string := kv.1 +:+ " " +:+ kv.2 +:+ str1 10.
(** What [writeRefsFile] writes. *)
Definition refs_text (refs : gmap string string) : string := str_concat (ref_line <$> sorted_refs refs).

(** Lines of two fields, as [readRefsFile] and [nativeRefs] read them; [keep]
    tells which names stay. *)
Definition read_ref (keep : string → bool) (refs : gmap string string) (line : string) : gmap string string :=
  match Fields line with [ref; oid] => if keep ref then <[ref := oid]> refs else refs | _ => refs end.
Definition parse_refs (keep : string → bool) (text : string) : gmap string string :=
  fold_left (read_ref keep) (Split text (char 10)) ∅.
Definition readRefs (text : string) : gmap string string := parse_refs (λ _, true) text.

Definition internalRef (ref : string) : bool := HasPrefix ref "refs/tinyrelay/".

(** ** The hooks *)

(** awk's default fields: runs of blanks part them. *)
Fixpoint awk_go (cur : string) (s : string) : list string :=
  match s with
  | EmptyString => if String.eqb cur "" then [] else [cur]
  | String a r =>
    if (byte_of a =? 32) || (byte_of a =? 9) || (byte_of a =? 10)
    then (if String.eqb cur "" then [] else [cur]) ++ awk_go "" r
    else awk_go (cur +:+ String a "") r
  end.
Definition awk_fields (line : string) : list string := awk_go "" line.

(** The records of a file: its lines, without an empty last one. *)
Definition awk_records (text : string) : list string :=
  let lines := Split text (char 10) in
  if String.eqb (List.last lines "") "" then removelast lines else lines.

(** A field or a split piece that looks like a number is compared as one, and
    an array element never assigned is both zero and the empty string. *)
Class Awk := {
  looks_numeric : string → bool;
  num_same : string → string → bool;
  num_zero : string → bool;
}.

(** A decimal number spelt like an object name: digits, or digits, the letter
    e and digits; it is zero when the digits before the e are. *)
Fixpoint all_digits (s : string) : bool := match s with EmptyString => true | String a r => is_digit (byte_of a) && all_digits r end.
Fixpoint oid_numeric_go (some : bool) (s : string) : bool :=
  match s with
  | EmptyString => some
  | String a r =>
    if is_digit (byte_of a) then oid_numeric_go true r
    else (byte_of a =? 101) && some && negb (String.eqb r "") && all_digits r
  end.
Definition oid_numeric (s : string) : bool := oid_numeric_go false s.
Fixpoint oid_zero (s : string) : bool :=
  match s with EmptyString => true | String a r => if byte_of a =? 48 then oid_zero r else byte_of a =? 101 end.

(** POSIX awk: numeric strings are decimal floating constants. *)
Class AwkLaws `{Awk} := {
  looks_numeric_oid s : isObjectID s = true → looks_numeric s = oid_numeric s;
  num_zero_oid s : isObjectID s = true → oid_numeric s = true → num_zero s = oid_zero s;
}.

Section Hooks.
Context `{Awk}.

(** [expected[row[1]] = row[2]] of each record. *)
Definition awk_row (expected : gmap string (option string)) (line : string) : gmap string (option string) :=
  let row := awk_fields line in <[List.nth 0 row "" := nth_error row 1]> expected.
Definition awk_read (expected : gmap string (option string)) (text : option string) : gmap string (option string) :=
  match text with None => expected | Some t => fold_left awk_row (awk_records t) expected end.

(** [x = y] for a split piece, or nothing, and a field. *)
Definition awk_same (x : option string) (y : string) : bool :=
  match x with
  | None => if looks_numeric y then num_zero y else String.eqb y ""
  | Some x => if looks_numeric x && looks_numeric y then num_same x y else String.eqb x y
  end.

(** The pre-receive hook on the authority and the pending file: every line
    [old new ref] of the push must be expected. *)
Definition hook_line (expected : gmap string (option string)) (line : string) : bool :=
  match awk_fields line with [_; new; ref] => awk_same (mjoin (expected !! ref)) new | _ => false end.
Definition pre_receive (state pending : option string) (lines : list string) : bool :=
  forallb (hook_line (awk_read (awk_read ∅ state) pending)) lines.

(** The post-receive hook: the object names of the pending file for
    [git cat-file --batch-check], and whether its answer, [checked] without
    the newlines at its end, has three fields a line, the second not "missing". *)
Definition post_receive_asks (pending : string) : string :=
  str_concat ((λ line, List.nth 1 (awk_fields line) "" +:+ str1 10) <$> awk_records pending).
Definition post_receive_ok (checked : string) : bool :=
  forallb (λ line, match awk_fields line with [_; ty; _] => negb (String.eqb ty "missing") | _ => false end)
    (awk_records (TrimRight (Z.eqb 10) checked +:+ str1 10)).
End Hooks.

(** * tinygit: what the hooks read (repository.go)

    The pre-receive hook reads back exactly the refs that [writeRefsFile]
    wrote, and compares object names as awk does: as strings, but for names
    that look like numbers. *)

(** ** Runes and bytes *)

Lemma runes_above s (n : Z) : n < 128 → forallb (λ r, n <? rune_code r) (runes s) = true → Forall (λ b, n < b) (bytes_of s).
Proof.
  intros Hn. induction s as [|r rest Hsh Hr IH] using runes_ind; [constructor|]. rewrite Hr. cbn. intros [Hc Hrest]%andb_prop.
  rewrite bytes_of_app. apply Forall_app. split; [|by apply IH]. apply Z.ltb_lt in Hc. destruct Hsh as [b Hb|c src Hc' _ Hb|a Ha]; cbn in *.
  - constructor; [|done]. rewrite byte_of_char by lia. done.
  - eapply Forall_impl; [exact Hb|]. cbn. lia.
  - constructor; [lia|done].
Qed.

(** A text all of whose runes are ASCII of a class is bytes of that class. *)
Lemma runes_class s (f : Z → bool) : (∀ r, f r = true → r < 128) → forallb (λ r, f (rune_code r)) (runes s) = true →
  Forall (λ b, f b = true) (bytes_of s).
Proof.
  intros Hf. induction s as [|r rest Hsh Hr IH] using runes_ind; [constructor|]. rewrite Hr. cbn. intros [Hc Hrest]%andb_prop.
  rewrite bytes_of_app. apply Forall_app. split; [|by apply IH]. pose proof (Hf _ Hc). destruct Hsh as [b Hb|c src Hc' _ Hb|a Ha]; cbn in *.
  - constructor; [|done]. by rewrite byte_of_char by lia.
  - lia.
  - unfold RuneError in *. lia.
Qed.

Definition hex_rune (c : Z) : bool := in_range 48 c 57 || in_range 97 c 102.
Lemma isObjectID_hex s : isObjectID s = true → Forall (λ b, hex_rune b = true) (bytes_of s) ∧ String.length s = 40%nat.
Proof.
  unfold isObjectID, len. rewrite andb_true_iff, Z.eqb_eq. intros [Hl Hr]. split; [|lia]. apply (runes_class s hex_rune); [|exact Hr].
  intros c. unfold hex_rune. rewrite orb_true_iff, !in_range_true. lia.
Qed.

(** A word: bytes above the blank, at least one. *)
Definition word (s : string) : Prop := s ≠ "" ∧ Forall (λ b, 32 < b) (bytes_of s).

Lemma isObjectID_word s : isObjectID s = true → word s.
Proof.
  intros [Hh Hl]%isObjectID_hex. split; [by intros ->|]. eapply Forall_impl; [exact Hh|]. intros b. cbn. unfold hex_rune.
  rewrite orb_true_iff, !in_range_true. lia.
Qed.

Lemma validRef_word s : validRef s = true → word s.
Proof.
  unfold validRef. destruct (negb (HasPrefix s "refs/")) eqn:Ep; [done|]. destruct (String.eqb_spec s "refs/"); [done|]. cbn [orb].
  destruct (_ || _); [done|]. destruct (ContainsAny ref_bad s); [done|]. intros [Hr _]%andb_prop. split; [by intros ->|].
  apply (runes_above s 32); [done|]. rewrite forallb_elem in Hr |- *. intros r Hin. by specialize (Hr r Hin) as [? _]%andb_prop.
Qed.

Lemma word_no_char s c : word s → byte_of c ≤ 32 → no_char c s.
Proof. intros [_ Hs] Hc. eapply Forall_impl; [exact Hs|]. cbn. lia. Qed.

(** ** awk *)

Lemma split_line cur a rest : no_char (char 10) a → split_go (char 10) None cur (a +:+ String (char 10) rest) = (cur +:+ a) :: split_go (char 10) None "" rest.
Proof.
  revert cur. induction a as [|x a IH]; intros cur Ha; cbn [String.append split_go].
  - rewrite Ascii.eqb_refl. cbn. by rewrite str_app_nil_r.
  - apply Forall_cons in Ha as [Hx Ha]. destruct (Ascii.eqb_spec x (char 10)) as [->|_]; [done|]. cbn [andb]. rewrite IH by done. by rewrite str_app_assoc.
Qed.

Lemma Split_lines (l : list string) : Forall (no_char (char 10)) l → Split (str_concat ((λ s, s +:+ str1 10) <$> l)) (char 10) = l ++ [""].
Proof.
  unfold Split. induction 1 as [|s l Hs _ IH]; [done|]. cbn [fmap list_fmap str_concat]. rewrite str_app_assoc.
  change (str1 10 +:+ ?x) with (String (char 10) x). rewrite split_line by done. by rewrite IH.
Qed.

Lemma awk_records_lines (l : list string) : Forall (no_char (char 10)) l → awk_records (str_concat ((λ s, s +:+ str1 10) <$> l)) = l.
Proof. intros Hl. unfold awk_records. rewrite Split_lines by done. rewrite last_last. cbn. apply removelast_last. Qed.

Lemma awk_go_word cur s rest : Forall (λ b, 32 < b) (bytes_of s) → awk_go cur (s +:+ rest) = awk_go (cur +:+ s) rest.
Proof.
  revert cur. induction s as [|a s IH]; intros cur Hs; cbn [String.append]; [by rewrite str_app_nil_r|].
  apply Forall_cons in Hs as [Ha Hs]. cbn [awk_go]. destruct (_ || _) eqn:E; [rewrite !orb_true_iff, !Z.eqb_eq in E; lia|].
  rewrite IH by done. by rewrite str_app_assoc.
Qed.

Lemma awk_fields_two a b : word a → word b → awk_fields (a +:+ " " +:+ b) = [a; b].
Proof.
  intros [Ha Ha'] [Hb Hb']. unfold awk_fields. rewrite awk_go_word by done. cbn [String.append].
  change (" " +:+ b) with (String " " b). cbn [awk_go]. change (byte_of " ") with 32. cbn [Z.eqb orb Pos.eqb].
  rewrite (proj2 (String.eqb_neq a "") Ha). cbn [app]. f_equal. rewrite <-(str_app_nil_r b) at 1. rewrite awk_go_word by done. cbn.
  by rewrite (proj2 (String.eqb_neq b "") Hb).
Qed.

(** ** The hook reads what was written *)

Definition refs_valid (refs : gmap string string) : Prop :=
  ∀ ref oid, refs !! ref = Some oid → word ref ∧ isObjectID oid = true.

Definition put_row (m : gmap string (option string)) (kv : string * string) : gmap string (option string) := <[kv.1 := Some kv.2]> m.

Lemma fold_put_row l m k : NoDup l.*1 →
  fold_left put_row l m !! k = match list_to_map (M:=gmap string string) l !! k with Some v => Some (Some v) | None => m !! k end.
Proof.
  revert m. induction l as [|[a v] l IH]; intros m; [done|]. cbn [fmap list_fmap fst fold_left]. intros [Ha Hl]%NoDup_cons.
  rewrite IH by done. rewrite list_to_map_cons.
  destruct (decide (k = a)) as [->|Hne].
  - rewrite (not_elem_of_list_to_map_1 _ _ Ha), lookup_insert_eq. unfold put_row. by rewrite lookup_insert_eq.
  - rewrite !lookup_insert_ne by done. unfold put_row. by rewrite lookup_insert_ne.
Qed.

Lemma sorted_refs_perm refs : sorted_refs refs ≡ₚ map_to_list refs.
Proof. apply sort_by_perm. Qed.

Lemma awk_rows_two l m : Forall (λ kv : string * string, word kv.1 ∧ word kv.2) l →
  fold_left awk_row ((λ kv : string * string, kv.1 +:+ " " +:+ kv.2) <$> l) m = fold_left put_row l m.
Proof.
  intros Hl. revert m. induction Hl as [|[a b] l [Ha Hb] _ IH]; intros m; [done|]. cbn [fst snd] in Ha, Hb.
  cbn [fmap list_fmap fold_left fst snd]. rewrite IH. f_equal. unfold awk_row. by rewrite awk_fields_two.
Qed.

(** An earlier file keeps the names the later one does not list. *)
Lemma awk_read_refs refs m k : refs_valid refs →
  awk_read m (Some (refs_text refs)) !! k = match refs !! k with Some v => Some (Some v) | None => m !! k end.
Proof.
  intros Hv. assert (Forall (λ kv : string * string, word kv.1 ∧ word kv.2) (sorted_refs refs)) as Hw.
  { apply Forall_forall. intros [a b] Hin. rewrite sorted_refs_perm, elem_of_map_to_list in Hin. apply Hv in Hin as [? ?].
    split; [done|by apply isObjectID_word]. }
  cbn [awk_read]. unfold refs_text.
  replace (ref_line <$> sorted_refs refs) with ((λ s, s +:+ str1 10) <$> ((λ kv : string * string, kv.1 +:+ " " +:+ kv.2) <$> sorted_refs refs)).
  2: { rewrite <-list_fmap_compose. apply list_fmap_ext. intros _ [a b] _. unfold ref_line. cbn. by rewrite !str_app_assoc. }
  rewrite awk_records_lines.
  2: { apply Forall_fmap. eapply Forall_impl; [exact Hw|]. intros [a b] [Ha Hb]. cbn [fst snd] in *. change (no_char (char 10) (a +:+ " " +:+ b)).
       unfold no_char. rewrite !bytes_of_app.
       apply Forall_app. split; [by apply (word_no_char a)|]. apply Forall_app. split; [by repeat constructor|by apply (word_no_char b)]. }
  rewrite awk_rows_two by done. rewrite fold_put_row.
  - rewrite (list_to_map_proper _ (map_to_list refs)); [by rewrite list_to_map_to_list| |apply sorted_refs_perm].
    rewrite sorted_refs_perm. apply NoDup_fst_map_to_list.
  - rewrite sorted_refs_perm. apply NoDup_fst_map_to_list.
Qed.

(** ** Pushes *)

Section Push.
Context `{Awk} `{!AwkLaws}.

(** A name spelt like a number, and one spelt like zero. *)
Lemma awk_same_oid x new : isObjectID new = true → (∀ v, x = Some v → isObjectID v = true) →
  awk_same x new = true → x = Some new ∨ (oid_numeric new = true ∧ (x = None → oid_zero new = true) ∧ (∀ v, x = Some v → oid_numeric v = true)).
Proof.
  intros Hn Hx. unfold awk_same. destruct x as [v|].
  - specialize (Hx v eq_refl). rewrite !looks_numeric_oid by done. destruct (oid_numeric v) eqn:Ev, (oid_numeric new) eqn:En; cbn; intros Hs;
      try (left; by apply String.eqb_eq in Hs as ->). right. split; [done|]. split; [done|]. by intros ? [= <-].
  - rewrite looks_numeric_oid by done. destruct (oid_numeric new) eqn:En; [rewrite num_zero_oid by done; intros Hz; right; by repeat split|].
    intros ->%String.eqb_eq. by apply isObjectID_hex in Hn as [_ ?].
Qed.

Definition refs_file (text : option string) (refs : gmap string string) : Prop :=
  refs_valid refs ∧ match text with Some t => t = refs_text refs | None => refs = ∅ end.

Lemma awk_read_file text refs m k : refs_file text refs →
  awk_read m text !! k = match refs !! k with Some v => Some (Some v) | None => m !! k end.
Proof. intros [Hv Ht]. destruct text as [t|]; [subst; by apply awk_read_refs|]. subst. by rewrite lookup_empty. Qed.

(** What a push that the hook lets through may do to a ref: move it to the
    signed name of the pending file, or of the authority file when the pending
    one does not list it.  The exceptions are awk's. *)
Lemma pre_receive_signed state pending signed awaited lines line old new ref :
  refs_file state signed → refs_file pending awaited →
  pre_receive state pending lines = true → line ∈ lines → awk_fields line = [old; new; ref] → isObjectID new = true →
  (awaited ∪ signed) !! ref = Some new ∨
  (oid_numeric new = true ∧ ((awaited ∪ signed) !! ref = None → oid_zero new = true) ∧
   ∀ v, (awaited ∪ signed) !! ref = Some v → oid_numeric v = true).
Proof.
  intros Hs Hp Hpre Hin Hf Hn. unfold pre_receive in Hpre. rewrite forallb_elem in Hpre. specialize (Hpre line Hin).
  unfold hook_line in Hpre. rewrite Hf, (awk_read_file _ _ _ _ Hp), (awk_read_file _ _ _ _ Hs), lookup_empty in Hpre.
  assert (mjoin match awaited !! ref with Some v => Some (Some v) | None => match signed !! ref with Some v => Some (Some v) | None => None end end
          = (awaited ∪ signed) !! ref) as E by (rewrite lookup_union; by destruct (awaited !! ref), (signed !! ref)).
  rewrite E in Hpre. apply awk_same_oid; [done| |done].
  intros v Hv. apply lookup_union_Some_raw in Hv as [Hv|[_ Hv]]; [by apply (proj1 Hp) in Hv as [_ ?]|by apply (proj1 Hs) in Hv as [_ ?]].
Qed.
End Push.
