(* ===== verification/GitRelay.v ===== *)
(** * tinygit: the Git relay (gitrelay.go, admission.go, journal.go, repository.go, archive.go, recovery_refs.go)

    A relay keeps events in the store ([Store.DB], through internal/gitstore),
    bare repositories and journals on disk and two maps in memory.  An operation
    is an [act]: it leaves the worlds a crash may find, its last world and its
    result.  The git binary is the parameter [Git]; the callbacks of [Config]
    are fields of [GitConfig]. *)

From S2P Require Import Prelude GoLib GoCodec GoLemmas GoStrings Nostr Filter Store StoreQuery GitMeta.

(** ** Repositories and the world *)

Record Repository := mkRepository {
  rp_Owner : string; rp_Identifier : string; rp_EventID : string; rp_Private : bool;
  rp_Clone : list string; rp_Relays : list string; rp_Maintainers : list string;
  rp_Refs : gmap string string; rp_Head : string; rp_Alternative : bool }.
Definition no_repository : Repository := mkRepository "" "" "" false [] [] [] ∅ "" false.
Definition with_refs (refs : gmap string string) (head : string) (r : Repository) : Repository :=
  mkRepository (rp_Owner r) (rp_Identifier r) (rp_EventID r) (rp_Private r) (rp_Clone r) (rp_Relays r) (rp_Maintainers r)
    refs head (rp_Alternative r).
Definition with_event (id : string) (r : Repository) : Repository :=
  mkRepository (rp_Owner r) (rp_Identifier r) id (rp_Private r) (rp_Clone r) (rp_Relays r) (rp_Maintainers r)
    (rp_Refs r) (rp_Head r) (rp_Alternative r).

Record GitFeatures := mkGitFeatures { gf_Grasp : bool; gf_Grasp02 : bool; gf_Grasp03 : bool; gf_Grasp05 : bool; gf_Grasp06 : bool; gf_Grasp08 : bool }.
Record GitPolicy := mkGitPolicy { gp_Reads : string; gp_Features : GitFeatures }.
Definition PrivateServiceEnabled (p : GitPolicy) : bool :=
  gf_Grasp (gp_Features p) && gf_Grasp08 (gp_Features p) && String.eqb (gp_Reads p) "members".

(** The callbacks see the host's store. *)
Record GitConfig := mkGitConfig {
  gc_authorize : option (DB → Event → Repository → result unit);
  gc_maintainers : option (DB → Repository → string → bool);
  gc_policy : GitPolicy;
  gc_serviceURL : string;
  gc_grasp06 : bool;
  gc_eventSync : bool;
  gc_onPromote : option (string → Repository → DB → DB * result unit) }.

Record journalRecord := mkJournal {
  jr_Repository : string; jr_EventID : string; jr_Kind : Z; jr_Refs : gmap string string; jr_Head : string }.

(** The git binary on a bare repository: [init], [cat-file --batch-check] on
    its input, [for-each-ref], [update-ref --stdin], [update-ref -d],
    [symbolic-ref HEAD ref] and [symbolic-ref -q HEAD]; [None] is a failure. *)
Class Git := {
  gitdir : Type;
  git_init : gitdir;
  cat_file : gitdir → string → option string;
  for_each_ref : gitdir → option string;
  update_refs : gitdir → string → option gitdir;
  delete_ref : gitdir → string → option gitdir;
  set_head : gitdir → string → option gitdir;
  get_head : gitdir → option string;
}.

(** [key]: owner and identifier, parted by a NUL. *)
Definition key (owner identifier : string) : string := owner +:+ str1 0 +:+ identifier.

Section Relay.
Context `{Git} `{NostrCrypto} `{GoUnicode} `{GoFTS} `{GoURL} `{Awk}.

(** A bare repository: git's part, and the files tinyrelay.refs,
    tinyrelay.pending and tinyrelay.pending.head. *)
Record RepoDir := mkDir {
  rd_git : gitdir; rd_state : option string; rd_pending : option string; rd_pending_head : option string }.

(** [repoPath]: under prs/ or not, owner, identifier. *)
Definition gpath : Type := bool * string * string.
Definition repoPath (r : Repository) : gpath := (rp_Alternative r, rp_Owner r, rp_Identifier r).

(** [w_journal] is the journal directory by file name, a file being its record. *)
Record World := mkWorld {
  w_db : DB; w_dirs : gmap gpath RepoDir; w_journal : gmap string journalRecord;
  w_repos : gmap string Repository; w_pending : gset string }.

Definition on_dirs (f : gmap gpath RepoDir → gmap gpath RepoDir) (w : World) : World :=
  mkWorld (w_db w) (f (w_dirs w)) (w_journal w) (w_repos w) (w_pending w).
Definition on_journal (f : gmap string journalRecord → gmap string journalRecord) (w : World) : World :=
  mkWorld (w_db w) (w_dirs w) (f (w_journal w)) (w_repos w) (w_pending w).
Definition on_repos (f : gmap string Repository → gmap string Repository) (w : World) : World :=
  mkWorld (w_db w) (w_dirs w) (w_journal w) (f (w_repos w)) (w_pending w).
Definition on_pending (f : gset string → gset string) (w : World) : World :=
  mkWorld (w_db w) (w_dirs w) (w_journal w) (w_repos w) (f (w_pending w)).
Definition on_db (f : DB → DB) (w : World) : World :=
  mkWorld (f (w_db w)) (w_dirs w) (w_journal w) (w_repos w) (w_pending w).

(** ** Actions *)

Definition act (A : Type) : Type := World → list World * World * result A.
#[export] Instance act_ret : MRet act := λ A a w, ([], w, Ok a).
#[export] Instance act_bind : MBind act := λ A B f m w,
  match m w with
  | (l, w, Ok a) => let '(l', w', r) := f a w in (l ++ l', w', r)
  | (l, w, Err e) => (l, w, Err e)
  end.
Definition get {A} (f : World → act A) : act A := λ w, f w w.
Definition lift {A} (r : result A) : act A := λ w, ([], w, r).
Definition fail {A} (m : string) : act A := lift (Err m).
(** One statement that leaves a new world. *)
Definition put (f : World → World) : act unit := λ w, ([f w], f w, Ok tt).
Fixpoint each {A} (f : A → act unit) (l : list A) : act unit :=
  match l with [] => mret tt | a :: r => f a;; each f r end.

(** ** The store behind the engine (internal/gitstore) *)

Definition gs_Query (db : DB) (f : Filter) (now limit : Z) : list Event :=
  R_Events (Query db f (mkQueryOptions now (mkAccess [] true false) limit None)).
Definition gs_ErrDuplicate : string := "duplicate event".
Definition gs_Save (db : DB) (e : Event) (now : Z) : DB * result unit :=
  match Save db e (mkSaveOptions now "" [] None) with
  | (db, Ok _) => (db, Ok tt)
  | (db, Err m) => (db, Err (if String.eqb m ErrDuplicate then gs_ErrDuplicate else m))
  end.
Definition gs_Latest (db : DB) (kind : Z) (pubkey identifier : string) : option Event :=
  r_raw <$> head (merge_sort newest_first (List.filter (at_address pubkey kind identifier) (events db))).
Definition gs_Exists (db : DB) (id : string) (kind : Z) : bool :=
  existsb (λ r, String.eqb (r_id r) id && (r_kind r =? kind)) (events db).

(** ** Authority *)

Definition IsMaintainer (cfg : GitConfig) (db : DB) (r : Repository) (pubkey : string) : bool :=
  if String.eqb pubkey "" then false
  else if String.eqb pubkey (rp_Owner r) || contains (rp_Maintainers r) pubkey then true
  else match gc_maintainers cfg with Some f => f db r pubkey | None => false end.

Definition d_filter (kind : Z) (d : string) : Filter := mkFilter None None (Some [kind]) {["d" := [d]]} None None None "".

Definition of_metadata (m : Metadata) : Repository :=
  mkRepository (md_Author m) (md_Identifier m) (md_EventID m) (md_Private m) (md_Clone m) (md_Relays m) (md_Maintainers m)
    (md_Refs m) (md_Head m) false.

(** The first stored announcement that names the signer a maintainer. *)
Fixpoint first_announcement (cfg : GitConfig) (db : DB) (parse : Event → result Repository) (pubkey : string) (q : list Event) : Repository :=
  match q with
  | [] => no_repository
  | candidate :: r =>
    match parse candidate with
    | Ok ann => if IsMaintainer cfg db ann pubkey then ann else first_announcement cfg db parse pubkey r
    | Err _ => first_announcement cfg db parse pubkey r
    end
  end.

(** [parse] is the recursive call, on announcements. *)
Definition parseRepository_with (parse : Event → result Repository) (cfg : GitConfig) (w : World) (now : Z) (e : Event) : result Repository :=
  m ← ParseMetadata e;
  let state := of_metadata m in
  if md_Kind m =? KIND_ANNOUNCEMENT then mret state else
  let id := md_Identifier m in
  let not_maintainer := "blocked: state author is not an accepted repository maintainer" in
  let ann := default no_repository (w_repos w !! key (PubKey e) id) in
  ann ← (if String.eqb (rp_Owner ann) "" then
           match gs_Query (w_db w) (d_filter KIND_ANNOUNCEMENT id) now 0 with
           | [] => Err "blocked: repository announcement is missing"
           | q =>
             let ann := first_announcement cfg (w_db w) parse (PubKey e) q in
             guard_err (String.eqb (rp_Owner ann) "") not_maintainer;; mret ann
           end
         else mret ann);
  guard_err (negb (IsMaintainer cfg (w_db w) ann (PubKey e))) not_maintainer;;
  mret (mkRepository (rp_Owner ann) id (ID e) (rp_Private ann) (rp_Clone ann) (rp_Relays ann) (rp_Maintainers ann)
          (rp_Refs state) (rp_Head state) false).

(** The recursion is on announcements, which do not recur. *)
Definition parseRepository (cfg : GitConfig) (w : World) (now : Z) (e : Event) : result Repository :=
  parseRepository_with (λ c, m ← ParseMetadata c; mret (of_metadata m)) cfg w now e.

(** archive.go *)
Definition serviceListed (cfg : GitConfig) (r : Repository) : bool :=
  match url_parse (gc_serviceURL cfg) with
  | None => false
  | Some base =>
    if String.eqb (u_host base) "" then false else
    existsb (λ raw, match url_parse raw with
      | Some u => (String.eqb (u_scheme u) "http" || String.eqb (u_scheme u) "https") && EqualFold (u_host u) (u_host base)
                  && HasSuffix (TrimRightSlash (u_path u)) ("/" +:+ rp_Identifier r +:+ ".git")
      | None => false end) (rp_Clone r)
    && existsb (λ raw, match url_parse raw with
      | Some u => (String.eqb (u_scheme u) "ws" || String.eqb (u_scheme u) "wss") && EqualFold (u_host u) (u_host base)
      | None => false end) (rp_Relays r)
  end.
Definition archiveRelated (cfg : GitConfig) (w : World) (now : Z) (r : Repository) : bool :=
  existsb (λ c, match parseRepository cfg w now c with
    | Ok parsed => String.eqb (rp_Identifier parsed) (rp_Identifier r)
                   && (String.eqb (PubKey c) (rp_Owner r) || contains (rp_Maintainers parsed) (rp_Owner r))
    | Err _ => false end)
    (gs_Query (w_db w) (d_filter KIND_ANNOUNCEMENT (rp_Identifier r)) 0 0).
Definition validateArchiveAnnouncement (cfg : GitConfig) (w : World) (now : Z) (r : Repository) : result unit :=
  let f := gp_Features (gc_policy cfg) in
  guard_err (negb (String.eqb (gc_serviceURL cfg) "" || serviceListed cfg r || archiveRelated cfg w now r
                   || bool_decide (rp_Clone r = []) && bool_decide (rp_Relays r = []) && gf_Grasp02 f && gf_Grasp05 f))
    "blocked: archive repository admission requires GRASP-02 and GRASP-05".

Definition unsupported_kind (e : Event) : string :=
  "unsupported: event kind " +:+ Itoa (Kind e) +:+ " is not GRASP repository metadata".
Definition is_metadata (e : Event) : bool := (Kind e =? KIND_ANNOUNCEMENT) || (Kind e =? KIND_STATE).

Definition Validate_metadata (cfg : GitConfig) (w : World) (now : Z) (e : Event) : result Repository :=
  Nostr.Validate e;;
  guard_err (negb (is_metadata e)) (unsupported_kind e);;
  r ← parseRepository cfg w now e;
  (if Kind e =? KIND_ANNOUNCEMENT then validateArchiveAnnouncement cfg w now r else Ok tt);;
  (match gc_authorize cfg with
   | Some authorize => authorize (w_db w) e r
   | None => guard_err (negb (IsMaintainer cfg (w_db w) r (PubKey e))) "blocked: repository metadata must be signed by owner"
   end);;
  guard_err ((Kind e =? KIND_STATE) && String.eqb (rp_EventID r) "") "blocked: repository announcement is missing";;
  mret r.

(** scheduler.go *)
Definition ValidateImported (cfg : GitConfig) (w : World) (now : Z) (e : Event) : result Repository :=
  Nostr.Validate e;;
  guard_err (negb (is_metadata e)) ("unsupported: event kind " +:+ Itoa (Kind e));;
  r ← parseRepository cfg w now e;
  (match gc_authorize cfg with Some authorize => authorize (w_db w) e r | None => Ok tt end);;
  (if Kind e =? KIND_STATE
   then guard_err (String.eqb (rp_EventID r) "") "blocked: repository announcement is missing";; validateRefs (rp_Refs r)
   else Ok tt);;
  mret r.

Definition Capabilities (cfg : GitConfig) : list string :=
  let p := gc_policy cfg in let f := gp_Features p in
  ["GRASP-01"]
  ++ (if gf_Grasp02 f && gc_eventSync cfg then "GRASP-02" :: (if gf_Grasp03 f then ["GRASP-03"] else []) else [])
  ++ (if gc_grasp06 cfg || gf_Grasp06 f then ["GRASP-06"] else [])
  ++ (if PrivateServiceEnabled p then ["GRASP-08"] else []).

(** ** Repositories on disk (repository.go) *)

Definition refObjectIDs (refs : gmap string string) : list string := List.filter (λ oid, negb (String.eqb oid "")) (map_to_list refs).*2.

(** The lines of git's answer, one for each name asked for. *)
Definition all_present (oids : list string) (out : string) : bool :=
  let lines := Split (TrimSpace out) (char 10) in
  Nat.eqb (List.length lines) (List.length oids)
  && forallb (λ line, match Fields line with _ :: f :: _ => negb (String.eqb f "missing") | _ => false end) lines.
Definition objectsPresent (w : World) (r : Repository) (oids : list string) : bool :=
  match oids with
  | [] => true
  | _ =>
    match w_dirs w !! repoPath r with
    | None => false
    | Some d => match cat_file (rd_git d) (Join oids (str1 10) +:+ str1 10) with Some out => all_present oids out | None => false end
    end
  end.
Definition stateObjectsPresent (w : World) (r : Repository) : bool := objectsPresent w r (refObjectIDs (rp_Refs r)).

(** The hooks are installed with the repository and depend on its path alone. *)
Definition ensureRepo (r : Repository) : act unit := get (λ w,
  match w_dirs w !! repoPath r with
  | Some _ => mret tt
  | None => put (on_dirs <[repoPath r := mkDir git_init None None None]>)
  end).

Definition on_dir (r : Repository) (f : RepoDir → RepoDir) : act unit := put (on_dirs (alter f (repoPath r))).
Definition set_git (g : gitdir) (d : RepoDir) : RepoDir := mkDir g (rd_state d) (rd_pending d) (rd_pending_head d).
Definition set_state (text : string) (d : RepoDir) : RepoDir := mkDir (rd_git d) (Some text) (rd_pending d) (rd_pending_head d).
Definition set_pend (text : option string) (d : RepoDir) : RepoDir := mkDir (rd_git d) (rd_state d) text (rd_pending_head d).
Definition set_pend_head (text : option string) (d : RepoDir) : RepoDir := mkDir (rd_git d) (rd_state d) (rd_pending d) text.

(** A git command on the repository that changes it. *)
Definition git_command (r : Repository) (message : string) (f : gitdir → option gitdir) : act unit := get (λ w,
  match w_dirs w !! repoPath r with
  | None => fail message
  | Some d => match f (rd_git d) with Some g => on_dir r (set_git g) | None => fail message end
  end).

Definition nativeRefs (w : World) (r : Repository) : result (gmap string string) :=
  match w_dirs w !! repoPath r ≫= λ d, for_each_ref (rd_git d) with
  | Some out => Ok (parse_refs (λ ref, negb (internalRef ref)) (TrimSpace out))
  | None => Err "read native Git refs"
  end.

(** One command of the ref transaction. *)
Definition ref_command (previous next : gmap string string) (ref : string) : string :=
  match (if internalRef ref then None else next !! ref) with
  | Some oid => if bool_decide (previous !! ref = Some oid) then "" else "update " +:+ ref +:+ " " +:+ oid +:+ str1 10
  | None => if bool_decide (is_Some (previous !! ref)) then "delete " +:+ ref +:+ str1 10 else ""
  end.
Definition ref_transaction (previous next : gmap string string) : string :=
  let keys := elements (dom previous ∪ filter (λ ref, internalRef ref = false) (dom next)) in
  "start" +:+ str1 10 +:+ str_concat (ref_command previous next <$> sort_by name_leb keys)
  +:+ "prepare" +:+ str1 10 +:+ "commit" +:+ str1 10.
Definition projectNativeRefs (r : Repository) (next : gmap string string) : act unit := get (λ w,
  if negb (bool_decide (next = ∅)) && negb (objectsPresent w r (refObjectIDs next)) then mret tt else
  previous ← lift (nativeRefs w r);
  git_command r "project Git refs" (λ g, update_refs g (ref_transaction previous next))).

Definition writeState (r : Repository) : act unit :=
  ensureRepo r;;
  projectNativeRefs r (rp_Refs r);;
  on_dir r (set_state (refs_text (rp_Refs r)));;
  if String.eqb (rp_Head r) "" then mret tt
  else git_command r "install Git HEAD" (λ g, set_head g (TrimPrefix (rp_Head r) "ref: ")).

Definition writePendingState (r : Repository) : act unit :=
  ensureRepo r;;
  on_dir r (set_pend (Some (refs_text (rp_Refs r))));;
  if String.eqb (rp_Head r) "" then mret tt else on_dir r (set_pend_head (Some (rp_Head r +:+ str1 10))).

(** recovery_refs.go *)
Definition publishedNativeRefs (w : World) (r : Repository) : result (gmap string string) :=
  match w_dirs w !! repoPath r ≫= rd_state with
  | None => Ok ∅
  | Some text =>
    native ← nativeRefs w r;
    mret (filter (λ kv : string * string, native !! kv.1 = Some kv.2 ∧ internalRef kv.1 = false) (readRefs text))
  end.

(** ** Journals (journal.go) *)

Definition journalPath (r : journalRecord) : string := sha256_hex (jr_Repository r +:+ str1 0 +:+ jr_EventID r) +:+ ".json".
Definition writeJournal (r : journalRecord) : act unit := put (on_journal <[journalPath r := r]>).
Definition commitJournal (r : journalRecord) : act unit := put (on_journal (delete (journalPath r))).
Definition journal_of (repo : Repository) (id : string) (kind : Z) : journalRecord :=
  mkJournal (key (rp_Owner repo) (rp_Identifier repo)) id kind (rp_Refs repo) (rp_Head repo).

(** [os.ReadDir] sorts by name. *)
Definition journal_files (w : World) : list (string * journalRecord) :=
  sort_by (λ a b : string * journalRecord, name_leb a.1 b.1) (map_to_list (w_journal w)).
(** [strings.Cut(s, NUL)] *)
Definition cut_key (s : string) : option (string * string) :=
  match Index s (str1 0) with Some i => Some (take_str i s, drop_str (i + 1) s) | None => None end.

Definition is_pr_kind (k : Z) : bool := containsInt [1617; 1618; 1619] k.
Definition mark_pending (id : string) : act unit := put (on_pending (λ s, {[id]} ∪ s)).

Definition recoverJournal (file : string * journalRecord) : act unit :=
  let '(name, jr) := file in
  match cut_key (jr_Repository jr) with
  | None => fail ("git relay journal " +:+ name +:+ ": invalid repository")
  | Some (owner, id) =>
    lift (guard_err (String.eqb owner "" || String.eqb id "") ("git relay journal " +:+ name +:+ ": invalid repository"));;
    let r := mkRepository owner id "" false [] [] [] (jr_Refs jr) (jr_Head jr) false in
    ensureRepo r;;
    get (λ w,
      if jr_Kind jr =? KIND_STATE then
        match gs_Latest (w_db w) KIND_STATE owner id with
        | Some current =>
          if String.eqb (ID current) (jr_EventID jr) then
            if stateObjectsPresent w r
            then writeState r;; mark_pending (jr_EventID jr);; put (on_journal (delete name))
            else writePendingState r;; mark_pending (jr_EventID jr)
          else put (on_journal (delete name))
        | None => put (on_journal (delete name))
        end
      else if is_pr_kind (jr_Kind jr) && negb (stateObjectsPresent w r)
      then writePendingState r;; mark_pending (jr_EventID jr)
      else put (on_journal (delete name)))
  end.
Definition recoverJournals : act unit := get (λ w, each recoverJournal (journal_files w)).

(** ** Operations (admission.go) *)

Definition currentMetadata (w : World) (e : Event) : bool :=
  if negb (is_metadata e) then true
  else match gs_Latest (w_db w) (Kind e) (PubKey e) (Tag e "d") with
       | Some current => String.eqb (ID current) (ID e)
       | None => false
       end.

Definition IsPending (w : World) (id : string) : bool := bool_decide (id ∈ w_pending w).

(** An announcement keeps the refs of the owner's current state. *)
Definition retained_state (cfg : GitConfig) (w : World) (now : Z) (e : Event) (repo : Repository) : result Repository :=
  if Kind e =? KIND_ANNOUNCEMENT then
    match gs_Latest (w_db w) KIND_STATE (PubKey e) (Tag e "d") with
    | Some state => stateRepo ← parseRepository cfg w now state;
                    mret (with_event (ID state) (with_refs (rp_Refs stateRepo) (rp_Head stateRepo) repo))
    | None => mret repo
    end
  else mret repo.

Definition stageAfterStore (cfg : GitConfig) (now : Z) (e : Event) (repo : Repository) : act unit := get (λ w,
  if negb (currentMetadata w e) then mret tt else
  repo ← lift (retained_state cfg w now e repo);
  let jr := journal_of repo (ID e) (Kind e) in
  writeJournal jr;;
  put (on_repos <[key (rp_Owner repo) (rp_Identifier repo) := repo]>);;
  ensureRepo repo;;
  get (λ w,
    if Kind e =? KIND_STATE then
      if stateObjectsPresent w repo then writeState repo;; commitJournal jr
      else writePendingState repo;; mark_pending (ID e)
    else commitJournal jr)).

(** The host callback, when there is one. *)
Definition notify (cfg : GitConfig) (id : string) (repo : Repository) : act unit :=
  match gc_onPromote cfg with
  | None => mret tt
  | Some f => get (λ w, let '(db, r) := f id repo (w_db w) in put (on_db (λ _, db));; lift r)
  end.
Definition commitAfterStore (cfg : GitConfig) (now : Z) (e : Event) (repo : Repository) (fanout : bool) : act unit :=
  stageAfterStore cfg now e repo;;
  get (λ w, if negb (IsPending w (ID e)) && fanout then notify cfg (ID e) repo else mret tt).
Definition CommitAfterStore (cfg : GitConfig) (now : Z) (e : Event) (repo : Repository) : act unit := commitAfterStore cfg now e repo true.
Definition CommitAfterStoreNoNotify (cfg : GitConfig) (now : Z) (e : Event) (repo : Repository) : act unit := commitAfterStore cfg now e repo false.

Definition remove_pending_files (r : Repository) : act unit :=
  on_dir r (set_pend None);; on_dir r (set_pend_head None).

Definition promotePending (repo : Repository) : act bool := get (λ w,
  if negb (gs_Exists (w_db w) (rp_EventID repo) KIND_STATE) then mret false
  else if negb (stateObjectsPresent w repo) then mret false
  else if bool_decide (w_dirs w !! repoPath repo ≫= rd_pending = None) && negb (IsPending w (rp_EventID repo)) then mret false
  else
    writeState repo;;
    remove_pending_files repo;;
    put (on_pending (λ s, s ∖ {[rp_EventID repo]}));;
    commitJournal (journal_of repo (rp_EventID repo) KIND_STATE);;
    mret true).
Definition PromotePending (cfg : GitConfig) (repo : Repository) : act unit :=
  promoted ← promotePending repo;
  if promoted : bool then notify cfg (rp_EventID repo) repo else mret tt.

Definition expire_file (eventIDs : list string) (file : string * journalRecord) : act unit :=
  let '(name, jr) := file in
  if negb (contains eventIDs (jr_EventID jr)) then mret tt else
  (match cut_key (jr_Repository jr) with
   | Some (owner, id) => remove_pending_files (mkRepository owner id "" false [] [] [] ∅ "" false)
   | None => mret tt
   end);;
  put (on_journal (delete name)).
Definition ExpirePending (eventIDs : list string) : act unit :=
  match eventIDs with
  | [] => mret tt
  | _ => get (λ w, each (expire_file eventIDs) (journal_files w));; put (on_pending (λ s, s ∖ list_to_set eventIDs))
  end.

(** [order] is the order in which the map of repositories is ranged over. *)
Definition PruneRef (order : list Repository) (repository ref : string) : act unit :=
  if negb (validRef ref) then fail "git relay: invalid expired ref" else
  match List.find (λ c, String.eqb (key (rp_Owner c) (rp_Identifier c)) repository || String.eqb (rp_Identifier c) repository) order with
  | None => mret tt
  | Some found =>
    git_command found "exit status 1" (λ g, delete_ref g ref);;
    put (on_repos (alter (λ r, with_refs (delete ref (rp_Refs r)) (rp_Head r) r) (key (rp_Owner found) (rp_Identifier found))))
  end.

Definition publishPR (cfg : GitConfig) (now : Z) (e : Event) : act unit :=
  let id := if String.eqb (Tag e "d") "" then Tag e "a" else Tag e "d" in
  let commit := Tag e "c" in
  lift (guard_err (negb (validIdentifier id)) "invalid: PR repository identifier");;
  lift (guard_err (negb (String.eqb commit "") && negb (isObjectID commit)) "invalid: PR commit is not a SHA-1");;
  let r := mkRepository (PubKey e) id (ID e) false [] [] []
             (if String.eqb commit "" then ∅ else {["refs/nostr/" +:+ ID e := commit]}) "" true in
  get (λ w, lift (match gc_authorize cfg with Some authorize => authorize (w_db w) e r | None => Ok tt end));;
  let jr := journal_of r (ID e) (Kind e) in
  writeJournal jr;;
  get (λ w, let '(db, saved) := gs_Save (w_db w) e now in put (on_db (λ _, db));; lift saved);;
  ensureRepo r;;
  put (on_repos <[key (rp_Owner r) (rp_Identifier r) := r]>);;
  get (λ w, if stateObjectsPresent w r then writeState r;; commitJournal jr else writePendingState r;; mark_pending (ID e)).

Definition Publish (cfg : GitConfig) (now : Z) (e : Event) : act unit :=
  lift (Nostr.Validate e);;
  if negb (is_metadata e) then
    lift (guard_err (negb ((gc_grasp06 cfg || gf_Grasp06 (gp_Features (gc_policy cfg))) && is_pr_kind (Kind e))) (unsupported_kind e));;
    publishPR cfg now e
  else
    repo ← get (λ w, lift (Validate_metadata cfg w now e));
    get (λ w, let '(db, saved) := gs_Save (w_db w) e now in put (on_db (λ _, db));; lift saved);;
    CommitAfterStore cfg now e repo.

Definition removeRefFromPending (r : Repository) (ref : string) : act unit := get (λ w,
  match w_dirs w !! repoPath r ≫= rd_pending with
  | None => mret tt
  | Some text =>
    let kept := parse_refs (λ name, negb (String.eqb name ref)) text in
    on_dir r (set_pend (if bool_decide (kept = ∅) then None else Some (refs_text kept)))
  end).

Definition DeletePRRef (identity ref : string) : act unit :=
  match SplitN identity (char 58) 3 with
  | [kind; owner; id] =>
    lift (guard_err (negb (String.eqb kind "pr") && negb (String.eqb kind "30617") || negb (isPubKey owner)
                     || String.eqb id "" || ContainsAny (λ b, (b =? 47) || (b =? 92)) id) "invalid: PR repository identity");;
    lift (guard_err (negb (HasPrefix ref "refs/nostr/") || negb (len (TrimPrefix ref "refs/nostr/") =? 64)) "invalid: PR ref");;
    let r := mkRepository owner id "" false [] [] [] ∅ "" true in
    ensureRepo r;;
    git_command r "delete PR ref" (λ g, delete_ref g ref);;
    removeRefFromPending r ref
  | _ => fail "invalid: PR repository identity"
  end.

(** ** Opening (gitrelay.go, admission.go) *)

Definition parsed_repos (cfg : GitConfig) (w : World) (now : Z) (q : list Event) : gmap string Repository :=
  fold_left (λ acc raw, match parseRepository cfg w now raw with
    | Ok r => <[key (rp_Owner r) (rp_Identifier r) := r]> acc
    | Err _ => acc end) q ∅.

(** The announcement with the native refs that its signed state published. *)
Definition with_native (w : World) (coordinate : string) (ann : Repository) (repos : gmap string Repository) : result (gmap string Repository) :=
  refs ← publishedNativeRefs w ann;
  if bool_decide (refs = ∅) then mret repos
  else
    let head := match w_dirs w !! repoPath ann ≫= λ d, get_head (rd_git d) with Some h => "ref: " +:+ TrimSpace h | None => rp_Head ann end in
    mret (<[coordinate := with_refs refs head ann]> repos).
Fixpoint reload_native (l : list (string * Repository)) (repos : gmap string Repository) : act (gmap string Repository) :=
  match l with
  | [] => mret repos
  | (coordinate, ann) :: r =>
    ensureRepo ann;;
    repos ← get (λ w, lift (with_native w coordinate ann repos));
    reload_native r repos
  end.

(** The newest complete signed state of a repository without authority files. *)
Definition state_fallback (cfg : GitConfig) (w : World) (now : Z) (ann : Repository) : option Repository :=
  match w_dirs w !! repoPath ann ≫= rd_state, w_dirs w !! repoPath ann ≫= rd_pending with
  | None, None =>
    match gs_Query (w_db w) (mkFilter None (Some (rp_Owner ann :: rp_Maintainers ann)) (Some [KIND_STATE]) {["d" := [rp_Identifier ann]]} None None None "") now 0 with
    | newest :: _ =>
      match parseRepository cfg w now newest with
      | Ok state => if String.eqb (rp_Owner state) (rp_Owner ann) && stateObjectsPresent w state then Some state else None
      | Err _ => None
      end
    | [] => None
    end
  | _, _ => None
  end.
Definition reload_states (cfg : GitConfig) (w : World) (now : Z) (repos : gmap string Repository) : gmap string Repository :=
  fold_left (λ (acc : gmap string Repository) (cr : string * Repository), match state_fallback cfg w now cr.2 with Some s => <[cr.1 := s]> acc | None => acc end)
    (map_to_list repos) repos.

Definition reload_pr (w : World) (repos : gmap string Repository) (raw : Event) : gmap string Repository :=
  let identifier := if String.eqb (Tag raw "d") "" then Tag raw "a" else Tag raw "d" in
  if negb (validIdentifier identifier) || negb (isObjectID (Tag raw "c")) then repos else
  let pr := mkRepository (PubKey raw) identifier (ID raw) false [] [] [] ∅ "" true in
  match w_dirs w !! repoPath pr with
  | None => repos
  | Some _ =>
    let pr := match publishedNativeRefs w pr with Ok refs => if bool_decide (refs = ∅) then pr else with_refs refs "" pr | Err _ => pr end in
    <[key (PubKey raw) identifier := pr]> repos
  end.

Definition kinds_filter (kinds : list Z) : Filter := mkFilter None None (Some kinds) ∅ None None None "".
(** [order] is the order in which the announcements are ranged over. *)
Definition Reload (cfg : GitConfig) (order : gmap string Repository → list (string * Repository)) (now : Z) : act unit :=
  recoverJournals;;
  get (λ w,
    let repos := parsed_repos cfg w now (gs_Query (w_db w) (kinds_filter [KIND_ANNOUNCEMENT]) now 0) in
    repos ← reload_native (order repos) repos;
    get (λ w,
      let repos := reload_states cfg w now repos in
      let repos := fold_left (reload_pr w) (gs_Query (w_db w) (kinds_filter [1617; 1618; 1619]) now 0) repos in
      let pending := list_to_set (List.filter (λ id, negb (String.eqb id "")) ((λ f : string * journalRecord, jr_EventID f.2) <$> journal_files w)) in
      put (λ w, on_pending (λ _, pending) (on_repos (λ _, repos) w)))).

(** A crash keeps the store and the disk. *)
Definition crashed (w : World) : World := mkWorld (w_db w) (w_dirs w) (w_journal w) ∅ ∅.
Definition New (cfg : GitConfig) (order : gmap string Repository → list (string * Repository)) (now : Z) : act unit :=
  recoverJournals;; Reload cfg order now.

(** repository.go: the repository of a request. *)
Definition lookup_state (cfg : GitConfig) (w : World) (now : Z) (owner : string) (r : Repository) (states : list Event) : Repository :=
  match List.find (λ c, match parseRepository cfg w now c with Ok s => String.eqb (rp_Owner s) owner | Err _ => false end) states with
  | Some c =>
    match parseRepository cfg w now c with
    | Ok s => mkRepository (rp_Owner s) (rp_Identifier s) (rp_EventID s) (rp_Private s) (rp_Clone r) (rp_Relays r) (rp_Maintainers r) (rp_Refs s) (rp_Head s) false
    | Err _ => r
    end
  | None => r
  end.
Definition lookup_repo (cfg : GitConfig) (now : Z) (owner id : string) : act Repository := get (λ w,
  match w_repos w !! key owner id with
  | Some r => mret r
  | None =>
    match gs_Query (w_db w) (mkFilter None (Some [owner]) (Some [KIND_ANNOUNCEMENT]) {["d" := [id]]} None None None "") now 1 with
    | [] => fail "file does not exist"
    | ann :: _ =>
      r ← lift (parseRepository cfg w now ann);
      let r := lookup_state cfg w now owner r (gs_Query (w_db w) (d_filter KIND_STATE id) now 8) in
      put (on_repos <[key owner id := r]>);;
      mret r
    end
  end).

(** A push that git receives: the commands [lines], and the repository [g] with
    its objects and refs.  The hooks run before and after. *)
Definition post_receive (r : Repository) (g : gitdir) (pending : option string) : act unit :=
  match pending with
  | None => mret tt
  | Some text =>
    match cat_file g (post_receive_asks text) with
    | Some checked =>
      if post_receive_ok checked
      then on_dir r (λ d, mkDir (rd_git d) (Some text) None (rd_pending_head d)) else mret tt
    | None => mret tt
    end
  end.
Definition receive_pack (r : Repository) (lines : list string) (g : gitdir) : act unit := get (λ w,
  match w_dirs w !! repoPath r with
  | None => fail "not a git repository"
  | Some d =>
    lift (guard_err (negb (pre_receive (rd_state d) (rd_pending d) lines)) "tinyrelay: ref is not authorized by signed repository state");;
    on_dir r (set_git g);;
    post_receive r g (rd_pending d)
  end).

(** http.go: what a request asks of git: the page or the refs (GET), a fetch,
    or a push of a received pack. *)
Inductive git_request := Advertise | UploadPack | ReceivePack (lines : list string) (g : gitdir).
Definition attempt {A} (m : act A) : act (result A) := λ w, match m w with (l, w', r) => (l, w', Ok r) end.
Definition request_repo (w : World) (owner id : string) (alternative : bool) (found : result Repository) : result Repository :=
  match w_repos w !! key owner id with
  | Some c => if alternative && rp_Alternative c then Ok c else found
  | None => found
  end.
(** [ServeHTTP] past the path; [delivered] tells whether git's answer reached
    the client.  A refused push is an answer. *)
Definition ServeHTTP (cfg : GitConfig) (authorizeHTTP : option (Repository → result unit)) (now : Z) (owner id : string)
    (alternative : bool) (request : git_request) (delivered : bool) : act unit :=
  found ← attempt (lookup_repo cfg now owner id);
  r ← get (λ w, lift (request_repo w owner id alternative found));
  (if rp_Private r
   then lift (match authorizeHTTP with Some f => f r | None => Err "private repository requires authorization" end)
   else mret tt);;
  ensureRepo r;;
  match request with
  | Advertise => mret tt
  | UploadPack => if delivered then _ ← attempt (PromotePending cfg r); mret tt else mret tt
  | ReceivePack lines g =>
    _ ← attempt (receive_pack r lines g);
    if delivered then _ ← attempt (PromotePending cfg r); mret tt else mret tt
  end.
End Relay.
