(* ===== verification/GitInv.v ===== *)
(** * tinygit: a ref file holds what maintainers signed

    The authority and the pending file of a repository print refs that a
    validly signed state event lists, whose signer is the owner or was a
    maintainer in a database of the run.  Every operation keeps that, at each of
    its statements, so a crash does too; what the pre-receive hook lets through
    follows. *)

From S2P Require Import Prelude GoLib GoCodec GoLemmas GoStrings Nostr NostrProps Filter Store StoreQuery StoreInv StoreProps StoreMaint.
From S2P Require Import GitMeta GitRelay.

#[local] Arguments key : simpl never.

(** ** Keys *)

Definition no_nul (s : string) : Prop := no_char (char 0) s.

Lemma hex64_owner s : hex64 s = true → no_nul s ∧ s ≠ "".
Proof.
  unfold hex64, len. rewrite andb_true_iff, Z.eqb_eq. intros [Hl Hh]. split; [apply no_char_hex; [done|left; by vm_compute]|by intros ->].
Qed.

Lemma Index_nul a b : no_nul a → Index (a +:+ String (char 0) b) (str1 0) = Some (String.length a).
Proof.
  unfold no_nul, no_char, str1. induction a as [|x a IH]; intros Ha; cbn [String.append Index].
  - cbn. by destruct b.
  - apply Forall_cons in Ha as [Hx Ha]. cbn [String.prefix]. destruct (ascii_dec (char 0) x) as [<-|_]; [done|]. by rewrite IH.
Qed.

Lemma take_str_key a b : take_str (String.length a) (a +:+ b) = a.
Proof. induction a as [|x a IH]; cbn; [by destruct b|]. by rewrite IH. Qed.
Lemma drop_str_key a c b : drop_str (String.length a + 1) (a +:+ String c b) = b.
Proof. induction a as [|x a IH]; cbn; [by destruct b|]. exact IH. Qed.

Lemma cut_key_key o i : no_nul o → cut_key (key o i) = Some (o, i).
Proof.
  intros Ho. unfold cut_key, key. change (str1 0 +:+ i) with (String (char 0) i). rewrite Index_nul by done. by rewrite take_str_key, drop_str_key.
Qed.

Lemma key_inj o i o' i' : no_nul o → no_nul o' → key o i = key o' i' → o = o' ∧ i = i'.
Proof. intros Ho Ho' E. apply (f_equal cut_key) in E. rewrite !cut_key_key in E by done. by injection E. Qed.

(** ** Metadata *)

Lemma state_tag_valid acc tag acc' : state_tag acc tag = Ok acc' →
  (∀ ref oid, acc.1 !! ref = Some oid → isObjectID oid = true) → ∀ ref oid, acc'.1 !! ref = Some oid → isObjectID oid = true.
Proof.
  destruct acc as [refs head]. unfold state_tag. destruct tag as [|name r]; [by intros [= <-]|].
  destruct (String.eqb name "HEAD").
  { destruct r as [|v [|? ?]]; [done| |done]. destruct (String.eqb head ""); [|done]. by intros [= <-]. }
  destruct r as [|v r]; [by intros [= <-]|]. destruct (HasPrefix name "refs/"); [|by intros [= <-]].
  destruct (bool_decide _ || negb (nonzero_oid v)) eqn:E; [done|]. intros [= <-] Hacc ref oid. cbn.
  apply orb_false_iff in E as [_ E%negb_false_iff]. unfold nonzero_oid in E. apply andb_prop in E as [[_ E]%andb_prop _].
  destruct (decide (ref = name)) as [->|]; [rewrite lookup_insert_eq; by intros [= <-]|]. rewrite lookup_insert_ne by done. apply Hacc.
Qed.

Lemma state_tags_valid tags acc acc' : state_tags acc tags = Ok acc' →
  (∀ ref oid, acc.1 !! ref = Some oid → isObjectID oid = true) → ∀ ref oid, acc'.1 !! ref = Some oid → isObjectID oid = true.
Proof.
  revert acc. induction tags as [|t tags IH]; intros acc; cbn [state_tags]; [by intros [= <-]|].
  rewrite result_bind_Ok. intros (acc1 & H1 & H2) Hacc. apply (IH acc1); [done|]. by apply (state_tag_valid acc t).
Qed.

Lemma validateRefs_Ok refs ref oid : validateRefs refs = Ok tt → refs !! ref = Some oid → validRef ref = true.
Proof.
  unfold validateRefs. destruct (List.find bad_ref (map_to_list refs)) eqn:E; [done|]. intros _ Hr%elem_of_map_to_list.
  apply list_elem_of_In in Hr. apply (List.find_none _ _ E) in Hr. unfold bad_ref in Hr. apply orb_false_iff in Hr as [Hr _].
  by apply negb_false_iff in Hr.
Qed.

(** What metadata says of its event; the refs of a state are valid. *)
Lemma ParseMetadata_Ok e m : ParseMetadata e = Ok m →
  md_Kind m = Kind e ∧ md_Author m = PubKey e ∧ md_Identifier m = Tag e "d" ∧ md_EventID m = ID e ∧
  (Kind e = KIND_ANNOUNCEMENT ∨ Kind e = KIND_STATE) ∧ (Kind e = KIND_STATE → refs_valid (md_Refs m)).
Proof.
  unfold ParseMetadata. rewrite !guard_bind_Ok, andb_false_iff, !negb_false_iff, !Z.eqb_eq. intros (Hk & _ & Hm).
  destruct (Z.eqb_spec (Kind e) KIND_ANNOUNCEMENT) as [Ea|Na].
  - injection Hm as <-. set (m0 := mkMetadata _ _ _ _ _ _ _ _ _ _).
    assert (∀ tags m, let m' := fold_left announcement_tag tags m in
      md_Kind m' = md_Kind m ∧ md_Author m' = md_Author m ∧ md_Identifier m' = md_Identifier m ∧ md_EventID m' = md_EventID m) as Hf.
    { induction tags as [|t tags IH]; intros m; [done|]. cbn [fold_left]. destruct (IH (announcement_tag m t)) as (-> & -> & -> & ->).
      destruct m, t as [|name [|v r]]; try done. cbn. by repeat case_match. }
    destruct (Hf (etags e) m0) as (-> & -> & -> & ->). do 4 (split; [done|]). split; [by left|]. rewrite Ea. done.
  - apply result_bind_Ok in Hm as ([refs head] & Ht & Hm). apply result_bind_Ok in Hm as ([] & Hv & Hm). apply result_bind_Ok in Hm as ([] & _ & Hm).
    injection Hm as <-. cbn. do 4 (split; [done|]). split; [tauto|]. intros _ ref oid Hr. split; [by apply validRef_word, (validateRefs_Ok refs ref oid)|].
    eapply (state_tags_valid _ _ _ Ht); [|exact Hr]. intros ? ? E. cbn in E. by rewrite lookup_empty in E.
Qed.

(** ** Signed refs *)

Section Signed.
Context `{Git} `{NostrCrypto} `{GoUnicode} `{GoFTS} `{GoURL} `{Awk}.
Context (cfg : GitConfig).
(** An identifier names one event of the run: its kind. *)
Context (kind_of : string → Z).
(** The databases of the run. *)
Context (S : DB → Prop).

Definition seen (e : Event) : Prop := Nostr.Validate e = Ok tt ∧ kind_of (ID e) = Kind e.
Definition stored (db : DB) : Prop := WF db ∧ ∀ r, r ∈ events db → seen (r_raw r).

(** [pk] speaks for the repository [i] of [o]: it is [o], or an announcement
    that [o] signed for [i] stood in a database of the run where [pk] was a
    maintainer by it. *)
Definition vouched (o i pk : string) : Prop :=
  pk = o ∨ ∃ db a m, S db ∧ a ∈ r_raw <$> events db ∧ seen a ∧ Kind a = KIND_ANNOUNCEMENT ∧ PubKey a = o ∧ i ∈ TagValues a "d" ∧
    ParseMetadata a = Ok m ∧ IsMaintainer cfg db (of_metadata m) pk = true.

(** A state lists the ref; or it is the ref of a pull request of [o]. *)
Definition signed (o i ref oid : string) : Prop :=
  (∃ e m, seen e ∧ Kind e = KIND_STATE ∧ ParseMetadata e = Ok m ∧ md_Identifier m = i ∧ md_Refs m !! ref = Some oid ∧ vouched o i (PubKey e)) ∨
  (∃ e, seen e ∧ is_pr_kind (Kind e) = true ∧ PubKey e = o ∧ i ∈ [Tag e "d"; Tag e "a"] ∧ ref = "refs/nostr/" +:+ ID e ∧ Tag e "c" = oid).
Definition refs_signed (o i : string) (refs : gmap string string) : Prop :=
  refs_valid refs ∧ ∀ ref oid, refs !! ref = Some oid → signed o i ref oid.

Definition file_ok (o i : string) (text : option string) : Prop :=
  ∃ refs, refs_file text refs ∧ ∀ ref oid, refs !! ref = Some oid → signed o i ref oid.
Definition dir_ok (o i : string) (d : RepoDir) : Prop := file_ok o i (rd_state d) ∧ file_ok o i (rd_pending d).
Definition journal_ok (jr : journalRecord) : Prop :=
  ∃ o i, jr_Repository jr = key o i ∧ no_nul o ∧ (jr_Kind jr = KIND_STATE ∨ is_pr_kind (jr_Kind jr) = true → refs_signed o i (jr_Refs jr)).
(** A repository held in memory whose event is a state has that state's refs. *)
Definition refs_known (r : Repository) : Prop :=
  rp_Alternative r = false → kind_of (rp_EventID r) = KIND_STATE → refs_signed (rp_Owner r) (rp_Identifier r) (rp_Refs r).
Definition repo_ok (k : string) (r : Repository) : Prop :=
  (∃ i, k = key (rp_Owner r) i) ∧ no_nul (rp_Owner r) ∧ rp_Owner r ≠ "" ∧ refs_known r.

Record Inv (w : World) : Prop := {
  inv_db : S (w_db w) ∧ stored (w_db w);
  inv_dirs : ∀ o i d, w_dirs w !! (false, o, i) = Some d → dir_ok o i d;
  inv_journal : ∀ name jr, w_journal w !! name = Some jr → journal_ok jr;
  inv_repos : ∀ k r, w_repos w !! k = Some r → repo_ok k r;
}.

Lemma file_none o i : file_ok o i None.
Proof. exists ∅. split; [split; [|done]|]; intros ref oid E; by rewrite lookup_empty in E. Qed.

Lemma file_some o i refs : refs_signed o i refs → file_ok o i (Some (refs_text refs)).
Proof. intros [Hv Hs]. by exists refs. Qed.

(** ** Events of the store *)

Lemma query_seen w f now limit e : Inv w → e ∈ gs_Query (w_db w) f now limit →
  seen e ∧ e ∈ r_raw <$> events (w_db w) ∧ in_opt containsInt (Kinds f) (Kind e) = true ∧ in_opt contains (Authors f) (PubKey e) = true ∧
  (∀ v, FTags f !! "d" = Some [v] → v ∈ TagValues e "d").
Proof.
  intros HI He. destruct (inv_db _ HI) as [_ [Hwf Hseen]]. apply Query_sound in He as (r & Hr & <- & Hw).
  unfold where_cond, filter_cond in Hw. rewrite !andb_true_iff in Hw. destruct Hw as ((((_ & (((((_ & Ha) & Hk) & _) & _) & Ht)) & _) & _) & _).
  pose proof (row_fields _ _ Hwf Hr) as (_ & Ep & _ & Ek & _). rewrite Ep in Ha. rewrite Ek in Hk.
  split; [by apply Hseen|]. split; [by apply list_elem_of_fmap_2|]. split; [done|]. split; [done|]. intros v Hv.
  rewrite forallb_elem in Ht. specialize (Ht ("d", [v]) (proj2 (elem_of_map_to_list _ _ _) Hv)). cbn in Ht.
  apply has_tag_spec in Ht as (v' & Hv' & Hin); [|done|done|done]. by apply list_elem_of_singleton in Hv' as ->.
Qed.

Lemma latest_seen w kind pk d e : Inv w → gs_Latest (w_db w) kind pk d = Some e →
  seen e ∧ e ∈ r_raw <$> events (w_db w) ∧ Kind e = kind ∧ PubKey e = pk ∧ d_of e = d.
Proof.
  intros HI. destruct (inv_db _ HI) as [_ [Hwf Hseen]]. unfold gs_Latest.
  destruct (head (merge_sort newest_first (List.filter (at_address pk kind d) (events (w_db w))))) as [r|] eqn:E; [|done]. intros [= <-].
  assert (r ∈ List.filter (at_address pk kind d) (events (w_db w))) as [Hr Ha]%elem_of_lfilter.
  { rewrite <-(merge_sort_Permutation newest_first). by apply head_Some_elem_of. }
  apply at_address_row in Ha as (Ep & Ek & Ed). pose proof (row_fields _ _ Hwf Hr) as (_ & Ep' & _ & Ek' & Ed' & _).
  split; [by apply Hseen|]. split; [by apply list_elem_of_fmap_2|]. split_and!; congruence.
Qed.

Lemma seen_owner e : seen e → no_nul (PubKey e) ∧ PubKey e ≠ "" ∧ hex64 (ID e) = true.
Proof. intros [((Hid & Hpk & _) & _)%Validate_iff _]. split; [by apply hex64_owner|]. split; [by apply hex64_owner|done]. Qed.

(** ** Resolving a repository *)

Lemma first_announcement_Ok db parse pk q : rp_Owner (first_announcement cfg db parse pk q) ≠ "" →
  ∃ c, c ∈ q ∧ parse c = Ok (first_announcement cfg db parse pk q) ∧ IsMaintainer cfg db (first_announcement cfg db parse pk q) pk = true.
Proof.
  induction q as [|c q IH]; cbn [first_announcement]; [done|]. destruct (parse c) as [ann|] eqn:E; [destruct (IsMaintainer cfg db ann pk) eqn:Em|].
  - intros _. exists c. split; [set_solver|done].
  - intros (c' & Hc & ?)%IH. exists c'. split; [set_solver|done].
  - intros (c' & Hc & ?)%IH. exists c'. split; [set_solver|done].
Qed.

Lemma state_refs_signed e m o : seen e → Kind e = KIND_STATE → ParseMetadata e = Ok m → vouched o (md_Identifier m) (PubKey e) →
  refs_signed o (md_Identifier m) (md_Refs m).
Proof.
  intros Hs Hk Hm Hv. split; [by apply (ParseMetadata_Ok e m)|]. intros ref oid Hr. left. by exists e, m.
Qed.

(** What a resolved repository is. *)
Record resolved (e : Event) (r : Repository) : Prop := {
  rs_main : rp_Alternative r = false;
  rs_event : rp_EventID r = ID e;
  rs_id : rp_Identifier r = Tag e "d";
  rs_owner : no_nul (rp_Owner r) ∧ rp_Owner r ≠ "";
  rs_announced : Kind e = KIND_ANNOUNCEMENT → rp_Owner r = PubKey e;
  rs_signed : Kind e = KIND_STATE → refs_signed (rp_Owner r) (rp_Identifier r) (rp_Refs r);
  rs_refs : ∃ m, ParseMetadata e = Ok m ∧ rp_Refs r = md_Refs m;
}.

Lemma parseRepository_Ok w now e r : Inv w → seen e → parseRepository cfg w now e = Ok r → resolved e r.
Proof.
  intros HI He. unfold parseRepository, parseRepository_with. rewrite result_bind_Ok. intros (m & Hm & Hr).
  destruct (ParseMetadata_Ok e m Hm) as (Ek & Ea & Ei & Eid & Hkind & Hvalid). rewrite Ek in Hr.
  destruct (seen_owner e He) as (Hnul & Hne & _).
  destruct (Z.eqb_spec (Kind e) KIND_ANNOUNCEMENT) as [Ka|Na].
  { injection Hr as <-. split; cbn; rewrite ?Ea; try done; [by rewrite Ka|by exists m]. }
  destruct Hkind as [?|Ks]; [done|]. apply result_bind_Ok in Hr as (ann & Hann & Hr). rewrite guard_bind_Ok in Hr. destruct Hr as [Hmaint Hr].
  injection Hr as <-. apply negb_false_iff in Hmaint.
  assert (vouched (rp_Owner ann) (md_Identifier m) (PubKey e) ∧ no_nul (rp_Owner ann) ∧ rp_Owner ann ≠ "") as (Hv & Hn & Hn').
  2: { split; cbn; try done; [by intros _; apply (state_refs_signed e)|by exists m]. }
  destruct (String.eqb_spec (rp_Owner (default no_repository (w_repos w !! key (PubKey e) (md_Identifier m)))) "") as [E0|N0].
  - destruct (gs_Query (w_db w) (d_filter KIND_ANNOUNCEMENT (md_Identifier m)) now 0) as [|c0 q0] eqn:Eq; [done|].
    set (parse := λ c, m ← ParseMetadata c; mret (of_metadata m)) in Hann. pose proof (first_announcement_Ok (w_db w) parse (PubKey e) (c0 :: q0)) as Hfirst.
    set (fa := first_announcement cfg (w_db w) parse (PubKey e) (c0 :: q0)) in *. clearbody fa.
    rewrite guard_bind_Ok in Hann. destruct Hann as [Hno Hann]. injection Hann as ->.
    apply String.eqb_neq in Hno. destruct (Hfirst Hno) as (c & Hc & Hp & Hmc). rewrite <-Eq in Hc.
    apply result_bind_Ok in Hp as (mc & Hmc' & Hp). injection Hp as <-.
    apply query_seen in Hc as (Hs & Hin & Hk & _ & Ht); [|done].
    apply containsInt_spec, list_elem_of_singleton in Hk.
    destruct (ParseMetadata_Ok c mc Hmc') as (_ & Eac & _). destruct (seen_owner c Hs) as (Hcn & Hcn' & _). cbn [of_metadata rp_Owner]. rewrite Eac.
    split; [|done]. right. exists (w_db w), c, mc. split; [by apply inv_db|]. do 2 (split; [done|]). split; [done|]. split; [done|].
    split; [by apply Ht, lookup_singleton_eq|]. by split.
  - injection Hann as <-. destruct (w_repos w !! key (PubKey e) (md_Identifier m)) as [ann|] eqn:El; [|done]. cbn in *.
    destruct (inv_repos _ HI _ _ El) as ([i Hkey] & Ho & Hne' & _). apply key_inj in Hkey as [-> _]; [|done|done]. split; [by left|done].
Qed.

(** ** Rules for actions *)

(** As far as its databases are the run's, every world an action leaves is
    good, and its last one; a result it returns satisfies [Q]. *)
Definition keeps {A} (m : act A) (Q : A → Prop) : Prop := ∀ w l w' r, Inv w → m w = (l, w', r) →
  (∀ p s, l = p ++ s → Forall (λ w1, S (w_db w1)) p → Forall Inv p) ∧
  (Forall (λ w1, S (w_db w1)) l → Inv w' ∧ ∀ a, r = Ok a → Q a).

Lemma keeps_ret {A} (a : A) (Q : A → Prop) : Q a → keeps (mret a) Q.
Proof.
  intros HQ w l w' r HI [= <- <- <-]. split; [|intros _; split; [done|by intros ? [= <-]]].
  intros p s E _. by destruct p.
Qed.

Lemma keeps_lift {A} (x : result A) (Q : A → Prop) : (∀ a, x = Ok a → Q a) → keeps (lift x) Q.
Proof. intros HQ w l w' r HI [= <- <- <-]. split; [|done]. intros p s E _. by destruct p. Qed.

Lemma keeps_fail {A} m (Q : A → Prop) : keeps (fail m) Q.
Proof. by apply keeps_lift. Qed.

Lemma act_keeps_get {A} (f : World → act A) Q : (∀ w, Inv w → keeps (f w) Q) → keeps (get f) Q.
Proof. intros Hf w l w' r HI E. by apply (Hf w HI w). Qed.

Lemma act_keeps_put (f : World → World) (Q : unit → Prop) : Q tt → (∀ w, Inv w → S (w_db (f w)) → Inv (f w)) → keeps (put f) Q.
Proof.
  intros HQ Hf w l w' r HI [= <- <- <-]. split.
  - intros [|w1 [|? ?]] s E Hp; [constructor| |by injection E]. injection E as <- <-. constructor; [|constructor]. apply Hf; [done|]. by apply Forall_inv in Hp.
  - intros Hs%Forall_inv. split; [by apply Hf|]. by intros [].
Qed.

Lemma act_keeps_bind {A B} (m : act A) (k : A → act B) (Q : A → Prop) (R : B → Prop) :
  keeps m Q → (∀ a, Q a → keeps (k a) R) → keeps (m ≫= k) R.
Proof.
  intros Hm Hk w l w' r HI. unfold mbind, act_bind. destruct (m w) as [[l1 w1] [a|e]] eqn:E.
  - destruct (k a w1) as [[l2 w2] r2] eqn:E2. intros [= <- <- <-]. destruct (Hm w l1 w1 (Ok a) HI E) as [Hp Hf]. split.
    + intros p s Es HS. destruct (decide (List.length p <= List.length l1)%nat) as [Hl|Hl].
      * apply (Hp p (drop (List.length p) l1)); [|done]. apply (f_equal (take (List.length p))) in Es.
        rewrite take_app_length, take_app_le in Es by done. rewrite <-(take_drop (List.length p) l1) at 1. by rewrite Es.
      * assert (p = l1 ++ drop (List.length l1) p) as Ep.
        { apply (f_equal (take (List.length l1))) in Es. rewrite take_app_length, take_app_le in Es by lia.
          rewrite <-(take_drop (List.length l1) p) at 1. by rewrite <-Es. }
        rewrite Ep in HS |- *. apply Forall_app in HS as [HS1 HS2]. destruct (Hf HS1) as [HI1 HQ]. apply Forall_app. split; [by apply (Hp l1 []); [rewrite app_nil_r|]|].
        apply (proj1 (Hk a (HQ a eq_refl) w1 l2 w2 r2 HI1 E2) _ s); [|done]. rewrite Ep, <-app_assoc in Es. by apply app_inv_head in Es.
    + intros [HS1 HS2]%Forall_app. destruct (Hf HS1) as [HI1 HQ]. by apply (proj2 (Hk a (HQ a eq_refl) w1 l2 w2 r2 HI1 E2)).
  - intros [= <- <- <-]. destruct (Hm w l1 w1 (Err e) HI E) as [Hp Hf]. split; [done|]. intros HS. destruct (Hf HS). by split.
Qed.

Lemma keeps_seq {A B} (m : act A) (k : A → act B) (R : B → Prop) : keeps m (λ _, True) → (∀ a, keeps (k a) R) → keeps (m ≫= k) R.
Proof. intros Hm Hk. by eapply act_keeps_bind; [exact Hm|]. Qed.

Lemma keeps_each {A} (f : A → act unit) l : (∀ a, a ∈ l → keeps (f a) (λ _, True)) → keeps (each f l) (λ _, True).
Proof. induction l as [|a l IH]; intros Hf; cbn [each]; [by apply keeps_ret|]. apply keeps_seq; [apply Hf; set_solver|]. intros _. apply IH. set_solver. Qed.

Lemma keeps_attempt {A} (m : act A) (Q : A → Prop) : keeps m Q → keeps (attempt m) (λ r, ∀ a, r = Ok a → Q a).
Proof.
  intros Hm w l w' r HI. unfold attempt. destruct (m w) as [[l1 w1] r1] eqn:E. intros [= <- <- <-]. destruct (Hm w l1 w1 r1 HI E) as [Hp Hf].
  split; [done|]. intros HS. destruct (Hf HS) as [HI1 HQ]. split; [done|]. by intros ? [= <-].
Qed.

Lemma keeps_weaken {A} (m : act A) (Q R : A → Prop) : keeps m Q → (∀ a, Q a → R a) → keeps m R.
Proof. intros Hm HQ w l w' r HI E. destruct (Hm w l w' r HI E) as [Hp Hf]. split; [done|]. intros HS. destruct (Hf HS). auto. Qed.

Definition quiet (_ : unit) : Prop := True.

(** ** Files *)

Lemma keeps_dirs (f : gmap gpath RepoDir → gmap gpath RepoDir) :
  (∀ ds, (∀ o i d, ds !! (false, o, i) = Some d → dir_ok o i d) → ∀ o i d, f ds !! (false, o, i) = Some d → dir_ok o i d) →
  keeps (put (on_dirs f)) quiet.
Proof. intros Hf. apply act_keeps_put; [done|]. intros w [Hdb Hd Hj Hr] _. split; cbn; [done|by apply Hf|done|done]. Qed.

Lemma keeps_on_dir r f : (rp_Alternative r = false → ∀ d, dir_ok (rp_Owner r) (rp_Identifier r) d → dir_ok (rp_Owner r) (rp_Identifier r) (f d)) →
  keeps (on_dir r f) quiet.
Proof.
  intros Hf. apply keeps_dirs. intros ds Hds o i d. destruct (decide (repoPath r = (false, o, i))) as [E|Hne].
  - rewrite E, lookup_alter_eq. unfold repoPath in E. injection E as Ea <- <-. destruct (ds !! (false, rp_Owner r, rp_Identifier r)) as [d0|] eqn:Ed; [|done].
    intros [= <-]. by apply Hf, Hds.
  - rewrite lookup_alter_ne by done. apply Hds.
Qed.

Lemma keeps_ensureRepo r : keeps (ensureRepo r) quiet.
Proof.
  apply act_keeps_get. intros w _. destruct (w_dirs w !! repoPath r); [by apply keeps_ret|]. apply keeps_dirs. intros ds Hds o i d.
  destruct (decide (repoPath r = (false, o, i))) as [->|Hne]; [rewrite lookup_insert_eq; intros [= <-]; split; apply file_none|].
  rewrite lookup_insert_ne by done. apply Hds.
Qed.

Lemma keeps_git_command r m f : keeps (git_command r m f) quiet.
Proof.
  apply act_keeps_get. intros w _. destruct (w_dirs w !! repoPath r); [|apply keeps_fail]. destruct (f _); [|apply keeps_fail].
  apply keeps_on_dir. by intros _ d [??].
Qed.

(** What a repository may be written with. *)
Definition writable (r : Repository) : Prop := rp_Alternative r = false → refs_signed (rp_Owner r) (rp_Identifier r) (rp_Refs r).

Lemma keeps_projectNativeRefs r next : keeps (projectNativeRefs r next) quiet.
Proof.
  apply act_keeps_get. intros w _. destruct (_ && _); [by apply keeps_ret|]. apply keeps_seq; [by apply keeps_lift|]. intros. apply keeps_git_command.
Qed.

Lemma keeps_writeState r : writable r → keeps (writeState r) quiet.
Proof.
  intros Hr. apply keeps_seq; [apply keeps_ensureRepo|]. intros _. apply keeps_seq; [apply keeps_projectNativeRefs|]. intros _.
  apply keeps_seq; [|intros _; destruct (String.eqb _ _); [by apply keeps_ret|apply keeps_git_command]].
  apply keeps_on_dir. intros Ha d [_ Hp]. split; [by apply file_some, Hr|done].
Qed.

Lemma keeps_writePendingState r : writable r → keeps (writePendingState r) quiet.
Proof.
  intros Hr. apply keeps_seq; [apply keeps_ensureRepo|]. intros _.
  apply keeps_seq; [|intros _; destruct (String.eqb _ _); [by apply keeps_ret|by apply keeps_on_dir]].
  apply keeps_on_dir. intros Ha d [Hs _]. split; [done|by apply file_some, Hr].
Qed.

Lemma keeps_remove_pending_files r : keeps (remove_pending_files r) quiet.
Proof.
  apply keeps_seq; [|intros _; by apply keeps_on_dir]. apply keeps_on_dir. intros _ d [Hs _]. split; [done|apply file_none].
Qed.

(** ** Journals and memory *)

Lemma keeps_journal f : (∀ js, (∀ name jr, js !! name = Some jr → journal_ok jr) → ∀ name jr, f js !! name = Some jr → journal_ok jr) →
  keeps (put (on_journal f)) quiet.
Proof. intros Hf. apply act_keeps_put; [done|]. intros w [Hdb Hd Hj Hr] _. split; cbn; [done|done|by apply Hf|done]. Qed.

Lemma keeps_writeJournal jr : journal_ok jr → keeps (writeJournal jr) quiet.
Proof.
  intros Hjr. apply keeps_journal. intros js Hjs name j. destruct (decide (journalPath jr = name)) as [->|]; [rewrite lookup_insert_eq; by intros [= <-]|].
  rewrite lookup_insert_ne by done. apply Hjs.
Qed.

Lemma keeps_drop_journal name : keeps (put (on_journal (delete name))) quiet.
Proof. apply keeps_journal. intros js Hjs n j [_ E]%lookup_delete_Some. by eapply Hjs. Qed.

Lemma keeps_pending f : keeps (put (on_pending f)) quiet.
Proof. apply act_keeps_put; [done|]. by intros w [Hdb Hd Hj Hr] _. Qed.

Lemma keeps_repos f : (∀ rs, (∀ k r, rs !! k = Some r → repo_ok k r) → ∀ k r, f rs !! k = Some r → repo_ok k r) → keeps (put (on_repos f)) quiet.
Proof. intros Hf. apply act_keeps_put; [done|]. intros w [Hdb Hd Hj Hr] _. split; cbn; [done|done|done|by apply Hf]. Qed.

Lemma keeps_remember k r : repo_ok k r → keeps (put (on_repos <[k := r]>)) quiet.
Proof.
  intros Hr. apply keeps_repos. intros rs Hrs k' r'. destruct (decide (k = k')) as [->|]; [rewrite lookup_insert_eq; by intros [= <-]|].
  rewrite lookup_insert_ne by done. apply Hrs.
Qed.

Lemma keeps_db (f : DB → DB) : (∀ db, stored db → stored (f db)) → keeps (put (on_db f)) quiet.
Proof. intros Hf. apply act_keeps_put; [done|]. intros w [[_ Hdb] Hd Hj Hr] HS. split; cbn; [split; [done|by apply Hf]|done..]. Qed.

(** ** Operations *)

Context (promote_ok : ∀ f id r db, gc_onPromote cfg = Some f → stored db → stored (f id r db).1).

Lemma stored_Save db e now : stored db → seen e → stored (gs_Save db e now).1.
Proof.
  intros [Hwf Hseen] He. unfold gs_Save. destruct (Save db e (mkSaveOptions now "" [] None)) as [db' r] eqn:E.
  assert (stored db') as Hs'; [|by destruct r]. assert (db' = (Save db e (mkSaveOptions now "" [] None)).1) as -> by by rewrite E.
  split; [apply WF_Save; [done|exact (proj1 (proj1 (Validate_iff e) (proj1 He)))|done]|]. clear E. unfold Save, WithTx.
  destruct (SaveTx db e (mkSaveOptions now "" [] None)) as [[db1 res]|] eqn:E; [|done]. cbn [fst].
  destruct (IsEphemeral (Kind e)) eqn:Hk; [unfold SaveTx in E; rewrite Hk in E; by injection E as <- _|].
  destruct (SaveTx_Ok _ _ _ _ _ E Hk) as (db2 & db3 & _ & Hr & Hi & Hb). cbn in Hb. injection Hb as <-. cbn.
  apply insertEvent_Ok in Hi as (_ & -> & _). intros r0 [Hr0|Hr0]%elem_of_app; [|by apply list_elem_of_singleton in Hr0 as ->]. apply Hseen.
  unfold replaceOrDelete in Hr. destruct (_ || _); [apply replace_Ok in Hr as (_ & E2 & _); rewrite E2 in Hr0; by apply elem_of_lfilter in Hr0 as [? _]|].
  destruct (negb _); [by injection Hr as <-|]. injection Hr as <-. revert Hr0. clear. generalize (etags e) db.
  induction l as [|t l IH]; intros db0; cbn [fold_left]; [done|]. intros Hr0%IH. eapply elem_of_sublist; [exact Hr0|apply deletion_tag_sublist].
Qed.

Lemma keeps_save e now : seen e → keeps (get (λ w, let '(db, saved) := gs_Save (w_db w) e now in put (on_db (λ _, db));; lift saved)) quiet.
Proof.
  intros He. apply act_keeps_get. intros w HI. pose proof (stored_Save (w_db w) e now (proj2 (inv_db _ HI)) He) as Hs.
  destruct (gs_Save (w_db w) e now) as [db saved]. apply keeps_seq; [|by intros; apply keeps_lift]. by apply keeps_db.
Qed.

Lemma keeps_notify id r : keeps (notify cfg id r) quiet.
Proof.
  unfold notify. destruct (gc_onPromote cfg) as [f|] eqn:Ef; [|by apply keeps_ret]. apply act_keeps_get. intros w HI.
  pose proof (promote_ok f id r (w_db w) eq_refl (proj2 (inv_db _ HI))) as Hs. destruct (f id r (w_db w)) as [db x].
  apply keeps_seq; [|by intros; apply keeps_lift]. by apply keeps_db.
Qed.

Lemma journal_ok_of r id kind : no_nul (rp_Owner r) →
  (kind = KIND_STATE ∨ is_pr_kind kind = true → refs_signed (rp_Owner r) (rp_Identifier r) (rp_Refs r)) → journal_ok (journal_of r id kind).
Proof. intros Hn Hr. exists (rp_Owner r), (rp_Identifier r). done. Qed.

Lemma state_not_pr : is_pr_kind KIND_STATE = false ∧ is_pr_kind KIND_ANNOUNCEMENT = false.
Proof. done. Qed.

(** A recovered journal is written to the main repository of its key. *)
Lemma keeps_recoverJournal file : journal_ok file.2 → keeps (recoverJournal file) quiet.
Proof.
  destruct file as [name jr]. cbn [snd]. intros (o & i & Ek & Hn & Hr). unfold recoverJournal. rewrite Ek, cut_key_key by done.
  apply keeps_seq; [by apply keeps_lift|]. intros _. apply keeps_seq; [apply keeps_ensureRepo|]. intros _.
  set (r := mkRepository o i _ _ _ _ _ _ _ _).
  assert (jr_Kind jr = KIND_STATE ∨ is_pr_kind (jr_Kind jr) = true → writable r) as Hw by (intros Hkind _; by apply Hr).
  apply act_keeps_get. intros w HI. destruct (Z.eqb_spec (jr_Kind jr) KIND_STATE) as [Ks|Ns].
  - destruct (gs_Latest _ _ _ _); [|apply keeps_drop_journal]. destruct (String.eqb _ _); [|apply keeps_drop_journal].
    destruct (stateObjectsPresent w r).
    + apply keeps_seq; [apply keeps_writeState; auto|]. intros _. apply keeps_seq; [apply keeps_pending|]. intros _. apply keeps_drop_journal.
    + apply keeps_seq; [apply keeps_writePendingState; auto|]. intros _. apply keeps_pending.
  - destruct (is_pr_kind (jr_Kind jr)) eqn:Ep; cbn [andb]; [|apply keeps_drop_journal].
    destruct (negb _); [|apply keeps_drop_journal]. apply keeps_seq; [apply keeps_writePendingState; auto|]. intros _. apply keeps_pending.
Qed.

Lemma journal_files_ok w file : Inv w → file ∈ journal_files w → journal_ok file.2.
Proof.
  intros HI Hf. unfold journal_files in Hf. rewrite sort_by_perm in Hf. destruct file as [name jr]. apply elem_of_map_to_list in Hf.
  by apply (inv_journal _ HI name).
Qed.

Lemma keeps_recoverJournals : keeps recoverJournals quiet.
Proof. apply act_keeps_get. intros w HI. apply keeps_each. intros file Hf. by eapply keeps_recoverJournal, journal_files_ok. Qed.

(** A repository that [Validate] or [ValidateImported] resolved. *)
Lemma keeps_stage now e repo : seen e → resolved e repo → is_metadata e = true → keeps (stageAfterStore cfg now e repo) quiet.
Proof.
  intros He Hres Hk. destruct (rs_owner _ _ Hres) as [Hn Hne].
  apply act_keeps_get. intros w HI. destruct (negb (currentMetadata w e)); [by apply keeps_ret|].
  eapply (act_keeps_bind _ _ (λ r, rp_Alternative r = false ∧ rp_Owner r = rp_Owner repo ∧ refs_known r ∧ (Kind e = KIND_STATE → refs_signed (rp_Owner r) (rp_Identifier r) (rp_Refs r)))).
  - apply keeps_lift. intros r. unfold retained_state. unfold is_metadata in Hk.
    destruct (Z.eqb_spec (Kind e) KIND_ANNOUNCEMENT) as [Ka|Na].
    + destruct (gs_Latest (w_db w) KIND_STATE (PubKey e) (Tag e "d")) as [st|] eqn:El.
      * apply latest_seen in El as (Hst & _ & Kst & Pst & Dst); [|done]. rewrite result_bind_Ok. intros (sr & Hsr & Hr). injection Hr as <-.
        destruct (parseRepository_Ok w now st sr HI Hst Hsr) as [_ _ _ _ _ _ (m & Hm & Erefs)]. cbn.
        split; [apply (rs_main _ _ Hres)|]. split; [done|]. split; [|by rewrite Ka]. intros _ _. cbn. rewrite Erefs.
        assert (rp_Identifier repo = md_Identifier m) as ->.
        { rewrite (rs_id _ _ Hres). destruct (ParseMetadata_Ok st m Hm) as (_ & _ & -> & _). unfold d_of in Dst. by rewrite Kst in Dst. }
        rewrite (rs_announced _ _ Hres Ka). apply (state_refs_signed st); [done|done|done|by left].
      * intros [= <-]. split; [apply (rs_main _ _ Hres)|]. split; [done|]. split; [|by rewrite Ka].
        intros _. rewrite (rs_event _ _ Hres), (proj2 He), Ka. done.
    + intros [= <-]. cbn [orb] in Hk. apply Z.eqb_eq in Hk. split; [apply (rs_main _ _ Hres)|]. split; [done|].
      split; [intros _ _; by apply (rs_signed _ _ Hres)|intros _; by apply (rs_signed _ _ Hres)].
  - intros r (Ha & Eo & Hknown & Hsig).
    assert (is_pr_kind (Kind e) = false) as Hpr.
    { unfold is_metadata in Hk. apply orb_true_iff in Hk as [->%Z.eqb_eq| ->%Z.eqb_eq]; done. }
    apply keeps_seq; [apply keeps_writeJournal, journal_ok_of; [by rewrite Eo|intros [?|?]; [by apply Hsig|congruence]]|]. intros _.
    apply keeps_seq; [apply keeps_remember; split; [by exists (rp_Identifier r)|by rewrite Eo]|]. intros _.
    apply keeps_seq; [apply keeps_ensureRepo|]. intros _. apply act_keeps_get. intros w1 _.
    destruct (Z.eqb_spec (Kind e) KIND_STATE) as [Ks|Ns]; [|apply keeps_drop_journal].
    destruct (stateObjectsPresent w1 r).
    + apply keeps_seq; [apply keeps_writeState; intros _; auto|]. intros _. apply keeps_drop_journal.
    + apply keeps_seq; [apply keeps_writePendingState; intros _; auto|]. intros _. apply keeps_pending.
Qed.

Lemma keeps_commit now e repo fanout : seen e → resolved e repo → is_metadata e = true → keeps (commitAfterStore cfg now e repo fanout) quiet.
Proof.
  intros He Hr Hk. apply keeps_seq; [by apply keeps_stage|]. intros _. apply act_keeps_get. intros w _.
  destruct (_ && _); [apply keeps_notify|by apply keeps_ret].
Qed.

Lemma keeps_promotePending repo : refs_known repo → keeps (promotePending repo) (λ _, True).
Proof.
  intros Hknown. apply act_keeps_get. intros w HI. destruct (gs_Exists (w_db w) (rp_EventID repo) KIND_STATE) eqn:Ee; cbn [negb]; [|by apply keeps_ret].
  destruct (negb _); [by apply keeps_ret|]. destruct (_ && _); [by apply keeps_ret|].
  assert (writable repo) as Hw.
  { intros Ha. apply Hknown; [done|]. unfold gs_Exists in Ee. apply existsb_elem in Ee as (row & Hrow & Eid). rewrite andb_true_iff, String.eqb_eq, Z.eqb_eq in Eid.
    destruct Eid as [<- Ek]. destruct (inv_db _ HI) as [_ [Hwf Hs]]. pose proof (row_fields _ _ Hwf Hrow) as (-> & _ & _ & E & _).
    rewrite (proj2 (Hs row Hrow)). congruence. }
  apply keeps_seq; [by apply keeps_writeState|]. intros _. apply keeps_seq; [apply keeps_remove_pending_files|]. intros _.
  apply keeps_seq; [apply keeps_pending|]. intros _. apply keeps_seq; [apply keeps_drop_journal|]. intros _. by apply keeps_ret.
Qed.

Lemma keeps_PromotePending repo : refs_known repo → keeps (PromotePending cfg repo) quiet.
Proof.
  intros Hk. eapply act_keeps_bind; [by apply keeps_promotePending|]. intros [|] _; [apply keeps_notify|by apply keeps_ret].
Qed.

Lemma keeps_ExpirePending ids : keeps (ExpirePending ids) quiet.
Proof.
  unfold ExpirePending. destruct ids as [|id ids]; [by apply keeps_ret|]. apply keeps_seq; [|intros _; apply keeps_pending].
  apply act_keeps_get. intros w _. apply keeps_each. intros [name jr] _. unfold expire_file. destruct (negb _); [by apply keeps_ret|].
  apply keeps_seq; [|intros _; apply keeps_drop_journal]. destruct (cut_key _) as [[o i]|]; [apply keeps_remove_pending_files|by apply keeps_ret].
Qed.

Lemma keeps_PruneRef order repository ref : keeps (PruneRef order repository ref) quiet.
Proof.
  unfold PruneRef. destruct (negb _); [apply keeps_fail|]. destruct (List.find _ _) as [found|]; [|by apply keeps_ret].
  apply keeps_seq; [apply keeps_git_command|]. intros _. apply keeps_repos. intros rs Hrs k r.
  destruct (decide (key (rp_Owner found) (rp_Identifier found) = k)) as [->|Hne]; [|rewrite lookup_alter_ne by done; apply Hrs].
  rewrite lookup_alter_eq. destruct (rs !! k) as [r0|] eqn:E; [|done]. intros [= <-]. destruct (Hrs k r0 E) as (Hk & Hn & Hne & Hknown).
  split; [done|]. split; [done|]. split; [done|]. intros Ha Hst. destruct (Hknown Ha Hst) as [Hv Hs]. cbn.
  split; intros x y [_ Hx]%lookup_delete_Some; [by apply Hv|by apply Hs].
Qed.

Lemma keeps_publishPR now e : seen e → is_pr_kind (Kind e) = true → keeps (publishPR cfg now e) quiet.
Proof.
  intros He Hk. destruct (seen_owner e He) as (Hn & Hne & Hid). unfold publishPR. set (id := if String.eqb (Tag e "d") "" then _ else _).
  apply keeps_seq; [by apply keeps_lift|]. intros _.
  eapply (act_keeps_bind _ _ (λ _, (negb (String.eqb (Tag e "c") "") && negb (isObjectID (Tag e "c"))) = false)); [apply keeps_lift; intros []; apply guard_err_Ok|].
  intros _ Hc. set (r := mkRepository (PubKey e) id _ _ _ _ _ _ _ _).
  assert (refs_signed (PubKey e) id (rp_Refs r)) as Hr.
  { unfold r. cbn. destruct (String.eqb_spec (Tag e "c") "") as [E|N]; [by split; intros ? ?; rewrite lookup_empty|]. apply negb_false_iff in Hc.
    split; intros ref oid [<- <-]%lookup_singleton_Some.
    - split; [|done]. split; [done|]. change (Forall (λ b, 32 < b) (bytes_of ("refs/nostr/" +:+ ID e))). rewrite bytes_of_app. apply Forall_app. split; [by repeat constructor|].
      unfold hex64 in Hid. apply andb_prop in Hid as [_ Hid]. clear -Hid. revert Hid. generalize (ID e). induction s as [|a s IH]; [constructor|].
      cbn. rewrite andb_true_iff, orb_true_iff, !in_range_true. intros [? ?]. constructor; [lia|by apply IH].
    - right. exists e. split; [done|]. split; [done|]. split; [done|]. split; [|done]. unfold id. destruct (String.eqb (Tag e "d") ""); set_solver. }
  apply keeps_seq; [apply act_keeps_get; intros; by apply keeps_lift|]. intros _.
  apply keeps_seq; [apply keeps_writeJournal, journal_ok_of; [done|by intros _]|]. intros _.
  apply keeps_seq; [by apply keeps_save|]. intros _. apply keeps_seq; [apply keeps_ensureRepo|]. intros _.
  apply keeps_seq; [apply keeps_remember; split; [by exists id|done]|]. intros _. apply act_keeps_get. intros w _.
  destruct (stateObjectsPresent w r).
  - apply keeps_seq; [by apply keeps_writeState|]. intros _. apply keeps_drop_journal.
  - apply keeps_seq; [by apply keeps_writePendingState|]. intros _. apply keeps_pending.
Qed.

Lemma Validate_metadata_Ok w now e r : Inv w → kind_of (ID e) = Kind e → Validate_metadata cfg w now e = Ok r → seen e ∧ resolved e r ∧ is_metadata e = true.
Proof.
  intros HI Hkind. unfold Validate_metadata. rewrite result_bind_Ok. intros ([] & Hv & Hr). rewrite guard_bind_Ok in Hr. destruct Hr as [Hk Hr].
  apply result_bind_Ok in Hr as (r0 & Hp & Hr). apply result_bind_Ok in Hr as ([] & _ & Hr). apply result_bind_Ok in Hr as ([] & _ & Hr).
  rewrite guard_bind_Ok in Hr. destruct Hr as [_ Hr]. injection Hr as <-. assert (seen e) as He by done. apply negb_false_iff in Hk.
  split; [done|]. split; [by eapply parseRepository_Ok|done].
Qed.

Lemma ValidateImported_Ok w now e r : Inv w → kind_of (ID e) = Kind e → ValidateImported cfg w now e = Ok r → seen e ∧ resolved e r ∧ is_metadata e = true.
Proof.
  intros HI Hkind. unfold ValidateImported. rewrite result_bind_Ok. intros ([] & Hv & Hr). rewrite guard_bind_Ok in Hr. destruct Hr as [Hk Hr].
  apply result_bind_Ok in Hr as (r0 & Hp & Hr). apply result_bind_Ok in Hr as ([] & _ & Hr). apply result_bind_Ok in Hr as ([] & _ & Hr).
  injection Hr as <-. assert (seen e) as He by done. apply negb_false_iff in Hk. split; [done|]. split; [by eapply parseRepository_Ok|done].
Qed.

Lemma keeps_Publish now e : kind_of (ID e) = Kind e → keeps (Publish cfg now e) quiet.
Proof.
  intros Hkind. unfold Publish. eapply (act_keeps_bind _ _ (λ _, seen e)); [apply keeps_lift; by intros [] ?|]. intros _ He.
  destruct (negb (is_metadata e)).
  - eapply (act_keeps_bind _ _ (λ _, is_pr_kind (Kind e) = true)).
    + apply keeps_lift. intros [] Hg%guard_err_Ok. apply negb_false_iff in Hg. by apply andb_prop in Hg as [_ ?].
    + intros _ Hk. by apply keeps_publishPR.
  - eapply (act_keeps_bind _ _ (λ r, resolved e r ∧ is_metadata e = true)).
    + apply act_keeps_get. intros w HI. apply keeps_lift. intros r Hr. by apply Validate_metadata_Ok in Hr as (_ & ? & ?).
    + intros r [Hr Hk]. apply keeps_seq; [by apply keeps_save|]. intros _. by apply keeps_commit.
Qed.

Lemma keeps_DeletePRRef identity ref : keeps (DeletePRRef identity ref) quiet.
Proof.
  unfold DeletePRRef. destruct (SplitN identity (char 58) 3) as [|k [|o [|i [|? ?]]]]; try apply keeps_fail.
  apply keeps_seq; [by apply keeps_lift|]. intros _. apply keeps_seq; [by apply keeps_lift|]. intros _.
  apply keeps_seq; [apply keeps_ensureRepo|]. intros _. apply keeps_seq; [apply keeps_git_command|]. intros _.
  apply act_keeps_get. intros w _. destruct (_ ≫= _); [|by apply keeps_ret]. by apply keeps_on_dir.
Qed.

(** ** Opening, requests and pushes *)

Definition repos_ok (rs : gmap string Repository) : Prop := ∀ k r, rs !! k = Some r → repo_ok k r.

Lemma repos_ok_insert k r rs : repo_ok k r → repos_ok rs → repos_ok (<[k := r]> rs).
Proof.
  intros Hr Hrs k' r'. destruct (decide (k = k')) as [->|]; [rewrite lookup_insert_eq; by intros [= <-]|]. rewrite lookup_insert_ne by done. apply Hrs.
Qed.

Lemma resolved_known e r : seen e → resolved e r → refs_known r.
Proof. intros He Hr _ Hk. apply (rs_signed _ _ Hr). rewrite <-(proj2 He). by rewrite <-(rs_event _ _ Hr). Qed.

Lemma repo_ok_key r : no_nul (rp_Owner r) → rp_Owner r ≠ "" → refs_known r → repo_ok (key (rp_Owner r) (rp_Identifier r)) r.
Proof. intros. split; [by exists (rp_Identifier r)|done]. Qed.

(** An announcement held in memory. *)
Definition announced (k : string) (r : Repository) : Prop := repo_ok k r ∧ kind_of (rp_EventID r) = KIND_ANNOUNCEMENT.

Lemma parsed_repos_ok w now : Inv w → ∀ k r, parsed_repos cfg w now (gs_Query (w_db w) (kinds_filter [KIND_ANNOUNCEMENT]) now 0) !! k = Some r → announced k r.
Proof.
  intros HI. unfold parsed_repos.
  assert (∀ q (acc : gmap string Repository), (∀ e, e ∈ q → seen e ∧ Kind e = KIND_ANNOUNCEMENT) → (∀ k r, acc !! k = Some r → announced k r) →
    ∀ k r, fold_left (λ (acc : gmap string Repository) raw, match parseRepository cfg w now raw with Ok r => <[key (rp_Owner r) (rp_Identifier r) := r]> acc | Err _ => acc end) q acc !! k = Some r → announced k r) as Hf.
  { induction q as [|e q IH]; intros acc Hq Hacc; cbn [fold_left]; [done|]. apply IH; [intros e' He'; by apply Hq, list_elem_of_further|]. destruct (Hq e ltac:(apply list_elem_of_here)) as [He Hk].
    destruct (parseRepository cfg w now e) as [r|] eqn:E; [|done]. intros k r'. destruct (decide (key (rp_Owner r) (rp_Identifier r) = k)) as [<-|].
    - rewrite lookup_insert_eq. intros [= <-]. pose proof (parseRepository_Ok w now e r HI He E) as Hr. destruct (rs_owner _ _ Hr) as [Hn Hne].
      split; [apply repo_ok_key; [done|done|by eapply resolved_known]|]. by rewrite (rs_event _ _ Hr), (proj2 He).
    - rewrite lookup_insert_ne by done. apply Hacc. }
  apply Hf; [|intros k r E; by rewrite lookup_empty in E]. intros e (He & _ & Hk & _)%query_seen; [|done]. split; [done|].
  cbn [kinds_filter Kinds in_opt] in Hk. by apply containsInt_spec, list_elem_of_singleton in Hk.
Qed.

Lemma keeps_reload_native l rs : (∀ k r, (k, r) ∈ l → announced k r) → repos_ok rs → keeps (reload_native l rs) repos_ok.
Proof.
  revert rs. induction l as [|[k r] l IH]; intros rs Hl Hrs; cbn [reload_native]; [by apply keeps_ret|].
  destruct (Hl k r ltac:(apply list_elem_of_here)) as [(Hk & Hn & Hne & _) Hann].
  apply keeps_seq; [apply keeps_ensureRepo|]. intros _. eapply (act_keeps_bind _ _ repos_ok); [|intros rs' Hrs'; apply IH; [intros k' r' Hin; by apply Hl, list_elem_of_further|done]].
  apply act_keeps_get. intros w _. apply keeps_lift. intros rs'. unfold with_native. rewrite result_bind_Ok. intros (refs & _ & Hr).
  destruct (bool_decide (refs = ∅)); injection Hr as <-; [done|]. apply repos_ok_insert; [|done].
  split; [done|]. split; [done|]. split; [done|]. intros _ Hst. cbn in Hst. rewrite Hann in Hst. done.
Qed.

Lemma reload_states_ok w now rs : Inv w → repos_ok rs → repos_ok (reload_states cfg w now rs).
Proof.
  intros HI Hrs. unfold reload_states. assert (∀ l acc, (∀ k r, (k, r) ∈ l → repo_ok k r) → repos_ok acc →
    repos_ok (fold_left (λ (acc : gmap string Repository) (cr : string * Repository), match state_fallback cfg w now cr.2 with Some s => <[cr.1 := s]> acc | None => acc end) l acc)) as Hf.
  { induction l as [|[k r] l IH]; intros acc Hl Hacc; cbn [fold_left]; [done|]. apply IH; [intros k' r' Hin; by apply Hl, list_elem_of_further|]. cbn [fst snd].
    destruct (state_fallback cfg w now r) as [s|] eqn:E; [|done]. apply repos_ok_insert; [|done].
    unfold state_fallback in E. destruct (w_dirs w !! repoPath r ≫= rd_state), (w_dirs w !! repoPath r ≫= rd_pending); try done.
    destruct (gs_Query _ _ _ _) as [|newest q] eqn:Eq; [done|]. destruct (parseRepository cfg w now newest) as [s'|] eqn:Ep; [|done].
    destruct (String.eqb_spec (rp_Owner s') (rp_Owner r)) as [Eo|]; cbn [andb] in E; [|done]. destruct (stateObjectsPresent w s'); [|done]. injection E as <-.
    assert (newest ∈ newest :: q) as Hin by apply list_elem_of_here. rewrite <-Eq in Hin. apply query_seen in Hin as (He & _); [|done].
    pose proof (parseRepository_Ok w now newest s' HI He Ep) as Hr. destruct (Hl k r ltac:(apply list_elem_of_here)) as ([i ->] & _ & _ & _).
    destruct (rs_owner _ _ Hr). rewrite <-Eo. split; [by exists i|]. split; [done|]. split; [done|]. by eapply resolved_known. }
  apply Hf; [|done]. intros k r Hin%elem_of_map_to_list. by apply Hrs.
Qed.

Lemma reload_pr_ok w rs raw : seen raw → repos_ok rs → repos_ok (reload_pr w rs raw).
Proof.
  intros He Hrs. destruct (seen_owner raw He) as (Hn & Hne & _). unfold reload_pr. set (id := if String.eqb (Tag raw "d") "" then _ else _).
  destruct (_ || _); [done|]. destruct (w_dirs w !! _); [|done]. apply repos_ok_insert; [|done].
  split; [exists id; by repeat case_match|]. repeat case_match; by split.
Qed.

Definition fair_order (order : gmap string Repository → list (string * Repository)) : Prop := ∀ m k r, (k, r) ∈ order m → m !! k = Some r.

Lemma keeps_Reload order now : fair_order order → keeps (Reload cfg order now) quiet.
Proof.
  intros Hord. apply keeps_seq; [apply keeps_recoverJournals|]. intros _. apply act_keeps_get. intros w HI.
  pose proof (parsed_repos_ok w now HI) as Hp. set (rs := parsed_repos _ _ _ _) in *.
  eapply (act_keeps_bind _ _ repos_ok).
  { apply keeps_reload_native; [intros k r Hin%Hord; by apply Hp|]. intros k r Hk. by apply Hp. }
  intros rs1 Hrs1. apply act_keeps_get. intros w1 HI1. pose proof (reload_states_ok w1 now rs1 HI1 Hrs1) as Hrs2.
  set (rs2 := reload_states cfg w1 now rs1) in *. clearbody rs2.
  assert (repos_ok (fold_left (reload_pr w1) (gs_Query (w_db w1) (kinds_filter [1617; 1618; 1619]) now 0) rs2)) as Hrs3.
  { assert (∀ q rs, (∀ e, e ∈ q → seen e) → repos_ok rs → repos_ok (fold_left (reload_pr w1) q rs)) as Hf.
    { induction q as [|e q IH]; intros rs0 Hq Hrs0; cbn [fold_left]; [done|]. apply IH; [intros e' He'; by apply Hq, list_elem_of_further|]. apply reload_pr_ok; [apply Hq, list_elem_of_here|done]. }
    apply Hf; [|done]. by intros e (He & _)%query_seen. }
  apply act_keeps_put; [done|]. intros w2 [Hdb Hd Hj _] _. split; cbn; [done|done|done|exact Hrs3].
Qed.

Lemma keeps_New order now : fair_order order → keeps (New cfg order now) quiet.
Proof. intros Hord. apply keeps_seq; [apply keeps_recoverJournals|]. intros _. by apply keeps_Reload. Qed.

Lemma keeps_lookup now owner id : keeps (lookup_repo cfg now owner id) refs_known.
Proof.
  apply act_keeps_get. intros w HI. destruct (w_repos w !! key owner id) as [r|] eqn:El; [apply keeps_ret; by apply (inv_repos _ HI) in El as (_ & _ & _ & ?)|].
  destruct (gs_Query _ _ now 1) as [|ann q] eqn:Eq; [apply keeps_fail|].
  assert (ann ∈ ann :: q) as Hin by apply list_elem_of_here. rewrite <-Eq in Hin. apply query_seen in Hin as (He & _ & Hk & Ha & _); [|done].
  apply containsInt_spec, list_elem_of_singleton in Hk. apply contains_spec, list_elem_of_singleton in Ha.
  eapply (act_keeps_bind _ _ (λ r, rp_Owner r = owner ∧ no_nul owner ∧ owner ≠ "" ∧ refs_known r)).
  { apply keeps_lift. intros r Hr. pose proof (parseRepository_Ok w now ann r HI He Hr) as Hres. destruct (rs_owner _ _ Hres) as [Hn Hne].
    assert (rp_Owner r = owner) as Eo by (rewrite (rs_announced _ _ Hres Hk); done). rewrite Eo in Hn, Hne. split_and!; [done..|by eapply resolved_known]. }
  intros r (Eo & Hn & Hne & Hknown).
  assert (rp_Owner (lookup_state cfg w now owner r (gs_Query (w_db w) (d_filter KIND_STATE id) now 8)) = owner ∧
          refs_known (lookup_state cfg w now owner r (gs_Query (w_db w) (d_filter KIND_STATE id) now 8))) as [Eo' Hknown'].
  { unfold lookup_state. destruct (List.find _ _) as [c|] eqn:Ef; [|done]. apply List.find_some in Ef as [Hc Eow]. apply list_elem_of_In in Hc.
    apply query_seen in Hc as (Hc & _); [|done]. destruct (parseRepository cfg w now c) as [s|] eqn:Ep; [|done]. apply String.eqb_eq in Eow.
    pose proof (parseRepository_Ok w now c s HI Hc Ep) as Hs. split; [done|]. intros _ Hk'. apply (resolved_known c s Hc Hs); [apply (rs_main _ _ Hs)|exact Hk']. }
  apply keeps_seq; [apply keeps_remember; split; [by exists id; rewrite Eo'|]; by rewrite Eo'|]. intros _. by apply keeps_ret.
Qed.

Lemma keeps_receive r lines g : keeps (receive_pack r lines g) quiet.
Proof.
  apply act_keeps_get. intros w HI. destruct (w_dirs w !! repoPath r) as [d|] eqn:Ed; [|apply keeps_fail].
  apply keeps_seq; [by apply keeps_lift|]. intros _. apply keeps_seq; [by apply keeps_on_dir|]. intros _.
  unfold post_receive. destruct (rd_pending d) as [text|] eqn:Ep; [|by apply keeps_ret]. destruct (cat_file g _); [|by apply keeps_ret].
  destruct (post_receive_ok _); [|by apply keeps_ret]. apply keeps_on_dir. intros Ha d' _.
  unfold repoPath in Ed. rewrite Ha in Ed. destruct (inv_dirs _ HI _ _ _ Ed) as [_ Hp]. rewrite Ep in Hp. split; [exact Hp|apply file_none].
Qed.

Lemma keeps_promoted r (delivered : bool) : refs_known r →
  keeps (if delivered then _ ← attempt (PromotePending cfg r); mret tt else mret tt) quiet.
Proof.
  intros Hr. destruct delivered; [|by apply keeps_ret]. apply keeps_seq; [|intros _; by apply keeps_ret].
  eapply keeps_weaken; [apply keeps_attempt, keeps_PromotePending, Hr|done].
Qed.

Lemma keeps_ServeHTTP authorizeHTTP now owner id alternative request delivered :
  keeps (ServeHTTP cfg authorizeHTTP now owner id alternative request delivered) quiet.
Proof.
  unfold ServeHTTP. eapply act_keeps_bind; [apply keeps_attempt, keeps_lookup|]. intros found Hfound.
  eapply (act_keeps_bind _ _ refs_known).
  { apply act_keeps_get. intros w HI. apply keeps_lift. intros r. unfold request_repo. destruct (w_repos w !! key owner id) as [c|] eqn:El; [|apply Hfound].
    destruct (alternative && rp_Alternative c); [|apply Hfound]. intros [= <-]. by apply (inv_repos _ HI) in El as (_ & _ & _ & ?). }
  intros r Hr. apply keeps_seq; [destruct (rp_Private r); [by apply keeps_lift|by apply keeps_ret]|]. intros _.
  apply keeps_seq; [apply keeps_ensureRepo|]. intros _. destruct request as [| |lines g]; [by apply keeps_ret|by apply keeps_promoted|].
  apply keeps_seq; [eapply keeps_weaken; [apply keeps_attempt, keeps_receive|done]|]. intros _. by apply keeps_promoted.
Qed.
End Signed.

(** ** Runs *)

Section Mono.
Context `{Git} `{NostrCrypto} `{GoUnicode} `{GoFTS} `{GoURL} `{Awk}.
Context (cfg : GitConfig) (kind_of : string → Z) (S S' : DB → Prop) (HS : ∀ db, S db → S' db).

Lemma signed_mono o i ref oid : signed cfg kind_of S o i ref oid → signed cfg kind_of S' o i ref oid.
Proof.
  intros [(e & m & He & Hk & Hm & Hi & Hr & Hv)|Hpr]; [left|by right]. exists e, m. do 5 (split; [done|]).
  destruct Hv as [?|(db & a & ma & Hdb & Ha)]; [by left|right]. exists db, a, ma. split; [by apply HS|done].
Qed.

Lemma refs_signed_mono o i refs : refs_signed cfg kind_of S o i refs → refs_signed cfg kind_of S' o i refs.
Proof. intros [Hv Hs]. split; [done|]. intros ref oid Hr. by apply signed_mono, Hs. Qed.

Lemma file_ok_mono o i text : file_ok cfg kind_of S o i text → file_ok cfg kind_of S' o i text.
Proof. intros (refs & Hf & Hs). exists refs. split; [done|]. intros ref oid Hr. by apply signed_mono, Hs. Qed.

Lemma Inv_mono w : Inv cfg kind_of S w → Inv cfg kind_of S' w.
Proof.
  intros [[Hs Hdb] Hd Hj Hr]. split; [by split; [apply HS|]| | |].
  - intros o i d Ed. destruct (Hd o i d Ed). split; by apply file_ok_mono.
  - intros name jr Ej. destruct (Hj name jr Ej) as (o & i & ? & ? & Hrefs). exists o, i. do 2 (split; [done|]). intros Hk. by apply refs_signed_mono, Hrefs.
  - intros k r Er. destruct (Hr k r Er) as (? & ? & ? & Hk). do 3 (split; [done|]). intros Ha Hst. by apply refs_signed_mono, Hk.
Qed.
End Mono.

Section Runs.
Context `{Git} `{NostrCrypto} `{GoUnicode} `{GoFTS} `{GoURL} `{Awk}.
Context (cfg : GitConfig) (kind_of : string → Z).

(** An operation of the relay, the worlds [past] being those that it has gone
    through: a caller of [CommitAfterStore], of the scheduler or of a recovery
    holds a repository that it resolved in one of them. *)
Inductive operation (past : list World) : act unit → Prop :=
| op_Publish now e : kind_of (ID e) = Kind e → operation past (Publish cfg now e)
| op_commit w0 now now' e r fanout : w0 ∈ past → kind_of (ID e) = Kind e → Validate_metadata cfg w0 now e = Ok r →
    operation past (commitAfterStore cfg now' e r fanout)
| op_commit_imported w0 now now' e r fanout : w0 ∈ past → kind_of (ID e) = Kind e → ValidateImported cfg w0 now e = Ok r →
    operation past (commitAfterStore cfg now' e r fanout)
| op_promote w0 k r : w0 ∈ past → w_repos w0 !! k = Some r → operation past (PromotePending cfg r)
| op_expire ids : operation past (ExpirePending ids)
| op_prune order repository ref : operation past (PruneRef order repository ref)
| op_delete identity ref : operation past (DeletePRRef identity ref)
| op_reload order now : fair_order order → operation past (Reload cfg order now)
| op_new order now : fair_order order → operation past (New cfg order now)
| op_serve authorizeHTTP now owner id alternative request delivered :
    operation past (ServeHTTP cfg authorizeHTTP now owner id alternative request delivered)
| op_fetch r g : operation past (on_dir r (set_git g)).

(** The worlds of a run and its present one: the relay starts without files,
    runs its operations, crashes after any of their statements, and its host
    stores valid events meanwhile. *)
Inductive reach : list World → World → Prop :=
| reach_start db : stored kind_of db → reach [mkWorld db ∅ ∅ ∅ ∅] (mkWorld db ∅ ∅ ∅ ∅)
| reach_op past w m l w' r : reach past w → operation past m → m w = (l, w', r) → reach (past ++ l) w'
| reach_crash past w m p w1 s w' r : reach past w → operation past m → m w = (p ++ w1 :: s, w', r) → reach (past ++ p ++ [w1]) (crashed w1)
| reach_host past w db : reach past w → stored kind_of db → reach (past ++ [on_db (λ _, db) w]) (on_db (λ _, db) w).

Definition run_db (past : list World) (db : DB) : Prop := ∃ w, w ∈ past ∧ w_db w = db.

Lemma run_db_app past l db : run_db past db → run_db (past ++ l) db.
Proof. intros (w & Hw & <-). exists w. split; [by apply elem_of_app; left|done]. Qed.

Context (promote_ok : ∀ f id r db, gc_onPromote cfg = Some f → stored kind_of db → stored kind_of (f id r db).1).

Definition run_inv (past : list World) (w : World) : Prop :=
  Inv cfg kind_of (run_db past) w ∧ Forall (Inv cfg kind_of (run_db past)) past.

Lemma operation_keeps past past' m : Forall (Inv cfg kind_of (run_db past')) past → operation past m →
  keeps cfg kind_of (run_db past') m quiet.
Proof.
  intros Hpast Hop. rewrite Forall_forall in Hpast. destruct Hop as [| w0 now now' e r fanout Hw Hk Hr|w0 now now' e r fanout Hw Hk Hr|w0 k r Hw Hr| | | | | | |].
  - by apply keeps_Publish.
  - apply Validate_metadata_Ok with (kind_of := kind_of) (S := run_db past') in Hr as (? & ? & ?); [|by apply Hpast|done]. by apply keeps_commit.
  - apply ValidateImported_Ok with (kind_of := kind_of) (S := run_db past') in Hr as (? & ? & ?); [|by apply Hpast|done]. by apply keeps_commit.
  - apply keeps_PromotePending; [done|]. by apply (inv_repos _ _ _ _ (Hpast w0 Hw)) in Hr as (_ & _ & _ & ?).
  - apply keeps_ExpirePending.
  - apply keeps_PruneRef.
  - apply keeps_DeletePRRef.
  - by apply keeps_Reload.
  - by apply keeps_New.
  - by apply keeps_ServeHTTP.
  - apply keeps_on_dir. by intros _ d [??].
Qed.

Lemma reach_inv past w : reach past w → run_inv past w.
Proof.
  induction 1 as [db Hdb|past w m l w' r _ [HI Hpast] Hop Em|past w m p w1 s w' r _ [HI Hpast] Hop Em|past w db _ [HI Hpast] Hdb].
  - assert (Inv cfg kind_of (run_db [mkWorld db ∅ ∅ ∅ ∅]) (mkWorld db ∅ ∅ ∅ ∅)) as HI; [|split; [done|by constructor]].
    split; cbn; [split; [by exists (mkWorld db ∅ ∅ ∅ ∅); split; [apply list_elem_of_here|]|done]| | |]; intros; by rewrite lookup_empty in *.
  - assert (∀ w0, Inv cfg kind_of (run_db past) w0 → Inv cfg kind_of (run_db (past ++ l)) w0) as Hm by (intros w0; apply Inv_mono, run_db_app).
    assert (Forall (Inv cfg kind_of (run_db (past ++ l))) past) as Hpast' by (eapply Forall_impl; [exact Hpast|exact Hm]).
    destruct (operation_keeps past (past ++ l) m Hpast' Hop w l w' r (Hm w HI) Em) as [Hp Hf].
    assert (Forall (λ w1, run_db (past ++ l) (w_db w1)) l) as Hdbs.
    { apply Forall_forall. intros w1 Hw1. exists w1. split; [by apply elem_of_app; right|done]. }
    split; [by apply Hf|]. apply Forall_app. split; [done|]. apply (Hp l []); [by rewrite app_nil_r|done].
  - set (past' := past ++ p ++ [w1]).
    assert (∀ w0, Inv cfg kind_of (run_db past) w0 → Inv cfg kind_of (run_db past') w0) as Hm by (intros w0; apply Inv_mono, run_db_app).
    assert (Forall (Inv cfg kind_of (run_db past')) past) as Hpast' by (eapply Forall_impl; [exact Hpast|exact Hm]).
    destruct (operation_keeps past past' m Hpast' Hop w _ w' r (Hm w HI) Em) as [Hp _].
    assert (Forall (Inv cfg kind_of (run_db past')) (p ++ [w1])) as Hl.
    { apply (Hp _ s); [by rewrite <-app_assoc|]. apply Forall_forall. intros w2 Hw2. exists w2. split; [by apply elem_of_app; right|done]. }
    split; [|by apply Forall_app]. apply Forall_app in Hl as [_ [Hdb Hd Hj Hr]%Forall_inv].
    split; [done..|]. intros k r' E. cbn in E. by rewrite lookup_empty in E.
  - set (w1 := on_db (λ _, db) w).
    assert (∀ w0, Inv cfg kind_of (run_db past) w0 → Inv cfg kind_of (run_db (past ++ [w1])) w0) as Hm by (intros w0; apply Inv_mono, run_db_app).
    assert (Inv cfg kind_of (run_db (past ++ [w1])) w1) as HI1.
    { destruct (Hm w HI) as [_ Hd Hj Hr]. split; [|done..]. split; [|done]. exists w1. split; [by apply elem_of_app; right; apply list_elem_of_here|done]. }
    split; [done|]. apply Forall_app. split; [eapply Forall_impl; [exact Hpast|exact Hm]|by constructor].
Qed.
End Runs.

(** ** Pushes *)

(** C11: whatever the relay went through - announcements, states and pull requests
    published or imported, promotions, expirations, reloads, requests, fetches,
    other events stored by its host, crashes after any statement - a push that git
    receives into a main repository (not into the repositories of pull requests
    kept under prs/) moves a ref to an object name only if a pull request of the
    owner names it or a valid state event lists it, the state's signer being the
    owner, or a maintainer of the repository by an announcement that the owner
    signed and the relay held: one the announcement names, or one the host's own
    source of maintainers vouches for, where the host configured one. The
    exceptions are names that awk takes for numbers: a name spelt like zero, and
    one compared with another number. An identifier is taken to determine its
    event's kind, also in what the host's callback on a promotion stores. *)
Theorem push_needs_signed_state `{Git} `{NostrCrypto} `{GoUnicode} `{GoFTS} `{GoURL} `{Awk} `{!AwkLaws}
    (cfg : GitConfig) (kind_of : string → Z) past w r lines g l w' line old new ref :
  (∀ f id r db, gc_onPromote cfg = Some f → stored kind_of db → stored kind_of (f id r db).1) →
  reach cfg kind_of past w → rp_Alternative r = false →
  receive_pack r lines g w = (l, w', Ok tt) →
  line ∈ lines → awk_fields line = [old; new; ref] → isObjectID new = true →
  let lists := signed cfg kind_of (run_db past) (rp_Owner r) (rp_Identifier r) ref in
  lists new ∨ (oid_numeric new = true ∧ (oid_zero new = true ∨ ∃ v, lists v ∧ oid_numeric v = true)).
Proof.
  intros Hpromote Hreach Ha Hpush Hline Hf Hnew. destruct (reach_inv cfg kind_of Hpromote past w Hreach) as [HI _].
  unfold receive_pack, get in Hpush. destruct (w_dirs w !! repoPath r) as [d|] eqn:Ed; [|done].
  destruct (pre_receive (rd_state d) (rd_pending d) lines) eqn:Hpre; [|done]. clear Hpush.
  unfold repoPath in Ed. rewrite Ha in Ed. destruct (inv_dirs _ _ _ _ HI _ _ _ Ed) as [(s & Hs & Hsig) (p & Hp & Hpsig)].
  assert (∀ v, (p ∪ s) !! ref = Some v → signed cfg kind_of (run_db past) (rp_Owner r) (rp_Identifier r) ref v) as Hlists.
  { intros v [Hv|[_ Hv]]%lookup_union_Some_raw; auto. }
  destruct (pre_receive_signed _ _ s p lines line old new ref Hs Hp Hpre Hline Hf Hnew) as [?|(Hn & Hz & Hv)]; [left; auto|].
  right. split; [done|]. destruct ((p ∪ s) !! ref) as [v|]; [right; exists v; auto|left; auto].
Qed.

(** ** A maintainer's push *)

#[local] Instance git_crypto : NostrCrypto := toy_crypto.
#[local] Instance git_unicode : GoUnicode := ascii_unicode.
#[local] Instance git_fts : GoFTS := {| fts_match q s := Contains s q |}.
#[local] Instance git_urls : GoURL := {| url_parse s := Some (mkURL "https" (TrimPrefix s "https://") "" false "" ""); url_string := u_host |}.
#[local] Instance git_awk : Awk := {| looks_numeric := oid_numeric; num_same := String.eqb; num_zero := oid_zero |}.
#[local] Instance git_awk_laws : AwkLaws.
Proof. by split. Qed.
(** A repository is the list of its objects; its refs are not kept. *)
#[local] Instance git_objects : Git :=
  {| gitdir := list string; git_init := [];
     cat_file g asked := Some (str_concat ((λ oid, oid +:+ (if contains g oid then " commit 1" else " missing") +:+ str1 10) <$> removelast (Split asked (char 10))));
     for_each_ref g := Some ""; update_refs g _ := Some g; delete_ref g _ := Some g; set_head g _ := Some g; get_head g := None |}.

Definition git_signed (secret : string) (created kind : Z) (tags : list (list string)) : Event :=
  match Sign (mkEvent "" "" created kind (Some tags) "" "") secret with Ok e => e | Err _ => nil_event end.
Definition maintainer_secret : string := "0000000000000000000000000000000000000000000000000000000000000002".
Definition maintainer_pk : string := Eval vm_compute in hex_encode (sha256 (default [] (hex_decode maintainer_secret))).
Definition pushed_oid : string := "aaaaaaaaaaaaaaaaaaaaaaaaaaaaaaaaaaaaaaaa".
Definition announced_repo : Event := Eval vm_compute in git_signed sample_secret 100 KIND_ANNOUNCEMENT [["d"; "code"]; ["maintainers"; maintainer_pk]].
Definition announced_state : Event := Eval vm_compute in git_signed maintainer_secret 200 KIND_STATE [["d"; "code"]; ["refs/heads/main"; pushed_oid]].
Definition sample_kind (id : string) : Z := if String.eqb id (ID announced_repo) then KIND_ANNOUNCEMENT else KIND_STATE.
Definition git_config : GitConfig :=
  mkGitConfig None None (mkGitPolicy "public" (mkGitFeatures true false false false false false)) "" false false None.

Definition git_opened : World := mkWorld empty_db ∅ ∅ ∅ ∅.
Definition announced_run := Publish git_config 1000 announced_repo git_opened.
Definition stated_run := Publish git_config 1000 announced_state announced_run.1.2.
Definition run_worlds : list World := ([git_opened] ++ announced_run.1.1) ++ stated_run.1.1.
Definition code_repo : Repository := mkRepository (PubKey announced_repo) "code" "" false [] [] [] ∅ "" false.
Definition push_line (ref : string) : string := repeat_char 40 "0" +:+ " " +:+ pushed_oid +:+ " " +:+ ref.

Definition push_run (refs : list string) := receive_pack code_repo (push_line <$> refs) [pushed_oid] stated_run.1.2.

Example git_stated : (announced_run.2, stated_run.2) = (Ok tt, Ok tt).
Proof. vm_compute. reflexivity. Qed.
Lemma push_received : (push_run ["refs/heads/main"]).2 = Ok tt.
Proof. vm_compute. reflexivity. Qed.
Example push_refused :
  (push_run ["refs/heads/main"; "refs/heads/other"]).2 = Err "tinyrelay: ref is not authorized by signed repository state".
Proof. vm_compute. reflexivity. Qed.

Lemma act_eta {A} (m : act A) w : m w = ((m w).1.1, (m w).1.2, (m w).2).
Proof. by destruct (m w) as [[l w'] r]. Qed.
Lemma act_done (m : act unit) w : (m w).2 = Ok tt → m w = ((m w).1.1, (m w).1.2, Ok tt).
Proof. intros <-. apply act_eta. Qed.

Lemma reach_stated : reach git_config sample_kind run_worlds stated_run.1.2.
Proof.
  refine (reach_op _ _ _ _ _ _ _ _ _ _ (act_eta (Publish git_config 1000 announced_state) announced_run.1.2)).
  - refine (reach_op _ _ _ _ _ _ _ _ _ _ (act_eta (Publish git_config 1000 announced_repo) git_opened)).
    + apply reach_start. split; [apply WF_empty|]. by intros r Hr%elem_of_nil.
    + constructor. vm_compute. reflexivity.
  - constructor. vm_compute. reflexivity.
Qed.

Lemma push_needs_signed_state_witness :
  signed git_config sample_kind (run_db run_worlds) (PubKey announced_repo) "code" "refs/heads/main" pushed_oid.
Proof.
  destruct (push_needs_signed_state (H := git_objects) git_config sample_kind run_worlds stated_run.1.2 code_repo
              (push_line <$> ["refs/heads/main"]) [pushed_oid] (push_run ["refs/heads/main"]).1.1 (push_run ["refs/heads/main"]).1.2
              (push_line "refs/heads/main") (repeat_char 40 "0") pushed_oid "refs/heads/main") as [Hs|[Hn _]].
  - done.
  - apply reach_stated.
  - done.
  - exact (act_done (receive_pack code_repo (push_line <$> ["refs/heads/main"]) [pushed_oid]) stated_run.1.2 push_received).
  - apply list_elem_of_here.
  - done.
  - done.
  - exact Hs.
  - done.
Defined.

(** The hook on a repository without a signed ref: to awk the name of 40 zeros
    equals the element of a ref that no file lists, so a deletion passes. *)
Lemma unlisted_deletion_passes : pre_receive None None [pushed_oid +:+ " " +:+ repeat_char 40 "0" +:+ " refs/heads/main"] = true.
Proof. reflexivity. Qed.
