(* ===== verification/Work.v ===== *)
(** * internal/work: the durable work queue

    The queue lives in the [work_intents] table of the tenant database.  Each
    operation is its UPDATE over the rows; times are nanoseconds since the
    epoch and [unix] is [Time.Unix].  Claim tokens are random and enter as
    arguments.  [Retry] is the two statements of the code, so that another
    worker may act between them. *)

From Stdlib Require Import Floats.SpecFloat.
From S2P Require Import Prelude GoLib GoCodec Nostr Store.

Definition second : Z := 1000000000.
Definition unix (t : Z) : Z := t / second.
Definition defaultLease : Z := 30 * second.

Definition lease_or_default (lease : Z) : Z := if lease <=? 0 then defaultLease else lease.

(** UPDATE of the rows satisfying [p]; the second result is RowsAffected. *)
Definition update_work (p : WorkRow → bool) (f : WorkRow → WorkRow) (db : DB) : DB * Z :=
  (set_intents ((λ w, if p w then f w else w) <$> intents db) db,
   Z.of_nat (List.length (List.filter p (intents db)))).

(** The row with the columns an update sets. *)
Definition with_state (st : WorkState) (next now : Z) (err token : string) (until : Z) (w : WorkRow) : WorkRow :=
  mkWork (w_id w) (w_kind w) (w_event w) (w_target w) (w_payload w) st (w_attempts w) next
    (w_created w) now err token until.

(** ** Enqueue *)

Record NewIntent := mkNewIntent {
  n_id : string; n_kind : string; n_event : string; n_target : string; n_payload : string;
  n_next : option Z (** [NextAt], [None] for the zero time *)
}.

Definition Enqueue (db : DB) (i : NewIntent) (now : Z) : result (DB * string) :=
  guard_err (String.eqb (n_kind i) "" || String.eqb (n_event i) "" || String.eqb (n_target i) "")
    "work: kind, event id, and target are required";;
  let id := if String.eqb (n_id i) "" then IntentID (n_kind i) (n_event i) (n_target i) else n_id i in
  let now := unix now in
  let next := match n_next i with Some t => unix t | None => now end in
  mret (set_intents (insert_or_ignore same_work
          [mkWork id (n_kind i) (n_event i) (n_target i) (n_payload i) WPending 0 next now now "" "" 0]
          (intents db)) db, id).

(** ** Claims *)

(** ORDER BY next_at, created_at, id *)
Definition work_leb (a b : WorkRow) : bool :=
  (w_next a <? w_next b)
  || (w_next a =? w_next b)
     && ((w_created a <? w_created b)
         || (w_created a =? w_created b) && negb (str_ltb (w_id b) (w_id a))).
Definition work_order (a b : WorkRow) : Prop := work_leb a b = true.
#[export] Instance work_order_dec : RelDecision work_order.
Proof. intros a b. unfold work_order. apply _. Defined.

Definition is_state (st : WorkState) (w : WorkRow) : bool := bool_decide (w_state w = st).

Definition due (now : Z) (w : WorkRow) : bool :=
  is_state WPending w && (w_next w <=? now) || is_state WRunning w && (w_until w <=? now).

Definition Claim (db : DB) (now lease : Z) (token : string) : DB * option WorkRow :=
  let nowUnix := unix now in
  let until := unix (now + lease_or_default lease) in
  match merge_sort work_order (List.filter (due nowUnix) (intents db)) with
  | [] => (db, None)
  | c :: _ =>
    let claim w := mkWork (w_id w) (w_kind w) (w_event w) (w_target w) (w_payload w) WRunning
                     (w_attempts w + 1) (w_next w) (w_created w) nowUnix (w_error w) token until in
    ((update_work (λ w, String.eqb (w_id w) (w_id c)) claim db).1, Some (claim c))
  end.

(** The row is running under the caller's token. *)
Definition fenced_by (id token : string) (w : WorkRow) : bool :=
  String.eqb (w_id w) id && is_state WRunning w && String.eqb (w_token w) token.

Definition Renew (db : DB) (id token : string) (now lease : Z) : DB * bool :=
  let '(db, n) := update_work (fenced_by id token)
    (λ w, with_state (w_state w) (w_next w) (unix now) (w_error w) (w_token w)
            (unix (now + lease_or_default lease)) w) db in
  (db, n =? 1).

Definition Complete (db : DB) (id token : string) (now : Z) : DB * bool :=
  let '(db, n) := update_work (fenced_by id token)
    (λ w, with_state WCompleted (w_next w) (unix now) (w_error w) "" 0 w) db in
  (db, n =? 1).

Definition CompletePendingTx (db : DB) (id : string) (now : Z) : DB * bool :=
  let '(db, n) := update_work (λ w, String.eqb (w_id w) id && is_state WPending w)
    (λ w, with_state WCompleted (w_next w) (unix now) (w_error w) "" 0 w) db in
  (db, n =? 1).

(** An error's message, empty for a nil error. *)
Definition cause_message (cause : option string) : string := default "" cause.

Definition CancelClaim (db : DB) (id token : string) (cause : option string) (now : Z) : DB * bool :=
  let '(db, n) := update_work (fenced_by id token)
    (λ w, with_state WCancelled (w_next w) (unix now) (cause_message cause) "" 0 w) db in
  (db, n =? 1).

(** ** Backoff, in IEEE double precision *)

Definition f64_mul := SFmul 53 1024.
Definition f64_add := SFadd 53 1024.
Definition f64_sub := SFsub 53 1024.
Definition f64_div := SFdiv 53 1024.
Definition f64_of_Z (z : Z) : spec_float := binary_normalize 53 1024 z 0 false.
(** The doubles nearest to 0.5 and 0.4. *)
Definition f64_half : spec_float := S754_finite false 4503599627370496 (-53).
Definition f64_two_fifths : spec_float := S754_finite false 7205759403792794 (-54).

(** Truncation towards zero of a finite double. *)
Definition f64_trunc (x : spec_float) : Z :=
  match x with
  | S754_finite s m e =>
    let v := if 0 <=? e then Z.pos m * 2 ^ e else Z.pos m / 2 ^ (- e) in
    if s then - v else v
  | _ => 0
  end.

(** [float64(b)/255 - 0.5) * 0.4] *)
Definition jitter (b : Z) : spec_float :=
  f64_mul (f64_sub (f64_div (f64_of_Z b) (f64_of_Z 255)) f64_half) f64_two_fifths.

Definition backoff_seconds (attempts : Z) : Z :=
  let seconds := 2 ^ attempts in if 3600 <? seconds then 3600 else seconds.

(** [time.Duration(seconds*(1+jitter))], in seconds. *)
Definition jittered (seconds b : Z) : Z :=
  f64_trunc (f64_mul (f64_of_Z seconds) (f64_add (f64_of_Z 1) (jitter b))).

Definition backoff (id : string) (attempts : Z) : Z :=
  let attempts := if attempts <? 1 then 1 else attempts in
  let b := match sha256 (bytes_of (id +:+ Itoa attempts)) with b :: _ => b | [] => 0 end in
  jittered (backoff_seconds attempts) b * second.

(** ** Retry, the first and the second statement *)

Definition retry_attempts (db : DB) (id token : string) : option Z :=
  w_attempts <$> head (List.filter (fenced_by id token) (intents db)).

Definition retry_update (db : DB) (id token : string) (attempts : Z) (cause : option string) (now : Z) : DB * bool :=
  let '(db, n) := update_work (fenced_by id token)
    (λ w, with_state WPending (unix (now + backoff id attempts)) (unix now) (cause_message cause) "" 0 w) db in
  (db, n =? 1).

Definition Retry (db : DB) (id token : string) (cause : option string) (now : Z) : DB * bool :=
  match retry_attempts db id token with
  | None => (db, false)
  | Some attempts => retry_update db id token attempts cause now
  end.

Definition RetryNow (db : DB) (id : string) (now : Z) : DB :=
  (update_work (λ w, String.eqb (w_id w) id && negb (is_state WCompleted w) && negb (is_state WCancelled w))
     (λ w, with_state WPending (unix now) (unix now) (w_error w) "" 0 w) db).1.

Definition Cancel (db : DB) (id : string) (now : Z) : DB :=
  (update_work (λ w, String.eqb (w_id w) id)
     (λ w, with_state WCancelled (w_next w) (unix now) (w_error w) "" 0 w) db).1.

(** ** Listing and the depth gauge *)

Inductive StateFilter := AnyState | PendingOrRunning | OneState (s : WorkState).

Definition list_work (db : DB) (kind : string) (state : StateFilter) : list WorkRow :=
  merge_sort work_order (List.filter (λ w,
    (String.eqb kind "" || String.eqb (w_kind w) kind)
    && match state with
       | PendingOrRunning => is_state WPending w || is_state WRunning w
       | AnyState => true
       | OneState s => is_state s w
       end) (intents db)).
Definition Pending (db : DB) (kind : string) : list WorkRow := list_work db kind PendingOrRunning.
Definition List_ (db : DB) (state : StateFilter) : list WorkRow := list_work db "" state.

Definition knownMetricKinds : list string := ["delivery"; "push"; "replication"; "webhook"; "job"; "other"].
Definition metricKind (kind : string) : string :=
  if contains (removelast knownMetricKinds) kind then kind else "other".

Definition count_pending (test : string → bool) (db : DB) : Z :=
  Z.of_nat (List.length (List.filter (λ w, is_state WPending w && test (w_kind w)) (intents db))).

(** [refresh]: the gauge after the call. *)
Definition refresh (db : DB) (kind : string) (depth : gmap string Z) : gmap string Z :=
  if String.eqb kind "" then
    fold_left (λ m value, <[value := count_pending (λ k, String.eqb (metricKind k) value) db]> m)
      knownMetricKinds depth
  else <[metricKind kind := count_pending (λ k, String.eqb k kind) db]> depth.

(** ** Workers *)

Record WorkerOptions := mkWorkerOptions { O_Lease : Z; O_Renew : Z }.

Definition millisecond : Z := 1000000.

(** The defaults of [NewWorkerWithOptions]; Go's division truncates. *)
Definition NewWorkerOptions (o : WorkerOptions) : WorkerOptions :=
  let lease := lease_or_default (O_Lease o) in
  let renew := if O_Renew o <=? 0 then Z.quot lease 3 else O_Renew o in
  mkWorkerOptions lease (if renew <=? 0 then millisecond else renew).

(** What a handler returned: success, an error to retry, or [Stop(cause)]. *)
Inductive Outcome :=
| Success
| Failure (msg : string)
| Stopped (cause : option string).

(** A kind without handler fails; the rest of the lookup is the map's. *)
Definition handler_for (handlers : gmap string (WorkRow → Outcome)) (w : WorkRow) : Outcome :=
  match handlers !! w_kind w with
  | Some h => h w
  | None => Failure "no handler registered"
  end.

(** The end of one iteration of [Run]: what the worker reports for a claim,
    given whether a renewal lost the lease. *)
Definition settle (db : DB) (w : WorkRow) (lost : bool) (out : Outcome) (now : Z) : DB :=
  if lost then db
  else match out with
  | Stopped cause => (CancelClaim db (w_id w) (w_token w) cause now).1
  | Failure msg => (Retry db (w_id w) (w_token w) (Some msg) now).1
  | Success => (Complete db (w_id w) (w_token w) now).1
  end.

(** One iteration of [Run] when nothing else touches the database. *)
Definition run_once (db : DB) (handlers : gmap string (WorkRow → Outcome)) (o : WorkerOptions)
    (started finished : Z) (token : string) : DB :=
  match Claim db started (O_Lease o) token with
  | (db, None) => db
  | (db, Some w) => settle db w false (handler_for handlers w) finished
  end.
