(* ===== verification/WorkProps.v ===== *)
(** * internal/work: fencing, final states, ordering and backoff

    Workers interleave freely, each drawing claim tokens that were never used
    before; [qstep] is one queue operation on the database and the set of
    tokens drawn so far. *)

From Stdlib Require Import Floats.SpecFloat.
From S2P Require Import Prelude GoLib GoCodec GoLemmas Nostr Store Work.

(** ** Updates *)

Lemma update_work_none p f db :
  (∀ w, w ∈ intents db → p w = false) → update_work p f db = (db, 0).
Proof.
  intros H. unfold update_work. f_equal.
  - transitivity (set_intents (intents db) db); [|by destruct db].
    f_equal. induction (intents db) as [|w l IH]; [done|]. cbn.
    rewrite (H w) by apply list_elem_of_here. f_equal. apply IH. intros. by apply H, list_elem_of_further.
  - by rewrite lfilter_none.
Qed.

Lemma elem_of_update p f db w' :
  w' ∈ intents (update_work p f db).1 ↔
  ∃ w, w ∈ intents db ∧ w' = if p w then f w else w.
Proof. cbn. rewrite list_elem_of_fmap. naive_solver. Qed.

Lemma update_ids p f db :
  (∀ w, w_id (f w) = w_id w) → w_id <$> intents (update_work p f db).1 = w_id <$> intents db.
Proof.
  intros Hf. cbn. rewrite <-list_fmap_compose. apply list_fmap_ext. intros i w _. cbn. by case_match.
Qed.

Lemma work_leb_total a b : work_leb a b = true ∨ work_leb b a = true.
Proof.
  unfold work_leb. rewrite !orb_true_iff, !andb_true_iff, !orb_true_iff, !andb_true_iff, !negb_true_iff,
    !Z.ltb_lt, !Z.eqb_eq.
  destruct (Z.lt_trichotomy (w_next a) (w_next b)) as [?|[?|?]]; [auto| |auto].
  destruct (Z.lt_trichotomy (w_created a) (w_created b)) as [?|[?|?]]; [auto 6| |auto 6].
  destruct (str_ltb (w_id b) (w_id a)) eqn:E; [|auto 8].
  rewrite (str_ltb_asym _ _ E). auto 8.
Qed.

Lemma work_leb_trans a b c : work_leb a b = true → work_leb b c = true → work_leb a c = true.
Proof.
  unfold work_leb. rewrite !orb_true_iff, !andb_true_iff, !orb_true_iff, !andb_true_iff, !negb_true_iff,
    !Z.ltb_lt, !Z.eqb_eq.
  intros [?|[? [?|[? H1]]]] [?|[? [?|[? H2]]]]; try (left; lia); right; (split; [lia|]); try (left; lia).
  right. split; [lia|]. destruct (str_trichotomy (w_id c) (w_id b)) as [E|[E|E]].
  - by rewrite E in H2.
  - by rewrite E.
  - apply not_true_iff_false. intros E'. rewrite (str_ltb_trans _ _ _ E E') in H1. done.
Qed.

(** ** Interleavings *)

Definition QState : Type := DB * gset string.

Inductive qstep : QState → QState → Prop :=
| q_intents db u l now : qstep (db, u) (AddIntents db l now, u)
| q_enqueue db u i now db' id : Enqueue db i now = Ok (db', id) → qstep (db, u) (db', u)
| q_claim db u now lease token : token ∉ u → token ≠ "" →
    qstep (db, u) ((Claim db now lease token).1, {[token]} ∪ u)
| q_renew db u id token now lease : qstep (db, u) ((Renew db id token now lease).1, u)
| q_complete db u id token now : qstep (db, u) ((Complete db id token now).1, u)
| q_complete_pending db u id now : qstep (db, u) ((CompletePendingTx db id now).1, u)
| q_cancel_claim db u id token cause now : qstep (db, u) ((CancelClaim db id token cause now).1, u)
| q_retry_update db u id token attempts cause now :
    qstep (db, u) ((retry_update db id token attempts cause now).1, u)
| q_retry_now db u id now : qstep (db, u) (RetryNow db id now, u)
| q_cancel db u id now : qstep (db, u) (Cancel db id now, u).

Notation qsteps := (rtc qstep).

(** Every step is an insertion of fresh pending rows or an update of one kind
    of row that keeps the key columns. *)
Lemma insert_or_ignore_split {A} (same : A → A → bool) rows table :
  ∃ added, insert_or_ignore same rows table = table ++ added ∧ (∀ x, x ∈ added → x ∈ rows) ∧
    ∀ i x, added !! i = Some x → ∀ y, y ∈ table ++ take i added → same x y = false.
Proof.
  revert table. induction rows as [|x rows IH]; intros table; cbn.
  - exists []. rewrite app_nil_r. split_and!; [done|done|]. by intros [|i] y.
  - destruct (existsb (same x) table) eqn:E.
    + destruct (IH table) as (added & -> & Hin & Hs). exists added.
      split_and!; [done| |done]. intros y Hy. by apply list_elem_of_further, Hin.
    + destruct (IH (table ++ [x])) as (added & -> & Hin & Hs). exists (x :: added).
      rewrite <-app_assoc. split_and!; [done| |].
      * intros y [->|Hy]%elem_of_cons; [apply list_elem_of_here|by apply list_elem_of_further, Hin].
      * intros [|i] y Hy z Hz; cbn in *.
        -- injection Hy as <-. rewrite app_nil_r in Hz. by apply (proj1 (existsb_elem_false _ _) E).
        -- apply (Hs i y Hy). by rewrite <-app_assoc.
Qed.

Definition terminal (w : WorkRow) : bool := is_state WCompleted w || is_state WCancelled w.

(** What a step may do to a row: the token of a running row changes only to
    the empty one or to one drawn at this step, and a terminal row stays so. *)
Definition row_step (u u' : gset string) (w w' : WorkRow) : Prop :=
  w_id w' = w_id w ∧
  (w_token w' = w_token w ∨ w_token w' = "" ∨ (w_token w' ∈ u' ∧ w_token w' ∉ u)) ∧
  (terminal w = true → terminal w' = true).

Definition shape_ok (u : gset string) (w : WorkRow) : Prop := w_token w = "" ∨ w_token w ∈ u.

(** The rows after a step: updated old rows, then fresh rows. *)
Definition rows_step (u u' : gset string) (l l' : list WorkRow) : Prop :=
  ∃ old added, l' = old ++ added ∧ Forall2 (row_step u u') l old ∧
    (∀ w, w ∈ added → w_token w = "") ∧ (∀ w, w ∈ added → w_id w ∉ w_id <$> l) ∧
    NoDup (w_id <$> added).

Lemma row_step_refl u w : row_step u u w w.
Proof. split_and!; auto. Qed.

Lemma rows_step_update u u' p f db :
  (∀ w, w ∈ intents db → p w = true → row_step u u' w (f w)) → u ⊆ u' →
  rows_step u u' (intents db) (intents (update_work p f db).1).
Proof.
  intros Hf Hu. exists (intents (update_work p f db).1), []. rewrite app_nil_r.
  split_and!; [done| |by intros ? ?%not_elem_of_nil..|constructor].
  cbn. induction (intents db) as [|w l IH]; constructor.
  - destruct (p w) eqn:E; [apply Hf; [apply list_elem_of_here|done]|split_and!; auto].
  - apply IH. intros. apply Hf; [by apply list_elem_of_further|done].
Qed.

Lemma rows_step_insert u l rows :
  (∀ w, w ∈ rows → w_token w = "") →
  rows_step u u l (insert_or_ignore same_work rows l).
Proof.
  intros Ht. destruct (insert_or_ignore_split same_work rows l) as (added & -> & Hin & Hs).
  exists l, added. split_and!; [done| |by auto| |].
  - induction l; constructor; auto using row_step_refl.
    apply IHl. intros i x Hx y Hy. apply (Hs i x Hx). set_solver.
  - intros w Hw [y [E Hy]]%list_elem_of_fmap.
    apply list_elem_of_lookup_1 in Hw as [i Hi].
    specialize (Hs i w Hi y ltac:(set_solver)). unfold same_work in Hs. by rewrite E, String.eqb_refl in Hs.
  - apply NoDup_alt. intros i j x Hi Hj. rewrite !list_lookup_fmap in Hi, Hj.
    destruct (added !! i) as [wi|] eqn:Ei; [|done]. destruct (added !! j) as [wj|] eqn:Ej; [|done].
    cbn in Hi, Hj. injection Hi as <-. injection Hj as Hj.
    assert (∀ a b wa wb, added !! a = Some wa → added !! b = Some wb → (a < b)%nat → w_id wa ≠ w_id wb) as Hlt.
    { intros a b wa wb Ha Hb Hab E.
      assert (wa ∈ take a added ++ [wa] ++ drop (S a) added) as Hwa by set_solver.
      assert (wa ∈ take b added) as Hin'.
      { apply list_elem_of_lookup_2 with a. by rewrite lookup_take_lt. }
      specialize (Hs b wb Hb wa ltac:(set_solver)). unfold same_work in Hs.
      by rewrite E, String.eqb_refl in Hs. }
    destruct (lt_eq_lt_dec i j) as [[Hlt'| ->]|Hlt']; [|done|].
    + by destruct (Hlt i j wi wj Ei Ej Hlt').
    + by destruct (Hlt j i wj wi Ej Ei Hlt').
Qed.

Lemma is_state_spec st w : is_state st w = true ↔ w_state w = st.
Proof. unfold is_state. by rewrite bool_decide_eq_true. Qed.

Lemma fenced_spec id token w :
  fenced_by id token w = true ↔ w_id w = id ∧ w_state w = WRunning ∧ w_token w = token.
Proof. unfold fenced_by. rewrite !andb_true_iff, !String.eqb_eq, is_state_spec. tauto. Qed.

Lemma terminal_spec w : terminal w = true ↔ w_state w = WCompleted ∨ w_state w = WCancelled.
Proof. unfold terminal. by rewrite orb_true_iff, !is_state_spec. Qed.

Lemma due_spec now w :
  due now w = true ↔ (w_state w = WPending ∧ w_next w ≤ now) ∨ (w_state w = WRunning ∧ w_until w ≤ now).
Proof. unfold due. by rewrite orb_true_iff, !andb_true_iff, !is_state_spec, !Z.leb_le. Qed.

(** The row a claim takes is due. *)
Lemma claim_candidate now db c l :
  merge_sort work_order (List.filter (due now) (intents db)) = c :: l → c ∈ intents db ∧ due now c = true.
Proof.
  intros E. apply elem_of_lfilter. rewrite <-(merge_sort_Permutation work_order), E. apply list_elem_of_here.
Qed.

Lemma rows_step_fenced u id token f db :
  (∀ w, w_id (f w) = w_id w) → (∀ w, w_token (f w) = "" ∨ w_token (f w) = w_token w) →
  rows_step u u (intents db) (intents (update_work (fenced_by id token) f db).1).
Proof.
  intros H1 H2. apply rows_step_update; [|done]. intros w Hw (_ & Hst & _)%fenced_spec.
  split_and!; [done|destruct (H2 w); auto|]. intros Ht%terminal_spec. rewrite Hst in Ht. by destruct Ht.
Qed.

Lemma qstep_rows s s' : NoDup (w_id <$> intents s.1) → qstep s s' →
  s.2 ⊆ s'.2 ∧ rows_step s.2 s'.2 (intents s.1) (intents s'.1).
Proof.
  intros Hnd H. destruct H; cbn [fst snd] in *; (split; [set_solver|]).
  - apply rows_step_insert. intros w (i & -> & _)%list_elem_of_fmap. done.
  - unfold Enqueue in H. apply guard_bind_Ok in H as [_ H]. cbv zeta in H. apply (inj Ok) in H.
    apply (f_equal fst) in H. cbn [fst] in H. subst db'.
    apply (rows_step_insert u (intents db) [_]). by intros w ->%list_elem_of_singleton.
  - unfold Claim. cbv zeta. destruct (merge_sort _ _) as [|c l] eqn:E; cbn [fst].
    + exists (intents db), []. rewrite app_nil_r. split_and!; [done| |by intros ? ?%not_elem_of_nil..|constructor].
      apply Forall2_same_length_lookup_2; [done|]. intros i x y Hx Hy. rewrite Hx in Hy. injection Hy as <-.
      split_and!; auto.
    + destruct (claim_candidate _ _ _ _ E) as [Hc Hdue].
      apply rows_step_update; [|set_solver]. intros w Hw Heq. apply String.eqb_eq in Heq.
      split_and!; [done|right; right; cbn; split; [set_solver|done]|].
      rewrite (NoDup_fmap_elem w_id _ w c Hnd Hw Hc Heq). intros Ht%terminal_spec.
      apply due_spec in Hdue. destruct Ht as [Ht|Ht]; rewrite Ht in Hdue; naive_solver.
  - apply rows_step_fenced; [done|by right].
  - apply rows_step_fenced; [done|by left].
  - apply (rows_step_update u u (λ w, String.eqb (w_id w) id && is_state WPending w)); [|done].
    intros w Hw _. by split_and!; auto.
  - apply rows_step_fenced; [done|by left].
  - apply rows_step_fenced; [done|by left].
  - apply rows_step_update; [|done]. intros w Hw Hp. split_and!; [done|by right; left|].
    rewrite !andb_true_iff, !negb_true_iff in Hp. destruct Hp as [[_ H1] H2].
    unfold terminal. by rewrite H1, H2.
  - apply rows_step_update; [|done]. intros w Hw _. split_and!; [done|by right; left|done].
Qed.

(** ** The queue invariant *)

Definition QInv (s : QState) : Prop :=
  NoDup (w_id <$> intents s.1) ∧ (∀ w, w ∈ intents s.1 → shape_ok s.2 w).

Lemma rows_step_ids u u' l old : Forall2 (row_step u u') l old → w_id <$> old = w_id <$> l.
Proof. induction 1 as [|w w' l old (Hid & _) _ IH]; cbn; [done|]. by rewrite Hid, IH. Qed.

Lemma qstep_QInv s s' : qstep s s' → QInv s → QInv s'.
Proof.
  intros Hs [Hnd Hsh]. destruct (qstep_rows s s' Hnd Hs) as [Hu (old & added & E & Hold & Htok & Hfresh & Hadd)].
  unfold QInv. rewrite E. split.
  - rewrite fmap_app, (rows_step_ids _ _ _ _ Hold). apply NoDup_app. split_and!; [done| |done].
    intros i Hi (w & -> & Hw)%list_elem_of_fmap. by apply (Hfresh w Hw).
  - intros w [Hw|Hw]%elem_of_app; [|left; by apply Htok].
    apply list_elem_of_lookup in Hw as [i Hi].
    destruct (Forall2_lookup_r _ _ _ _ _ Hold Hi) as (w0 & Hi0 & (_ & Ht & _)).
    destruct Ht as [Ht|[Ht|[Ht _]]]; [|by left|by right].
    destruct (Hsh w0 ltac:(by eapply list_elem_of_lookup_2)) as [H0|H0]; [left; congruence|].
    right. rewrite Ht. set_solver.
Qed.

Lemma qsteps_QInv s s' : qsteps s s' → QInv s → QInv s'.
Proof. induction 1; eauto using qstep_QInv. Qed.

(** A used token that no row of [id] holds is never held by one again. *)
Definition fenced_out (id token : string) (s : QState) : Prop :=
  token ∈ s.2 ∧ token ≠ "" ∧ ∀ w, w ∈ intents s.1 → w_id w = id → w_token w ≠ token.

Lemma qstep_fenced_out id token s s' :
  QInv s → qstep s s' → fenced_out id token s → fenced_out id token s'.
Proof.
  intros [Hnd _] Hs (Hin & Hne & Hno).
  destruct (qstep_rows s s' Hnd Hs) as [Hu (old & added & E & Hold & Htok & _)].
  split_and!; [set_solver|done|]. rewrite E. intros w [Hw|Hw]%elem_of_app Hid.
  - apply list_elem_of_lookup in Hw as [i Hi].
    destruct (Forall2_lookup_r _ _ _ _ _ Hold Hi) as (w0 & Hi0 & (Hid0 & Ht & _)).
    specialize (Hno w0 ltac:(by eapply list_elem_of_lookup_2) ltac:(congruence)).
    destruct Ht as [->|[->|[_ Hn]]]; [done|done|]. intros E'. by rewrite E' in Hn.
  - rewrite (Htok w Hw). done.
Qed.

Lemma qsteps_fenced_out id token s s' :
  qsteps s s' → QInv s → fenced_out id token s → fenced_out id token s'.
Proof. induction 1; eauto using qstep_QInv, qstep_fenced_out. Qed.

Lemma fenced_out_noop id token s f :
  fenced_out id token s → update_work (fenced_by id token) f s.1 = (s.1, 0).
Proof.
  intros (_ & _ & Hno). apply update_work_none. intros w Hw. apply not_true_iff_false.
  intros (Hid & _ & Ht)%fenced_spec. by apply (Hno w Hw).
Qed.

Lemma qsteps_empty_QInv s : qsteps (empty_db, ∅) s → QInv s.
Proof.
  intros H. apply (qsteps_QInv _ _ H). split; [constructor|]. by intros w ?%not_elem_of_nil.
Qed.

Lemma Claim_Some db now lease token db' w :
  Claim db now lease token = (db', Some w) →
  ∃ c, c ∈ intents db ∧ due (unix now) c = true ∧
    (∀ x, x ∈ intents db → due (unix now) x = true → work_order c x) ∧
    w = mkWork (w_id c) (w_kind c) (w_event c) (w_target c) (w_payload c) WRunning (w_attempts c + 1)
          (w_next c) (w_created c) (unix now) (w_error c) token (unix (now + lease_or_default lease)) ∧
    db' = (update_work (λ x, String.eqb (w_id x) (w_id c)) (λ x, mkWork (w_id x) (w_kind x) (w_event x)
      (w_target x) (w_payload x) WRunning (w_attempts x + 1) (w_next x) (w_created x) (unix now) (w_error x)
      token (unix (now + lease_or_default lease))) db).1.
Proof.
  unfold Claim. cbv zeta. destruct (merge_sort _ _) as [|c l] eqn:E; [done|]. intros H.
  injection H as <- <-. destruct (claim_candidate _ _ _ _ E) as [Hc Hdue].
  exists c. split_and!; [done|done| |done|done].
  intros x Hx Hd. assert (Sorted work_order (c :: l)) as Hs.
  { rewrite <-E. apply Sorted_merge_sort. intros a b. unfold work_order.
    destruct (work_leb_total a b); auto. }
  assert (x ∈ c :: l) as Hin.
  { rewrite <-E, (merge_sort_Permutation work_order). by apply elem_of_lfilter. }
  apply Sorted_StronglySorted in Hs; [|intros a b d; apply work_leb_trans].
  apply elem_of_cons in Hin as [->|Hin].
  - destruct (work_leb_total c c); done.
  - inversion Hs as [|? ? _ Hall]; subst. rewrite Forall_forall in Hall. by apply Hall.
Qed.

(** C19: fencing. Once another worker has claimed an intent again, the first
    worker's token is dead whatever happens next: its renewal, completion,
    cancellation and retry all report failure and change nothing. *)
Theorem stale_claim_is_fenced s0 s1 s2 now1 now2 lease1 lease2 tok1 tok2 db1 db2 w1 w2 :
  qsteps (empty_db, ∅) s0 → tok1 ∉ s0.2 → tok1 ≠ "" →
  Claim s0.1 now1 lease1 tok1 = (db1, Some w1) →
  qsteps (db1, {[tok1]} ∪ s0.2) s1 → tok2 ∉ s1.2 → tok2 ≠ "" →
  Claim s1.1 now2 lease2 tok2 = (db2, Some w2) → w_id w2 = w_id w1 →
  qsteps (db2, {[tok2]} ∪ s1.2) s2 →
  ∀ now lease cause,
    Renew s2.1 (w_id w1) (w_token w1) now lease = (s2.1, false) ∧
    Complete s2.1 (w_id w1) (w_token w1) now = (s2.1, false) ∧
    CancelClaim s2.1 (w_id w1) (w_token w1) cause now = (s2.1, false) ∧
    Retry s2.1 (w_id w1) (w_token w1) cause now = (s2.1, false).
Proof.
  intros H0 Hf1 Hn1 Hc1 H1 Hf2 Hn2 Hc2 Hid H2 now lease cause.
  pose proof (qsteps_empty_QInv _ H0) as I0. destruct s0 as [d0 u0], s1 as [d1 u1]. cbn [fst snd] in *.
  pose proof (q_claim d0 u0 now1 lease1 tok1 Hf1 Hn1) as S1. rewrite Hc1 in S1.
  pose proof (qsteps_QInv _ _ H1 (qstep_QInv _ _ S1 I0)) as I1.
  pose proof (q_claim d1 u1 now2 lease2 tok2 Hf2 Hn2) as S2. rewrite Hc2 in S2.
  pose proof (qstep_QInv _ _ S2 I1) as I2.
  destruct (Claim_Some _ _ _ _ _ _ Hc1) as (c1 & _ & _ & _ & Ew1 & _).
  assert (w_token w1 = tok1) as -> by by rewrite Ew1.
  assert (tok1 ∈ u1) as Hu1.
  { clear -H1. assert (∀ s s', qsteps s s' → QInv s ∨ True → s.2 ⊆ s'.2) as Hmono.
    { induction 1 as [|a b c Hab _ IH]; [done|]. intros _. etransitivity; [|by apply IH; right].
      clear -Hab. destruct Hab; cbn; set_solver. }
    specialize (Hmono _ _ H1 ltac:(by right)). cbn in Hmono. set_solver. }
  assert (fenced_out (w_id w1) tok1 (db2, {[tok2]} ∪ u1)) as F.
  { split_and!; [set_solver|done|]. destruct (Claim_Some _ _ _ _ _ _ Hc2) as (c2 & _ & _ & _ & Ew2 & ->).
    intros w (x & Hx & ->)%elem_of_update Hwid. rewrite <-Hid, Ew2 in Hwid. cbn in Hwid.
    destruct (String.eqb_spec (w_id x) (w_id c2)) as [E|E]; [cbn; congruence|done]. }
  pose proof (qsteps_fenced_out _ _ _ _ H2 I2 F) as F2.
  unfold Renew, Complete, CancelClaim, Retry. rewrite !(fenced_out_noop _ _ _ _ F2).
  split_and!; [done..|]. unfold retry_attempts. rewrite lfilter_none; [done|].
  intros w Hw. destruct F2 as (_ & _ & Hno). apply not_true_iff_false.
  intros (E & _ & Ht)%fenced_spec. by apply (Hno w Hw).
Qed.

(** Completed and cancelled are final. A row in one of these states stays
    in one of them through every interleaving of queue operations, and no
    claim ever returns its intent again. *)
Theorem terminal_is_final s0 s w :
  qsteps (empty_db, ∅) s0 → qsteps s0 s → w ∈ intents s0.1 → terminal w = true →
  (∃ w', w' ∈ intents s.1 ∧ w_id w' = w_id w ∧ terminal w' = true) ∧
  ∀ now lease token db' c, Claim s.1 now lease token = (db', Some c) → w_id c ≠ w_id w.
Proof.
  intros H0 H Hw Ht. pose proof (qsteps_empty_QInv _ H0) as I0.
  assert (QInv s ∧ ∃ w', w' ∈ intents s.1 ∧ w_id w' = w_id w ∧ terminal w' = true) as [I Hex].
  { revert I0 Hw. clear H0. revert w Ht. induction H as [s|s s1 s2 Hs _ IH]; intros w Ht I0 Hw.
    - split; [done|]. by exists w.
    - pose proof (qstep_QInv _ _ Hs I0) as I1.
      destruct (qstep_rows s s1 (proj1 I0) Hs) as [_ (old & added & E & Hold & _)].
      apply list_elem_of_lookup in Hw as [i Hi].
      destruct (Forall2_lookup_l _ _ _ _ _ Hold Hi) as (w1 & Hi1 & (Hid & _ & Hterm)).
      destruct (IH w1 (Hterm Ht) I1) as [I2 (w' & ? & ? & ?)].
      { rewrite E. apply elem_of_app. left. by eapply list_elem_of_lookup_2. }
      split; [done|]. exists w'. split_and!; [done|congruence|done]. }
  split; [done|]. intros now lease token db' c Hc Hid.
  destruct (Claim_Some _ _ _ _ _ _ Hc) as (c0 & Hc0 & Hdue & _ & -> & _). cbn in Hid.
  destruct Hex as (w' & Hw' & Hid' & Ht').
  assert (c0 = w') as -> by (eapply (NoDup_fmap_elem w_id); [apply I|done|done|congruence]).
  apply terminal_spec in Ht'. apply due_spec in Hdue. destruct Ht' as [E|E]; rewrite E in Hdue; naive_solver.
Qed.

(** A claim takes the first due row in (next_at, created_at, id) order,
    counts the attempt, leases it to its token and leaves every other row
    alone; it returns nothing exactly when no row is due. *)
Theorem Claim_spec s now lease token :
  qsteps (empty_db, ∅) s →
  match Claim s.1 now lease token with
  | (db', None) => db' = s.1 ∧ ∀ w, w ∈ intents s.1 → due (unix now) w = false
  | (db', Some w') => ∃ c, c ∈ intents s.1 ∧ due (unix now) c = true ∧
      (∀ x, x ∈ intents s.1 → due (unix now) x = true → work_order c x) ∧
      w_id w' = w_id c ∧ w_attempts w' = w_attempts c + 1 ∧ w_state w' = WRunning ∧ w_token w' = token ∧
      w_until w' = unix (now + lease_or_default lease) ∧
      (∀ x, x ∈ intents db' ↔ x = w' ∨ (x ∈ intents s.1 ∧ w_id x ≠ w_id c))
  end.
Proof.
  intros Hs. destruct (qsteps_empty_QInv _ Hs) as [Hnd _].
  destruct (Claim s.1 now lease token) as [db' [w'|]] eqn:E.
  - destruct (Claim_Some _ _ _ _ _ _ E) as (c & Hc & Hdue & Hmin & -> & ->). exists c.
    split_and!; try done. intros x. rewrite elem_of_update. split.
    + intros (y & Hy & ->). destruct (String.eqb_spec (w_id y) (w_id c)) as [Ey|Ey]; [|by right].
      left. by rewrite (NoDup_fmap_elem w_id _ y c Hnd Hy Hc Ey).
    + intros [->|[Hx Hne]]; [exists c|exists x]; (split; [done|]).
      * by rewrite String.eqb_refl.
      * by destruct (String.eqb_spec (w_id x) (w_id c)).
  - unfold Claim in E. cbv zeta in E. destruct (merge_sort _ _) as [|c l] eqn:Em; [|done].
    injection E as <-. split; [done|]. intros w Hw. apply not_true_iff_false. intros Hd.
    assert (w ∈ merge_sort work_order (List.filter (due (unix now)) (intents s.1))) as Hin.
    { rewrite (merge_sort_Permutation work_order). by apply elem_of_lfilter. }
    rewrite Em in Hin. by apply not_elem_of_nil in Hin.
Qed.

(** Enqueueing the same work again changes nothing, not even the payload
    or the due time, and returns the identifier of the first call. *)
Theorem Enqueue_idempotent db i now db1 id j now' :
  Enqueue db i now = Ok (db1, id) →
  n_id j = n_id i → n_kind j = n_kind i → n_event j = n_event i → n_target j = n_target i →
  Enqueue db1 j now' = Ok (db1, id).
Proof.
  unfold Enqueue. intros H Hid Hk He Ht. rewrite Hid, Hk, He, Ht. apply guard_bind_Ok in H as [-> H].
  apply (inj Ok) in H. pose proof (f_equal fst H) as H1. pose proof (f_equal snd H) as H2.
  cbn [fst snd] in H1, H2. cbn [guard_err mbind result_bind mret result_ret]. subst id. clear H.
  do 2 f_equal. rewrite <-H1. clear H1. cbn [insert_or_ignore].
  set (w := mkWork _ _ _ _ _ _ _ _ _ _ _ _ _). set (w' := mkWork _ _ _ _ _ _ _ _ _ _ _ _ _).
  change (intents (set_intents ?l _)) with l.
  assert (∀ x, same_work w x = same_work w' x) as Hsame by done.
  assert (existsb (same_work w) (if existsb (same_work w') (intents db) then intents db else intents db ++ [w']) = true) as ->; [|done].
  apply existsb_elem. destruct (existsb (same_work w') (intents db)) eqn:E.
  - apply existsb_elem in E as (x & Hx & Hs). by exists x.
  - exists w'. split; [set_solver|]. rewrite Hsame. unfold same_work. by rewrite String.eqb_refl.
Qed.

(** ** Backoff *)

Definition jitter_check (seconds b : Z) : bool :=
  (4 * seconds - 5 <? 5 * jittered seconds b) && (5 * jittered seconds b <=? 6 * seconds).

Lemma jitter_table :
  forallb (λ s, forallb (jitter_check s) (zrange 0 255))
    [2; 4; 8; 16; 32; 64; 128; 256; 512; 1024; 2048; 3600] = true.
Proof. vm_compute. reflexivity. Qed.

Lemma backoff_seconds_cases attempts :
  1 ≤ attempts → backoff_seconds attempts ∈ [2; 4; 8; 16; 32; 64; 128; 256; 512; 1024; 2048; 3600].
Proof.
  intros H. destruct (Z.le_gt_cases attempts 11) as [Hle|Hgt].
  - apply containsInt_spec.
    apply (forallb_zrange (λ a, containsInt [2; 4; 8; 16; 32; 64; 128; 256; 512; 1024; 2048; 3600]
      (backoff_seconds a)) 1 11); [vm_compute; reflexivity|lia].
  - unfold backoff_seconds. assert (2 ^ 12 ≤ 2 ^ attempts) by (apply Z.pow_le_mono_r; lia).
    rewrite (proj2 (Z.ltb_lt 3600 (2 ^ attempts))) by lia. set_solver.
Qed.

Lemma jittered_bounds attempts b :
  1 ≤ attempts → 0 ≤ b ≤ 255 → jitter_check (backoff_seconds attempts) b = true.
Proof.
  intros Ha Hb. pose proof jitter_table as H. rewrite forallb_elem in H.
  specialize (H _ (backoff_seconds_cases attempts Ha)).
  rewrite forallb_elem in H. by apply H, zrange_spec.
Qed.

Lemma backoff_range id attempts :
  let s := Z.min 3600 (2 ^ Z.max 1 attempts) in
  ∃ d, backoff id attempts = d * second ∧ 4 * s - 5 < 5 * d ≤ 6 * s ∧ 1 ≤ d ≤ 4320.
Proof.
  cbv zeta. unfold backoff.
  assert ((if attempts <? 1 then 1 else attempts) = Z.max 1 attempts) as -> by (destruct (Z.ltb_spec attempts 1); lia).
  set (a := Z.max 1 attempts). assert (1 ≤ a) as Ha by lia.
  assert (Z.min 3600 (2 ^ a) = backoff_seconds a) as ->.
  { unfold backoff_seconds. destruct (Z.ltb_spec 3600 (2 ^ a)); lia. }
  set (b := match sha256 _ with b :: _ => b | [] => 0 end).
  assert (0 ≤ b ≤ 255) as Hb.
  { subst b. pose proof (sha256_range (bytes_of (id +:+ Itoa a))) as Hr.
    destruct (sha256 _) as [|x l]; [lia|]. inversion Hr; subst. lia. }
  pose proof (jittered_bounds a b Ha Hb) as Hj. unfold jitter_check in Hj.
  apply andb_true_iff in Hj as [H1%Z.ltb_lt H2%Z.leb_le].
  eexists. split; [reflexivity|].
  assert (2 ≤ backoff_seconds a ≤ 3600).
  { pose proof (backoff_seconds_cases a Ha) as Hc. revert Hc. generalize (backoff_seconds a). intros z Hc.
    rewrite !elem_of_cons in Hc. repeat destruct Hc as [->|Hc]; try lia. by apply not_elem_of_nil in Hc. }
  lia.
Qed.

(** In exact double arithmetic the retry delay is a whole number of
    seconds within 20 percent (rounded down) of 2^attempts seconds capped at
    one hour, for every identifier and attempt count: at least one second and
    at most 72 minutes. *)
Theorem backoff_bounds id attempts :
  let s := Z.min 3600 (2 ^ Z.max 1 attempts) in
  ∃ d, backoff id attempts = d * second ∧ 4 * s - 5 < 5 * d ≤ 6 * s ∧ 1 ≤ d ≤ 4320.
Proof. exact (backoff_range id attempts). Qed.

(** No failed attempt is lost: an effective retry leaves the intent
    pending, so that a claim 4320 seconds later (or any time after) finds due
    work. *)
Theorem Retry_comes_back s id token cause now db' later lease tok :
  qsteps (empty_db, ∅) s → Retry s.1 id token cause now = (db', true) →
  now + 4320 * second ≤ later →
  ∃ db'' w, Claim db' later lease tok = (db'', Some w).
Proof.
  intros Hs H Hl. unfold Retry, retry_update in H.
  destruct (retry_attempts s.1 id token) as [attempts|]; [|done].
  destruct (update_work _ _ _) as [d n] eqn:E. injection H as -> Hn.
  apply Z.eqb_eq in Hn. unfold update_work in E. injection E as E1 E2.
  destruct (List.filter (fenced_by id token) (intents s.1)) as [|w l] eqn:Ef; [cbn in E2; lia|].
  assert (w ∈ intents s.1 ∧ fenced_by id token w = true) as [Hw Hf]
    by (apply elem_of_lfilter; rewrite Ef; apply list_elem_of_here).
  destruct (backoff_range id attempts) as (dl & Hd & _ & [_ Hmax]).
  set (w' := with_state WPending (unix (now + backoff id attempts)) (unix now) (cause_message cause) "" 0 w).
  assert (w' ∈ intents db') as Hw'.
  { rewrite <-E1. cbn. apply list_elem_of_fmap. exists w. by rewrite Hf. }
  assert (due (unix later) w' = true) as Hdue.
  { apply due_spec. left. split; [done|]. cbn. unfold unix. apply Z.div_le_mono; [done|].
    rewrite Hd. assert (0 < second) by done. nia. }
  unfold Claim. cbv zeta. destruct (merge_sort _ _) as [|c k] eqn:Em.
  - assert (w' ∈ merge_sort work_order (List.filter (due (unix later)) (intents db'))) as Hin.
    { rewrite (merge_sort_Permutation work_order). by apply elem_of_lfilter. }
    rewrite Em in Hin. by apply not_elem_of_nil in Hin.
  - by do 2 eexists.
Qed.

(** ** Witnesses *)

Definition sample_intent : NewIntent := mkNewIntent "" "webhook" "ev" "https://a.example" "{}" None.
Definition q0 : DB := match Enqueue empty_db sample_intent 0 with Ok (db, _) => db | Err _ => empty_db end.
Definition q_id : string := "i1".
Definition sample_intent2 : NewIntent := mkNewIntent q_id "webhook" "ev" "https://a.example" "{}" None.
Definition q1 : DB := match Enqueue empty_db sample_intent2 0 with Ok (db, _) => db | Err _ => empty_db end.

Lemma q1_reach : qsteps (empty_db, ∅) (q1, ∅).
Proof. apply rtc_once. apply (q_enqueue _ _ sample_intent2 0 q1 q_id). reflexivity. Qed.

Definition claim1 := Claim q1 0 second "t1".
Definition claim2 := Claim claim1.1 (5 * second) second "t2".
Definition w_first : WorkRow := mkWork q_id "webhook" "ev" "https://a.example" "{}" WRunning 1 0 0 0 "" "t1" 1.
Definition w_second : WorkRow := mkWork q_id "webhook" "ev" "https://a.example" "{}" WRunning 2 0 0 5 "" "t2" 6.

(** The first worker comes back after its lease was taken over. *)
Lemma stale_claim_is_fenced_witness :
  Complete claim2.1 q_id "t1" (6 * second) = (claim2.1, false).
Proof.
  apply (stale_claim_is_fenced (q1, ∅) (claim1.1, {["t1"]} ∪ ∅) (claim2.1, {["t2"]} ∪ ({["t1"]} ∪ ∅))
    0 (5 * second) second second "t1" "t2" claim1.1 claim2.1 w_first w_second
    q1_reach ltac:(set_solver) ltac:(done) eq_refl (rtc_refl _ _)
    ltac:(cbn; set_solver) ltac:(done) eq_refl eq_refl (rtc_refl _ _) (6 * second) second None).
Defined.

Definition q_done : DB := (Complete claim1.1 q_id "t1" second).1.
Definition w_done : WorkRow := mkWork q_id "webhook" "ev" "https://a.example" "{}" WCompleted 1 0 0 1 "" "" 0.
Definition q_now : DB := RetryNow q_done q_id (2 * second).

Lemma terminal_is_final_witness :
  ∃ w', w' ∈ intents q_now ∧ w_id w' = q_id ∧ terminal w' = true.
Proof.
  apply (terminal_is_final (q_done, {["t1"]} ∪ ∅) (q_now, {["t1"]} ∪ ∅) w_done).
  - eapply rtc_r; [eapply rtc_r; [exact q1_reach|]|].
    + apply (q_claim q1 ∅ 0 second "t1"); [set_solver|done].
    + apply q_complete.
  - apply rtc_once, q_retry_now.
  - vm_compute. apply list_elem_of_here.
  - reflexivity.
Defined.

Lemma Claim_spec_witness : ∃ c, c ∈ intents q1 ∧ due 0 c = true.
Proof.
  destruct (Claim_spec (q1, ∅) 0 second "t1" q1_reach) as (c & Hc & Hd & _). by exists c.
Defined.

Lemma Enqueue_idempotent_witness :
  Enqueue q1 (mkNewIntent q_id "webhook" "ev" "https://a.example" "other" (Some 7)) second = Ok (q1, q_id).
Proof. exact (Enqueue_idempotent empty_db sample_intent2 0 q1 q_id _ second eq_refl eq_refl eq_refl eq_refl eq_refl). Defined.

Lemma Retry_comes_back_witness :
  ∃ db'' w, Claim (Retry claim1.1 q_id "t1" (Some "boom") 0).1 (4320 * second) second "t3" = (db'', Some w).
Proof.
  apply (Retry_comes_back (claim1.1, {["t1"]} ∪ ∅) q_id "t1" (Some "boom") 0 _ (4320 * second) second "t3").
  - eapply rtc_r; [exact q1_reach|]. apply (q_claim q1 ∅ 0 second "t1"); [set_solver|done].
  - apply surjective_pairing.
  - lia.
Defined.
