(* ===== verification/Maintenance.v ===== *)
(** * internal/daemon: the maintenance gate of a tenant

    The gate of maintenance.go counts admitted operations and grants exclusive
    maintenance once they have drained.  Each critical section of its mutex is
    one function on [MGate]; a channel is a number, and it is closed when it is
    no longer the current one.  [mstep] interleaves the critical sections of
    any number of goroutines, which wait, are cancelled, or finish. *)

From S2P Require Import Prelude.

Definition ErrMaintenance : string := "retryable: tenant maintenance in progress".
Definition ErrMaintenanceBusy : string := "retryable: tenant maintenance is already active".
Definition ErrTenantClosing : string := "tenant is closing".

(** [g_changed] is nil until somebody needs it; [g_fresh] numbers the channel
    made next. *)
Record MGate := mkMGate {
  g_active : Z; g_maintenance : bool; g_closing : bool; g_changed : option nat; g_fresh : nat }.

Definition new_gate : MGate := mkMGate 0 false false None 0.

(** What the context of a call says about this gate. *)
Inductive marker := NoMarker | OperationMarker | MaintenanceMarker.

Definition signalLocked (g : MGate) : MGate :=
  mkMGate (g_active g) (g_maintenance g) (g_closing g) (Some (g_fresh g)) (S (g_fresh g)).

Definition set_maintenance (b : bool) (g : MGate) : MGate :=
  mkMGate (g_active g) b (g_closing g) (g_changed g) (g_fresh g).

(** [true]: a new admission, to be ended; [false]: a nested call. *)
Definition beginOperation (m : marker) (ctxErr : option string) (g : MGate) : MGate * result bool :=
  match m with
  | OperationMarker | MaintenanceMarker => (g, mret false)
  | NoMarker =>
    match ctxErr with
    | Some e => (g, Err e)
    | None =>
      if g_closing g then (g, Err ErrTenantClosing)
      else if g_maintenance g then (g, Err ErrMaintenance)
      else (mkMGate (g_active g + 1) (g_maintenance g) (g_closing g) (g_changed g) (g_fresh g), mret true)
    end
  end.

(** The [once] body of an operation's completion. *)
Definition endOperation (g : MGate) : MGate :=
  signalLocked (if 0 <? g_active g
                then mkMGate (g_active g - 1) (g_maintenance g) (g_closing g) (g_changed g) (g_fresh g) else g).

(** [beginMaintenance] up to its loop. *)
Definition requestMaintenance (m : marker) (ctxErr : option string) (g : MGate) : MGate * result bool :=
  match m with
  | MaintenanceMarker => (g, mret false)
  | OperationMarker => (g, Err ErrMaintenanceBusy)
  | NoMarker =>
    match ctxErr with
    | Some e => (g, Err e)
    | None =>
      if g_closing g then (g, Err ErrTenantClosing)
      else if g_maintenance g then (g, Err ErrMaintenanceBusy)
      else (signalLocked (set_maintenance true g), mret true)
    end
  end.

(** The loop condition: the channel to wait on, or none when drained. *)
Definition drain_wait (g : MGate) : option (option nat) := if 0 <? g_active g then Some (g_changed g) else None.
Definition cancelMaintenance (g : MGate) : MGate := signalLocked (set_maintenance false g).
Definition endMaintenance (g : MGate) : MGate := signalLocked (set_maintenance false g).

Definition markClosing (g : MGate) : MGate :=
  signalLocked (mkMGate (g_active g) (g_maintenance g) true (g_changed g) (g_fresh g)).

(** [if g.changed == nil { g.changed = make(chan struct{}) }] *)
Definition watch (g : MGate) : MGate :=
  match g_changed g with
  | Some _ => g
  | None => mkMGate (g_active g) (g_maintenance g) (g_closing g) (Some (g_fresh g)) (S (g_fresh g))
  end.

Definition blocked (g : MGate) : bool := g_maintenance g || g_closing g.

(** [waitIdle]: what its context subtracts, and the loop condition. *)
Definition idle_share (m : marker) : Z * bool :=
  match m with NoMarker => (0, false) | OperationMarker => (1, false) | MaintenanceMarker => (0, true) end.
Definition not_idle (m : marker) (g : MGate) : bool :=
  let '(remaining, ownMaintenance) := idle_share m in
  (remaining <? g_active g) || (g_maintenance g && negb ownMaintenance).

(** ** Goroutines *)

Inductive thread :=
| Running                              (** an admitted operation *)
| Draining (chan : option nat)         (** maintenance waiting for operations to end *)
| Exclusive                            (** granted maintenance *)
| Idling (m : marker) (chan : option nat). (** in waitIdle *)
#[export] Instance marker_eq_dec : EqDecision marker.
Proof. solve_decision. Defined.
#[export] Instance thread_eq_dec : EqDecision thread.
Proof. solve_decision. Defined.

Notation MWorld := (MGate * gmap nat thread)%type.

Definition drained (g : MGate) : thread :=
  match drain_wait g with Some chan => Draining chan | None => Exclusive end.

(** A channel is closed when the gate has replaced it. *)
Definition closed_chan (g : MGate) (chan : option nat) : bool := negb (bool_decide (g_changed g = chan)).

Inductive mstep : MWorld → MWorld → Prop :=
| m_begin t g ts g' :
    ts !! t = None → beginOperation NoMarker None g = (g', Ok true) → mstep (g, ts) (g', <[t := Running]> ts)
| m_end t g ts : ts !! t = Some Running → mstep (g, ts) (endOperation g, delete t ts)
| m_request t g ts g' :
    ts !! t = None → requestMaintenance NoMarker None g = (g', Ok true) → mstep (g, ts) (g', <[t := drained g']> ts)
| m_wake t chan g ts :
    ts !! t = Some (Draining chan) → closed_chan g chan = true → mstep (g, ts) (g, <[t := drained g]> ts)
| m_cancel t chan g ts : ts !! t = Some (Draining chan) → mstep (g, ts) (cancelMaintenance g, delete t ts)
| m_finish t g ts : ts !! t = Some Exclusive → mstep (g, ts) (endMaintenance g, delete t ts)
| m_closing g ts : mstep (g, ts) (markClosing g, ts)
| m_watch g ts : mstep (g, ts) (watch g, ts)
| m_idle t m g ts :
    ts !! t = None → not_idle m g = true → mstep (g, ts) (watch g, <[t := Idling m (g_changed (watch g))]> ts)
| m_idle_wake t m chan g ts :
    ts !! t = Some (Idling m chan) → closed_chan g chan = true →
    mstep (g, ts) (if not_idle m g then (watch g, <[t := Idling m (g_changed (watch g))]> ts) else (g, delete t ts))
| m_idle_cancel t m chan g ts : ts !! t = Some (Idling m chan) → mstep (g, ts) (g, delete t ts).

Definition mruns : MWorld → MWorld → Prop := rtc mstep.

(** * The maintenance gate under every interleaving

    Exclusion, no lost wake-up, and the drain: operations that end let a
    waiting maintenance through. *)

Implicit Types (ts : gmap nat thread) (g : MGate) (th : thread).

(** ** Counting goroutines *)

Definition cnt (p : thread → bool) (ts : gmap nat thread) : nat := size (filter (λ kv, p kv.2 = true) ts).

Lemma cnt_insert p t th ts : ts !! t = None → cnt p (<[t := th]> ts) = (cnt p ts + if p th then 1 else 0)%nat.
Proof.
  intros Hn. unfold cnt. destruct (p th) eqn:E.
  - rewrite map_filter_insert_True by done. rewrite map_size_insert_None; [lia|].
    apply map_lookup_filter_None_2. by left.
  - rewrite map_filter_insert_False by (simpl; congruence). rewrite delete_id by done. lia.
Qed.

Lemma cnt_delete p t th ts : ts !! t = Some th → cnt p ts = (cnt p (delete t ts) + if p th then 1 else 0)%nat.
Proof.
  intros Hs. rewrite <-(insert_delete_id ts t th Hs) at 1. apply cnt_insert, lookup_delete_eq.
Qed.

Lemma cnt_update p t th th0 ts :
  ts !! t = Some th0 → (cnt p (<[t := th]> ts) + (if p th0 then 1 else 0) = cnt p ts + (if p th then 1 else 0))%nat.
Proof.
  intros Hs. rewrite <-insert_delete_eq. rewrite cnt_insert by apply lookup_delete_eq.
  rewrite (cnt_delete p t th0 ts Hs). lia.
Qed.

Lemma cnt_pos p t th ts : ts !! t = Some th → p th = true → (0 < cnt p ts)%nat.
Proof. intros Hs Hp. rewrite (cnt_delete p t th ts Hs), Hp. lia. Qed.

Lemma cnt_two p t t' th th' ts :
  ts !! t = Some th → ts !! t' = Some th' → p th = true → p th' = true → t ≠ t' → (1 < cnt p ts)%nat.
Proof.
  intros Hs Hs' Hp Hp' Hn. rewrite (cnt_delete p t th ts Hs), Hp.
  pose proof (cnt_pos p t' th' (delete t ts)) as Hc. rewrite lookup_delete_ne in Hc by done. specialize (Hc Hs' Hp'). lia.
Qed.

Lemma cnt_exists p ts : (0 < cnt p ts)%nat → ∃ t th, ts !! t = Some th ∧ p th = true.
Proof.
  intros Hc. destruct (map_choose (filter (λ kv, p kv.2 = true) ts)) as (t & th & Ht).
  - intros E. unfold cnt in Hc. rewrite E, map_size_empty in Hc. lia.
  - apply map_lookup_filter_Some in Ht as (Ht & Hp). eauto.
Qed.

Definition is_running (th : thread) : bool := match th with Running => true | _ => false end.
Definition holds (th : thread) : bool := match th with Draining _ | Exclusive => true | _ => false end.

(** ** The invariant *)

(** A waiter's channel is an old one, or its condition still holds. *)
Definition waiter_ok (g : MGate) (th : thread) : Prop :=
  match th with
  | Running => True
  | Exclusive => g_active g = 0
  | Draining chan => ∃ c, chan = Some c ∧ (c < g_fresh g)%nat ∧ (g_changed g = chan → 0 < g_active g)
  | Idling m chan => ∃ c, chan = Some c ∧ (c < g_fresh g)%nat ∧ (g_changed g = chan → not_idle m g = true)
  end.

Record MInv (w : MWorld) : Prop := mkMInv {
  mi_active : g_active w.1 = Z.of_nat (cnt is_running w.2);
  mi_holder : cnt holds w.2 = if g_maintenance w.1 then 1%nat else 0%nat;
  mi_waiters : map_Forall (λ _ th, waiter_ok w.1 th) w.2;
  mi_fresh : ∀ c, g_changed w.1 = Some c → (c < g_fresh w.1)%nat;
  mi_nil : g_changed w.1 = None → g_fresh w.1 = 0%nat }.

(** Every waiter stays well after a signal, if granted maintenance does. *)
Lemma waiters_signal g g' ts :
  map_Forall (λ _ th, waiter_ok g th) ts → g_fresh g = g_fresh g' →
  (∀ t, ts !! t = Some Exclusive → g_active g' = 0) → map_Forall (λ _ th, waiter_ok (signalLocked g') th) ts.
Proof.
  intros Hw Hf He t th Ht. specialize (Hw t th Ht). destruct th; simpl in *; [done| |by eapply He|];
    destruct Hw as (c & -> & Hc & _); exists c; (split; [done|split; [lia|intros [= E]; lia]]).
Qed.

Lemma waiters_insert g ts t th :
  map_Forall (λ _ th, waiter_ok g th) ts → waiter_ok g th → map_Forall (λ _ th, waiter_ok g th) (<[t := th]> ts).
Proof. intros. by apply map_Forall_insert_2. Qed.

Lemma waiters_delete g ts t : map_Forall (λ _ th, waiter_ok g th) ts → map_Forall (λ _ th, waiter_ok g th) (delete t ts).
Proof. intros. by apply map_Forall_delete. Qed.

Lemma watch_spec g :
  g_active (watch g) = g_active g ∧ g_maintenance (watch g) = g_maintenance g ∧ (g_fresh g <= g_fresh (watch g))%nat ∧
  (∀ chan, g_changed (watch g) = Some chan → g_changed g = Some chan ∨ chan = g_fresh g) ∧ is_Some (g_changed (watch g)).
Proof. unfold watch. destruct (g_changed g) as [c|] eqn:E; simpl; rewrite ?E; split_and!; eauto; intros; simplify_eq; auto. Qed.

Lemma not_idle_watch m g : not_idle m (watch g) = not_idle m g.
Proof. unfold not_idle. by destruct (watch_spec g) as (-> & -> & _). Qed.

Lemma waiters_watch g ts : map_Forall (λ _ th, waiter_ok g th) ts → map_Forall (λ _ th, waiter_ok (watch g) th) ts.
Proof.
  intros Hw t th Ht. specialize (Hw t th Ht). destruct (watch_spec g) as (Ea & _ & Hf & Hc & _).
  destruct th as [|chan| |m chan]; simpl in *; [done| |by rewrite Ea|]; destruct Hw as (c & -> & Hlt & Hi); exists c;
    (split; [done|split; [lia|]]); intros E; (destruct (Hc _ E) as [E'| ->]; [|lia]); [rewrite Ea|rewrite not_idle_watch]; auto.
Qed.

Lemma drained_ok g : 0 <= g_active g → is_Some (g_changed g) → (∀ c, g_changed g = Some c → (c < g_fresh g)%nat) → waiter_ok g (drained g).
Proof.
  intros Ha (c & Hc) Hf. unfold drained, drain_wait. destruct (Z.ltb_spec 0 (g_active g)); simpl; [|lia].
  exists c. split; [done|]. split; [by apply Hf|auto].
Qed.

Lemma holds_drained g : holds (drained g) = true ∧ is_running (drained g) = false.
Proof. unfold drained. by destruct (drain_wait g). Qed.

Lemma MInv_init : MInv (new_gate, ∅).
Proof. split; simpl; [done|done|apply map_Forall_empty|done|done]. Qed.

Lemma MInv_exclusive g ts : MInv (g, ts) → ∀ t, ts !! t = Some Exclusive → g_active g = 0.
Proof. intros Hi t Ht. exact (mi_waiters _ Hi t Exclusive Ht). Qed.

Lemma MInv_begin t g g' ts :
  MInv (g, ts) → ts !! t = None → beginOperation NoMarker None g = (g', Ok true) → MInv (g', <[t := Running]> ts).
Proof.
  intros [Ha Hh Hw Hf Hnil] Hn Hb. simpl in *. destruct (g_closing g); [done|]. destruct (g_maintenance g) eqn:Em; [done|].
  injection Hb as <-. split; simpl; rewrite ?cnt_insert by done; simpl; [lia|lia| |done|done].
  intros t' th Ht'. rewrite lookup_insert in Ht'. case_decide; [by simplify_eq|]. specialize (Hw t' th Ht').
  destruct th as [|chan| |m chan]; simpl in *; [done| | |].
  - pose proof (cnt_pos holds t' _ ts Ht' eq_refl). lia.
  - pose proof (cnt_pos holds t' _ ts Ht' eq_refl). lia.
  - destruct Hw as (c & -> & Hc & Hx). exists c. split; [done|]. split; [done|]. intros E. specialize (Hx E).
    unfold not_idle in *. destruct (idle_share m) as [r own]. simpl. apply orb_true_iff in Hx as [Hx|Hx]; [|by rewrite Em in Hx].
    apply Z.ltb_lt in Hx. rewrite (proj2 (Z.ltb_lt _ _)) by lia. done.
Qed.

Lemma MInv_end t g ts : MInv (g, ts) → ts !! t = Some Running → MInv (endOperation g, delete t ts).
Proof.
  intros Hi Ht. pose proof (MInv_exclusive g ts Hi) as Hex. destruct Hi as [Ha Hh Hw Hf Hnil]. simpl in *.
  pose proof (cnt_pos is_running t _ ts Ht eq_refl). unfold endOperation. rewrite (proj2 (Z.ltb_lt _ _)) by lia.
  pose proof (cnt_delete is_running t _ ts Ht) as Hr. pose proof (cnt_delete holds t _ ts Ht) as Hd. simpl in *.
  split; simpl; [lia|rewrite <-Hh; lia| |intros c [= <-]; lia|done].
  eapply waiters_signal; [apply waiters_delete; exact Hw|done|]. intros t' [_ Ht']%lookup_delete_Some. simpl. specialize (Hex t' Ht'). lia.
Qed.

Lemma MInv_request t g g' ts :
  MInv (g, ts) → ts !! t = None → requestMaintenance NoMarker None g = (g', Ok true) → MInv (g', <[t := drained g']> ts).
Proof.
  intros Hi Hn Hb. pose proof (MInv_exclusive g ts Hi) as Hex. destruct Hi as [Ha Hh Hw Hf Hnil]. simpl in *.
  destruct (g_closing g); [done|]. destruct (g_maintenance g) eqn:Em; [done|]. injection Hb as <-.
  destruct (holds_drained (signalLocked (set_maintenance true g))) as (E1 & E2).
  split; simpl; rewrite ?cnt_insert by done; rewrite ?E1, ?E2; simpl; [lia|lia| |intros c [= <-]; lia|done].
  apply waiters_insert; [eapply waiters_signal; [exact Hw|done|done]|].
  apply drained_ok; simpl; [lia|by eexists|intros c [= <-]; lia].
Qed.

Lemma MInv_wake t chan g ts : MInv (g, ts) → ts !! t = Some (Draining chan) → MInv (g, <[t := drained g]> ts).
Proof.
  intros [Ha Hh Hw Hf Hnil] Ht. simpl in *. destruct (holds_drained g) as (E1 & E2).
  pose proof (cnt_update is_running t (drained g) _ ts Ht) as Hr. pose proof (cnt_update holds t (drained g) _ ts Ht) as Hd.
  rewrite E2 in Hr. rewrite E1 in Hd. simpl in *. destruct (Hw t _ Ht) as (c & -> & Hc & _).
  split; simpl; [lia|lia| |done|done]. apply waiters_insert; [done|]. apply drained_ok; [lia| |done].
  destruct (g_changed g) eqn:E; [by eexists|]. rewrite Hnil in Hc by done. lia.
Qed.

(** Maintenance given up or finished. *)
Lemma MInv_release t th g ts :
  MInv (g, ts) → ts !! t = Some th → holds th = true → MInv (signalLocked (set_maintenance false g), delete t ts).
Proof.
  intros Hi Ht Hth. pose proof (MInv_exclusive g ts Hi) as Hex. destruct Hi as [Ha Hh Hw Hf Hnil]. simpl in *.
  pose proof (cnt_delete is_running t _ ts Ht) as Hr. pose proof (cnt_delete holds t _ ts Ht) as Hd. rewrite Hth in Hd.
  assert (is_running th = false) as E by (by destruct th). rewrite E in Hr.
  assert (g_maintenance g = true) as Em by (destruct (g_maintenance g); [done|lia]). rewrite Em in Hh.
  split; simpl; [lia|lia| |intros c [= <-]; lia|done].
  eapply waiters_signal; [apply waiters_delete; exact Hw|done|]. intros t' [_ Ht']%lookup_delete_Some. by apply (Hex t').
Qed.

Lemma MInv_closing g ts : MInv (g, ts) → MInv (markClosing g, ts).
Proof.
  intros Hi. pose proof (MInv_exclusive g ts Hi) as Hex. destruct Hi as [Ha Hh Hw Hf Hnil].
  split; simpl; [done|done| |intros c [= <-]; lia|done]. by eapply waiters_signal.
Qed.

Lemma MInv_watch g ts : MInv (g, ts) → MInv (watch g, ts).
Proof.
  intros [Ha Hh Hw Hf Hnil]. simpl in *. destruct (watch_spec g) as (Ea & Em & _ & _ & (c & Hc)).
  split; simpl; rewrite ?Ea, ?Em; [done|done|by apply waiters_watch| |by rewrite Hc].
  unfold watch. destruct (g_changed g) eqn:E; simpl; [by rewrite E|intros ? [= <-]; lia].
Qed.

(** Entering or leaving the wait for idleness. *)
Lemma MInv_idle t m g ts :
  MInv (g, ts) → not_idle m g = true → match ts !! t with Some (Idling _ _) | None => True | _ => False end →
  MInv (watch g, <[t := Idling m (g_changed (watch g))]> ts).
Proof.
  intros Hi Hn Ht. apply MInv_watch in Hi. destruct Hi as [Ha Hh Hw Hf Hnil]. simpl in *.
  destruct (watch_spec g) as (_ & _ & _ & _ & (c & Hc)).
  assert (Hcnt : ∀ p, (∀ m chan, p (Idling m chan) = false) → cnt p (<[t := Idling m (g_changed (watch g))]> ts) = cnt p ts).
  { intros p Hp. destruct (ts !! t) as [[]|] eqn:E; try done; [pose proof (cnt_update p t (Idling m (g_changed (watch g))) _ ts E) as Hu|
      pose proof (cnt_insert p t (Idling m (g_changed (watch g))) ts E) as Hu]; rewrite ?Hp in Hu; lia. }
  split; simpl; rewrite ?Hcnt by done; [done|done| |done|done]. apply waiters_insert; [done|].
  exists c. split; [done|]. split; [by apply Hf|]. by rewrite not_idle_watch.
Qed.

Lemma MInv_leave t m chan g ts : MInv (g, ts) → ts !! t = Some (Idling m chan) → MInv (g, delete t ts).
Proof.
  intros [Ha Hh Hw Hf Hnil] Ht. simpl in *.
  pose proof (cnt_delete is_running t _ ts Ht) as Hr. pose proof (cnt_delete holds t _ ts Ht) as Hd. simpl in *.
  split; simpl; [lia|lia|by apply waiters_delete|done|done].
Qed.

Lemma mstep_MInv w w' : mstep w w' → MInv w → MInv w'.
Proof.
  destruct 1; intros Hi; eauto using MInv_begin, MInv_end, MInv_request, MInv_wake, MInv_closing, MInv_watch, MInv_leave.
  - by eapply MInv_release.
  - by eapply MInv_release.
  - apply MInv_idle; [done|done|by rewrite H].
  - destruct (not_idle m g) eqn:E; [|by eapply MInv_leave]. apply MInv_idle; [done|done|by rewrite H].
Qed.

Lemma mruns_preserves w w' : mruns w w' → MInv w → MInv w'.
Proof. induction 1 as [|x y z Hs _ IH]; [done|]. intros Hi. by apply IH, (mstep_MInv x y). Qed.

Lemma mruns_MInv w : mruns (new_gate, ∅) w → MInv w.
Proof. intros Hr. apply (mruns_preserves _ _ Hr), MInv_init. Qed.

(** ** The theorems *)

(** Exclusion: while one goroutine holds maintenance no operation is running and nobody else holds or waits for
    maintenance, however the goroutines interleave, are cancelled, or close the tenant. *)
Theorem maintenance_exclusive g ts t t' th :
  mruns (new_gate, ∅) (g, ts) → ts !! t = Some Exclusive → ts !! t' = Some th → t' ≠ t → ∃ m chan, th = Idling m chan.
Proof.
  intros Hi%mruns_MInv Ht Ht' Hn. pose proof (MInv_exclusive g ts Hi t Ht) as Ha0. destruct Hi as [Ha Hh _ _ _]. simpl in *.
  destruct (holds th) eqn:E.
  - pose proof (cnt_two holds t t' _ _ ts Ht Ht' eq_refl E ltac:(done)). destruct (g_maintenance g); lia.
  - destruct th as [| | |m chan]; try done; [|by eauto].
    pose proof (cnt_pos is_running t' _ ts Ht' eq_refl). lia.
Qed.

(** One operation ends, or the goroutine [t] wakes. *)
Inductive drain_step (t : nat) : MWorld → MWorld → Prop :=
| d_end t' g ts : ts !! t' = Some Running → drain_step t (g, ts) (endOperation g, delete t' ts)
| d_wake chan g ts :
    ts !! t = Some (Draining chan) → closed_chan g chan = true → drain_step t (g, ts) (g, <[t := drained g]> ts).

Lemma drain_mstep t w w' : drain_step t w w' → mstep w w'.
Proof. destruct 1; eauto using mstep. Qed.

Lemma drain_goes_through n g ts t chan :
  cnt is_running ts = n → MInv (g, ts) → ts !! t = Some (Draining chan) →
  ∃ g' ts', rtc (drain_step t) (g, ts) (g', ts') ∧ ts' !! t = Some Exclusive.
Proof.
  revert g ts. induction n as [|n IH]; intros g ts Hn Hi Ht.
  - pose proof Hi as [Ha _ Hw _ _]. simpl in *. exists g, (<[t := drained g]> ts). split.
    + apply rtc_once. eapply d_wake; [exact Ht|]. unfold closed_chan. apply negb_true_iff, bool_decide_eq_false. intros E.
      destruct (Hw t _ Ht) as (c & Hc & _ & Hx). specialize (Hx E). lia.
    + rewrite lookup_insert_eq. unfold drained, drain_wait. rewrite (proj2 (Z.ltb_ge _ _)) by lia. done.
  - destruct (cnt_exists is_running ts) as (t' & th & Ht' & Hp); [lia|]. destruct th; try done.
    assert (t ≠ t') as Hne by congruence.
    destruct (IH (endOperation g) (delete t' ts)) as (g' & ts' & Hr & He).
    + pose proof (cnt_delete is_running t' _ ts Ht') as Hd. simpl in Hd. lia.
    + by apply MInv_end.
    + by rewrite lookup_delete_ne.
    + exists g', ts'. split; [|done]. eapply rtc_l; [by apply d_end|done].
Qed.

(** A goroutine that waits for maintenance never misses the signal it waits for: once the operations that were
    running end, and nothing else happens, it holds maintenance. *)
Theorem maintenance_drains g ts t chan :
  mruns (new_gate, ∅) (g, ts) → ts !! t = Some (Draining chan) →
  ∃ g' ts', rtc (drain_step t) (g, ts) (g', ts') ∧ mruns (g, ts) (g', ts') ∧ ts' !! t = Some Exclusive.
Proof.
  intros Hi%mruns_MInv Ht. destruct (drain_goes_through _ g ts t chan eq_refl Hi Ht) as (g' & ts' & Hr & He).
  exists g', ts'. split; [done|]. split; [|done]. eapply rtc_congruence with (f := id); [|exact Hr]. apply drain_mstep.
Qed.

Lemma waiter_idle_progress g ts t m chan :
  MInv (g, ts) → ts !! t = Some (Idling m chan) → not_idle m g = false → mstep (g, ts) (g, delete t ts).
Proof.
  intros Hi Ht Hn. pose proof (m_idle_wake t m chan g ts Ht) as Hs. rewrite Hn in Hs. apply Hs.
  unfold closed_chan. apply negb_true_iff, bool_decide_eq_false. intros E.
  destruct (mi_waiters _ Hi t _ Ht) as (c & _ & _ & Hx). simpl in Hx. rewrite Hx in Hn; done.
Qed.

(** A closing gate stays closed, and its goroutines that run or hold maintenance came from such goroutines. *)
Definition no_newcomer ts ts' (t : nat) : Prop :=
  (ts' !! t = Some Running → ts !! t = Some Running) ∧
  (∀ th, ts' !! t = Some th → holds th = true → ∃ th0, ts !! t = Some th0 ∧ holds th0 = true).

Lemma newcomer_none ts t : no_newcomer ts ts t.
Proof. split; eauto. Qed.

Lemma newcomer_delete ts t t' : no_newcomer ts (delete t' ts) t.
Proof. split; [by intros [_ ?]%lookup_delete_Some|intros th [_ ?]%lookup_delete_Some ?; eauto]. Qed.

Lemma newcomer_idle ts t t' m chan : no_newcomer ts (<[t' := Idling m chan]> ts) t.
Proof. split; [|intros th]; rewrite lookup_insert; case_decide; intros; simplify_eq; eauto. Qed.

Lemma newcomer_drained ts g t t' chan : ts !! t' = Some (Draining chan) → no_newcomer ts (<[t' := drained g]> ts) t.
Proof.
  intros Ht. destruct (holds_drained g) as (_ & E). split; [|intros th]; rewrite lookup_insert; case_decide; intros; simplify_eq; eauto.
  rewrite H0 in E. done.
Qed.

Lemma watch_closing g : g_closing (watch g) = g_closing g.
Proof. unfold watch. by destruct (g_changed g). Qed.

Lemma mstep_closing w w' t : mstep w w' → g_closing w.1 = true → g_closing w'.1 = true ∧ no_newcomer w.2 w'.2 t.
Proof.
  intros Hs Hc. destruct Hs as [? ? ? ? ? Hb| | ? ? ? ? ? Hb| | | | | | |? m ? ?|]; simpl in *; try (rewrite Hc in Hb); try done;
    try (destruct (not_idle m g)); simpl; rewrite ?watch_closing;
    try (split; [done|]; eauto using newcomer_none, newcomer_delete, newcomer_idle, newcomer_drained).
  unfold endOperation. destruct (0 <? g_active g); split; eauto using newcomer_delete.
Qed.

(** After the tenant is marked closing no operation and no maintenance is ever admitted again: the goroutines that
    run or hold maintenance later were there before. *)
Theorem closing_admits_nobody g ts g' ts' t :
  g_closing g = true → mruns (g, ts) (g', ts') →
  g_closing g' = true ∧ (ts' !! t = Some Running → ts !! t = Some Running) ∧
  (ts' !! t = Some Exclusive → ∃ th, ts !! t = Some th ∧ holds th = true).
Proof.
  intros Hc Hr. assert (∀ w w', mruns w w' → g_closing w.1 = true → g_closing w'.1 = true ∧ no_newcomer w.2 w'.2 t) as Hgen.
  { clear. induction 1 as [w|x y z Hs _ IH]; intros Hc; [eauto using newcomer_none|].
    destruct (mstep_closing x y t Hs Hc) as (Hc' & H1 & H2). destruct (IH Hc') as (Hz & H3 & H4). split; [done|]. split; [auto|].
    intros th Ht Hh. destruct (H4 th Ht Hh) as (th1 & ? & ?). eauto. }
  destruct (Hgen _ _ Hr Hc) as (? & ? & Hx). split_and!; [done|done|]. intros He. by apply (Hx Exclusive).
Qed.

(** ** Concrete runs *)

Definition one_draining : gmap nat thread := <[1%nat := Draining (Some 0%nat)]> (<[0%nat := Running]> ∅).

Lemma one_draining_reached : mruns (new_gate, ∅) (mkMGate 1 true false (Some 0%nat) 1, one_draining).
Proof.
  eapply rtc_l; [by apply (m_begin 0 new_gate ∅)|]. eapply rtc_l; [by eapply (m_request 1)|]. apply rtc_refl.
Qed.

Lemma maintenance_drains_witness :
  one_draining !! 1%nat = Some (Draining (Some 0%nat)) ∧
  ∃ g' ts', rtc (drain_step 1) (mkMGate 1 true false (Some 0%nat) 1, one_draining) (g', ts') ∧
    mruns (mkMGate 1 true false (Some 0%nat) 1, one_draining) (g', ts') ∧ ts' !! 1%nat = Some Exclusive.
Proof. split; [reflexivity|]. by eapply maintenance_drains; [apply one_draining_reached|]. Defined.

Lemma maintenance_exclusive_witness :
  ∃ ts, ts !! 1%nat = Some Exclusive ∧ ts !! 2%nat = Some (Idling NoMarker (Some 1%nat)) ∧
    ∃ m chan, Idling NoMarker (Some 1%nat) = Idling m chan.
Proof.
  set (ts1 := delete 0%nat one_draining). set (ts2 := <[1%nat := Exclusive]> ts1).
  exists (<[2%nat := Idling NoMarker (Some 1%nat)]> ts2). split; [reflexivity|]. split; [reflexivity|].
  eapply (maintenance_exclusive (mkMGate 0 true false (Some 1%nat) 2) (<[2%nat := Idling NoMarker (Some 1%nat)]> ts2) 1 2);
    [|reflexivity|reflexivity|done].
  unfold mruns; etrans; [apply one_draining_reached|].
  eapply rtc_l; [by apply (m_end 0)|]. eapply rtc_l; [by apply (m_wake 1 (Some 0%nat) (mkMGate 0 true false (Some 1%nat) 2))|].
  eapply rtc_l; [by apply (m_idle 2 NoMarker)|]. apply rtc_refl.
Defined.

Lemma closing_admits_nobody_witness :
  ∃ g', g_closing g' = true ∧
    ((delete 0%nat one_draining) !! 0%nat = Some Running → one_draining !! 0%nat = Some Running) ∧
    ((delete 0%nat one_draining) !! 0%nat = Some Exclusive → ∃ th, one_draining !! 0%nat = Some th ∧ holds th = true).
Proof.
  exists (mkMGate 0 true true (Some 2%nat) 3).
  apply (closing_admits_nobody (mkMGate 1 true true (Some 1%nat) 2)); [reflexivity|].
  eapply rtc_l; [by apply (m_end 0)|]. apply rtc_refl.
Defined.
