(* ===== verification/Wiki.v ===== *)
(** * internal/wiki: article names, links and rendering

    wiki.go: [Normalize], the block and inline parsers of the Djot subset,
    [Links] and the HTML renderer.  Loops over the lines and over the text are
    bounded by fuel; WikiProps shows the fuel is enough.  The Unicode classes
    outside ASCII are [GoLetters].  [range] over the definitions visits them in
    the order [ord] gives. *)

From S2P Require Import Prelude GoLib GoCodec GoLemmas GoStrings.

(** unicode.IsLetter, IsDigit and IsMark outside ASCII *)
Class GoLetters := { uni_letter : Z → bool; uni_digit : Z → bool; uni_mark : Z → bool }.

Definition nl : string := str1 10.
Definition is_hash (b : Z) : bool := b =? 35.

(** ** Blocks *)

Record block := mkBlock {
  b_kind : string; b_level : nat; b_lang : string; b_text : string; b_items : list string; b_rows : list (list string) }.

Definition tableRow (line : string) : bool :=
  (2 <=? String.length line)%nat && HasPrefix line "|" && HasSuffix line "|".

Fixpoint cells_go (current inner : string) : list string :=
  match inner with
  | EmptyString => [TrimSpace current]
  | String a r =>
    match byte_of a =? 92, r with
    | true, String b r' =>
      if byte_of b =? 124 then cells_go (current +:+ "|") r' else cells_go (current +:+ String a "") r
    | _, _ => if byte_of a =? 124 then TrimSpace current :: cells_go "" r else cells_go (current +:+ String a "") r
    end
  end.
Definition tableCells (line : string) : list string := cells_go "" (TrimSuffix (TrimPrefix line "|") "|").

Definition separatorRow (line : string) : bool :=
  let dashes c := String.eqb (Trim (Z.eqb 45) c) "" in
  match tableCells line with
  | [] => false
  | cells => forallb (λ cell, (dashes cell && Contains cell "-")
      || (dashes (TrimSuffix (TrimPrefix cell ":") ":") && Contains cell "-")) cells
  end.

Definition headingLevel (line : string) : nat :=
  let level := (String.length line - String.length (TrimLeft is_hash line))%nat in
  if (level =? 0)%nat || (6 <? level)%nat || (String.length line <=? level)%nat || negb (byte_at line level =? 32)
  then 0%nat else level.

Definition definitionLine (line : string) : string * string * bool :=
  match Index line "]:" with
  | None => ("", "", false)
  | Some end_ =>
    if negb (HasPrefix line "[") || (end_ <? 1)%nat then ("", "", false)
    else let target := TrimSpace (drop_str (end_ + 2) line) in
         (TrimSpace (take_str (end_ - 1) (drop_str 1 line)), target,
          negb (String.eqb target "") && negb (ContainsAny (λ b, (b =? 32) || (b =? 9)) target))
  end.

Definition listMarker (line : string) : string * string :=
  let n := String.length line in
  let digits := (n - String.length (TrimLeft is_digit line))%nat in
  if (1 <? n)%nat && containsInt [45; 42; 43] (byte_at line 0) && (byte_at line 1 =? 32)
  then ("ul", TrimSpace (drop_str 2 line))
  else if (0 <? digits)%nat && (digits + 1 <? n)%nat
          && ((byte_at line digits =? 46) || (byte_at line digits =? 41)) && (byte_at line (digits + 1) =? 32)
  then ("ol", TrimSpace (drop_str (digits + 2) line))
  else ("", "").

Definition flush_para (para : list string) : list block :=
  match para with [] => [] | _ => [mkBlock "p" 0 "" (Join para nl) [] []] end.

(** The lines of a fenced block, and those after its closing fence. *)
Fixpoint fence_body (run : nat) (mark : Z) (lines : list string) : list string * list string :=
  match lines with
  | [] => ([], [])
  | line :: rest =>
    let t := TrimSpace line in
    if (run <=? String.length t)%nat && String.eqb (Trim (Z.eqb mark) t) "" then ([], rest)
    else let '(body, rest') := fence_body run mark rest in (line :: body, rest')
  end.

Fixpoint table_rows (rows : list (list string)) (header : nat) (lines : list string) : list (list string) * nat * list string :=
  match lines with
  | [] => (rows, header, [])
  | line :: rest =>
    let current := TrimSpace line in
    if negb (tableRow current) then (rows, header, lines)
    else if separatorRow current then table_rows rows (if (header =? 0)%nat then List.length rows else header) rest
    else table_rows (rows ++ [tableCells current]) header rest
  end.

Fixpoint list_items (kind : string) (lines : list string) : list string * list string :=
  match lines with
  | [] => ([], [])
  | line :: rest =>
    let '(itemKind, item) := listMarker (TrimSpace line) in
    if negb (String.eqb itemKind kind) then ([], lines)
    else let '(items, rest') := list_items kind rest in (item :: items, rest')
  end.

Section Wiki.
Context `{GoUnicode} `{GoLetters} `{GoURL}.

Fixpoint blocks_go (fuel : nat) (para lines : list string) : list block :=
  match fuel, lines with
  | S n, line :: rest =>
    let trimmed := TrimSpace line in
    let fence := take_str 3 trimmed in
    let level := headingLevel trimmed in
    let '(label, target, ok) := definitionLine trimmed in
    let '(kind, _) := listMarker trimmed in
    if String.eqb trimmed "" then flush_para para ++ blocks_go n [] rest
    else if String.eqb fence "```" || String.eqb fence "~~~" then
      let mark := byte_at fence 0 in
      let run := (String.length trimmed - String.length (TrimLeft (Z.eqb mark) trimmed))%nat in
      let lang := ToLower (default "" (head (Fields (drop_str run trimmed) ++ [""]))) in
      let '(body, rest') := fence_body run mark rest in
      flush_para para ++ mkBlock "pre" 0 lang (Join body nl +:+ nl) [] [] :: blocks_go n [] rest'
    else if (0 <? level)%nat then
      flush_para para ++ mkBlock "heading" level "" (TrimSpace (drop_str level trimmed)) [] [] :: blocks_go n [] rest
    else if ok && (List.length para =? 0)%nat then mkBlock "def" 0 label target [] [] :: blocks_go n para rest
    else if tableRow trimmed then
      let '(rows, header, rest') := table_rows [] 0 lines in
      flush_para para ++ (if (0 <? List.length rows)%nat then [mkBlock "table" header "" "" [] rows] else []) ++ blocks_go n [] rest'
    else if negb (String.eqb kind "") && (List.length para =? 0)%nat then
      let '(items, rest') := list_items kind lines in mkBlock kind 0 "" "" items [] :: blocks_go n para rest'
    else blocks_go n (para ++ [trimmed]) rest
  | _, _ => flush_para para
  end.

Definition blocks (content : string) : list block :=
  let lines := Split (ReplaceAll content (str1 13 +:+ nl) nl) (char 10) in blocks_go (List.length lines) [] lines.

(** Reference definitions by lowercase label. *)
Definition definitions (content : string) : gmap string string :=
  foldl (λ refs b, if String.eqb (b_kind b) "def" then <[ToLower (b_lang b) := b_text b]> refs else refs) ∅ (blocks content).

(** ** Inline spans *)

Record span := mkSpan { sp_kind : string; sp_text : string; sp_target : string }.

(** [emphasisEnd(text, i)] with [s] the text from [i] on; the index is
    relative to [s].  [prev] is the byte before [s']. *)
Fixpoint closer (marker prev : Z) (i : nat) (s' : string) : nat :=
  match s' with
  | EmptyString => 0
  | String a r =>
    if (byte_of a =? marker) && negb (prev =? 32) && negb (prev =? 10) then i else closer marker (byte_of a) (S i) r
  end.
Definition emphasisEnd (s : string) : nat :=
  if (String.length s <=? 1)%nat || (byte_at s 1 =? 32) || (byte_at s 1 =? 10) then 0
  else closer (byte_at s 0) (byte_at s 1) 2 (drop_str 2 s).

(** The bracket that closes the first one: -1 as [None]. *)
Fixpoint closing_bracket (depth : Z) (i : nat) (s : string) : option nat :=
  match s with
  | EmptyString => None
  | String a r =>
    if byte_of a =? 91 then closing_bracket (depth + 1) (S i) r
    else if byte_of a =? 93 then if depth - 1 =? 0 then Some i else closing_bracket (depth - 1) (S i) r
    else closing_bracket depth (S i) r
  end.

Definition linkAt (s : string) : option (span * nat) :=
  match closing_bracket 0 0 s with
  | None | Some O => None
  | Some end_ =>
    let label := take_str (end_ - 1) (drop_str 1 s) in
    let rest := drop_str (end_ + 1) s in
    match (if HasPrefix rest "(" then Index rest ")" else None),
          (if HasPrefix rest "[" then Index rest "]" else None) with
    | Some (S c), _ => Some (mkSpan "link" label (TrimSpace (take_str c (drop_str 1 rest))), (end_ + 2 + S c)%nat)
    | _, Some (S c) =>
      let target := TrimSpace (take_str c (drop_str 1 rest)) in
      Some (mkSpan "reference" label (if String.eqb target "" then label else target), (end_ + 2 + S c)%nat)
    | _, _ => None
    end
  end.

(** The element at the start of [s] and the bytes it takes. *)
Definition element (s : string) : option (span * nat) :=
  let c := byte_at s 0 in
  if c =? 96 then
    let run := TrimLeft (Z.eqb 96) s in
    let n := (String.length s - String.length run)%nat in
    match Index run (take_str n s) with
    | Some end_ => Some (mkSpan "code" (TrimSpace (take_str end_ run)) "", (2 * n + end_)%nat)
    | None => None
    end
  else if (c =? 42) || (c =? 95) then
    let end_ := emphasisEnd s in
    if (0 <? end_)%nat
    then Some (mkSpan (if c =? 42 then "strong" else "em") (take_str (end_ - 1) (drop_str 1 s)) "", (end_ + 1)%nat)
    else None
  else if (c =? 91) && HasPrefix s "[[" then
    match Index s "]]" with
    | Some end_ =>
      if (2 <? end_)%nat then
        let '(target, label) := Cut (take_str (end_ - 2) (drop_str 2 s)) "|" in
        Some (mkSpan "wikilink" (TrimSpace label) (TrimSpace target), (end_ + 2)%nat)
      else None
    | None => None
    end
  else if c =? 91 then linkAt s
  else None.

Definition flush_text (literal : string) : list span :=
  if String.eqb literal "" then [] else [mkSpan "text" literal ""].

Fixpoint spans_go (fuel : nat) (literal s : string) : list span :=
  match fuel, s with
  | S n, String a r =>
    match byte_of a =? 92, r with
    | true, String b r' => spans_go n (literal +:+ String b "") r'
    | _, _ =>
      match element s with
      | Some (sp, k) => flush_text literal ++ sp :: spans_go n "" (drop_str k s)
      | None => spans_go n (literal +:+ String a "") r
      end
    end
  | _, _ => flush_text literal
  end.
Definition inlineSpans (text : string) : list span := spans_go (String.length text) "" text.

(** ** Names and links *)

Definition IsLetter (r : Z) : bool := if r <? 128 then in_range 65 r 90 || in_range 97 r 122 else uni_letter r.
Definition IsDigit (r : Z) : bool := if r <? 128 then is_digit r else uni_digit r.
Definition IsMark (r : Z) : bool := if r <? 128 then false else uni_mark r.

Fixpoint normalize_go (out : list Z) (l : list rune) : list Z :=
  match l with
  | [] => out
  | r :: l' =>
    let c := rune_code r in
    normalize_go
      (if is_space c || (c =? 45) || (c =? 95)
       then match last out with Some d => if d =? 45 then out else out ++ [45] | None => out end
       else if IsLetter c || IsDigit c || IsMark c then out ++ [c] else out) l'
  end.
Definition Normalize (title : string) : string :=
  Trim (Z.eqb 45) (str_concat (encode_rune <$> normalize_go [] (runes (ToLower title)))).

Definition is_nostr (target : string) : bool := HasPrefix (ToLower target) "nostr:".

(** What [visit] adds for a text, in order. *)
Fixpoint visit_go (fuel : nat) (refs : gmap string string) (text : string) : list string :=
  match fuel with
  | O => []
  | S n =>
    List.concat ((λ s,
      if contains ["em"; "strong"] (sp_kind s) then visit_go n refs (sp_text s)
      else if String.eqb (sp_kind s) "wikilink" then [Normalize (sp_target s)]
      else if String.eqb (sp_kind s) "link" then if is_nostr (sp_target s) then [sp_target s] else []
      else if String.eqb (sp_kind s) "reference" then
        match refs !! ToLower (sp_target s) with
        | Some def => if is_nostr def then [def] else []
        | None => [Normalize (sp_target s)]
        end
      else []) <$> inlineSpans text)
  end.
Definition visit (refs : gmap string string) (text : string) : list string := visit_go (S (String.length text)) refs text.

Definition visit_block (refs : gmap string string) (b : block) : list string :=
  if contains ["pre"; "def"] (b_kind b) then []
  else if contains ["ul"; "ol"] (b_kind b) then List.concat (visit refs <$> b_items b)
  else visit refs (b_text b).

Definition add_link (links : list string) (target : string) : list string :=
  if String.eqb target "" || contains links target then links else links ++ [target].

Variable ord : list (string * string) → list (string * string).

Definition Links (content : string) : list string :=
  let refs := definitions content in
  foldl add_link [] (List.filter is_nostr (snd <$> ord (map_to_list refs))
                     ++ List.concat (visit_block refs <$> blocks content)).

(** ** Rendering *)

Definition safeHref (target : string) : string :=
  let target := TrimSpace target in
  let lower := ToLower target in
  if HasPrefix lower "nostr:" then "/open?target=" +:+ QueryEscape target
  else if HasPrefix lower "mailto:" then target
  else if HasPrefix lower "http://" || HasPrefix lower "https://" then
    match url_parse target with Some u => if negb (String.eqb (u_host u) "") then target else "" | None => "" end
  else if HasPrefix target "/" && negb (HasPrefix target "//") && negb (HasPrefix target "/\") then target
  else "".

Definition anchor (href inner : string) : string :=
  if String.eqb href "" then inner
  else "<a href=" +:+ str1 34 +:+ HTMLEscapeString href +:+ str1 34 +:+ ">" +:+ inner +:+ "</a>".

Definition element_html (tag inner : string) : string := "<" +:+ tag +:+ ">" +:+ inner +:+ "</" +:+ tag +:+ ">".
Definition wiki_href (target : string) : string := "/wiki/" +:+ PathEscape (Normalize target).

(** One span, given how to render the text inside it. *)
Definition render_span (inline : string → string) (refs : gmap string string) (s : span) : string :=
  if String.eqb (sp_kind s) "text" then HTMLEscapeString (sp_text s)
  else if String.eqb (sp_kind s) "code" then element_html "code" (HTMLEscapeString (sp_text s))
  else if contains ["em"; "strong"] (sp_kind s) then element_html (sp_kind s) (inline (sp_text s))
  else if String.eqb (sp_kind s) "wikilink" then
    anchor (wiki_href (sp_target s)) (inline (if String.eqb (sp_text s) "" then sp_target s else sp_text s))
  else if String.eqb (sp_kind s) "link" then anchor (safeHref (sp_target s)) (inline (sp_text s))
  else if String.eqb (sp_kind s) "reference" then
    anchor (match refs !! ToLower (sp_target s) with Some def => safeHref def | None => wiki_href (sp_target s) end)
      (inline (sp_text s))
  else "".

Fixpoint render_go (fuel : nat) (refs : gmap string string) (text : string) : string :=
  match fuel with
  | O => ""
  | S n => str_concat (render_span (render_go n refs) refs <$> inlineSpans text)
  end.
Definition renderInline (text : string) (refs : gmap string string) : string := render_go (S (String.length text)) refs text.

Definition row_html (refs : gmap string string) (cell : string) (row : list string) : string :=
  element_html "tr" (str_concat ((λ text, element_html cell (renderInline text refs)) <$> row)) +:+ nl.

Fixpoint rows_html (refs : gmap string string) (level i : nat) (rows : list (list string)) : string :=
  match rows with
  | [] => ""
  | row :: rest =>
    (if (i =? 0)%nat && (0 <? level)%nat then "<thead>" +:+ nl else "")
    +:+ (if (i =? level)%nat then (if (0 <? level)%nat then "</thead>" +:+ nl else "") +:+ "<tbody>" +:+ nl else "")
    +:+ row_html refs (if (i <? level)%nat then "th" else "td") row +:+ rows_html refs level (S i) rest
  end.

Definition render_block (custom : option (string → string → option string)) (refs : gmap string string) (b : block) : string :=
  if String.eqb (b_kind b) "def" then ""
  else if String.eqb (b_kind b) "pre" then
    match custom ≫= λ f, f (b_lang b) (TrimSuffix (b_text b) nl) with
    | Some html => html
    | None =>
      "<pre><code" +:+ (if String.eqb (b_lang b) "" then ""
                        else " data-lang=" +:+ str1 34 +:+ HTMLEscapeString (b_lang b) +:+ str1 34)
      +:+ ">" +:+ HTMLEscapeString (b_text b) +:+ "</code></pre>" +:+ nl
    end
  else if String.eqb (b_kind b) "heading" then
    element_html ("h" +:+ str1 (48 + Z.of_nat (b_level b))) (renderInline (b_text b) refs) +:+ nl
  else if contains ["ul"; "ol"] (b_kind b) then
    "<" +:+ b_kind b +:+ ">" +:+ nl
    +:+ str_concat ((λ item, element_html "li" (renderInline item refs) +:+ nl) <$> b_items b)
    +:+ "</" +:+ b_kind b +:+ ">" +:+ nl
  else if String.eqb (b_kind b) "table" then
    "<table>" +:+ nl +:+ rows_html refs (b_level b) 0 (b_rows b)
    +:+ (if (List.length (b_rows b) <=? b_level b)%nat then "</thead>" else "</tbody>") +:+ nl +:+ "</table>" +:+ nl
  else element_html "p" (renderInline (b_text b) refs) +:+ nl.

Definition RenderHTMLWith (content : string) (custom : option (string → string → option string)) : string :=
  str_concat (render_block custom (definitions content) <$> blocks content).
Definition RenderHTML (content : string) : string := RenderHTMLWith content None.
End Wiki.
