(* ===== verification/WikiProps.v ===== *)
(** * internal/wiki: the renderer ends and emits inert, well-nested markup

    The spans inside a text are shorter than it, so rendering reaches its
    recursive equation; what it emits is a nesting of the fixed elements whose
    text is inert and whose links are of the allowed forms. *)

From S2P Require Import Prelude GoLib GoCodec GoLemmas GoStrings Wiki.

Section Wiki.
Context `{GoUnicode} `{GoLetters} `{GoURL}.

(** ** Spans are shorter than their text *)

Lemma length_take_drop n k s : (0 < k)%nat → s ≠ "" → (String.length (take_str n (drop_str k s)) < String.length s)%nat.
Proof. intros Hk Hs. rewrite length_take_str, length_drop_str. destruct s; cbn; [done|lia]. Qed.

Lemma length_trim_lt s n : (String.length s < n)%nat → (String.length (TrimSpace s) < n)%nat.
Proof. pose proof (length_TrimSpace s). lia. Qed.

Lemma length_Cut s sep : (String.length (Cut s sep).1 <= String.length s)%nat ∧ (String.length (Cut s sep).2 <= String.length s)%nat.
Proof. unfold Cut. destruct (Index s sep); cbn; rewrite ?length_take_str, ?length_drop_str; lia. Qed.

Lemma linkAt_bound s sp k :
  linkAt s = Some (sp, k) → (0 < k)%nat ∧ (String.length (sp_text sp) < String.length s)%nat ∧
  (String.length (sp_target sp) < String.length s)%nat.
Proof.
  unfold linkAt. destruct (closing_bracket 0 0 s) as [[|e]|]; [done| |done].
  set (rest := drop_str (S e + 1) s).
  destruct (decide (s = "")) as [->|Hs]; [done|]. pose proof (length_take_drop (S e - 1) 1 s ltac:(lia) Hs) as Hl.
  assert (∀ c, (String.length (TrimSpace (take_str c (drop_str 1 rest))) < String.length s)%nat) as Hr.
  { intros c. apply length_trim_lt. unfold rest. rewrite length_take_str, !length_drop_str. destruct s; cbn; [done|lia]. }
  destruct (if HasPrefix rest "(" then Index rest ")" else None) as [[|c]|]; cbn [sp_text sp_target];
    try (destruct (if HasPrefix rest "[" then Index rest "]" else None) as [[|c']|]); intros [= <- <-];
    (split; [lia|]); (split; [exact Hl|]); try apply Hr; cbn [sp_target]; case_match; (exact Hl || apply Hr).
Qed.

Lemma element_bound s sp k :
  element s = Some (sp, k) → (0 < k)%nat ∧ (String.length (sp_text sp) < String.length s)%nat ∧
  (String.length (sp_target sp) < String.length s)%nat.
Proof.
  unfold element. destruct (decide (s = "")) as [->|Hs]; [done|].
  assert (0 < String.length s)%nat as Hpos by (destruct s; cbn; [done|lia]).
  destruct (byte_at s 0 =? 96) eqn:Eq.
  { set (run := TrimLeft (Z.eqb 96) s). assert (String.length run < String.length s)%nat as Hr.
    { unfold run. destruct s as [|a s]; [done|]. cbn [TrimLeft]. unfold byte_at in Eq. cbn in Eq.
      rewrite Z.eqb_sym, Eq. pose proof (length_TrimLeft (Z.eqb 96) s). cbn. lia. }
    destruct (Index _ _) as [e|]; [|done]. intros [= <- <-]. cbn. split; [lia|]. split; [|lia].
    apply length_trim_lt. rewrite length_take_str. lia. }
  destruct (_ || _).
  { destruct (0 <? emphasisEnd s)%nat eqn:E; [|done]. apply Nat.ltb_lt in E. intros [= <- <-]. cbn. split; [lia|].
    split; [|lia]. apply length_take_drop; [lia|done]. }
  destruct (_ && _).
  { destruct (Index s "]]") as [e|]; [|done]. destruct (2 <? e)%nat; [|done].
    destruct (Cut _ _) as [target label] eqn:Ec. intros [= <- <-]. cbn. split; [lia|].
    pose proof (length_Cut (take_str (e - 2) (drop_str 2 s)) "|") as (H1' & H2'). rewrite Ec in H1', H2'. cbn in H1', H2'.
    pose proof (length_take_drop (e - 2) 2 s ltac:(lia) Hs). split; apply length_trim_lt; lia. }
  destruct (_ =? 91); [|done]. apply linkAt_bound.
Qed.

Lemma spans_short n : ∀ literal s sp,
  sp ∈ spans_go n literal s → sp_kind sp = "text" ∨
  (String.length (sp_text sp) < String.length s)%nat ∧ (String.length (sp_target sp) < String.length s)%nat.
Proof.
  assert (∀ literal sp, sp ∈ flush_text literal → sp_kind sp = "text") as Hf.
  { intros literal sp. unfold flush_text. destruct (String.eqb _ _); [by intros ?%elem_of_nil|]. by intros ->%list_elem_of_singleton. }
  induction n as [|n IH]; intros literal s sp; cbn [spans_go]; [left; eauto|]. destruct s as [|a r]; [left; eauto|].
  assert (Hel : sp ∈ match element (String a r) with
      | Some (sp0, k) => flush_text literal ++ sp0 :: spans_go n "" (drop_str k (String a r))
      | None => spans_go n (literal +:+ String a "") r end →
    sp_kind sp = "text" ∨ (String.length (sp_text sp) < S (String.length r))%nat ∧ (String.length (sp_target sp) < S (String.length r))%nat).
  { destruct (element (String a r)) as [[sp0 k]|] eqn:E.
    - apply element_bound in E as (Hk & H1' & H2'). cbn in H1', H2'.
      intros [?|[->|Hi]%elem_of_cons]%elem_of_app; [left; eauto|by right|].
      apply IH in Hi as [?|Hi]; [by left|right]. rewrite length_drop_str in Hi. cbn in Hi. lia.
    - intros Hi. apply IH in Hi as [?|Hi]; [by left|right; lia]. }
  destruct (byte_of a =? 92); [|exact Hel]. destruct r as [|b r']; [exact Hel|].
  intros Hi. apply IH in Hi as [?|Hi]; [by left|right; cbn; lia].
Qed.

Lemma inlineSpans_short text sp :
  sp ∈ inlineSpans text → sp_kind sp = "text" ∨
  (String.length (sp_text sp) < String.length text)%nat ∧ (String.length (sp_target sp) < String.length text)%nat.
Proof. apply spans_short. Qed.

(** Reading a text to its end: any fuel beyond its length gives the same spans. *)
Lemma spans_fuel n : ∀ m literal s,
  (String.length s <= n)%nat → (String.length s <= m)%nat → spans_go n literal s = spans_go m literal s.
Proof.
  induction n as [|n IH]; intros [|m] literal s Hn Hm; destruct s as [|a r]; cbn in Hn, Hm; try (done || lia).
  cbn [spans_go].
  assert (Hel : match element (String a r) with
      | Some (sp0, k) => flush_text literal ++ sp0 :: spans_go n "" (drop_str k (String a r))
      | None => spans_go n (literal +:+ String a "") r end = match element (String a r) with
      | Some (sp0, k) => flush_text literal ++ sp0 :: spans_go m "" (drop_str k (String a r))
      | None => spans_go m (literal +:+ String a "") r end).
  { destruct (element (String a r)) as [[sp0 k]|] eqn:E; [|apply IH; lia].
    apply element_bound in E as (Hk & _). f_equal. f_equal. apply IH; rewrite length_drop_str; cbn; lia. }
  destruct (byte_of a =? 92); [|exact Hel]. destruct r as [|b r']; [exact Hel|]. cbn in Hn, Hm. apply IH; lia.
Qed.

(** ** The renderer reaches its recursive equation *)

Lemma str_eqb_false s t : s ≠ t → String.eqb s t = false.
Proof. apply String.eqb_neq. Qed.

Lemma render_span_ext f g refs s text :
  s ∈ inlineSpans text → (∀ t, (String.length t < String.length text)%nat → f t = g t) →
  render_span f refs s = render_span g refs s.
Proof.
  intros Hs Hfg. unfold render_span. destruct (inlineSpans_short text s Hs) as [->|(Ht & Hg)]; [done|].
  repeat (case_match; [try (f_equal; apply Hfg; first [done|case_match; done]); try done|]); done.
Qed.

Lemma render_fuel n : ∀ m refs text, (String.length text < n)%nat → (String.length text < m)%nat →
  render_go n refs text = render_go m refs text.
Proof.
  induction n as [|n IH]; intros [|m] refs text Hn Hm; try lia. cbn [render_go]. f_equal.
  apply list_fmap_ext. intros i s Hs%list_elem_of_lookup_2. eapply render_span_ext; [exact Hs|].
  intros t Ht. apply IH; lia.
Qed.

Lemma visit_fuel n : ∀ m refs text, (String.length text < n)%nat → (String.length text < m)%nat →
  visit_go n refs text = visit_go m refs text.
Proof.
  induction n as [|n IH]; intros [|m] refs text Hn Hm; try lia. cbn [visit_go]. f_equal.
  apply list_fmap_ext. intros i s Hs%list_elem_of_lookup_2.
  destruct (inlineSpans_short text s Hs) as [->|(Ht & _)]; [done|].
  destruct (contains ["em"; "strong"] (sp_kind s)); [|done]. apply IH; lia.
Qed.

(** ** Reading the lines to their end *)

Lemma fence_body_length run mark lines : (List.length (fence_body run mark lines).2 <= List.length lines)%nat.
Proof.
  induction lines as [|l r IH]; cbn [fence_body]; [done|]. destruct (_ && _); cbn; [lia|].
  destruct (fence_body run mark r). cbn in *. lia.
Qed.

Lemma table_rows_length lines : ∀ rows header, (List.length (table_rows rows header lines).2 <= List.length lines)%nat.
Proof.
  induction lines as [|l r IH]; intros rows header; cbn [table_rows]; [done|].
  destruct (negb _); cbn; [lia|]. destruct (separatorRow _); (etrans; [apply IH|lia]).
Qed.

Lemma list_items_length kind lines : (List.length (list_items kind lines).2 <= List.length lines)%nat.
Proof.
  induction lines as [|l r IH]; cbn [list_items]; [done|]. destruct (listMarker _) as [k i].
  destruct (negb _); cbn; [lia|]. destruct (list_items kind r). cbn in *. lia.
Qed.

(** The loops that look ahead take at least the line they start with. *)
Lemma table_rows_progress line rest :
  tableRow (TrimSpace line) = true → (List.length (table_rows [] 0 (line :: rest)).2 <= List.length rest)%nat.
Proof.
  intros Ht. cbn [table_rows]. rewrite Ht. cbn [negb]. destruct (separatorRow _); apply table_rows_length.
Qed.

Lemma list_items_progress line rest kind item :
  listMarker (TrimSpace line) = (kind, item) → (List.length (list_items kind (line :: rest)).2 <= List.length rest)%nat.
Proof.
  intros Hm. cbn [list_items]. rewrite Hm, String.eqb_refl. cbn [negb].
  pose proof (list_items_length kind rest). destruct (list_items kind rest). cbn in *. lia.
Qed.

Lemma blocks_fuel n : ∀ m para lines,
  (List.length lines <= n)%nat → (List.length lines <= m)%nat → blocks_go n para lines = blocks_go m para lines.
Proof.
  induction n as [|n IH]; intros [|m] para lines Hn Hm; destruct lines as [|line rest]; cbn in Hn, Hm; try (done || lia).
  cbn [blocks_go]. destruct (definitionLine _) as [[label target] ok]. destruct (listMarker _) as [kind item] eqn:El.
  destruct (String.eqb _ _); [by rewrite (IH m) by lia|].
  destruct (_ || _).
  { pose proof (fence_body_length (String.length (TrimSpace line) - String.length (TrimLeft (Z.eqb (byte_at (take_str 3 (TrimSpace line)) 0)) (TrimSpace line)))
      (byte_at (take_str 3 (TrimSpace line)) 0) rest) as Hl.
    destruct (fence_body _ _ _). cbn in Hl. by rewrite (IH m) by lia. }
  destruct (0 <? _)%nat; [by rewrite (IH m) by lia|].
  destruct (_ && _); [by rewrite (IH m) by lia|].
  destruct (tableRow _) eqn:Et.
  { pose proof (table_rows_progress line rest Et) as Hl. destruct (table_rows _ _ _) as [[rows header] rest']. cbn in Hl.
    by rewrite (IH m) by lia. }
  destruct (_ && _); [|by rewrite (IH m) by lia].
  pose proof (list_items_progress line rest kind item El) as Hl. destruct (list_items _ _) as [items rest']. cbn in Hl.
  by rewrite (IH m) by lia.
Qed.

(** Rendering, collecting links and splitting into blocks all end: any fuel beyond the length of the input gives the
    result of the model, which therefore satisfies the recursive equations of the source. *)
Theorem wiki_parsers_terminate refs text content n :
  renderInline text refs = str_concat (render_span (λ t, renderInline t refs) refs <$> inlineSpans text) ∧
  ((String.length text < n)%nat → render_go n refs text = renderInline text refs ∧ visit_go n refs text = visit refs text) ∧
  ((String.length text <= n)%nat → spans_go n "" text = inlineSpans text) ∧
  ((List.length (Split (ReplaceAll content (str1 13 +:+ nl) nl) (char 10)) <= n)%nat →
   blocks_go n [] (Split (ReplaceAll content (str1 13 +:+ nl) nl) (char 10)) = blocks content).
Proof.
  split; [|split; [|split]].
  - unfold renderInline at 1. cbn [render_go]. f_equal. apply list_fmap_ext. intros i s Hs%list_elem_of_lookup_2.
    eapply render_span_ext; [exact Hs|]. intros t Ht. apply render_fuel; lia.
  - intros Hn. split; [by apply render_fuel; lia|by apply visit_fuel; lia].
  - intros Hn. by apply spans_fuel.
  - intros Hn. by apply blocks_fuel.
Qed.

(** ** What the renderer emits *)

(** No byte that opens a tag, closes an attribute, or ends the text. *)
Definition inert (s : string) : Prop := Forall (λ b, b ∉ [0; 34; 39; 60; 62]) (bytes_of s).

Lemma html_escape_inert b : 0 ≤ b < 256 → inert (html_escape b).
Proof.
  intros Hb. unfold html_escape, inert.
  repeat (case_match; [vm_compute; repeat constructor; set_solver by lia|]).
  cbn. rewrite byte_of_char by lia. constructor; [|constructor]. repeat (apply not_elem_of_cons; split; [lia|]). by apply not_elem_of_nil.
Qed.

Lemma HTMLEscapeString_inert s : inert (HTMLEscapeString s).
Proof.
  unfold HTMLEscapeString, inert. induction s as [|a s IH]; cbn [flat_str]; [constructor|].
  rewrite bytes_of_app. apply Forall_app. split; [apply html_escape_inert, byte_of_range|done].
Qed.

Definition inline_tags : list string := ["code"; "em"; "strong"; "h1"; "h2"; "h3"; "h4"; "h5"; "h6"; "p"; "ul"; "ol"; "li";
  "table"; "thead"; "tbody"; "tr"; "th"; "td"].

(** The targets the renderer may link to. *)
Definition safe_link (href : string) : Prop :=
  HasPrefix href "/wiki/" = true ∨ HasPrefix href "/open?target=" = true ∨ HasPrefix (ToLower href) "mailto:" = true ∨
  ((HasPrefix (ToLower href) "http://" = true ∨ HasPrefix (ToLower href) "https://" = true) ∧
   ∃ u, url_parse href = Some u ∧ u_host u ≠ "") ∨
  (HasPrefix href "/" = true ∧ HasPrefix href "//" = false ∧ HasPrefix href "/\" = false).

(** Well-nested markup over [inline_tags], anchors, code blocks and whatever a custom block renders to. *)
Inductive frag (custom : string → Prop) : string → Prop :=
| frag_nil : frag custom ""
| frag_app s t : frag custom s → frag custom t → frag custom (s +:+ t)
| frag_text s : inert s → frag custom s
| frag_elem tag s : tag ∈ inline_tags → frag custom s → frag custom (element_html tag s)
| frag_anchor href s :
    safe_link href → frag custom s →
    frag custom ("<a href=" +:+ str1 34 +:+ HTMLEscapeString href +:+ str1 34 +:+ ">" +:+ s +:+ "</a>")
| frag_pre attr s :
    inert s → attr = "" ∨ (∃ lang, inert lang ∧ attr = " data-lang=" +:+ str1 34 +:+ lang +:+ str1 34) →
    frag custom ("<pre><code" +:+ attr +:+ ">" +:+ s +:+ "</code></pre>")
| frag_custom s : custom s → frag custom s.

Definition good_block (b : block) : Prop :=
  (b_kind b = "heading" → (1 <= b_level b <= 6)%nat) ∧ (b_kind b = "table" → b_rows b ≠ []).

Lemma headingLevel_le line : (headingLevel line <= 6)%nat.
Proof.
  unfold headingLevel. destruct (_ || _) eqn:E; [lia|]. rewrite !orb_false_iff, Nat.ltb_ge in E. lia.
Qed.

Lemma heading_tag n : (1 <= n <= 6)%nat → ("h" +:+ str1 (48 + Z.of_nat n)) ∈ inline_tags.
Proof.
  intros Hn. destruct n as [|[|[|[|[|[|[|n]]]]]]]; try lia; apply (bool_decide_unpack _); vm_compute; exact I.
Qed.

Lemma listMarker_kind line : (listMarker line).1 ∈ [""; "ul"; "ol"].
Proof. unfold listMarker. repeat case_match; set_solver. Qed.

Lemma flush_good para : Forall good_block (flush_para para).
Proof. unfold flush_para. destruct para; repeat constructor; done. Qed.

Lemma blocks_good n : ∀ para lines, Forall good_block (blocks_go n para lines).
Proof.
  induction n as [|n IH]; intros para lines; cbn [blocks_go]; [apply flush_good|].
  destruct lines as [|line rest]; [apply flush_good|].
  destruct (definitionLine _) as [[label target] ok]. destruct (listMarker _) as [kind item] eqn:El.
  pose proof (listMarker_kind (TrimSpace line)) as Hk. rewrite El in Hk. cbn in Hk.
  destruct (String.eqb _ _); [apply Forall_app; split; [apply flush_good|apply IH]|].
  destruct (_ || _).
  { destruct (fence_body _ _ _). apply Forall_app. split; [apply flush_good|]. constructor; [done|apply IH]. }
  destruct (Nat.ltb_spec 0 (headingLevel (TrimSpace line))).
  { apply Forall_app. split; [apply flush_good|]. constructor; [|apply IH]. split; [|done]. intros _. cbn.
    pose proof (headingLevel_le (TrimSpace line)). lia. }
  destruct (_ && _); [constructor; [done|apply IH]|].
  destruct (tableRow _).
  { destruct (table_rows _ _ _) as [[rows header] rest']. apply Forall_app. split; [apply flush_good|].
    apply Forall_app. split; [|apply IH]. destruct rows; cbn; repeat constructor; done. }
  destruct (negb _ && _); [|apply IH].
  destruct (list_items _ _). constructor; [|apply IH]. split; cbn; intros ->; set_solver.
Qed.

Section Frag.
Context (custom : string → Prop).
Local Notation fr := (frag custom).

Lemma frag_concat l : Forall fr l → fr (str_concat l).
Proof. induction 1; cbn; [constructor|by apply frag_app]. Qed.

Lemma frag_nl : fr nl.
Proof. apply frag_text. vm_compute. repeat constructor; set_solver by lia. Qed.

Lemma frag_escape s : fr (HTMLEscapeString s).
Proof. apply frag_text, HTMLEscapeString_inert. Qed.

Lemma safeHref_safe target : safeHref target ≠ "" → safe_link (safeHref target).
Proof.
  unfold safeHref, safe_link. destruct (HasPrefix (ToLower (TrimSpace target)) "nostr:"); [intros _; right; left; by destruct (QueryEscape _)|].
  destruct (HasPrefix (ToLower (TrimSpace target)) "mailto:") eqn:Em; [auto|].
  destruct (_ || _) eqn:Eh.
  - destruct (url_parse (TrimSpace target)) as [u|] eqn:Eu; [|done].
    destruct (String.eqb_spec (u_host u) ""); [done|]. intros _. right; right; right; left.
    split; [by apply orb_true_iff|eauto].
  - destruct (_ && _) eqn:Es; [|done]. intros _. right; right; right; right.
    apply andb_true_iff in Es as [[? ?%negb_true_iff]%andb_true_iff ?%negb_true_iff]. done.
Qed.

Lemma frag_anchor_of href s : (href = "" ∨ safe_link href) → fr s → fr (anchor href s).
Proof.
  intros Hs Hf. unfold anchor. destruct (String.eqb_spec href "") as [|Hne]; [done|]. destruct Hs as [|Hs]; [done|]. by apply frag_anchor.
Qed.

Lemma wiki_href_safe target : safe_link (wiki_href target).
Proof. left. unfold wiki_href. by destruct (PathEscape _). Qed.

Lemma safeHref_ok target : safeHref target = "" ∨ safe_link (safeHref target).
Proof. destruct (decide (safeHref target = "")); [by left|right; by apply safeHref_safe]. Qed.

Lemma contains_cases kind l : contains l kind = true → kind ∈ l.
Proof. apply contains_spec. Qed.

Lemma render_span_frag inline refs s : (∀ t, fr (inline t)) → fr (render_span inline refs s).
Proof.
  intros Hi. unfold render_span. destruct (String.eqb _ "text"); [apply frag_escape|].
  destruct (String.eqb _ "code"); [apply frag_elem; [set_solver|apply frag_escape]|].
  destruct (contains _ _) eqn:Ec; [apply frag_elem; [apply contains_cases in Ec; set_solver|done]|].
  destruct (String.eqb _ "wikilink"); [apply frag_anchor_of; [right; apply wiki_href_safe|done]|].
  destruct (String.eqb _ "link"); [apply frag_anchor_of; [apply safeHref_ok|done]|].
  destruct (String.eqb _ "reference"); [|constructor]. apply frag_anchor_of; [|done].
  destruct (refs !! _); [apply safeHref_ok|right; apply wiki_href_safe].
Qed.

Lemma render_go_frag n : ∀ refs text, fr (render_go n refs text).
Proof.
  induction n as [|n IH]; intros refs text; cbn [render_go]; [constructor|].
  apply frag_concat, Forall_fmap, Forall_forall. intros s _. apply render_span_frag. eauto.
Qed.

Lemma renderInline_frag refs text : fr (renderInline text refs).
Proof. apply render_go_frag. Qed.

(** ** Tables and blocks *)

Lemma row_html_frag refs cell row : cell = "th" ∨ cell = "td" → fr (row_html refs cell row).
Proof.
  intros Hc. unfold row_html. apply frag_app; [|apply frag_nl]. apply frag_elem; [set_solver|].
  apply frag_concat, Forall_fmap, Forall_forall. intros t _. apply frag_elem; [destruct Hc as [-> | ->]; set_solver|apply renderInline_frag].
Qed.

Lemma body_rows refs level rows : ∀ i, (level < i)%nat → fr (rows_html refs level i rows).
Proof.
  induction rows as [|row rows IH]; intros i Hi; cbn [rows_html]; [constructor|].
  rewrite (proj2 (Nat.eqb_neq i 0)), (proj2 (Nat.eqb_neq i level)) by lia. cbn [andb String.append].
  apply frag_app; [apply row_html_frag; destruct (i <? level)%nat; auto|apply IH; lia].
Qed.

(** The rows after the first of a table with a header: the header's rows, then the body's if there are any. *)
Lemma head_rows refs level rows : ∀ i, (0 < i <= level)%nat →
  ∃ h b, fr h ∧ fr b ∧ rows_html refs level i rows =
    if (i + List.length rows <=? level)%nat then h else h +:+ "</thead>" +:+ nl +:+ "<tbody>" +:+ nl +:+ b.
Proof.
  induction rows as [|row rows IH]; intros i Hi; cbn [rows_html List.length].
  { exists "", "". rewrite (proj2 (Nat.leb_le _ _)) by lia. repeat split; constructor. }
  rewrite (proj2 (Nat.eqb_neq i 0)) by lia. cbn [andb String.append].
  destruct (Nat.eqb_spec i level) as [->|Hne].
  - exists "", (row_html refs (if (level <? level)%nat then "th" else "td") row +:+ rows_html refs level (S level) rows).
    rewrite (proj2 (Nat.leb_gt _ _)) by lia. rewrite (proj2 (Nat.ltb_lt 0 level)) by lia.
    split; [constructor|]. split; [|by rewrite !str_app_assoc].
    apply frag_app; [apply row_html_frag; destruct (level <? level)%nat; auto|apply body_rows; lia].
  - destruct (IH (S i) ltac:(lia)) as (h & b & Hh & Hb & ->).
    exists (row_html refs (if (i <? level)%nat then "th" else "td") row +:+ h), b.
    split; [apply frag_app; [apply row_html_frag; destruct (i <? level)%nat; auto|done]|]. split; [done|].
    replace (S i + List.length rows)%nat with (i + S (List.length rows))%nat by lia.
    destruct (_ <=? level)%nat; [done|]. by rewrite !str_app_assoc.
Qed.

Lemma frag_nested tag s t : tag ∈ inline_tags → fr s → t = element_html tag s → fr t.
Proof. intros Ht Hs ->. by apply frag_elem. Qed.

Lemma table_frag refs level rows :
  rows ≠ [] → fr ("<table>" +:+ nl +:+ rows_html refs level 0 rows
    +:+ (if (List.length rows <=? level)%nat then "</thead>" else "</tbody>") +:+ nl +:+ "</table>" +:+ nl).
Proof.
  intros Hr. destruct rows as [|row rows]; [done|]. cbn [rows_html].
  assert (∀ inner, fr inner → fr ("<table>" +:+ nl +:+ inner +:+ nl +:+ "</table>" +:+ nl)) as Ht.
  { intros inner Hi. replace ("<table>" +:+ nl +:+ inner +:+ nl +:+ "</table>" +:+ nl)
      with (element_html "table" (nl +:+ inner +:+ nl) +:+ nl) by (unfold element_html; by rewrite !str_app_assoc).
    apply frag_app; [|apply frag_nl]. apply frag_elem; [set_solver|]. auto using frag_app, frag_nl. }
  destruct level as [|level].
  - cbn [Nat.eqb Nat.ltb Nat.leb andb String.append].
    pose proof (Ht (element_html "tbody" (nl +:+ row_html refs "td" row +:+ rows_html refs 0 1 rows))) as Hx.
    unfold element_html in Hx. cbn [List.length]. rewrite !str_app_assoc in *. apply Hx.
    apply (frag_nested "tbody" (nl +:+ row_html refs "td" row +:+ rows_html refs 0 1 rows)); [set_solver| |unfold element_html; by rewrite !str_app_assoc].
    apply frag_app; [apply frag_nl|]. apply frag_app; [by apply row_html_frag; auto|apply body_rows; lia].
  - cbn [Nat.eqb andb]. rewrite (proj2 (Nat.ltb_lt 0 (S level))) by lia.
    destruct (head_rows refs (S level) rows 1 ltac:(lia)) as (h & b & Hh & Hb & ->).
    cbn [List.length]. change (1 + List.length rows)%nat with (S (List.length rows)).
    set (r := row_html refs "th" row). assert (fr r) by (apply row_html_frag; auto).
    destruct (S (List.length rows) <=? S level)%nat.
    + pose proof (Ht (element_html "thead" (nl +:+ r +:+ h))) as Hx. unfold element_html in Hx. cbn [String.append] in *.
      rewrite !str_app_assoc in *. apply Hx.
      apply (frag_nested "thead" (nl +:+ r +:+ h)); [set_solver|auto using frag_app, frag_nl|unfold element_html; by rewrite !str_app_assoc].
    + pose proof (Ht (element_html "thead" (nl +:+ r +:+ h) +:+ nl +:+ element_html "tbody" (nl +:+ b))) as Hx.
      unfold element_html in Hx. rewrite !str_app_assoc in *. apply Hx.
      assert (fr (element_html "thead" (nl +:+ r +:+ h) +:+ nl +:+ element_html "tbody" (nl +:+ b))) as Hf.
      { apply frag_app; [apply frag_elem; [set_solver|auto using frag_app, frag_nl]|].
        apply frag_app; [apply frag_nl|]. apply frag_elem; [set_solver|auto using frag_app, frag_nl]. }
      unfold element_html in Hf. by rewrite !str_app_assoc in Hf.
Qed.

Lemma render_block_frag f refs b :
  good_block b → (∀ g lang source html, f = Some g → g lang source = Some html → custom html) → fr (render_block f refs b).
Proof.
  intros [Hh Ht] Hc. unfold render_block. destruct (String.eqb_spec (b_kind b) "def"); [constructor|].
  destruct (String.eqb _ "pre").
  { destruct (f ≫= _) as [html|] eqn:Ef; [apply bind_Some in Ef as (g & ? & ?); by eapply frag_custom, Hc|].
    pose proof (frag_pre custom (if String.eqb (b_lang b) "" then "" else " data-lang=" +:+ str1 34 +:+ HTMLEscapeString (b_lang b) +:+ str1 34)
      (HTMLEscapeString (b_text b)) (HTMLEscapeString_inert _)) as Hp.
    assert (∀ s t, fr s → s +:+ nl = t → fr t) as Hn by (intros s t Hs <-; apply frag_app; [done|apply frag_nl]).
    eapply Hn; [apply Hp|by rewrite !str_app_assoc]. destruct (String.eqb _ _); [by left|right; eauto using HTMLEscapeString_inert]. }
  destruct (String.eqb_spec (b_kind b) "heading") as [Eh|_].
  { apply frag_app; [|apply frag_nl]. apply frag_elem; [|apply renderInline_frag]. specialize (Hh Eh).
    by apply heading_tag. }
  destruct (contains _ _) eqn:El.
  { apply contains_cases in El. pose proof (frag_elem custom (b_kind b) (nl +:+ str_concat ((λ item, element_html "li" (renderInline item refs) +:+ nl) <$> b_items b))) as He.
    assert (∀ s t, fr s → s +:+ nl = t → fr t) as Hn by (intros s t Hs <-; apply frag_app; [done|apply frag_nl]).
    eapply Hn; [apply He|unfold element_html; by rewrite !str_app_assoc]; [set_solver|].
    apply frag_app; [apply frag_nl|]. apply frag_concat, Forall_fmap, Forall_forall. intros item _.
    apply frag_app; [|apply frag_nl]. apply frag_elem; [set_solver|apply renderInline_frag]. }
  destruct (String.eqb_spec (b_kind b) "table") as [Et|_]; [by apply table_frag, Ht|].
  apply frag_app; [|apply frag_nl]. apply frag_elem; [set_solver|apply renderInline_frag].
Qed.
End Frag.

(** C34: whatever an article contains, the page built from it is a nesting of the fixed elements, with inert text and
    links to the wiki, the opener, http, https, mailto or the site only; the sole exception is what a custom block
    renders to. *)
Theorem RenderHTML_safe content f :
  frag (λ html, ∃ g lang source, f = Some g ∧ g lang source = Some html) (RenderHTMLWith content f).
Proof.
  unfold RenderHTMLWith. apply frag_concat, Forall_fmap.
  apply (Forall_impl good_block); [apply blocks_good|]. intros b Hb. apply render_block_frag; [done|]. intros g lang source html -> ?. eauto.
Qed.
End Wiki.
