(* ===== verification/WikiNames.v ===== *)
(** * internal/wiki: article names and link lists

    [Normalize] yields lowercase words joined by single hyphens and is
    idempotent, so a link and the article it names agree; [Links] lists each
    target once, either a nostr: URI or such a name. *)

From S2P Require Import Prelude GoLib GoCodec GoLemmas GoStrings GoRunes Wiki.
From S2P Require Import WikiProps.

(** What unicode.ToLower does to code points outside ASCII. *)
Class GoLowerLaws `{GoUnicode} := {
  lower_scalar r : scalar r = true → 128 ≤ r → scalar (uni_lower r) = true;
  lower_idem r : scalar r = true → 128 ≤ r → ToLowerRune (uni_lower r) = uni_lower r;
}.

Section Names.
Context `{GoLowerLaws} `{GoLetters}.

(** ** Lowercasing by code points *)

Lemma ToLowerRune_scalar r : scalar r = true → scalar (ToLowerRune r) = true ∧ ToLowerRune (ToLowerRune r) = ToLowerRune r.
Proof.
  intros Hs. unfold ToLowerRune at 1 3 4. destruct (Z.ltb_spec r 128) as [Hl|Hl]; [|by split; [apply lower_scalar|apply lower_idem]].
  pose proof Hs as [Hi%in_range_true _]%andb_true_iff. unfold ascii_lower, ToLowerRune.
  destruct (in_range 65 r 90) eqn:E.
  - apply in_range_true in E. split; [apply scalar_range; lia|].
    rewrite (proj2 (Z.ltb_lt (r + 32) 128)) by lia. unfold ascii_lower. by rewrite in_range_no by lia.
  - split; [done|]. rewrite (proj2 (Z.ltb_lt r 128)) by done. unfold ascii_lower. by rewrite E.
Qed.

Lemma ascii_runes s : is_ascii s = true →
  str_map ascii_lower s = str_concat (encode_rune <$> (ToLowerRune ∘ rune_code <$> runes s)).
Proof.
  induction s as [|a s IH]; cbn; [done|]. unfold is_ascii. cbn. intros [Ha Hs]%andb_true_iff. rewrite Ha. cbn.
  rewrite IH by done. pose proof (byte_of_range a). unfold ToLowerRune. rewrite Ha. apply Z.ltb_lt in Ha.
  assert (0 ≤ ascii_lower (byte_of a) < 128) as Hr by (unfold ascii_lower; destruct (in_range _ _ _) eqn:E; [apply in_range_true in E|]; lia).
  rewrite encode_rune_scalar by (apply scalar_range; lia). by rewrite (proj2 (Z.ltb_lt _ _)) by lia.
Qed.

Lemma ToLower_codes s : ToLower s = str_concat (encode_rune <$> (ToLowerRune ∘ rune_code <$> runes s)).
Proof.
  unfold ToLower. destruct (is_ascii s) eqn:E; [by apply ascii_runes|]. unfold Map. f_equal.
  rewrite <-list_fmap_compose. apply list_fmap_ext. intros i r Hr%list_elem_of_lookup_2.
  pose proof (runes_scalar s) as Hs. rewrite Forall_forall in Hs. specialize (Hs r Hr).
  apply ToLowerRune_scalar in Hs as (Hs & _). apply andb_true_iff in Hs as [Hs%in_range_true _]. cbn.
  by rewrite (proj2 (Z.ltb_ge _ _)) by lia.
Qed.

Lemma ToLower_runes s : rune_code <$> runes (ToLower s) = (ToLowerRune ∘ rune_code <$> runes s).
Proof.
  rewrite ToLower_codes, runes_encode_all.
  - rewrite <-list_fmap_compose. erewrite list_fmap_ext; [apply list_fmap_id|]. done.
  - rewrite forallb_forall. intros c (r & <- & Hr)%in_map_iff. cbn. apply ToLowerRune_scalar.
    pose proof (runes_scalar s) as Hs. rewrite Forall_forall in Hs. by apply Hs, list_elem_of_In.
Qed.

(** ** The runes of a name *)

Definition is_break (c : Z) : bool := is_space c || (c =? 45) || (c =? 95).
Definition in_name (c : Z) : bool := IsLetter c || IsDigit c || IsMark c.

Definition name_step (out : list Z) (c : Z) : list Z :=
  if is_break c then match last out with Some d => if d =? 45 then out else out ++ [45] | None => out end
  else if in_name c then out ++ [c] else out.

Lemma normalize_foldl l : ∀ out, normalize_go out l = foldl name_step out (rune_code <$> l).
Proof. induction l as [|r l IH]; intros out; cbn; [done|]. by rewrite IH. Qed.

Lemma name_step_length out c : (List.length out <= List.length (name_step out c) <= S (List.length out))%nat.
Proof. unfold name_step. repeat case_match; rewrite ?length_app; cbn; lia. Qed.

Lemma name_length l : ∀ out, (List.length (foldl name_step out l) <= List.length out + List.length l)%nat.
Proof.
  induction l as [|c l IH]; intros out; cbn; [lia|]. etrans; [apply IH|]. pose proof (name_step_length out c). lia.
Qed.

(** A list of code points that [name_step] copies as it is. *)
Record tidy (out : list Z) : Prop := mkTidy {
  tidy_fixed : foldl name_step [] out = out;
  tidy_runes : Forall (λ c, scalar c = true ∧ ToLowerRune c = c ∧ (c = 45 ∨ is_break c = false ∧ in_name c = true)) out }.

Lemma tidy_nil : tidy [].
Proof. split; [done|constructor]. Qed.

Lemma tidy_step out c : tidy out → scalar c = true → ToLowerRune c = c → tidy (name_step out c).
Proof.
  intros Ht Hs Hl. unfold name_step. destruct (is_break c) eqn:Eb.
  - destruct (last out) as [d|] eqn:El; [|done]. destruct (d =? 45) eqn:Ed; [done|].
    split.
    + rewrite foldl_app, (tidy_fixed _ Ht). cbn. unfold name_step. change (is_break 45) with true. cbn iota. by rewrite El, Ed.
    + apply Forall_app. split; [apply Ht|]. constructor; [auto|constructor].
  - destruct (in_name c) eqn:En; [|done]. split.
    + rewrite foldl_app, (tidy_fixed _ Ht). cbn. unfold name_step. by rewrite Eb, En.
    + apply Forall_app. split; [apply Ht|]. constructor; [auto|constructor].
Qed.

Lemma tidy_name title : tidy (normalize_go [] (runes (ToLower title))).
Proof.
  rewrite normalize_foldl, ToLower_runes.
  assert (∀ l out, Forall (λ c, scalar c = true ∧ ToLowerRune c = c) l → tidy out → tidy (foldl name_step out l)) as Hgen.
  { induction l as [|c l IH]; intros out Hl Ht; cbn; [done|]. apply Forall_cons in Hl as [[Hc Hc'] Hl]. auto using tidy_step. }
  apply Hgen, tidy_nil. apply Forall_fmap. eapply Forall_impl; [apply runes_scalar|]. intros r Hr. by apply ToLowerRune_scalar.
Qed.

Lemma tidy_prefix out c : tidy (out ++ [c]) → tidy out.
Proof.
  intros [Hf Hr]. apply Forall_app in Hr as [Hr _]. split; [|done]. rewrite foldl_app in Hf. cbn in Hf.
  pose proof (name_length out []) as Hl. cbn in Hl. unfold name_step in Hf at 1.
  repeat case_match; try (by apply app_inj_tail in Hf as [? _]);
    apply (f_equal List.length) in Hf; rewrite length_app in Hf; cbn in Hf; lia.
Qed.

Lemma tidy_head c out : tidy (c :: out) → c ≠ 45.
Proof.
  intros [Hf _] ->. cbn in Hf. pose proof (name_length out []) as Hl. change (name_step [] 45) with (@nil Z) in Hf.
  rewrite Hf in Hl. cbn in Hl. lia.
Qed.

Lemma tidy_twice out c : tidy (out ++ [45; c]) → c ≠ 45.
Proof.
  intros [Hf _] ->. replace (out ++ [45; 45]) with ((out ++ [45]) ++ [45]) in Hf by (by rewrite <-app_assoc).
  rewrite foldl_app in Hf. set (x := foldl name_step [] (out ++ [45])) in *. cbn in Hf.
  pose proof (name_length (out ++ [45]) []) as Hl. fold x in Hl. unfold name_step in Hf. change (is_break 45) with true in Hf. cbn iota in Hf.
  destruct (last x) as [d|] eqn:El.
  - destruct (Z.eqb_spec d 45) as [->|Hne].
    + apply (f_equal List.length) in Hf. rewrite !length_app in Hf. rewrite length_app in Hl. cbn in *. lia.
    + apply app_inj_tail in Hf as [Hx _]. rewrite Hx, last_snoc in El. congruence.
  - apply last_None in El. rewrite El in Hf. by destruct out.
Qed.

Lemma tidy_app out l : tidy (out ++ l) → tidy out.
Proof.
  induction l as [|c l IH] using rev_ind; [by rewrite app_nil_r|]. rewrite app_assoc. intros Ht%tidy_prefix. auto.
Qed.

(** ** The bytes of a name *)

Definition name_str (out : list Z) : string := str_concat (encode_rune <$> out).

Lemma encode_no_hyphen c : scalar c = true → c ≠ 45 →
  Forall (λ b, (45 =? b) = false) (bytes_of (encode_rune c)) ∧ encode_rune c ≠ "".
Proof.
  intros Hs Hc. pose proof Hs as [Hi%in_range_true _]%andb_true_iff. destruct (Z.lt_ge_cases c 128).
  - rewrite encode_rune_scalar by done. rewrite (proj2 (Z.ltb_lt _ _)) by done. unfold str1. cbn [bytes_of]. rewrite byte_of_char by lia.
    split; [|done]. constructor; [apply Z.eqb_neq; lia|constructor].
  - destruct (encode_bytes_high c Hs ltac:(lia)) as (Hf & ?). split; [|done]. eapply Forall_impl; [exact Hf|]. intros b Hb. apply Z.eqb_neq. cbn in Hb. lia.
Qed.

Lemma TrimRight_none cut s : Forall (λ b, cut b = false) (bytes_of s) → TrimRight cut s = s.
Proof.
  induction s as [|a s IH]; cbn; [done|]. intros [Ha Hs]%Forall_cons. rewrite IH, Ha by done. by destruct s.
Qed.

Lemma TrimRight_app cut s t : TrimRight cut t = t → t ≠ "" → TrimRight cut (s +:+ t) = s +:+ t.
Proof. intros Ht Hne. induction s as [|a s IH]; cbn; [done|]. rewrite IH. by destruct s, t. Qed.

Lemma TrimRight_hit a s : TrimRight (Z.eqb (byte_of a)) (s +:+ String a "") = TrimRight (Z.eqb (byte_of a)) s.
Proof. induction s as [|b s IH]; cbn; [by rewrite Z.eqb_refl|]. by rewrite IH. Qed.

Lemma name_snoc out c : name_str (out ++ [c]) = name_str out +:+ encode_rune c.
Proof. unfold name_str. rewrite fmap_app, str_concat_app. cbn. by rewrite str_app_nil_r. Qed.

Lemma tidy_scalar out c : tidy out → c ∈ out → scalar c = true ∧ ToLowerRune c = c ∧ (c = 45 ∨ is_break c = false ∧ in_name c = true).
Proof. intros [_ Hf]. rewrite Forall_forall in Hf. auto. Qed.

Lemma TrimRight_name out : tidy out → last out ≠ Some 45 → TrimRight (Z.eqb 45) (name_str out) = name_str out.
Proof.
  intros Ht Hl. destruct out as [|c out _] using rev_ind; [done|]. rewrite last_snoc in Hl. rewrite name_snoc.
  destruct (tidy_scalar _ c Ht ltac:(set_solver)) as (Hs & _). destruct (encode_no_hyphen c Hs ltac:(congruence)) as (Hf & Hne).
  by apply TrimRight_app; [apply TrimRight_none|].
Qed.

Lemma TrimLeft_name out : tidy out → TrimLeft (Z.eqb 45) (name_str out) = name_str out.
Proof.
  intros Ht. destruct out as [|c out]; [done|]. destruct (tidy_scalar _ c Ht ltac:(set_solver)) as (Hs & _).
  destruct (encode_no_hyphen c Hs (tidy_head c out Ht)) as (Hf & Hne). unfold name_str. cbn.
  destruct (encode_rune c) as [|a r]; [done|]. cbn in *. apply Forall_cons in Hf as [-> _]. done.
Qed.

Lemma Trim_name out : tidy out →
  ∃ out', tidy out' ∧ last out' ≠ Some 45 ∧ Trim (Z.eqb 45) (name_str out) = name_str out'.
Proof.
  intros Ht. unfold Trim. rewrite TrimLeft_name by done. destruct (decide (last out = Some 45)) as [Hl|Hl].
  - apply last_Some in Hl as (out' & ->). exists out'. pose proof (tidy_prefix _ _ Ht) as Ht'. split; [done|].
    assert (last out' ≠ Some 45) as Hl'.
    { intros (o & ->)%last_Some. rewrite <-app_assoc in Ht. by apply (tidy_twice o 45). }
    split; [done|]. rewrite name_snoc. change (encode_rune 45) with (String (char 45) "").
    change 45 with (byte_of (char 45)) at 1. rewrite TrimRight_hit. by apply TrimRight_name.
  - exists out. split; [done|]. split; [done|]. by apply TrimRight_name.
Qed.

Lemma Normalize_name title : ∃ out, tidy out ∧ last out ≠ Some 45 ∧ Normalize title = name_str out.
Proof. apply Trim_name, tidy_name. Qed.

Lemma Normalize_tidy out : tidy out → last out ≠ Some 45 → Normalize (name_str out) = name_str out.
Proof.
  intros Ht Hl. unfold Normalize. rewrite normalize_foldl, ToLower_runes.
  assert (ToLowerRune ∘ rune_code <$> runes (name_str out) = out) as ->.
  { unfold name_str. rewrite runes_encode_all.
    - rewrite <-list_fmap_compose. rewrite <-(list_fmap_id out) at 2. apply list_fmap_ext. intros i c Hc%list_elem_of_lookup_2.
      cbn. by apply (tidy_scalar out c Ht).
    - rewrite forallb_forall. intros c Hc%list_elem_of_In. by apply (tidy_scalar out c Ht). }
  rewrite (tidy_fixed out Ht). fold (name_str out). unfold Trim. rewrite TrimLeft_name by done. by apply TrimRight_name.
Qed.

(** The article name of a title is made of lowercase letters, marks and digits in words joined by single hyphens, with
    none at its ends, and naming an article by its name changes nothing. *)
Theorem Normalize_canonical title :
  ∃ out, Normalize title = str_concat (encode_rune <$> out) ∧ head out ≠ Some 45 ∧ last out ≠ Some 45 ∧
    (∀ before after, out ≠ before ++ 45 :: 45 :: after) ∧
    (∀ c, c ∈ out → ToLowerRune c = c ∧ (c = 45 ∨ is_space c = false ∧ (IsLetter c || IsDigit c || IsMark c) = true)) ∧
    Normalize (Normalize title) = Normalize title.
Proof.
  destruct (Normalize_name title) as (out & Ht & Hl & E). exists out. split; [exact E|]. split_and!.
  - destruct out as [|c out]; [done|]. intros [= ->]. by apply (tidy_head 45 out).
  - done.
  - intros before after ->. replace (before ++ 45 :: 45 :: after) with ((before ++ [45; 45]) ++ after) in Ht by (by rewrite <-app_assoc).
    apply tidy_app in Ht. by apply (tidy_twice before 45).
  - intros c Hc. destruct (tidy_scalar out c Ht Hc) as (_ & ? & [?|[Hb Hn]]); [auto|]. split; [done|]. right.
    unfold is_break in Hb. rewrite !orb_false_iff in Hb. split; [apply Hb|exact Hn].
  - rewrite E. by apply Normalize_tidy.
Qed.

Lemma Normalize_idem title : Normalize (Normalize title) = Normalize title.
Proof. destruct (Normalize_name title) as (out & Ht & Hl & ->). by apply Normalize_tidy. Qed.

(** ** The links of an article *)

Lemma add_links l : ∀ links, NoDup links → "" ∉ links →
  NoDup (foldl add_link links l) ∧ ∀ t, t ∈ foldl add_link links l ↔ t ∈ links ∨ t ≠ "" ∧ t ∈ l.
Proof.
  induction l as [|x l IH]; intros links Hn He; cbn [foldl]; [set_solver|].
  unfold add_link at 2 4. destruct (String.eqb_spec x "") as [->|Hx]; cbn [orb].
  { destruct (IH links Hn He) as (Hn' & Hi). split; [done|]. intros t. rewrite Hi. set_solver. }
  destruct (contains links x) eqn:Ec.
  { apply contains_spec in Ec. destruct (IH links Hn He) as (Hn' & Hi). split; [done|]. intros t. rewrite Hi. set_solver. }
  assert (x ∉ links) as Hni by (rewrite <-contains_spec; congruence).
  destruct (IH (links ++ [x])) as (Hn' & Hi); [apply NoDup_app; split_and!; [done|set_solver|apply NoDup_singleton]|set_solver|].
  split; [done|]. intros t. rewrite Hi. set_solver.
Qed.

(** A target of a link: a nostr: URI, or an article name. *)
Definition link_target (t : string) : Prop := is_nostr t = true ∨ Normalize t = t.

Lemma visit_targets n : ∀ refs text, Forall link_target (visit_go n refs text).
Proof.
  assert (∀ t, link_target (Normalize t)) as Hname by (intros t; right; apply Normalize_idem).
  induction n as [|n IH]; intros refs text; cbn [visit_go]; [constructor|].
  apply Forall_concat, Forall_fmap, Forall_forall. intros s _. unfold compose. cbv beta.
  destruct (contains ["em"; "strong"] (sp_kind s)); [apply IH|]. destruct (String.eqb _ "wikilink"); [by constructor|].
  destruct (String.eqb _ "link"); [destruct (is_nostr (sp_target s)) eqn:E; repeat constructor; done|].
  destruct (String.eqb _ "reference"); [|constructor].
  destruct (refs !! _) as [def|]; [destruct (is_nostr def) eqn:E; repeat constructor; done|by constructor].
Qed.

Lemma visit_block_targets refs b : Forall link_target (visit_block refs b).
Proof.
  unfold visit_block. destruct (contains _ _); [constructor|]. destruct (contains _ _); [|apply visit_targets].
  apply Forall_concat, Forall_fmap, Forall_forall. intros item _. apply visit_targets.
Qed.

(** C: [Links] lists each target of an article exactly once, whatever the order of the definitions: the nostr: URIs its
    definitions give and what its blocks link to, each a nostr: URI or the name of an article. *)
Theorem Links_exact ord content :
  (∀ l, ord l ≡ₚ l) →
  NoDup (Links ord content) ∧
  (∀ t, t ∈ Links ord content ↔ t ≠ "" ∧
     ((∃ label, definitions content !! label = Some t ∧ is_nostr t = true) ∨
      ∃ b, b ∈ blocks content ∧ t ∈ visit_block (definitions content) b)) ∧
  Forall (λ t, is_nostr t = true ∨ Normalize t = t) (Links ord content).
Proof.
  intros Hord. unfold Links.
  set (l := List.filter _ _ ++ _). destruct (add_links l []) as (Hn & Hi); [constructor|set_solver|].
  assert (∀ t, t ∈ l ↔ (∃ label, definitions content !! label = Some t ∧ is_nostr t = true) ∨
      ∃ b, b ∈ blocks content ∧ t ∈ visit_block (definitions content) b) as Hl.
  { intros t. unfold l. rewrite elem_of_app, elem_of_lfilter, elem_of_concat. f_equiv.
    - split.
      + intros (Hm & Ht). apply list_elem_of_fmap in Hm as ([label t'] & -> & Hm). rewrite Hord in Hm.
        apply elem_of_map_to_list in Hm. eauto.
      + intros (label & Hm & Ht). split; [|done]. apply list_elem_of_fmap. exists (label, t). split; [done|]. rewrite Hord. by apply elem_of_map_to_list.
    - split.
      + intros (ts & Ht & Hts). apply list_elem_of_fmap in Hts as (b & -> & Hb). eauto.
      + intros (b & Hb & Ht). exists (visit_block (definitions content) b). split; [done|]. apply list_elem_of_fmap. eauto. }
  split; [done|]. split; [intros t; rewrite Hi, Hl; set_solver|].
  apply Forall_forall. intros t Ht. apply Hi in Ht as [?%elem_of_nil|[_ Ht]]; [done|].
  apply Hl in Ht as [(label & _ & ?)|(b & _ & Ht)]; [by left|].
  pose proof (visit_block_targets (definitions content) b) as Hb. rewrite Forall_forall in Hb. by apply Hb.
Qed.
End Names.

(** * internal/wiki on concrete articles

    An ASCII reading of the Unicode tables, the theorems at work on it, and
    two places where the code and its comments part. *)

#[local] Instance ascii_tables : GoUnicode := ascii_unicode.
#[local] Instance no_letters : GoLetters := {| uni_letter := λ _, false; uni_digit := λ _, false; uni_mark := λ _, false |}.
#[local] Instance no_urls : GoURL := {| url_parse := λ _, None; url_string := u_host |}.
#[local] Instance ascii_laws : GoLowerLaws.
Proof.
  split; intros r Hs Hr; cbn; [done|]. unfold ToLowerRune. by rewrite (proj2 (Z.ltb_ge _ _)) by lia.
Qed.

Definition dq : string := str1 34.

Example Normalize_words : Normalize "  The  Sea_Otter's -- Guide! " = "the-sea-otters-guide".
Proof. vm_compute. reflexivity. Qed.

Example table_html :
  RenderHTML ("| a | b |" +:+ nl +:+ "|---|---|" +:+ nl +:+ "| *x* | <y> |") =
  "<table>" +:+ nl +:+ "<thead>" +:+ nl +:+ "<tr><th>a</th><th>b</th></tr>" +:+ nl +:+ "</thead>" +:+ nl +:+ "<tbody>" +:+ nl
  +:+ "<tr><td><strong>x</strong></td><td>&lt;y&gt;</td></tr>" +:+ nl +:+ "</tbody>" +:+ nl +:+ "</table>" +:+ nl.
Proof. vm_compute. reflexivity. Qed.

Example dangerous_link :
  RenderHTML "[go](javascript:alert(1)) [[Home|<b>]]" =
  "<p>go) <a href=" +:+ dq +:+ "/wiki/home" +:+ dq +:+ ">&lt;b&gt;</a></p>" +:+ nl.
Proof. vm_compute. reflexivity. Qed.

(** The links of the definitions come before those of the text above them. *)
Example links_not_in_order :
  Links id ("[[Kelp]]" +:+ nl +:+ nl +:+ "[o]: nostr:npub1") = ["nostr:npub1"; "kelp"].
Proof. vm_compute. reflexivity. Qed.

(** A slash, a tab and a slash: kept as a target of this site. *)
Example tab_is_site_relative :
  safeHref ("/" +:+ str1 9 +:+ "/elsewhere.example") = "/" +:+ str1 9 +:+ "/elsewhere.example".
Proof. vm_compute. reflexivity. Qed.

Lemma Links_exact_witness :
  (∀ l : list (string * string), reverse l ≡ₚ l) ∧
  NoDup (Links reverse "[[Kelp]] [o][] [[kelp]]") ∧ Links reverse "[[Kelp]] [o][] [[kelp]]" = ["kelp"; "o"].
Proof.
  split; [apply reverse_Permutation|]. split; [|vm_compute; reflexivity].
  apply (Links_exact reverse "[[Kelp]] [o][] [[kelp]]"). apply reverse_Permutation.
Defined.

Lemma Normalize_canonical_witness :
  Normalize (Normalize "The  Sea_Otter's") = Normalize "The  Sea_Otter's" ∧ Normalize "The  Sea_Otter's" = "the-sea-otters".
Proof.
  split; [|vm_compute; reflexivity].
  destruct (Normalize_canonical "The  Sea_Otter's") as (out & _ & _ & _ & _ & _ & H). exact H.
Defined.
