(* ===== verification/Policy.v ===== *)
(** * internal/policy: the tenant policy and its access rules

    The policy record, its defaults and validation, the read and write rules,
    repository privacy, private peers, and the merge step of [Patch].  URL
    and regular-expression parsing are the parameters of [GoURL] and
    [GoRegexp]; a Go panic is the [Err] of its runtime message, a nil slice
    is the empty list, and the messages of [Validate] leave out the quoted
    value. *)

From S2P Require Import Prelude GoLib GoCodec GoLemmas GoStrings Nostr Filter Store StoreQuery.

Class GoRegexp := { re_compiles : string → bool }.

(** ** The policy record *)

Record Succession := mkSuccession { Heir : string; AfterDays : Z }.
Record Notify := mkNotify { N_Reports : bool; N_Jobs : bool; N_Succession : bool; N_Digest : bool }.
Record MemberInvites := mkMemberInvites { Depth : Z; Quota : Z }.
Record Sites := mkSites { S_Enabled : bool; S_Mirror : bool }.
Record Features := mkFeatures {
  F_Search : string; F_Sync : bool; F_Count : bool; F_Discovery : bool; F_Names : bool; F_Files : bool;
  F_Pages : bool; F_Sites : Sites; F_Signer : bool; F_Marmot : bool; F_Grasp : bool; F_Grasp02 : bool;
  F_Grasp03 : bool; F_Grasp05 : bool; F_Grasp06 : bool; F_Grasp08 : bool; F_Push : bool; F_Jobs : bool }.
Record FileLimits := mkFileLimits { MaxFileBytes : Z; UserStorageBytes : Z }.
Record CustomHost := mkCustomHost {
  CH_Host : string; CH_ID : string; CH_Site : string; CH_At : Z; CH_Status : string; CH_SSLStatus : string }.

Record Policy := mkPolicy {
  Owner : string; CustomHosts : list CustomHost; P_Succession : option Succession;
  P_Name : string; P_Description : string; P_Icon : string; P_Banner : string; P_Contact : string;
  PostingPolicy : string; PrivacyPolicy : string;
  P_Tags : list string; LanguageTags : list string; RelayCountries : list string;
  P_Notify : Notify; Writes : string; OpenKinds : list Z; GuestReplies : bool;
  BlockedWords : list string; BlockedWordsInTags : bool; ReportThreshold : Z;
  Reads : string; JoinTerms : string; DirectoryPublic : bool; MinPow : Z; MaxFuture : Z;
  P_MemberInvites : MemberInvites; P_Views : list (string * string); P_Features : Features;
  PushCallbacks : list string; PrivatePeers : list string; P_FileLimits : FileLimits;
  LetteredNips : bool; P_Delivery : bool; InboxTargeted : bool; Dumps : string; DumpsKeep : Z;
  Rooms : Z; Callbacks : Z; BlockedKinds : list Z; AllowedKinds : list Z;
  Retention : list (Z * Z) (** kind and days *)
}.

Definition DefaultRooms : Z := 64.
Definition DefaultCallbacks : Z := 4.

Definition Defaults (owner : string) : Policy :=
  mkPolicy owner [] None "" "" "" "" "" "" "" [] [] [] (mkNotify false false false false) "open" [] false
    [] false 0 "open" "" true 0 900 (mkMemberInvites 0 0) []
    (mkFeatures "prose" true true true true true true (mkSites true true) true false false false false
       false false false false true)
    [] [] (mkFileLimits 0 0) false false false "off" 7 DefaultRooms DefaultCallbacks [] [] [].

(** ** Validation *)

Section Validate.
Context `{GoURL} `{GoRegexp}.

Definition https_url (name value : string) : result unit :=
  guard_err (negb (String.eqb value "")
    && match url_parse value with
       | Some u => negb (String.eqb (u_scheme u) "https") || String.eqb (u_host u) ""
       | None => true
       end) (name +:+ ": must be an https URL").

Definition peer_url (peer : string) : result unit :=
  guard_err (match url_parse (TrimRightSlash (TrimSpace peer)) with
    | None => true
    | Some u => negb (contains ["http"; "https"; "ws"; "wss"] (u_scheme u))
                || String.eqb (u_host u) "" || u_user u
                || negb (String.eqb (u_query u) "") || negb (String.eqb (u_fragment u) "")
    end) "privatePeers: invalid peer URL".

(** The pattern of a regular-expression word: [word[1 : len(word)-1]],
    which panics for a single slash. *)
Definition word_pattern (word : string) : result string :=
  guard_err (len word <? 2) "runtime error: slice bounds out of range [1:0]";;
  mret (String.substring 1 (String.length word - 2) word).

Definition is_regex_word (word : string) : bool := HasPrefix word "/" && HasSuffix word "/".

Definition blocked_word_ok (word : string) : result unit :=
  if is_regex_word word then
    pattern ← word_pattern word; guard_err (negb (re_compiles pattern)) "blockedWords: bad pattern"
  else mret tt.

(** Maps are visited in the order given; Go's order is unspecified. *)
Definition Validate (p : Policy) : result unit :=
  let f := P_Features p in
  first_err ([
    guard_err ((MaxFileBytes (P_FileLimits p) <? 0) || (UserStorageBytes (P_FileLimits p) <? 0))
      "fileLimits: byte allowances cannot be negative";
    guard_err (negb (contains ["open"; "allowlist"; "wot"; "owner"] (Writes p))) "writes: invalid rule";
    guard_err (negb (contains ["open"; "auth"; "members"] (Reads p))) "reads: invalid rule";
    guard_err (negb (contains ["full"; "prose"; "off"] (F_Search f))) "features.search: invalid mode";
    guard_err (negb (contains ["off"; "daily"; "weekly"] (Dumps p))) "dumps: invalid mode";
    guard_err (DumpsKeep p <? 0) "dumpsKeep: cannot be negative";
    https_url "postingPolicy" (PostingPolicy p); https_url "privacyPolicy" (PrivacyPolicy p)]
    ++ (peer_url <$> PrivatePeers p)
    ++ [guard_err (S_Mirror (F_Sites f) && negb (S_Enabled (F_Sites f)))
          "features.sites.mirror requires sites.enabled";
        guard_err ((F_Grasp02 f || F_Grasp03 f || F_Grasp05 f || F_Grasp06 f || F_Grasp08 f)
                   && negb (F_Grasp f)) "grasp subfeatures require grasp";
        guard_err ((F_Grasp03 f || F_Grasp05 f) && negb (F_Grasp02 f))
          "features.grasp03 and grasp05 require grasp02";
        guard_err (F_Grasp08 f && negb (String.eqb (Reads p) "members"))
          "features.grasp08 requires reads=members"]
    ++ ((λ kv, guard_err (negb (contains ["off"; "write"; "hourly"; "daily"] kv.2))
           ("views." +:+ kv.1 +:+ ": invalid setting")) <$> P_Views p)
    ++ (blocked_word_ok <$> BlockedWords p)
    ++ [guard_err ((ReportThreshold p <? 0) || (MinPow p <? 0) || (MaxFuture p <? 0)
          || (Depth (P_MemberInvites p) <? 0) || (Quota (P_MemberInvites p) <? 0)
          || (Rooms p <? 0) || (Callbacks p <? 0)) "policy: numeric values cannot be negative";
        guard_err (match P_Succession p with
                   | Some s => String.eqb (Heir s) "" || (AfterDays s <=? 0)
                   | None => false
                   end) "succession: heir and positive afterDays required"]).
End Validate.

(** ** Patching: the merge of the decoded patch into the encoded policy *)

Definition mergeable (key : string) : bool :=
  contains ["features"; "notify"; "memberInvites"; "delivery"; "inbox"; "fileLimits"] key.

(** A JSON value decoded as an object; [null] decodes to a nil map. *)
Definition as_object (j : json) : option (gmap string json) :=
  match j with JObj m => Some (json_members m) | JNull => Some ∅ | _ => None end.
Definition object_of (m : gmap string json) : json := JObj (map_to_list m).

(** The value stored under a recognized key. *)
Definition patched_value (key : string) (value current : json) : json :=
  if mergeable key then
    match as_object value, as_object current with
    | Some patchMap, Some currentMap =>
      let patchMap := if String.eqb key "features" then
          match patchMap !! "sites" with
          | Some (JBool false) => <["sites" := JObj [("enabled", JBool false)]]> patchMap
          | _ => patchMap
          end
        else patchMap in
      object_of (patchMap ∪ currentMap)
    | _, _ => value
    end
  else value.

Definition patch_key (merged : gmap string json) (kv : string * json) : gmap string json :=
  match merged !! kv.1 with
  | None => merged
  | Some current => <[kv.1 := patched_value kv.1 kv.2 current]> merged
  end.

Definition merge_patch (merged raw : gmap string json) : gmap string json :=
  fold_left patch_key (map_to_list raw) merged.

Definition raw_bool (b : bool) : json := JBool b.

(** [json.Marshal] of a policy: the members of the encoded object, with
    [omitempty] on the private peers. *)
Definition marshal_members_policy (p : Policy) : list (string * json) :=
  let f := P_Features p in
  [("owner", JStr (Owner p));
   ("customHosts", JArr ((λ h, JObj ([("host", JStr (CH_Host h)); ("id", JStr (CH_ID h))]
      ++ (if String.eqb (CH_Site h) "" then [] else [("site", JStr (CH_Site h))])
      ++ [("at", raw_int (CH_At h)); ("status", JStr (CH_Status h)); ("sslStatus", JStr (CH_SSLStatus h))]))
      <$> CustomHosts p));
   ("succession", match P_Succession p with
                  | Some s => JObj [("heir", JStr (Heir s)); ("afterDays", raw_int (AfterDays s))]
                  | None => JNull end);
   ("name", JStr (P_Name p)); ("description", JStr (P_Description p)); ("icon", JStr (P_Icon p));
   ("banner", JStr (P_Banner p)); ("contact", JStr (P_Contact p));
   ("postingPolicy", JStr (PostingPolicy p)); ("privacyPolicy", JStr (PrivacyPolicy p));
   ("tags", raw_strings (P_Tags p)); ("languageTags", raw_strings (LanguageTags p));
   ("relayCountries", raw_strings (RelayCountries p));
   ("notify", JObj [("reports", JBool (N_Reports (P_Notify p))); ("jobs", JBool (N_Jobs (P_Notify p)));
      ("succession", JBool (N_Succession (P_Notify p))); ("digest", JBool (N_Digest (P_Notify p)))]);
   ("writes", JStr (Writes p)); ("openKinds", JArr (raw_int <$> OpenKinds p));
   ("guestReplies", JBool (GuestReplies p)); ("blockedWords", raw_strings (BlockedWords p));
   ("blockedWordsInTags", JBool (BlockedWordsInTags p)); ("reportThreshold", raw_int (ReportThreshold p));
   ("reads", JStr (Reads p)); ("joinTerms", JStr (JoinTerms p)); ("directoryPublic", JBool (DirectoryPublic p));
   ("minPow", raw_int (MinPow p)); ("maxFuture", raw_int (MaxFuture p));
   ("memberInvites", JObj [("depth", raw_int (Depth (P_MemberInvites p))); ("quota", raw_int (Quota (P_MemberInvites p)))]);
   ("views", JObj ((λ kv, (kv.1, JStr kv.2)) <$> P_Views p));
   ("features", JObj [("search", JStr (F_Search f)); ("sync", JBool (F_Sync f)); ("count", JBool (F_Count f));
      ("discovery", JBool (F_Discovery f)); ("names", JBool (F_Names f)); ("files", JBool (F_Files f));
      ("pages", JBool (F_Pages f));
      ("sites", JObj [("enabled", JBool (S_Enabled (F_Sites f))); ("mirror", JBool (S_Mirror (F_Sites f)))]);
      ("signer", JBool (F_Signer f)); ("marmot", JBool (F_Marmot f)); ("grasp", JBool (F_Grasp f));
      ("grasp02", JBool (F_Grasp02 f)); ("grasp03", JBool (F_Grasp03 f)); ("grasp05", JBool (F_Grasp05 f));
      ("grasp06", JBool (F_Grasp06 f)); ("grasp08", JBool (F_Grasp08 f)); ("push", JBool (F_Push f));
      ("jobs", JBool (F_Jobs f))]);
   ("pushCallbacks", raw_strings (PushCallbacks p))]
  ++ (match PrivatePeers p with [] => [] | l => [("privatePeers", raw_strings l)] end)
  ++ [("fileLimits", JObj [("maxFileBytes", raw_int (MaxFileBytes (P_FileLimits p)));
        ("userStorageBytes", raw_int (UserStorageBytes (P_FileLimits p)))]);
      ("letteredNips", JBool (LetteredNips p)); ("delivery", JObj [("enabled", JBool (P_Delivery p))]);
      ("inbox", JObj [("targeted", JBool (InboxTargeted p))]); ("dumps", JStr (Dumps p));
      ("dumpsKeep", raw_int (DumpsKeep p)); ("rooms", raw_int (Rooms p)); ("callbacks", raw_int (Callbacks p))].

(** [Patch], with the decoding of the merged object into a policy (struct
    decoding of encoding/json over the defaults of [UnmarshalJSON]) given. *)
Definition Patch `{GoURL} `{GoRegexp} (decode : gmap string json → result Policy)
    (cur : Policy) (raw : gmap string json) : result Policy :=
  out ← decode (merge_patch (json_members (marshal_members_policy cur)) raw);
  Validate out;;
  mret out.

(** ** Access rules (access.go) *)

Record PAccess := mkPAccess { PA_PubKeys : list string; PA_Role : string; PA_Member : bool; PA_Owner : bool }.

Definition readRule (p : Policy) (a : PAccess) : bool :=
  if String.eqb (Reads p) "open" then true
  else if String.eqb (Reads p) "auth" then
    negb (Nat.eqb (List.length (PA_PubKeys a)) 0) || PA_Owner a
  else if String.eqb (Reads p) "members" then PA_Member a || PA_Owner a
  else false.

Definition privateKind (kind : Z) : bool := (kind =? 4) || (kind =? 1059).

Definition hasKey (a : PAccess) (key : string) : bool := contains (PA_PubKeys a) key.

Section Access.
Context `{GoUnicode}.

Definition IsPrivateRepositoryEvent (e : Event) : bool :=
  (Kind e =? 30617)
  && existsb (λ t, match t with
                   | n :: v :: _ => String.eqb n "private" && EqualFold v "true"
                   | _ => false
                   end) (etags e).

Definition addressed (e : Event) (a : PAccess) : bool :=
  hasKey a (PubKey e)
  || existsb (λ t, match t with
                   | n :: v :: _ => EqualFold n "p" && hasKey a v
                   | _ => false
                   end) (etags e).

Definition CanRead (p : Policy) (e : Event) (a : PAccess) : bool :=
  if containsInt (BlockedKinds p) (Kind e) then false
  else if negb (readRule p a) then false
  else if IsPrivateRepositoryEvent e && (negb (F_Grasp08 (P_Features p)) || negb (String.eqb (Reads p) "members"))
  then false
  else if privateKind (Kind e) then addressed e a
  else true.

(** [PrivateRepository] with the storage lookup of repository state. *)
Definition PrivateRepository (lookup : option (string → string → bool)) (e : Event) : bool :=
  if IsPrivateRepositoryEvent e then true
  else match lookup with
  | None => false
  | Some look => if negb (Kind e =? KIND_REPO_STATE) then false else look (PubKey e) (Tag e "d")
  end.
End Access.

Definition CanWrite (p : Policy) (e : Event) (a : PAccess) : bool :=
  if containsInt (BlockedKinds p) (Kind e) then false
  else if negb (Nat.eqb (List.length (AllowedKinds p)) 0) && negb (containsInt (AllowedKinds p) (Kind e))
  then false
  else if String.eqb (Writes p) "open" then true
  else if String.eqb (Writes p) "owner" then
    PA_Owner a || negb (String.eqb (Owner p) "") && String.eqb (PubKey e) (Owner p)
  else if String.eqb (Writes p) "allowlist" then PA_Member a || PA_Owner a
  else if String.eqb (Writes p) "wot" then PA_Member a || PA_Owner a
  else false.

Definition PrivateServiceEnabled (p : Policy) : bool :=
  F_Grasp (P_Features p) && F_Grasp08 (P_Features p) && String.eqb (Reads p) "members".

(** ** internal/peerurl *)

Definition normalizePeerScheme (scheme : string) : string :=
  if String.eqb scheme "ws" then "http" else if String.eqb scheme "wss" then "https" else scheme.

Fixpoint Match_peers `{GoURL} (u : URL) (peers : list string) : string :=
  match peers with
  | [] => ""
  | configured :: rest =>
    match url_parse (TrimRightSlash (TrimSpace configured)) with
    | None => Match_peers u rest
    | Some peer =>
      if negb (String.eqb (normalizePeerScheme (u_scheme peer)) (normalizePeerScheme (u_scheme u)))
         || negb (String.eqb (u_host peer) (u_host u)) then Match_peers u rest
      else
        let base := TrimRightSlash (u_path peer) in
        if negb (String.eqb base "") && negb (String.eqb (u_path u) base)
           && negb (HasPrefix (u_path u) (base +:+ "/")) then Match_peers u rest
        else TrimRightSlash (url_string (mkURL (normalizePeerScheme (u_scheme peer)) (u_host peer) base
               (u_user peer) (u_query peer) (u_fragment peer)))
    end
  end.

Definition PrivatePeerBase `{GoURL} (source : string) (peers : list string) : string :=
  match url_parse source with None => "" | Some u => Match_peers u peers end.

(** * internal/policy: validated policies and patches *)

Lemma first_err_Ok l u : first_err l = Ok u ↔ ∀ m, m ∈ l → m = Ok tt.
Proof.
  destruct u. induction l as [|[[]|e] l IH]; cbn.
  - split; [|done]. by intros _ m ?%not_elem_of_nil.
  - rewrite IH. setoid_rewrite elem_of_cons. naive_solver.
  - split; [done|]. intros H. by specialize (H _ (list_elem_of_here _ _)).
Qed.

(** ** Validated policies *)

Section Validated.
Context `{GoURL} `{GoRegexp}.

Lemma Validate_member p m :
  Validate p = Ok tt →
  m ∈ [guard_err ((F_Grasp02 (P_Features p) || F_Grasp03 (P_Features p) || F_Grasp05 (P_Features p)
            || F_Grasp06 (P_Features p) || F_Grasp08 (P_Features p)) && negb (F_Grasp (P_Features p)))
         "grasp subfeatures require grasp";
       guard_err (F_Grasp08 (P_Features p) && negb (String.eqb (Reads p) "members"))
          "features.grasp08 requires reads=members"] → m = Ok tt.
Proof.
  unfold Validate. cbv zeta. rewrite first_err_Ok. intros Hv Hm. apply Hv.
  rewrite !elem_of_app. right; right; left.
  rewrite !elem_of_cons in *. tauto.
Qed.

(** A policy that validates and has the private-service profile enabled
    satisfies the whole private-service contract, and then no event at all
    is readable by someone who is neither a member nor the owner. *)
Theorem private_service_closed `{GoUnicode} p e a :
  Validate p = Ok tt → F_Grasp08 (P_Features p) = true →
  PrivateServiceEnabled p = true ∧
  (CanRead p e a = true → PA_Member a = true ∨ PA_Owner a = true).
Proof.
  intros Hv H8.
  pose proof (Validate_member p _ Hv (list_elem_of_here _ _)) as Hg.
  pose proof (Validate_member p _ Hv (list_elem_of_further _ _ _ (list_elem_of_here _ _))) as Hr.
  apply guard_Ok_tt in Hg, Hr. rewrite H8 in Hg, Hr.
  rewrite !orb_true_r in Hg. cbn [andb] in Hg, Hr. apply negb_false_iff in Hg, Hr.
  unfold PrivateServiceEnabled. rewrite Hg, H8, Hr. split; [done|].
  unfold CanRead. destruct (containsInt _ _); [done|].
  unfold readRule. apply String.eqb_eq in Hr. rewrite Hr. cbn.
  destruct (PA_Member a || PA_Owner a) eqn:E; [|done]. intros _. by apply orb_true_iff.
Qed.
End Validated.

(** ** The slash word *)

(** A blocked word consisting of a single slash does not fail validation
    with an error: the slice of its pattern panics, whatever else the policy
    says that validates. *)
Theorem slash_word_panics `{GoURL} `{GoRegexp} owner :
  let p := Defaults owner in
  Validate p = Ok tt ∧
  Validate (mkPolicy owner (CustomHosts p) (P_Succession p) (P_Name p) (P_Description p) (P_Icon p) (P_Banner p)
    (P_Contact p) (PostingPolicy p) (PrivacyPolicy p) (P_Tags p) (LanguageTags p) (RelayCountries p)
    (P_Notify p) (Writes p) (OpenKinds p) (GuestReplies p) ["/"] (BlockedWordsInTags p) (ReportThreshold p)
    (Reads p) (JoinTerms p) (DirectoryPublic p) (MinPow p) (MaxFuture p) (P_MemberInvites p) (P_Views p)
    (P_Features p) (PushCallbacks p) (PrivatePeers p) (P_FileLimits p) (LetteredNips p) (P_Delivery p)
    (InboxTargeted p) (Dumps p) (DumpsKeep p) (Rooms p) (Callbacks p) (BlockedKinds p) (AllowedKinds p)
    (Retention p)) = Err "runtime error: slice bounds out of range [1:0]".
Proof. split; reflexivity. Qed.

(** ** Patches *)

Lemma patch_key_ne merged kv k : k ≠ kv.1 → patch_key merged kv !! k = merged !! k.
Proof. intros Hne. unfold patch_key. destruct (merged !! kv.1); [|done]. by rewrite lookup_insert_ne. Qed.

Lemma patch_fold_other l merged k : k ∉ l.*1 → fold_left patch_key l merged !! k = merged !! k.
Proof.
  revert merged. induction l as [|kv l IH]; intros merged Hk; [done|]. cbn in *.
  rewrite not_elem_of_cons in Hk. rewrite IH by tauto. apply patch_key_ne. tauto.
Qed.

Lemma patch_fold_lookup l merged k v :
  NoDup l.*1 → (k, v) ∈ l →
  fold_left patch_key l merged !! k = patched_value k v <$> merged !! k.
Proof.
  revert merged. induction l as [|kv l IH]; intros merged Hnd Hin; [by apply not_elem_of_nil in Hin|].
  cbn in *. apply NoDup_cons in Hnd as [Hni Hnd]. apply elem_of_cons in Hin as [<-|Hin].
  - rewrite patch_fold_other by done. unfold patch_key. cbn.
    destruct (merged !! k) eqn:E; cbn; [by rewrite lookup_insert_eq|done].
  - rewrite IH by done. f_equal. apply patch_key_ne. intros ->. apply Hni.
    by apply (list_elem_of_fmap_2 fst l (kv.1, v)).
Qed.

Lemma merge_patch_lookup merged raw k :
  merge_patch merged raw !! k =
  match raw !! k with
  | Some v => patched_value k v <$> merged !! k
  | None => merged !! k
  end.
Proof.
  unfold merge_patch. destruct (raw !! k) as [v|] eqn:E.
  - apply patch_fold_lookup; [apply NoDup_fst_map_to_list|by apply elem_of_map_to_list].
  - apply patch_fold_other. intros (kv & Ek & Hin)%list_elem_of_fmap.
    destruct kv as [k' v]. cbn in Ek. subst k'. apply elem_of_map_to_list in Hin. congruence.
Qed.

Lemma as_object_object_of m : as_object (object_of m) = Some m.
Proof.
  unfold as_object, object_of, json_members. f_equal.
  rewrite (list_to_map_proper _ (map_to_list m)); [apply list_to_map_to_list| |].
  - rewrite fmap_reverse, reverse_Permutation. apply NoDup_fst_map_to_list.
  - by rewrite reverse_Permutation.
Qed.

(** A patch changes only members the policy's encoding already has, in any
    iteration order: an unpatched member keeps its value, an unrecognized one
    is dropped, and in the six mergeable members an object patch replaces
    exactly the nested members it names. *)
Theorem merge_patch_frame merged raw k :
  (raw !! k = None → merge_patch merged raw !! k = merged !! k) ∧
  (merged !! k = None → merge_patch merged raw !! k = None) ∧
  (∀ cur v pm cm, merged !! k = Some cur → raw !! k = Some v → mergeable k = true → k ≠ "features" →
     as_object v = Some pm → as_object cur = Some cm →
     ∃ out om, merge_patch merged raw !! k = Some out ∧ as_object out = Some om ∧
       ∀ n, om !! n = match pm !! n with Some x => Some x | None => cm !! n end).
Proof.
  rewrite merge_patch_lookup. split_and!.
  - by intros ->.
  - intros ->. by destruct (raw !! k).
  - intros cur v pm cm -> -> Hm Hf Hp Hc. cbn. unfold patched_value. rewrite Hm, Hp, Hc.
    destruct (String.eqb_spec k "features") as [|_]; [done|].
    eexists _, _. split; [reflexivity|]. split; [apply as_object_object_of|].
    intros n. rewrite lookup_union. by destruct (pm !! n), (cm !! n).
Qed.

Lemma json_members_lookup_None l k : k ∉ l.*1 → json_members l !! k = None.
Proof.
  intros Hk. unfold json_members. apply not_elem_of_list_to_map_1. rewrite fmap_reverse.
  by rewrite elem_of_reverse.
Qed.

(** While no private peer is configured, a patch cannot configure one: the
    encoding omits the empty list, so the member counts as unrecognized and
    the patch behaves as if it were absent. *)
Theorem private_peers_patch_ignored `{GoURL} `{GoRegexp} decode cur raw v :
  PrivatePeers cur = [] →
  Patch decode cur (<["privatePeers" := v]> raw) = Patch decode cur (delete "privatePeers" raw).
Proof.
  intros Hp. unfold Patch. f_equal. f_equal. apply map_eq. intros k.
  rewrite !merge_patch_lookup. destruct (decide (k = "privatePeers")) as [->|Hne].
  - rewrite lookup_insert_eq, lookup_delete_eq.
    rewrite json_members_lookup_None; [done|]. unfold marshal_members_policy. cbv zeta. rewrite Hp.
    rewrite !fmap_app. cbn. rewrite !not_elem_of_cons. repeat split; try discriminate. apply not_elem_of_nil.
  - by rewrite lookup_insert_ne, lookup_delete_ne by done.
Qed.

(** ** Witnesses *)

(** A URL parser that knows one address. *)
Definition toy_url : GoURL :=
  {| url_parse s := if HasPrefix s "https://" then Some (mkURL "https" (String.substring 8 100 s) "" false "" "") else None;
     url_string u := u_scheme u +:+ "://" +:+ u_host u +:+ u_path u |}.
Definition toy_regexp : GoRegexp := {| re_compiles _ := true |}.

Definition private_policy : Policy :=
  let p := Defaults "owner" in
  mkPolicy "owner" [] None "" "" "" "" "" "" "" [] [] [] (P_Notify p) "open" [] false [] false 0 "members" "" true 0 900
    (P_MemberInvites p) []
    (mkFeatures "prose" true true true true true true (mkSites true true) true false true true false false false true false true)
    [] ["https://peer.example/"] (P_FileLimits p) false false false "off" 7 64 4 [] [] [].

Lemma private_service_closed_witness :
  PrivateServiceEnabled private_policy = true ∧
  (@CanRead ascii_unicode private_policy nil_event (mkPAccess ["k"] "" true false) = true → true = true ∨ false = true).
Proof.
  apply (@private_service_closed toy_url toy_regexp ascii_unicode private_policy nil_event
    (mkPAccess ["k"] "" true false)); vm_compute; reflexivity.
Defined.

Lemma private_peers_patch_ignored_witness :
  let decode (m : gmap string json) :=
    Ok (if decide (is_Some (m !! "privatePeers")) then private_policy else Defaults "owner") in
  @Patch toy_url toy_regexp decode (Defaults "owner") {["privatePeers" := JArr [JStr "https://peer.example"]]}
  = @Patch toy_url toy_regexp decode (Defaults "owner") (delete "privatePeers" ∅).
Proof. apply (@private_peers_patch_ignored toy_url toy_regexp). reflexivity. Defined.
