(* ===== verification/Sites.v ===== *)
(** * internal/sites: site labels and manifests

    Bech32 and base-36 host labels, the parsing of a label into a site, and
    the validation of manifests.  Keys of the Nostr library are the parameter
    [NostrKeys].  Regular expressions are the predicates they denote, and an
    index out of range is the [Err] of its runtime message. *)

From S2P Require Import Prelude GoLib GoCodec GoLemmas GoStrings Nostr Policy.

Class NostrKeys := {
  (** [nostr.PubKeyFromHex] as its 32 bytes, and [PubKey.Hex] *)
  pubkey_from_hex : string → option (list Z);
  pubkey_hex : list Z → string;
}.

(** ** bech32.go *)

Definition bech32Charset : string := "qpzry9x8gf2tvdw0s3jn54khce6mua7l".

(** [strings.IndexByte] *)
Fixpoint index_byte_go (s : string) (b : Z) (i : Z) : Z :=
  match s with
  | EmptyString => -1
  | String a r => if byte_of a =? b then i else index_byte_go r b (i + 1)
  end.
Definition IndexByte (s : string) (b : Z) : Z := index_byte_go s b 0.

Fixpoint last_index_go (s : string) (b : Z) (i last : Z) : Z :=
  match s with
  | EmptyString => last
  | String a r => last_index_go r b (i + 1) (if byte_of a =? b then i else last)
  end.
Definition LastIndexByte (s : string) (b : Z) : Z := last_index_go s b 0 (-1).

Definition charset_at (v : Z) : ascii := match String.get (Z.to_nat v) bech32Charset with Some a => a | None => char 0 end.

Definition w64 (z : Z) : Z := z mod 2 ^ 64.

(** The inner loop emits groups while [bits >= to]; [fuel] bounds the groups
    of one input value. *)
Fixpoint convert_emit (fuel : nat) (acc bits to : Z) : list Z * Z :=
  match fuel with
  | O => ([], bits)
  | S k =>
    if to <=? bits then
      let bits := bits - to in
      let '(out, rest) := convert_emit k acc bits to in
      (Z.land (Z.shiftr acc bits) (2 ^ to - 1) :: out, rest)
    else ([], bits)
  end.

Fixpoint convert_go (data : list Z) (acc bits from to : Z) : list Z * Z * Z :=
  match data with
  | [] => ([], acc, bits)
  | value :: r =>
    let acc := w64 (Z.lor (w64 (Z.shiftl acc from)) value) in
    let '(out, bits) := convert_emit 8 acc (bits + from) to in
    let '(rest, acc, bits) := convert_go r acc bits from to in
    (out ++ rest, acc, bits)
  end.

Definition convertBits (data : list Z) (from to : Z) (pad : bool) : option (list Z) :=
  let '(out, acc, bits) := convert_go data 0 0 from to in
  let tail := Z.land (w64 (Z.shiftl acc (to - bits))) (2 ^ to - 1) in
  let out := if pad && (0 <? bits) then out ++ [tail] else out in
  if negb pad && ((from <=? bits) || negb (tail =? 0)) then None else Some out.

Definition generators : list (Z * Z) :=
  [(0, 996825010); (1, 642813549); (2, 513874426); (3, 1027748829); (4, 705979059)].

(** One value of [bech32Polymod]; the state stays below 2^30. *)
Definition polymod_step (chk value : Z) : Z :=
  let top := Z.shiftr chk 25 in
  fold_left (λ c ig, if Z.testbit top ig.1 then Z.lxor c ig.2 else c) generators
    (Z.lxor (Z.shiftl (Z.land chk 33554431) 5) value).
Definition bech32Polymod (values : list Z) : Z := fold_left polymod_step values 1.

Definition bech32Expand (prefix : string) : list Z :=
  let cs := (λ r, rune_code r mod 256) <$> runes prefix in
  ((λ c, Z.shiftr c 5) <$> cs) ++ [0] ++ ((λ c, Z.land c 31) <$> cs).

Definition bech32Checksum (prefix : string) (values : list Z) : list Z :=
  let polymod := Z.lxor (bech32Polymod (bech32Expand prefix ++ values ++ [0; 0; 0; 0; 0; 0])) 1 in
  (λ i, Z.land (Z.shiftr polymod (5 * (5 - i))) 31) <$> [0; 1; 2; 3; 4; 5].

Definition bech32Verify (prefix : string) (values : list Z) : bool :=
  bech32Polymod (bech32Expand prefix ++ values) =? 1.

Fixpoint string_of_chars (l : list ascii) : string :=
  match l with [] => "" | a :: r => String a (string_of_chars r) end.

Definition bech32Encode (prefix : string) (data : list Z) : string :=
  prefix +:+ "1" +:+ string_of_chars (charset_at <$> (data ++ bech32Checksum prefix data)).

(** The loop over [range encoded]: one value per rune at its byte index, the
    other bytes of a rune stay zero; the character is truncated to a byte. *)
Fixpoint decode_values (l : list rune) : option (list Z) :=
  match l with
  | [] => Some []
  | r :: l =>
    let pos := IndexByte bech32Charset (rune_code r mod 256) in
    if pos <? 0 then None
    else rest ← decode_values l;
         Some (pos :: repeat 0 (pred (String.length (rune_src r))) ++ rest)
  end.

Definition slice (s : string) (from to : Z) : string :=
  String.substring (Z.to_nat from) (Z.to_nat (to - from)) s.

Section Labels.
Context `{GoUnicode}.

Definition bech32Decode (value : string) : option (string * list Z) :=
  if negb (String.eqb value (ToLower value)) || (len value <? 8) then None
  else
    let sep := LastIndexByte value 49 in
    if (sep <? 1) || (len value <? sep + 7) then None
    else
      let prefix := slice value 0 sep in
      values ← decode_values (runes (slice value (sep + 1) (len value)));
      if negb (bech32Verify prefix values) then None
      else Some (prefix, take (List.length values - 6) values).

Definition encodeNpub (key : list Z) : string :=
  bech32Encode "npub" (default [] (convertBits key 8 5 true)).

Definition decodeNpub (value : string) : option (list Z) :=
  match bech32Decode value with
  | Some (prefix, data) =>
    if String.eqb prefix "npub" then
      match convertBits data 5 8 false with
      | Some raw => if Nat.eqb (List.length raw) 32 then Some raw else None
      | None => None
      end
    else None
  | None => None
  end.
End Labels.

(** ** Base 36 and site labels (sites.go) *)

Definition KindSite : Z := 15128.
Definition KindNamedSite : Z := 35128.
Definition KindSiteSnapshot : Z := 5128.

(** The regular expressions. *)
Definition hexPattern (s : string) : bool := hex64 s.
Definition name_byte (b : Z) : bool := in_range 97 b 122 || in_range 48 b 57 || (b =? 45).
Definition namePattern (s : string) : bool :=
  (1 <=? len s) && (len s <=? 13) && forallb name_byte (bytes_of s).

(** Digits of a number in a base, most significant first ([big.Int.Text]);
    digits above nine are lowercase letters. *)
Definition base_digit (d : Z) : ascii := char (if d <? 10 then 48 + d else 87 + d).
Fixpoint text_go (fuel : nat) (base z : Z) (acc : string) : string :=
  match fuel with
  | O => acc
  | S k => let acc := String (base_digit (z mod base)) acc in
           if z / base =? 0 then acc else text_go k base (z / base) acc
  end.
Definition big_text (z base : Z) : string := text_go (S (Z.to_nat (Z.log2 z))) base z "".

Definition digit_of (b : Z) : Z := if in_range 48 b 57 then b - 48 else b - 87.
(** [big.Int.SetString] of lowercase digits. *)
Definition big_of (s : string) (base : Z) : Z :=
  fold_left (λ acc b, acc * base + digit_of b) (bytes_of s) 0.

Definition repeat_str (s : string) (n : Z) : string := str_concat (repeat s (Z.to_nat n)).

Definition Base36 (value : string) : option string :=
  if negb (hexPattern value) then None
  else let value36 := big_text (big_of value 16) 36 in
       Some (repeat_str "0" (50 - len value36) +:+ value36).

Definition base36_byte (b : Z) : bool := in_range 48 b 57 || in_range 97 b 122.

(** [fmt.Sprintf("%064x", n)] *)
Definition hex64_of (n : Z) : string :=
  let t := big_text n 16 in repeat_str "0" (64 - len t) +:+ t.

Definition Unbase36 (value : string) : option string :=
  if negb (len value =? 50) || negb (forallb base36_byte (bytes_of value)) then None
  else let n := big_of value 36 in
       if 2 ^ 256 <=? n then None else Some (hex64_of n).

Record Site := mkSite { site_kind : Z; site_pubkey : string; site_d : string; site_id : string }.

Section ParseSite.
Context `{NostrKeys} `{GoUnicode}.

Definition ParseSite (label : string) : option Site :=
  match (if HasPrefix label "npub1" then decodeNpub label else None) with
  | Some key => Some (mkSite KindSite (pubkey_hex key) "" "")
  | None =>
    match (if HasPrefix label "v" && (len label =? 51) then Unbase36 (slice label 1 51) else None) with
    | Some id => Some (mkSite KindSiteSnapshot "" "" id)
    | None =>
      if (len label <? 51) || (63 <? len label) || HasSuffix label "-" then None
      else match Unbase36 (slice label 0 50) with
      | Some key =>
        let d := slice label 50 (len label) in
        if namePattern d then Some (mkSite KindNamedSite key d "") else None
      | None => None
      end
    end
  end.

Definition SiteLabel (e : Event) : string :=
  if Kind e =? KindSite then
    match pubkey_from_hex (PubKey e) with Some key => encodeNpub key | None => "" end
  else if Kind e =? KindNamedSite then
    match Base36 (PubKey e) with Some key => key +:+ Tag e "d" | None => "" end
  else if Kind e =? KindSiteSnapshot then
    match Base36 (ID e) with Some key => "v" +:+ key | None => "" end
  else "".
End ParseSite.

(** ** Manifests *)

Definition tagsNamed (e : Event) (name : string) : list (list string) :=
  List.filter (λ t, match t with n :: _ => String.eqb n name | [] => false end) (etags e).
Definition SitePaths (e : Event) : list (list string) := tagsNamed e "path".

Definition str_leb (s t : string) : Prop := str_ltb t s = false.
#[export] Instance str_leb_dec : RelDecision str_leb.
Proof. intros s t. unfold str_leb. apply _. Defined.

Definition newline : string := str1 10.

Definition Aggregate (paths : list (list string)) : string :=
  let lines := omap (λ t, match t with
                          | [n; path; hash] => if String.eqb n "path" then Some (hash +:+ " " +:+ path +:+ newline) else None
                          | _ => None
                          end) paths in
  sha256_hex (str_concat (merge_sort str_leb lines)).

(** [^/(?:[^/]+/)*[^/.]+\.[^/.]+$]: nonempty segments, the last with exactly
    one dot and something on both sides of it. *)
Fixpoint path_segments (l : list string) : bool :=
  match l with
  | [] => false
  | [last] => match Split last (char 46) with
              | [a; b] => negb (String.eqb a "") && negb (String.eqb b "")
              | _ => false
              end
  | s :: r => negb (String.eqb s "") && path_segments r
  end.
Definition pathPattern (path : string) : bool :=
  match Split path (char 47) with
  | first :: rest => String.eqb first "" && path_segments rest
  | [] => false
  end.

(** The bytes of the [ContainsAny] set. *)
Definition forbidden_byte (b : Z) : bool :=
  (b =? 92) || (b =? 63) || (b =? 35) || (b <? 32) || (b =? 127).

Definition hasDotSegment (path : string) : bool :=
  existsb (λ part, String.eqb part "." || String.eqb part "..") (Split path (char 47)).

Definition site_path_ok (t : list string) : bool :=
  match t with
  | [_; path; hash] =>
    pathPattern path && negb (existsb forbidden_byte (bytes_of path)) && negb (hasDotSegment path)
    && hexPattern hash
  | _ => false
  end.

Fixpoint check_paths (seen : list string) (paths : list (list string)) : result unit :=
  match paths with
  | [] => mret tt
  | t :: r =>
    guard_err (negb (site_path_ok t)) "invalid: site path";;
    let path := match t with _ :: p :: _ => p | _ => "" end in
    guard_err (contains seen path) "invalid: duplicate site path";;
    check_paths (path :: seen) r
  end.

Definition validateAggregate (e : Event) : result unit :=
  let x := tagsNamed e "x" in
  guard_err ((1 <? Z.of_nat (List.length x))
    || (Kind e =? KindSiteSnapshot) && negb (Nat.eqb (List.length x) 1)) "invalid: site x tag";;
  match x with
  | [t] => guard_err (match t with
                      | [_; hash; mark] => negb (String.eqb mark "aggregate")
                          || negb (String.eqb hash (Aggregate (SitePaths e)))
                      | _ => true
                      end) "invalid: site aggregate hash"
  | _ => mret tt
  end.

Definition validReference (value : string) : bool :=
  match Split value (char 58) with
  | [k; pk; d] =>
    hexPattern pk
    && (String.eqb k (Itoa KindSite) && String.eqb d "" || String.eqb k (Itoa KindNamedSite) && namePattern d)
  | _ => false
  end.

Definition validateLineage (e : Event) : result unit :=
  let a := tagsNamed e "a" in
  let A := tagsNamed e "A" in
  guard_err (existsb (λ t, match t with [_; v] => negb (validReference v) | _ => true end) (a ++ A))
    "invalid: site lineage";;
  guard_err ((Kind e =? KindSiteSnapshot) && negb (Nat.eqb (List.length a) 1)) "invalid: snapshot source";;
  guard_err (negb (Kind e =? KindSiteSnapshot) && negb (Nat.eqb (List.length a) (List.length A)))
    "invalid: copied site lineage".

(** The d-tag condition; reading [dTags[0][1]] of a one-element tag panics. *)
Definition site_d_tag (e : Event) : result unit :=
  let dTags := tagsNamed e "d" in
  if Kind e =? KindNamedSite then
    match dTags with
    | [t] => match t with
             | _ :: v :: _ => guard_err (negb (namePattern v)) "invalid: site d tag"
             | _ => Err "runtime error: index out of range [1] with length 1"
             end
    | _ => Err "invalid: site d tag"
    end
  else guard_err (negb (Nat.eqb (List.length dTags) 0)) "invalid: site d tag".

Definition ValidateManifest (e : Event) : result unit :=
  if negb (Kind e =? KindSite) && negb (Kind e =? KindNamedSite) && negb (Kind e =? KindSiteSnapshot) then mret tt
  else
    site_d_tag e;;
    let paths := SitePaths e in
    guard_err (Nat.eqb (List.length paths) 0) "invalid: site needs a path";;
    check_paths [] paths;;
    validateAggregate e;;
    validateLineage e.

(** [strings.TrimPrefix(path, ".")], then the part after the last dot. *)
Definition site_extension (lowered : string) : string :=
  let i := LastIndexByte lowered 46 in
  if 0 <=? i then slice lowered (i + 1) (len lowered) else lowered.

Definition site_types : list (string * string) :=
  [("html", "text/html; charset=utf-8"); ("htm", "text/html; charset=utf-8"); ("css", "text/css");
   ("js", "text/javascript"); ("mjs", "text/javascript"); ("json", "application/json");
   ("svg", "image/svg+xml"); ("png", "image/png"); ("jpg", "image/jpeg"); ("jpeg", "image/jpeg");
   ("gif", "image/gif"); ("webp", "image/webp"); ("ico", "image/x-icon");
   ("txt", "text/plain; charset=utf-8"); ("xml", "application/xml"); ("wasm", "application/wasm");
   ("woff", "font/woff"); ("woff2", "font/woff2"); ("pdf", "application/pdf")].

Definition SiteType `{GoUnicode} (path : string) : string :=
  match List.find (λ kv, String.eqb kv.1 (site_extension (ToLower (TrimPrefix path ".")))) site_types with
  | Some kv => kv.2
  | None => "application/octet-stream"
  end.
