(* ===== verification/SitesProps.v ===== *)
(** * internal/sites: labels name their sites

    Every label [SiteLabel] produces parses back to the same site, and three
    corners where the code does not do that, or panics. *)

From S2P Require Import Prelude GoLib GoCodec GoLemmas GoStrings Nostr NostrProps Filter Store StoreInv StoreMaint Policy Sites.

(** * internal/sites: numbers behind the labels

    The Bech32 checksum is linear over GF(2), regrouping bits preserves the
    number they spell, and the digits of a number spell it back. *)

(** ** The checksum polynomial *)

Definition gen_part (top : Z) : Z :=
  fold_left (λ c ig, if Z.testbit top ig.1 then Z.lxor c ig.2 else c) generators 0.

Lemma gen_fold l top c :
  fold_left (λ c (ig : Z * Z), if Z.testbit top ig.1 then Z.lxor c ig.2 else c) l c
  = Z.lxor c (fold_left (λ c ig, if Z.testbit top ig.1 then Z.lxor c ig.2 else c) l 0).
Proof.
  revert c. induction l as [|[i g] l IH]; intros c; cbn [fold_left fst snd]; [by rewrite Z.lxor_0_r|].
  rewrite IH, (IH (if Z.testbit top i then Z.lxor 0 g else 0)). destruct (Z.testbit top i).
  - by rewrite Z.lxor_0_l, Z.lxor_assoc.
  - by rewrite Z.lxor_0_l.
Qed.

Lemma gen_part_lxor a b : gen_part (Z.lxor a b) = Z.lxor (gen_part a) (gen_part b).
Proof.
  unfold gen_part. induction generators as [|[i g] l IH]; [done|]. cbn [fold_left fst snd].
  rewrite (gen_fold l (Z.lxor a b)), (gen_fold l a), (gen_fold l b), IH, Z.lxor_spec.
  generalize (fold_left (λ c (ig : Z * Z), if Z.testbit a ig.1 then Z.lxor c ig.2 else c) l 0).
  generalize (fold_left (λ c (ig : Z * Z), if Z.testbit b ig.1 then Z.lxor c ig.2 else c) l 0).
  intros y x. destruct (Z.testbit a i), (Z.testbit b i); cbn [xorb]; rewrite ?Z.lxor_0_l.
  - apply Z.bits_inj. intros k. rewrite !Z.lxor_spec. by destruct (Z.testbit g k), (Z.testbit x k), (Z.testbit y k).
  - by rewrite Z.lxor_assoc.
  - apply Z.bits_inj. intros k. rewrite !Z.lxor_spec. by destruct (Z.testbit g k), (Z.testbit x k), (Z.testbit y k).
  - done.
Qed.

(** The linear part of one step. *)
Definition step0 (chk : Z) : Z :=
  Z.lxor (Z.shiftl (Z.land chk 33554431) 5) (gen_part (Z.shiftr chk 25)).

Lemma polymod_step_eq chk v : polymod_step chk v = Z.lxor (step0 chk) v.
Proof.
  unfold polymod_step, step0. rewrite gen_fold. fold (gen_part (Z.shiftr chk 25)).
  apply Z.bits_inj. intros k. rewrite !Z.lxor_spec. by destruct (Z.testbit v k), (Z.testbit (gen_part _) k), (Z.testbit (Z.shiftl _ _) k).
Qed.

Lemma land_lxor_l a b c : Z.land (Z.lxor a b) c = Z.lxor (Z.land a c) (Z.land b c).
Proof.
  apply Z.bits_inj. intros k. rewrite !Z.lxor_spec, !Z.land_spec, Z.lxor_spec.
  by destruct (Z.testbit a k), (Z.testbit b k), (Z.testbit c k).
Qed.

Lemma step0_lxor a b : step0 (Z.lxor a b) = Z.lxor (step0 a) (step0 b).
Proof.
  unfold step0. rewrite Z.shiftr_lxor, gen_part_lxor, land_lxor_l, Z.shiftl_lxor.
  apply Z.bits_inj. intros k. rewrite !Z.lxor_spec.
  by destruct (Z.testbit (Z.shiftl (Z.land a 33554431) 5) k), (Z.testbit (Z.shiftl (Z.land b 33554431) 5) k),
    (Z.testbit (gen_part (Z.shiftr a 25)) k), (Z.testbit (gen_part (Z.shiftr b 25)) k).
Qed.

Lemma step0_small x : 0 ≤ x < 2 ^ 25 → step0 x = x * 32.
Proof.
  intros Hx. unfold step0. rewrite (Z.shiftr_div_pow2 x 25), (Z.div_small x) by lia.
  change (gen_part 0) with 0. rewrite Z.lxor_0_r.
  change 33554431 with (Z.ones 25). rewrite Z.land_ones, Z.mod_small by lia.
  rewrite Z.shiftl_mul_pow2 by lia. done.
Qed.

Definition low30 (x : Z) : Prop := 0 ≤ x < 2 ^ 30.

Lemma lxor_lt a b n : 0 ≤ n → 0 ≤ a < 2 ^ n → 0 ≤ b < 2 ^ n → 0 ≤ Z.lxor a b < 2 ^ n.
Proof.
  intros Hn Ha Hb. assert (0 ≤ Z.lxor a b) as H0 by (apply Z.lxor_nonneg; lia). split; [done|].
  destruct (Z.eq_dec (Z.lxor a b) 0) as [->|Hne]; [by apply Z.pow_pos_nonneg|].
  apply Z.log2_lt_pow2; [lia|]. eapply Z.le_lt_trans; [apply Z.log2_lxor; lia|].
  assert (∀ x, 0 ≤ x < 2 ^ n → Z.log2 x < n ∨ x = 0) as Hl.
  { intros x Hx. destruct (Z.eq_dec x 0); [by right|left]. apply Z.log2_lt_pow2; lia. }
  assert (0 < n) by (destruct (Z.eq_dec n 0) as [->|]; [|lia]; assert (a = 0) as -> by lia; assert (b = 0) as -> by lia; done).
  destruct (Hl a Ha) as [?| ->], (Hl b Hb) as [?| ->]; cbn; lia.
Qed.

Lemma gen_part_low top : low30 (gen_part top).
Proof.
  unfold gen_part, low30. unfold generators. cbn [fold_left fst snd].
  destruct (Z.testbit top 0), (Z.testbit top 1), (Z.testbit top 2), (Z.testbit top 3), (Z.testbit top 4);
    vm_compute; split; congruence.
Qed.

Lemma step0_low x : low30 (step0 x).
Proof.
  unfold step0. apply lxor_lt; [done| |apply gen_part_low].
  change 33554431 with (Z.ones 25). rewrite Z.land_ones by done. rewrite Z.shiftl_mul_pow2 by done.
  pose proof (Z.mod_pos_bound x (2 ^ 25) ltac:(done)). lia.
Qed.

Lemma polymod_low values : Forall (λ v, 0 ≤ v < 32) values → values ≠ [] → low30 (bech32Polymod values).
Proof.
  intros Hv Hne. unfold bech32Polymod. destruct values as [|v0 l]; [done|]. clear Hne.
  revert Hv. generalize 1. revert v0. induction l as [|v l IH]; intros v0 s Hv; cbn [fold_left].
  - rewrite polymod_step_eq. apply lxor_lt; [done|apply step0_low|]. inversion Hv; subst. lia.
  - inversion Hv; subst. by apply IH.
Qed.

(** Splitting off the six checksum positions. *)
Lemma polymod_six s c0 c1 c2 c3 c4 c5 :
  Forall (λ v, 0 ≤ v < 32) [c0; c1; c2; c3; c4; c5] →
  fold_left polymod_step [c0; c1; c2; c3; c4; c5] s
  = Z.lxor (fold_left polymod_step [0; 0; 0; 0; 0; 0] s)
      (Z.lxor (c0 * 2 ^ 25) (Z.lxor (c1 * 2 ^ 20) (Z.lxor (c2 * 2 ^ 15) (Z.lxor (c3 * 2 ^ 10) (Z.lxor (c4 * 2 ^ 5) c5))))).
Proof.
  intros H. rewrite !Forall_cons in H. destruct H as (H0 & H1 & H2 & H3 & H4 & H5 & _).
  cbn [fold_left]. rewrite !polymod_step_eq, !Z.lxor_0_r, !step0_lxor.
  rewrite !(step0_small c0), !(step0_small c1), !(step0_small c2), !(step0_small c3), !(step0_small c4) by lia.
  rewrite !(step0_small (c0 * 32)), !(step0_small (c1 * 32)), !(step0_small (c2 * 32)), !(step0_small (c3 * 32)) by lia.
  rewrite !(step0_small (c0 * 32 * 32)), !(step0_small (c1 * 32 * 32)), !(step0_small (c2 * 32 * 32)) by lia.
  rewrite !(step0_small (c0 * 32 * 32 * 32)), !(step0_small (c1 * 32 * 32 * 32)) by lia.
  rewrite (step0_small (c0 * 32 * 32 * 32 * 32)) by lia.
  replace (c0 * 2 ^ 25) with (c0 * 32 * 32 * 32 * 32 * 32) by lia.
  replace (c1 * 2 ^ 20) with (c1 * 32 * 32 * 32 * 32) by lia.
  replace (c2 * 2 ^ 15) with (c2 * 32 * 32 * 32) by lia.
  replace (c3 * 2 ^ 10) with (c3 * 32 * 32) by lia.
  replace (c4 * 2 ^ 5) with (c4 * 32) by lia.
  by rewrite !Z.lxor_assoc.
Qed.

Lemma lxor_add_low a b n : 0 ≤ n → 0 ≤ b < 2 ^ n → Z.lxor (a * 2 ^ n) b = a * 2 ^ n + b.
Proof.
  intros Hn Hb. symmetry. apply Z.add_nocarry_lxor. apply Z.bits_inj. intros k. rewrite Z.land_spec, Z.bits_0.
  destruct (Z.lt_ge_cases k n) as [Hk|Hk].
  - destruct (Z.lt_ge_cases k 0); [by rewrite Z.testbit_neg_r by done|]. by rewrite Z.mul_pow2_bits_low.
  - destruct (Z.eq_dec b 0) as [->|]; [by rewrite Z.bits_0, andb_false_r|].
    assert (Z.log2 b < n) by (apply Z.log2_lt_pow2; lia).
    rewrite (Z.bits_above_log2 b) by lia. by rewrite andb_false_r.
Qed.

(** The six five-bit digits of a number below 2^30 spell it. *)
Lemma five_bit_digits p : low30 p →
  let c i := Z.land (Z.shiftr p (5 * (5 - i))) 31 in
  Z.lxor (c 0 * 2 ^ 25) (Z.lxor (c 1 * 2 ^ 20) (Z.lxor (c 2 * 2 ^ 15) (Z.lxor (c 3 * 2 ^ 10) (Z.lxor (c 4 * 2 ^ 5) (c 5))))) = p
  ∧ ∀ i, 0 ≤ c i < 32.
Proof.
  intros Hp c. unfold low30 in Hp.
  assert (∀ i, 0 ≤ 5 * (5 - i) → c i = p / 2 ^ (5 * (5 - i)) mod 32) as Hc.
  { intros i Hi. unfold c. change 31 with (Z.ones 5). rewrite Z.land_ones, Z.shiftr_div_pow2 by lia. done. }
  assert (∀ i, 0 ≤ c i < 32) as Hr.
  { intros i. unfold c. change 31 with (Z.ones 5). rewrite Z.land_ones by lia. by apply Z.mod_pos_bound. }
  split; [|done]. pose proof (Hr 0). pose proof (Hr 1). pose proof (Hr 2). pose proof (Hr 3). pose proof (Hr 4). pose proof (Hr 5).
  rewrite (lxor_add_low (c 4) (c 5) 5) by lia.
  rewrite (lxor_add_low (c 3) _ 10) by lia. rewrite (lxor_add_low (c 2) _ 15) by lia.
  rewrite (lxor_add_low (c 1) _ 20) by lia. rewrite (lxor_add_low (c 0) _ 25) by lia.
  rewrite !Hc by lia. clear -Hp.
  change (5 * (5 - 0)) with 25. change (5 * (5 - 1)) with 20. change (5 * (5 - 2)) with 15.
  change (5 * (5 - 3)) with 10. change (5 * (5 - 4)) with 5. change (5 * (5 - 5)) with 0.
  rewrite Z.pow_0_r, Z.div_1_r.
  assert (∀ n m, 0 ≤ n → m = n + 5 → p / 2 ^ n = p / 2 ^ m * 32 + p / 2 ^ n mod 32) as Hs.
  { intros n m Hn ->. rewrite Z.pow_add_r, <-Z.div_div by lia. change (2 ^ 5) with 32.
    rewrite (Z.div_mod (p / 2 ^ n) 32) at 1 by lia. lia. }
  pose proof (Hs 0 5 ltac:(lia) eq_refl) as E0. pose proof (Hs 5 10 ltac:(lia) eq_refl) as E1.
  pose proof (Hs 10 15 ltac:(lia) eq_refl) as E2. pose proof (Hs 15 20 ltac:(lia) eq_refl) as E3.
  pose proof (Hs 20 25 ltac:(lia) eq_refl) as E4. rewrite Z.pow_0_r, Z.div_1_r in E0.
  assert (p / 2 ^ 25 mod 32 = p / 2 ^ 25) as ->.
  { apply Z.mod_small. split; [apply Z.div_pos; lia|apply Z.div_lt_upper_bound; lia]. }
  lia.
Qed.

(** The checksum an encoder appends verifies, for any prefix and five-bit data. *)
Lemma bech32_checksum_verifies prefix data :
  Forall (λ v, 0 ≤ v < 32) data →
  bech32Verify prefix (data ++ bech32Checksum prefix data) = true ∧
  Forall (λ v, 0 ≤ v < 32) (bech32Checksum prefix data).
Proof.
  intros Hd. set (p := Z.lxor (bech32Polymod (bech32Expand prefix ++ data ++ [0; 0; 0; 0; 0; 0])) 1).
  assert (low30 p) as Hp.
  { unfold p. apply lxor_lt; [done| |done]. rewrite app_assoc.
    unfold bech32Polymod. rewrite fold_left_app. cbn [fold_left].
    rewrite polymod_step_eq. rewrite Z.lxor_0_r. apply step0_low. }
  destruct (five_bit_digits p Hp) as [Hdig Hrange].
  assert (bech32Checksum prefix data = [Z.land (Z.shiftr p (5 * (5 - 0))) 31; Z.land (Z.shiftr p (5 * (5 - 1))) 31;
    Z.land (Z.shiftr p (5 * (5 - 2))) 31; Z.land (Z.shiftr p (5 * (5 - 3))) 31;
    Z.land (Z.shiftr p (5 * (5 - 4))) 31; Z.land (Z.shiftr p (5 * (5 - 5))) 31]) as Ec by done.
  assert (Forall (λ v, 0 ≤ v < 32) (bech32Checksum prefix data)) as Hcs.
  { rewrite Ec. repeat constructor; apply Hrange. }
  split; [|done]. unfold bech32Verify. apply Z.eqb_eq. unfold bech32Polymod in *.
  rewrite Ec in *. rewrite !fold_left_app, polymod_six, Hdig by done.
  unfold p. rewrite !fold_left_app. generalize (fold_left polymod_step data (fold_left polymod_step (bech32Expand prefix) 1)).
  intros s. generalize (fold_left polymod_step [0; 0; 0; 0; 0; 0] s).
  intros q. apply Z.bits_inj. intros k. rewrite !Z.lxor_spec. by destruct (Z.testbit q k), (Z.testbit 1 k).
Qed.

(** ** Digit strings *)

(** The number the digits [l] spell in base [b]. *)
Definition spell (b : Z) (l : list Z) : Z := fold_left (λ acc x, acc * b + x) l 0.
Definition digits (b : Z) (l : list Z) : Prop := Forall (λ d, 0 ≤ d < b) l.

Lemma spell_from b l a : fold_left (λ acc x, acc * b + x) l a = a * b ^ Z.of_nat (List.length l) + spell b l.
Proof.
  unfold spell. revert a. induction l as [|x l IH]; intros a; cbn [fold_left List.length]; [rewrite Z.pow_0_r; lia|].
  rewrite IH, (IH (0 * b + x)). rewrite Nat2Z.inj_succ, Z.pow_succ_r by lia. lia.
Qed.

Lemma spell_cons b x l : spell b (x :: l) = x * b ^ Z.of_nat (List.length l) + spell b l.
Proof. unfold spell. cbn [fold_left]. rewrite spell_from. unfold spell. lia. Qed.

Lemma spell_app b l k : spell b (l ++ k) = spell b l * b ^ Z.of_nat (List.length k) + spell b k.
Proof. unfold spell. rewrite fold_left_app, spell_from. done. Qed.

Lemma spell_bound b l : 0 < b → digits b l → 0 ≤ spell b l < b ^ Z.of_nat (List.length l).
Proof.
  intros Hb. induction 1 as [|x l Hx _ IH]; [cbn; lia|].
  rewrite spell_cons. cbn [List.length]. rewrite Nat2Z.inj_succ, Z.pow_succ_r by lia. nia.
Qed.

Lemma spell_inj b l k :
  0 < b → digits b l → digits b k → List.length l = List.length k → spell b l = spell b k → l = k.
Proof.
  intros Hb Hl. revert k. induction Hl as [|x l Hx Hl IH]; intros [|y k] Hk Hlen E; try done.
  inversion Hk; subst. cbn in Hlen. injection Hlen as Hlen.
  rewrite !spell_cons, Hlen in E. pose proof (spell_bound b l Hb Hl) as B1. rewrite Hlen in B1.
  assert (digits b k) as Hk' by done.
  pose proof (spell_bound b k Hb Hk') as B2.
  set (m := b ^ Z.of_nat (List.length k)) in *.
  assert (x = y) as -> by nia. f_equal. apply IH; [done|done|lia].
Qed.

Lemma spell_zeros b n l : spell b (repeat 0 n ++ l) = spell b l.
Proof.
  induction n as [|n IH]; [done|]. cbn [repeat app]. rewrite spell_cons, IH. lia.
Qed.

(** ** Regrouping bits *)

Lemma convert_emit_spec fuel acc bits to out rest :
  0 < to → 0 ≤ bits < to * (Z.of_nat fuel + 1) → 0 ≤ acc →
  convert_emit fuel acc bits to = (out, rest) →
  0 ≤ rest < to ∧ bits = to * Z.of_nat (List.length out) + rest ∧ digits (2 ^ to) out ∧
  spell (2 ^ to) out * 2 ^ rest + acc mod 2 ^ rest = acc mod 2 ^ bits.
Proof.
  intros Hto. revert bits out rest. induction fuel as [|fuel IH]; intros bits out rest Hb Ha E; cbn [convert_emit] in E.
  - injection E as <- <-. cbn. split_and!; [lia..|constructor|lia].
  - destruct (Z.leb_spec to bits) as [Hle|Hlt].
    2: { injection E as <- <-. cbn. split_and!; [lia..|constructor|lia]. }
    destruct (convert_emit fuel acc (bits - to) to) as [out' rest'] eqn:E'. injection E as <- <-.
    destruct (IH (bits - to) out' rest' ltac:(lia) Ha E') as (H1 & H2 & H3 & H4).
    change (2 ^ to - 1) with (Z.pred (2 ^ to)). rewrite <-Z.ones_equiv, Z.land_ones, Z.shiftr_div_pow2 by lia.
    set (dg := acc / 2 ^ (bits - to) mod 2 ^ to).
    assert (0 < 2 ^ to) as Hp by (apply Z.pow_pos_nonneg; lia).
    split_and!; [lia|lia|cbn [List.length]; lia|constructor; [by apply Z.mod_pos_bound|done]|].
    + rewrite spell_cons, Z.mul_add_distr_r, <-Z.add_assoc, H4.
      rewrite <-Z.pow_mul_r, <-Z.mul_assoc, <-Z.pow_add_r by lia.
      replace (to * Z.of_nat (List.length out') + rest') with (bits - to) by lia.
      unfold dg. replace (2 ^ bits) with (2 ^ (bits - to) * 2 ^ to) by (rewrite <-Z.pow_add_r by lia; f_equal; lia).
      rewrite Z.rem_mul_r by (apply Z.pow_nonzero || apply Z.pow_pos_nonneg; lia). lia.
Qed.

Lemma lor_shift acc value from :
  0 < from ≤ 8 → 0 ≤ acc → 0 ≤ value < 2 ^ from →
  w64 (Z.lor (w64 (Z.shiftl acc from)) value) = w64 (acc * 2 ^ from) + value.
Proof.
  intros Hf Ha Hv. unfold w64. rewrite Z.shiftl_mul_pow2 by lia.
  replace (2 ^ 64) with (2 ^ (64 - from) * 2 ^ from) by (rewrite <-Z.pow_add_r by lia; f_equal; lia).
  rewrite Z.mul_mod_distr_r by (apply Z.pow_nonzero; lia).
  set (m := acc mod 2 ^ (64 - from)).
  assert (0 ≤ m < 2 ^ (64 - from)) as Hm by (apply Z.mod_pos_bound, Z.pow_pos_nonneg; lia).
  assert (Z.lor (m * 2 ^ from) value = m * 2 ^ from + value) as ->.
  { rewrite <-Z.lxor_lor; [by apply lxor_add_low; lia|].
    apply Z.bits_inj. intros k. rewrite Z.land_spec, Z.bits_0.
    destruct (Z.lt_ge_cases k from) as [Hk|Hk].
    - destruct (Z.lt_ge_cases k 0); [by rewrite Z.testbit_neg_r by done|]. by rewrite Z.mul_pow2_bits_low.
    - destruct (Z.eq_dec value 0) as [->|]; [by rewrite Z.bits_0, andb_false_r|].
      assert (Z.log2 value < from) by (apply Z.log2_lt_pow2; lia).
      rewrite (Z.bits_above_log2 value) by lia. by rewrite andb_false_r. }
  apply Z.mod_small. assert (0 < 2 ^ from) by (apply Z.pow_pos_nonneg; lia). nia.
Qed.

Lemma convert_go_spec data acc bits from to out acc' bits' :
  0 < from ≤ 8 → 0 < to ≤ 8 → digits (2 ^ from) data → 0 ≤ bits < to → 0 ≤ acc →
  convert_go data acc bits from to = (out, acc', bits') →
  0 ≤ bits' < to ∧ 0 ≤ acc' ∧
  bits + from * Z.of_nat (List.length data) = to * Z.of_nat (List.length out) + bits' ∧
  digits (2 ^ to) out ∧
  spell (2 ^ to) out * 2 ^ bits' + acc' mod 2 ^ bits'
  = (acc mod 2 ^ bits) * 2 ^ (from * Z.of_nat (List.length data)) + spell (2 ^ from) data.
Proof.
  intros Hf Ht Hd. revert acc bits out acc' bits'. induction Hd as [|value data Hv Hd IH];
    intros acc bits out acc' bits' Hb Ha E; cbn [convert_go] in E.
  - injection E as <- <- <-. cbn. rewrite Z.mul_0_r, Z.pow_0_r. split_and!; [lia..|constructor|lia].
  - rewrite lor_shift in E by done. set (acc1 := w64 (acc * 2 ^ from) + value) in *.
    destruct (convert_emit 8 acc1 (bits + from) to) as [o1 b1] eqn:E1.
    destruct (convert_go data acc1 b1 from to) as [[o2 a2] b2] eqn:E2. injection E as <- <- <-.
    assert (0 ≤ acc1) as Ha1.
    { unfold acc1, w64. pose proof (Z.mod_pos_bound (acc * 2 ^ from) (2 ^ 64) ltac:(done)). lia. }
    destruct (convert_emit_spec 8 acc1 (bits + from) to o1 b1 ltac:(lia) ltac:(lia) Ha1 E1) as (M1 & M2 & M3 & M4).
    destruct (IH acc1 b1 o2 a2 b2 ltac:(lia) Ha1 E2) as (N1 & N2 & N3 & N4 & N5).
    cbn [List.length]. rewrite length_app, Nat2Z.inj_add, Nat2Z.inj_succ.
    split_and!; [lia|lia|lia|lia|by apply Forall_app_2|].
    assert (0 < 2 ^ from) as Hpf by (apply Z.pow_pos_nonneg; lia).
    assert (0 < 2 ^ bits) as Hpb by (apply Z.pow_pos_nonneg; lia).
    assert (acc1 mod 2 ^ (bits + from) = (acc mod 2 ^ bits) * 2 ^ from + value) as Hacc.
    { unfold acc1, w64. rewrite Z.pow_add_r by lia.
      replace (2 ^ 64) with (2 ^ (64 - from) * 2 ^ from) by (rewrite <-Z.pow_add_r by lia; f_equal; lia).
      rewrite Z.mul_mod_distr_r by (apply Z.pow_nonzero; lia).
      assert (acc mod 2 ^ (64 - from) mod 2 ^ bits = acc mod 2 ^ bits) as Hmm.
      { replace (2 ^ (64 - from)) with (2 ^ bits * 2 ^ (64 - from - bits)) by (rewrite <-Z.pow_add_r by lia; f_equal; lia).
        rewrite Z.rem_mul_r by (apply Z.pow_nonzero || apply Z.pow_pos_nonneg; lia).
        rewrite Z.mul_comm, Z.mod_add by lia. by apply Z.mod_mod; lia. }
      rewrite <-Hmm. set (m := acc mod 2 ^ (64 - from)).
      rewrite (Z.mul_comm (2 ^ bits)), Z.rem_mul_r by lia.
      rewrite (Z.add_comm (m * 2 ^ from)), Z.mod_add, Z.div_add, (Z.mod_small value), (Z.div_small value) by lia. rewrite ?Z.add_0_l. lia. }
    rewrite spell_app, spell_cons, Z.mul_add_distr_r, <-Z.add_assoc, N5.
    rewrite <-Z.pow_mul_r, <-Z.mul_assoc, <-Z.pow_add_r by lia.
    replace (to * Z.of_nat (List.length o2) + b2) with (b1 + from * Z.of_nat (List.length data)) by lia.
    rewrite Z.pow_add_r, Z.mul_assoc, Z.add_assoc, <-Z.mul_add_distr_r, M4, Hacc by lia.
    rewrite <-Z.pow_mul_r, <-Zmult_succ_r_reverse by lia. rewrite (Z.add_comm _ from), Z.pow_add_r by lia. lia.
Qed.

(** ** Labels and manifests *)

(** ** npub *)

Lemma convertBits_out data from to out acc bits pad :
  convert_go data 0 0 from to = (out, acc, bits) → 
  convertBits data from to pad
  = let tail := Z.land (w64 (Z.shiftl acc (to - bits))) (2 ^ to - 1) in
    if negb pad && ((from <=? bits) || negb (tail =? 0)) then None
    else Some (if pad && (0 <? bits) then out ++ [tail] else out).
Proof. intros E. unfold convertBits. by rewrite E. Qed.

Lemma tail_value acc bits to : 0 < to ≤ 8 → 0 ≤ bits < to → 0 ≤ acc →
  Z.land (w64 (Z.shiftl acc (to - bits))) (2 ^ to - 1) = acc mod 2 ^ bits * 2 ^ (to - bits).
Proof.
  intros Ht Hb Ha. change (2 ^ to - 1) with (Z.pred (2 ^ to)). rewrite <-Z.ones_equiv, Z.land_ones by lia.
  unfold w64. rewrite Z.shiftl_mul_pow2 by lia.
  assert (∀ x, x mod 2 ^ 64 mod 2 ^ to = x mod 2 ^ to) as ->.
  { intros x. replace (2 ^ 64) with (2 ^ to * 2 ^ (64 - to)) by (rewrite <-Z.pow_add_r by lia; f_equal; lia).
    rewrite Z.rem_mul_r by (apply Z.pow_nonzero || apply Z.pow_pos_nonneg; lia).
    rewrite (Z.mul_comm (2 ^ to)), Z.mod_add by (apply Z.pow_nonzero; lia).
    apply Z.mod_mod, Z.pow_nonzero; lia. }
  replace (2 ^ to) with (2 ^ bits * 2 ^ (to - bits)) by (rewrite <-Z.pow_add_r by lia; f_equal; lia).
  by rewrite Z.mul_mod_distr_r by (apply Z.pow_nonzero; lia).
Qed.

(** Thirty-two bytes to five-bit groups and back. *)
Lemma convert_round_trip key :
  List.length key = 32%nat → digits 256 key →
  ∃ groups, convertBits key 8 5 true = Some groups ∧ digits 32 groups ∧ List.length groups = 52%nat ∧
    convertBits groups 5 8 false = Some key.
Proof.
  intros Hlen Hk. destruct (convert_go key 0 0 8 5) as [[o1 a1] b1] eqn:E1.
  destruct (convert_go_spec key 0 0 8 5 o1 a1 b1 ltac:(lia) ltac:(lia) Hk ltac:(lia) ltac:(lia) E1) as (M1 & M2 & M3 & M4 & M5).
  rewrite Hlen in M3, M5. assert (b1 = 1 ∧ List.length o1 = 51%nat) as [-> Hl1] by lia.
  rewrite (convertBits_out _ _ _ _ _ _ _ E1). cbv zeta. rewrite tail_value by lia. cbn [negb andb Z.ltb Z.compare].
  set (groups := o1 ++ [a1 mod 2 ^ 1 * 2 ^ (5 - 1)]). exists groups.
  pose proof (Z.mod_pos_bound a1 (2 ^ 1) ltac:(done)) as Hb1.
  assert (digits 32 groups) as Hg.
  { apply Forall_app_2; [done|]. constructor; [|constructor]. change (2 ^ (5 - 1)) with 16. change (2 ^ 1) with 2 in *. lia. }
  assert (List.length groups = 52%nat) as Hgl by (unfold groups; rewrite length_app, Hl1; done).
  split_and!; [done..|].
  destruct (convert_go groups 0 0 5 8) as [[o2 a2] b2] eqn:E2.
  destruct (convert_go_spec groups 0 0 5 8 o2 a2 b2 ltac:(lia) ltac:(lia) Hg ltac:(lia) ltac:(lia) E2) as (N1 & N2 & N3 & N4 & N5).
  rewrite Hgl in N3, N5. assert (b2 = 4 ∧ List.length o2 = 32%nat) as [-> Hl2] by lia.
  rewrite (convertBits_out _ _ _ _ _ _ _ E2). cbv zeta. rewrite tail_value by lia.
  assert (spell (2 ^ 5) groups = spell (2 ^ 8) key * 2 ^ 4) as Hs.
  { unfold groups. rewrite spell_app. cbn [List.length]. change (spell (2 ^ 5) [a1 mod 2 ^ 1 * 2 ^ (5 - 1)]) with (a1 mod 2 ^ 1 * 2 ^ (5 - 1)).
    change ((2 ^ 5) ^ Z.of_nat 1) with 32. change (2 ^ (5 - 1)) with 16. change (2 ^ 1) with 2 in *. change (2 ^ 4) with 16. change (2 ^ 8) with 256 in *.
    rewrite Zmod_0_l in M5. lia. }
  rewrite Hs, Zmod_0_l in N5.
  pose proof (Z.mod_pos_bound a2 (2 ^ 4) ltac:(done)) as Hb2.
  change (2 ^ 4) with 16 in *. change (2 ^ 8) with 256 in *.
  assert (a2 mod 16 = 0) as -> by lia. cbn [Z.mul Z.eqb negb orb andb Z.leb Z.compare].
  f_equal. apply (spell_inj 256); [done|done|done|by rewrite Hl2|lia].
Qed.

Definition charset_check (v : Z) : bool :=
  (byte_of (charset_at v) <? 128) && (IndexByte bech32Charset (byte_of (charset_at v) mod 256) =? v)
  && (ascii_lower (byte_of (charset_at v)) =? byte_of (charset_at v))
  && negb (byte_of (charset_at v) =? 49).

Lemma charset_table : forallb charset_check (zrange 0 31) = true.
Proof. vm_compute. reflexivity. Qed.

Lemma charset_spec v : 0 ≤ v < 32 →
  byte_of (charset_at v) < 128 ∧ IndexByte bech32Charset (byte_of (charset_at v) mod 256) = v ∧
  ascii_lower (byte_of (charset_at v)) = byte_of (charset_at v) ∧ byte_of (charset_at v) ≠ 49.
Proof.
  intros Hv. pose proof (forallb_zrange charset_check 0 31 v charset_table ltac:(lia)) as H.
  unfold charset_check in H. rewrite !andb_true_iff, negb_true_iff, Z.ltb_lt, !Z.eqb_eq, Z.eqb_neq in H. tauto.
Qed.

Lemma runes_ascii a s : byte_of a < 128 → runes (String a s) = Rune (byte_of a) (String a "") :: runes s.
Proof. intros Ha. cbn [runes]. by rewrite (proj2 (Z.ltb_lt _ _) Ha). Qed.

Lemma decode_values_encode vs :
  digits 32 vs → decode_values (runes (string_of_chars (charset_at <$> vs))) = Some vs.
Proof.
  induction 1 as [|v vs Hv _ IH]; [done|]. rewrite fmap_cons. cbn [string_of_chars].
  destruct (charset_spec v Hv) as (H1 & H2 & _). rewrite runes_ascii by done.
  cbn [decode_values rune_code rune_src String.length pred repeat app]. rewrite H2.
  rewrite (proj2 (Z.ltb_ge v 0)) by lia. by rewrite IH.
Qed.

Lemma length_chars l : String.length (string_of_chars l) = List.length l.
Proof. induction l; cbn; congruence. Qed.

Lemma last_index_app s t b i last :
  last_index_go (s +:+ t) b i last
  = last_index_go t b (i + len s) (last_index_go s b i last).
Proof.
  revert i last. induction s as [|a s IH]; intros i last; cbn; [by rewrite Z.add_0_r|].
  rewrite IH. f_equal. unfold len. cbn [String.length]. lia.
Qed.

Lemma last_index_none s b i last :
  Forall (λ x, x ≠ b) (bytes_of s) → last_index_go s b i last = last.
Proof.
  revert i last. induction s as [|a s IH]; intros i last H; [done|]. cbn in *. inversion H; subst.
  destruct (Z.eqb_spec (byte_of a) b); [done|]. by apply IH.
Qed.

Lemma substring_app_r s t n : String.substring (String.length s) n (s +:+ t) = String.substring 0 n t.
Proof. by induction s. Qed.

Lemma substring_all t : String.substring 0 (String.length t) t = t.
Proof. induction t; cbn; congruence. Qed.

Lemma substring_app_l s t : String.substring 0 (String.length s) (s +:+ t) = s.
Proof. induction s; cbn; [by destruct t|congruence]. Qed.

Lemma slice_app_l s t : slice (s +:+ t) 0 (len s) = s.
Proof. unfold slice, len. rewrite Z.sub_0_r, Nat2Z.id. apply substring_app_l. Qed.

Lemma slice_app_r s t n : n = len s + len t → slice (s +:+ t) (len s) n = t.
Proof.
  intros ->. unfold slice, len. rewrite Nat2Z.id.
  replace (Z.to_nat _) with (String.length t) by lia. rewrite substring_app_r. apply substring_all.
Qed.

Lemma bytes_of_chars l : bytes_of (string_of_chars l) = byte_of <$> l.
Proof. induction l; cbn; congruence. Qed.

Lemma lower_fixed s : Forall (λ b, ascii_lower b = b) (bytes_of s) → str_map ascii_lower s = s.
Proof.
  induction s as [|a s IH]; [done|]. cbn. intros H. inversion H; subst. rewrite IH by done. f_equal.
  rewrite H2. unfold char, byte_of. rewrite N2Z.id. apply ascii_N_embedding.
Qed.

Lemma bech32_round_trip `{GoUnicode} data :
  digits 32 data → (1 <= List.length data)%nat →
  bech32Decode (bech32Encode "npub" data) = Some ("npub", data).
Proof.
  intros Hd Hl. destruct (bech32_checksum_verifies "npub" data Hd) as [Hver Hcs].
  set (all := data ++ bech32Checksum "npub" data). assert (digits 32 all) as Hall by by apply Forall_app_2.
  assert (List.length (bech32Checksum "npub" data) = 6%nat) as Hc6 by done.
  set (tl := string_of_chars (charset_at <$> all)).
  assert (len tl = Z.of_nat (List.length data) + 6) as Htl.
  { unfold len, tl. rewrite length_chars, length_fmap. unfold all. rewrite length_app, Hc6. lia. }
  assert (bech32Encode "npub" data = "npub1" +:+ tl) as -> by done.
  assert (Forall (λ b, b < 128 ∧ ascii_lower b = b ∧ b ≠ 49) (bytes_of tl)) as Hb.
  { unfold tl. rewrite bytes_of_chars. apply Forall_fmap, Forall_fmap. eapply Forall_impl; [exact Hall|].
    intros v Hv. cbn. destruct (charset_spec v Hv) as (? & _ & ? & ?). done. }
  assert (len ("npub1" +:+ tl) = 5 + len tl) as Hlen by (unfold len; rewrite str_app_length; cbn; lia).
  unfold bech32Decode.
  assert (ToLower ("npub1" +:+ tl) = "npub1" +:+ tl) as ->.
  { unfold ToLower. assert (is_ascii ("npub1" +:+ tl) = true) as ->.
    - unfold is_ascii. rewrite bytes_of_app, forallb_app. apply andb_true_iff. split; [done|].
      apply forallb_elem. intros b Hin. rewrite Forall_forall in Hb. apply Z.ltb_lt. by apply Hb.
    - apply lower_fixed. rewrite bytes_of_app. apply Forall_app_2; [repeat constructor|].
      eapply Forall_impl; [exact Hb|]. by intros b (_ & ? & _). }
  rewrite String.eqb_refl, Hlen. rewrite (proj2 (Z.ltb_ge (5 + len tl) 8)) by lia. cbn [negb orb].
  assert (LastIndexByte ("npub1" +:+ tl) 49 = 4) as ->.
  { unfold LastIndexByte. rewrite last_index_app. rewrite last_index_none; [done|].
    eapply Forall_impl; [exact Hb|]. by intros b (_ & _ & ?). }
  cbv zeta. rewrite (proj2 (Z.ltb_ge 4 1)), (proj2 (Z.ltb_ge (5 + len tl) (4 + 7))) by lia. cbn [orb].
  assert (slice ("npub1" +:+ tl) 0 4 = "npub") as -> by apply (slice_app_l "npub" ("1" +:+ tl)).
  assert (slice ("npub1" +:+ tl) (4 + 1) (5 + len tl) = tl) as -> by (apply (slice_app_r "npub1" tl); done).
  unfold tl. rewrite decode_values_encode by done. cbn [mbind option_bind].
  unfold all. rewrite Hver. cbn [negb]. rewrite length_app, Hc6.
  do 2 f_equal. rewrite Nat.add_sub. apply take_app_length.
Qed.

Lemma npub_round_trip `{GoUnicode} key :
  List.length key = 32%nat → digits 256 key → decodeNpub (encodeNpub key) = Some key.
Proof.
  intros Hl Hk. destruct (convert_round_trip key Hl Hk) as (groups & E1 & Hg & Hgl & E2).
  unfold decodeNpub, encodeNpub. rewrite E1. cbn [default from_option id].
  rewrite bech32_round_trip by (done || lia). cbn. rewrite E2. by rewrite Hl.
Qed.

(** ** Base 36 *)

Definition base_check (d : Z) : bool :=
  (byte_of (base_digit d) <? 128) && (digit_of (byte_of (base_digit d)) =? d) && base36_byte (byte_of (base_digit d)).

Lemma base_table : forallb base_check (zrange 0 35) = true.
Proof. vm_compute. reflexivity. Qed.

Lemma base_digit_spec d : 0 ≤ d < 36 →
  digit_of (byte_of (base_digit d)) = d ∧ base36_byte (byte_of (base_digit d)) = true.
Proof.
  intros Hd. pose proof (forallb_zrange base_check 0 35 d base_table ltac:(lia)) as H.
  unfold base_check in H. rewrite !andb_true_iff, Z.eqb_eq in H. tauto.
Qed.

(** The text of a digit list. *)
Definition text (ds : list Z) : string := string_of_chars (base_digit <$> ds).

Lemma length_text ds : len (text ds) = Z.of_nat (List.length ds).
Proof. unfold len, text. by rewrite length_chars, length_fmap. Qed.

Lemma text_app ds es : text (ds ++ es) = text ds +:+ text es.
Proof. unfold text. rewrite fmap_app. induction (base_digit <$> ds) as [|c cs IH]; [done|]. cbn. by rewrite IH. Qed.

Lemma bytes_text ds : bytes_of (text ds) = (λ d, byte_of (base_digit d)) <$> ds.
Proof. unfold text. rewrite bytes_of_chars, <-list_fmap_compose. done. Qed.

Lemma big_of_text b ds : b ≤ 36 → digits b ds → big_of (text ds) b = spell b ds.
Proof.
  intros Hb Hd. unfold big_of, spell. rewrite bytes_text. generalize 0 as a.
  induction Hd as [|d ds Hd _ IH]; intros a; [done|]. rewrite fmap_cons. cbn [fold_left].
  destruct (base_digit_spec d) as [-> _]; [lia|]. apply IH.
Qed.

Lemma text_go_spec b fuel z acc :
  2 ≤ b → 0 ≤ z < 2 ^ Z.of_nat fuel → (1 <= fuel)%nat →
  ∃ ds, text_go fuel b z acc = text ds +:+ acc ∧ digits b ds ∧ spell b ds = z ∧
    ∀ n, 1 ≤ n → z < b ^ n → Z.of_nat (List.length ds) ≤ n.
Proof.
  intros Hb. revert z acc. induction fuel as [|fuel IH]; intros z acc Hz Hf; [lia|]. cbn [text_go].
  pose proof (Z.mod_pos_bound z b ltac:(lia)) as Hmod. pose proof (Z.div_mod z b ltac:(lia)) as Hdm.
  destruct (Z.eqb_spec (z / b) 0) as [E|E].
  - exists [z mod b]. split_and!; [done|constructor; [lia|constructor]|unfold spell; cbn; lia|]. intros n Hn _. cbn. lia.
  - rewrite Nat2Z.inj_succ, Z.pow_succ_r in Hz by lia.
    assert (0 ≤ z / b) by (apply Z.div_pos; lia).
    assert (z / b < 2 ^ Z.of_nat fuel) by (apply Z.div_lt_upper_bound; nia).
    destruct fuel as [|fuel]; [cbn in *; lia|].
    destruct (IH (z / b) (String (base_digit (z mod b)) acc) ltac:(lia) ltac:(lia)) as (ds & E1 & E2 & E3 & E4).
    exists (ds ++ [z mod b]). split_and!.
    + rewrite E1, text_app, str_app_assoc. done.
    + apply Forall_app_2; [done|]. constructor; [lia|constructor].
    + rewrite spell_app, E3. unfold spell. cbn [List.length fold_left]. rewrite Z.pow_1_r. lia.
    + intros n Hn Hzn. rewrite length_app. cbn [List.length].
      destruct (Z.eq_dec n 1) as [->|Hn1].
      { rewrite Z.pow_1_r in Hzn. by rewrite Z.div_small in E by lia. }
      assert (Z.of_nat (List.length ds) ≤ n - 1); [|lia]. apply E4; [lia|].
      apply Z.div_lt_upper_bound; [lia|]. rewrite <-Z.pow_succ_r by lia. by rewrite Z.sub_1_r, Z.succ_pred.
Qed.

Lemma repeat_zero_text n : repeat_str "0" n = text (repeat 0 (Z.to_nat n)).
Proof. unfold repeat_str. induction (Z.to_nat n) as [|k IH]; [done|]. cbn. by rewrite IH. Qed.

(** Zero-padded text has exactly the width, for a number that fits. *)
Lemma fixed_width b z n :
  2 ≤ b ≤ 36 → 1 ≤ n → 0 ≤ z < b ^ n →
  ∃ ds, repeat_str "0" (n - len (big_text z b)) +:+ big_text z b = text ds ∧ digits b ds ∧
    Z.of_nat (List.length ds) = n ∧ spell b ds = z.
Proof.
  intros Hb Hn Hz.
  assert (0 ≤ z < 2 ^ Z.of_nat (S (Z.to_nat (Z.log2 z)))) as Hfuel.
  { split; [lia|]. rewrite Nat2Z.inj_succ, Z2Nat.id by apply Z.log2_nonneg.
    destruct (Z.eq_dec z 0) as [->|]; [done|]. apply Z.log2_spec; lia. }
  destruct (text_go_spec b _ z "" ltac:(lia) Hfuel ltac:(lia)) as (ds & E1 & E2 & E3 & E4).
  unfold big_text. rewrite E1, str_app_nil_r. specialize (E4 n Hn ltac:(lia)).
  exists (repeat 0 (Z.to_nat (n - Z.of_nat (List.length ds))) ++ ds). split_and!.
  - by rewrite length_text, repeat_zero_text, text_app.
  - apply Forall_app_2; [|done]. apply Forall_forall. intros x Hx%list_elem_of_In%repeat_spec. lia.
  - rewrite length_app, repeat_length. lia.
  - by rewrite spell_zeros.
Qed.

Lemma hex_text_check : forallb (λ b, if is_digit b || in_range 97 b 102
    then (0 <=? digit_of b) && (digit_of b <? 16) && (byte_of (base_digit (digit_of b)) =? b) else true) (zrange 0 255) = true.
Proof. vm_compute. reflexivity. Qed.

(** Lowercase hexadecimal is the text of its digits. *)
Lemma hex_text s : isHex s = true →
  ∃ ds, s = text ds ∧ digits 16 ds ∧ List.length ds = String.length s.
Proof.
  induction s as [|a s IH]; cbn; intros H; [exists []; split_and!; [done|constructor|done]|]. apply andb_true_iff in H as [Ha Hs].
  destruct (IH Hs) as (ds & -> & Hd & Hl).
  assert (0 ≤ byte_of a ≤ 255) as Hr by (pose proof (byte_of_range a); lia).
  pose proof (forallb_zrange _ 0 255 (byte_of a) hex_text_check Hr) as Hc. cbn beta in Hc.
  unfold is_digit in Hc. rewrite Ha in Hc. rewrite !andb_true_iff, Z.leb_le, Z.ltb_lt, Z.eqb_eq in Hc.
  destruct Hc as [[? ?] Hc]. exists (digit_of (byte_of a) :: ds). split_and!.
  - unfold text. rewrite fmap_cons. cbn [string_of_chars]. f_equal. symmetry. by apply byte_of_inj.
  - by constructor.
  - cbn. by rewrite Hl.
Qed.

Lemma Base36_spec v : hex64 v = true →
  ∃ ds, Base36 v = Some (text ds) ∧ digits 36 ds ∧ List.length ds = 50%nat ∧ spell 36 ds < 2 ^ 256 ∧
    Unbase36 (text ds) = Some v.
Proof.
  intros Hv. assert (isHex v = true ∧ String.length v = 64%nat) as [Hh Hlen].
  { unfold hex64, len in Hv. apply andb_true_iff in Hv as [Hl ?]. split; [done|]. apply Z.eqb_eq in Hl. lia. }
  destruct (hex_text v Hh) as (hs & Ev & Hd & Hl). rewrite Hlen in Hl.
  pose proof (spell_bound 16 hs ltac:(lia) Hd) as Hb. rewrite Hl in Hb. change (16 ^ Z.of_nat 64) with (2 ^ 256) in Hb.
  assert (big_of v 16 = spell 16 hs) as Hbig by (rewrite Ev; apply big_of_text; [lia|done]).
  assert (2 ^ 256 < 36 ^ 50) as H36 by (vm_compute; reflexivity).
  destruct (fixed_width 36 (spell 16 hs) 50 ltac:(lia) ltac:(lia) ltac:(lia)) as (ds & E & Dd & Dl & Ds).
  exists ds. unfold Base36, hexPattern. rewrite Hv. cbn [negb]. rewrite Hbig, E.
  split_and!; [done|done|lia|lia|].
  unfold Unbase36. rewrite length_text, Dl. cbn [negb Z.eqb Pos.eqb orb].
  assert (forallb base36_byte (bytes_of (text ds)) = true) as ->.
  { apply forallb_elem. intros b Hin. rewrite bytes_text in Hin. apply list_elem_of_fmap in Hin as (d & -> & Hin).
    unfold digits in Dd. rewrite Forall_forall in Dd. apply base_digit_spec. by apply Dd. }
  cbn [negb orb]. rewrite big_of_text, Ds by (done || lia). cbv zeta.
  rewrite (proj2 (Z.leb_gt _ _)) by lia. f_equal. unfold hex64_of.
  destruct (fixed_width 16 (spell 16 hs) 64 ltac:(lia) ltac:(lia) ltac:(change (16 ^ 64) with (2 ^ 256); lia))
    as (es & E' & De & Le & Se).
  cbv zeta. rewrite E', Ev. f_equal. apply (spell_inj 16); [lia|done|done|lia|done].
Qed.

(** A 50-digit key below 2^256 starts with a digit below seven. *)
Lemma first_digit_low ds : digits 36 ds → List.length ds = 50%nat → spell 36 ds < 2 ^ 256 →
  ∃ d rest, text ds = String (base_digit d) rest ∧ 0 ≤ d < 7.
Proof.
  intros Hd Hl Hs. destruct ds as [|d ds]; [done|]. inversion Hd; subst. injection Hl as Hl.
  exists d, (text ds). split; [done|].
  rewrite spell_cons, Hl in Hs. pose proof (spell_bound 36 ds ltac:(lia) ltac:(done)).
  assert (2 ^ 256 < 7 * 36 ^ Z.of_nat 49) by (vm_compute; reflexivity). nia.
Qed.

Lemma not_prefix d rest p c : 0 ≤ d < 7 → byte_of c > 60 → HasPrefix (String (base_digit d) rest) (String c p) = false.
Proof.
  intros Hd Hc. unfold HasPrefix. cbn [String.prefix]. destruct (ascii_dec c (base_digit d)) as [->|]; [|done].
  exfalso. assert (byte_of (base_digit d) <=? 60 = true) as Hb; [|apply Z.leb_le in Hb; lia].
  apply (forallb_zrange (λ d, byte_of (base_digit d) <=? 60) 0 6); [vm_compute; reflexivity|lia].
Qed.

(** ** Labels *)

(** The Nostr library's keys: parsing lowercase hexadecimal gives 32 bytes
    whose [Hex] is the input. *)
Class NostrKeysLaws `{NostrKeys} :=
  pubkey_law s k : pubkey_from_hex s = Some k → hex64 s = true →
    pubkey_hex k = s ∧ List.length k = 32%nat ∧ digits 256 k.

Lemma substring_app_plus s t k n : String.substring (String.length s + k) n (s +:+ t) = String.substring k n t.
Proof. by induction s. Qed.

Lemma HasSuffix_app s t p : (String.length p <= String.length t)%nat → HasSuffix (s +:+ t) p = HasSuffix t p.
Proof.
  intros Hl. unfold HasSuffix. rewrite str_app_length.
  replace (String.length s + String.length t - String.length p)%nat
    with (String.length s + (String.length t - String.length p))%nat by lia.
  rewrite substring_app_plus. f_equal.
  rewrite (proj2 (Nat.leb_le _ _) Hl). apply Nat.leb_le. lia.
Qed.

Lemma tagsNamed_Tag e n t v rest : tagsNamed e n = [t :: v :: rest] → Tag e n = v.
Proof.
  unfold tagsNamed, Tag. induction (etags e) as [|tag l IH]; [done|]. cbn [List.filter].
  destruct tag as [|m [|w r]]; [exact IH| |].
  - destruct (String.eqb_spec m n) as [->|]; [intros [=]|exact IH].
  - cbn [tag_first]. destruct (String.eqb_spec m n) as [->|]; [|exact IH]. by intros [= _ -> _ _].
Qed.

Lemma namePattern_len d : namePattern d = true → (1 <= String.length d <= 13)%nat.
Proof. unfold namePattern, len. rewrite !andb_true_iff, !Z.leb_le. lia. Qed.

Lemma ValidateManifest_named e :
  Kind e = KindNamedSite → ValidateManifest e = Ok tt → namePattern (Tag e "d") = true.
Proof.
  intros Hk Hv. unfold ValidateManifest in Hv. rewrite Hk in Hv. cbn [negb andb] in Hv.
  apply result_bind_Ok in Hv as ([] & Hd & _). unfold site_d_tag in Hd. rewrite Hk in Hd. cbn in Hd.
  destruct (tagsNamed e "d") as [|[|n [|v rest]] [|]] eqn:E; try done.
  apply guard_Ok_tt, negb_false_iff in Hd. by rewrite (tagsNamed_Tag _ _ _ _ _ E).
Qed.

(** C31: the host label of a valid site manifest parses back to that site: an
    npub label to the author's site, a named-site label to the author and
    name (unless the name ends in a dash), a snapshot label to the snapshot. *)
Theorem ParseSite_SiteLabel `{NostrKeys, !NostrKeysLaws, GoUnicode} e :
  wire_shape e → ValidateManifest e = Ok tt →
  Kind e ∈ [KindSite; KindNamedSite; KindSiteSnapshot] →
  (Kind e = KindSite → is_Some (pubkey_from_hex (PubKey e))) →
  (Kind e = KindNamedSite → HasSuffix (Tag e "d") "-" = false) →
  ParseSite (SiteLabel e) = Some
    (if Kind e =? KindSite then mkSite KindSite (PubKey e) "" ""
     else if Kind e =? KindNamedSite then mkSite KindNamedSite (PubKey e) (Tag e "d") ""
     else mkSite KindSiteSnapshot "" "" (ID e)).
Proof.
  intros (Hid & Hpk & _) Hv Hk Hkey Hdash. unfold SiteLabel.
  destruct (Z.eqb_spec (Kind e) KindSite) as [E|E].
  { destruct (Hkey E) as [key Ek]. rewrite Ek. destruct (pubkey_law _ _ Ek Hpk) as (Eh & Hl & Hd).
    unfold ParseSite. assert (HasPrefix (encodeNpub key) "npub1" = true) as ->.
    { unfold encodeNpub, bech32Encode. generalize (string_of_chars (charset_at <$> (default [] (convertBits key 8 5 true)
        ++ bech32Checksum "npub" (default [] (convertBits key 8 5 true))))). by intros []. }
    by rewrite npub_round_trip, Eh. }
  destruct (Z.eqb_spec (Kind e) KindNamedSite) as [E'|E'].
  - pose proof (ValidateManifest_named e E' Hv) as Hn. pose proof (namePattern_len _ Hn) as Hnl.
    destruct (Base36_spec (PubKey e) Hpk) as (ds & -> & Hd & Hl & Hb & Hu).
    destruct (first_digit_low ds Hd Hl Hb) as (d & rest & Et & Hlow).
    pose proof (length_text ds) as Hlt. rewrite Hl in Hlt.
    unfold ParseSite. rewrite Et at 1. cbn [String.append]. rewrite not_prefix by done.
    rewrite Et at 1. cbn [String.append]. rewrite not_prefix by done. cbn [andb].
    assert (len (text ds +:+ Tag e "d") = 50 + len (Tag e "d")) as Hlen
      by (unfold len in *; rewrite str_app_length; lia).
    rewrite HasSuffix_app by (cbn; lia). rewrite (Hdash E'), Hlen.
    rewrite (proj2 (Z.ltb_ge _ 51)), (proj2 (Z.ltb_ge 63 _)) by (unfold len; lia). cbn [orb].
    assert (slice (text ds +:+ Tag e "d") 0 50 = text ds) as ->.
    { change 50 with (Z.of_nat 50). rewrite <-Hlt. apply slice_app_l. }
    rewrite Hu.
    assert (slice (text ds +:+ Tag e "d") 50 (50 + len (Tag e "d")) = Tag e "d") as ->.
    { change 50 with (Z.of_nat 50). rewrite <-Hlt. apply slice_app_r. lia. }
    cbv zeta. by rewrite Hn.
  - assert (Kind e = KindSiteSnapshot) as E2.
    { rewrite !elem_of_cons in Hk. destruct Hk as [?|[?|[?|Hk]]]; try done. by apply not_elem_of_nil in Hk. }
    rewrite E2. cbn [Z.eqb Pos.eqb]. change (KindSiteSnapshot =? KindSiteSnapshot) with true. cbv iota.
    destruct (Base36_spec (ID e) Hid) as (ds & -> & Hd & Hl & Hb & Hu).
    pose proof (length_text ds) as Hlt. rewrite Hl in Hlt.
    unfold ParseSite. assert (HasPrefix ("v" +:+ text ds) "npub1" = false) as -> by done.
    assert (HasPrefix ("v" +:+ text ds) "v" = true) as -> by (cbn; by destruct (text ds)).
    assert (len ("v" +:+ text ds) = 51) as -> by (unfold len in *; rewrite str_app_length; cbn; lia).
    cbn [andb Z.eqb Pos.eqb].
    assert (slice ("v" +:+ text ds) 1 51 = text ds) as ->.
    { apply (slice_app_r "v" (text ds)). by rewrite Hlt. }
    by rewrite Hu.
Qed.

(** ** Corners *)

Definition toy_keys : NostrKeys :=
  {| pubkey_from_hex s := if hex64 s then hex_decode s else None; pubkey_hex := hex_encode |}.

Definition blob_hash : string := repeat_char 64 "c".
Definition site_event (kind : Z) (tags : list (list string)) : Event :=
  sample_event "1" sample_pk kind 100 (tags ++ [["path"; "/index.html"; blob_hash]]).

(** A named-site manifest whose d tag has no value is well shaped on the
    wire, and validating it panics. *)
Theorem d_tag_without_value_panics :
  let e := site_event KindNamedSite [["d"]] in
  wire_shape e ∧ ValidateManifest e = Err "runtime error: index out of range [1] with length 1".
Proof. split; [shape|vm_compute; reflexivity]. Qed.

(** A named site may be called with a trailing dash, but its host label
    resolves to no site. *)
Theorem trailing_dash_unreachable :
  let e := site_event KindNamedSite [["d"; "blog-"]] in
  ValidateManifest e = Ok tt ∧ @ParseSite toy_keys ascii_unicode (@SiteLabel toy_keys e) = None.
Proof. split; vm_compute; reflexivity. Qed.

(** The label with its last two q replaced by the two bytes of U+0171. *)
Definition zero_key : list Z := repeat 0 32.
Definition lookalike_label : string :=
  "npub1" +:+ repeat_char 50 "q" +:+ string_of_bytes [197; 177] +:+ slice (encodeNpub zero_key) 57 63.

(** A label with a non-ASCII letter decodes to the same key as the ASCII
    label: the decoder truncates each character to its low byte. *)
Theorem lookalike_label_decodes :
  lookalike_label ≠ encodeNpub zero_key ∧
  @decodeNpub ascii_unicode lookalike_label = Some zero_key ∧
  @decodeNpub ascii_unicode (encodeNpub zero_key) = Some zero_key.
Proof. split_and!; [by intros H; vm_compute in H|vm_compute; reflexivity..]. Qed.

Lemma from_hex_check : forallb (λ b, if in_range 48 b 57 || in_range 97 b 102
    then match from_hex b with Some h => (0 <=? h) && (h <? 16) && (byte_of (hex_digit h) =? b) | None => false end
    else true) (zrange 0 255) = true.
Proof. vm_compute. reflexivity. Qed.

Lemma from_hex_lower a : in_range 48 (byte_of a) 57 || in_range 97 (byte_of a) 102 = true →
  ∃ h, from_hex (byte_of a) = Some h ∧ 0 ≤ h < 16 ∧ hex_digit h = a.
Proof.
  intros Ha. assert (0 ≤ byte_of a ≤ 255) as Hr by (pose proof (byte_of_range a); lia).
  pose proof (forallb_zrange _ 0 255 (byte_of a) from_hex_check Hr) as Hc. cbn beta in Hc. rewrite Ha in Hc.
  destruct (from_hex (byte_of a)) as [h|]; [|done].
  rewrite !andb_true_iff, Z.leb_le, Z.ltb_lt, Z.eqb_eq in Hc. destruct Hc as [[? ?] Hc].
  exists h. split_and!; [done|lia|lia|by apply byte_of_inj].
Qed.

Lemma join_check : forallb (λ h, forallb (λ l, (Z.shiftr (Z.lor (Z.shiftl h 4) l) 4 =? h)
    && (Z.land (Z.lor (Z.shiftl h 4) l) 15 =? l) && (0 <=? Z.lor (Z.shiftl h 4) l)
    && (Z.lor (Z.shiftl h 4) l <? 256)) (zrange 0 15)) (zrange 0 15) = true.
Proof. vm_compute. reflexivity. Qed.

(** Lowercase hexadecimal of even length survives decoding. *)
Lemma hex_encode_decode n s : String.length s = (2 * n)%nat → isHex s = true →
  ∃ l, hex_decode s = Some l ∧ hex_encode l = s ∧ digits 256 l ∧ List.length l = n.
Proof.
  revert s. induction n as [|n IH]; intros s Hl Hh.
  { destruct s; [|done]. exists []. split_and!; [done|done|constructor|done]. }
  destruct s as [|a [|b s]]; [done|cbn in Hl; lia|]. cbn in Hh. rewrite !andb_true_iff in Hh.
  destruct Hh as (Ha & Hb & Hs). destruct (IH s) as (l & E & El & Hd & Hn); [cbn in Hl; lia|done|].
  destruct (from_hex_lower a Ha) as (h & Eh & Hhr & Eha). destruct (from_hex_lower b Hb) as (k & Ek & Hkr & Ekb).
  pose proof (forallb_zrange _ 0 15 h join_check ltac:(lia)) as Hc. cbn beta in Hc.
  apply (forallb_zrange _ 0 15 k) in Hc; [|lia]. cbn beta in Hc.
  rewrite !andb_true_iff, !Z.eqb_eq, Z.leb_le, Z.ltb_lt in Hc. destruct Hc as [[[H1 H2] H3] H4].
  exists (Z.lor (Z.shiftl h 4) k :: l). split_and!.
  - cbn [hex_decode]. rewrite Eh, Ek, E. done.
  - cbn [hex_encode]. by rewrite H1, H2, Eha, Ekb, El.
  - constructor; [done|done].
  - cbn. by rewrite Hn.
Qed.

Lemma toy_keys_laws : @NostrKeysLaws toy_keys.
Proof.
  intros s k Hk Hs. cbn in *. rewrite Hs in Hk. unfold hex64, len in Hs. apply andb_true_iff in Hs as [Hl Hh].
  apply Z.eqb_eq in Hl. destruct (hex_encode_decode 32 s ltac:(lia) Hh) as (l & E & El & Hd & Hn).
  rewrite E in Hk. injection Hk as <-. done.
Qed.

Lemma ParseSite_SiteLabel_witness :
  let e := site_event KindNamedSite [["d"; "blog"]] in
  @ParseSite toy_keys ascii_unicode (@SiteLabel toy_keys e) = Some (mkSite KindNamedSite sample_pk "blog" "").
Proof.
  apply (@ParseSite_SiteLabel toy_keys toy_keys_laws ascii_unicode (site_event KindNamedSite [["d"; "blog"]])).
  - shape.
  - vm_compute. reflexivity.
  - apply list_elem_of_further, list_elem_of_here.
  - discriminate.
  - reflexivity.
Defined.
