(* ===== verification/Roster.v ===== *)
(** * internal/community: the tables of the roster, the rooms and moderation

    The rows of the community schema and the statements on the members table
    with the triggers that keep the slug room in step with it.  A table with a
    single primary key is a finite map.  The triggers that only enqueue a
    records projection (rows with random identifiers in the work queue) are not
    modelled. *)

From S2P Require Import Prelude GoLib GoCodec Nostr.

(** ** Rows *)

Record Member := mkMember {
  M_Name : string; M_Note : string; M_Role : string; M_InvitedBy : string; M_Via : string;
  M_CreatedAt : Z; M_KeepDays : Z }.
Record Invite := mkInvite {
  I_CreatedBy : string; I_CreatedAt : Z; I_ExpiresAt : Z; I_MaxUses : Z; I_Uses : Z; I_Note : string }.
Record JoinRequest := mkJoinRequest {
  J_Reason : string; J_RequestedAt : Z; J_Status : string; J_DecidedBy : string; J_DecidedAt : Z }.
Record Report := mkReport {
  Rep_ID : Z; Rep_Reporter : string; Rep_Target : string; Rep_Type : string; Rep_Content : string; Rep_At : Z;
  Rep_Status : string; Rep_ResolvedBy : string; Rep_ResolvedAt : Z; Rep_Action : string }.
Record Room := mkRoom {
  R_ID : string; R_Name : string; R_About : string; R_Picture : string; R_Access : string;
  R_CreatedBy : string; R_CreatedAt : Z; R_EventID : string; R_DeletedAt : Z }.
Record RoomMember := mkRoomMember { RM_Role : string; RM_AddedAt : Z }.

(** A reason and when it was recorded. *)
Notation Reasoned := (string * Z)%type.

Record Roster := mkRoster {
  r_members : gmap string Member;
  r_bans : gmap string Reasoned;
  r_event_bans : gmap string Reasoned;
  r_ip_blocks : gmap string Reasoned;
  r_retention : gmap Z Z;
  r_kind_rules : gmap Z string;
  r_invites : gmap string Invite;
  r_reports : list Report;
  r_meta : gmap string string;
  r_requests : gmap string JoinRequest;
  r_rooms : gmap string Room;
  r_room_members : gmap (string * string) RoomMember;
}.

Definition empty_roster : Roster := mkRoster ∅ ∅ ∅ ∅ ∅ ∅ ∅ [] ∅ ∅ ∅ ∅.

Definition upd_members (f : gmap string Member → gmap string Member) (t : Roster) : Roster :=
  mkRoster (f (r_members t)) (r_bans t) (r_event_bans t) (r_ip_blocks t) (r_retention t) (r_kind_rules t) (r_invites t)
    (r_reports t) (r_meta t) (r_requests t) (r_rooms t) (r_room_members t).
Definition upd_bans (f : gmap string Reasoned → gmap string Reasoned) (t : Roster) : Roster :=
  mkRoster (r_members t) (f (r_bans t)) (r_event_bans t) (r_ip_blocks t) (r_retention t) (r_kind_rules t) (r_invites t)
    (r_reports t) (r_meta t) (r_requests t) (r_rooms t) (r_room_members t).
Definition upd_event_bans (f : gmap string Reasoned → gmap string Reasoned) (t : Roster) : Roster :=
  mkRoster (r_members t) (r_bans t) (f (r_event_bans t)) (r_ip_blocks t) (r_retention t) (r_kind_rules t) (r_invites t)
    (r_reports t) (r_meta t) (r_requests t) (r_rooms t) (r_room_members t).
Definition upd_ip_blocks (f : gmap string Reasoned → gmap string Reasoned) (t : Roster) : Roster :=
  mkRoster (r_members t) (r_bans t) (r_event_bans t) (f (r_ip_blocks t)) (r_retention t) (r_kind_rules t) (r_invites t)
    (r_reports t) (r_meta t) (r_requests t) (r_rooms t) (r_room_members t).
Definition upd_retention (f : gmap Z Z → gmap Z Z) (t : Roster) : Roster :=
  mkRoster (r_members t) (r_bans t) (r_event_bans t) (r_ip_blocks t) (f (r_retention t)) (r_kind_rules t) (r_invites t)
    (r_reports t) (r_meta t) (r_requests t) (r_rooms t) (r_room_members t).
Definition upd_kind_rules (f : gmap Z string → gmap Z string) (t : Roster) : Roster :=
  mkRoster (r_members t) (r_bans t) (r_event_bans t) (r_ip_blocks t) (r_retention t) (f (r_kind_rules t)) (r_invites t)
    (r_reports t) (r_meta t) (r_requests t) (r_rooms t) (r_room_members t).
Definition upd_invites (f : gmap string Invite → gmap string Invite) (t : Roster) : Roster :=
  mkRoster (r_members t) (r_bans t) (r_event_bans t) (r_ip_blocks t) (r_retention t) (r_kind_rules t) (f (r_invites t))
    (r_reports t) (r_meta t) (r_requests t) (r_rooms t) (r_room_members t).
Definition upd_reports (f : list Report → list Report) (t : Roster) : Roster :=
  mkRoster (r_members t) (r_bans t) (r_event_bans t) (r_ip_blocks t) (r_retention t) (r_kind_rules t) (r_invites t)
    (f (r_reports t)) (r_meta t) (r_requests t) (r_rooms t) (r_room_members t).
Definition upd_meta (f : gmap string string → gmap string string) (t : Roster) : Roster :=
  mkRoster (r_members t) (r_bans t) (r_event_bans t) (r_ip_blocks t) (r_retention t) (r_kind_rules t) (r_invites t)
    (r_reports t) (f (r_meta t)) (r_requests t) (r_rooms t) (r_room_members t).
Definition upd_requests (f : gmap string JoinRequest → gmap string JoinRequest) (t : Roster) : Roster :=
  mkRoster (r_members t) (r_bans t) (r_event_bans t) (r_ip_blocks t) (r_retention t) (r_kind_rules t) (r_invites t)
    (r_reports t) (r_meta t) (f (r_requests t)) (r_rooms t) (r_room_members t).
Definition upd_rooms (f : gmap string Room → gmap string Room) (t : Roster) : Roster :=
  mkRoster (r_members t) (r_bans t) (r_event_bans t) (r_ip_blocks t) (r_retention t) (r_kind_rules t) (r_invites t)
    (r_reports t) (r_meta t) (r_requests t) (f (r_rooms t)) (r_room_members t).
Definition upd_room_members (f : gmap (string * string) RoomMember → gmap (string * string) RoomMember) (t : Roster) : Roster :=
  mkRoster (r_members t) (r_bans t) (r_event_bans t) (r_ip_blocks t) (r_retention t) (r_kind_rules t) (r_invites t)
    (r_reports t) (r_meta t) (r_requests t) (r_rooms t) (f (r_room_members t)).

Definition member_role (m : Member) (role : string) : Member :=
  mkMember (M_Name m) (M_Note m) role (M_InvitedBy m) (M_Via m) (M_CreatedAt m) (M_KeepDays m).
Definition room_member_role (rm : RoomMember) (role : string) : RoomMember := mkRoomMember role (RM_AddedAt rm).

(** ** The triggers of the members table *)

(** [CASE role WHEN 'owner' THEN 'owner' WHEN 'moderator' THEN 'admin' ELSE 'member' END] *)
Definition mirror_role (role : string) : string :=
  if String.eqb role "owner" then "owner" else if String.eqb role "moderator" then "admin" else "member".

(** [SELECT value FROM community_meta WHERE key='rooms.slug'] *)
Definition slug_value (t : Roster) : option string := r_meta t !! "rooms.slug".

(** [INSERT ... ON CONFLICT(room_id,pubkey) DO UPDATE SET role=excluded.role] *)
Definition put_room_member (room pubkey role : string) (at_ : Z) (t : Roster) : Roster :=
  upd_room_members (λ rms, <[(room, pubkey) := match rms !! (room, pubkey) with
                                               | Some rm => room_member_role rm role
                                               | None => mkRoomMember role at_
                                               end]> rms) t.

Definition room_mirror_insert (pubkey role : string) (at_ : Z) (t : Roster) : Roster :=
  match slug_value t with
  | Some slug => put_room_member slug pubkey (mirror_role role) at_ t
  | None => t
  end.
Definition room_mirror_update (pubkey role : string) (t : Roster) : Roster :=
  match slug_value t with
  | Some slug => upd_room_members (alter (λ rm, room_member_role rm (mirror_role role)) (slug, pubkey)) t
  | None => t
  end.
Definition room_mirror_delete (pubkey : string) (t : Roster) : Roster :=
  upd_room_members (filter (λ kv, kv.1.2 ≠ pubkey)) t.

(** ** Statements on the members table *)

(** [INSERT INTO community_members] of a key that has no row *)
Definition insert_member (pubkey : string) (m : Member) (t : Roster) : Roster :=
  room_mirror_insert pubkey (M_Role m) (M_CreatedAt m) (upd_members (<[pubkey := m]>) t).
(** [UPDATE ... SET role=...] of a row *)
Definition update_member (pubkey : string) (m : Member) (t : Roster) : Roster :=
  room_mirror_update pubkey (M_Role m) (upd_members (<[pubkey := m]>) t).
(** [DELETE FROM community_members WHERE pubkey=?] *)
Definition delete_member (pubkey : string) (t : Roster) : Roster :=
  match r_members t !! pubkey with
  | Some _ => room_mirror_delete pubkey (upd_members (delete pubkey) t)
  | None => t
  end.

(** The unique index on nonempty names. *)
Definition name_taken (t : Roster) (pubkey name : string) : bool :=
  negb (String.eqb name "")
  && existsb (λ kv : string * Member, String.eqb (M_Name kv.2) name && negb (String.eqb kv.1 pubkey)) (map_to_list (r_members t)).

Definition Live (r : Room) : bool := negb (String.eqb (R_ID r) "") && (R_DeletedAt r =? 0).

(** ** What the statements do to the members themselves *)

Lemma members_insert pk m t : r_members (insert_member pk m t) = <[pk := m]> (r_members t).
Proof. unfold insert_member, room_mirror_insert, put_room_member. by destruct (slug_value _). Qed.
Lemma members_update pk m t : r_members (update_member pk m t) = <[pk := m]> (r_members t).
Proof. unfold update_member, room_mirror_update. by destruct (slug_value _). Qed.
Lemma members_delete pk t : r_members (delete_member pk t) = delete pk (r_members t).
Proof.
  unfold delete_member. destruct (r_members t !! pk) eqn:E; [done|]. by rewrite delete_id.
Qed.
