(* ===== verification/Agents.v ===== *)
(** * internal/community: agent grants (agents.go)

    A grant event (kind 30392) names an agent key, what it may publish and
    until when.  The mirror of grants is a map keyed by agent, the roster a
    map keyed by member; both are changed in the transaction that stores the
    event.  The scope column is the scope itself rather than its JSON. *)

From S2P Require Import Prelude GoLib GoCodec GoLemmas GoStrings Nostr Filter Policy Sites Roster.

Definition AgentRateDefault : Z := 60.
Definition AgentRateMax : Z := 600.
Definition AgentGrantMaxDays : Z := 365.
Definition AgentSiteTTLMax : Z := 365.
Definition agentNameMax : Z := 64.
Definition agentRoomMax : Z := 128.
Definition agentListMax : Z := 256.

Definition AgentRepoPropose : string := "propose".
Definition AgentRepoRead : string := "read".
Definition AgentRepoMaintain : string := "maintain".
Definition AgentJobsRequest : string := "request".
Definition AgentJobsServe : string := "serve".
Definition AgentJobsBoth : string := "both".

Record AgentRepo := mkAgentRepo { AR_Owner : string; AR_Identifier : string; AR_Level : string }.
Record AgentSite := mkAgentSite { AS_Label : string; AS_TTLDays : Z; AS_Encrypted : bool }.
Record AgentScope := mkScope {
  Sc_Kinds : list Z; Sc_Rooms : list string; Sc_Repos : list AgentRepo; Sc_Wiki : string; Sc_Jobs : string;
  Sc_Sites : list AgentSite; Sc_Rate : Z }.
Record AgentGrant := mkGrant {
  G_Agent : string; G_Owner : string; G_EventID : string; G_Name : string; G_ExpiresAt : Z;
  G_Paused : bool; G_RevokedAt : Z; G_Scope : AgentScope }.

Definition KIND_GIT_PATCH : Z := 1617.
Definition KIND_GIT_PR : Z := 1618.
Definition KIND_GIT_PR_UPDATE : Z := 1619.
Definition KIND_GIT_ISSUE : Z := 1621.
Definition KIND_WIKI_MERGE : Z := 818.
Definition KIND_WIKI_REDIRECT : Z := 30819.

(** ** What a grant covers *)

Definition Active (g : AgentGrant) (now : Z) : bool :=
  negb (G_Paused g) && (G_RevokedAt g =? 0) && (now <? G_ExpiresAt g).

Definition RequestsJobs (g : AgentGrant) : bool :=
  String.eqb (Sc_Jobs (G_Scope g)) AgentJobsRequest || String.eqb (Sc_Jobs (G_Scope g)) AgentJobsBoth.
Definition ServesJobs (g : AgentGrant) : bool :=
  String.eqb (Sc_Jobs (G_Scope g)) AgentJobsServe || String.eqb (Sc_Jobs (G_Scope g)) AgentJobsBoth.

Definition siteManifestKind (kind : Z) : bool := (kind =? KindSite) || (kind =? KindNamedSite).

Definition AllowsKind (g : AgentGrant) (kind : Z) : bool :=
  if (kind =? KIND_PROFILE) || (kind =? 10002) || (kind =? KIND_AUTH) then true
  else if containsInt (Sc_Kinds (G_Scope g)) kind then true
  else if (IsJobRequest kind || IsJobCancel kind) && RequestsJobs g then true
  else if IsJobAnswer kind && ServesJobs g then true
  else if siteManifestKind kind && negb (Nat.eqb (List.length (Sc_Sites (G_Scope g))) 0) then true
  else if String.eqb (Sc_Wiki (G_Scope g)) "propose" then
    (kind =? KIND_WIKI_ARTICLE) || (kind =? KIND_WIKI_MERGE)
  else if String.eqb (Sc_Wiki (G_Scope g)) "edit" then
    (kind =? KIND_WIKI_ARTICLE) || (kind =? KIND_WIKI_MERGE) || (kind =? KIND_WIKI_REDIRECT)
  else false.

Definition AllowsRoom (g : AgentGrant) (room : string) : bool := contains (Sc_Rooms (G_Scope g)) room.

Fixpoint repo_level (repos : list AgentRepo) (owner identifier : string) : string :=
  match repos with
  | [] => ""
  | r :: l => if String.eqb (AR_Owner r) owner && String.eqb (AR_Identifier r) identifier
              then AR_Level r else repo_level l owner identifier
  end.
Definition RepoLevel (g : AgentGrant) (owner identifier : string) : string :=
  repo_level (Sc_Repos (G_Scope g)) owner identifier.

Definition Maintains (g : AgentGrant) (owner identifier : string) (now : Z) : bool :=
  Active g now && String.eqb (RepoLevel g owner identifier) AgentRepoMaintain.
Definition Proposes (g : AgentGrant) (owner identifier : string) : bool :=
  String.eqb (RepoLevel g owner identifier) AgentRepoPropose.

Definition SiteEntries (g : AgentGrant) (label : string) : list AgentSite :=
  List.filter (λ s, String.eqb (AS_Label s) "*" || negb (String.eqb label "") && String.eqb (AS_Label s) label)
    (Sc_Sites (G_Scope g)).

Fixpoint longest_go (longest : Z) (l : list AgentSite) : Z :=
  match l with
  | [] => longest
  | s :: r => if AS_TTLDays s =? 0 then 0
              else longest_go (if longest <? AS_TTLDays s then AS_TTLDays s else longest) r
  end.
Definition longestTTL (entries : list AgentSite) : Z := longest_go 0 entries.
Definition UploadTTLDays (g : AgentGrant) : Z := longestTTL (Sc_Sites (G_Scope g)).
Definition UploadsEncrypted (g : AgentGrant) : bool := existsb AS_Encrypted (Sc_Sites (G_Scope g)).

Definition validPubKey (value : string) : bool := hex64 value.

Definition gitStatusKind (kind : Z) : bool := (1630 <=? kind) && (kind <=? 1633).
Definition gitKind (kind : Z) : bool :=
  (kind =? KIND_GIT_PATCH) || (kind =? KIND_GIT_PR) || (kind =? KIND_GIT_PR_UPDATE)
  || (kind =? KIND_GIT_ISSUE) || (kind =? 1111) || gitStatusKind kind.

Definition repository_coordinate (t : list string) : option (string * string) :=
  match t with
  | n :: v :: _ =>
    if String.eqb n "a" || String.eqb n "A" then
      match SplitN v (char 58) 3 with
      | [k; pk; d] => if String.eqb k (Itoa KIND_REPO) && validPubKey pk && negb (String.eqb d "")
                      then Some (pk, d) else None
      | _ => None
      end
    else None
  | _ => None
  end.
Definition repositoryCoordinates (e : Event) : list (string * string) := omap repository_coordinate (etags e).

Fixpoint check_coordinates (g : AgentGrant) (kind : Z) (l : list (string * string)) : result unit :=
  match l with
  | [] => mret tt
  | (owner, identifier) :: r =>
    let level := RepoLevel g owner identifier in
    guard_err (String.eqb level "")
      ("restricted: agent grant does not allow repository " +:+ owner +:+ ":" +:+ identifier);;
    guard_err (gitStatusKind kind && negb (String.eqb level AgentRepoMaintain))
      ("restricted: agent grant does not allow status changes in repository " +:+ owner +:+ ":" +:+ identifier);;
    check_coordinates g kind r
  end.

Section Check.
Context `{NostrKeys}.

Definition checkSite (g : AgentGrant) (e : Event) (now : Z) : result unit :=
  let label := SiteLabel e in
  let entries := SiteEntries g label in
  guard_err (Nat.eqb (List.length entries) 0) ("restricted: agent grant does not allow site " +:+ label);;
  let ttl := longestTTL entries in
  if ttl =? 0 then mret tt
  else
    let latest := wrap64 (now + wrap64 (ttl * 86400)) in
    let expires := Expiration e in
    let allowed := "invalid: agent grant allows site " +:+ label +:+ " for " +:+ Itoa ttl +:+ " days: " in
    guard_err (expires =? 0) (allowed +:+ "add an expiration tag no later than " +:+ Itoa latest);;
    guard_err (latest <? expires) (allowed +:+ "set the expiration tag no later than " +:+ Itoa latest).

Definition Check (g : AgentGrant) (e : Event) (now : Z) : result unit :=
  guard_err (0 <? G_RevokedAt g) "restricted: agent grant is revoked";;
  guard_err (G_Paused g) "restricted: agent grant is paused";;
  guard_err (G_ExpiresAt g <=? now) "restricted: agent grant has expired";;
  guard_err (negb (AllowsKind g (Kind e))) ("restricted: agent grant does not allow kind " +:+ Itoa (Kind e));;
  let room := Tag e "h" in
  guard_err (negb (String.eqb room "") && negb (AllowsRoom g room))
    ("restricted: agent grant does not allow room " +:+ room);;
  if siteManifestKind (Kind e) then checkSite g e now
  else if negb (gitKind (Kind e)) then mret tt
  else
    let coordinates := repositoryCoordinates e in
    match coordinates with
    | [] => guard_err (negb (Kind e =? 1111))
        "restricted: agent grant does not allow repository events without a repository address"
    | _ => check_coordinates g (Kind e) coordinates
    end.
End Check.

(** ** Parsing a grant event *)

(** A loop that may return an error, threading the value it builds. *)
Fixpoint loop {A B} (f : B → A → result B) (l : list A) (b : B) : result B :=
  match l with [] => mret b | a :: r => b' ← f b a; loop f r b' end.

Definition room_step (rooms : list string) (room : string) : result (list string) :=
  let room := TrimSpace room in
  guard_err (String.eqb room "" || (agentRoomMax <? len room)) "invalid: agent grant room tag";;
  mret (if contains rooms room then rooms else rooms ++ [room]).

Definition parseAgentRepo (value : string) : option AgentRepo :=
  let value := TrimSpace value in
  let last := LastIndexByte value 58 in
  if last <? 0 then None
  else
    let level := slice value (last + 1) (len value) in
    if negb (contains [AgentRepoPropose; AgentRepoRead; AgentRepoMaintain] level) then None
    else match SplitN (slice value 0 last) (char 58) 2 with
    | [owner; identifier] =>
      if negb (validPubKey owner) || String.eqb identifier "" || (256 <? len identifier) then None
      else Some (mkAgentRepo owner identifier level)
    | _ => None
    end.

Definition repo_step (repos : list AgentRepo) (value : string) : result (list AgentRepo) :=
  match parseAgentRepo value with
  | None => Err "invalid: agent grant repo tag must be owner:identifier followed by :propose, :read or :maintain"
  | Some repo => mret (if String.eqb (repo_level repos (AR_Owner repo) (AR_Identifier repo)) ""
                       then repos ++ [repo] else repos)
  end.

Definition kind_step (kinds : list Z) (value : string) : result (list Z) :=
  match num_ok (Atoi (TrimSpace value)) with
  | Some kind =>
    guard_err ((kind <? 0) || (65535 <? kind)) "invalid: agent grant k tag must be an event kind";;
    mret (if containsInt kinds kind then kinds else kinds ++ [kind])
  | None => Err "invalid: agent grant k tag must be an event kind"
  end.

Definition site_flag (site : AgentSite) (flag : string) : result AgentSite :=
  let flag := TrimSpace flag in
  if String.eqb flag "encrypted" then mret (mkAgentSite (AS_Label site) (AS_TTLDays site) true)
  else if HasPrefix flag "ttl=" then
    match num_ok (Atoi (TrimPrefix flag "ttl=")) with
    | Some days =>
      guard_err ((days <? 1) || (AgentSiteTTLMax <? days))
        "invalid: agent grant sites ttl must be between 1 and 365 days";;
      mret (mkAgentSite (AS_Label site) days (AS_Encrypted site))
    | None => Err "invalid: agent grant sites ttl must be between 1 and 365 days"
    end
  else Err "invalid: agent grant sites tag allows only ttl=<days> and encrypted after the label".

Section Parse.
Context `{NostrKeys} `{GoUnicode} `{GoJson}.

Definition parseAgentSite (values : list string) (agent : string) : result AgentSite :=
  match values with
  | [] => Err "invalid: agent grant sites tag needs a site label or *"
  | label :: flags =>
    let site := mkAgentSite (TrimSpace label) 0 false in
    (if String.eqb (AS_Label site) "*" then mret tt
     else match ParseSite (AS_Label site) with
     | Some parsed =>
       guard_err (site_kind parsed =? KindSiteSnapshot) "invalid: agent grant sites tag needs a site label or *";;
       guard_err (negb (String.eqb (site_pubkey parsed) agent))
         "invalid: agent grant sites label must be a site under the agent's own key"
     | None => Err "invalid: agent grant sites tag needs a site label or *"
     end);;
    loop site_flag flags site
  end.

Definition siteListed (entries : list AgentSite) (label : string) : bool :=
  existsb (λ s, String.eqb (AS_Label s) label) entries.

Definition site_step (agent : string) (sites : list AgentSite) (tag : list string) : result (list AgentSite) :=
  match tag with
  | n :: values =>
    if String.eqb n "sites" then
      site ← parseAgentSite values agent;
      mret (if siteListed sites (AS_Label site) then sites else sites ++ [site])
    else mret sites
  | [] => mret sites
  end.

Definition too_long {A} (l : list A) : bool := agentListMax <? Z.of_nat (List.length l).

Definition ParseAgentGrant (e : Event) (now : Z) : result AgentGrant :=
  guard_err (negb (Kind e =? KIND_AGENT_GRANT)) ("invalid: kind " +:+ Itoa (Kind e) +:+ " is not an agent grant");;
  let agent := Tag e "d" in
  guard_err (negb (validPubKey agent)) "invalid: agent grant needs the agent pubkey as its d tag";;
  guard_err (negb (String.eqb (Tag e "p") agent)) "invalid: agent grant p tag must match its d tag";;
  guard_err (String.eqb agent (PubKey e)) "invalid: agent grant may not name its signer";;
  let expires := Expiration e in
  guard_err (expires =? 0) "invalid: agent grant needs an expiration tag";;
  guard_err (wrap64 (now + AgentGrantMaxDays * 86400) <? expires)
    "invalid: agent grant expiration is more than 365 days out";;
  guard_err (negb (String.eqb (Content e) "") && match json_parse (Content e) with Some _ => false | None => true end)
    "invalid: agent grant content must be empty or JSON";;
  let name := TrimSpace (Tag e "name") in
  let name := if agentNameMax <? len name then slice name 0 agentNameMax else name in
  rooms ← loop room_step (TagValues e "room") [];
  repos ← loop repo_step (TagValues e "repo") [];
  kinds ← loop kind_step (TagValues e "k") [];
  guard_err (too_long rooms || too_long repos || too_long kinds) "invalid: agent grant lists more than 256 entries";;
  let wiki := Tag e "wiki" in
  guard_err (negb (contains [""; "propose"; "edit"] wiki)) "invalid: agent grant wiki tag must be propose or edit";;
  let jobs := Tag e "jobs" in
  guard_err (negb (contains [""; AgentJobsRequest; AgentJobsServe; AgentJobsBoth] jobs))
    "invalid: agent grant jobs tag must be request, serve or both";;
  sites ← loop (site_step agent) (etags e) [];
  guard_err (too_long sites) "invalid: agent grant lists more than 256 entries";;
  rate ← (let value := Tag e "rate" in
          if String.eqb value "" then mret AgentRateDefault
          else match num_ok (Atoi (TrimSpace value)) with
          | Some rate =>
            guard_err ((rate <? 1) || (AgentRateMax <? rate))
              "invalid: agent grant rate must be between 1 and 600 events per minute";;
            mret rate
          | None => Err "invalid: agent grant rate must be between 1 and 600 events per minute"
          end);
  mret (mkGrant agent (PubKey e) (ID e) name expires false 0 (mkScope kinds rooms repos wiki jobs sites rate)).
End Parse.

(** ** The mirror and the roster *)

Record AuditEntry := mkAudit { A_Actor : string; A_Action : string; A_Target : string; A_Detail : string }.

Record CommunityDB := mkCommunity {
  agent_grants : gmap string AgentGrant;
  roster : Roster;
  audit : list AuditEntry;
}.
Definition members (db : CommunityDB) : gmap string Member := r_members (roster db).

Definition upd_roster (f : Roster → Roster) (db : CommunityDB) : CommunityDB :=
  mkCommunity (agent_grants db) (f (roster db)) (audit db).

Definition recordTx (db : CommunityDB) (actor action target detail : string) : CommunityDB :=
  mkCommunity (agent_grants db) (roster db) (audit db ++ [mkAudit actor action target detail]).

(** [DELETE ... WHERE pubkey=? AND role='agent'] *)
Definition dropAgentRoleTx (db : CommunityDB) (agent : string) : CommunityDB :=
  match members db !! agent with
  | Some m => if String.eqb (M_Role m) "agent" then upd_roster (delete_member agent) db else db
  | None => db
  end.

Definition set_revoked (g : AgentGrant) (at_ : Z) : AgentGrant :=
  mkGrant (G_Agent g) (G_Owner g) (G_EventID g) (G_Name g) (G_ExpiresAt g) (G_Paused g) at_ (G_Scope g).
Definition set_paused (g : AgentGrant) (paused : bool) : AgentGrant :=
  mkGrant (G_Agent g) (G_Owner g) (G_EventID g) (G_Name g) (G_ExpiresAt g) paused (G_RevokedAt g) (G_Scope g).

Definition put_grant (db : CommunityDB) (agent : string) (g : AgentGrant) : CommunityDB :=
  mkCommunity (<[agent := g]> (agent_grants db)) (roster db) (audit db).

Definition applyAgentGrantTx (db : CommunityDB) (grant : AgentGrant) (now : Z) : CommunityDB :=
  let revokedAt := if G_ExpiresAt grant <=? now then now else 0 in
  let db := put_grant db (G_Agent grant) (set_paused (set_revoked grant revokedAt) false) in
  if 0 <? revokedAt then
    recordTx (dropAgentRoleTx db (G_Agent grant)) (G_Owner grant) "revokeagent" (G_Agent grant) "expired grant"
  else
    let db := match members db !! G_Agent grant with
              | Some _ => db
              | None => upd_roster (insert_member (G_Agent grant) (mkMember "" "" "agent" (G_Owner grant) "grant" now 0)) db
              end in
    recordTx db (G_Owner grant) "grantagent" (G_Agent grant) (G_Name grant).

Definition revokeAgentTx (db : CommunityDB) (actor agent : string) (now : Z) (detail : string) : CommunityDB :=
  match agent_grants db !! agent with
  | Some g =>
    if String.eqb (G_Owner g) actor && (G_RevokedAt g =? 0) then
      recordTx (dropAgentRoleTx (put_grant db agent (set_revoked g now)) agent) actor "revokeagent" agent detail
    else db
  | None => db
  end.

(** The agent a deletion tag names, if any. *)
Definition deleted_agent (db : CommunityDB) (e : Event) (tag : list string) : option string :=
  match tag with
  | n :: v :: _ =>
    let prefix := Itoa KIND_AGENT_GRANT +:+ ":" +:+ PubKey e +:+ ":" in
    if String.eqb n "a" then if HasPrefix v prefix then Some (TrimPrefix v prefix) else None
    else if String.eqb n "e" then
      (λ kv, kv.1) <$> head (List.filter (λ kv : string * AgentGrant,
          String.eqb (G_EventID kv.2) v && String.eqb (G_Owner kv.2) (PubKey e)) (map_to_list (agent_grants db)))
    else None
  | _ => None
  end.

Definition revoke_tag (e : Event) (now : Z) (db : CommunityDB) (tag : list string) : CommunityDB :=
  match deleted_agent db e tag with
  | Some agent => if negb (validPubKey agent) then db else revokeAgentTx db (PubKey e) agent now "deleted grant"
  | None => db
  end.

Definition revokeDeletedGrantsTx (db : CommunityDB) (e : Event) (now : Z) : CommunityDB :=
  fold_left (revoke_tag e now) (etags e) db.

(** [ApplyAgentEventTx]; [replacement_ok] is the check of a replacement
    against its reviewed request (agent_grant_requests.go). *)
Definition ApplyAgentEventTx `{NostrKeys} `{GoUnicode} `{GoJson} (replacement_ok : result unit)
    (db : CommunityDB) (e : Event) (now : Z) : result CommunityDB :=
  if Kind e =? KIND_AGENT_GRANT then
    (if negb (String.eqb (Tag e "grant-request") "") || negb (String.eqb (Tag e "grant-base") "")
     then replacement_ok else mret tt);;
    grant ← ParseAgentGrant e now;
    mret (applyAgentGrantTx db grant now)
  else if Kind e =? KIND_DELETION then mret (revokeDeletedGrantsTx db e now)
  else mret db.

Definition SetAgentPaused (db : CommunityDB) (actor agent : string) (paused : bool) : CommunityDB * result AgentGrant :=
  if negb (validPubKey agent) then (db, Err "invalid: bad pubkey")
  else match agent_grants db !! agent with
  | None => (db, Err "invalid: no agent grant for this pubkey")
  | Some g =>
    if 0 <? G_RevokedAt g then (db, Err "invalid: agent grant is revoked")
    else (recordTx (put_grant db agent (set_paused g paused)) actor
            (if paused then "pauseagent" else "resumeagent") agent "", Ok (set_paused g paused))
  end.

Definition RevokeAgent (db : CommunityDB) (actor agent : string) (now : Z) : CommunityDB * result AgentGrant :=
  if negb (validPubKey agent) then (db, Err "invalid: bad pubkey")
  else match agent_grants db !! agent with
  | None => (db, Err "invalid: no agent grant for this pubkey")
  | Some g =>
    if 0 <? G_RevokedAt g then (db, Ok g)
    else (recordTx (dropAgentRoleTx (put_grant db agent (set_revoked g now)) agent) actor "revokeagent" agent
            "management", Ok (set_revoked g now))
  end.

Definition SetAllAgentsPaused (db : CommunityDB) (actor : string) (paused : bool) : CommunityDB * Z :=
  let hit g := (G_RevokedAt g =? 0) && negb (Bool.eqb (G_Paused g) paused) in
  let changed := Z.of_nat (List.length (List.filter (λ kv : string * AgentGrant, hit kv.2) (map_to_list (agent_grants db)))) in
  (recordTx (mkCommunity ((λ g, if hit g then set_paused g paused else g) <$> agent_grants db) (roster db) (audit db))
     actor (if paused then "pauseallagents" else "resumeallagents") "" (Itoa changed), changed).

Definition CanGrantAgents (role : string) : bool := String.eqb role "owner" || String.eqb role "moderator".

Definition IsAgentGrantRequest (e : Event) : bool := (Kind e =? 1111) && String.eqb (Tag e "request") "grant".
