(* ===== verification/AgentsProps.v ===== *)
(** * internal/community: what a grant lets through, and who holds the agent role *)

From S2P Require Import Prelude GoLib GoCodec GoLemmas Nostr NostrProps Filter Store StoreMaint Policy Sites SitesProps Roster Agents.

Lemma loop_inv {A B} (P : B → Prop) (f : B → A → result B) l b b' :
  loop f l b = Ok b' → P b → (∀ b a b', P b → a ∈ l → f b a = Ok b' → P b') → P b'.
Proof.
  revert b. induction l as [|a l IH]; intros b; cbn [loop].
  - intros E Hb _. apply (inj Ok) in E. by subst.
  - intros (b1 & H1 & H2)%result_bind_Ok Hb Hf. eapply IH; [exact H2| |].
    + eapply Hf; [exact Hb|apply list_elem_of_here|exact H1].
    + intros b2 a2 b3 ? ?. apply Hf; [done|by apply list_elem_of_further].
Qed.

Lemma substring_0_length n s : (String.length (String.substring 0 n s) <= n)%nat.
Proof. revert s. induction n as [|n IH]; intros [|a s]; cbn; try lia. specialize (IH s). lia. Qed.

(** ** Parsing *)

Definition scope_ok (s : AgentScope) : Prop :=
  NoDup (Sc_Kinds s) ∧ Forall (λ k, 0 ≤ k ≤ 65535) (Sc_Kinds s) ∧ NoDup (Sc_Rooms s) ∧
  NoDup ((λ r, (AR_Owner r, AR_Identifier r)) <$> Sc_Repos s) ∧
  Forall (λ r, AR_Level r ∈ [AgentRepoPropose; AgentRepoRead; AgentRepoMaintain]) (Sc_Repos s) ∧
  NoDup (AS_Label <$> Sc_Sites s) ∧ Forall (λ s, 0 ≤ AS_TTLDays s ≤ AgentSiteTTLMax) (Sc_Sites s) ∧
  Z.of_nat (List.length (Sc_Kinds s)) ≤ agentListMax ∧ Z.of_nat (List.length (Sc_Rooms s)) ≤ agentListMax ∧
  Z.of_nat (List.length (Sc_Repos s)) ≤ agentListMax ∧ Z.of_nat (List.length (Sc_Sites s)) ≤ agentListMax ∧
  Sc_Wiki s ∈ [""; "propose"; "edit"] ∧
  Sc_Jobs s ∈ [""; AgentJobsRequest; AgentJobsServe; AgentJobsBoth] ∧ 1 ≤ Sc_Rate s ≤ AgentRateMax.

Lemma NoDup_snoc {A} (l : list A) x : NoDup l → x ∉ l → NoDup (l ++ [x]).
Proof.
  intros. apply NoDup_app. split_and!; [done| |apply NoDup_singleton].
  intros y Hy ->%list_elem_of_singleton. done.
Qed.

Lemma rooms_ok l rooms : loop room_step l [] = Ok rooms → NoDup rooms.
Proof.
  intros H. refine (loop_inv NoDup _ _ _ _ H (NoDup_nil_2) _). intros b a b' Hb _ E. unfold room_step in E.
  apply guard_bind_Ok in E as [_ E]. apply (inj Ok) in E. subst b'.
  destruct (contains b (TrimSpace a)) eqn:Hc; [done|]. apply NoDup_snoc; [done|].
  intros Hin. apply contains_spec in Hin. congruence.
Qed.

Lemma kinds_ok l kinds : loop kind_step l [] = Ok kinds → NoDup kinds ∧ Forall (λ k, 0 ≤ k ≤ 65535) kinds.
Proof.
  intros H. refine (loop_inv (λ ks, NoDup ks ∧ Forall (λ k, 0 ≤ k ≤ 65535) ks) _ _ _ _ H _ _).
  { split; constructor. }
  intros b a b' [Hb Hf] _ E. unfold kind_step in E. destruct (num_ok _) as [k|]; [|done].
  apply guard_bind_Ok in E as [Hk E]. apply (inj Ok) in E. subst b'.
  apply orb_false_iff in Hk. rewrite !Z.ltb_ge in Hk.
  destruct (containsInt b k) eqn:Hc; [done|]. split.
  - apply NoDup_snoc; [done|]. intros Hin. apply containsInt_spec in Hin. congruence.
  - apply Forall_app_2; [done|]. constructor; [lia|constructor].
Qed.

Lemma repo_level_none repos o i :
  Forall (λ r, AR_Level r ≠ "") repos → repo_level repos o i = "" →
  (o, i) ∉ (λ r, (AR_Owner r, AR_Identifier r)) <$> repos.
Proof.
  induction 1 as [|r l Hr _ IH]; cbn; [intros _; apply not_elem_of_nil|].
  destruct (String.eqb_spec (AR_Owner r) o), (String.eqb_spec (AR_Identifier r) i); cbn; try done;
    intros Hn; rewrite not_elem_of_cons; (split; [congruence|by apply IH]).
Qed.

Lemma parseAgentRepo_level v r : parseAgentRepo v = Some r →
  AR_Level r ∈ [AgentRepoPropose; AgentRepoRead; AgentRepoMaintain].
Proof.
  unfold parseAgentRepo. cbv zeta. destruct (_ <? 0); [done|].
  destruct (contains _ _) eqn:Hc; [|done]. cbn [negb].
  destruct (SplitN _ _ _) as [|o [|i [|]]]; try done. destruct (_ || _ || _); [done|].
  intros [= <-]. by apply contains_spec in Hc.
Qed.

Lemma repos_ok l repos : loop repo_step l [] = Ok repos →
  NoDup ((λ r, (AR_Owner r, AR_Identifier r)) <$> repos) ∧
  Forall (λ r, AR_Level r ∈ [AgentRepoPropose; AgentRepoRead; AgentRepoMaintain]) repos.
Proof.
  intros H. refine (loop_inv (λ rs, NoDup ((λ r, (AR_Owner r, AR_Identifier r)) <$> rs) ∧
    Forall (λ r, AR_Level r ∈ [AgentRepoPropose; AgentRepoRead; AgentRepoMaintain]) rs) _ _ _ _ H _ _).
  { split; constructor. }
  intros b a b' [Hb Hf] _ E. unfold repo_step in E. destruct (parseAgentRepo a) as [r|] eqn:Ep; [|done].
  apply (inj Ok) in E. subst b'. destruct (String.eqb_spec (repo_level b (AR_Owner r) (AR_Identifier r)) "") as [Hl|]; [|done].
  split; [|apply Forall_app_2; [done|]; constructor; [by eapply parseAgentRepo_level|constructor]].
  rewrite fmap_app. apply NoDup_snoc; [done|]. apply repo_level_none; [|done].
  eapply Forall_impl; [exact Hf|]. intros x Hx E. cbn beta in Hx. rewrite E in Hx. clear -Hx.
  rewrite !elem_of_cons in Hx. destruct Hx as [?|[?|[?|Hx]]]; try done. by apply not_elem_of_nil in Hx.
Qed.

Lemma flags_ok flags site site' : loop site_flag flags site = Ok site' →
  0 ≤ AS_TTLDays site ≤ AgentSiteTTLMax → 0 ≤ AS_TTLDays site' ≤ AgentSiteTTLMax.
Proof.
  intros H Hs. refine (loop_inv (λ s, 0 ≤ AS_TTLDays s ≤ AgentSiteTTLMax) _ _ _ _ H Hs _).
  intros b a b' Hb _ E. unfold site_flag in E. cbv zeta in E.
  destruct (String.eqb _ _); [apply (inj Ok) in E; by subst|]. destruct (HasPrefix _ _); [|done].
  destruct (num_ok _) as [d|]; [|done]. apply guard_bind_Ok in E as [Hd E]. apply (inj Ok) in E. subst b'.
  apply orb_false_iff in Hd. rewrite !Z.ltb_ge in Hd. cbn. lia.
Qed.

Section Grants.
Context `{NostrKeys} `{GoUnicode} `{GoJson}.

Lemma sites_ok agent l sites : loop (site_step agent) l [] = Ok sites →
  NoDup (AS_Label <$> sites) ∧ Forall (λ s, 0 ≤ AS_TTLDays s ≤ AgentSiteTTLMax) sites.
Proof.
  intros Hl. refine (loop_inv (λ ss, NoDup (AS_Label <$> ss) ∧
    Forall (λ s, 0 ≤ AS_TTLDays s ≤ AgentSiteTTLMax) ss) _ _ _ _ Hl _ _).
  { split; constructor. }
  intros b a b' [Hb Hf] _ E. unfold site_step in E. destruct a as [|n values]; [apply (inj Ok) in E; by subst|].
  destruct (String.eqb n "sites"); [|apply (inj Ok) in E; by subst].
  apply result_bind_Ok in E as (site & Hsite & E). apply (inj Ok) in E. subst b'.
  destruct (siteListed b (AS_Label site)) eqn:Hsl; [done|]. split.
  - rewrite fmap_app. apply NoDup_snoc; [done|]. intros (x & Ex & Hx)%list_elem_of_fmap.
    unfold siteListed in Hsl. rewrite existsb_elem_false in Hsl. specialize (Hsl x Hx).
    by rewrite <-Ex, String.eqb_refl in Hsl.
  - apply Forall_app_2; [done|]. constructor; [|constructor]. unfold parseAgentSite in Hsite.
    destruct values as [|label flags]; [done|]. cbv zeta in Hsite.
    apply result_bind_Ok in Hsite as ([] & _ & Hsite). eapply flags_ok; [exact Hsite|]. done.
Qed.

Lemma too_long_false {A} (l : list A) : too_long l = false ↔ Z.of_nat (List.length l) ≤ agentListMax.
Proof. unfold too_long. apply Z.ltb_ge. Qed.

(** An accepted grant names another key than its signer, expires within a
    year, and has a bounded, duplicate-free scope: kinds in range, known
    repository levels, site lifetimes and rate within their limits. *)
Theorem ParseAgentGrant_sound e now g :
  ParseAgentGrant e now = Ok g →
  validPubKey (G_Agent g) = true ∧ G_Agent g = Tag e "d" ∧ G_Agent g ≠ G_Owner g ∧ G_Owner g = PubKey e ∧
  G_EventID g = ID e ∧ 0 < G_ExpiresAt g ≤ wrap64 (now + 365 * 86400) ∧ len (G_Name g) ≤ agentNameMax ∧
  G_Paused g = false ∧ G_RevokedAt g = 0 ∧ scope_ok (G_Scope g).
Proof.
  unfold ParseAgentGrant. cbv zeta. rewrite !guard_bind_Ok.
  intros (_ & Ha & _ & Hs & He & Hexp & _ & Hrest).
  apply negb_false_iff in Ha. apply String.eqb_neq in Hs. apply Z.eqb_neq in He. apply Z.ltb_ge in Hexp.
  apply result_bind_Ok in Hrest as (rooms & Hrooms & Hrest).
  apply result_bind_Ok in Hrest as (repos & Hrepos & Hrest).
  apply result_bind_Ok in Hrest as (kinds & Hkinds & Hrest). rewrite !guard_bind_Ok in Hrest.
  destruct Hrest as (Hlen & Hwiki & Hjobs & Hrest).
  apply result_bind_Ok in Hrest as (sites & Hsites & Hrest). rewrite guard_bind_Ok in Hrest.
  destruct Hrest as (Hlen2 & Hrest). apply result_bind_Ok in Hrest as (rate & Hrate & Hrest).
  apply (inj Ok) in Hrest. subst g. cbn [G_Agent G_Owner G_EventID G_ExpiresAt G_Name G_Paused G_RevokedAt G_Scope].
  rewrite !orb_false_iff, !too_long_false in Hlen. apply too_long_false in Hlen2.
  apply negb_false_iff, contains_spec in Hwiki, Hjobs.
  destruct (kinds_ok _ _ Hkinds), (repos_ok _ _ Hrepos), (sites_ok _ _ _ Hsites).
  assert (0 ≤ Expiration e) as Hx.
  { unfold Expiration. destruct (ParseInt _) as [v| |v]; [|lia..]. destruct (Z.leb_spec v 0); lia. }
  assert (1 ≤ rate ≤ AgentRateMax) as Hr.
  { destruct (String.eqb _ _); [apply (inj Ok) in Hrate; subst rate; done|].
    destruct (num_ok _) as [r|]; [|done]. apply guard_bind_Ok in Hrate as [Hr E]. apply (inj Ok) in E. subst rate.
    rewrite orb_false_iff, !Z.ltb_ge in Hr. lia. }
  split_and!; try done; try lia.
  - destruct (Z.ltb_spec agentNameMax (len (TrimSpace (Tag e "name")))) as [Hn|Hn]; [|done].
    unfold slice, len. change (Z.to_nat 0) with 0%nat. apply (Nat2Z.inj_le _ 64), substring_0_length.
  - split_and!; cbn; try done; try tauto; try lia. by eapply rooms_ok.
Qed.

(** An event the gate's grant check lets through comes from a live grant
    that allows its kind and room; a repository event addresses only granted
    repositories, and changes status only where the agent maintains; a site
    manifest has a granted label and expires within the grant's lifetime. *)
Theorem Check_sound g e now :
  Check g e now = Ok tt →
  G_RevokedAt g ≤ 0 ∧ G_Paused g = false ∧ now < G_ExpiresAt g ∧ AllowsKind g (Kind e) = true ∧
  (Tag e "h" ≠ "" → AllowsRoom g (Tag e "h") = true) ∧
  (siteManifestKind (Kind e) = true → SiteEntries g (SiteLabel e) ≠ [] ∧
     (longestTTL (SiteEntries g (SiteLabel e)) ≠ 0 →
        Expiration e ≠ 0 ∧ Expiration e ≤ wrap64 (now + wrap64 (longestTTL (SiteEntries g (SiteLabel e)) * 86400)))) ∧
  (siteManifestKind (Kind e) = false → gitKind (Kind e) = true →
     (Kind e ≠ 1111 → repositoryCoordinates e ≠ []) ∧
     ∀ o i, (o, i) ∈ repositoryCoordinates e → RepoLevel g o i ≠ "" ∧
       (gitStatusKind (Kind e) = true → RepoLevel g o i = AgentRepoMaintain)).
Proof.
  unfold Check. cbv zeta. rewrite !guard_bind_Ok. intros (Hrev & Hp & Hexp & Hk & Hroom & Hrest).
  apply Z.ltb_ge in Hrev. apply Z.leb_gt in Hexp. apply negb_false_iff in Hk.
  split_and!; [done..| | |].
  - intros Hne. apply String.eqb_neq in Hne. rewrite Hne in Hroom. by apply negb_false_iff in Hroom.
  - intros Hsite. rewrite Hsite in Hrest. unfold checkSite in Hrest. cbv zeta in Hrest.
    apply guard_bind_Ok in Hrest as [He Hrest]. apply Nat.eqb_neq in He.
    split; [by intros E; rewrite E in He|]. intros Hne. apply Z.eqb_neq in Hne. rewrite Hne in Hrest.
    apply guard_bind_Ok in Hrest as [Hx Hrest]. apply guard_Ok_tt in Hrest.
    split; [by apply Z.eqb_neq|by apply Z.ltb_ge].
  - intros Hsite Hgit. rewrite Hsite, Hgit in Hrest. cbn [negb] in Hrest.
    assert (∀ l, check_coordinates g (Kind e) l = Ok tt → ∀ o i, (o, i) ∈ l → RepoLevel g o i ≠ "" ∧
      (gitStatusKind (Kind e) = true → RepoLevel g o i = AgentRepoMaintain)) as Hall.
    { induction l as [|[o i] l IH]; cbn [check_coordinates]; [by intros _ ? ? ?%not_elem_of_nil|].
      rewrite !guard_bind_Ok. intros (Q1 & Q2 & Q3) o' i' [[= -> ->]|Hin]%elem_of_cons; [|by apply IH].
      split; [by apply String.eqb_neq|]. intros Hst. rewrite Hst in Q2. cbn in Q2.
      by apply negb_false_iff, String.eqb_eq in Q2. }
    destruct (repositoryCoordinates e) as [|c l] eqn:Ec.
    + apply guard_Ok_tt, negb_false_iff, Z.eqb_eq in Hrest. split; [done|]. by intros ? ? ?%not_elem_of_nil.
    + split; [done|]. by apply Hall.
Qed.

(** ** The agent role *)

Inductive agent_step : CommunityDB → CommunityDB → Prop :=
| as_event rp db e now db' : 0 < now → ApplyAgentEventTx rp db e now = Ok db' → agent_step db db'
| as_pause db actor agent paused : agent_step db (SetAgentPaused db actor agent paused).1
| as_revoke db actor agent now : 0 < now → agent_step db (RevokeAgent db actor agent now).1
| as_pause_all db actor paused : agent_step db (SetAllAgentsPaused db actor paused).1.

(** Whoever holds the agent role holds an unrevoked grant. *)
Definition role_backed (db : CommunityDB) : Prop :=
  ∀ pk m, members db !! pk = Some m → M_Role m = "agent" →
    ∃ g, agent_grants db !! pk = Some g ∧ G_RevokedAt g = 0.

Lemma members_dropAgentRole db agent :
  members (dropAgentRoleTx db agent) =
    match members db !! agent with
    | Some m => if String.eqb (M_Role m) "agent" then delete agent (members db) else members db
    | None => members db
    end ∧ agent_grants (dropAgentRoleTx db agent) = agent_grants db.
Proof.
  unfold dropAgentRoleTx. destruct (members db !! agent) as [m|]; [|done]. destruct (String.eqb _ _); [|done].
  split; [|done]. unfold members. simpl. apply members_delete.
Qed.

Lemma role_backed_drop db agent g at_ actor action detail :
  role_backed db → 
  role_backed (recordTx (dropAgentRoleTx (put_grant db agent (set_revoked g at_)) agent) actor action agent detail).
Proof.
  intros Hb pk m Hm Hr. destruct (members_dropAgentRole (put_grant db agent (set_revoked g at_)) agent) as [Em Eg].
  change (members (dropAgentRoleTx (put_grant db agent (set_revoked g at_)) agent) !! pk = Some m) in Hm.
  change (∃ g', agent_grants (dropAgentRoleTx (put_grant db agent (set_revoked g at_)) agent) !! pk = Some g' ∧ G_RevokedAt g' = 0).
  rewrite Em in Hm. rewrite Eg. change (members (put_grant _ _ _)) with (members db) in Hm.
  change (agent_grants (put_grant db agent ?x)) with (<[agent := x]> (agent_grants db)).
  destruct (decide (pk = agent)) as [->|Hne].
  - exfalso. destruct (members db !! agent) as [m0|] eqn:E; [|congruence].
    destruct (String.eqb_spec (M_Role m0) "agent") as [Er|Er]; [by rewrite lookup_delete_eq in Hm|congruence].
  - rewrite lookup_insert_ne by done. apply (Hb pk m); [|done].
    destruct (members db !! agent) as [m0|]; [|done]. destruct (String.eqb _ _); [|done].
    by rewrite lookup_delete_ne in Hm.
Qed.

Lemma role_backed_revoke db actor agent now detail :
  role_backed db → role_backed (revokeAgentTx db actor agent now detail).
Proof.
  intros Hb. unfold revokeAgentTx. destruct (agent_grants db !! agent) as [g|]; [|done].
  destruct (_ && _); [|done]. by apply role_backed_drop.
Qed.

Lemma role_backed_revoke_deleted db e now : role_backed db → role_backed (revokeDeletedGrantsTx db e now).
Proof.
  unfold revokeDeletedGrantsTx. generalize (etags e) as l. intros l. revert db.
  induction l as [|t l IH]; intros db Hb; cbn; [done|]. apply IH. unfold revoke_tag.
  destruct (deleted_agent db e t); [|done]. destruct (negb _); [done|]. by apply role_backed_revoke.
Qed.

Lemma role_backed_apply db g now : 0 < now → role_backed db → role_backed (applyAgentGrantTx db g now).
Proof.
  intros Hnow Hb. unfold applyAgentGrantTx. cbv zeta. destruct (Z.leb_spec (G_ExpiresAt g) now) as [He|He].
  - rewrite (proj2 (Z.ltb_lt 0 now)) by done.
    exact (role_backed_drop db (G_Agent g) (set_paused g false) now (G_Owner g) "revokeagent" "expired grant" Hb).
  - cbn [Z.ltb Z.compare]. set (db1 := put_grant db _ _). change (members db1) with (members db).
    intros pk m Hm Hr. destruct (members db !! G_Agent g) as [m0|] eqn:Em; cbn in *;
      (destruct (decide (pk = G_Agent g)) as [->|Hne]; [rewrite lookup_insert_eq; by eexists|rewrite lookup_insert_ne by done]).
    + by apply (Hb pk m).
    + apply (Hb pk m); [|done]. unfold members in *. cbn in Hm. by rewrite members_insert, lookup_insert_ne in Hm.
Qed.

Lemma role_backed_step db db' : agent_step db db' → role_backed db → role_backed db'.
Proof.
  intros Hs Hb. destruct Hs as [rp db e now db' Hnow E|db actor agent paused|db actor agent now Hnow|db actor paused].
  - unfold ApplyAgentEventTx in E. destruct (Kind e =? KIND_AGENT_GRANT).
    + apply result_bind_Ok in E as ([] & _ & E). apply result_bind_Ok in E as (g & _ & E).
      apply (inj Ok) in E. subst db'. by apply role_backed_apply.
    + destruct (Kind e =? KIND_DELETION); apply (inj Ok) in E; subst db'; [|done].
      by apply role_backed_revoke_deleted.
  - unfold SetAgentPaused. destruct (negb _); [done|]. destruct (agent_grants db !! agent) as [g|] eqn:Eg; [|done].
    destruct (0 <? G_RevokedAt g) eqn:Er; [done|]. intros pk m Hm Hr. cbn in *.
    destruct (decide (pk = agent)) as [->|]; [|rewrite lookup_insert_ne by done; by eapply Hb].
    rewrite lookup_insert_eq. destruct (Hb agent m Hm Hr) as (g' & E & ?). rewrite Eg in E. injection E as <-.
    by eexists.
  - unfold RevokeAgent. destruct (negb _); [done|]. destruct (agent_grants db !! agent) as [g|]; [|done].
    destruct (0 <? G_RevokedAt g); [done|]. by apply role_backed_drop.
  - intros pk m Hm Hr. cbn in *. destruct (Hb pk m Hm Hr) as (g & E & Hg). rewrite lookup_fmap, E. cbn.
    eexists. split; [reflexivity|]. by destruct (_ && _).
Qed.

(** C32: whatever sequence of grants, deletions, pauses and revocations runs,
    a key holds the agent role only while an unrevoked grant names it. *)
Theorem agent_role_backed db db' :
  rtc agent_step db db' → (∀ pk m, members db !! pk = Some m → M_Role m ≠ "agent") → role_backed db'.
Proof.
  intros Hs Hno. assert (role_backed db) as Hb by (intros pk m Hm Hr; by destruct (Hno pk m Hm)).
  clear Hno. induction Hs as [|db1 db2 db3 Hs _ IH]; [done|]. apply IH. by eapply role_backed_step.
Qed.
End Grants.

(** A deletion revokes only grants its own author signed: every other grant
    and the roster entry of its agent stay as they were. *)
Theorem deletion_spares_other_owners db e now agent g :
  agent_grants db !! agent = Some g → G_Owner g ≠ PubKey e →
  agent_grants (revokeDeletedGrantsTx db e now) !! agent = Some g ∧
  members (revokeDeletedGrantsTx db e now) !! agent = members db !! agent.
Proof.
  intros Hg Ho. unfold revokeDeletedGrantsTx. generalize (etags e) as l. intros l. revert db Hg.
  induction l as [|t l IH]; intros db Hg; cbn [fold_left]; [done|].
  assert (agent_grants (revoke_tag e now db t) !! agent = Some g ∧
    members (revoke_tag e now db t) !! agent = members db !! agent) as [Hg' Hm'].
  { unfold revoke_tag. destruct (deleted_agent db e t) as [a|]; [|done]. destruct (negb _); [done|].
    unfold revokeAgentTx. destruct (decide (a = agent)) as [->|Hne].
    - rewrite Hg. by rewrite (proj2 (String.eqb_neq _ _) Ho).
    - destruct (agent_grants db !! a) as [g'|] eqn:Ea; [|done]. destruct (_ && _); [|done].
      destruct (members_dropAgentRole (put_grant db a (set_revoked g' now)) a) as [Em Eg].
      unfold members, recordTx in *. cbn [agent_grants roster]. rewrite Em, Eg. cbn.
      rewrite lookup_insert_ne by done. split; [done|].
      destruct (r_members (roster db) !! a) as [m|]; [|done]. destruct (String.eqb _ _); [|done]. by rewrite lookup_delete_ne. }
  destruct (IH _ Hg') as [H1 H2]. split; [done|]. by rewrite H2.
Qed.

(** ** A late deletion *)

Definition grant_event : Event :=
  mkEvent (repeat_char 64 "1") sample_pk 200 KIND_AGENT_GRANT
    (Some [["d"; sample_pk2]; ["p"; sample_pk2]; ["expiration"; "100000"]]) "" (repeat_char 128 "0").
Definition early_deletion : Event := sample_event "2" sample_pk 5 100
  [["a"; address_of KIND_AGENT_GRANT sample_pk sample_pk2]].

#[local] Instance no_json : GoJson := {| json_parse _ := None |}.
#[local] Instance toy_keys_instance : NostrKeys := toy_keys.
#[local] Instance ascii_instance : GoUnicode := ascii_unicode.
Definition no_community : CommunityDB := mkCommunity ∅ empty_roster [].

(** A deletion dated before a grant leaves the grant event stored (an
    address deletion reaches only older versions), yet revokes its mirror: the
    event and the mirror disagree about the grant. *)
Theorem early_deletion_revokes :
  let db1 := (Save empty_db grant_event (sample_opts 1000)).1 in
  let db2 := (Save db1 early_deletion (sample_opts 1001)).1 in
  match ApplyAgentEventTx (Ok tt) no_community grant_event 1000 with
  | Ok c1 =>
    match ApplyAgentEventTx (Ok tt) c1 early_deletion 1001 with
    | Ok c2 => r_raw <$> events db2 = [grant_event; early_deletion] ∧
               (M_Role <$> members c1 !! sample_pk2) = Some "agent" ∧
               (G_RevokedAt <$> agent_grants c2 !! sample_pk2) = Some 1001 ∧ members c2 !! sample_pk2 = None
    | Err _ => False
    end
  | Err _ => False
  end.
Proof. vm_compute. by split_and!. Qed.

(** ** Witnesses *)

Definition sample_grant : AgentGrant :=
  mkGrant sample_pk2 sample_pk (ID grant_event) "" 100000 false 0 (mkScope [] [] [] "" "" [] 60).

Lemma ParseAgentGrant_sound_witness :
  validPubKey (G_Agent sample_grant) = true ∧ scope_ok (G_Scope sample_grant).
Proof.
  destruct (ParseAgentGrant_sound grant_event 1000 sample_grant) as (H1 & _ & _ & _ & _ & _ & _ & _ & _ & H2).
  - vm_compute. reflexivity.
  - split; [exact H1|exact H2].
Defined.

Definition agent_profile : Event := sample_event "3" sample_pk2 0 1000 [].
Lemma Check_sound_witness : AllowsKind sample_grant (Kind agent_profile) = true.
Proof. apply (Check_sound sample_grant agent_profile 1000). vm_compute. reflexivity. Defined.

Definition granted : CommunityDB := applyAgentGrantTx no_community sample_grant 1000.

Lemma agent_role_backed_witness : role_backed granted.
Proof.
  apply (agent_role_backed no_community).
  - apply rtc_once, (as_event (Ok tt) no_community grant_event 1000); [done|]. vm_compute. reflexivity.
  - intros pk m Hm. cbn in Hm. by rewrite lookup_empty in Hm.
Defined.

Lemma deletion_spares_other_owners_witness :
  let e := sample_event "4" sample_pk2 5 2000 [["e"; ID grant_event]] in
  agent_grants (revokeDeletedGrantsTx granted e 3000) !! sample_pk2 = Some sample_grant ∧
  members (revokeDeletedGrantsTx granted e 3000) !! sample_pk2 = members granted !! sample_pk2.
Proof.
  apply (deletion_spares_other_owners granted (sample_event "4" sample_pk2 5 2000 [["e"; ID grant_event]]) 3000
    sample_pk2 sample_grant); [vm_compute; reflexivity|vm_compute; discriminate].
Defined.
