(* ===== verification/Community.v ===== *)
(** * internal/community: the roster service

    Roles, members, invitations, access requests, bans, reports and rules: the
    operations behind the management methods of community.go, actions.go and
    requests.go.  A service is its tables, the tenant database and the owner it
    keeps in memory.  An operation takes the time and, where the code draws a
    random code, the random bytes; a transaction that fails leaves the service
    as it was.  Answers keep the fields the callers read. *)

From S2P Require Import Prelude GoLib GoCodec GoLemmas GoStrings Nostr Filter Store StoreQuery Policy Sites Roster Agents.

Record Service := mkService { s_db : CommunityDB; s_store : DB; s_owner : string; s_slug : string }.

Definition tables (s : Service) : Roster := roster (s_db s).
Definition on_tables (f : Roster → Roster) (s : Service) : Service :=
  mkService (upd_roster f (s_db s)) (s_store s) (s_owner s) (s_slug s).
Definition on_store (f : DB → DB) (s : Service) : Service := mkService (s_db s) (f (s_store s)) (s_owner s) (s_slug s).
Definition record (actor action target detail : string) (s : Service) : Service :=
  mkService (recordTx (s_db s) actor action target detail) (s_store s) (s_owner s) (s_slug s).

(** [s.store.WithTx]: commit or roll back. *)
Definition withTx {A} (s : Service) (body : result (A * Service)) : Service * result A :=
  match body with Ok (a, s') => (s', mret a) | Err m => (s, Err m) end.

(** A statement outside a transaction. *)
Definition exec {A} (a : A) (s : Service) : Service * result A := (s, mret a).
Definition refuse {A} (m : string) (s : Service) : Service * result A := (s, Err m).
(** A check before anything is written. *)
Definition after {A B} (s : Service) (r : result A) (k : A → Service * result B) : Service * result B :=
  match r with Ok a => k a | Err m => (s, Err m) end.

(** ** community.go *)

Definition member_of (s : Service) (pubkey : string) : option Member := r_members (tables s) !! pubkey.

Definition Role (s : Service) (pubkey : string) : string :=
  if String.eqb pubkey (s_owner s) then "owner" else from_option M_Role "" (member_of s pubkey).

(** [New]: the owner gets a row when there is none. *)
Definition NewService (db : CommunityDB) (store : DB) (owner : string) (now : Z) : result Service :=
  guard_err (negb (validPubKey owner)) "community: invalid owner pubkey";;
  let s := mkService db store owner "" in
  mret (match member_of s owner with
        | Some _ => s
        | None => on_tables (insert_member owner (mkMember "" "" "owner" "" "" now 0)) s
        end).

(** [SELECT role FROM community_members WHERE pubkey=?] *)
Definition row_role (s : Service) (pubkey : string) : string := from_option M_Role "" (member_of s pubkey).

Definition roleOrGuest (role : string) : string := if String.eqb role "" then "guest" else role.

Definition list_methods : list string :=
  ["listmembers"; "listpeople"; "listjoinrequests"; "listallowedpubkeys"; "listbannedpubkeys"; "listbannedevents";
   "listblockedips"; "listreports"; "listeventsneedingmoderation"; "listallowedkinds"; "listblockedkinds"; "listretention"].
Definition member_methods : list string :=
  ["createinvite"; "createclaim"; "listinvites"; "listclaims"; "revokeinvite"; "deleteclaim"].
Definition moderator_methods : list string :=
  ["setmember"; "allowpubkey"; "removemember"; "unrulepubkey"; "removesubtree"; "approvejoin"; "denyjoin"; "createinvite";
   "createclaim"; "listinvites"; "listclaims"; "revokeinvite"; "deleteclaim"; "banpubkey"; "banevent"; "allowevent";
   "blockip"; "unblockip"; "listaudit"; "resolvereport"; "allowkind"; "disallowkind"; "unrulekind"; "setblockedwords"].

Definition allowed (method role : string) : bool :=
  if contains list_methods method then String.eqb role "owner" || String.eqb role "moderator"
  else if String.eqb role "owner" then true
  else if String.eqb role "member" then contains member_methods method
  else if negb (String.eqb role "moderator") then false
  else contains moderator_methods method.

Definition Methods : list string :=
  ["supportedmethods"; "listaudit"; "listmembers"; "listpeople"; "listjoinrequests"; "approvejoin"; "denyjoin";
   "listallowedpubkeys"; "listbannedpubkeys"; "setmember"; "allowpubkey"; "removemember"; "unrulepubkey"; "removesubtree";
   "createinvite"; "listinvites"; "revokeinvite"; "listclaims"; "createclaim"; "deleteclaim"; "banpubkey"; "banevent";
   "allowevent"; "listbannedevents"; "blockip"; "unblockip"; "listblockedips"; "listreports";
   "listeventsneedingmoderation"; "resolvereport"; "allowkind"; "disallowkind"; "unrulekind"; "listallowedkinds";
   "listblockedkinds"; "setretention"; "listretention"; "purgekind"; "setblockedwords"].

(** [regexp.MustCompile("^[a-z0-9][a-z0-9_-]{0,31}$")] *)
Definition name_byte (b : Z) : bool := in_range 97 b 122 || in_range 48 b 57.
Definition nameRE (s : string) : bool :=
  match bytes_of s with
  | b :: r => name_byte b && forallb (λ b, name_byte b || (b =? 95) || (b =? 45)) r && (List.length r <=? 31)%nat
  | [] => false
  end.
(** [regexp.MustCompile("^[A-Za-z0-9_-]{4,64}$")] *)
Definition codeRE (s : string) : bool :=
  forallb (λ b, name_byte b || in_range 65 b 90 || (b =? 95) || (b =? 45)) (bytes_of s) && (4 <=? len s) && (len s <=? 64).

Definition decode {A} (dec : json → option A) (p : list json) (index : nat) : result A :=
  match p !! index with
  | None => Err "invalid: missing parameter"
  | Some j => match dec j with
              | Some a => mret a
              | None => Err ("invalid: parameter " +:+ Itoa (Z.of_nat index) +:+ ": ")
              end
  end.
Definition decode_str : list json → nat → result string := decode (decode_string "").
Definition decode_num : list json → nat → result Z := decode (decode_int 0).
(** [_ = decode(p, i, &v)] with [v] set before: an error keeps it. *)
Definition decode_or {A} (old : A) (dec : A → json → option A) (p : list json) (index : nat) : A :=
  match p !! index with Some j => default old (dec old j) | None => old end.

(** [value[:min(n, len(value))]] *)
Definition cut (n : Z) (s : string) : string := slice s 0 (Z.min n (len s)).

(** ** Ownership *)

Definition ApplyOwnerTx (oldOwner newOwner : string) (s : Service) : result Service :=
  guard_err (negb (validPubKey newOwner) || String.eqb newOwner oldOwner) "invalid: new owner pubkey";;
  let oldOwner := if String.eqb oldOwner "" then s_owner s else oldOwner in
  match member_of s newOwner with
  | None => Err "invalid: new owner must be a member"
  | Some _ =>
    let s := match member_of s oldOwner with
             | Some m => if String.eqb (M_Role m) "owner"
                         then on_tables (update_member oldOwner (member_role m "moderator")) s else s
             | None => s
             end in
    match member_of s newOwner with
    | Some m => mret (on_tables (update_member newOwner (member_role m "owner")) s)
    | None => mret s
    end
  end.

Definition SetOwner (newOwner : string) (s : Service) : Service * result unit :=
  if negb (validPubKey newOwner) then refuse "invalid: owner pubkey" s
  else exec tt (mkService (s_db s) (s_store s) newOwner (s_slug s)).

Definition transferOwner (p : list json) (s : Service) : Service * result string :=
  after s (decode_str p 0) (λ pk,
    if negb (validPubKey pk) then refuse "invalid: bad pubkey" s
    else match ApplyOwnerTx (s_owner s) pk s with
         | Ok s' => ((SetOwner pk s').1, mret pk)
         | Err m => (s, Err m)
         end).

(** ** Members *)

Record MemberPatch := mkPatch { P_Name : option string; P_Note : string; P_Role : string }.
Definition no_patch : MemberPatch := mkPatch None "" "".

Section Members.
Context `{GoUnicode}.

(** The struct decoding of the patch object. *)
Fixpoint decode_patch (patch : MemberPatch) (m : list (string * json)) : option MemberPatch :=
  match m with
  | [] => Some patch
  | (key, v) :: r =>
    let field f := String.eqb key f || EqualFold f key in
    if field "name" then
      match v with
      | JNull => decode_patch (mkPatch None (P_Note patch) (P_Role patch)) r
      | JStr n => decode_patch (mkPatch (Some n) (P_Note patch) (P_Role patch)) r
      | _ => None
      end
    else if field "note" then
      n ← decode_string (P_Note patch) v; decode_patch (mkPatch (P_Name patch) n (P_Role patch)) r
    else if field "role" then
      n ← decode_string (P_Role patch) v; decode_patch (mkPatch (P_Name patch) (P_Note patch) n) r
    else decode_patch patch r
  end.

Definition member_patch (j : json) : result MemberPatch :=
  match j with
  | JStr note => mret (mkPatch None note "")
  | JNull => mret no_patch
  | JObj m => match decode_patch no_patch m with Some patch => mret patch | None => Err "invalid: member patch: " end
  | _ => Err "invalid: member patch: "
  end.

(** The row the upsert of [setMemberVia] leaves, and the note update. *)
Definition set_member_row (pk name role note via : string) (now : Z) (t : Roster) : Roster :=
  let t := match r_members t !! pk with
           | Some m => update_member pk (mkMember name (M_Note m) role (M_InvitedBy m) (M_Via m) (M_CreatedAt m) (M_KeepDays m)) t
           | None => insert_member pk (mkMember name "" role "" via now 0) t
           end in
  if String.eqb note "" then t
  else upd_members (alter (λ m, mkMember (M_Name m) (cut 200 note) (M_Role m) (M_InvitedBy m) (M_Via m) (M_CreatedAt m)
                                  (M_KeepDays m)) pk) t.

(** The checks of [setMemberVia] before its transaction: key, name, role, note. *)
Definition member_input (s : Service) (actor : string) (p : list json) : result (string * string * string * string) :=
  pk ← decode_str p 0;
  guard_err (negb (validPubKey pk)) "invalid: bad pubkey";;
  patch ← (match p !! 1%nat with
           | None => mret no_patch
           | Some raw =>
             guard_err (negb (String.eqb actor (s_owner s))
                        && match member_of s pk with Some m => negb (String.eqb (M_Role m) "member") | None => false end)
               "restricted: moderators cannot edit the owner or other moderators";;
             member_patch raw
           end);
  let role := if String.eqb (P_Role patch) "" then "member" else P_Role patch in
  guard_err (negb (String.eqb role "member") && negb (String.eqb role "moderator")) "invalid: role must be member or moderator";;
  let name := ToLower (TrimSpace (default "" (P_Name patch))) in
  let name := if String.eqb (default "" (P_Name patch)) "" then "" else name in
  guard_err (negb (String.eqb (default "" (P_Name patch)) "") && negb (nameRE name))
    "invalid: bad member name: use a-z, 0-9, _ or -, up to 32 characters";;
  guard_err (String.eqb role "moderator" && negb (String.eqb actor (s_owner s))) "restricted: only the owner may appoint moderators";;
  mret (pk, name, role, P_Note patch).

Definition setMemberVia (actor via : string) (now : Z) (p : list json) (s : Service) : Service * result (string * string) :=
  after s (member_input s actor p) (λ '(pk, name, role, note),
    withTx s (
      let s := on_tables (upd_bans (delete pk)) s in
      guard_err (name_taken (tables s) pk name) "set member: ";;
      mret ((pk, role), record actor "setmember" pk role (on_tables (set_member_row pk name role note via now) s)))).
Definition setMember (actor : string) (now : Z) (p : list json) (s : Service) : Service * result (string * string) :=
  setMemberVia actor "management" now p s.

Definition removeMember (actor : string) (p : list json) (s : Service) : Service * result string :=
  after s (decode_str p 0) (λ pk,
    if negb (validPubKey pk) then refuse "invalid: bad pubkey" s
    else if String.eqb pk (s_owner s) then refuse "invalid: cannot remove owner" s
    else if negb (String.eqb actor (s_owner s)) && String.eqb (row_role s pk) "moderator"
    then refuse "restricted: moderators cannot remove the owner or other moderators" s
    else exec pk (record actor "removemember" pk "" (on_tables (delete_member pk) s))).

(** [SELECT pubkey ... WHERE invited_by=? AND role='member'] *)
Definition invited_members (s : Service) (parent : string) : list string :=
  (List.filter (λ kv : string * Member, String.eqb (M_InvitedBy kv.2) parent && String.eqb (M_Role kv.2) "member")
     (map_to_list (r_members (tables s)))).*1.

(** The breadth-first walk down the tree of invitations: [None] when it is not
    over after [fuel] members. *)
Fixpoint walk_invited (fuel : nat) (s : Service) (seen queue : list string) : option (list string) :=
  match queue with
  | [] => Some seen
  | parent :: rest =>
    match fuel with
    | O => None
    | S f =>
      let fresh := List.filter (λ pk, negb (contains seen pk)) (invited_members s parent) in
      walk_invited f s (seen ++ fresh) (rest ++ fresh)
    end
  end.

Definition subtree (s : Service) (root : string) : option (list string) :=
  walk_invited (S (size (r_members (tables s)))) s [root] [root].

Definition removeSubtree (actor : string) (p : list json) (s : Service) : Service * result Z :=
  after s (decode_str p 0) (λ root,
    if negb (validPubKey root) then refuse "invalid: bad pubkey" s
    else if String.eqb root (s_owner s) then refuse "invalid: cannot remove the owner" s
    else if negb (String.eqb (Role s root) "member") then
      refuse "restricted: moderators cannot remove the owner or other moderators" s
    else
      let seen := default [] (subtree s root) in
      let n := Z.of_nat (List.length seen) in
      exec n (record actor "removesubtree" root (Itoa n) (on_tables (λ t, fold_left (flip delete_member) seen t) s))).

(** ** Bans and rules *)

Definition ban (actor : string) (now : Z) (p : list json) (s : Service) : Service * result string :=
  after s (decode_str p 0) (λ pk,
    let reason := decode_or "" decode_string p 1 in
    if String.eqb pk (s_owner s) then refuse "invalid: cannot ban the owner" s
    else if negb (String.eqb actor (s_owner s)) && String.eqb (row_role s pk) "moderator"
    then refuse "restricted: moderators cannot ban other moderators" s
    else if negb (validPubKey pk) then refuse "invalid: bad pubkey" s
    else exec pk
      (on_store (λ db, (delete_events (λ r, String.eqb (r_pubkey r) pk) db).1)
        (on_tables (delete_member pk) (on_tables (upd_bans (<[pk := (reason, now)]>)) s)))).

Definition banEvent (now : Z) (p : list json) (s : Service) : Service * result string :=
  after s (decode_str p 0) (λ id,
    exec id (on_tables (upd_event_bans (<[id := (decode_or "" decode_string p 1, now)]>)) s)).
Definition allowEvent (p : list json) (s : Service) : Service * result bool :=
  after s (decode_str p 0) (λ id, exec true (on_tables (upd_event_bans (delete id)) s)).

Definition setKind (method : string) (p : list json) (s : Service) : Service * result bool :=
  after s (decode_num p 0) (λ kind,
    if (kind <? 0) || (65535 <? kind) then refuse "invalid: kind out of range" s
    else
      let s := on_tables (upd_kind_rules (delete kind)) s in
      exec true (if String.eqb method "allowkind" then on_tables (upd_kind_rules (<[kind := "allow"]>)) s
                 else if String.eqb method "disallowkind" then on_tables (upd_kind_rules (<[kind := "block"]>)) s
                 else s)).

(** Whether [net.ParseIP] accepts the text. *)
Definition blockIP (is_ip : string → bool) (now : Z) (block : bool) (p : list json) (s : Service) : Service * result (string * bool) :=
  after s (decode_str p 0) (λ ip,
    if negb (is_ip ip) then refuse "invalid: not an IP address" s
    else exec (ip, block)
      (on_tables (upd_ip_blocks (if block then <[ip := (decode_or "" decode_string p 1, now)]> else delete ip)) s)).

Definition setRetention (actor : string) (p : list json) (s : Service) : Service * result (Z * Z) :=
  after s (kind ← decode_num p 0; days ← decode_num p 1; mret (kind, days)) (λ '(kind, days),
    if (kind <? 0) || (days <? 1) then refuse "invalid: retention needs a nonnegative kind and positive days" s
    else exec (kind, days) (record actor "setretention" (Itoa kind) (Itoa days) (on_tables (upd_retention (<[kind := days]>)) s))).

Definition decode_words (j : json) : option (option (list string)) :=
  match j with JArr l => Some <$> mapM (decode_string "") l | JNull => Some None | _ => None end.
Definition words_json (words : option (list string)) : string :=
  match words with Some l => json_array (json_html <$> l) | None => "null" end.

Definition setBlockedWords (p : list json) (s : Service) : Service * result (option (list string)) :=
  match decode decode_words p 0 with
  | Err _ => refuse "invalid: give a list of words" s
  | Ok words => exec words (on_tables (upd_meta (<["blocked_words" := words_json words]>)) s)
  end.

Definition purgeKind (now : Z) (p : list json) (s : Service) : Service * result Z :=
  let all := match p with JNull :: _ => true | _ => false end in
  after s (kind ← (match p with [] | JNull :: _ => mret 0 | _ => decode_num p 0 end);
           days ← (match p with _ :: _ :: _ => decode_num p 1 | _ => mret 0 end); mret (kind, days)) (λ '(kind, days),
    if days <? 0 then refuse "invalid: days out of range" s
    else
      let cutoff := if 0 <? days then wrap64 (now - wrap64 (days * 86400)) else int64_max in
      let '(db, n) := delete_events (λ r, (all || (r_kind r =? kind)) && (r_created r <? cutoff)) (s_store s) in
      exec n (on_store (λ _, db) s)).

(** ** Invitations *)

(** [inviteDepth] and the loop of [memberInviteGateTx]: at most 100 rounds. *)
Fixpoint invite_depth (fuel : nat) (s : Service) (depth : Z) (seen : list string) (cur : string) : Z :=
  match fuel with
  | O => depth
  | S f =>
    match member_of s cur with
    | None => depth
    | Some m =>
      let parent := M_InvitedBy m in
      if String.eqb parent "" then depth
      else if String.eqb parent (s_owner s) || contains seen parent then depth + 1
      else invite_depth f s (depth + 1) (parent :: seen) parent
    end
  end.
Definition inviteDepth (s : Service) (pubkey : string) : Z := invite_depth 100 s 0 [pubkey] pubkey.

(** [expires_at>=? AND (max_uses=0 OR uses<max_uses)] *)
Definition live_invite (now : Z) (i : Invite) : bool :=
  (now <=? I_ExpiresAt i) && ((I_MaxUses i =? 0) || (I_Uses i <? I_MaxUses i)).
Definition live_invites_of (s : Service) (pubkey : string) (now : Z) : Z :=
  Z.of_nat (List.length (List.filter (λ ci : string * Invite, String.eqb (I_CreatedBy ci.2) pubkey && live_invite now ci.2)
    (map_to_list (r_invites (tables s))))).

Definition memberInviteGate (pol : Policy) (s : Service) (pubkey : string) (now : Z) : string :=
  let p := P_MemberInvites pol in
  if (Depth p <=? 0) || (Quota p <=? 0) then "restricted: only the owner and moderators mint invites here"
  else if Depth p <=? inviteDepth s pubkey then "restricted: invites do not reach this far down the tree"
  else if Quota p <=? live_invites_of s pubkey now then
    "restricted: you already hold " +:+ Itoa (Quota p) +:+ " live invite" +:+ (if Quota p =? 1 then "" else "s")
  else "".

(** [INSERT INTO community_invites]: the code is a primary key. *)
Definition insert_invite (code : string) (i : Invite) (s : Service) : result Service :=
  match r_invites (tables s) !! code with
  | Some _ => Err "constraint failed: UNIQUE constraint failed: community_invites.code (1555)"
  | None => mret (on_tables (upd_invites (<[code := i]>)) s)
  end.

Definition bad_claim : string := "invalid: give one invite code of 4 to 64 letters, digits, dash or underscore".

Definition createInvite (pol : Policy) (random : list Z) (actor : string) (now : Z) (p : list json) (claim : bool) (s : Service)
    : Service * result (string * Invite) :=
  after s (
    guard_err (claim && negb (Nat.eqb (List.length p) 1)) bad_claim;;
    code ← (if claim then decode_str p 0 else mret "");
    guard_err (negb (String.eqb code "") && negb (codeRE code))
      "invalid: invite code must be 4 to 64 letters, digits, dash or underscore";;
    let code := if negb claim && String.eqb code "" then hex_encode random else code in
    (if String.eqb (Role s actor) "member" then
       match memberInviteGate pol s actor now with "" => mret tt | reason => Err reason end
     else mret tt);;
    guard_err (claim && negb (codeRE code)) bad_claim;;
    let ttl := if claim then 3 * 86400 else decode_or (3 * 86400) decode_int p 0 in
    let maxUses := if claim then 0 else decode_or 0 decode_int p 1 in
    let note := if claim then "" else cut 200 (decode_or "" decode_string p 2) in
    let ttl := if negb claim && (ttl <? 60) then 60 else ttl in
    let ttl := if negb claim && (30 * 86400 <? ttl) then 30 * 86400 else ttl in
    mret (code, mkInvite actor now (now + ttl) (if maxUses <? 0 then 0 else maxUses) 0 note)) (λ '(code, i),
    withTx s (s' ← (match insert_invite code i s with Err m => Err ("create invite: " +:+ m) | r => r end); mret ((code, i), record actor "createinvite" code "" s'))).

Definition IssueNIP43Invite (pol : Policy) (random : list Z) (requester : string) (now : Z) (s : Service)
    : Service * result (string * Invite) :=
  if negb (validPubKey requester) then refuse "invalid: invite requester pubkey" s
  else if String.eqb (Role s requester) "" then refuse "restricted: invite request requires membership" s
  else createInvite pol random requester now [] false s.

Definition checkTerms (terms supplied : string) : result unit :=
  guard_err (negb (String.eqb terms "") && negb (EqualFold (sha256_hex terms) supplied)) "terms_mismatch".

(** [SELECT ... FROM community_invites] and the refusals of a claim. *)
Definition usable_invite (s : Service) (code : string) (now : Z) : result Invite :=
  match r_invites (tables s) !! code with
  | None => Err "invite_invalid"
  | Some i =>
    guard_err (I_ExpiresAt i <? now) "invite_expired";;
    guard_err ((0 <? I_MaxUses i) && (I_MaxUses i <=? I_Uses i)) "invite_exhausted";;
    guard_err (match member_of s (I_CreatedBy i) with Some _ => false | None => true end) "invite_revoked";;
    mret i
  end.

(** The counted use: [UPDATE ... WHERE code=? AND (max_uses=0 OR uses<max_uses)]. *)
Definition use_invite (code : string) (i : Invite) (s : Service) : result Service :=
  guard_err (negb ((I_MaxUses i =? 0) || (I_Uses i <? I_MaxUses i))) "invite_exhausted";;
  mret (on_tables (upd_invites (<[code := mkInvite (I_CreatedBy i) (I_CreatedAt i) (I_ExpiresAt i) (I_MaxUses i)
                                           (I_Uses i + 1) (I_Note i)]>)) s).

Definition join_via (pubkey creator via : string) (now : Z) : Service → Service :=
  on_tables (insert_member pubkey (mkMember "" "" "member" creator via now 0)).

Definition ClaimWithTerms (pol : Policy) (code pubkey termsHash : string) (now : Z) (s : Service) : Service * result (string * string) :=
  after s (
    guard_err (negb (validPubKey pubkey)) "invalid: bad pubkey";;
    guard_err (match r_bans (tables s) !! pubkey with Some _ => true | None => false end)
      "blocked: this pubkey is banned from this relay";;
    checkTerms (JoinTerms pol) termsHash) (λ _,
    match member_of s pubkey with
    | Some _ => exec ("already_member", Role s pubkey) s
    | None =>
      withTx s (
        i ← usable_invite s code now;
        s' ← use_invite code i s;
        mret (("joined", "member"), record pubkey "claiminvite" code "" (join_via pubkey (I_CreatedBy i) ("invite " +:+ code) now s')))
    end).

Definition revokeInvite (actor role : string) (p : list json) (s : Service) : Service * result bool :=
  after s (decode_str p 0) (λ code,
    if String.eqb role "member"
       && negb (match r_invites (tables s) !! code with Some i => String.eqb (I_CreatedBy i) actor | None => false end)
    then refuse "restricted: not your invite" s
    else exec (match r_invites (tables s) !! code with Some _ => true | None => false end)
           (on_tables (upd_invites (delete code)) s)).

(** ** requests.go *)

Definition JoinReasonMax : nat := 500.
Definition JoinRequestReceived : string := "info: access request received, the relay owner will review it".

Definition tagValue (e : Event) (name : string) : string := Tag e name.

Definition IsAccessRequest (e : Event) : bool := (Kind e =? KIND_NIP43_JOIN) && String.eqb (tagValue e "claim") "".

Definition JoinReason (content : string) : string :=
  let reason := TrimSpace content in
  let rs := runes reason in
  if (List.length rs <=? JoinReasonMax)%nat then reason else TrimSpace (str_concat (rune_src <$> take JoinReasonMax rs)).

Definition recordJoinRequestTx (pubkey reason : string) (now : Z) (s : Service) : result (bool * Service) :=
  guard_err (match r_bans (tables s) !! pubkey with Some _ => true | None => false end)
    "restricted: this key is banned from the relay";;
  let status := from_option J_Status "" (r_requests (tables s) !! pubkey) in
  mret (negb (String.eqb status "pending"), on_tables (upd_requests (<[pubkey := mkJoinRequest reason now "pending" "" 0]>)) s).

Definition RecordJoinRequest (pubkey reason : string) (now : Z) (s : Service) : Service * result bool :=
  withTx s (recordJoinRequestTx pubkey reason now s).

Definition PendingJoinRequests (s : Service) : Z :=
  Z.of_nat (List.length (List.filter (λ kv : string * JoinRequest, String.eqb (J_Status kv.2) "pending")
    (map_to_list (r_requests (tables s))))).

Definition joinRequestTarget (s : Service) (p : list json) : result (string * string) :=
  pk ← decode_str p 0;
  guard_err (negb (validPubKey pk)) "invalid: bad pubkey";;
  match r_requests (tables s) !! pk with
  | None => Err "not found: no access request from that key"
  | Some r => mret (pk, J_Status r)
  end.

Definition decideJoin (actor pk status : string) (now : Z) (s : Service) : Service * result (string * string) :=
  exec (pk, status)
    (record actor (if String.eqb status "approved" then "approvejoin" else "denyjoin") pk ""
      (on_tables (upd_requests (alter (λ r, mkJoinRequest (J_Reason r) (J_RequestedAt r) status actor now) pk)) s)).

Definition approveJoin (actor : string) (now : Z) (p : list json) (s : Service) : Service * result (string * string) :=
  after s (joinRequestTarget s p) (λ '(pk, _),
    if String.eqb (Role s pk) "" then
      match setMemberVia actor "request" now [JStr pk; JObj [("role", JStr "member")]] s with
      | (s', Ok _) => decideJoin actor pk "approved" now s'
      | (s', Err m) => (s', Err m)
      end
    else decideJoin actor pk "approved" now s).

Definition denyJoin (actor : string) (now : Z) (p : list json) (s : Service) : Service * result (string * string) :=
  after s (joinRequestTarget s p) (λ '(pk, status),
    if String.eqb status "approved" then refuse "invalid: the request was approved; remove the member instead" s
    else decideJoin actor pk "denied" now s).

(** ** Reports *)

(** [INSERT OR IGNORE]: one report per reporter and target. *)
Definition add_report (reporter target typ content : string) (now : Z) (l : list Report) : list Report :=
  if existsb (λ r, String.eqb (Rep_Reporter r) reporter && String.eqb (Rep_Target r) target) l then l
  else l ++ [mkReport (Z.of_nat (List.length l) + 1) reporter target typ content now "open" "" 0 ""].

Definition open_reporters (s : Service) (target : string) : list string :=
  remove_dups (Rep_Reporter <$> List.filter (λ r, String.eqb (Rep_Target r) target && String.eqb (Rep_Status r) "open")
    (r_reports (tables s))).

Definition hide_event (id reason : string) (db : DB) : DB :=
  mkDB (events db) (next_seq db) (tags db) (search db) (vanished db) (deletions db) (<[id := reason]> (hidden db))
    (pending db) (marmot db) (history db) (wiki db) (grants db) (settings db) (intents db).

Definition SubmitReportTx (reporter target targetType typ content : string) (threshold now : Z) (s : Service) : result Service :=
  guard_err (negb (validPubKey reporter) || String.eqb target "") "invalid: report target or reporter";;
  let targetType := if String.eqb targetType "" then "event" else targetType in
  let s := on_tables (upd_reports (add_report reporter target typ content now)) s in
  if (threshold <=? 0) || negb (String.eqb targetType "event") then mret s
  else if threshold <=? Z.of_nat (List.length (open_reporters s target)) then mret (on_store (hide_event target "report") s)
  else mret s.

Definition SubmitReportTarget (reporter target targetType typ content : string) (threshold now : Z) (s : Service) : Service * result unit :=
  withTx s (s' ← SubmitReportTx reporter target targetType typ content threshold now s; mret (tt, s')).

(** The update of the shared moderation record; the Blossom index is another
    component's table. *)
Definition resolveReport (actor : string) (now : Z) (p : list json) (s : Service) : Service * result (Z * string) :=
  after s (id ← decode_num p 0; action ← decode_str p 1; mret (id, action)) (λ '(id, action),
    if negb (contains ["ban"; "delete"; "dismiss"] action) then refuse "invalid: action must be ban, delete or dismiss" s
    else
      let hit r := (Rep_ID r =? id) && String.eqb (Rep_Status r) "open" in
      if negb (existsb hit (r_reports (tables s))) then refuse "invalid: no such open report" s
      else exec (id, action) (on_tables (upd_reports (λ l, (λ r, if hit r then
             mkReport (Rep_ID r) (Rep_Reporter r) (Rep_Target r) (Rep_Type r) (Rep_Content r) (Rep_At r) "resolved" actor now action
             else r) <$> l)) s)).
End Members.
