(* ===== verification/Membership.v ===== *)
(** * internal/community: membership and moderation events

    The transactional handlers of membership.go for the NIP-29 and NIP-43
    events, with the projection work they enqueue.  [persist] stores the event
    in the same transaction; its failure rolls everything back.  The
    non-transactional HandleMembershipEvent has no caller. *)

From S2P Require Import Prelude GoLib GoCodec GoLemmas GoStrings Nostr Filter Store StoreQuery Policy Sites Roster Agents Community.

Record MembershipResult := mkMembershipResult {
  MR_OK : bool; MR_Message : string; MR_Stored : bool; MR_AccessRequest : bool; MR_NewRequest : bool }.
Definition no_result : MembershipResult := mkMembershipResult false "" false false false.

(** [INSERT OR IGNORE INTO work_intents] of a records projection. *)
Definition enqueue_projection (id target payload : string) (now : Z) : Service → Service :=
  on_store (λ db, set_intents (insert_or_ignore same_work
    [mkWork id "records-projection" id target payload WPending 0 now now now "" "" 0] (intents db)) db).

Definition EnqueueProjectionTx (e : Event) (now : Z) : Service → Service :=
  let id := if String.eqb (ID e) ""
            then "community-event-" +:+ sha256_hex (PubKey e +:+ ":" +:+ Itoa (Kind e) +:+ ":" +:+ Content e)
            else ID e in
  let payload := "{" +:+ json_join [json_html "id" +:+ ":" +:+ json_html (ID e); json_html "kind" +:+ ":" +:+ Itoa (Kind e);
                   json_html "pubkey" +:+ ":" +:+ json_html (PubKey e)] +:+ "}" in
  enqueue_projection id "membership" payload now.

Definition HandleProjectionEventTx (e : Event) (now : Z) (sideEffect : Service → result Service) (s : Service) : result Service :=
  guard_err (negb (Kind e =? KIND_EDIT_METADATA) && negb (Kind e =? KIND_PINS))
    ("unsupported: projection event kind " +:+ Itoa (Kind e));;
  s' ← sideEffect s;
  mret (EnqueueProjectionTx e now s').

Section Membership.
Context `{GoUnicode}.

Definition is_leave (kind : Z) : bool := (kind =? KIND_LEAVE) || (kind =? KIND_NIP43_LEAVE).
Definition is_join (kind : Z) : bool := (kind =? KIND_JOIN) || (kind =? KIND_NIP43_JOIN).

(** The claim of a join: its code tag, or its claim tag for NIP-43. *)
Definition join_claim (e : Event) : string :=
  if Kind e =? KIND_NIP43_JOIN then tagValue e "claim" else tagValue e "code".

(** Admission of a key without a row that is not asking for access. *)
Definition admit_key (pol : Policy) (e : Event) (now : Z) (s : Service) : result Service :=
  let claim := join_claim e in
  if String.eqb claim "" then
    guard_err ((Kind e =? KIND_NIP43_JOIN) || negb (String.eqb (Writes pol) "open")) "restricted: a join request needs an invite claim";;
    checkTerms (JoinTerms pol) (tagValue e "terms");;
    mret (join_via (PubKey e) "" "join" now s)
  else
    i ← usable_invite s claim now;
    checkTerms (JoinTerms pol) (tagValue e "terms");;
    s' ← use_invite claim i s;
    mret (join_via (PubKey e) (I_CreatedBy i) ("invite " +:+ claim) now s').

(** The transaction's result and database; [None] marks a return before the
    projection. *)
Definition membership_tx (pol : Policy) (e : Event) (now : Z) (s : Service) : result (MembershipResult * option Service * Service) :=
  let exists_ := match member_of s (PubKey e) with Some _ => true | None => false end in
  if is_leave (Kind e) then
    guard_err (String.eqb (PubKey e) (s_owner s)) "restricted: the owner cannot leave";;
    if negb exists_ then
      if Kind e =? KIND_NIP43_LEAVE then mret (mkMembershipResult true "duplicate: not a member" false false false, None, s)
      else Err "invalid: not a member"
    else
      mret (mkMembershipResult true "info: access revoked" (Kind e =? KIND_LEAVE) false false,
            Some (on_tables (delete_member (PubKey e)) s), s)
  else if exists_ then mret (mkMembershipResult true "duplicate: already a member" false false false, None, s)
  else if IsAccessRequest e then
    '(created, s') ← recordJoinRequestTx (PubKey e) (JoinReason (Content e)) now s;
    mret (mkMembershipResult true JoinRequestReceived false true created, None, s')
  else
    s' ← admit_key pol e now s;
    mret (mkMembershipResult true "info: welcome" (Kind e =? KIND_JOIN) false false, Some s', s).

Definition HandleMembershipEventTx (pol : Policy) (e : Event) (now : Z) (persist : Service → result Service) (s : Service)
    : Service * result MembershipResult :=
  if negb (is_join (Kind e) || is_leave (Kind e)) then
    refuse ("unsupported: transactional membership event kind " +:+ Itoa (Kind e)) s
  else withTx s (
    '(out, go_on, early) ← membership_tx pol e now s;
    match go_on with
    | None => mret (out, early)
    | Some s' =>
      let s' := EnqueueProjectionTx e now s' in
      s'' ← (if MR_Stored out then persist s' else mret s');
      mret (out, s'')
    end).

(** [len(tag) > 2 && tag[0] == "p" && tag[1] == target && tag[2] == "moderator"] for some tag *)
Definition wants_moderator (e : Event) (target : string) : bool :=
  existsb (λ t, match t with
                | n :: v :: r :: _ => String.eqb n "p" && String.eqb v target && String.eqb r "moderator"
                | _ => false
                end) (etags e).

(** The e tags that name an event. *)
Definition deleted_ids (e : Event) : list string :=
  omap (λ t, match t with
             | n :: v :: _ => if String.eqb n "e" && validPubKey v then Some v else None
             | _ => None
             end) (etags e).

Definition delete_event_rows (ids : list string) : Service → Service :=
  on_store (λ db, fold_left (λ db id, (delete_events (λ r, String.eqb (r_id r) id) db).1) ids db).

(** The upsert of put-user. *)
Definition put_user (target role : string) (now : Z) (t : Roster) : Roster :=
  match r_members t !! target with
  | Some m => update_member target (member_role m role) t
  | None => insert_member target (mkMember "" "" role "" "put-user" now 0) t
  end.

Definition moderation_tx (pol : Policy) (random : list Z) (role : string) (e : Event) (now : Z) (s : Service) : result Service :=
  let target := tagValue e "p" in
  if (Kind e =? KIND_PUT_USER) || (Kind e =? KIND_REMOVE_USER) then
    guard_err (negb (validPubKey target)) "invalid: membership event needs a p tag";;
    guard_err (String.eqb target (s_owner s)) "invalid: the owner role cannot change";;
    guard_err (String.eqb (row_role s target) "moderator" && negb (String.eqb role "owner"))
      "restricted: only the owner changes moderators";;
    if Kind e =? KIND_REMOVE_USER then mret (on_tables (delete_member target) s)
    else
      let wantsMod := wants_moderator e target in
      guard_err (wantsMod && negb (String.eqb role "owner")) "restricted: only the owner appoints moderators";;
      mret (on_tables (put_user target (if wantsMod then "moderator" else "member") now) s)
  else if Kind e =? KIND_DELETE_EVENT then
    guard_err (match deleted_ids e with [] => true | _ => false end) "invalid: delete-event needs an e tag";;
    mret (delete_event_rows (deleted_ids e) s)
  else
    (if String.eqb role "member" then
       match memberInviteGate pol s (PubKey e) now with "" => mret tt | reason => Err reason end
     else mret tt);;
    let code := tagValue e "code" in
    guard_err (negb (String.eqb code "") && negb (codeRE code)) "invalid: invite code";;
    insert_invite (if String.eqb code "" then hex_encode random else code)
      (mkInvite (PubKey e) now (now + 3 * 86400) 0 0 (cut 200 (Content e))) s.

Definition moderation_kind (kind : Z) : bool :=
  (kind =? KIND_PUT_USER) || (kind =? KIND_REMOVE_USER) || (kind =? KIND_DELETE_EVENT) || (kind =? KIND_CREATE_INVITE).

Definition HandleModerationEventTx (pol : Policy) (random : list Z) (e : Event) (now : Z) (persist : Service → result Service)
    (s : Service) : Service * result MembershipResult :=
  if negb (moderation_kind (Kind e)) then refuse ("unsupported: transactional moderation event kind " +:+ Itoa (Kind e)) s
  else
    let role := Role s (PubKey e) in
    if negb (String.eqb role "owner") && negb (String.eqb role "moderator")
       && negb ((Kind e =? KIND_CREATE_INVITE) && String.eqb role "member")
    then refuse "restricted: not a group admin" s
    else withTx s (
      s' ← moderation_tx pol random role e now s;
      s'' ← persist (EnqueueProjectionTx e now s');
      mret (mkMembershipResult true "" true false false, s'')).
End Membership.
