(* ===== verification/Rooms.v ===== *)
(** * internal/community: rooms

    The NIP-29 rooms of rooms.go: the slug room that mirrors the roster, roles
    inside a room, who may read and write, and the management events. *)

From S2P Require Import Prelude GoLib GoCodec GoLemmas GoStrings Nostr Filter Store StoreQuery Policy Sites Roster Agents Community Membership.

Definition RoomOpen : string := "open".
Definition RoomMembers_ : string := "members".
Definition RoomRoleOwner : string := "owner".
Definition RoomRoleAdmin : string := "admin".
Definition RoomRoleMember : string := "member".

(** [regexp.MustCompile("^[a-z0-9_-]{1,64}$")] *)
Definition ValidRoomID (id : string) : bool :=
  forallb (λ b, name_byte b || (b =? 95) || (b =? 45)) (bytes_of id) && (1 <=? len id) && (len id <=? 64).

Definition RoomAdminKind (kind : Z) : bool :=
  containsInt [KIND_PUT_USER; KIND_REMOVE_USER; KIND_EDIT_METADATA; KIND_DELETE_EVENT; KIND_CREATE_GROUP; KIND_DELETE_GROUP;
    KIND_CREATE_INVITE; KIND_PINS; KIND_JOIN; KIND_LEAVE] kind.
Definition RoomNoticeKind (kind : Z) : bool := (kind =? KIND_ROOM_MEMBER_ADDED) || (kind =? KIND_ROOM_MEMBER_REMOVED).
Definition RoomAccessFor (reads : string) : string := if String.eqb reads "members" then RoomMembers_ else RoomOpen.

Definition no_room : Room := mkRoom "" "" "" "" "" "" 0 "" 0.

(** [Room]: the row or the empty room. *)
Definition room_row (s : Service) (id : string) : Room := default no_room (r_rooms (tables s) !! id).

(** ** The slug room *)

Definition set_access (access : string) (r : Room) : Room :=
  mkRoom (R_ID r) (R_Name r) (R_About r) (R_Picture r) access (R_CreatedBy r) (R_CreatedAt r) (R_EventID r) (R_DeletedAt r).
Definition set_deleted (at_ : Z) (r : Room) : Room :=
  mkRoom (R_ID r) (R_Name r) (R_About r) (R_Picture r) (R_Access r) (R_CreatedBy r) (R_CreatedAt r) (R_EventID r) at_.

(** The statements of [EnsureSlugRoom], apart from the clean-up of projection
    work when the room is new. *)
Definition mirror_all (slug : string) (t : Roster) : Roster :=
  map_fold (λ pk m t, put_room_member slug pk (mirror_role (M_Role m)) (M_CreatedAt m) t) t (r_members t).

Definition EnsureSlugRoom `{GoPrint} (slug access : string) (now : Z) (s : Service) : Service * result unit :=
  if negb (ValidRoomID slug) then refuse ("invalid: room id " +:+ Quote slug) s
  else
    let access := if String.eqb access RoomMembers_ then RoomMembers_ else RoomOpen in
    let t := upd_meta (<["rooms.slug" := slug]>) (tables s) in
    let t := upd_rooms (λ rooms, <[slug := match rooms !! slug with
                                           | Some r => set_deleted 0 (set_access access r)
                                           | None => mkRoom slug "" "" "" access (s_owner s) now "" 0
                                           end]> rooms) t in
    let t := mirror_all slug t in
    let t := upd_room_members (filter (λ kv, kv.1.1 = slug → is_Some (r_members t !! kv.1.2))) t in
    (mkService (s_db (on_tables (λ _, t) s)) (s_store s) (s_owner s) slug, mret tt).

(** ** Roles and access *)

Definition roomRoleTx (s : Service) (room pubkey : string) : string :=
  from_option RM_Role "" (r_room_members (tables s) !! (room, pubkey)).

Definition impliedRoomRole (tenantRole : string) : string :=
  if String.eqb tenantRole "owner" then RoomRoleOwner
  else if String.eqb tenantRole "moderator" then RoomRoleAdmin else "".

Definition effectiveRoomRoleTx (s : Service) (room pubkey : string) : string :=
  let role := roomRoleTx s room pubkey in
  if String.eqb role "" then impliedRoomRole (Role s pubkey) else role.

Definition RoomRole (s : Service) (room pubkey : string) : string :=
  if String.eqb pubkey "" then "" else effectiveRoomRoleTx s room pubkey.

Definition roomAdmin (role : string) : bool := String.eqb role RoomRoleOwner || String.eqb role RoomRoleAdmin.

(** [EXISTS(SELECT 1 FROM community_members WHERE pubkey=?)] and the other
    membership questions of query.go. *)
Definition IsMember (s : Service) (pubkey : string) : bool := match member_of s pubkey with Some _ => true | None => false end.
Definition IsBanned (s : Service) (pubkey : string) : bool := match r_bans (tables s) !! pubkey with Some _ => true | None => false end.
Definition IsEventBanned (s : Service) (id : string) : bool :=
  match r_event_bans (tables s) !! id with Some _ => true | None => false end.
Definition IsIPBlocked (s : Service) (ip : string) : bool := match r_ip_blocks (tables s) !! ip with Some _ => true | None => false end.

Definition MemberByName (s : Service) (name : string) : option (string * Member) :=
  List.find (λ km : string * Member, String.eqb (M_Name km.2) name) (map_to_list (r_members (tables s))).
Definition MemberName (s : Service) (pubkey : string) : string := from_option M_Name "" (member_of s pubkey).
Definition NIP05 (s : Service) (name relayURL : string) : list (string * string) * list (string * list string) :=
  match MemberByName s name with
  | Some (pk, _) => if String.eqb pk "" then ([], []) else ([(name, pk)], [(pk, [relayURL])])
  | None => ([], [])
  end.

(** Whether the key may post, and whether posting makes it join. *)
Definition RoomWriteAllowed (s : Service) (room pubkey : string) : bool * bool :=
  let r := room_row s room in
  if negb (Live r) then (false, false)
  else if negb (String.eqb (RoomRole s room pubkey) "") then (true, false)
  else if negb (String.eqb (R_Access r) RoomOpen) then (false, false)
  else (IsMember s pubkey, IsMember s pubkey).

Definition RoomVisible (s : Service) (room : string) (keys : list string) : bool :=
  let r := room_row s room in
  if negb (Live r) then false
  else if negb (String.eqb (R_Access r) RoomMembers_) then true
  else existsb (λ key, negb (String.eqb (RoomRole s room key) "")) keys.

(** ** Room events *)

Section Rooms.
Context `{GoUnicode} `{GoPrint}.

Definition set_room_member (room pubkey role : string) (now : Z) : Service → Service :=
  on_tables (put_room_member room pubkey role now).
Definition drop_room_member (room pubkey : string) : Service → Service :=
  on_tables (upd_room_members (delete (room, pubkey))).

(** [INSERT OR IGNORE] and [INSERT] of a membership. *)
Definition add_room_member (room pubkey : string) (now : Z) (s : Service) : Service :=
  match r_room_members (tables s) !! (room, pubkey) with
  | Some _ => s
  | None => set_room_member room pubkey RoomRoleMember now s
  end.
Definition insert_room_member (room pubkey : string) (now : Z) (s : Service) : result Service :=
  match r_room_members (tables s) !! (room, pubkey) with
  | Some _ => Err "constraint failed: UNIQUE constraint failed: room_members.room_id, room_members.pubkey (1555)"
  | None => mret (set_room_member room pubkey RoomRoleMember now s)
  end.

(** The room of a message; a tenant member joins an open room by posting. *)
Definition HandleRoomMessageTx (e : Event) (now : Z) (persist : Service → result Service) (s : Service) : Service * result unit :=
  let room := tagValue e "h" in
  withTx s (
    let r := room_row s room in
    guard_err (negb (Live r)) ("invalid: unknown room " +:+ room);;
    s' ← (if String.eqb (effectiveRoomRoleTx s room (PubKey e)) "" then
            guard_err (negb (String.eqb (R_Access r) RoomOpen) || String.eqb (Role s (PubKey e)) "")
              ("restricted: not a member of room " +:+ room);;
            mret (add_room_member room (PubKey e) now s)
          else mret s);
    s'' ← persist s';
    mret (tt, s'')).

(** The p tag target and the room role it asks for. *)
Definition roomTarget (e : Event) : string * string :=
  match List.find (λ t, match t with n :: _ :: _ => String.eqb n "p" | _ => false end) (etags e) with
  | Some (_ :: v :: rest) =>
    (v, match rest with
        | role :: _ =>
          let role := ToLower (TrimSpace role) in
          if String.eqb role RoomRoleOwner then RoomRoleOwner
          else if String.eqb role RoomRoleAdmin || String.eqb role "moderator" then RoomRoleAdmin else RoomRoleMember
        | [] => RoomRoleMember
        end)
  | _ => ("", RoomRoleMember)
  end.

Definition roomAccessValue (value : string) : option string :=
  let v := ToLower value in
  if contains ["open"; "public"] v then Some RoomOpen
  else if contains ["members"; "members-only"; "private"; "closed"; "invite"] v then Some RoomMembers_
  else None.

Definition metadata_tag (r : Room) (tag : list string) : Room :=
  match tag with
  | [] => r
  | name :: rest =>
    let value := match rest with v :: _ => TrimSpace v | [] => "" end in
    let alone := match rest with [] => true | _ => false end in
    if String.eqb name "name" then
      mkRoom (R_ID r) (cut 200 value) (R_About r) (R_Picture r) (R_Access r) (R_CreatedBy r) (R_CreatedAt r) (R_EventID r) (R_DeletedAt r)
    else if String.eqb name "about" then
      mkRoom (R_ID r) (R_Name r) (cut 2000 value) (R_Picture r) (R_Access r) (R_CreatedBy r) (R_CreatedAt r) (R_EventID r) (R_DeletedAt r)
    else if String.eqb name "picture" then
      mkRoom (R_ID r) (R_Name r) (R_About r) (cut 2000 value) (R_Access r) (R_CreatedBy r) (R_CreatedAt r) (R_EventID r) (R_DeletedAt r)
    else if contains ["visibility"; "channel_type"; "access"] name then
      match roomAccessValue value with Some access => set_access access r | None => r end
    else if contains ["open"; "public"] name then if alone then set_access RoomOpen r else r
    else if contains ["closed"; "private"] name then if alone then set_access RoomMembers_ r else r
    else r
  end.

Definition roomMetadata (e : Event) (current : Room) : Room :=
  let next := fold_left metadata_tag (etags e) current in
  if String.eqb (R_Access next) RoomMembers_ then next else set_access RoomOpen next.

Definition roomAction (kind : Z) : string :=
  if kind =? KIND_EDIT_METADATA then "edit-room" else if kind =? KIND_PUT_USER then "room-put-user"
  else if kind =? KIND_REMOVE_USER then "room-remove-user" else if kind =? KIND_JOIN then "room-join"
  else if kind =? KIND_LEAVE then "room-leave" else if kind =? KIND_DELETE_EVENT then "room-delete-event"
  else if kind =? KIND_DELETE_GROUP then "delete-room" else "room".

Definition room_owners (s : Service) (room : string) : Z :=
  Z.of_nat (List.length (List.filter (λ kv : (string * string) * RoomMember,
    String.eqb kv.1.1 room && String.eqb (RM_Role kv.2) "owner") (map_to_list (r_room_members (tables s))))).
Definition guardLastOwnerTx (s : Service) (room : string) : result unit :=
  guard_err (room_owners s room <=? 1) "restricted: a room keeps at least one owner; appoint another owner first".

Definition enqueueRoomProjectionTx (eventID room : string) (deleted : bool) (now : Z) : Service → Service :=
  let payload := "{" +:+ quote "action" +:+ ":" +:+ quote "room" +:+ "," +:+ quote "room" +:+ ":" +:+ Quote room
                 +:+ (if deleted then "," +:+ quote "deleted" +:+ ":1" else "") +:+ "}" in
  enqueue_projection ("room-" +:+ room +:+ "-" +:+ eventID) "room" payload now.

(** How many live rooms there are besides the slug room. *)
Definition live_rooms (s : Service) : Z :=
  Z.of_nat (List.length (List.filter (λ kr : string * Room, (R_DeletedAt kr.2 =? 0) && negb (String.eqb kr.1 (s_slug s)))
    (map_to_list (r_rooms (tables s))))).

Definition createRoomTx (pol : Policy) (e : Event) (room : Room) (now : Z) (s : Service) : result Service :=
  guard_err (Live room) "duplicate: a room with this id exists";;
  guard_err (Rooms pol <=? 0) "restricted: room creation is switched off on this relay";;
  guard_err (Rooms pol <=? live_rooms s) ("restricted: this relay allows " +:+ Itoa (Rooms pol) +:+ " rooms");;
  let id := tagValue e "h" in
  let meta := roomMetadata e (mkRoom id "" "" "" RoomOpen "" 0 "" 0) in
  let name := if String.eqb (R_Name meta) "" then id else R_Name meta in
  let row := mkRoom id name (R_About meta) (R_Picture meta) (R_Access meta) (PubKey e) now (ID e) 0 in
  let s := on_tables (upd_rooms (<[id := row]>)) s in
  let s := on_tables (upd_room_members (filter (λ kv, kv.1.1 ≠ id))) s in
  let s := set_room_member id (PubKey e) RoomRoleOwner now s in
  mret (record (PubKey e) "create-room" id (R_Access meta) s).

(** [SELECT pubkey FROM events WHERE id=? AND EXISTS(... name='h' AND value=?)] *)
Definition room_message_author (db : DB) (id room : string) : option string :=
  match List.find (λ r, String.eqb (r_id r) id) (events db) with
  | Some r => if has_tag db id "h" [room] then Some (r_pubkey r) else None
  | None => None
  end.

Fixpoint delete_room_messages (admin : bool) (pubkey room : string) (ids : list string) (s : Service) : result Service :=
  match ids with
  | [] => mret s
  | id :: rest =>
    match room_message_author (s_store s) id room with
    | None => delete_room_messages admin pubkey room rest s
    | Some author =>
      guard_err (negb admin && negb (String.eqb author pubkey)) "restricted: only room admins delete other people's messages";;
      delete_room_messages admin pubkey room rest (delete_event_rows [id] s)
    end
  end.

(** What an event does to a live room: [inl] ends the transaction with a
    duplicate answer, [inr] goes on to the audit record and [persist]. *)
Definition room_event_body (e : Event) (room : Room) (role : string) (now : Z) (s : Service) : result (string + Service) :=
  let id := tagValue e "h" in
  let kind := Kind e in
  if kind =? KIND_EDIT_METADATA then
    guard_err (negb (roomAdmin role)) "restricted: only room admins edit the room";;
    let meta := roomMetadata e room in
    let s := on_tables (upd_rooms (alter (λ r, mkRoom (R_ID r) (R_Name meta) (R_About meta) (R_Picture meta) (R_Access meta)
                                               (R_CreatedBy r) (R_CreatedAt r) (R_EventID r) (R_DeletedAt r)) id)) s in
    mret (inr (enqueueRoomProjectionTx (ID e) id false now s))
  else if kind =? KIND_PUT_USER then
    guard_err (negb (roomAdmin role)) "restricted: only room admins add members";;
    let '(target, wanted) := roomTarget e in
    guard_err (negb (validPubKey target)) "invalid: membership event needs a p tag";;
    guard_err (String.eqb (Role s target) "") "restricted: the person must be a member of this relay first";;
    guard_err (String.eqb wanted RoomRoleOwner && negb (String.eqb role RoomRoleOwner)) "restricted: only a room owner appoints owners";;
    mret (inr (set_room_member id target wanted now s))
  else if kind =? KIND_REMOVE_USER then
    guard_err (negb (roomAdmin role)) "restricted: only room admins remove members";;
    let '(target, _) := roomTarget e in
    guard_err (negb (validPubKey target)) "invalid: membership event needs a p tag";;
    let current := roomRoleTx s id target in
    if String.eqb current "" then mret (inl "duplicate: not a member")
    else
      (if String.eqb current RoomRoleOwner then
         guard_err (negb (String.eqb role RoomRoleOwner)) "restricted: only a room owner removes an owner";;
         guardLastOwnerTx s id
       else mret tt);;
      mret (inr (drop_room_member id target s))
  else if kind =? KIND_JOIN then
    if negb (String.eqb (roomRoleTx s id (PubKey e)) "") then mret (inl "duplicate: already a member")
    else
      guard_err (negb (String.eqb (R_Access room) RoomOpen)) "restricted: this room is members-only; ask a room admin to add you";;
      s' ← insert_room_member id (PubKey e) now s;
      mret (inr s')
  else if kind =? KIND_LEAVE then
    let current := roomRoleTx s id (PubKey e) in
    guard_err (String.eqb current "") "invalid: not a member of this room";;
    (if String.eqb current RoomRoleOwner then guardLastOwnerTx s id else mret tt);;
    mret (inr (drop_room_member id (PubKey e) s))
  else if kind =? KIND_DELETE_EVENT then
    guard_err (match deleted_ids e with [] => true | _ => false end) "invalid: delete-event needs an e tag";;
    s' ← delete_room_messages (roomAdmin role) (PubKey e) id (deleted_ids e) s;
    mret (inr s')
  else if kind =? KIND_DELETE_GROUP then
    guard_err (negb (String.eqb role RoomRoleOwner)) "restricted: only a room owner deletes the room";;
    let s := on_tables (upd_rooms (alter (set_deleted now) id)) s in
    let s := on_tables (upd_room_members (filter (λ kv, kv.1.1 ≠ id))) s in
    let s := on_store (λ db, (delete_events (λ r, has_tag db (r_id r) "h" [id]) db).1) s in
    mret (inr (enqueueRoomProjectionTx (ID e) id true now s))
  else mret (inr s).

Definition room_ok : MembershipResult := mkMembershipResult true "" true false false.

Definition HandleRoomEventTx (pol : Policy) (e : Event) (now : Z) (persist : Service → result Service) (s : Service)
    : Service * result MembershipResult :=
  let id := tagValue e "h" in
  if negb (validPubKey (PubKey e)) then refuse "invalid: event pubkey" s
  else if negb (ValidRoomID id) then refuse "invalid: a room id is 1 to 64 characters of a-z, 0-9, - and _" s
  else if String.eqb id (s_slug s) then refuse "invalid: the main room is managed by the relay" s
  else if negb (RoomAdminKind (Kind e)) then refuse ("unsupported: room event kind " +:+ Itoa (Kind e)) s
  else if (Kind e =? KIND_CREATE_INVITE) || (Kind e =? KIND_PINS) then
    refuse ("unsupported: kind " +:+ Itoa (Kind e) +:+ " is not available inside rooms") s
  else if String.eqb (Role s (PubKey e)) "" then refuse "restricted: rooms are for members of this relay" s
  else withTx s (
    let room := room_row s id in
    if Kind e =? KIND_CREATE_GROUP then
      s' ← createRoomTx pol e room now s;
      s'' ← persist s';
      mret (room_ok, s'')
    else
      guard_err (negb (Live room)) ("invalid: unknown room " +:+ id);;
      body ← room_event_body e room (effectiveRoomRoleTx s id (PubKey e)) now s;
      match body with
      | inl message => mret (mkMembershipResult true message false false false, s)
      | inr s' =>
        s'' ← persist (record (PubKey e) (roomAction (Kind e)) id (TrimSpace (tagValue e "p")) s');
        mret (room_ok, s'')
      end).
End Rooms.
