(* ===== verification/GrantRequests.v ===== *)
(** * internal/community: agent grant requests (agent_grant_requests.go)

    An agent asks for a change of its grant with a comment that carries the
    change as JSON; the operator answers with a replacement grant the tenant
    compares with the change it reviewed.  The first JSON value of a text and
    the text after it, as [json.Decoder.Decode] reads them, are the parameter
    [json_value]; the raw column of a row is the canonical JSON of its event. *)

From S2P Require Import Prelude GoLib GoCodec GoLemmas GoStrings Nostr Filter Store Policy Sites Roster Agents Community Membership Rooms.

Definition agentGrantReasonMax : Z := 500.

(** [None]: the text holds no further value ([io.EOF]). *)
Class GoJsonDecoder := { json_value : string → option (option (json * string)) }.

Record AgentGrantChanges := mkChanges {
  Ch_Kinds : option (list Z); Ch_Rooms : option (list string); Ch_Repos : option (list AgentRepo);
  Ch_Sites : option (list AgentSite); Ch_Wiki : option string; Ch_Jobs : option string; Ch_Rate : option Z }.
Record AgentGrantRequest := mkGrantRequest { Rq_Base : string; Rq_Changes : AgentGrantChanges }.
Record AgentGrantReview := mkReview {
  Rv_RequestID : string; Rv_Base : string; Rv_Agent : string; Rv_Operator : string;
  Rv_Before : AgentGrant; Rv_After : AgentGrant; Rv_Unsigned : Event }.

#[export] Instance AgentRepo_eq_dec : EqDecision AgentRepo.
Proof. solve_decision. Defined.
#[export] Instance AgentSite_eq_dec : EqDecision AgentSite.
Proof. solve_decision. Defined.
#[export] Instance AgentScope_eq_dec : EqDecision AgentScope.
Proof. solve_decision. Defined.

Definition no_changes : AgentGrantChanges := mkChanges None None None None None None None.
Definition no_grant_request : AgentGrantRequest := mkGrantRequest "" no_changes.

(** ** Decoding the change *)

(** An array into a slice: an element of a member that was given before is
    decoded over the element already there. *)
Fixpoint decode_elems {A} (zero : A) (dec : A → json → option A) (old : list A) (l : list json) : option (list A) :=
  match l with
  | [] => Some []
  | j :: r => a ← dec (hd zero old) j; rest ← decode_elems zero dec (tl old) r; Some (a :: rest)
  end.
Definition decode_slice {A} (zero : A) (dec : A → json → option A) (old : option (list A)) (j : json)
    : option (option (list A)) :=
  match j with
  | JArr l => Some <$> decode_elems zero dec (default [] old) l
  | JNull => Some None
  | _ => None
  end.
Definition decode_pointer {A} (zero : A) (dec : A → json → option A) (old : option A) (j : json) : option (option A) :=
  match j with JNull => Some None | _ => Some <$> dec (default zero old) j end.
Definition decode_bool (old : bool) (j : json) : option bool :=
  match j with JBool b => Some b | JNull => Some old | _ => None end.

(** The members of an object, in order; an unknown one is an error. *)
Fixpoint decode_object {A} (field : A → string * json → option A) (a : A) (m : list (string * json)) : option A :=
  match m with [] => Some a | kv :: r => a' ← field a kv; decode_object field a' r end.
Definition decode_struct {A} (field : A → string * json → option A) (old : A) (j : json) : option A :=
  match j with JObj m => decode_object field old m | JNull => Some old | _ => None end.

Section Decode.
Context `{GoUnicode}.

Definition names (key field : string) : bool := String.eqb key field || EqualFold field key.

Definition repo_field (r : AgentRepo) (kv : string * json) : option AgentRepo :=
  let '(key, v) := kv in
  if names key "owner" then (λ s, mkAgentRepo s (AR_Identifier r) (AR_Level r)) <$> decode_string (AR_Owner r) v
  else if names key "identifier" then (λ s, mkAgentRepo (AR_Owner r) s (AR_Level r)) <$> decode_string (AR_Identifier r) v
  else if names key "level" then (λ s, mkAgentRepo (AR_Owner r) (AR_Identifier r) s) <$> decode_string (AR_Level r) v
  else None.

Definition site_field (s : AgentSite) (kv : string * json) : option AgentSite :=
  let '(key, v) := kv in
  if names key "label" then (λ l, mkAgentSite l (AS_TTLDays s) (AS_Encrypted s)) <$> decode_string (AS_Label s) v
  else if names key "ttl" then (λ n, mkAgentSite (AS_Label s) n (AS_Encrypted s)) <$> decode_int (AS_TTLDays s) v
  else if names key "encrypted" then (λ b, mkAgentSite (AS_Label s) (AS_TTLDays s) b) <$> decode_bool (AS_Encrypted s) v
  else None.

Definition changes_field (c : AgentGrantChanges) (kv : string * json) : option AgentGrantChanges :=
  let '(key, v) := kv in
  let '(mkChanges kinds rooms repos sites wiki jobs rate) := c in
  if names key "kinds" then (λ x, mkChanges x rooms repos sites wiki jobs rate) <$> decode_slice 0 decode_int kinds v
  else if names key "rooms" then (λ x, mkChanges kinds x repos sites wiki jobs rate) <$> decode_slice "" decode_string rooms v
  else if names key "repos" then
    (λ x, mkChanges kinds rooms x sites wiki jobs rate) <$> decode_slice (mkAgentRepo "" "" "") (decode_struct repo_field) repos v
  else if names key "sites" then
    (λ x, mkChanges kinds rooms repos x wiki jobs rate) <$> decode_slice (mkAgentSite "" 0 false) (decode_struct site_field) sites v
  else if names key "wiki" then (λ x, mkChanges kinds rooms repos sites x jobs rate) <$> decode_pointer "" decode_string wiki v
  else if names key "jobs" then (λ x, mkChanges kinds rooms repos sites wiki x rate) <$> decode_pointer "" decode_string jobs v
  else if names key "rate" then (λ x, mkChanges kinds rooms repos sites wiki jobs x) <$> decode_pointer 0 decode_int rate v
  else None.

Definition request_field (q : AgentGrantRequest) (kv : string * json) : option AgentGrantRequest :=
  let '(key, v) := kv in
  if names key "base" then (λ s, mkGrantRequest s (Rq_Changes q)) <$> decode_string (Rq_Base q) v
  else if names key "changes" then (λ c, mkGrantRequest (Rq_Base q) c) <$> decode_struct changes_field (Rq_Changes q) v
  else None.
End Decode.

(** No key is given twice. *)
Fixpoint distinct_by {A} (key : A → string) (seen : list string) (l : list A) : bool :=
  match l with
  | [] => true
  | a :: r => negb (contains seen (key a)) && distinct_by key (key a :: seen) r
  end.

Definition repo_key (r : AgentRepo) : string := AR_Owner r +:+ ":" +:+ AR_Identifier r.

Fixpoint sites_check (seen : list string) (l : list AgentSite) : result unit :=
  match l with
  | [] => mret tt
  | s :: r =>
    guard_err (contains seen (AS_Label s) || (AS_TTLDays s <? 0)) "invalid: duplicate site or negative TTL in grant request";;
    sites_check (AS_Label s :: seen) r
  end.

Definition validateGrantChanges (c : AgentGrantChanges) : result unit :=
  guard_err (existsb (λ room, negb (ValidRoomID room)) (default [] (Ch_Rooms c))) "invalid: grant request room";;
  guard_err (negb (distinct_by repo_key [] (default [] (Ch_Repos c)))) "invalid: repeated repository in grant request";;
  sites_check [] (default [] (Ch_Sites c)).

Definition request_tag_names : list string :=
  ["request"; "grant"; "E"; "K"; "P"; "e"; "k"; "p"; "subject"; "expiration"].

Fixpoint request_tags (seen : list string) (l : list (list string)) : result unit :=
  match l with
  | [] => mret tt
  | tag :: r =>
    let name := hd "" tag in
    guard_err (Nat.eqb (List.length tag) 0 || negb (contains request_tag_names name)) "invalid: grant request contains an unsupported tag";;
    guard_err (contains seen name) "invalid: grant request contains duplicate tags";;
    request_tags (name :: seen) r
  end.

Definition nothing_asked (c : AgentGrantChanges) : bool :=
  match c with mkChanges None None None None None None None => true | _ => false end.

Section Requests.
Context `{GoUnicode} `{GoJsonDecoder}.

Definition decodeGrantRequest (e : Event) : result AgentGrantRequest :=
  guard_err (negb (IsAgentGrantRequest e)) "invalid: not an agent grant request";;
  guard_err (String.eqb (TrimSpace (Content e)) "" || (agentGrantReasonMax <? Z.of_nat (List.length (runes (Content e)))))
    "invalid: grant request rationale must be 1 to 500 characters";;
  guard_err (negb (valid_utf8 (Content e))) "invalid: grant request rationale is not valid UTF-8";;
  match json_value (Tag e "grant") with
  | Some (Some (j, rest)) =>
    match decode_struct request_field no_grant_request j with
    | Some req =>
      guard_err (String.eqb (Rq_Base req) "") "invalid: grant request needs a base and changes";;
      guard_err (match json_value rest with None => false | Some _ => true end) "invalid: grant request JSON has trailing data";;
      request_tags [] (etags e);;
      guard_err (nothing_asked (Rq_Changes req)) "invalid: grant request has no changes";;
      validateGrantChanges (Rq_Changes req);;
      mret req
    | None => Err "invalid: grant request needs a base and changes"
    end
  | _ => Err "invalid: grant request needs a base and changes"
  end.

(** The reactions with which the operator has answered the request. *)
Definition denials (db : DB) (request : Event) (now : Z) : list EventRow :=
  List.filter (λ r, (r_kind r =? 7) && String.eqb (r_pubkey r) (Tag request "p")
    && ((r_expires r =? 0) || (now <? r_expires r)) && has_tag db (r_id r) "e" [ID request]
    && String.eqb (TrimSpace (Content (r_raw r))) "-") (events db).

Definition grantRequestOpen (db : DB) (request : Event) (now : Z) : result unit :=
  let expires := Expiration request in
  guard_err (negb (expires =? 0) && (expires <=? now)) "conflict: grant request has expired";;
  guard_err (negb (Nat.eqb (List.length (denials db request now)) 0)) "conflict: grant request was denied".
End Requests.

(** ** The tags of the changed grant *)

(** [len(tag) > 1 && tag[0] == name]: the value. *)
Definition tag_value (name : string) (tag : list string) : option string :=
  match tag with n :: v :: _ => if String.eqb n name then Some v else None | _ => None end.

Definition replaced_repo (c : AgentGrantChanges) (value : string) : bool :=
  match SplitN value (char 58) 3 with
  | [owner; identifier; _] => contains (repo_key <$> default [] (Ch_Repos c)) (owner +:+ ":" +:+ identifier)
  | _ => false
  end.
Definition replaced_site (c : AgentGrantChanges) (label : string) : bool := contains (AS_Label <$> default [] (Ch_Sites c)) label.

Definition removed_names (c : AgentGrantChanges) : list string :=
  (if Ch_Wiki c is Some _ then ["wiki"] else []) ++ (if Ch_Jobs c is Some _ then ["jobs"] else [])
  ++ (if Ch_Rate c is Some _ then ["rate"] else []).

Definition provenance_tag (tag : list string) : bool :=
  match tag with
  | n :: r => String.eqb n "grant-request" || String.eqb n "grant-base"
      || String.eqb n "e" && match r with _ :: _ :: marker :: _ => String.eqb marker "grant-request" | _ => false end
  | [] => false
  end.

Definition kept_tag (c : AgentGrantChanges) (tag : list string) : bool :=
  match tag with
  | [] => false
  | n :: _ =>
    negb (contains (removed_names c) n) && negb (provenance_tag tag)
    && negb (from_option (replaced_repo c) false (tag_value "repo" tag))
    && negb (from_option (replaced_site c) false (tag_value "sites" tag))
  end.

(** The values not yet seen, each once. *)
Fixpoint unseen (seen : list string) (l : list string) : list string :=
  match l with
  | [] => []
  | v :: r => if contains seen v then unseen seen r else v :: unseen (v :: seen) r
  end.

Definition site_tag (s : AgentSite) : list string :=
  ["sites"; AS_Label s] ++ (if 0 <? AS_TTLDays s then ["ttl=" +:+ Itoa (AS_TTLDays s)] else [])
  ++ (if AS_Encrypted s then ["encrypted"] else []).

Definition added_tags (kept : list (list string)) (c : AgentGrantChanges) : list (list string) :=
  ((λ v, ["k"; v]) <$> unseen (omap (tag_value "k") kept) (Itoa <$> default [] (Ch_Kinds c)))
  ++ ((λ v, ["room"; v]) <$> unseen (omap (tag_value "room") kept) (default [] (Ch_Rooms c)))
  ++ ((λ r, ["repo"; repo_key r +:+ ":" +:+ AR_Level r]) <$> default [] (Ch_Repos c))
  ++ (site_tag <$> default [] (Ch_Sites c))
  ++ (if Ch_Wiki c is Some v then [["wiki"; v]] else [])
  ++ (if Ch_Jobs c is Some v then [["jobs"; v]] else [])
  ++ (if Ch_Rate c is Some n then [["rate"; Itoa n]] else []).

Definition grantRequestTags (tags : list (list string)) (c : AgentGrantChanges) : list (list string) :=
  let kept := List.filter (kept_tag c) tags in kept ++ added_tags kept c.

(** ** Review and replacement *)

Section Review.
Context `{NostrCrypto} `{GoUnicode} `{NostrKeys} `{GoJson} `{GoJsonDecoder}.

(** The grant the operator would sign. *)
Definition after_event (e : Event) (req : AgentGrantRequest) (beforeEvent : Event) (now : Z) : Event :=
  mkEvent "" (PubKey beforeEvent) (if now <=? CreatedAt beforeEvent then wrap64 (CreatedAt beforeEvent + 1) else now) (Kind beforeEvent)
    (Some (grantRequestTags (etags beforeEvent) (Rq_Changes req)
           ++ [["grant-request"; ID e]; ["grant-base"; Rq_Base req]; ["e"; ID e; ""; "grant-request"]]))
    (Content beforeEvent) "".

Definition reviewAgainstGrant (e : Event) (req : AgentGrantRequest) (beforeEvent : Event) (now : Z) : result AgentGrantReview :=
  let operator := Tag e "p" in
  before ← ParseAgentGrant beforeEvent now;
  guard_err (negb (String.eqb (G_Agent before) (PubKey e)) || negb (String.eqb (G_Owner before) operator) || negb (Active before now))
    "restricted: grant request is not for the agent's active current grant";;
  let afterEvent := after_event e req beforeEvent now in
  after ← ParseAgentGrant afterEvent now;
  guard_err (bool_decide (G_Scope after = G_Scope before)) "invalid: grant request changes nothing";;
  mret (mkReview (ID e) (Rq_Base req) (G_Agent before) operator before after afterEvent).

(** [SELECT raw FROM events WHERE id=? AND kind=?], then the revisions. *)
Definition stored_event (db : DB) (id : string) (kind : Z) : option Event :=
  r_raw <$> List.find (λ r, String.eqb (r_id r) id && (r_kind r =? kind)) (events db).
Definition stored_grant (db : DB) (id : string) : result Event :=
  match stored_event db id KIND_AGENT_GRANT with
  | Some raw => Parse_value (JObj (event_members raw))
  | None =>
    match List.find (λ v, String.eqb (v_event v) id) (grants db) with
    | Some v => Parse_value (JObj (event_members (v_raw v)))
    | None => Err "invalid: current agent grant not found"
    end
  end.

Definition request_references (e : Event) (base : string) : result unit :=
  let operator := Tag e "p" in
  guard_err (negb (String.eqb base (Tag e "E")) || negb (String.eqb base (Tag e "e")))
    "invalid: grant request base must match its NIP-22 references";;
  guard_err (negb (Nat.eqb (List.length (TagValues e "p")) 1) || String.eqb operator "")
    "invalid: grant request needs exactly one operator";;
  guard_err (negb (len (Tag e "E") =? 64) || negb (String.eqb (Tag e "e") (Tag e "E")) || negb (String.eqb (Tag e "K") "30392")
             || negb (String.eqb (Tag e "k") "30392") || negb (String.eqb (Tag e "P") operator))
    "invalid: grant request needs matching NIP-22 grant references".

Definition ReviewAgentGrantRequest (s : Service) (e : Event) (now : Z) : result AgentGrantReview :=
  req ← decodeGrantRequest e;
  grantRequestOpen (s_store s) e now;;
  request_references e (Rq_Base req);;
  match agent_grants (s_db s) !! PubKey e with
  | None => Err "conflict: grant request is no longer for the current grant"
  | Some current =>
    guard_err (negb (String.eqb (G_EventID current) (Rq_Base req))) "conflict: grant request is no longer for the current grant";;
    beforeEvent ← stored_grant (s_store s) (Rq_Base req);
    review ← reviewAgainstGrant e req beforeEvent now;
    let before := set_revoked (set_paused (Rv_Before review) (G_Paused current)) (G_RevokedAt current) in
    guard_err (negb (Active before now)) "restricted: grant request is not for the agent's active current grant";;
    mret (mkReview (Rv_RequestID review) (Rv_Base review) (Rv_Agent review) (Rv_Operator review) before (Rv_After review)
            (Rv_Unsigned review))
  end.

(** The last checks of a replacement, against the reviewed request. *)
Definition same_grant (e grantEvent : Event) (got : AgentGrant) (review : AgentGrantReview) : result unit :=
  let after := Rv_After review in
  guard_err (negb (bool_decide (G_Scope got = G_Scope after)) || negb (G_ExpiresAt got =? G_ExpiresAt after)
             || negb (String.eqb (G_Agent got) (G_Agent after)) || negb (String.eqb (G_Owner got) (G_Owner after))
             || negb (String.eqb (G_Name got) (G_Name after)) || negb (String.eqb (Content e) (Content grantEvent)))
    "invalid: grant replacement scope differs from the reviewed request";;
  guard_err (negb (bool_decide (Tags e = Tags (Rv_Unsigned review)))) "invalid: grant replacement tags differ from the reviewed request".

Definition validateGrantReplacement (grants_now : gmap string AgentGrant) (db : DB) (e : Event) (now : Z) : result unit :=
  let requestID := Tag e "grant-request" in
  let baseID := Tag e "grant-base" in
  guard_err (String.eqb requestID "" || String.eqb baseID "" || negb (contains (TagValues e "e") requestID))
    "invalid: grant replacement needs grant request provenance";;
  match stored_event db requestID 1111 with
  | None => Err "invalid: grant request is not stored"
  | Some raw =>
    request ← Parse_value (JObj (event_members raw));
    grantRequestOpen db request now;;
    grantEvent ← stored_grant db baseID;
    req ← decodeGrantRequest request;
    match reviewAgainstGrant request req grantEvent now with
    | Err _ => Err "restricted: grant replacement does not match the reviewed request"
    | Ok review =>
      guard_err (negb (String.eqb (Rv_Base review) baseID) || negb (String.eqb (Rv_Operator review) (PubKey e))
                 || negb (String.eqb (Rv_Agent review) (Tag e "d")))
        "restricted: grant replacement does not match the reviewed request";;
      match grants_now !! Rv_Agent review with
      | None => Err "conflict: agent grant is no longer current"
      | Some current =>
        guard_err (G_Paused current || negb (G_RevokedAt current =? 0) || (G_ExpiresAt (Rv_After review) <=? now))
          "restricted: grant request is no longer active";;
        got ← ParseAgentGrant e now;
        same_grant e grantEvent got review;;
        guard_err (negb (from_option (λ g, String.eqb (G_EventID g) baseID) false (grants_now !! G_Agent got)))
          "conflict: agent grant changed since the request"
      end
    end
  end.

Definition ValidateAgentGrantReplacement (s : Service) (e : Event) (now : Z) : result unit :=
  validateGrantReplacement (agent_grants (s_db s)) (s_store s) e now.
End Review.
