(* ===== verification/GrantRequestsProps.v ===== *)
(** * internal/community: a changed grant holds what was reviewed *)

From S2P Require Import Prelude GoLib GoCodec GoLemmas GoStrings Nostr NostrProps Filter Store StoreInv Policy Sites SitesProps.
From S2P Require Import Roster Agents AgentsProps Community Membership Rooms GrantRequests.
From S2P Require Import StoreMaint.

(** ** Values of tags *)

Lemma tag_values_omap l name : tag_values l name = omap (tag_value name) l.
Proof.
  induction l as [|[|n [|v t]] l IH]; cbn; [done..|]. rewrite IH. by destruct (String.eqb n name).
Qed.

Lemma tag_first_head l name : tag_first l name = default "" (head (tag_values l name)).
Proof.
  induction l as [|[|n [|v t]] l IH]; cbn; [done..|]. by destruct (String.eqb n name).
Qed.

Lemma omap_fmap_none {A B C} (f : B → option C) (g : A → B) (l : list A) : (∀ x, f (g x) = None) → omap f (g <$> l) = [].
Proof. intros Hf. induction l as [|x l IH]; cbn; [done|]. by rewrite Hf. Qed.

Lemma omap_fmap_some {A B C} (f : B → option C) (g : A → B) (h : A → C) (l : list A) :
  (∀ x, f (g x) = Some (h x)) → omap f (g <$> l) = h <$> l.
Proof. intros Hf. induction l as [|x l IH]; cbn; [done|]. by rewrite Hf, IH. Qed.

Lemma omap_lfilter {A B} (f : A → option B) (p : A → bool) (l : list A) :
  (∀ x, x ∈ l → is_Some (f x) → p x = true) → omap f (List.filter p l) = omap f l.
Proof.
  induction l as [|x l IH]; intros Hp; cbn; [done|]. specialize (IH ltac:(set_solver)).
  destruct (p x) eqn:E; cbn; rewrite IH; [done|]. destruct (f x) eqn:Ef; [|done].
  rewrite Hp in E; [done|set_solver|by eexists].
Qed.

Lemma tag_value_Some name tag v : tag_value name tag = Some v → ∃ r, tag = name :: v :: r.
Proof. destruct tag as [|n [|w r]]; cbn; [done..|]. destruct (String.eqb_spec n name) as [->|]; [|done]. intros [= ->]. by exists r. Qed.

Lemma elem_unseen l : ∀ seen v, v ∈ unseen seen l ↔ v ∈ l ∧ v ∉ seen.
Proof.
  induction l as [|x l IH]; intros seen v; cbn; [set_solver|]. destruct (contains seen x) eqn:E.
  - apply contains_spec in E. rewrite IH, elem_of_cons. clear IH. naive_solver.
  - assert (x ∉ seen) by (rewrite <-contains_spec; congruence). rewrite !elem_of_cons, IH, elem_of_cons. clear IH.
    destruct (decide (v = x)) as [->|]; naive_solver.
Qed.

(** The names whose tags survive a change as they are. *)
Definition untouched (c : AgentGrantChanges) (name : string) : bool :=
  negb (contains (removed_names c ++ ["grant-request"; "grant-base"; "e"; "repo"; "sites"]) name).

Lemma kept_values c name l : untouched c name = true → omap (tag_value name) (List.filter (kept_tag c) l) = omap (tag_value name) l.
Proof.
  intros Hn. apply omap_lfilter. intros tag _ [v (r & ->)%tag_value_Some]. unfold untouched in Hn.
  apply negb_true_iff in Hn. assert (∀ x, x ∈ removed_names c ++ ["grant-request"; "grant-base"; "e"; "repo"; "sites"] → String.eqb name x = false) as Hx.
  { intros x Hx. apply String.eqb_neq. intros ->. apply contains_spec in Hx. congruence. }
  unfold kept_tag, provenance_tag, tag_value. rewrite !Hx by set_solver. cbn.
  destruct (contains (removed_names c) name) eqn:E; [|done]. apply contains_spec in E.
  specialize (Hx name ltac:(set_solver)). by rewrite String.eqb_refl in Hx.
Qed.

Lemma removed_values c name l : name ∈ removed_names c → omap (tag_value name) (List.filter (kept_tag c) l) = [].
Proof.
  intros Hn. induction l as [|tag l IH]; cbn; [done|]. destruct (kept_tag c tag) eqn:E; [|done]. cbn. rewrite IH.
  destruct (tag_value name tag) eqn:Et; [|done]. apply tag_value_Some in Et as (r & ->).
  unfold kept_tag in E. apply contains_spec in Hn. by rewrite Hn in E.
Qed.

(** ** Plain text *)

Definition plain_byte (b : Z) : Prop := 33 ≤ b < 127.
Definition plain (s : string) : Prop := Forall plain_byte (bytes_of s).

Lemma plain_app s t : plain s → plain t → plain (s +:+ t).
Proof. unfold plain. rewrite bytes_of_app, Forall_app. done. Qed.

Lemma plain_runes s : plain s → str_concat (rune_src <$> runes s) = s ∧ Forall (λ r, is_space (rune_code r) = false) (runes s).
Proof.
  unfold plain. induction s as [|a s IH]; cbn [bytes_of]; intros Hp; [split; [done|constructor]|].
  inversion Hp as [|? ? Ha Hs]; subst. destruct (IH Hs) as [E F]. unfold plain_byte in Ha. cbn [runes]. cbv zeta.
  rewrite (proj2 (Z.ltb_lt _ 128)) by lia. split; [by apply runes_src || (cbn; by rewrite E)|].
  constructor; [|done]. cbn [rune_code]. unfold is_space, in_range. repeat (apply orb_false_iff; split); lia.
Qed.

Lemma drop_space_none l : Forall (λ r, is_space (rune_code r) = false) l → drop_space l = l.
Proof. destruct 1 as [|r l Hr _]; cbn; [done|]. by rewrite Hr. Qed.

Lemma TrimSpace_plain s : plain s → TrimSpace s = s.
Proof.
  intros [E F]%plain_runes. unfold TrimSpace. rewrite (drop_space_none (runes s)) by done.
  rewrite drop_space_none, rev_involutive; [done|]. by apply Forall_rev.
Qed.

Lemma plain_Itoa z : plain (Itoa z).
Proof.
  assert (∀ n, 0 ≤ n → plain (utoa n)) as Hu.
  { intros n Hn. unfold plain. eapply Forall_impl; [by apply utoa_digits|]. intros b Hb. apply in_range_true in Hb. unfold plain_byte. lia. }
  unfold Itoa. destruct (Z.ltb_spec z 0); [|by apply Hu]. apply plain_app; [|apply Hu; lia]. repeat constructor; done.
Qed.

Lemma plain_hex s : hex64 s = true → plain s.
Proof.
  intros [_ Hh]%andb_true_iff. unfold plain. revert Hh. induction s as [|a s IH]; cbn [isHex bytes_of]; intros H; constructor.
  - apply andb_true_iff in H as [H _]. unfold plain_byte. apply orb_true_iff in H as [H|H]; apply in_range_true in H; lia.
  - apply IH. by apply andb_true_iff in H as [_ ?].
Qed.

Lemma plain_ValidRoomID s : ValidRoomID s = true → plain s.
Proof.
  intros [[H _]%andb_true_iff _]%andb_true_iff. rewrite forallb_elem in H. apply Forall_forall.
  intros b Hb. specialize (H b Hb). unfold name_byte, in_range, plain_byte in *. lia.
Qed.

(** ** The values a grant is parsed from *)

Lemma room_values l : ∀ acc rooms, loop room_step l acc = Ok rooms → ∀ r, r ∈ rooms ↔ r ∈ acc ∨ r ∈ TrimSpace <$> l.
Proof.
  induction l as [|a l IH]; cbn [loop]; intros acc rooms H r.
  - apply (inj Ok) in H. subst. set_solver.
  - apply result_bind_Ok in H as (acc' & Ha & H). rewrite (IH _ _ H r). unfold room_step in Ha.
    apply guard_bind_Ok in Ha as [_ Ha]. apply (inj Ok) in Ha. rewrite fmap_cons. subst acc'.
    destruct (contains acc (TrimSpace a)) eqn:E; [apply contains_spec in E|]; set_solver.
Qed.

Lemma kind_values l : ∀ acc kinds, loop kind_step l acc = Ok kinds →
  (∀ v, v ∈ l → ∃ k, num_ok (Atoi (TrimSpace v)) = Some k ∧ 0 ≤ k ≤ 65535) ∧
  ∀ k, k ∈ kinds ↔ k ∈ acc ∨ ∃ v, v ∈ l ∧ num_ok (Atoi (TrimSpace v)) = Some k.
Proof.
  induction l as [|a l IH]; cbn [loop]; intros acc kinds H.
  - apply (inj Ok) in H. subst. split; [set_solver|]. intros k. split; [auto|]. intros [?|(v & Hv & _)]; [done|]. by apply not_elem_of_nil in Hv.
  - apply result_bind_Ok in H as (acc' & Ha & H). destruct (IH _ _ H) as [Hv Hk]. clear IH H. unfold kind_step in Ha.
    destruct (num_ok (Atoi (TrimSpace a))) as [k0|] eqn:E; [|done]. apply guard_bind_Ok in Ha as [Hr Ha]. apply (inj Ok) in Ha.
    rewrite orb_false_iff, !Z.ltb_ge in Hr. split.
    + intros v [->|?]%elem_of_cons; [exists k0; split; [done|lia]|auto].
    + intros k. rewrite Hk. assert (k ∈ acc' ↔ k ∈ acc ∨ k = k0) as ->.
      { subst acc'. destruct (containsInt acc k0) eqn:Ec; [apply containsInt_spec in Ec|]; set_solver. }
      setoid_rewrite elem_of_cons. split.
      * intros [[? | ->]|(v & ? & ?)]; eauto 6.
      * intros [?|(v & [->|?] & Ev)]; [auto|left; right; congruence|eauto].
Qed.

Definition leveled (l : list AgentRepo) : Prop := Forall (λ r, AR_Level r ≠ "") l.

Lemma repo_level_app l l' o i : leveled l →
  repo_level (l ++ l') o i = if String.eqb (repo_level l o i) "" then repo_level l' o i else repo_level l o i.
Proof.
  induction 1 as [|r l Hr _ IH]; cbn [repo_level app]; [done|]. destruct (_ && _); [|done].
  by rewrite (proj2 (String.eqb_neq _ _) Hr).
Qed.

Lemma parse_leveled v r : parseAgentRepo v = Some r → AR_Level r ≠ "".
Proof. intros Hl%parseAgentRepo_level E. rewrite E in Hl. vm_compute in Hl. set_solver. Qed.

Lemma repo_values l : ∀ acc repos, loop repo_step l acc = Ok repos → leveled acc →
  ∀ o i, repo_level repos o i = repo_level (acc ++ omap parseAgentRepo l) o i.
Proof.
  induction l as [|a l IH]; cbn [loop omap list_omap]; intros acc repos H Hl o i; [apply (inj Ok) in H; subst; by rewrite app_nil_r|].
  apply result_bind_Ok in H as (acc' & Ha & H). unfold repo_step in Ha. destruct (parseAgentRepo a) as [r|] eqn:Ep; [|done].
  pose proof (parse_leveled _ _ Ep). apply (inj Ok) in Ha. rewrite (IH _ _ H) by (subst acc'; case_match; [apply Forall_app_2; [done|by constructor]|done]).
  subst acc'. destruct (String.eqb_spec (repo_level acc (AR_Owner r) (AR_Identifier r)) ""); [by rewrite <-app_assoc|].
  rewrite !repo_level_app by done. cbn [repo_level]. destruct (String.eqb_spec (AR_Owner r) o) as [<-|]; [|done].
  destruct (String.eqb_spec (AR_Identifier r) i) as [<-|]; [|done]. by rewrite (proj2 (String.eqb_neq _ _)).
Qed.

Lemma parse_uint_go_value s : ∀ n z, dec_value s n = Some z →
  match parse_uint_go s n with NumOk u => u = z | NumRange u => u = uint64_max | NumSyntax => False end.
Proof.
  induction s as [|a s IH]; cbn; intros n z Hz; [congruence|]. destruct (is_digit (byte_of a)); [|done]. cbn.
  destruct (Z.ltb_spec uint64_max (n * 10 + (byte_of a - 48))); [done|]. by apply IH.
Qed.

Lemma Atoi_Itoa z m : num_ok (Atoi (TrimSpace (Itoa z))) = Some m → m = z.
Proof.
  rewrite TrimSpace_plain by apply plain_Itoa. unfold Atoi.
  assert (∀ n, 0 ≤ n → match ParseUint (utoa n) with NumOk u => u = n | NumRange u => u = uint64_max | NumSyntax => False end) as Hp.
  { intros n Hn. unfold ParseUint. rewrite (proj2 (String.eqb_neq _ _)) by by apply utoa_nonempty.
    by apply parse_uint_go_value, dec_value_utoa. }
  unfold Itoa. destruct (Z.ltb_spec z 0) as [Hz|Hz].
  - specialize (Hp (- z) ltac:(lia)).
    rewrite (ParseInt_body _ true) by first [by apply utoa_nonempty; lia|by apply utoa_digits; lia].
    destruct (ParseUint _); [| done|]; subst; cbn [negb andb]; [destruct (_ <? _)|]; [done|intros [= <-]; lia|done].
  - specialize (Hp z ltac:(lia)).
    rewrite (ParseInt_body _ false) by first [by apply utoa_nonempty; lia|by apply utoa_digits; lia].
    destruct (ParseUint _); [| done|]; subst; cbn [negb andb]; [destruct (_ <=? _)|]; [done|by intros [= <-]|done].
Qed.

(** ** The changed tags *)

(** The values the change adds under a name. *)
Definition asked_values (c : AgentGrantChanges) (had : list string) (name : string) : list string :=
  if String.eqb name "k" then unseen had (Itoa <$> default [] (Ch_Kinds c))
  else if String.eqb name "room" then unseen had (default [] (Ch_Rooms c))
  else if String.eqb name "repo" then (λ r, repo_key r +:+ ":" +:+ AR_Level r) <$> default [] (Ch_Repos c)
  else if String.eqb name "wiki" then option_list (Ch_Wiki c)
  else if String.eqb name "jobs" then option_list (Ch_Jobs c)
  else if String.eqb name "rate" then option_list (Itoa <$> Ch_Rate c)
  else [].

Section Changed.
Context `{GoUnicode} `{NostrKeys} `{GoJson}.

Lemma after_values e req be now name :
  name ∈ ["k"; "room"; "repo"; "wiki"; "jobs"; "rate"; "d"; "p"; "name"; "expiration"] →
  let had := omap (tag_value name) (List.filter (kept_tag (Rq_Changes req)) (etags be)) in
  TagValues (after_event e req be now) name = had ++ asked_values (Rq_Changes req) had name.
Proof.
  intros Hn had. unfold TagValues. rewrite tag_values_omap. unfold after_event, etags at 1, grantRequestTags, added_tags. cbn [Tags from_option]. unfold id at 1.
  rewrite !omap_app. fold had. rewrite <-!app_assoc. f_equal.
  repeat (apply elem_of_cons in Hn as [->|Hn]); [..|by apply not_elem_of_nil in Hn]; cbn [asked_values String.eqb Ascii.eqb Bool.eqb];
    rewrite ?(omap_fmap_some (tag_value "k") (λ v, ["k"; v]) id), ?(omap_fmap_some (tag_value "room") (λ v, ["room"; v]) id),
      ?(omap_fmap_some (tag_value "repo") (λ r, ["repo"; repo_key r +:+ ":" +:+ AR_Level r]) (λ r, repo_key r +:+ ":" +:+ AR_Level r)) by done;
    rewrite ?(omap_fmap_none _ site_tag), ?(omap_fmap_none _ (λ v : string, ["k"; v])), ?(omap_fmap_none _ (λ v : string, ["room"; v])),
      ?(omap_fmap_none _ (λ r, ["repo"; repo_key r +:+ ":" +:+ AR_Level r])) by done;
    rewrite ?list_fmap_id; destruct (Ch_Wiki (Rq_Changes req)), (Ch_Jobs (Rq_Changes req)), (Ch_Rate (Rq_Changes req)); cbn; by rewrite ?app_nil_r.
Qed.
End Changed.

(** ** Repositories whose text reads back *)

Definition repo_text (r : AgentRepo) : string := repo_key r +:+ ":" +:+ AR_Level r.
Record plain_repo (r : AgentRepo) : Prop := {
  pr_owner : hex64 (AR_Owner r) = true;
  pr_identifier : plain (AR_Identifier r);
  pr_colon : no_char (char 58) (AR_Identifier r);
  pr_length : 0 < len (AR_Identifier r) ≤ 256;
  pr_level : AR_Level r ∈ [AgentRepoPropose; AgentRepoRead; AgentRepoMaintain] }.

Lemma no_colon_hex s : hex64 s = true → no_char (char 58) s.
Proof. intros [_ H]%andb_true_iff. apply no_char_hex; [done|]. right. done. Qed.

Lemma no_colon_level r : plain_repo r → no_char (char 58) (AR_Level r) ∧ plain (AR_Level r).
Proof.
  intros [_ _ _ _ Hl]. repeat (apply elem_of_cons in Hl as [->|Hl]); [..|by apply not_elem_of_nil in Hl];
    unfold no_char, plain, plain_byte; repeat constructor; done.
Qed.

Lemma parse_repo_text r : plain_repo r → parseAgentRepo (repo_text r) = Some r.
Proof.
  intros Hr. pose proof (no_colon_level r Hr) as [Hlc Hlp]. destruct Hr as [Ho Hp Hc Hlen Hl].
  unfold parseAgentRepo. rewrite TrimSpace_plain; cycle 1.
  { unfold repo_text, repo_key. rewrite !str_app_assoc. repeat apply plain_app; try done; [by apply plain_hex|..]; repeat constructor; done. }
  assert (LastIndexByte (repo_text r) 58 = len (repo_key r)) as ->.
  { unfold LastIndexByte, repo_text. rewrite last_index_app. change (":" +:+ AR_Level r) with (String (char 58) (AR_Level r)).
    cbn [last_index_go]. rewrite last_index_none by done. change (byte_of (char 58) =? 58) with true. cbv iota. lia. }
  cbv zeta. rewrite (proj2 (Z.ltb_ge _ 0)) by (unfold len; lia).
  assert (slice (repo_text r) (len (repo_key r) + 1) (len (repo_text r)) = AR_Level r) as ->.
  { unfold repo_text. rewrite <-str_app_assoc. replace (len (repo_key r) + 1) with (len (repo_key r +:+ ":")) by (unfold len; rewrite str_app_length; cbn; lia).
    apply slice_app_r. unfold len. rewrite !str_app_length. lia. }
  apply contains_spec in Hl. rewrite Hl. cbn [negb]. unfold repo_text at 1. rewrite slice_app_l. unfold SplitN, repo_key.
  change (":" +:+ AR_Identifier r) with (String (char 58) (AR_Identifier r)).
  rewrite split_go_step, split_go_last by by apply no_colon_hex. cbn [String.append]. unfold validPubKey. rewrite Ho. cbn [negb orb].
  rewrite (proj2 (String.eqb_neq _ _)) by (intros E; rewrite E in Hlen; by destruct Hlen).
  rewrite (proj2 (Z.ltb_ge _ _)) by lia. by destruct r.
Qed.

Lemma replaced_repo_text c r : plain_repo r → replaced_repo c (repo_text r) = contains (repo_key <$> default [] (Ch_Repos c)) (repo_key r).
Proof.
  intros [Ho Hp Hc Hlen Hl]. unfold replaced_repo, SplitN, repo_text, repo_key at 1. rewrite !str_app_assoc.
  change (":" +:+ AR_Identifier r +:+ ":" +:+ AR_Level r) with (String (char 58) (AR_Identifier r +:+ String (char 58) (AR_Level r))).
  rewrite split_go_step by by apply no_colon_hex. by rewrite split_go_step, split_go_last.
Qed.

Lemma repo_key_inj r r' : plain_repo r → plain_repo r' → repo_key r = repo_key r' → AR_Owner r = AR_Owner r' ∧ AR_Identifier r = AR_Identifier r'.
Proof.
  intros [Ho _ _ _ _] [Ho' _ _ _ _] E.
  assert (∀ x, hex64 (AR_Owner x) = true → SplitN (repo_key x) (char 58) 2 = [AR_Owner x; AR_Identifier x]) as Hs.
  { intros x Hx. unfold SplitN, repo_key. change (":" +:+ AR_Identifier x) with (String (char 58) (AR_Identifier x)).
    by rewrite split_go_step, split_go_last by by apply no_colon_hex. }
  pose proof (Hs _ Ho) as H1. rewrite E, (Hs _ Ho') in H1. naive_solver.
Qed.

Lemma omap_repo_text (l : list AgentRepo) : Forall plain_repo l → omap parseAgentRepo (repo_text <$> l) = l.
Proof. induction 1 as [|r l Hr _ IH]; cbn; [done|]. by rewrite parse_repo_text, IH. Qed.

Lemma kept_repos c l : omap (tag_value "repo") (List.filter (kept_tag c) l)
  = List.filter (λ v, negb (replaced_repo c v)) (omap (tag_value "repo") l).
Proof.
  induction l as [|tag l IH]; cbn [List.filter omap list_omap]; [done|].
  assert (∀ v, tag_value "repo" tag = Some v → kept_tag c tag = negb (replaced_repo c v)) as Hk.
  { intros v (r & ->)%tag_value_Some. unfold kept_tag, tag_value, provenance_tag, removed_names. cbn.
    destruct (Ch_Wiki c), (Ch_Jobs c), (Ch_Rate c); cbn; by rewrite andb_true_r. }
  destruct (tag_value "repo" tag) as [v|] eqn:E.
  - rewrite (Hk v eq_refl). destruct (replaced_repo c v) eqn:Er; cbn [negb List.filter]; rewrite ?Er; cbn [negb omap list_omap]; rewrite ?E; by rewrite IH.
  - destruct (kept_tag c tag); cbn [omap list_omap]; by rewrite ?E, IH.
Qed.

Lemma repo_level_absent l o i : (o, i) ∉ (λ r, (AR_Owner r, AR_Identifier r)) <$> l → repo_level l o i = "".
Proof.
  induction l as [|r l IH]; cbn [repo_level fmap list_fmap]; [done|]. rewrite not_elem_of_cons. intros [Hr Hl].
  destruct (String.eqb_spec (AR_Owner r) o), (String.eqb_spec (AR_Identifier r) i); cbn [andb]; [congruence|by apply IH..].
Qed.

(** A repository the change names has the level asked, another its own. *)
Lemma changed_repos c had o i : Forall plain_repo had → Forall plain_repo (default [] (Ch_Repos c)) →
  repo_level (omap parseAgentRepo (List.filter (λ v, negb (replaced_repo c v)) (repo_text <$> had) ++ (repo_text <$> default [] (Ch_Repos c)))) o i
  = if bool_decide ((o, i) ∈ (λ r, (AR_Owner r, AR_Identifier r)) <$> default [] (Ch_Repos c))
    then repo_level (default [] (Ch_Repos c)) o i else repo_level had o i.
Proof.
  intros Hh Hc. set (asked := default [] (Ch_Repos c)) in *. rewrite omap_app, (omap_repo_text asked) by done.
  induction Hh as [|r l Hr _ IH].
  - cbn. case_bool_decide as Hin; [done|]. by apply repo_level_absent.
  - cbn [fmap list_fmap List.filter]. rewrite replaced_repo_text by done. fold asked. destruct (contains (repo_key <$> asked) (repo_key r)) eqn:E; cbn [negb].
    + rewrite IH. case_bool_decide as Hin; [done|]. cbn [repo_level].
      destruct (String.eqb_spec (AR_Owner r) o) as [<-|]; [|done]. destruct (String.eqb_spec (AR_Identifier r) i) as [<-|]; [|done].
      exfalso. apply Hin. apply contains_spec, list_elem_of_fmap in E as (r' & E & Hr'). rewrite Forall_forall in Hc.
      apply repo_key_inj in E as [-> ->]; [|done|auto]. apply list_elem_of_fmap. by exists r'.
    + cbn [omap list_omap]. rewrite parse_repo_text by done. cbn [app repo_level]. rewrite IH.
      destruct (String.eqb_spec (AR_Owner r) o) as [<-|]; [|done]. destruct (String.eqb_spec (AR_Identifier r) i) as [<-|]; [|done]. cbn [andb].
      case_bool_decide as Hin; [|done]. exfalso. apply list_elem_of_fmap in Hin as (r' & [= Eo Ei] & Hr').
      assert (repo_key r ∈ repo_key <$> asked) as Hk%contains_spec by (apply list_elem_of_fmap; exists r'; split; [unfold repo_key; congruence|done]).
      congruence.
Qed.

(** ** The scope of a reviewed change *)

Definition grant_name (e : Event) : string :=
  let name := TrimSpace (Tag e "name") in if agentNameMax <? len name then slice name 0 agentNameMax else name.

Definition rate_of (value : string) : option Z :=
  if String.eqb value "" then Some AgentRateDefault else num_ok (Atoi (TrimSpace value)).

(** What a change leaves of a scope and adds to it. *)
Record changed_scope (had got : AgentScope) (c : AgentGrantChanges) (repos : list string) : Prop := {
  cs_kinds : ∀ k, k ∈ Sc_Kinds got ↔ k ∈ Sc_Kinds had ∨ k ∈ default [] (Ch_Kinds c);
  cs_rooms : ∀ r, r ∈ Sc_Rooms got ↔ r ∈ Sc_Rooms had ∨ r ∈ default [] (Ch_Rooms c);
  cs_wiki : Sc_Wiki got = default (Sc_Wiki had) (Ch_Wiki c);
  cs_jobs : Sc_Jobs got = default (Sc_Jobs had) (Ch_Jobs c);
  cs_rate : Sc_Rate got = default (Sc_Rate had) (Ch_Rate c);
  (* the repositories, when their texts are plain *)
  cs_repos : ∀ l, repos = repo_text <$> l → Forall plain_repo l → Forall plain_repo (default [] (Ch_Repos c)) →
    ∀ o i, repo_level (Sc_Repos got) o i
      = if bool_decide ((o, i) ∈ (λ r, (AR_Owner r, AR_Identifier r)) <$> default [] (Ch_Repos c))
        then repo_level (default [] (Ch_Repos c)) o i else repo_level (Sc_Repos had) o i }.

Section Review.
Context `{NostrCrypto} `{GoUnicode} `{NostrKeys} `{GoJson} `{GoJsonDecoder}.

Lemma ParseAgentGrant_fields e now g : ParseAgentGrant e now = Ok g →
  G_Agent g = Tag e "d" ∧ G_Owner g = PubKey e ∧ G_Name g = grant_name e ∧ G_ExpiresAt g = Expiration e ∧
  loop room_step (TagValues e "room") [] = Ok (Sc_Rooms (G_Scope g)) ∧
  loop repo_step (TagValues e "repo") [] = Ok (Sc_Repos (G_Scope g)) ∧
  loop kind_step (TagValues e "k") [] = Ok (Sc_Kinds (G_Scope g)) ∧
  Sc_Wiki (G_Scope g) = Tag e "wiki" ∧ Sc_Jobs (G_Scope g) = Tag e "jobs" ∧ rate_of (Tag e "rate") = Some (Sc_Rate (G_Scope g)).
Proof.
  unfold ParseAgentGrant. cbv zeta. rewrite !guard_bind_Ok. intros (_ & _ & _ & _ & _ & _ & _ & Hr).
  apply result_bind_Ok in Hr as (rooms & Hrooms & Hr). apply result_bind_Ok in Hr as (repos & Hrepos & Hr).
  apply result_bind_Ok in Hr as (kinds & Hkinds & Hr). rewrite !guard_bind_Ok in Hr. destruct Hr as (_ & _ & _ & Hr).
  apply result_bind_Ok in Hr as (sites & Hsites & Hr). rewrite guard_bind_Ok in Hr. destruct Hr as (_ & Hr).
  apply result_bind_Ok in Hr as (rate & Hrate & Hr). apply (inj Ok) in Hr. subst g. cbn. split_and!; try done.
  unfold rate_of. destruct (String.eqb _ _); [by apply (inj Ok) in Hrate as ->|]. destruct (num_ok _) as [n|]; [|done].
  apply guard_bind_Ok in Hrate as [_ Hrate]. by apply (inj Ok) in Hrate as ->.
Qed.

Lemma untouched_values e req be now name :
  name ∈ ["k"; "room"; "repo"; "wiki"; "jobs"; "rate"; "d"; "p"; "name"; "expiration"] → untouched (Rq_Changes req) name = true →
  TagValues (after_event e req be now) name = TagValues be name ++ asked_values (Rq_Changes req) (TagValues be name) name.
Proof. intros Hn Hu. rewrite after_values by done. unfold TagValues. by rewrite kept_values, <-tag_values_omap by done. Qed.

Lemma plain_untouched c name : name ∈ ["k"; "room"; "d"; "p"; "name"; "expiration"] → untouched c name = true.
Proof.
  unfold untouched, removed_names. intros Hn. repeat (apply elem_of_cons in Hn as [->|Hn]); [..|by apply not_elem_of_nil in Hn];
    destruct (Ch_Wiki c), (Ch_Jobs c), (Ch_Rate c); reflexivity.
Qed.

Lemma same_values e req be now name : name ∈ ["d"; "p"; "name"; "expiration"] → Tag (after_event e req be now) name = Tag be name.
Proof.
  intros Hn. unfold Tag. rewrite !tag_first_head. fold (TagValues (after_event e req be now) name) (TagValues be name).
  rewrite untouched_values; [|set_solver|apply plain_untouched; set_solver].
  repeat (apply elem_of_cons in Hn as [->|Hn]); [..|by apply not_elem_of_nil in Hn]; cbn [asked_values String.eqb Ascii.eqb Bool.eqb]; by rewrite app_nil_r.
Qed.

(** A tag the change may replace has the value asked, or its own. *)
Lemma replaced_value e req be now name (asked : option string) :
  name ∈ ["wiki"; "jobs"; "rate"] → asked_values (Rq_Changes req) [] name = option_list asked →
  (asked = None ↔ name ∉ removed_names (Rq_Changes req)) →
  Tag (after_event e req be now) name = default (Tag be name) asked.
Proof.
  intros Hn Ha Hr. unfold Tag. rewrite !tag_first_head. fold (TagValues (after_event e req be now) name).
  assert (asked_values (Rq_Changes req) (omap (tag_value name) (List.filter (kept_tag (Rq_Changes req)) (etags be))) name = option_list asked) as Ha'.
  { repeat (apply elem_of_cons in Hn as [->|Hn]); [..|by apply not_elem_of_nil in Hn]; exact Ha. }
  rewrite after_values, Ha' by set_solver. destruct asked as [v|].
  - rewrite removed_values; [done|]. apply dec_stable. intros Hx. by apply Hr in Hx.
  - cbn [option_list]. rewrite app_nil_r, kept_values, <-tag_values_omap; [done|]. unfold untouched. apply negb_true_iff.
    apply not_true_iff_false. rewrite contains_spec, elem_of_app. intros [Hx|Hx]; [by apply Hr in Hx|].
    repeat (apply elem_of_cons in Hn as [->|Hn]); [..|by apply not_elem_of_nil in Hn]; vm_compute in Hx; set_solver.
Qed.

Lemma changed_kinds c had got_l had_k got_k :
  got_l = had ++ unseen had (Itoa <$> default [] (Ch_Kinds c)) →
  loop kind_step had [] = Ok had_k → loop kind_step got_l [] = Ok got_k →
  ∀ k, k ∈ got_k ↔ k ∈ had_k ∨ k ∈ default [] (Ch_Kinds c).
Proof.
  intros -> [_ Hh]%kind_values [Hr Hg]%kind_values k. rewrite Hg, Hh, elem_of_nil. setoid_rewrite elem_of_app. setoid_rewrite elem_unseen.
  split.
  - intros [[]|(v & [Hv|[(a & -> & Ha)%list_elem_of_fmap Hn]] & E)]; [left; eauto|right]. by apply Atoi_Itoa in E as ->.
  - intros [[[]|(v & Hv & E)]|Hk]; [eauto|]. right. exists (Itoa k). destruct (decide (Itoa k ∈ had)) as [Hin|Hin].
    + split; [auto|]. destruct (Hr (Itoa k)) as (n & E & _); [set_solver|]. by rewrite E, (Atoi_Itoa _ _ E).
    + assert (Itoa k ∈ unseen had (Itoa <$> default [] (Ch_Kinds c))) as Hu by (apply elem_unseen; split; [by apply list_elem_of_fmap_2|done]).
      split; [right; split; [by apply list_elem_of_fmap_2|done]|]. destruct (Hr (Itoa k)) as (n & E & _); [set_solver|]. by rewrite E, (Atoi_Itoa _ _ E).
Qed.

Lemma changed_rooms c had got_l had_r got_r :
  Forall (λ r, ValidRoomID r = true) (default [] (Ch_Rooms c)) → got_l = had ++ unseen had (default [] (Ch_Rooms c)) →
  loop room_step had [] = Ok had_r → loop room_step got_l [] = Ok got_r →
  ∀ r, r ∈ got_r ↔ r ∈ had_r ∨ r ∈ default [] (Ch_Rooms c).
Proof.
  intros Hv -> Hh Hg r. rewrite (room_values _ _ _ Hg), (room_values _ _ _ Hh), fmap_app, elem_of_app.
  assert (∀ x, x ∈ default [] (Ch_Rooms c) → TrimSpace x = x) as Ht.
  { rewrite Forall_forall in Hv. intros x Hx. by apply TrimSpace_plain, plain_ValidRoomID, Hv. }
  split.
  - intros [?|[?|(x & -> & [Hx Hn]%elem_unseen)%list_elem_of_fmap]]; [set_solver|auto|]. right. by rewrite Ht.
  - intros [[?|?]|Hr]; [set_solver|auto|]. right. destruct (decide (r ∈ had)) as [Hin|Hin].
    + left. rewrite <-(Ht r) by done. by apply list_elem_of_fmap_2.
    + right. rewrite <-(Ht r) by done. apply list_elem_of_fmap_2, elem_unseen. done.
Qed.

Lemma changed_levels c tags l had got o i :
  tag_values tags "repo" = repo_text <$> l → Forall plain_repo l → Forall plain_repo (default [] (Ch_Repos c)) →
  loop repo_step (tag_values tags "repo") [] = Ok had →
  loop repo_step (omap (tag_value "repo") (List.filter (kept_tag c) tags) ++ ((λ r, repo_key r +:+ ":" +:+ AR_Level r) <$> default [] (Ch_Repos c))) [] = Ok got →
  repo_level got o i = if bool_decide ((o, i) ∈ (λ r, (AR_Owner r, AR_Identifier r)) <$> default [] (Ch_Repos c))
                       then repo_level (default [] (Ch_Repos c)) o i else repo_level had o i.
Proof.
  intros Hl Hp Hc Hh Hg. rewrite (repo_values _ _ _ Hg) by constructor. rewrite (repo_values _ _ _ Hh) by constructor.
  cbn [app]. rewrite Hl, (omap_repo_text l), kept_repos, <-tag_values_omap, Hl by done. by apply changed_repos.
Qed.

(** The review of a request, against the grant it names. *)
Lemma reviewed e req be now rv :
  validateGrantChanges (Rq_Changes req) = Ok tt → reviewAgainstGrant e req be now = Ok rv →
  let before := Rv_Before rv in let after := Rv_After rv in
  ParseAgentGrant be now = Ok before ∧ Rv_Unsigned rv = after_event e req be now ∧ Rv_Base rv = Rq_Base req ∧
  Rv_Operator rv = Tag e "p" ∧ Rv_Agent rv = PubKey e ∧
  G_Agent after = PubKey e ∧ G_Owner after = Tag e "p" ∧ G_Name after = G_Name before ∧ G_ExpiresAt after = G_ExpiresAt before ∧
  G_Agent before = PubKey e ∧ G_Owner before = Tag e "p" ∧
  changed_scope (G_Scope before) (G_Scope after) (Rq_Changes req) (TagValues be "repo").
Proof.
  intros Hv Hrv. unfold reviewAgainstGrant in Hrv. cbv zeta in Hrv. apply result_bind_Ok in Hrv as (before & Hb & Hrv).
  rewrite guard_bind_Ok in Hrv. destruct Hrv as [Hc Hrv]. apply result_bind_Ok in Hrv as (after & Ha & Hrv).
  apply guard_bind_Ok in Hrv as [_ Hrv]. apply (inj Ok) in Hrv. subst rv. cbn [Rv_Before Rv_After Rv_Unsigned Rv_Base Rv_Operator Rv_Agent].
  rewrite !orb_false_iff, !negb_false_iff, !String.eqb_eq in Hc. destruct Hc as [[Hag Hop] _].
  destruct (ParseAgentGrant_fields _ _ _ Hb) as (B1 & B2 & B3 & B4 & Brooms & Brepos & Bkinds & Bwiki & Bjobs & Brate).
  destruct (ParseAgentGrant_fields _ _ _ Ha) as (A1 & A2 & A3 & A4 & Arooms & Arepos & Akinds & Awiki & Ajobs & Arate).
  split_and!; try done.
  - rewrite A1, same_values by set_solver. congruence.
  - rewrite A2. cbn. congruence.
  - rewrite A3, B3. unfold grant_name. by rewrite same_values by set_solver.
  - rewrite A4, B4. unfold Expiration. by rewrite same_values by set_solver.
  - unfold validateGrantChanges in Hv. rewrite !guard_bind_Ok in Hv. destruct Hv as (Hrooms & _).
    split.
    + eapply changed_kinds; [|exact Bkinds|exact Akinds]. exact (untouched_values e req be now "k" ltac:(set_solver) (plain_untouched _ "k" ltac:(set_solver))).
    + eapply changed_rooms; [|exact (untouched_values e req be now "room" ltac:(set_solver) (plain_untouched _ "room" ltac:(set_solver)))|exact Brooms|exact Arooms].
      apply Forall_forall. intros r Hr. rewrite existsb_elem_false in Hrooms. apply negb_false_iff, Hrooms, Hr.
    + rewrite Awiki, Bwiki. eapply replaced_value; [set_solver|done|]. unfold removed_names.
      destruct (Ch_Wiki (Rq_Changes req)), (Ch_Jobs (Rq_Changes req)), (Ch_Rate (Rq_Changes req)); cbn; (split; [|set_solver]); intros; set_solver.
    + rewrite Ajobs, Bjobs. eapply replaced_value; [set_solver|done|]. unfold removed_names.
      destruct (Ch_Wiki (Rq_Changes req)), (Ch_Jobs (Rq_Changes req)), (Ch_Rate (Rq_Changes req)); cbn; (split; [|set_solver]); intros; set_solver.
    + erewrite (replaced_value e req be now "rate" (Itoa <$> Ch_Rate (Rq_Changes req))) in Arate; [|set_solver|done|].
      * destruct (Ch_Rate (Rq_Changes req)) as [n|]; cbn in *; [|congruence]. unfold rate_of in Arate.
        destruct (String.eqb_spec (Itoa n) "") as [E|]; [|by apply Atoi_Itoa in Arate]. exfalso. revert E. unfold Itoa.
        destruct (Z.ltb_spec n 0); [done|]. by apply utoa_nonempty.
      * unfold removed_names. destruct (Ch_Wiki (Rq_Changes req)), (Ch_Jobs (Rq_Changes req)), (Ch_Rate (Rq_Changes req)); cbn; (split; [|set_solver]); intros; set_solver.
    + intros l Hl Hp Hq o i. eapply changed_levels; [exact Hl|done|done|exact Brepos|].
      by rewrite after_values in Arepos by set_solver.
Qed.

Lemma decoded_changes e req : decodeGrantRequest e = Ok req → validateGrantChanges (Rq_Changes req) = Ok tt.
Proof.
  unfold decodeGrantRequest. rewrite !guard_bind_Ok. intros (_ & _ & _ & Hd). destruct (json_value _) as [[[j rest]|]|]; [|done..].
  destruct (decode_struct _ _ _) as [q|]; [|done]. rewrite !guard_bind_Ok in Hd. destruct Hd as (_ & _ & Hd).
  apply result_bind_Ok in Hd as ([] & _ & Hd). apply guard_bind_Ok in Hd as [_ Hd]. apply result_bind_Ok in Hd as ([] & Hd & E).
  by apply (inj Ok) in E as <-.
Qed.

(** C22: an operator's replacement grant that is accepted for an agent's request
    keeps the agent, its operator, its name and its expiry, and holds exactly the
    kinds and rooms the grant held and the request asked, and the wiki, task and
    rate values asked or held. Where the repositories of the grant and of the
    request are written as owner, identifier and level with identifiers that are
    plain (printable, without space or colon), it also holds each repository at
    the level asked if it was asked and else at the level held; an identifier with
    a colon is outside this clause. The request is stored, neither denied nor
    expired, and made for the grant that is current and live. *)
Theorem replacement_gives_what_was_asked gm db e now :
  validateGrantReplacement gm db e now = Ok tt →
  ∃ raw request base req before after current,
    stored_event db (Tag e "grant-request") 1111 = Some raw ∧ Parse_value (JObj (event_members raw)) = Ok request ∧
    denials db request now = [] ∧ (Expiration request = 0 ∨ now < Expiration request) ∧
    stored_grant db (Tag e "grant-base") = Ok base ∧ decodeGrantRequest request = Ok req ∧ Rq_Base req = Tag e "grant-base" ∧
    ParseAgentGrant base now = Ok before ∧ ParseAgentGrant e now = Ok after ∧
    G_Agent after = PubKey request ∧ G_Agent before = PubKey request ∧ PubKey e = Tag request "p" ∧ G_Owner before = PubKey e ∧
    G_Name after = G_Name before ∧ G_ExpiresAt after = G_ExpiresAt before ∧ now < G_ExpiresAt after ∧
    gm !! G_Agent after = Some current ∧ G_EventID current = Tag e "grant-base" ∧ G_Paused current = false ∧ G_RevokedAt current = 0 ∧
    changed_scope (G_Scope before) (G_Scope after) (Rq_Changes req) (TagValues base "repo").
Proof.
  unfold validateGrantReplacement. cbv zeta. rewrite guard_bind_Ok. intros [_ Hv].
  destruct (stored_event _ _ _) as [raw|] eqn:Eraw; [|done]. apply result_bind_Ok in Hv as (request & Hreq & Hv).
  apply result_bind_Ok in Hv as ([] & Hopen & Hv). apply result_bind_Ok in Hv as (base & Hbase & Hv).
  apply result_bind_Ok in Hv as (req & Hdec & Hv). destruct (reviewAgainstGrant _ _ _ _) as [rv|] eqn:Erv; [|done].
  pose proof (reviewed _ _ _ _ _ (decoded_changes _ _ Hdec) Erv) as (Hb & _ & Ebase & Eop & Eag & Aag & Aow & Anm & Aex & Bag & Bow & Hcs).
  rewrite guard_bind_Ok in Hv. destruct Hv as [Hm Hv]. destruct (gm !! Rv_Agent rv) as [current|] eqn:Ecur; [|done].
  rewrite guard_bind_Ok in Hv. destruct Hv as [Hlive Hv]. apply result_bind_Ok in Hv as (got & Hgot & Hv).
  apply result_bind_Ok in Hv as ([] & Hsame & Hv). unfold same_grant in Hsame. rewrite guard_bind_Ok in Hsame. destruct Hsame as [Hsame _].
  rewrite !orb_false_iff, !negb_false_iff, !String.eqb_eq, Z.eqb_eq, bool_decide_eq_true in Hsame.
  destruct Hsame as [[[[[Esc Eex] Eagent] Eowner] Ename] _]. rewrite !orb_false_iff, !negb_false_iff, !String.eqb_eq in Hm.
  rewrite !orb_false_iff, negb_false_iff, Z.eqb_eq, Z.leb_gt in Hlive. destruct Hm as [[Hm1 Hm2] Hm3], Hlive as [[Hp Hr] Hx].
  apply guard_Ok_tt, negb_false_iff in Hv. rewrite Eag in Ecur. rewrite Eagent, Aag, Ecur in Hv. cbn in Hv. apply String.eqb_eq in Hv.
  unfold grantRequestOpen in Hopen. cbv zeta in Hopen. rewrite guard_bind_Ok, guard_Ok_tt in Hopen. destruct Hopen as [Hexp Hden].
  apply negb_false_iff, Nat.eqb_eq, length_zero_iff_nil in Hden. apply andb_false_iff in Hexp. rewrite negb_false_iff, Z.eqb_eq, Z.leb_gt in Hexp.
  exists raw, request, base, req, (Rv_Before rv), got, current. rewrite Esc. rewrite Eagent, Aag. split_and!; try done; congruence.
Qed.
End Review.

(** * internal/community: a grant request on concrete inputs

    An operator's grant, the agent's request for more and the replacement the
    operator signs; and a request the code misreads. *)

#[local] Instance grant_crypto : NostrCrypto := toy_crypto.
#[local] Instance grant_unicode : GoUnicode := ascii_unicode.
#[local] Instance grant_keys : NostrKeys := toy_keys.
#[local] Instance grant_json : GoJson := {| json_parse _ := None |}.

Definition operator_secret : string := repeat_char 64 "1".
Definition agent_secret : string := repeat_char 64 "2".
Definition public_of (secret : string) : string := match PublicKey secret with Ok pk => pk | Err _ => "" end.
Definition operator_pk : string := Eval vm_compute in public_of operator_secret.
Definition agent_pk : string := Eval vm_compute in public_of agent_secret.

Definition signed (secret : string) (created kind : Z) (tags : list (list string)) (content : string) : Event :=
  match Sign (mkEvent "" "" created kind (Some tags) content "") secret with Ok e => e | Err _ => nil_event end.

Definition grant_tags (repo : string) : list (list string) :=
  [["d"; agent_pk]; ["p"; agent_pk]; ["name"; "Ada"]; ["expiration"; "100000"]; ["k"; "1"]; ["room"; "main"];
   ["repo"; operator_pk +:+ ":" +:+ repo +:+ ":read"]; ["wiki"; "propose"]; ["rate"; "20"]].
Definition base_grant : Event := Eval vm_compute in signed operator_secret 100 KIND_AGENT_GRANT (grant_tags "tool") "".

Definition asked (base repo : string) : json :=
  JObj [("base", JStr base); ("changes", JObj
    [("kinds", JArr [JNum "1"; JNum "30023"]); ("rooms", JArr [JStr "dev"]);
     ("repos", JArr [JObj [("owner", JStr operator_pk); ("identifier", JStr repo); ("level", JStr "maintain")]]);
     ("rate", JNum "10")])].

(** A reading of the texts the requests carry. *)
#[local] Instance grant_decoder : GoJsonDecoder :=
  {| json_value raw :=
       if String.eqb raw "" then None
       else if String.eqb raw "change" then Some (Some (asked (ID base_grant) "tool", ""))
       else Some None |}.

Definition grant_request : Event := Eval vm_compute in signed agent_secret 200 1111
  [["request"; "grant"]; ["grant"; "change"]; ["E"; ID base_grant]; ["K"; "30392"]; ["P"; operator_pk];
   ["e"; ID base_grant]; ["k"; "30392"]; ["p"; operator_pk]] "I write long notes now.".

Definition parsed_grant (e : Event) (now : Z) : AgentGrant :=
  match ParseAgentGrant e now with Ok g => g | Err _ => mkGrant "" "" "" "" 0 false 0 (mkScope [] [] [] "" "" [] 0) end.
Definition grant_store : DB := Eval vm_compute in (Save (Save empty_db base_grant (sample_opts 110)).1 grant_request (sample_opts 210)).1.
Definition mirror_of_grants : gmap string AgentGrant := {[ agent_pk := parsed_grant base_grant 110 ]}.

Definition asked_changes : AgentGrantRequest :=
  match decodeGrantRequest grant_request with Ok q => q | Err _ => no_grant_request end.
Definition replacement : Event := Eval vm_compute in
  let e := after_event grant_request asked_changes base_grant 300 in
  signed operator_secret (CreatedAt e) (Kind e) (etags e) (Content e).

Example replacement_scope :
  G_Scope (parsed_grant replacement 310) =
  mkScope [1; 30023] ["main"; "dev"] [mkAgentRepo operator_pk "tool" "maintain"] "propose" "" [] 10.
Proof. vm_compute. reflexivity. Qed.

Lemma replacement_gives_what_was_asked_witness :
  validateGrantReplacement mirror_of_grants grant_store replacement 310 = Ok tt ∧
  ∃ before after, ParseAgentGrant replacement 310 = Ok after ∧ G_ExpiresAt after = G_ExpiresAt before ∧
    ParseAgentGrant base_grant 310 = Ok before.
Proof.
  assert (V : validateGrantReplacement mirror_of_grants grant_store replacement 310 = Ok tt) by (vm_compute; reflexivity).
  split; [exact V|].
  destruct (replacement_gives_what_was_asked mirror_of_grants grant_store replacement 310 V)
    as (raw & request & base & req & before & after & current & _ & _ & _ & _ & Hbase & _ & _ & Hb & Ha & _ & _ & _ & _ & _ & Hx & _).
  exists before, after. split; [exact Ha|]. split; [exact Hx|]. vm_compute in Hbase. injection Hbase as <-. exact Hb.
Defined.

(** ** A repository whose identifier holds a colon

    A grant's repo tag is read up to its last colon, and a request's key is
    compared with the text up to the second. *)

Definition colon_grant : Event := Eval vm_compute in signed operator_secret 100 KIND_AGENT_GRANT (grant_tags "tool:next") "".
Definition ask_for (repo : string) : AgentGrantRequest :=
  mkGrantRequest (ID colon_grant) (mkChanges None None (Some [mkAgentRepo operator_pk repo "maintain"]) None None None None).

(** A request for "tool" takes "tool:next" away from the agent. *)
Example asking_for_tool_drops_tool_next :
  match reviewAgainstGrant grant_request (ask_for "tool") colon_grant 300 with
  | Ok rv => RepoLevel (Rv_Before rv) operator_pk "tool:next" = "read" ∧ RepoLevel (Rv_After rv) operator_pk "tool:next" = "" ∧
             RepoLevel (Rv_After rv) operator_pk "tool" = "maintain"
  | Err _ => False
  end.
Proof. vm_compute. auto. Qed.

(** A request to maintain "tool:next" is refused as changing nothing. *)
Example asking_for_tool_next_changes_nothing :
  reviewAgainstGrant grant_request (ask_for "tool:next") colon_grant 300 = Err "invalid: grant request changes nothing".
Proof. vm_compute. reflexivity. Qed.
