(* ===== verification/CommunityExec.v ===== *)
(** * internal/community: listings and the management dispatcher

    The read side of the management methods and [Execute], which checks the
    actor's role and runs the method.  Rows a query leaves unordered, or whose
    order it does not fix, come in the order of the map. *)

From S2P Require Import Prelude GoLib GoCodec GoLemmas GoStrings Nostr Filter Store StoreQuery Policy Sites Roster Agents Community.

Definition newest {A} (at_ : A → Z) (a b : A) : bool := at_ b <=? at_ a.

Definition members_list (s : Service) : list (string * Member) :=
  sort_by (λ a b, by_time_key (M_CreatedAt a.2, a.1) (M_CreatedAt b.2, b.1)) (map_to_list (r_members (tables s))).

Definition allowedMembers (s : Service) : list (string * string) :=
  (λ kv : string * Member, (kv.1, M_Note kv.2)) <$>
    List.filter (λ kv : string * Member, negb (String.eqb (M_Role kv.2) "owner")) (members_list s).

Definition invites (s : Service) (actor role : string) : list (string * Invite) :=
  take 200 (sort_by (newest (λ ci : string * Invite, I_CreatedAt ci.2))
    (List.filter (λ ci : string * Invite, negb (String.eqb role "member") || String.eqb (I_CreatedBy ci.2) actor)
       (map_to_list (r_invites (tables s))))).

Definition claims (s : Service) (actor role : string) (now : Z) : list string :=
  (List.filter (λ ci : string * Invite, live_invite now ci.2 && (negb (String.eqb role "member") || String.eqb (I_CreatedBy ci.2) actor))
     (map_to_list (r_invites (tables s)))).*1.

(** ORDER BY at DESC over a table of reasons. *)
Definition reasoned_rows (m : gmap string (string * Z)) : list (string * (string * Z)) :=
  sort_by (newest (λ kv : string * (string * Z), kv.2.2)) (map_to_list m).

Definition listKinds (s : Service) (rule : string) : list Z :=
  sort_by Z.leb (List.filter (λ kr : Z * string, String.eqb kr.2 rule) (map_to_list (r_kind_rules (tables s)))).*1.

Definition listRetention (s : Service) : list (Z * Z) :=
  sort_by (λ a b : Z * Z, a.1 <=? b.1) (map_to_list (r_retention (tables s))).

(** Pending requests first and by arrival, then the decided by decision. *)
Definition request_key (r : JoinRequest) : Z := if String.eqb (J_Status r) "pending" then J_RequestedAt r else J_DecidedAt r.
Definition request_leb (a b : string * JoinRequest) : bool :=
  let pa := String.eqb (J_Status a.2) "pending" in
  let pb := String.eqb (J_Status b.2) "pending" in
  if Bool.eqb pa pb then (request_key b.2 <? request_key a.2)
                         || (request_key b.2 =? request_key a.2) && negb (str_ltb b.1 a.1)
  else pa.
Definition listJoinRequests (s : Service) : list (string * JoinRequest) :=
  take 200 (sort_by request_leb (map_to_list (r_requests (tables s)))).

Definition reports (s : Service) (p : list json) : list Report :=
  let status := decode_or "open" decode_string p 0 in
  take 200 (sort_by (newest Rep_At) (List.filter (λ r, String.eqb (Rep_Status r) status) (r_reports (tables s)))).

(** [type||CASE WHEN content='' THEN '' ELSE ': '||substr(content,1,200) END] *)
Definition report_reason (r : Report) : string :=
  Rep_Type r +:+ (if String.eqb (Rep_Content r) "" then "" else ": " +:+ str_concat (rune_src <$> take 200 (runes (Rep_Content r)))).
Definition str_max (a b : string) : string := if str_ltb a b then b else a.

Definition moderationQueue (s : Service) : list (string * string) :=
  let open_ := List.filter (λ r, String.eqb (Rep_Status r) "open" && negb (String.eqb (Rep_Target r) "")) (r_reports (tables s)) in
  let of_target t := List.filter (λ r, String.eqb (Rep_Target r) t) open_ in
  let last t := foldr Z.max 0 (Rep_At <$> of_target t) in
  (λ t, (t, foldr str_max "" (report_reason <$> of_target t))) <$>
    take 500 (sort_by (newest last) (remove_dups (Rep_Target <$> open_))).

(** What a method answers. *)
Inductive Value :=
| VMethods (l : list string)
| VMember (pubkey role : string)
| VRemoved (pubkey : string)
| VRemovedCount (n : Z)
| VMembers (self : string) (l : list (string * Member))
| VRequests (l : list (string * JoinRequest))
| VDecided (pubkey status : string)
| VAllowed (l : list (string * string))
| VInvite (code : string) (i : Invite)
| VTrue
| VInvites (l : list (string * Invite))
| VCodes (l : list string)
| VRevoked (b : bool)
| VOwner (pubkey : string)
| VBanned (id : string)
| VReasoned (l : list (string * (string * Z)))
| VBlocked (ip : string) (blocked : bool)
| VAudit (l : list AuditEntry)
| VReports (l : list Report)
| VQueue (l : list (string * string))
| VWords (l : option (list string))
| VDeleted (n : Z)
| VRetention (kind days : Z)
| VRetentions (l : list (Z * Z))
| VResolved (id : Z) (action : string)
| VKinds (l : list Z).

Definition answer {A} (f : A → Value) (r : Service * result A) : Service * result Value :=
  (r.1, match r.2 with Ok a => mret (f a) | Err m => Err m end).

Section Execute.
Context `{GoUnicode} `{GoPrint} (pol : Policy) (is_ip : string → bool).

Definition run_method (random : list Z) (now : Z) (actor role method : string) (p : list json) (s : Service) : Service * result Value :=
  let any l := contains l method in
  if any ["setmember"; "allowpubkey"] then answer (λ '(pk, r), VMember pk r) (setMember actor now p s)
  else if any ["removemember"; "unrulepubkey"] then answer VRemoved (removeMember actor p s)
  else if any ["removesubtree"] then answer VRemovedCount (removeSubtree actor p s)
  else if any ["listmembers"; "listpeople"] then exec (VMembers (s_owner s) (members_list s)) s
  else if any ["listjoinrequests"] then exec (VRequests (listJoinRequests s)) s
  else if any ["approvejoin"] then answer (λ '(pk, st), VDecided pk st) (approveJoin actor now p s)
  else if any ["denyjoin"] then answer (λ '(pk, st), VDecided pk st) (denyJoin actor now p s)
  else if any ["listallowedpubkeys"] then exec (VAllowed (allowedMembers s)) s
  else if any ["createinvite"] then answer (λ '(c, i), VInvite c i) (createInvite pol random actor now p false s)
  else if any ["createclaim"] then answer (λ _, VTrue) (createInvite pol random actor now p true s)
  else if any ["listinvites"] then exec (VInvites (invites s actor role)) s
  else if any ["listclaims"] then exec (VCodes (claims s actor role now)) s
  else if any ["revokeinvite"; "deleteclaim"] then answer VRevoked (revokeInvite actor role p s)
  else if any ["transferowner"] then answer VOwner (transferOwner p s)
  else if any ["banpubkey"] then answer VBanned (ban actor now p s)
  else if any ["listbannedpubkeys"] then exec (VReasoned (reasoned_rows (r_bans (tables s)))) s
  else if any ["banevent"] then answer VBanned (banEvent now p s)
  else if any ["listbannedevents"] then exec (VReasoned (reasoned_rows (r_event_bans (tables s)))) s
  else if any ["blockip"] then answer (λ '(ip, b), VBlocked ip b) (blockIP is_ip now true p s)
  else if any ["unblockip"] then answer (λ '(ip, b), VBlocked ip b) (blockIP is_ip now false p s)
  else if any ["listblockedips"] then exec (VReasoned (reasoned_rows (r_ip_blocks (tables s)))) s
  else if any ["listaudit"] then exec (VAudit (take 100 (reverse (audit (s_db s))))) s
  else if any ["listreports"] then exec (VReports (reports s p)) s
  else if any ["listeventsneedingmoderation"] then exec (VQueue (moderationQueue s)) s
  else if any ["setblockedwords"] then answer VWords (setBlockedWords p s)
  else if any ["purgekind"] then answer VDeleted (purgeKind now p s)
  else if any ["setretention"] then answer (λ '(k, d), VRetention k d) (setRetention actor p s)
  else if any ["listretention"] then exec (VRetentions (listRetention s)) s
  else if any ["resolvereport"] then answer (λ '(id, a), VResolved id a) (resolveReport actor now p s)
  else if any ["allowevent"] then answer (λ _, VTrue) (allowEvent p s)
  else if any ["allowkind"; "disallowkind"; "unrulekind"] then answer (λ _, VTrue) (setKind method p s)
  else if any ["listallowedkinds"; "listblockedkinds"] then
    exec (VKinds (listKinds s (if String.eqb method "listallowedkinds" then "allow" else "block"))) s
  else refuse ("unsupported: unknown community method " +:+ Quote method) s.

Definition Execute (random : list Z) (now : Z) (actor method : string) (p : list json) (s : Service) : Service * result Value :=
  if String.eqb method "supportedmethods" then exec (VMethods Methods) s
  else
    let role := Role s actor in
    if negb (allowed method role) then refuse ("restricted: " +:+ roleOrGuest role +:+ " may not " +:+ method) s
    else run_method random now actor role method p s.
End Execute.

(** ** config.go *)

Record ConfigSnapshot := mkSnapshot {
  CS_Members : list (string * Member);
  CS_Bans : list (string * string);
  CS_IPBlocks : list (string * string);
  CS_EventBans : list (string * string);
  CS_KindRules : list (Z * string);
  CS_Retention : list (option Z * Z);
}.

Definition by_key {A} (a b : string * A) : bool := negb (str_ltb b.1 a.1).
Definition by_num {A} (a b : Z * A) : bool := a.1 <=? b.1.
Definition reasons (m : gmap string (string * Z)) : list (string * string) :=
  (λ kv : string * (string * Z), (kv.1, kv.2.1)) <$> sort_by by_key (map_to_list m).

Definition Moderators (s : Service) : list string :=
  (List.filter (λ km : string * Member, String.eqb (M_Role km.2) "moderator") (sort_by by_key (map_to_list (r_members (tables s))))).*1.

(** [Rooms], [RoomMembers] and [RoomMemberCount]. *)
Definition LiveRooms (s : Service) : list Room :=
  (List.filter (λ kr : string * Room, R_DeletedAt kr.2 =? 0) (sort_by by_key (map_to_list (r_rooms (tables s))))).*2.
Definition room_rank (role : string) : Z := if String.eqb role "owner" then 0 else if String.eqb role "admin" then 1 else 2.
Definition room_member_leb (a b : string * RoomMember) : bool :=
  let ra := room_rank (RM_Role a.2) in
  let rb := room_rank (RM_Role b.2) in
  (ra <? rb) || (ra =? rb) && by_time_key (RM_AddedAt a.2, a.1) (RM_AddedAt b.2, b.1).
Definition MembersOfRoom (s : Service) (room : string) : list (string * RoomMember) :=
  sort_by room_member_leb (omap (λ kr : (string * string) * RoomMember, if String.eqb kr.1.1 room then Some (kr.1.2, kr.2) else None)
    (map_to_list (r_room_members (tables s)))).
Definition RoomMemberCount (s : Service) (room : string) : Z := Z.of_nat (List.length (MembersOfRoom s room)).

Definition RetentionRules (s : Service) : list (option Z * Z) :=
  (λ kd : Z * Z, (Some kd.1, kd.2)) <$> sort_by by_num (map_to_list (r_retention (tables s))).
Definition MembersForRetention (s : Service) : list (string * Z) :=
  (λ km : string * Member, (km.1, M_KeepDays km.2)) <$>
    List.filter (λ km : string * Member, 0 <? M_KeepDays km.2) (sort_by by_key (map_to_list (r_members (tables s)))).

Definition ExportConfig (s : Service) : ConfigSnapshot :=
  mkSnapshot
    (List.filter (λ km : string * Member, negb (String.eqb (M_Role km.2) "owner")) (sort_by by_key (map_to_list (r_members (tables s)))))
    (reasons (r_bans (tables s))) (reasons (r_ip_blocks (tables s))) (reasons (r_event_bans (tables s)))
    (sort_by by_num (map_to_list (r_kind_rules (tables s))))
    ((λ kd : Z * Z, (if kd.1 <? 0 then None else Some kd.1, kd.2)) <$> sort_by by_num (map_to_list (r_retention (tables s)))).

(** One insert per row: a repeated key violates the primary key. *)
Fixpoint insert_all {K A} `{Countable K} (rows : list (K * A)) (m : gmap K A) : result (gmap K A) :=
  match rows with
  | [] => mret m
  | (k, a) :: r => match m !! k with Some _ => Err "constraint failed" | None => insert_all r (<[k := a]> m) end
  end.

Fixpoint insert_members (rows : list (string * Member)) (now : Z) (t : Roster) : result Roster :=
  match rows with
  | [] => mret t
  | (k, m) :: r =>
    match r_members t !! k with
    | Some _ => Err "constraint failed"
    | None =>
      guard_err (name_taken t k (M_Name m)) "constraint failed";;
      insert_members r now (insert_member k (mkMember (M_Name m) (M_Note m) (M_Role m) (M_InvitedBy m) (M_Via m) now (M_KeepDays m)) t)
    end
  end.

(** The rows with a key, at the time of the import. *)
Definition reason_rows (l : list (string * string)) (now : Z) : list (string * (string * Z)) :=
  (λ kr : string * string, (kr.1, (kr.2, now))) <$> List.filter (λ kr : string * string, negb (String.eqb kr.1 "")) l.

(** [DELETE FROM community_members WHERE role<>'owner'] *)
Definition drop_members (t : Roster) : Roster :=
  fold_left (flip delete_member)
    (List.filter (λ km : string * Member, negb (String.eqb (M_Role km.2) "owner")) (map_to_list (r_members t))).*1 t.

Definition ApplyConfigTx (c : ConfigSnapshot) (members bans addresses eventBans kinds retention : bool) (now : Z) (t : Roster)
    : result Roster :=
  t ← (if members then insert_members (CS_Members c) now (drop_members t) else mret t);
  t ← (if bans then m ← insert_all (reason_rows (CS_Bans c) now) ∅; mret (upd_bans (λ _, m) t) else mret t);
  t ← (if addresses then m ← insert_all (reason_rows (CS_IPBlocks c) now) ∅; mret (upd_ip_blocks (λ _, m) t) else mret t);
  t ← (if eventBans then m ← insert_all (reason_rows (CS_EventBans c) now) ∅; mret (upd_event_bans (λ _, m) t) else mret t);
  t ← (if kinds then m ← insert_all (CS_KindRules c) ∅; mret (upd_kind_rules (λ _, m) t) else mret t);
  if retention then
    m ← insert_all ((λ kd : option Z * Z, (default (-1) kd.1, kd.2)) <$> CS_Retention c) ∅;
    mret (upd_retention (λ _, m) t)
  else mret t.
