(* ===== verification/CommunityProps.v ===== *)
(** * The community tables under every operation

    Each operation is a sequence of statements on the tables ([stmt]); an
    invariant is proved once per statement.  [auth] says whether the acting key
    is the owner: only then may a statement give a key another role than member,
    or than agent to a key without a row. *)

From S2P Require Import Prelude GoLib GoCodec GoLemmas GoStrings Nostr Filter Store StoreQuery Policy Sites Roster Agents Community CommunityExec Membership Rooms.

(** ** Statements *)

Inductive stmt (auth : bool) (slug : string) : Roster → Roster → Prop :=
| st_insert pk m t :
    r_members t !! pk = None → (M_Role m ≠ "member" → auth = true ∨ M_Role m = "agent") → stmt auth slug t (insert_member pk m t)
| st_update pk m m0 t :
    r_members t !! pk = Some m0 → (M_Role m ≠ "member" → M_Role m = M_Role m0 ∨ auth = true) →
    stmt auth slug t (update_member pk m t)
| st_note pk note t :
    stmt auth slug t (upd_members (alter (λ m, mkMember (M_Name m) note (M_Role m) (M_InvitedBy m) (M_Via m)
                                                 (M_CreatedAt m) (M_KeepDays m)) pk) t)
| st_delete pk t : stmt auth slug t (delete_member pk t)
| st_invite code i t :
    r_invites t !! code = None → I_Uses i = 0 → 0 ≤ I_MaxUses i → stmt auth slug t (upd_invites (<[code := i]>) t)
| st_use code i t :
    r_invites t !! code = Some i → (I_MaxUses i =? 0) || (I_Uses i <? I_MaxUses i) = true →
    stmt auth slug t (upd_invites (<[code := mkInvite (I_CreatedBy i) (I_CreatedAt i) (I_ExpiresAt i) (I_MaxUses i)
                                      (I_Uses i + 1) (I_Note i)]>) t)
| st_revoke code t : stmt auth slug t (upd_invites (delete code) t)
| st_bans f t : stmt auth slug t (upd_bans f t)
| st_event_bans f t : stmt auth slug t (upd_event_bans f t)
| st_ip_blocks f t : stmt auth slug t (upd_ip_blocks f t)
| st_retention f t : stmt auth slug t (upd_retention f t)
| st_kind_rules f t : stmt auth slug t (upd_kind_rules f t)
| st_reports f t : stmt auth slug t (upd_reports f t)
| st_requests f t : stmt auth slug t (upd_requests f t)
| st_rooms f t : stmt auth slug t (upd_rooms f t)
| st_meta key value t : key ≠ "rooms.slug" → stmt auth slug t (upd_meta (<[key := value]>) t)
| st_room_member room pk role at_ t : room ≠ slug → stmt auth slug t (put_room_member room pk role at_ t)
| st_leave_room room pk t : room ≠ slug → stmt auth slug t (upd_room_members (delete (room, pk)) t)
| st_clear_room room t : room ≠ slug → stmt auth slug t (upd_room_members (filter (λ kv, kv.1.1 ≠ room)) t).

Definition stmts (auth : bool) (slug : string) : Roster → Roster → Prop := rtc (stmt auth slug).

#[export] Hint Constructors stmt : tiny.

(** A service after statements by one actor. *)
Definition by_stmts (auth : bool) (s s' : Service) : Prop :=
  stmts auth (s_slug s) (tables s) (tables s') ∧ s_slug s' = s_slug s ∧ (s_owner s' = s_owner s ∨ auth = true).

#[export] Instance by_stmts_po auth : PreOrder (by_stmts auth).
Proof.
  split; [by intros s; split; [apply rtc_refl|auto]|].
  intros a b c (H1 & E1 & O1) (H2 & E2 & O2). split; [etrans; [exact H1|by rewrite <-E1]|].
  split; [by rewrite E2|]. destruct O1 as [O1|]; [|auto]. destruct O2 as [O2|]; [|auto]. left. by rewrite O2.
Qed.

Lemma by_tables auth f s : stmt auth (s_slug s) (tables s) (f (tables s)) → by_stmts auth s (on_tables f s).
Proof. intros Hs. split; [by apply rtc_once|auto]. Qed.

Lemma by_stmts_tables auth s s' s0 : by_stmts auth s s' → tables s0 = tables s' → s_slug s0 = s_slug s' → s_owner s0 = s_owner s' → by_stmts auth s s0.
Proof. intros (Hs & E & O) Et El Eo. split; [by rewrite Et|]. by rewrite El, Eo. Qed.

(** Statements that all apply to the tables. *)
Lemma by_stmts_seq auth f s : stmts auth (s_slug s) (tables s) (f (tables s)) → by_stmts auth s (on_tables f s).
Proof. intros Hs. split; [done|auto]. Qed.

Lemma by_record auth actor action target detail s s' :
  by_stmts auth s s' → by_stmts auth s (record actor action target detail s').
Proof. intros Hs. by eapply by_stmts_tables. Qed.

Lemma by_store auth f s s' : by_stmts auth s s' → by_stmts auth s (on_store f s').
Proof. intros Hs. by eapply by_stmts_tables. Qed.

Lemma by_then auth f s s' :
  by_stmts auth s s' → stmt auth (s_slug s') (tables s') (f (tables s')) → by_stmts auth s (on_tables f s').
Proof. intros Hs Hf. etrans; [exact Hs|by apply by_tables]. Qed.
#[export] Hint Resolve by_record by_store by_then : tiny.

Lemma stmts_auth auth slug t t' : stmts auth slug t t' → stmts true slug t t'.
Proof.
  induction 1 as [t|t1 t2 t3 Hs _ IH]; [apply rtc_refl|]. eapply rtc_l; [|exact IH].
  destruct Hs; eauto with tiny.
Qed.

(** ** Transactions *)

Lemma withTx_inv {A} (P : Service → Prop) s (body : result (A * Service)) :
  P s → (∀ a s', body = Ok (a, s') → P s') → P (withTx s body).1.
Proof. intros Hs Hb. unfold withTx. destruct body as [[a s']|m]; [by eapply Hb|done]. Qed.

Lemma after_inv {A B} (P : Service → Prop) s (r : result A) (k : A → Service * result B) :
  P s → (∀ a, r = Ok a → P (k a).1) → P (after s r k).1.
Proof. intros Hs Hk. unfold after. destruct r as [a|m]; [by apply Hk|done]. Qed.

(** ** Management methods *)

Section Ops.
Context `{GoUnicode} `{GoPrint}.

Lemma set_member_row_stmts auth slug pk name role note via now t :
  (role ≠ "member" → auth = true) → stmts auth slug t (set_member_row pk name role note via now t).
Proof.
  intros Hr. unfold set_member_row.
  assert (Hup : ∀ t1, stmts auth slug t t1 → stmts auth slug t
     (if String.eqb note "" then t1 else upd_members (alter (λ m, mkMember (M_Name m) (cut 200 note) (M_Role m) (M_InvitedBy m)
        (M_Via m) (M_CreatedAt m) (M_KeepDays m)) pk) t1)).
  { intros t1 Ht. destruct (String.eqb note ""); [done|]. eapply rtc_r; [exact Ht|apply st_note]. }
  apply Hup. destruct (r_members t !! pk) as [m|] eqn:E; apply rtc_once.
  - eapply st_update; [exact E|]. simpl. auto.
  - apply st_insert; [done|]. simpl. auto.
Qed.

Definition owner_acts (s : Service) (actor : string) : bool := String.eqb (Role s actor) "owner".

Lemma member_input_role s actor p pk name role note :
  member_input s actor p = Ok (pk, name, role, note) → role ≠ "member" → owner_acts s actor = true.
Proof.
  unfold member_input, owner_acts, Role. intros Hi Hr.
  apply result_bind_Ok in Hi as (pk' & _ & Hi). apply guard_bind_Ok in Hi as (_ & Hi).
  apply result_bind_Ok in Hi as (patch & _ & Hi). apply guard_bind_Ok in Hi as (Hrm & Hi).
  apply guard_bind_Ok in Hi as (_ & Hi). apply guard_bind_Ok in Hi as (Hm & Hi). injection Hi as <- <- Hrole <-.
  rewrite Hrole in Hrm, Hm. apply andb_false_iff in Hrm as [Hrm|Hrm]; apply negb_false_iff, String.eqb_eq in Hrm; [done|].
  rewrite Hrm in Hm. apply negb_false_iff in Hm. by rewrite Hm.
Qed.

Lemma setMemberVia_stmts actor via now p s : by_stmts (owner_acts s actor) s (setMemberVia actor via now p s).1.
Proof.
  apply (after_inv (by_stmts (owner_acts s actor) s)); [done|]. intros [[[pk name] role] note] Hi.
  apply (withTx_inv (by_stmts (owner_acts s actor) s)); [done|]. intros a s'. cbv zeta.
  intros (_ & [= _ <-])%guard_bind_Ok. apply by_record. etrans; [apply (by_tables _ (upd_bans (delete pk))); apply st_bans|].
  apply by_stmts_seq, set_member_row_stmts. by eapply member_input_role.
Qed.

Lemma removeMember_stmts auth actor p s : by_stmts auth s (removeMember actor p s).1.
Proof.
  apply (after_inv (by_stmts auth s)); [done|]. intros pk _. repeat case_match; try done.
  apply by_record, by_tables, st_delete.
Qed.

Lemma delete_members_stmts auth slug l t : stmts auth slug t (fold_left (flip delete_member) l t).
Proof.
  revert t. induction l as [|pk l IH]; intros t; simpl; [apply rtc_refl|].
  eapply rtc_l; [apply st_delete|apply IH].
Qed.

Lemma removeSubtree_stmts auth actor p s : by_stmts auth s (removeSubtree actor p s).1.
Proof.
  apply (after_inv (by_stmts auth s)); [done|]. intros pk _. repeat case_match; try done.
  apply by_record, (by_stmts_seq _ (λ t, fold_left (flip delete_member) _ t)), delete_members_stmts.
Qed.

Lemma ban_stmts auth actor now p s : by_stmts auth s (ban actor now p s).1.
Proof.
  apply (after_inv (by_stmts auth s)); [done|]. intros pk _. repeat case_match; try done.
  apply by_store, by_then; [|apply st_delete]. apply by_tables, st_bans.
Qed.

Lemma ApplyOwnerTx_stmts old new s s' : ApplyOwnerTx old new s = Ok s' → by_stmts true s s'.
Proof.
  unfold ApplyOwnerTx. intros (_ & Ha)%guard_bind_Ok. cbv zeta in Ha.
  destruct (member_of s new) as [m0|]; [|done]. set (old' := if String.eqb old "" then _ else _) in Ha.
  set (s1 := match member_of s old' with Some _ => _ | None => _ end) in Ha.
  assert (Hs1 : by_stmts true s s1).
  { unfold s1. destruct (member_of s old') as [m|] eqn:E; [|reflexivity]. destruct (String.eqb (M_Role m) "owner"); [|reflexivity].
    apply by_tables. eapply st_update; [exact E|auto]. }
  destruct (member_of s1 new) as [m|] eqn:E; injection Ha as <-; [|done].
  apply by_then; [done|]. eapply st_update; [exact E|auto].
Qed.

Lemma transferOwner_stmts p s : by_stmts true s (transferOwner p s).1.
Proof.
  apply (after_inv (by_stmts true s)); [done|]. intros pk _. destruct (negb _); [done|].
  destruct (ApplyOwnerTx _ _ _) as [s'|m] eqn:E; [|done]. apply ApplyOwnerTx_stmts in E.
  unfold SetOwner. simpl. destruct E as (Hs & El & _). destruct (negb _); (split; [exact Hs|split; [exact El|by right]]).
Qed.

Lemma insert_invite_stmts auth code i s s' :
  insert_invite code i s = Ok s' → I_Uses i = 0 → 0 ≤ I_MaxUses i → by_stmts auth s s'.
Proof.
  unfold insert_invite. destruct (r_invites (tables s) !! code) eqn:E; [done|]. intros [= <-] Hu Hm.
  apply by_tables. by apply st_invite.
Qed.

Lemma createInvite_stmts pol random auth actor now p claim s :
  by_stmts auth s (createInvite pol random actor now p claim s).1.
Proof.
  apply (after_inv (by_stmts auth s)); [done|]. intros [code i] Hi.
  apply (withTx_inv (by_stmts auth s)); [done|]. intros a s' (s1 & Hs1 & [= _ <-])%result_bind_Ok. apply by_record.
  assert (I_Uses i = 0 ∧ 0 ≤ I_MaxUses i) as (Hu & Hm).
  { apply guard_bind_Ok in Hi as (_ & Hi). apply result_bind_Ok in Hi as (c & _ & Hi). apply guard_bind_Ok in Hi as (_ & Hi).
    cbv zeta in Hi. apply result_bind_Ok in Hi as ([] & _ & Hi). apply guard_bind_Ok in Hi as (_ & Hi).
    injection Hi as _ <-. simpl. split; [done|].
    set (n := if claim then 0 else _). destruct (Z.ltb_spec n 0); lia. }
  destruct (insert_invite code i s) as [s2|] eqn:E; [|done]. injection Hs1 as <-. by eapply insert_invite_stmts.
Qed.

Lemma decideJoin_stmts auth actor pk status now s s' : by_stmts auth s s' → by_stmts auth s (decideJoin actor pk status now s').1.
Proof. intros Hs. apply by_record, by_then; [done|apply st_requests]. Qed.

Lemma approveJoin_stmts actor now p s : by_stmts (owner_acts s actor) s (approveJoin actor now p s).1.
Proof.
  apply (after_inv (by_stmts (owner_acts s actor) s)); [done|]. intros [pk st] _.
  destruct (String.eqb _ _); [|by apply decideJoin_stmts].
  pose proof (setMemberVia_stmts actor "request" now [JStr pk; JObj [("role", JStr "member")]] s) as Hs.
  destruct (setMemberVia _ _ _ _ _) as [s' [a|m]]; [by apply decideJoin_stmts|done].
Qed.

Lemma denyJoin_stmts auth actor now p s : by_stmts auth s (denyJoin actor now p s).1.
Proof.
  apply (after_inv (by_stmts auth s)); [done|]. intros [pk st] _. destruct (String.eqb _ _); [done|by apply decideJoin_stmts].
Qed.

Lemma allowed_transfer role : allowed "transferowner" role = true → role = "owner".
Proof.
  unfold allowed. cbn. destruct (String.eqb_spec role "owner"); [done|]. destruct (String.eqb role "member"); [done|].
  by destruct (negb _).
Qed.

Lemma run_method_stmts pol is_ip random now actor role method p s :
  (method = "transferowner" → owner_acts s actor = true) →
  by_stmts (owner_acts s actor) s (run_method pol is_ip random now actor role method p s).1.
Proof.
  intros Ht. unfold run_method, answer.
  repeat (match goal with |- by_stmts _ _ (if contains ?l method then _ else _).1 =>
    destruct (contains l method) eqn:?; cbn [fst] end); try done;
  eauto using setMemberVia_stmts, removeMember_stmts, removeSubtree_stmts, approveJoin_stmts, denyJoin_stmts,
    createInvite_stmts, ban_stmts.
  - apply (after_inv (by_stmts _ s)); [done|]. intros code _. destruct (_ && _); [done|]. apply by_tables, st_revoke.
  - assert (method = "transferowner") as Em.
    { match goal with E : contains ["transferowner"] method = true |- _ => apply contains_spec in E; set_solver end. }
    rewrite (Ht Em). apply transferOwner_stmts.
  - apply (after_inv (by_stmts _ s)); [done|]. intros id _. apply by_tables, st_event_bans.
  - apply (after_inv (by_stmts _ s)); [done|]. intros ip _. destruct (negb _); [done|]. apply by_tables, st_ip_blocks.
  - apply (after_inv (by_stmts _ s)); [done|]. intros ip _. destruct (negb _); [done|]. apply by_tables, st_ip_blocks.
  - unfold setBlockedWords. destruct (decode _ _ _); [|done]. by apply by_tables, st_meta.
  - apply (after_inv (by_stmts _ s)); [done|]. intros [k d] _. destruct (d <? 0); [reflexivity|].
    cbv zeta. match goal with |- context [delete_events ?f ?db] => destruct (delete_events f db) as [db' n] end. by apply by_store.
  - apply (after_inv (by_stmts _ s)); [done|]. intros [k d] _. destruct (_ || _); [done|].
    apply by_record, by_tables, st_retention.
  - apply (after_inv (by_stmts _ s)); [done|]. intros [id a] _. cbv zeta. do 2 (match goal with |- by_stmts _ _ (if ?b then _ else _).1 => destruct b; [reflexivity|] end).
    apply by_tables, st_reports.
  - apply (after_inv (by_stmts _ s)); [done|]. intros id _. apply by_tables, st_event_bans.
  - apply (after_inv (by_stmts _ s)); [done|]. intros k _. destruct (_ || _); [done|].
    assert (Hd : by_stmts (owner_acts s actor) s (on_tables (upd_kind_rules (delete k)) s)) by apply by_tables, st_kind_rules.
    repeat case_match; try done; (apply by_then; [exact Hd|apply st_kind_rules]).
Qed.

Lemma Execute_stmts pol is_ip random now actor method p s :
  by_stmts (owner_acts s actor) s (Execute pol is_ip random now actor method p s).1.
Proof.
  unfold Execute. destruct (String.eqb _ _); [done|]. cbv zeta. destruct (allowed method (Role s actor)) eqn:Ha; [|done].
  apply run_method_stmts. intros ->. apply allowed_transfer in Ha. unfold owner_acts. by rewrite Ha.
Qed.

(** ** Joins, requests and reports *)

Lemma use_invite_stmts auth code i s s' :
  r_invites (tables s) !! code = Some i → use_invite code i s = Ok s' → by_stmts auth s s'.
Proof.
  intros Hi (Hu & [= <-])%guard_bind_Ok. apply negb_false_iff in Hu. apply by_tables. by apply st_use.
Qed.

Lemma usable_invite_row s code now i : usable_invite s code now = Ok i → r_invites (tables s) !! code = Some i.
Proof.
  unfold usable_invite. destruct (r_invites (tables s) !! code) as [i'|]; [|done].
  intros (_ & (_ & (_ & [= ->])%guard_bind_Ok)%guard_bind_Ok)%guard_bind_Ok. done.
Qed.

Lemma use_invite_members code i s s' : use_invite code i s = Ok s' → r_members (tables s') = r_members (tables s).
Proof. by intros (_ & [= <-])%guard_bind_Ok. Qed.

Lemma join_via_stmts auth pk creator via now s s' :
  by_stmts auth s s' → member_of s' pk = None → by_stmts auth s (join_via pk creator via now s').
Proof. intros Hs Hm. apply by_then; [done|]. by apply st_insert. Qed.

Lemma ClaimWithTerms_stmts pol auth code pk terms now s : by_stmts auth s (ClaimWithTerms pol code pk terms now s).1.
Proof.
  apply (after_inv (by_stmts auth s)); [done|]. intros a _. destruct (member_of s pk) eqn:Em; [done|].
  apply (withTx_inv (by_stmts auth s)); [done|].
  intros b s' (i & Hi & (s1 & Hs1 & [= _ <-])%result_bind_Ok)%result_bind_Ok. apply by_record, join_via_stmts.
  - eapply use_invite_stmts; [by eapply usable_invite_row|done].
  - unfold member_of. by rewrite (use_invite_members _ _ _ _ Hs1).
Qed.

Lemma recordJoinRequestTx_stmts auth pk reason now s b s' : recordJoinRequestTx pk reason now s = Ok (b, s') → by_stmts auth s s'.
Proof. intros (_ & [= _ <-])%guard_bind_Ok. apply by_tables, st_requests. Qed.

Lemma RecordJoinRequest_stmts auth pk reason now s : by_stmts auth s (RecordJoinRequest pk reason now s).1.
Proof. apply (withTx_inv (by_stmts auth s)); [done|]. intros b s'. apply recordJoinRequestTx_stmts. Qed.

Lemma SubmitReportTarget_stmts auth reporter target tt_ typ content th now s :
  by_stmts auth s (SubmitReportTarget reporter target tt_ typ content th now s).1.
Proof.
  apply (withTx_inv (by_stmts auth s)); [done|]. intros [] s' (s1 & Hs1 & [= <-])%result_bind_Ok.
  apply guard_bind_Ok in Hs1 as (_ & Hs1). cbv zeta in Hs1.
  assert (Hr : by_stmts auth s (on_tables (upd_reports (add_report reporter target typ content now)) s)) by apply by_tables, st_reports.
  repeat (match type of Hs1 with (if ?b then _ else _) = _ => destruct b end); injection Hs1 as <-; auto with tiny.
Qed.

(** ** Membership and moderation events *)

(** The storing of an event leaves the roster and the names alone. *)
Definition stores_only (persist : Service → result Service) : Prop :=
  ∀ s s', persist s = Ok s' → tables s' = tables s ∧ s_slug s' = s_slug s ∧ s_owner s' = s_owner s.

Lemma persist_stmts auth persist s s1 s2 :
  stores_only persist → by_stmts auth s s1 → persist s1 = Ok s2 → by_stmts auth s s2.
Proof. intros Hp Hs (Et & El & Eo)%Hp. by eapply by_stmts_tables. Qed.

Lemma EnqueueProjectionTx_stmts auth e now s s' : by_stmts auth s s' → by_stmts auth s (EnqueueProjectionTx e now s').
Proof. apply by_store. Qed.

Lemma admit_stmts pol auth e now s s' : member_of s (PubKey e) = None → admit_key pol e now s = Ok s' → by_stmts auth s s'.
Proof.
  intros Hm. unfold admit_key. cbv zeta. destruct (String.eqb (join_claim e) "").
  - intros (_ & (a & _ & [= <-])%result_bind_Ok)%guard_bind_Ok. by apply join_via_stmts.
  - intros (i & Hi & (a & _ & (s1 & Hs1 & [= <-])%result_bind_Ok)%result_bind_Ok)%result_bind_Ok.
    apply join_via_stmts; [eapply use_invite_stmts; [by eapply usable_invite_row|done]|].
    unfold member_of. by rewrite (use_invite_members _ _ _ _ Hs1).
Qed.

Lemma membership_tx_stmts pol auth e now s out go_on early :
  membership_tx pol e now s = Ok (out, go_on, early) → by_stmts auth s early ∧ by_stmts auth s (default s go_on).
Proof.
  unfold membership_tx. cbv zeta. destruct (is_leave (Kind e)).
  - intros (_ & E)%guard_bind_Ok. destruct (negb _).
    + destruct (Kind e =? KIND_NIP43_LEAVE); [|done]. by injection E as <- <- <-.
    + injection E as <- <- <-. split; [done|]. simpl. apply by_tables, st_delete.
  - destruct (member_of s (PubKey e)) eqn:Em; [by intros [= <- <- <-]|].
    destruct (IsAccessRequest e).
    + intros ([b s1] & Hr & [= <- <- <-])%result_bind_Ok. simpl. split; [|done]. by eapply recordJoinRequestTx_stmts.
    + intros (s1 & Hs1 & [= <- <- <-])%result_bind_Ok. simpl. split; [done|]. by eapply admit_stmts.
Qed.

Lemma HandleMembershipEventTx_stmts pol auth e now persist s :
  stores_only persist → by_stmts auth s (HandleMembershipEventTx pol e now persist s).1.
Proof.
  intros Hp. unfold HandleMembershipEventTx. destruct (negb _); [done|].
  apply (withTx_inv (by_stmts auth s)); [done|]. intros out' s' ([[out go_on] early] & Hm & Hk)%result_bind_Ok.
  apply (membership_tx_stmts _ auth) in Hm as (He & Hg). destruct go_on as [s1|]; [|by injection Hk as _ <-].
  simpl in Hg. apply result_bind_Ok in Hk as (s2 & Hs2 & [= _ <-]).
  apply (EnqueueProjectionTx_stmts _ e now) in Hg. destruct (MR_Stored out); [by eapply persist_stmts|by injection Hs2 as <-].
Qed.

Lemma delete_event_rows_stmts auth ids s s' : by_stmts auth s s' → by_stmts auth s (delete_event_rows ids s').
Proof. apply by_store. Qed.

Lemma put_user_stmts auth slug target role now t :
  (role ≠ "member" → auth = true) → stmts auth slug t (put_user target role now t).
Proof.
  intros Hr. unfold put_user. destruct (r_members t !! target) as [m|] eqn:E; apply rtc_once; [eapply st_update; [exact E|]|apply st_insert; [done|simpl; auto]].
  simpl. auto.
Qed.

Lemma moderation_tx_stmts pol random e now s s' :
  moderation_tx pol random (Role s (PubKey e)) e now s = Ok s' → by_stmts (owner_acts s (PubKey e)) s s'.
Proof.
  unfold moderation_tx, owner_acts. cbv zeta. destruct (_ || _).
  - intros (_ & (_ & (_ & E)%guard_bind_Ok)%guard_bind_Ok)%guard_bind_Ok. destruct (Kind e =? KIND_REMOVE_USER).
    + injection E as <-. apply by_tables, st_delete.
    + apply guard_bind_Ok in E as (Hw & [= <-]). apply by_stmts_seq, put_user_stmts.
      destruct (wants_moderator _ _); [|done]. intros _. simpl in Hw. by apply negb_false_iff in Hw.
  - destruct (_ =? _).
    + intros (_ & [= <-])%guard_bind_Ok. apply by_store. reflexivity.
    + intros (a & _ & (_ & E)%guard_bind_Ok)%result_bind_Ok. eapply insert_invite_stmts; [exact E|done|done].
Qed.

Lemma HandleModerationEventTx_stmts pol random e now persist s :
  stores_only persist → by_stmts (owner_acts s (PubKey e)) s (HandleModerationEventTx pol random e now persist s).1.
Proof.
  intros Hp. unfold HandleModerationEventTx. destruct (negb _); [done|]. cbv zeta. destruct (_ && _); [done|].
  apply (withTx_inv (by_stmts _ s)); [done|]. intros out s' (s1 & Hs1 & (s2 & Hs2 & [= _ <-])%result_bind_Ok)%result_bind_Ok.
  eapply persist_stmts; [done| |exact Hs2]. apply EnqueueProjectionTx_stmts. by eapply moderation_tx_stmts.
Qed.

(** ** Room events *)

Lemma HandleRoomMessageTx_stmts auth e now persist s :
  stores_only persist → tagValue e "h" ≠ s_slug s → by_stmts auth s (HandleRoomMessageTx e now persist s).1.
Proof.
  intros Hp Hslug. apply (withTx_inv (by_stmts auth s)); [done|]. intros [] s'. cbv zeta.
  intros (_ & (s1 & Hs1 & (s2 & Hs2 & [= <-])%result_bind_Ok)%result_bind_Ok)%guard_bind_Ok.
  eapply persist_stmts; [done| |exact Hs2]. destruct (String.eqb _ _); [|by injection Hs1 as <-].
  apply guard_bind_Ok in Hs1 as (_ & [= <-]). unfold add_room_member. destruct (_ !! _); [done|]. by apply by_tables, st_room_member.
Qed.

Lemma createRoomTx_stmts pol auth e room now s s' :
  tagValue e "h" ≠ s_slug s → createRoomTx pol e room now s = Ok s' → by_stmts auth s s'.
Proof.
  intros Hslug (_ & (_ & (_ & [= <-])%guard_bind_Ok)%guard_bind_Ok)%guard_bind_Ok.
  apply by_record, by_then; [|by apply st_room_member]. apply by_then; [|by apply st_clear_room]. apply by_tables, st_rooms.
Qed.

Lemma delete_room_messages_stmts auth admin pk room ids s0 s s' :
  by_stmts auth s0 s → delete_room_messages admin pk room ids s = Ok s' → by_stmts auth s0 s'.
Proof.
  revert s. induction ids as [|id ids IH]; simpl; intros s Hs E; [by injection E as <-|].
  destruct (room_message_author _ _ _); [|by eapply IH]. apply guard_bind_Ok in E as (_ & E).
  eapply IH; [|exact E]. by apply delete_event_rows_stmts.
Qed.

Lemma insert_room_member_Ok room pk now s s' :
  insert_room_member room pk now s = Ok s' →
  r_room_members (tables s) !! (room, pk) = None ∧ s' = set_room_member room pk RoomRoleMember now s.
Proof. unfold insert_room_member. destruct (_ !! _); [done|]. by intros [= <-]. Qed.

Lemma room_event_body_stmts auth e room role now s s' :
  tagValue e "h" ≠ s_slug s → room_event_body e room role now s = Ok (inr s') → by_stmts auth s s'.
Proof.
  intros Hslug. unfold room_event_body. cbv zeta.
  destruct (_ =? KIND_EDIT_METADATA); [intros (_ & [= <-])%guard_bind_Ok; apply by_store, by_tables, st_rooms|].
  destruct (_ =? KIND_PUT_USER).
  { intros (_ & E)%guard_bind_Ok. destruct (roomTarget e) as [target wanted].
    apply guard_bind_Ok in E as (_ & (_ & (_ & [= <-])%guard_bind_Ok)%guard_bind_Ok). by apply by_tables, st_room_member. }
  destruct (_ =? KIND_REMOVE_USER).
  { intros (_ & E)%guard_bind_Ok. destruct (roomTarget e) as [target wanted].
    apply guard_bind_Ok in E as (_ & E). destruct (String.eqb _ ""); [done|].
    apply result_bind_Ok in E as (u & _ & [= <-]). by apply by_tables, st_leave_room. }
  destruct (_ =? KIND_JOIN).
  { destruct (negb _); [done|]. intros (_ & (s1 & Hi & [= <-])%result_bind_Ok)%guard_bind_Ok.
    apply insert_room_member_Ok in Hi as (_ & ->). by apply by_tables, st_room_member. }
  destruct (_ =? KIND_LEAVE).
  { intros (_ & (u & _ & [= <-])%result_bind_Ok)%guard_bind_Ok. by apply by_tables, st_leave_room. }
  destruct (_ =? KIND_DELETE_EVENT).
  { intros (_ & (s1 & Hs1 & [= <-])%result_bind_Ok)%guard_bind_Ok. by eapply delete_room_messages_stmts. }
  destruct (_ =? KIND_DELETE_GROUP).
  { intros (_ & [= <-])%guard_bind_Ok. apply by_store, by_store, by_then; [apply by_tables, st_rooms|by apply st_clear_room]. }
  by intros [= <-].
Qed.

Lemma HandleRoomEventTx_stmts pol auth e now persist s :
  stores_only persist → by_stmts auth s (HandleRoomEventTx pol e now persist s).1.
Proof.
  intros Hp. unfold HandleRoomEventTx. cbv zeta. do 2 (destruct (negb _); [done|]).
  destruct (String.eqb_spec (tagValue e "h") (s_slug s)) as [|Hslug]; [done|].
  destruct (negb _); [done|]. destruct (_ || _); [done|]. destruct (String.eqb _ ""); [done|].
  apply (withTx_inv (by_stmts auth s)); [done|]. intros out s'. destruct (_ =? KIND_CREATE_GROUP).
  - intros (s1 & Hs1 & (s2 & Hs2 & [= _ <-])%result_bind_Ok)%result_bind_Ok.
    eapply persist_stmts; [done| |exact Hs2]. by eapply createRoomTx_stmts.
  - intros (_ & (body & Hb & Hk)%result_bind_Ok)%guard_bind_Ok. destruct body as [m|s1]; [by injection Hk as _ <-|].
    apply result_bind_Ok in Hk as (s2 & Hs2 & [= _ <-]). eapply persist_stmts; [done| |exact Hs2].
    apply by_record. by eapply room_event_body_stmts.
Qed.
End Ops.
