(* ===== verification/CommunityInv.v ===== *)
(** * Invariants of the community tables along every run

    [cstep actor] is one operation of one key: a management call, a claim, a
    request, a report, an event of the membership, moderation and room handlers,
    an agent grant or its deletion, the pause and revocation of agents.  [hstep]
    is the host's own work: it opens the tenant again, sets up the slug room,
    imports a configuration, changes the owner with the policy or hands the relay
    over.  The invariants are those of a statement ([stmt]), lifted to runs. *)

From S2P Require Import Prelude GoLib GoCodec GoLemmas GoStrings Nostr Filter Store StoreQuery Policy Sites Roster Agents Community CommunityExec Membership Rooms CommunityProps.

(** ** Agents, configuration and the start as statements *)

Lemma dropAgentRoleTx_stmts auth slug db agent : stmts auth slug (roster db) (roster (dropAgentRoleTx db agent)).
Proof.
  unfold dropAgentRoleTx. destruct (members db !! agent); [|apply rtc_refl]. destruct (String.eqb _ _); [|apply rtc_refl].
  apply rtc_once, st_delete.
Qed.

Lemma applyAgentGrantTx_stmts auth slug db grant now : stmts auth slug (roster db) (roster (applyAgentGrantTx db grant now)).
Proof.
  unfold applyAgentGrantTx. cbv zeta. destruct (0 <? _); [apply (dropAgentRoleTx_stmts auth slug (put_grant db _ _))|].
  cbn [roster recordTx put_grant]. unfold members. cbn [roster put_grant].
  destruct (r_members (roster db) !! G_Agent grant) eqn:E; [apply rtc_refl|]. apply rtc_once, st_insert; [exact E|]. by right.
Qed.

Lemma revokeAgentTx_stmts auth slug db actor agent now detail : stmts auth slug (roster db) (roster (revokeAgentTx db actor agent now detail)).
Proof.
  unfold revokeAgentTx. destruct (agent_grants db !! agent); [|apply rtc_refl]. destruct (_ && _); [|apply rtc_refl].
  apply (dropAgentRoleTx_stmts auth slug (put_grant db _ _)).
Qed.

Lemma ApplyAgentEventTx_stmts `{NostrKeys} `{GoUnicode} `{GoJson} auth slug ok db e now db' :
  ApplyAgentEventTx ok db e now = Ok db' → stmts auth slug (roster db) (roster db').
Proof.
  unfold ApplyAgentEventTx. destruct (Kind e =? KIND_AGENT_GRANT).
  { intros ([] & _ & (g & _ & [= <-])%result_bind_Ok)%result_bind_Ok. apply applyAgentGrantTx_stmts. }
  destruct (Kind e =? KIND_DELETION); intros [= <-]; [|apply rtc_refl]. unfold revokeDeletedGrantsTx.
  revert db. induction (etags e) as [|tag l IH]; intros db; cbn [fold_left]; [apply rtc_refl|]. etrans; [|apply IH].
  unfold revoke_tag. destruct (deleted_agent db e tag); [|apply rtc_refl]. destruct (negb _); [apply rtc_refl|apply revokeAgentTx_stmts].
Qed.

Lemma RevokeAgent_stmts auth slug db actor agent now : stmts auth slug (roster db) (roster (RevokeAgent db actor agent now).1).
Proof.
  unfold RevokeAgent. destruct (negb _); [apply rtc_refl|]. destruct (agent_grants db !! agent); [|apply rtc_refl].
  destruct (0 <? _); [apply rtc_refl|]. apply (dropAgentRoleTx_stmts auth slug (put_grant db _ _)).
Qed.

Lemma SetAgentPaused_roster db actor agent paused : roster (SetAgentPaused db actor agent paused).1 = roster db.
Proof. unfold SetAgentPaused. repeat case_match; done. Qed.

Lemma insert_members_stmts slug rows now t t' : insert_members rows now t = Ok t' → stmts true slug t t'.
Proof.
  revert t. induction rows as [|[k m] rows IH]; intros t; cbn [insert_members]; [intros [= <-]; apply rtc_refl|].
  destruct (r_members t !! k) eqn:E; [done|]. intros (_ & Hr)%guard_bind_Ok. eapply rtc_l; [|by eapply IH]. apply st_insert; [done|auto].
Qed.

Lemma ApplyConfigTx_stmts auth slug c members bans addresses eventBans kinds retention now t t' :
  (members = true → auth = true) → ApplyConfigTx c members bans addresses eventBans kinds retention now t = Ok t' → stmts auth slug t t'.
Proof.
  intros Ha (t1 & H1 & (t2 & H2 & (t3 & H3 & (t4 & H4 & (t5 & H5 & H6)%result_bind_Ok)%result_bind_Ok)%result_bind_Ok)%result_bind_Ok)%result_bind_Ok.
  assert (∀ {A} (P : bool) (r : result A) f t0 t1, (if P then m ← r; mret (f m t0) else mret t0) = Ok t1 →
    (∀ m t0, stmt auth slug t0 (f m t0)) → stmts auth slug t0 t1) as Hsec.
  { intros A b r f t0 t0' Hif Hf. destruct b; [|by injection Hif as <-; apply rtc_refl].
    apply result_bind_Ok in Hif as (m & _ & [= <-]). by apply rtc_once. }
  transitivity t1.
  { destruct members; [|by injection H1 as <-; apply rtc_refl]. rewrite Ha by done.
    etrans; [apply (delete_members_stmts true slug)|by eapply insert_members_stmts]. }
  transitivity t2; [eapply (Hsec _ _ _ (λ m, upd_bans (λ _, m)) _ _ H2); intros; apply st_bans|].
  transitivity t3; [eapply (Hsec _ _ _ (λ m, upd_ip_blocks (λ _, m)) _ _ H3); intros; apply st_ip_blocks|].
  transitivity t4; [eapply (Hsec _ _ _ (λ m, upd_event_bans (λ _, m)) _ _ H4); intros; apply st_event_bans|].
  transitivity t5; [eapply (Hsec _ _ _ (λ m, upd_kind_rules (λ _, m)) _ _ H5); intros; apply st_kind_rules|].
  eapply (Hsec _ _ _ (λ m, upd_retention (λ _, m)) _ _ H6); intros; apply st_retention.
Qed.

(** ** Runs of the service *)

Definition with_db (db : CommunityDB) (s : Service) : Service := mkService db (s_store s) (s_owner s) (s_slug s).

Lemma by_with_db auth s db : stmts auth (s_slug s) (tables s) (roster db) → by_stmts auth s (with_db db s).
Proof. intros Hs. split; [exact Hs|auto]. Qed.

Section Steps.
Context `{GoUnicode} `{GoPrint} `{NostrKeys} `{GoJson}.

Inductive cstep (actor : string) (s : Service) : Service → Prop :=
| c_execute pol is_ip random now method p : cstep actor s (Execute pol is_ip random now actor method p s).1
| c_claim pol code terms now : cstep actor s (ClaimWithTerms pol code actor terms now s).1
| c_issue pol random now : cstep actor s (IssueNIP43Invite pol random actor now s).1
| c_request reason now : cstep actor s (RecordJoinRequest actor reason now s).1
| c_report target typ kind content threshold now :
    cstep actor s (SubmitReportTarget actor target typ kind content threshold now s).1
| c_membership pol e now persist :
    PubKey e = actor → stores_only persist → cstep actor s (HandleMembershipEventTx pol e now persist s).1
| c_moderation pol random e now persist :
    PubKey e = actor → stores_only persist → cstep actor s (HandleModerationEventTx pol random e now persist s).1
| c_room_message e now persist :
    PubKey e = actor → tagValue e "h" ≠ s_slug s → stores_only persist → cstep actor s (HandleRoomMessageTx e now persist s).1
| c_room pol e now persist :
    PubKey e = actor → stores_only persist → cstep actor s (HandleRoomEventTx pol e now persist s).1
| c_agent replacement_ok e now db :
    PubKey e = actor → ApplyAgentEventTx replacement_ok (s_db s) e now = Ok db → cstep actor s (with_db db s)
| c_revoke_agent agent now : cstep actor s (with_db (RevokeAgent (s_db s) actor agent now).1 s)
| c_pause_agent agent paused : cstep actor s (with_db (SetAgentPaused (s_db s) actor agent paused).1 s)
| c_pause_agents paused : cstep actor s (with_db (SetAllAgentsPaused (s_db s) actor paused).1 s).

(** The host's work; with [auth] it decides over members and ownership. *)
Inductive hstep (auth : bool) (s : Service) : Service → Prop :=
| h_slug_room slug access now : hstep auth s (EnsureSlugRoom slug access now s).1
| h_open store owner slug access now s1 s2 :
    (owner ≠ s_owner s → auth = true) → NewService (s_db s) store owner now = Ok s1 →
    EnsureSlugRoom slug access now s1 = (s2, Ok tt) → hstep auth s s2
| h_config c members bans addresses eventBans kinds retention now t :
    (members = true → auth = true) → ApplyConfigTx c members bans addresses eventBans kinds retention now (tables s) = Ok t →
    hstep auth s (on_tables (λ _, t) s)
| h_owner old new s1 : auth = true → ApplyOwnerTx old new s = Ok s1 → hstep auth s s1
| h_set_owner new : auth = true → hstep auth s (SetOwner new s).1.

(** Any keys act, and the host. *)
Definition community_run : Service → Service → Prop := rtc (λ s s', (∃ actor, cstep actor s s') ∨ ∃ auth, hstep auth s s').
(** Only keys act that are not the owner when they do, and the host without
    deciding over members and ownership. *)
Definition unowned_run : Service → Service → Prop :=
  rtc (λ s s', (∃ actor, owner_acts s actor = false ∧ cstep actor s s') ∨ hstep false s s').

Lemma cstep_stmts actor s s' : cstep actor s s' → by_stmts (owner_acts s actor) s s'.
Proof.
  destruct 1; subst; eauto using Execute_stmts, ClaimWithTerms_stmts, RecordJoinRequest_stmts, SubmitReportTarget_stmts,
    HandleMembershipEventTx_stmts, HandleModerationEventTx_stmts, HandleRoomMessageTx_stmts, HandleRoomEventTx_stmts,
    by_with_db, ApplyAgentEventTx_stmts, RevokeAgent_stmts.
  - unfold IssueNIP43Invite. repeat (match goal with |- by_stmts _ _ (if ?b then _ else _).1 => destruct b; [reflexivity|] end).
    apply createInvite_stmts.
  - apply by_with_db. rewrite SetAgentPaused_roster. apply rtc_refl.
  - apply by_with_db, rtc_refl.
Qed.

(** An invariant of the statements, and of the set-up of a slug room, is one
    of the runs. *)
Lemma run_tables (P : string → Roster → Prop) s s' :
  (∀ slug t t', stmt true slug t t' → P slug t → P slug t') →
  (∀ slug slug' access now s s', EnsureSlugRoom slug' access now s = (s', Ok tt) → P slug (tables s) → P slug' (tables s')) →
  community_run s s' → P (s_slug s) (tables s) → P (s_slug s') (tables s').
Proof.
  intros Hst Hslug.
  assert (∀ slug t t', stmts true slug t t' → P slug t → P slug t') as Hstmts.
  { intros slug t t'. induction 1 as [t|t t1 t2 Hone _ IH]; [done|]. intros Hp. by eapply IH, Hst. }
  assert (∀ slug access now s s', EnsureSlugRoom slug access now s = (s', Ok tt) → s_slug s' = slug) as Hset.
  { intros slug access now a b. unfold EnsureSlugRoom. destruct (negb _); [done|]. by intros [= <-]. }
  induction 1 as [s|s s1 s2 Hstep _ IH]; [done|]. intros Hp. apply IH. clear IH. destruct Hstep as [(actor & Hc)|(auth & Hh)].
  - apply cstep_stmts in Hc as (Hs & El & _). rewrite El. by eapply Hstmts, Hp; eapply stmts_auth.
  - destruct Hh as [slug access now|store owner slug access now s1 s2' _ Hn He|c mem bans addresses ev kinds ret now t _ Hc|old new s1 _ Ho|new _].
    + destruct (EnsureSlugRoom slug access now s) as [s3 r] eqn:E. cbn [fst]. destruct r as [[]|m].
      * rewrite (Hset _ _ _ _ _ E). by eapply Hslug.
      * unfold EnsureSlugRoom in E. destruct (negb _); [|done]. by injection E as <- _.
    + rewrite (Hset _ _ _ _ _ He). eapply (Hslug (s_slug s)); [exact He|]. unfold NewService in Hn. apply guard_bind_Ok in Hn as (_ & [= <-]).
      destruct (member_of _ owner) eqn:Em; [exact Hp|]. eapply Hst; [|exact Hp]. apply st_insert; [exact Em|auto].
    + eapply Hstmts, Hp. eapply (ApplyConfigTx_stmts true); [|exact Hc]. done.
    + apply ApplyOwnerTx_stmts in Ho as (Hs & El & _). rewrite El. by eapply Hstmts, Hp.
    + unfold SetOwner. by destruct (negb _).
Qed.
End Steps.

(** ** The slug room mirrors the roster *)

Definition Mirrored (slug : string) (t : Roster) : Prop :=
  slug_value t = Some slug ∧
  ∀ pk, RM_Role <$> r_room_members t !! (slug, pk) = (mirror_role ∘ M_Role) <$> r_members t !! pk.

Lemma mirrored_same slug t t' :
  r_members t' = r_members t → slug_value t' = slug_value t →
  (∀ pk, r_room_members t' !! (slug, pk) = r_room_members t !! (slug, pk)) → Mirrored slug t → Mirrored slug t'.
Proof. intros Em Es Er (Hs & Hm). split; [by rewrite Es|]. intros pk. by rewrite Er, Em. Qed.

Lemma put_room_member_role room pk role at_ t room' pk' :
  RM_Role <$> r_room_members (put_room_member room pk role at_ t) !! (room', pk') =
  if decide ((room', pk') = (room, pk)) then Some role else RM_Role <$> r_room_members t !! (room', pk').
Proof.
  simpl. destruct (decide _) as [->|Hn]; [|by rewrite lookup_insert_ne by congruence].
  rewrite lookup_insert_eq. simpl. by destruct (r_room_members t !! (room, pk)).
Qed.

Lemma mirrored_insert slug t pk m : Mirrored slug t → Mirrored slug (insert_member pk m t).
Proof.
  intros (Hs & Hm). unfold insert_member, room_mirror_insert. change (slug_value (upd_members _ t)) with (slug_value t).
  rewrite Hs. split; [done|]. intros pk'. rewrite put_room_member_role. simpl. destruct (decide _) as [[= ->]|Hn].
  - by rewrite lookup_insert_eq.
  - rewrite lookup_insert_ne by congruence. apply Hm.
Qed.

Lemma mirrored_update slug t pk m m0 :
  r_members t !! pk = Some m0 → Mirrored slug t → Mirrored slug (update_member pk m t).
Proof.
  intros E (Hs & Hm). unfold update_member, room_mirror_update. change (slug_value (upd_members _ t)) with (slug_value t).
  rewrite Hs. split; [done|]. intros pk'. simpl. specialize (Hm pk'). destruct (decide (pk' = pk)) as [->|Hn].
  - rewrite lookup_alter_eq, lookup_insert_eq. rewrite E in Hm. by destruct (r_room_members t !! (slug, pk)).
  - by rewrite lookup_alter_ne, lookup_insert_ne by congruence.
Qed.

Lemma mirrored_delete slug t pk : Mirrored slug t → Mirrored slug (delete_member pk t).
Proof.
  intros (Hs & Hm). unfold delete_member. destruct (r_members t !! pk) eqn:E; [|by split].
  split; [done|]. intros pk'. simpl. destruct (decide (pk' = pk)) as [->|Hn].
  - rewrite lookup_delete_eq. rewrite map_lookup_filter_None_2; [done|]. right. intros x _ Hx. by apply Hx.
  - rewrite lookup_delete_ne by congruence. rewrite <-Hm. f_equal. rewrite map_lookup_filter.
    destruct (r_room_members t !! (slug, pk')); [|done]. simpl. by rewrite option_guard_True.
Qed.

Lemma stmt_mirrored auth slug t t' : stmt auth slug t t' → Mirrored slug t → Mirrored slug t'.
Proof.
  intros Hst Hm. destruct Hst; try (by apply (mirrored_same slug t)).
  - by apply mirrored_insert.
  - by eapply mirrored_update.
  - destruct Hm as (Hs & Hm). split; [done|]. intros pk'. simpl. rewrite lookup_alter. case_decide as Hd; [subst|done].
    rewrite Hm. by destruct (r_members t !! pk').
  - by apply mirrored_delete.
  - apply (mirrored_same slug t); [done| |done|done]. unfold slug_value. simpl. by rewrite lookup_insert_ne by congruence.
  - apply (mirrored_same slug t); [done|done| |done]. intros pk'. simpl. rewrite lookup_insert_ne by congruence. done.
  - apply (mirrored_same slug t); [done|done| |done]. intros pk'. simpl. rewrite lookup_delete_ne by congruence. done.
  - apply (mirrored_same slug t); [done|done| |done]. intros pk'. simpl. rewrite map_lookup_filter.
    destruct (r_room_members t !! (slug, pk')); [|done]. simpl. rewrite option_guard_True; [done|]. simpl. congruence.
Qed.

(** [EnsureSlugRoom] makes the mirror. *)
Lemma mirror_all_spec slug t :
  r_members (mirror_all slug t) = r_members t ∧ slug_value (mirror_all slug t) = slug_value t ∧
  ∀ pk m, r_members t !! pk = Some m → RM_Role <$> r_room_members (mirror_all slug t) !! (slug, pk) = Some (mirror_role (M_Role m)).
Proof.
  unfold mirror_all. set (f := λ (pk : string) (m : Member) (t : Roster), _).
  enough (Hall : ∀ ms, r_members (map_fold f t ms) = r_members t ∧ slug_value (map_fold f t ms) = slug_value t ∧
    ∀ pk m, ms !! pk = Some m → RM_Role <$> r_room_members (map_fold f t ms) !! (slug, pk) = Some (mirror_role (M_Role m))) by apply Hall.
  intros ms. apply (map_fold_weak_ind (λ t' ms, r_members t' = r_members t ∧ slug_value t' = slug_value t ∧
    ∀ pk m, ms !! pk = Some m → RM_Role <$> r_room_members t' !! (slug, pk) = Some (mirror_role (M_Role m)))).
  - split_and!; [done|done|]. intros pk m. by rewrite lookup_empty.
  - intros pk m ms' t' Hf (Em & Es & Hr). split_and!; [done|done|]. intros pk' m' Hl.
    unfold f. rewrite put_room_member_role. destruct (decide _) as [[= ->]|Hn].
    + rewrite lookup_insert_eq in Hl. congruence.
    + apply Hr. rewrite lookup_insert_ne in Hl by congruence. done.
Qed.

Lemma EnsureSlugRoom_mirrored `{GoPrint} slug access now s s' :
  EnsureSlugRoom slug access now s = (s', Ok tt) → s_slug s' = slug ∧ Mirrored slug (tables s').
Proof.
  unfold EnsureSlugRoom. destruct (negb _); [done|]. intros [= <-]. split; [done|].
  set (t := upd_rooms _ _). change (tables _) with (upd_room_members (filter (λ kv, kv.1.1 = slug → is_Some (r_members (mirror_all slug t) !! kv.1.2))) (mirror_all slug t)).
  destruct (mirror_all_spec slug t) as (Em & Es & Hr). split.
  - change (slug_value (mirror_all slug t) = Some slug). rewrite Es. unfold slug_value, t. simpl. by rewrite lookup_insert_eq.
  - intros pk. simpl. rewrite Em. rewrite map_lookup_filter. destruct (r_members t !! pk) as [m|] eqn:E.
    + specialize (Hr pk m E). destruct (r_room_members (mirror_all slug t) !! (slug, pk)); [|done].
      simpl. rewrite option_guard_True; [done|]. intros _. exact (mk_is_Some _ _ E).
    + destruct (r_room_members (mirror_all slug t) !! (slug, pk)); [|done]. simpl.
      rewrite option_guard_False; [done|]. simpl. intros Hf. destruct (Hf eq_refl) as [x Hx]. change (r_members t !! pk = Some x) in Hx. congruence.
Qed.

(** ** Invitations *)

Definition invite_ok (i : Invite) : Prop := 0 <= I_Uses i ∧ 0 <= I_MaxUses i ∧ (0 < I_MaxUses i → I_Uses i <= I_MaxUses i).
Definition InvitesOk (t : Roster) : Prop := map_Forall (λ _, invite_ok) (r_invites t).

Lemma members_invites pk m t :
  r_invites (insert_member pk m t) = r_invites t ∧ r_invites (update_member pk m t) = r_invites t ∧
  r_invites (delete_member pk t) = r_invites t.
Proof.
  unfold insert_member, update_member, delete_member, room_mirror_insert, room_mirror_update, put_room_member.
  destruct (slug_value _), (r_members t !! pk); done.
Qed.

Lemma stmt_invites auth slug t t' : stmt auth slug t t' → InvitesOk t → InvitesOk t'.
Proof.
  unfold InvitesOk. intros Hst Hi. destruct Hst; try done.
  - by rewrite (proj1 (members_invites pk m t)).
  - by rewrite (proj1 (proj2 (members_invites pk m t))).
  - by rewrite (proj2 (proj2 (members_invites pk (mkMember "" "" "" "" "" 0 0) t))).
  - apply map_Forall_insert_2; [|done]. unfold invite_ok. lia.
  - apply map_Forall_insert_2; [|done]. specialize (Hi code i ltac:(done)) as (? & ? & ?). unfold invite_ok. simpl.
    split_and!; [lia|lia|]. intros Hm. apply orb_true_iff in H0 as [?%Z.eqb_eq|?%Z.ltb_lt]; lia.
  - by apply map_Forall_delete.
Qed.

Lemma mirror_all_invites slug t : r_invites (mirror_all slug t) = r_invites t.
Proof.
  unfold mirror_all. set (f := λ (pk : string) (m : Member) (t : Roster), _).
  apply (map_fold_weak_ind (λ t' ms, r_invites t' = r_invites t)); [done|]. intros pk m ms t' _ E. by rewrite <-E.
Qed.
Lemma EnsureSlugRoom_invites `{GoPrint} slug access now s s' :
  EnsureSlugRoom slug access now s = (s', Ok tt) → r_invites (tables s') = r_invites (tables s).
Proof.
  unfold EnsureSlugRoom. destruct (negb _); [done|]. intros [= <-]. set (t := upd_rooms _ _).
  change (r_invites (mirror_all slug t) = r_invites (tables s)). by rewrite mirror_all_invites.
Qed.

(** ** Roles *)

(** A role that takes no owner to get. *)
Definition unowned_role (role : string) : Prop := role = "" ∨ role = "member" ∨ role = "agent".

Lemma stmt_roles slug t t' pk role :
  stmt false slug t t' → from_option M_Role "" (r_members t' !! pk) = role →
  unowned_role role ∨ from_option M_Role "" (r_members t !! pk) = role.
Proof.
  unfold unowned_role. intros Hst <-. destruct Hst; try (by right).
  - rewrite members_insert, lookup_insert. case_decide as Hd; [|by right].
    simpl. destruct (decide (M_Role m = "member")) as [|n]; [by left; right; left|]. left. right. right. by destruct (H0 n).
  - rewrite members_update, lookup_insert. case_decide as Hd; [subst|by right].
    simpl. destruct (decide (M_Role m = "member")); [by left; right; left|]. right. rewrite H. by destruct (H0 n).
  - simpl. rewrite lookup_alter. case_decide; [subst|by right]. right. by destruct (r_members t !! pk).
  - rewrite members_delete, lookup_delete. case_decide; [by left; left|by right].
Qed.

Lemma stmts_roles slug t t' pk :
  stmts false slug t t' → let role := from_option M_Role "" (r_members t' !! pk) in
  unowned_role role ∨ from_option M_Role "" (r_members t !! pk) = role.
Proof.
  cbv zeta. induction 1 as [t|t t1 t2 H1 _ IH]; [by right|].
  destruct IH as [IH|IH]; [by left|]. rewrite <-IH. by eapply stmt_roles.
Qed.

Lemma stmts_Role s s' pk :
  stmts false (s_slug s) (tables s) (tables s') → s_owner s' = s_owner s → unowned_role (Role s' pk) ∨ Role s' pk = Role s pk.
Proof.
  intros Hs Eo. unfold Role, member_of. rewrite Eo. destruct (String.eqb pk (s_owner s)); [by right|].
  destruct (stmts_roles _ _ _ pk Hs) as [E|E]; auto.
Qed.

Lemma by_stmts_roles s s' pk : by_stmts false s s' → unowned_role (Role s' pk) ∨ Role s' pk = Role s pk.
Proof. intros (Hs & _ & [Eo|]); [|done]. by apply stmts_Role. Qed.

Lemma EnsureSlugRoom_members `{GoPrint} slug access now s :
  let s' := (EnsureSlugRoom slug access now s).1 in r_members (tables s') = r_members (tables s) ∧ s_owner s' = s_owner s.
Proof.
  cbv zeta. unfold EnsureSlugRoom. destruct (negb _); [done|]. split; [|done]. set (t := upd_rooms _ _).
  change (r_members (mirror_all slug t) = r_members (tables s)). by rewrite (proj1 (mirror_all_spec slug t)).
Qed.
Lemma EnsureSlugRoom_roles `{GoPrint} slug access now s pk : Role (EnsureSlugRoom slug access now s).1 pk = Role s pk.
Proof. destruct (EnsureSlugRoom_members slug access now s) as [Em Eo]. unfold Role, member_of. by rewrite Em, Eo. Qed.

Lemma hstep_roles `{GoPrint} s s' pk : hstep false s s' → unowned_role (Role s' pk) ∨ Role s' pk = Role s pk.
Proof.
  intros [slug access now|store owner slug access now s1 s2 Ho Hn He|c mem bans addresses ev kinds ret now t Hm Hc|old new s1 Ha|new Ha]; [| | |done..].
  - right. apply EnsureSlugRoom_roles.
  - right. pose proof (EnsureSlugRoom_roles slug access now s1 pk) as E. rewrite He in E. cbn [fst] in E. rewrite E. clear E He.
    assert (owner = s_owner s) as -> by (destruct (decide (owner = s_owner s)); [done|by specialize (Ho ltac:(done))]).
    unfold NewService in Hn. apply guard_bind_Ok in Hn as (_ & [= <-]). unfold Role.
    destruct (member_of _ (s_owner s)) eqn:Em; cbn [s_owner on_tables]; [done|].
    destruct (String.eqb_spec pk (s_owner s)) as [|Hne]; [done|]. unfold member_of.
    change (tables (on_tables ?f ?x)) with (f (tables x)). rewrite members_insert, lookup_insert_ne by congruence. done.
  - apply stmts_Role; [|done]. eapply ApplyConfigTx_stmts; [exact Hm|exact Hc].
Qed.

(** ** The theorems *)

Section Theorems.
Context `{GoUnicode} `{GoPrint} `{NostrKeys} `{GoJson}.

(** C7: after the slug room is set up, along every run of the community's operations by
    any keys and of the host - grants of agents and their deletion, pause and
    revocation, imports of a configuration, changes of the owner by the policy or by
    succession, further set-ups of the slug room and openings of the tenant included -,
    a key has in the slug room exactly the role its roster row implies: owner, admin for
    a moderator, member for a member or an agent, and no role without a row. *)
Theorem slug_room_mirrors_roster slug access now s0 s s' pk :
  EnsureSlugRoom slug access now s0 = (s, Ok tt) → community_run s s' →
  roomRoleTx s' (s_slug s') pk = from_option (mirror_role ∘ M_Role) "" (member_of s' pk).
Proof.
  intros (El & Hm)%EnsureSlugRoom_mirrored Hrun.
  assert (Hm' : Mirrored (s_slug s') (tables s')).
  { apply (run_tables Mirrored s s'); [intros ???; apply stmt_mirrored| |done|by rewrite El].
    intros slug0 slug1 access1 now1 a b He _. exact (proj2 (EnsureSlugRoom_mirrored _ _ _ _ _ He)). }
  destruct Hm' as (_ & Hm'). specialize (Hm' pk). unfold roomRoleTx, member_of.
  destruct (r_members (tables s') !! pk), (r_room_members (tables s') !! (s_slug s', pk)); simpl in *; congruence.
Qed.

(** Along every run no invitation is used more often than it allows. *)
Theorem invites_never_overused s s' code i :
  InvitesOk (tables s) → community_run s s' → r_invites (tables s') !! code = Some i →
  0 <= I_Uses i ∧ (0 < I_MaxUses i → I_Uses i <= I_MaxUses i).
Proof.
  intros Hi Hrun Hl. assert (Hi' : InvitesOk (tables s')).
  { apply (run_tables (λ _, InvitesOk) s s'); [intros ???; apply stmt_invites| |done|done].
    intros slug0 slug1 access1 now1 a b He Ha. unfold InvitesOk. by rewrite (EnsureSlugRoom_invites _ _ _ _ _ He). }
  destruct (Hi' code i Hl) as (? & _ & ?). done.
Qed.

(** C21: as long as the owner does not act, no operation of any other key - claims,
    requests, membership, moderation and room events, management calls, agent grants and
    revocations - gives a key more than membership: a key ends with the role it had, as
    a member, as an agent or without a row.  The host may open the tenant again for the
    same owner, set the slug room up and import any section of a configuration but its
    members; left out are what the owner decides through the host, an import of members
    and a change of the policy's owner, and what the owner has decided before, the
    hand-over to the heir of a plan of succession. *)
Theorem no_promotion_without_owner s s' pk :
  unowned_run s s' → Role s' pk = "" ∨ Role s' pk = "member" ∨ Role s' pk = "agent" ∨ Role s' pk = Role s pk.
Proof.
  intros Hrun. enough (unowned_role (Role s' pk) ∨ Role s' pk = Role s pk) as [[?|[?|?]]|?] by auto.
  induction Hrun as [s|s s1 s2 Hstep _ IH]; [by right|]. destruct IH as [IH|IH]; [by left|]. rewrite IH.
  destruct Hstep as [(actor & Ho & Hc)|Hh]; [|by apply hstep_roles].
  apply cstep_stmts in Hc. rewrite Ho in Hc. by apply by_stmts_roles.
Qed.
End Theorems.

(** * The removal of a subtree of invitations

    The walk of [removeSubtree] ends and finds exactly the keys that joined,
    directly or not, on the invitation of the root. *)

Section Walk.
Context (s : Service).

(** [child] joined on the invitation of [parent] and is a plain member. *)
Definition invited (parent child : string) : Prop :=
  ∃ m, member_of s child = Some m ∧ M_InvitedBy m = parent ∧ M_Role m = "member".

Definition member_keys : list string := (map_to_list (r_members (tables s))).*1.

Lemma member_keys_nodup : NoDup member_keys.
Proof. apply NoDup_fst_map_to_list. Qed.

Lemma member_keys_length : List.length member_keys = size (r_members (tables s)).
Proof. unfold member_keys. by rewrite length_map, length_map_to_list. Qed.

Lemma elem_of_invited parent child : child ∈ invited_members s parent ↔ invited parent child.
Proof.
  unfold invited_members, invited. rewrite list_elem_of_fmap. split.
  - intros ([k m] & -> & [Hin Hp]%elem_of_lfilter). apply elem_of_map_to_list in Hin. simpl in *.
    apply andb_true_iff in Hp as [Hi%String.eqb_eq Hr%String.eqb_eq]. by exists m.
  - intros (m & Hm & Hi & Hr). exists (child, m). split; [done|]. apply elem_of_lfilter. split.
    + by apply elem_of_map_to_list.
    + simpl. by rewrite Hi, Hr, !String.eqb_refl.
Qed.

Lemma invited_members_sublist parent : sublist (invited_members s parent) member_keys.
Proof. unfold invited_members, member_keys. apply fmap_sublist. apply lfilter_sublist. Qed.

Definition unseen (seen : list string) : nat := List.length (List.filter (λ pk, negb (contains seen pk)) member_keys).

(** What the walk keeps: the queue is among the seen, which are reachable from
    the root; a key seen and no longer queued has its children seen. *)
Record Walking (root : string) (seen queue : list string) : Prop := mkWalking {
  wk_nodup : NoDup seen;
  wk_queue : queue ⊆ seen;
  wk_root : root ∈ seen;
  wk_reach : ∀ pk, pk ∈ seen → rtc invited root pk;
  wk_done : ∀ pk child, pk ∈ seen → invited pk child → pk ∈ queue ∨ child ∈ seen }.

Definition fresh_of (parent : string) (seen : list string) : list string :=
  List.filter (λ pk, negb (contains seen pk)) (invited_members s parent).

Lemma elem_of_fresh parent seen pk : pk ∈ fresh_of parent seen ↔ invited parent pk ∧ pk ∉ seen.
Proof.
  unfold fresh_of. rewrite elem_of_lfilter, negb_true_iff, <-not_true_iff_false, contains_spec, elem_of_invited. tauto.
Qed.

Lemma fresh_nodup parent seen : NoDup (fresh_of parent seen).
Proof.
  eapply sublist_NoDup; [|apply lfilter_sublist]. eapply sublist_NoDup; [apply member_keys_nodup|apply invited_members_sublist].
Qed.

Lemma Walking_step root parent seen rest :
  Walking root seen (parent :: rest) → Walking root (seen ++ fresh_of parent seen) (rest ++ fresh_of parent seen).
Proof.
  intros [Hn Hq Hr Hre Hd]. assert (Hp : parent ∈ seen) by (apply Hq; left). split.
  - apply NoDup_app. split; [done|]. split; [|apply fresh_nodup]. intros x Hx Hf. by apply elem_of_fresh in Hf as (_ & Hf).
  - intros x [Hx|Hx]%elem_of_app; apply elem_of_app; [left; apply Hq; by right|by right].
  - apply elem_of_app. by left.
  - intros x [Hx|Hx]%elem_of_app; [by apply Hre|]. apply elem_of_fresh in Hx as (Hi & _).
    eapply rtc_r; [by apply Hre|done].
  - intros x c [Hx|Hx]%elem_of_app Hi.
    + destruct (Hd x c Hx Hi) as [Hq'|Hc]; [|right; apply elem_of_app; by left].
      apply elem_of_cons in Hq' as [->|Hq']; [|left; apply elem_of_app; by left].
      right. apply elem_of_app. destruct (decide (c ∈ seen)); [by left|right]. by apply elem_of_fresh.
    + left. apply elem_of_app. by right.
Qed.

Lemma unseen_step parent seen :
  (List.length (fresh_of parent seen) + unseen (seen ++ fresh_of parent seen) <= unseen seen)%nat.
Proof.
  set (fresh := fresh_of parent seen). unfold unseen.
  assert (E : (List.length (fresh ++ List.filter (λ pk, negb (contains (seen ++ fresh) pk)) member_keys)
              <= List.length (List.filter (λ pk, negb (contains seen pk)) member_keys))%nat); [|by rewrite length_app in E].
  apply submseteq_length, NoDup_submseteq.
  - apply NoDup_app. split; [apply fresh_nodup|]. split.
    + intros x Hx [_ Hn]%elem_of_lfilter. apply negb_true_iff, not_true_iff_false in Hn. apply Hn, contains_spec, elem_of_app. by right.
    + eapply sublist_NoDup; [apply member_keys_nodup|apply lfilter_sublist].
  - intros x [Hx|Hx]%elem_of_app; apply elem_of_lfilter.
    + apply elem_of_fresh in Hx as (Hi & Hn). rewrite negb_true_iff, <-not_true_iff_false, contains_spec. split; [|done].
      apply elem_of_invited in Hi. eapply elem_of_submseteq; [exact Hi|]. apply sublist_submseteq, invited_members_sublist.
    + apply elem_of_lfilter in Hx as (Hin & Hn). split; [done|].
      rewrite negb_true_iff, <-not_true_iff_false, contains_spec in Hn |- *. intros Hc. apply Hn, elem_of_app. by left.
Qed.

Lemma walk_ends root fuel seen queue :
  Walking root seen queue → (List.length queue + unseen seen <= fuel)%nat →
  ∃ l, walk_invited fuel s seen queue = Some l ∧ Walking root l [].
Proof.
  revert seen queue. induction fuel as [|f IH]; intros seen [|parent rest] Hw Hf; simpl in *; eauto; [lia|].
  pose proof (unseen_step parent seen). apply IH; [by apply Walking_step|]. fold (fresh_of parent seen). rewrite length_app. lia.
Qed.

Lemma subtree_walk root : ∃ l, subtree s root = Some l ∧ Walking root l [].
Proof.
  apply walk_ends.
  - split; [apply NoDup_singleton|done|by left|intros pk ->%list_elem_of_singleton; apply rtc_refl|]. intros pk c Hp _. by left.
  - simpl. unfold unseen. rewrite <-member_keys_length. apply le_n_S, filter_length_le.
Qed.

Lemma Walking_exact root l : Walking root l [] → ∀ pk, pk ∈ l ↔ rtc invited root pk.
Proof.
  intros [_ _ Hr Hre Hd] pk. split; [apply Hre|]. clear Hre. intros Hp. revert Hr. induction Hp as [x|x y z Hi _ IH]; intros Hx; [done|].
  apply IH. destruct (Hd x y Hx Hi) as [[]%not_elem_of_nil|]; done.
Qed.
End Walk.

(** Deleting the members of a list. *)
Lemma delete_members_lookup l t pk :
  r_members (fold_left (flip delete_member) l t) !! pk = if decide (pk ∈ l) then None else r_members t !! pk.
Proof.
  revert t. induction l as [|x l IH]; intros t; simpl; [done|]. rewrite IH, members_delete.
  destruct (decide (pk ∈ l)) as [Hl|Hl].
  - rewrite decide_True; [done|]. by right.
  - destruct (decide (pk = x)) as [->|Hx].
    + rewrite lookup_delete_eq. by rewrite decide_True by (by left).
    + rewrite lookup_delete_ne by congruence. rewrite decide_False; [done|]. by intros [|]%elem_of_cons.
Qed.

Lemma delete_members_size l t :
  NoDup l → (∀ pk, pk ∈ l → is_Some (r_members t !! pk)) →
  (size (r_members (fold_left (flip delete_member) l t)) + List.length l = size (r_members t))%nat.
Proof.
  revert t. induction l as [|x l IH]; intros t Hn Hm; simpl; [lia|]. apply NoDup_cons in Hn as (Hx & Hn).
  assert (Hsx : is_Some (r_members t !! x)) by (apply Hm; by left).
  assert (Hs : size (delete x (r_members t)) = pred (size (r_members t))) by (by apply map_size_delete_Some).
  assert (Hz : size (r_members t) ≠ 0%nat) by (destruct Hsx as (m & E); apply map_size_ne_0_lookup; by exists x, m).
  cbn [List.length]. rewrite Nat.add_succ_r, IH; [rewrite members_delete, Hs; lia|done|].
  intros pk Hp. rewrite members_delete, lookup_delete_ne by set_solver. apply Hm. by right.
Qed.

Section Theorems.
Context `{GoUnicode}.

(** The walk down the tree of invitations ends, whatever the rows say (cycles of invitations included), within
    one round per member and one more; without repetition it holds the keys reachable from the root. *)
Theorem subtree_terminates (s : Service) (root : string) :
  ∃ l, subtree s root = Some l ∧ NoDup l ∧ ∀ pk, pk ∈ l ↔ rtc (invited s) root pk.
Proof.
  destruct (subtree_walk s root) as (l & E & Hw). exists l. split; [done|]. split; [by destruct Hw|]. by apply Walking_exact.
Qed.

(** Removing a subtree deletes the rows of the member and of every member that joined on an invitation of a key
    of its subtree, and no other row; it answers how many rows that were. *)
Theorem removeSubtree_exact actor root rest (s s' : Service) n :
  removeSubtree actor (JStr root :: rest) s = (s', Ok n) →
  (∀ pk, rtc (invited s) root pk → member_of s' pk = None) ∧
  (∀ pk, ¬ rtc (invited s) root pk → member_of s' pk = member_of s pk) ∧
  n = Z.of_nat (size (r_members (tables s))) - Z.of_nat (size (r_members (tables s'))).
Proof.
  unfold removeSubtree, after, decode_str, decode. simpl. destruct (negb (validPubKey root)); [done|].
  destruct (String.eqb_spec root (s_owner s)) as [|Ho]; [done|].
  destruct (String.eqb_spec (Role s root) "member") as [Hr|]; [|done]. simpl.
  destruct (subtree_walk s root) as (l & -> & Hw). simpl. intros [= <- <-].
  pose proof (Walking_exact s root l Hw) as Hl. unfold member_of. cbn [tables record on_tables s_db recordTx].
  assert (Et : ∀ f d t e, tables (record actor "removesubtree" d t (on_tables f e)) = f (tables e)) by done.
  rewrite Et. split_and!.
  - intros pk Hp. rewrite delete_members_lookup. by rewrite decide_True by by apply Hl.
  - intros pk Hp. rewrite delete_members_lookup. rewrite decide_False; [done|]. by rewrite Hl.
  - pose proof (delete_members_size l (tables s)) as Hs. rewrite <-Hs; [lia|by destruct Hw|].
    intros pk Hp%Hl. apply rtc_inv_r in Hp as [<-|(y & _ & (m & Hm & _))]; [|by exists m].
    unfold Role in Hr. apply String.eqb_neq in Ho. rewrite Ho in Hr. unfold member_of in Hr.
    destruct (r_members (tables s) !! root); [by eexists|done].
Qed.
End Theorems.
