(* ===== verification/RoomsProps.v ===== *)
(** * Rooms: who may do what

    A room event by somebody who is neither admin nor owner of the room changes
    only the sender's own membership and messages; the check before a message
    is accepted agrees with the transaction that stores it. *)

From S2P Require Import Prelude GoLib GoCodec GoLemmas GoStrings Nostr Filter Store StoreQuery StoreInv Policy Sites Roster Agents Community CommunityExec Membership Rooms CommunityProps.

(** The storing of an event of [author] keeps the rows of everybody else. *)
Definition keeps_others (author : string) (persist : Service → result Service) : Prop :=
  ∀ s s' row, persist s = Ok s' → row ∈ events (s_store s) → r_pubkey row ≠ author → row ∈ events (s_store s').

(** What somebody without rights in the room may change. *)
Record own_change (room author : string) (s s' : Service) : Prop := mkOwn {
  own_rooms : r_rooms (tables s') = r_rooms (tables s);
  own_members : ∀ room' pk, (room', pk) ≠ (room, author) →
    r_room_members (tables s') !! (room', pk) = r_room_members (tables s) !! (room', pk);
  own_role : roomRoleTx s' room author = "" ∨ roomRoleTx s' room author = "member" ∨ roomRoleTx s' room author = roomRoleTx s room author;
  own_events : ∀ row, row ∈ events (s_store s) → r_pubkey row ≠ author → row ∈ events (s_store s') }.

Lemma own_refl room author s : own_change room author s s.
Proof. split; auto. Qed.

Lemma own_post room author s s1 s2 :
  own_change room author s s1 → tables s2 = tables s1 →
  (∀ row, row ∈ events (s_store s1) → r_pubkey row ≠ author → row ∈ events (s_store s2)) → own_change room author s s2.
Proof.
  intros [Er Em Eo Ee] Et Hp. split; rewrite ?Et; auto. unfold roomRoleTx in *. by rewrite Et.
Qed.

Lemma own_put room author at_ s : own_change room author s (set_room_member room author "member" at_ s).
Proof.
  split; [done| |right; left|done].
  - intros room' pk Hn. simpl. by rewrite lookup_insert_ne by congruence.
  - unfold roomRoleTx. simpl. rewrite lookup_insert_eq. simpl. by destruct (_ !! _).
Qed.

Lemma own_drop room author s : own_change room author s (drop_room_member room author s).
Proof.
  split; [done| |left|done].
  - intros room' pk Hn. simpl. by rewrite lookup_delete_ne by congruence.
  - unfold roomRoleTx. simpl. by rewrite lookup_delete_eq.
Qed.

(** Deleting one's own messages. *)
Lemma delete_row_events id s row :
  row ∈ events (s_store (delete_event_rows [id] s)) ↔ row ∈ events (s_store s) ∧ r_id row ≠ id.
Proof.
  unfold delete_event_rows, on_store. simpl. rewrite elem_of_lfilter, negb_true_iff, String.eqb_neq. done.
Qed.

Lemma delete_row_ids id s : NoDup (r_id <$> events (s_store s)) → NoDup (r_id <$> events (s_store (delete_event_rows [id] s))).
Proof.
  intros Hn. unfold delete_event_rows, on_store. simpl. eapply sublist_NoDup; [exact Hn|]. apply lfilter_fmap_sublist.
Qed.

Lemma room_message_author_row db id room author row :
  NoDup (r_id <$> events db) → room_message_author db id room = Some author → row ∈ events db → r_id row = id → r_pubkey row = author.
Proof.
  unfold room_message_author. intros Hn Ha Hr Hid. destruct (List.find _ _) as [row'|] eqn:Hf; [|done].
  destruct (has_tag _ _ _ _); [|done]. injection Ha as <-. apply find_some in Hf as (Hin & He). apply String.eqb_eq in He.
  f_equal. apply (NoDup_fmap_elem r_id (events db)); [done|done|by apply list_elem_of_In|congruence].
Qed.

Lemma own_delete_messages author room ids s s' :
  NoDup (r_id <$> events (s_store s)) → delete_room_messages false author room ids s = Ok s' → own_change room author s s'.
Proof.
  revert s. induction ids as [|id ids IH]; intros s Hn; simpl; [intros [= <-]; apply own_refl|].
  destruct (room_message_author _ _ _) as [a|] eqn:Ha; [|by apply IH].
  intros (Hb & E)%guard_bind_Ok. simpl in Hb. apply negb_false_iff, String.eqb_eq in Hb as ->.
  specialize (IH (delete_event_rows [id] s) (delete_row_ids id s Hn) E) as [Er Em Eo Ee]. split; [done|done|done|].
  intros row Hr Hp. apply Ee; [|done]. apply delete_row_events. split; [done|]. intros Hid. apply Hp.
  by eapply room_message_author_row.
Qed.

(** Roles of a room under the statements. *)
Lemma role_put room pk' role at_ s pk :
  roomRoleTx (set_room_member room pk' role at_ s) room pk = if decide (pk = pk') then role else roomRoleTx s room pk.
Proof.
  unfold roomRoleTx. simpl. rewrite lookup_insert. case_decide as Hd.
  - injection Hd as <-. rewrite decide_True by done. by destruct (_ !! _).
  - by rewrite decide_False by congruence.
Qed.

Lemma role_drop room pk' s pk :
  roomRoleTx (drop_room_member room pk' s) room pk = if decide (pk = pk') then "" else roomRoleTx s room pk.
Proof.
  unfold roomRoleTx. simpl. rewrite lookup_delete. case_decide as Hd.
  - injection Hd as <-. by rewrite decide_True by done.
  - by rewrite decide_False by congruence.
Qed.

Lemma role_clear room s pk : roomRoleTx (on_tables (upd_room_members (filter (λ kv, kv.1.1 ≠ room))) s) room pk = "".
Proof.
  unfold roomRoleTx. simpl. rewrite map_lookup_filter_None_2; [done|]. right. intros x _ Hx. by apply Hx.
Qed.

Lemma delete_room_messages_tables admin pk room ids s s' :
  delete_room_messages admin pk room ids s = Ok s' → tables s' = tables s.
Proof.
  revert s. induction ids as [|id ids IH]; intros s; simpl; [by intros [= <-]|].
  destruct (room_message_author _ _ _); [|by apply IH]. intros (_ & E)%guard_bind_Ok. by apply IH in E.
Qed.

Section RoomsProps.
Context `{GoUnicode} `{GoPrint}.

Lemma room_event_body_own e room role now s s' :
  roomAdmin role = false → NoDup (r_id <$> events (s_store s)) →
  room_event_body e room role now s = Ok (inr s') → own_change (tagValue e "h") (PubKey e) s s'.
Proof.
  intros Ha Hn. assert (Hown : String.eqb role RoomRoleOwner = false) by (by apply orb_false_iff in Ha as (? & _)).
  unfold room_event_body. rewrite Ha, Hown. cbv zeta.
  destruct (_ =? KIND_EDIT_METADATA); [done|]. destruct (_ =? KIND_PUT_USER); [done|]. destruct (_ =? KIND_REMOVE_USER); [done|].
  destruct (_ =? KIND_JOIN).
  { destruct (negb _); [done|]. intros (_ & (s1 & Hi & [= <-])%result_bind_Ok)%guard_bind_Ok.
    apply insert_room_member_Ok in Hi as (_ & ->). apply own_put. }
  destruct (_ =? KIND_LEAVE).
  { intros (_ & (u & _ & [= <-])%result_bind_Ok)%guard_bind_Ok. apply own_drop. }
  destruct (_ =? KIND_DELETE_EVENT).
  { intros (_ & (s1 & Hs1 & [= <-])%result_bind_Ok)%guard_bind_Ok. by eapply own_delete_messages. }
  destruct (_ =? KIND_DELETE_GROUP); [done|]. intros [= <-]. apply own_refl.
Qed.

(** A room event, other than the creation of a room, of a key that is not an admin or owner of the room (the
    relay's owner and moderators without a role of their own there count as such) leaves the room and the roles of
    everybody else as they were, never raises the key's own role above member, and keeps the messages of all others. *)
Theorem room_member_changes_own pol e now persist s s' out :
  NoDup (r_id <$> events (s_store s)) → stores_only persist → keeps_others (PubKey e) persist →
  Kind e ≠ KIND_CREATE_GROUP → roomAdmin (effectiveRoomRoleTx s (tagValue e "h") (PubKey e)) = false →
  HandleRoomEventTx pol e now persist s = (s', Ok out) →
  own_change (tagValue e "h") (PubKey e) s s'.
Proof.
  intros Hn Hp Hk Hc Ha. unfold HandleRoomEventTx. cbv zeta. do 2 (destruct (negb _); [done|]). destruct (String.eqb _ (s_slug s)); [done|].
  destruct (negb _); [done|]. destruct (_ || _); [done|]. destruct (String.eqb _ ""); [done|].
  apply Z.eqb_neq in Hc. rewrite Hc. unfold withTx. intros E.
  destruct (_ ≫= _) as [[out' s1]|m] eqn:Eb; [|done]. injection E as <- <-.
  apply guard_bind_Ok in Eb as (_ & Eb). apply result_bind_Ok in Eb as (body & Hb & Eb). destruct body as [m|s2].
  - injection Eb as _ <-. apply own_refl.
  - apply result_bind_Ok in Eb as (s3 & Hs3 & [= _ <-]). destruct (Hp _ _ Hs3) as (Et & _ & _).
    apply room_event_body_own in Hb; [|done|done]. eapply own_post; [exact Hb|by rewrite Et|].
    intros row Hr Hpk. eapply Hk; [exact Hs3|exact Hr|exact Hpk].
Qed.

Lemma room_event_body_owners e room role now s s' pk :
  room_event_body e room role now s = Ok (inr s') → role ≠ "owner" →
  roomRoleTx s' (tagValue e "h") pk = "owner" → roomRoleTx s (tagValue e "h") pk = "owner".
Proof.
  intros Hb Hr. apply String.eqb_neq in Hr. unfold room_event_body in Hb. cbv zeta in Hb. unfold RoomRoleOwner in Hb. rewrite Hr in Hb. revert Hb.
  destruct (_ =? KIND_EDIT_METADATA); [by intros (_ & [= <-])%guard_bind_Ok|].
  destruct (_ =? KIND_PUT_USER).
  { intros (_ & E)%guard_bind_Ok. destruct (roomTarget e) as [target wanted].
    apply guard_bind_Ok in E as (_ & (_ & (Hw & [= <-])%guard_bind_Ok)%guard_bind_Ok). rewrite role_put.
    case_decide; [|done]. intros ->. done. }
  destruct (_ =? KIND_REMOVE_USER).
  { intros (_ & E)%guard_bind_Ok. destruct (roomTarget e) as [target wanted].
    apply guard_bind_Ok in E as (_ & E). destruct (String.eqb (roomRoleTx _ _ _) ""); [done|].
    apply result_bind_Ok in E as (u & _ & [= <-]). rewrite role_drop. by case_decide. }
  destruct (_ =? KIND_JOIN).
  { destruct (negb _); [done|]. intros (_ & (s1 & Hi & [= <-])%result_bind_Ok)%guard_bind_Ok.
    apply insert_room_member_Ok in Hi as (_ & ->). rewrite role_put. by case_decide. }
  destruct (_ =? KIND_LEAVE).
  { intros (_ & (u & _ & [= <-])%result_bind_Ok)%guard_bind_Ok. rewrite role_drop. by case_decide. }
  destruct (_ =? KIND_DELETE_EVENT).
  { intros (_ & (s1 & Hs1 & [= <-])%result_bind_Ok)%guard_bind_Ok. apply delete_room_messages_tables in Hs1.
    unfold roomRoleTx. by rewrite Hs1. }
  destruct (_ =? KIND_DELETE_GROUP); [done|]. by intros [= <-].
Qed.

(** A key becomes owner of a room only by creating the room or through an owner of the room. *)
Theorem room_owner_appoints_owners pol e now persist s s' out pk :
  stores_only persist → HandleRoomEventTx pol e now persist s = (s', Ok out) →
  roomRoleTx s' (tagValue e "h") pk = "owner" →
  roomRoleTx s (tagValue e "h") pk = "owner" ∨ effectiveRoomRoleTx s (tagValue e "h") (PubKey e) = "owner" ∨
  (Kind e = KIND_CREATE_GROUP ∧ pk = PubKey e ∧ Live (room_row s (tagValue e "h")) = false).
Proof.
  intros Hp. unfold HandleRoomEventTx. cbv zeta. do 2 (destruct (negb _); [done|]). destruct (String.eqb _ (s_slug s)); [done|].
  destruct (negb _); [done|]. destruct (_ || _); [done|]. destruct (String.eqb _ ""); [done|].
  set (room := tagValue e "h"). unfold withTx.
  destruct (Z.eqb_spec (Kind e) KIND_CREATE_GROUP) as [Hc|Hc]; intros E; destruct (_ ≫= _) as [[out' s1]|m] eqn:Eb; try done;
    injection E as <- <-.
  - apply result_bind_Ok in Eb as (s2 & Hs2 & (s3 & Hs3 & [= _ <-])%result_bind_Ok). destruct (Hp _ _ Hs3) as (Et & _ & _).
    unfold roomRoleTx at 1. rewrite Et. unfold createRoomTx in Hs2.
    apply guard_bind_Ok in Hs2 as (Hl & (_ & (_ & [= <-])%guard_bind_Ok)%guard_bind_Ok). fold room.
    simpl. rewrite lookup_insert. case_decide as Hd; [injection Hd as <-; auto|].
    rewrite map_lookup_filter_None_2; [done|]. right. intros x _ Hx. by apply Hx.
  - apply guard_bind_Ok in Eb as (_ & Eb). apply result_bind_Ok in Eb as (body & Hb & Eb). destruct body as [m|s2].
    { injection Eb as _ <-. auto. }
    apply result_bind_Ok in Eb as (s3 & Hs3 & [= _ <-]). destruct (Hp _ _ Hs3) as (Et & _ & _).
    unfold roomRoleTx at 1. rewrite Et. clear Hs3 Et s3. change (tables (record _ _ _ _ s2)) with (tables s2).
    change (from_option RM_Role "" (r_room_members (tables s2) !! (room, pk))) with (roomRoleTx s2 room pk).
    destruct (decide (effectiveRoomRoleTx s room (PubKey e) = "owner")) as [Ho|Ho]; [auto|]. left.
    by eapply room_event_body_owners.
Qed.

(** The check made before a room message is accepted agrees with the transaction that stores it: allowed
    messages are stored, with the membership the check announced and no other change; refused ones change nothing. *)
Theorem room_write_gate_agrees e now s :
  PubKey e ≠ "" → map_Forall (λ _ m, M_Role m ≠ "") (r_members (tables s)) →
  let room := tagValue e "h" in
  match RoomWriteAllowed s room (PubKey e) with
  | (false, joins) => joins = false ∧ ∃ m, HandleRoomMessageTx e now mret s = (s, Err m)
  | (true, joins) =>
    HandleRoomMessageTx e now mret s = (if joins then add_room_member room (PubKey e) now s else s, Ok tt)
  end.
Proof.
  intros Hpk Hroles room. unfold RoomWriteAllowed, HandleRoomMessageTx, RoomRole. fold room. cbv zeta.
  apply String.eqb_neq in Hpk. rewrite Hpk. destruct (Live (room_row s room)) eqn:Hl; simpl; [|by eauto].
  destruct (String.eqb_spec (effectiveRoomRoleTx s room (PubKey e)) "") as [Hr|Hr]; simpl; [|done].
  destruct (String.eqb (R_Access (room_row s room)) RoomOpen); simpl; [|by eauto].
  assert (Hm : String.eqb (Role s (PubKey e)) "" = negb (IsMember s (PubKey e))).
  { unfold effectiveRoomRoleTx in Hr. unfold Role, IsMember in *. destruct (String.eqb (PubKey e) (s_owner s)).
    - destruct (String.eqb_spec (roomRoleTx s room (PubKey e)) ""); [done|by rewrite Hr in n].
    - destruct (member_of s (PubKey e)) as [m|] eqn:Em; [|done]. simpl. apply String.eqb_neq. by eapply Hroles. }
  rewrite Hm. destruct (IsMember s (PubKey e)); simpl; [done|eauto].
Qed.
End RoomsProps.
