(* ===== verification/ConfigProps.v ===== *)
(** * Moving a roster between relays: export and import

    What [ExportConfig] takes from one relay [ApplyConfigTx] puts in place on
    another. *)

From S2P Require Import Prelude GoLib GoCodec GoLemmas GoStrings Nostr Filter Store StoreQuery Policy Sites Roster Agents Community CommunityExec CommunityProps CommunityInv.
From S2P Require Import StoreInv StoreMaint Membership Rooms RoomsProps SitesProps.

(** ** Sorted listings hold the rows of the map *)




(** ** Reasons *)







(** ** Members *)











(** ** Rooms under an import *)






(** * The community on concrete inputs

    A relay with its owner, a moderator and two members down a chain of
    invitations, the community theorems at work on it, and what the code does
    in the cases its comments and tests do not speak of. *)

#[local] Instance community_unicode : GoUnicode := ascii_unicode.
#[local] Instance community_print : GoPrint := {| is_print _ := true |}.
#[local] Instance community_keys : NostrKeys := toy_keys.
#[local] Instance community_json : GoJson := {| json_parse _ := None |}.

(** An equation of closed terms, by the virtual machine. *)
Ltac vm_eq := match goal with |- @eq ?A _ ?y => vm_cast_no_check (@eq_refl A y) end.

Definition owner_key : string := repeat_char 64 "0".
Definition mod_key : string := repeat_char 64 "1".
Definition alice : string := repeat_char 64 "a".
Definition bob : string := repeat_char 64 "b".
Definition carol : string := repeat_char 64 "c".

Definition joined (role invited_by : string) : Member := mkMember "" "" role invited_by "" 10 0.
Definition founding : Roster :=
  upd_bans (λ _, {[carol := ("spam", 5)]}) (upd_retention (λ _, {[7 := 30; (-1) := 90]}) (upd_members (λ _,
    {[owner_key := joined "owner" ""; mod_key := joined "moderator" ""; alice := joined "member" mod_key; bob := joined "member" alice]})
    empty_roster)).
Definition service_of (t : Roster) : Service := mkService (mkCommunity ∅ t []) empty_db owner_key "".
Definition relay0 : Service := service_of founding.
Definition relay1 : Service := (EnsureSlugRoom "main" "open" 100 relay0).1.

Definition pol : Policy := Defaults owner_key.
Definition call (actor method : string) (p : list json) (s : Service) : Service := (Execute pol (λ _, true) [1; 2] 200 actor method p s).1.

(** The owner makes bob a moderator; alice leaves; bob invites. *)
Definition leave_event : Event := sample_event "4" alice KIND_LEAVE 150 [].
Definition leave (s : Service) : Service := (HandleMembershipEventTx pol leave_event 150 mret s).1.
Definition promoted : Service := call owner_key "setmember" [JStr bob; JObj [("role", JStr "moderator")]] relay1.
Definition left_ : Service := leave promoted.
Definition inviting : Service := call bob "createinvite" [JNum "3600"; JNum "1"] left_.
Definition claim (s : Service) : Service := (ClaimWithTerms pol "0102" alice "" 210 s).1.

Lemma stores_only_mret : stores_only mret.
Proof. by intros s s' [= <-]. Qed.

Lemma call_step actor method p s : cstep actor s (call actor method p s).
Proof. apply c_execute. Qed.

Lemma relay_run : community_run relay1 (claim inviting).
Proof.
  apply (rtc_l _ _ promoted); [left; exists owner_key; apply call_step|].
  apply (rtc_l _ _ left_); [left; exists alice; apply (c_membership alice promoted pol leave_event 150 mret); [reflexivity|apply stores_only_mret]|].
  apply (rtc_l _ _ inviting); [left; exists bob; apply call_step|]. apply rtc_once. left. exists alice. apply c_claim.
Qed.

Lemma slug_room_mirrors_roster_witness :
  roomRoleTx (claim inviting) "main" bob = "admin" ∧ roomRoleTx (claim inviting) "main" alice = "member".
Proof.
  assert (E : EnsureSlugRoom "main" "open" 100 relay0 = (relay1, Ok tt)) by (vm_eq).
  split; rewrite (slug_room_mirrors_roster "main" "open" 100 relay0 relay1 (claim inviting) _ E relay_run); vm_eq.
Defined.

Lemma invites_never_overused_witness :
  match r_invites (tables (claim inviting)) !! "0102" with Some i => I_MaxUses i = 1 ∧ I_Uses i = 1 | None => False end ∧
  (∀ i, r_invites (tables (claim inviting)) !! "0102" = Some i → 0 <= I_Uses i ∧ (0 < I_MaxUses i → I_Uses i <= I_MaxUses i)).
Proof.
  split; [vm_compute; split; reflexivity|]. intros i Hi.
  apply (invites_never_overused relay1 (claim inviting) "0102" i); [|exact relay_run|exact Hi].
  intros code j Hj. vm_compute in Hj. discriminate.
Defined.

(** A moderator tries to make alice a moderator, then leaves her a member. *)
Definition tried : Service := call mod_key "setmember" [JStr alice; JObj [("role", JStr "moderator")]] relay1.
Definition noted : Service := call mod_key "setmember" [JStr alice; JStr "helpful"] tried.

Lemma no_promotion_without_owner_witness :
  Role noted alice = "" ∨ Role noted alice = "member" ∨ Role noted alice = "agent" ∨ Role noted alice = Role relay1 alice.
Proof.
  apply (no_promotion_without_owner relay1 noted alice).
  apply (rtc_l _ _ tried); [left; exists mod_key|apply rtc_once; left; exists mod_key]; (split; [vm_eq|apply call_step]).
Defined.

Definition without_alice : Service := (removeSubtree owner_key [JStr alice] relay1).1.

Lemma removeSubtree_exact_witness :
  member_of without_alice bob = None ∧ member_of without_alice mod_key = member_of relay1 mod_key.
Proof.
  destruct (removeSubtree_exact owner_key alice [] relay1 without_alice 2) as (Hgone & Hkept & _); [vm_eq|].
  split; [|vm_eq]. apply Hgone. apply rtc_once. exists (joined "member" alice). split; vm_compute; [reflexivity|by split].
Defined.

(** ** Rooms *)

Definition rooms_pol : Policy := pol.
Definition room_event (actor : string) (kind : Z) (tags : list (list string)) : Event := sample_event "5" actor kind 160 (["h"; "dev"] :: tags).
Definition in_room (e : Event) (s : Service) : Service := (HandleRoomEventTx pol e 160 mret s).1.
Definition dev_room : Service := in_room (room_event alice KIND_CREATE_GROUP [["name"; "Dev"]]) relay1.
Definition bob_joined : Service := in_room (room_event bob KIND_JOIN []) dev_room.
Definition bob_left : Service := in_room (room_event bob KIND_LEAVE []) bob_joined.

Lemma keeps_others_mret author : keeps_others author mret.
Proof. by intros s s' row [= <-]. Qed.

Lemma room_member_changes_own_witness :
  own_change "dev" bob bob_joined bob_left ∧ roomRoleTx bob_left "dev" alice = "owner" ∧ roomRoleTx bob_left "dev" bob = "".
Proof.
  split; [|split; vm_eq].
  apply (room_member_changes_own pol (room_event bob KIND_LEAVE []) 160 mret bob_joined bob_left room_ok).
  - vm_compute. constructor.
  - apply stores_only_mret.
  - apply keeps_others_mret.
  - vm_compute. discriminate.
  - vm_eq.
  - vm_eq.
Defined.

Lemma room_owner_appoints_owners_witness :
  roomRoleTx relay1 "dev" alice = "owner" ∨ effectiveRoomRoleTx relay1 "dev" alice = "owner" ∨
  (KIND_CREATE_GROUP = KIND_CREATE_GROUP ∧ alice = alice ∧ Live (room_row relay1 "dev") = false).
Proof.
  apply (room_owner_appoints_owners pol (room_event alice KIND_CREATE_GROUP [["name"; "Dev"]]) 160 mret relay1 dev_room room_ok alice).
  - apply stores_only_mret.
  - vm_eq.
  - vm_eq.
Defined.

Definition bob_says : Event := room_event bob 9 [].
Lemma room_write_gate_agrees_witness :
  RoomWriteAllowed dev_room "dev" bob = (true, true) ∧
  HandleRoomMessageTx bob_says 170 mret dev_room = (add_room_member "dev" bob 170 dev_room, Ok tt).
Proof.
  split; [vm_eq|].
  apply (room_write_gate_agrees bob_says 170 dev_room); [vm_compute; discriminate|].
  apply map_Forall_to_list. vm_compute. repeat constructor; discriminate.
Defined.

(** ** Export and import *)



(** ** What the code does at its edges *)

(** One parameter: the check that protects moderators is not made. *)
Example moderator_demotes_moderator :
  let both := call owner_key "setmember" [JStr alice; JObj [("role", JStr "moderator")]] relay1 in
  Role both alice = "moderator" ∧ Role (call mod_key "setmember" [JStr alice] both) alice = "member" ∧
  Role (call mod_key "setmember" [JStr alice; JStr ""] both) alice = "moderator".
Proof. split_and!; vm_eq. Qed.

(** An admin makes the only owner of a room a member. *)
Example admin_demotes_last_owner :
  let with_admin := in_room (room_event alice KIND_PUT_USER [["p"; bob; "admin"]]) dev_room in
  let demoted := in_room (room_event bob KIND_PUT_USER [["p"; alice]]) with_admin in
  room_owners with_admin "dev" = 1 ∧ room_owners demoted "dev" = 0.
Proof. split_and!; vm_eq. Qed.

(** A relay moderator may edit any room until they join it. *)
Example joining_drops_moderation :
  effectiveRoomRoleTx dev_room "dev" mod_key = "admin" ∧
  effectiveRoomRoleTx (in_room (room_event mod_key KIND_JOIN []) dev_room) "dev" mod_key = "member".
Proof. split_and!; vm_eq. Qed.

(** A put-user event adds a banned key and leaves the ban. *)
Example put_user_keeps_ban :
  let s := (HandleModerationEventTx pol [] (sample_event "6" owner_key KIND_PUT_USER 170 [["p"; carol]]) 170 mret relay1).1 in
  Role s carol = "member" ∧ IsBanned s carol = true ∧ IsBanned (call owner_key "setmember" [JStr carol] relay1) carol = false.
Proof. split_and!; vm_eq. Qed.
