(* ===== verification/Auth.v ===== *)
(** * protocol/auth: request proofs

    NIP-98, NIP-42, BUD-11 and GRASP-08 verification (auth.go, grasp08.go).
    The clock is an argument in nanoseconds; the replay cache and the active
    challenges are maps threaded through the calls, as the mutex serializes
    them.  A random challenge is an argument of [Issue].  net/url is [GoURLs]:
    the parsed fields the code reads. *)

From S2P Require Import Prelude GoLib GoCodec GoLemmas GoStrings Nostr Filter.

(** A parsed URL and its methods, and the URL rebuilt with another path. *)
Record URLParts := mkURLParts {
  p_scheme : string; p_host : string; p_hostname : string; p_port : string; p_user : bool; p_opaque : string;
  p_escaped : string; p_query : string; p_fragment : string }.
Class GoURLs := {
  parse_url : string → option URLParts;
  path_unescape : string → option string;
  (** [String] after [Path], [RawPath], [RawQuery], [Fragment] are set to the
      unescaped path, the escaped path and empty strings *)
  url_at_path : URLParts → string → string → string;
}.

(** session.go: the principals of a connection and the relay identity their
    proofs were checked against. *)
Record Session := mkSession { S_PubKeys : list string; S_RelayURL : string; S_RemoteIP : string }.

Definition tokenSkew : Z := 60 * 1000000000.
Definition unix_seconds (t : Z) : Z := t / 1000000000.

Definition authError {A} (reason : string) : result A := Err ("auth-required: " +:+ reason).
Definition ErrMissingAuthorization : string := "auth-required: missing Nostr Authorization header".
Definition ErrGRASP08Unauthorized : string := "auth-required:".

(** [if err := check; err != nil] with the error wrapped by [authError]. *)
Definition auth_wrap {A} (r : result A) : result A := match r with Ok a => Ok a | Err m => authError m end.
Definition auth_guard (bad : bool) (reason : string) : result unit := if bad then authError reason else mret tt.

Definition outsideSkew (now createdAt : Z) : bool :=
  let delta := wrap64 (unix_seconds now - createdAt) in (60 <? delta) || (delta <? -60).

Definition hashBytes (value : list Z) : string := hex_encode (sha256 value).

(** ** Replay cache *)

Notation Seen := (gmap string Z).

Definition mark (seen : Seen) (id : string) (now : Z) : Seen * result unit :=
  let kept := filter (λ kv : string * Z, now - kv.2 <= tokenSkew) seen in
  match kept !! id with
  | Some _ => (kept, authError "token replay detected")
  | None => (<[id := now]> kept, mret tt)
  end.

Definition requiresBlobScope (action : string) : bool := contains ["upload"; "delete"; "mirror"; "media"] action.

(** [strings.LastIndex(s, sub)] as the text before and after. *)
Fixpoint split_last (sub s : string) : option (string * string) :=
  match s with
  | EmptyString => if String.eqb sub "" then Some ("", "") else None
  | String a r =>
    match split_last sub r with
    | Some (before, after) => Some (String a before, after)
    | None => if HasPrefix s sub then Some ("", String.substring (String.length sub) (String.length s) s) else None
    end
  end.

Section Auth.
Context `{NostrCrypto} `{GoUnicode} `{GoJson} `{GoURLs}.

Definition decodeBase64 (value : string) : option (list Z) :=
  head (omap (λ enc, DecodeString enc value) [StdEncoding; RawStdEncoding; URLEncoding; RawURLEncoding]).

Definition decodeToken (header tokenName : string) : result Event :=
  match Fields header with
  | [scheme; value] =>
    if EqualFold scheme "Nostr" then
      match decodeBase64 value with
      | None => authError ("malformed " +:+ tokenName +:+ " token")
      | Some raw => auth_wrap (Parse (string_of_bytes raw))
      end
    else Err ErrMissingAuthorization
  | _ => Err ErrMissingAuthorization
  end.

Definition normalizedRequestURL (raw : string) : option string :=
  match parse_url (TrimSpace raw) with
  | None => None
  | Some u =>
    if String.eqb (p_scheme u) "" || String.eqb (p_host u) "" || p_user u
       || negb (String.eqb (p_fragment u) "") || negb (String.eqb (p_opaque u) "") then None
    else
      let path := if String.eqb (p_escaped u) "" then "/" else p_escaped u in
      let host := ToLower (p_hostname u) +:+ (if String.eqb (p_port u) "" then "" else ":" +:+ p_port u) in
      Some (ToLower (p_scheme u) +:+ "://" +:+ host +:+ path +:+ "?" +:+ p_query u)
  end.

Definition sameRequestURL (signed requested : string) : result unit :=
  match normalizedRequestURL requested, normalizedRequestURL signed with
  | Some want, Some got => auth_guard (negb (String.eqb got want)) "token was signed for another URL"
  | _, _ => authError "token was signed for another URL"
  end.

(** The checks of [verifyNIP98] before the event is marked as seen. *)
Definition nip98_checks (now : Z) (header rawURL method body : string) (checkPayload : bool) : result Event :=
  e ← decodeToken header "NIP-98";
  auth_wrap (Validate e);;
  auth_guard (negb (Kind e =? 27235)) "token must be kind 27235";;
  auth_guard (outsideSkew now (CreatedAt e)) "token expired";;
  sameRequestURL (Tag e "u") rawURL;;
  auth_guard (negb (String.eqb (ToUpper (Tag e "method")) (ToUpper method))) "token was signed for another method";;
  let payload := Tag e "payload" in
  auth_guard (checkPayload && (negb (String.eqb body "") || negb (String.eqb payload ""))
              && negb (String.eqb payload (hashBytes (bytes_of body)))) "token payload hash does not match the body";;
  mret e.

Definition verifyNIP98 (seen : Seen) (now : Z) (header rawURL method body : string) (checkPayload : bool)
    : Seen * result Event :=
  match nip98_checks now header rawURL method body checkPayload with
  | Err m => (seen, Err m)
  | Ok e => let '(seen', r) := mark seen (ID e) now in (seen', r;; mret e)
  end.

Definition VerifyNIP98 (seen : Seen) (now : Z) (header rawURL method body : string) : Seen * result Event :=
  verifyNIP98 seen now header rawURL method body true.
Definition VerifyNIP98Deferred (seen : Seen) (now : Z) (header rawURL method : string) : Seen * result Event :=
  verifyNIP98 seen now header rawURL method "" false.

Definition blossomServerScope (e : Event) (server : string) : bool :=
  existsb (λ value, EqualFold (TrimSpace value) (TrimSpace server)) (TagValues e "server")
  || Nat.eqb (List.length (TagValues e "server")) 0.

(** The x tags name the blob, or there are none. *)
Definition names_blob (e : Event) (blobHash : string) : bool :=
  Nat.eqb (List.length (TagValues e "x")) 0 || contains (TagValues e "x") blobHash.

Definition verifyBlossom (now : Z) (header action server blobHash : string) (strict : bool) : result Event :=
  e ← decodeToken header "Blossom";
  auth_wrap (Validate e);;
  auth_guard (negb (Kind e =? 24242)) "token must be kind 24242";;
  auth_guard (negb (String.eqb (Tag e "t") action)) ("token is not for " +:+ action);;
  auth_guard (strict && negb (String.eqb server "") && negb (blossomServerScope e server))
    "token is not scoped to this server";;
  auth_guard ((Expiration e =? 0) || (Expiration e <=? unix_seconds now)) "token expired";;
  auth_guard (unix_seconds now <? CreatedAt e) "token is from the future";;
  auth_guard (strict && requiresBlobScope action && Nat.eqb (List.length (TagValues e "x")) 0)
    "token must include an x tag";;
  auth_guard (strict && negb (String.eqb blobHash "") && negb (names_blob e blobHash))
    "token x tag does not name this blob";;
  mret e.

Definition VerifyBlossom (now : Z) (header action : string) : result Event :=
  verifyBlossom now header action "" "" false.
Definition VerifyBlossomRequest (now : Z) (header action server blobHash : string) : result Event :=
  verifyBlossom now header action server blobHash true.

Definition IsBlossomAuthorization (header : string) : bool :=
  match decodeToken header "Blossom" with Ok e => Kind e =? 24242 | Err _ => false end.

Definition WhoAsks (seen : Seen) (now : Z) (header rawURL method body action blobHash : string)
    : Seen * result (list string) :=
  if String.eqb (TrimSpace header) "" then (seen, mret [])
  else match decodeToken header "authorization" with
  | Err m => (seen, Err m)
  | Ok e =>
    if Kind e =? 24242 then
      (seen,
       auth_guard (String.eqb action "") "this door takes a NIP-98 signature";;
       e ← VerifyBlossom now header action;
       auth_guard (negb (String.eqb blobHash "") && negb (names_blob e blobHash)) "token x tag does not name this blob";;
       mret [PubKey e])
    else
      let '(seen', r) := VerifyNIP98 seen now header rawURL method body in
      (seen', e ← r; mret [PubKey e])
  end.

Definition ValidateBlobPayload (header actualSHA : string) : result unit :=
  e ← decodeToken header "authorization";
  auth_wrap (Validate e);;
  if Kind e =? 24242 then auth_guard (negb (names_blob e actualSHA)) "token x tag does not name this blob"
  else if Kind e =? 27235 then
    auth_guard (negb (String.eqb (Tag e "payload") actualSHA)) "token payload hash does not match the blob hash"
  else authError "token must be kind 24242 or 27235".

Definition ValidateBlossomPayload (now : Z) (header action actualSHA : string) : result unit :=
  e ← VerifyBlossom now header action;
  auth_guard (negb (names_blob e actualSHA)) "token x tag does not name this blob".

(** ** NIP-42 challenges *)

(** [m.active], from challenge to its expiry. *)
Definition prune (active : gmap string Z) (now : Z) : gmap string Z :=
  filter (λ kv : string * Z, now < kv.2) active.

Definition Issue (active : gmap string Z) (now : Z) (challenge : string) : gmap string Z :=
  <[challenge := now + tokenSkew]> (prune active now).

Definition challenge_checks (relayURL : string) (now : Z) (e : Event) : result unit :=
  auth_wrap (Validate e);;
  auth_guard (negb (Kind e =? 22242)) "AUTH event must be kind 22242";;
  auth_guard (outsideSkew now (CreatedAt e)) "AUTH event timestamp expired";;
  auth_guard (negb (String.eqb (Tag e "relay") relayURL)) "AUTH event names another relay".

Definition VerifyChallenge (relayURL : string) (active : gmap string Z) (now : Z) (e : Event)
    : gmap string Z * result unit :=
  match challenge_checks relayURL now e with
  | Err m => (active, Err m)
  | Ok _ =>
    let active := prune active now in
    match active !! Tag e "challenge" with
    | None => (active, authError "AUTH challenge is unknown or already used")
    | Some _ => (delete (Tag e "challenge") active, mret tt)
    end
  end.

(** ** GRASP-08 *)

Definition grasp_suffix (suffix : string) : bool :=
  contains [""; "/info/refs"; "/git-upload-pack"; "/git-receive-pack"] suffix.

Definition GRASP08RepositoryRoot (raw : string) : option string :=
  match parse_url raw with
  | None => None
  | Some u =>
    if negb (contains ["http"; "https"] (p_scheme u)) || String.eqb (p_host u) "" || p_user u then None
    else match split_last ".git" (p_escaped u) with
    | None => None
    | Some (before, suffix) =>
      let rootPath := before +:+ ".git" in
      if negb (String.eqb suffix "") && negb (HasPrefix suffix "/") then None
      else if negb (grasp_suffix suffix) then None
      (* the code also tests [rootPath] for a trailing slash: it ends in .git *)
      else match path_unescape rootPath with
      | None => None
      | Some unescaped => Some (url_at_path u unescaped rootPath)
      end
    end
  end.

Definition VerifyGRASP08 (now : Z) (header rawURL : string) : result Event :=
  let refuse := Err ErrGRASP08Unauthorized in
  match decodeToken header "GRASP-08" with
  | Err _ => refuse
  | Ok e =>
    if negb (is_ok (Validate e)) || negb (Kind e =? 27235) then refuse
    else if (CreatedAt e <? wrap64 (unix_seconds now - 60)) || (wrap64 (unix_seconds now + 60) <? CreatedAt e) then refuse
    else if negb (String.eqb (Tag e "method") "GET") then refuse
    else match GRASP08RepositoryRoot rawURL with
    | None => refuse
    | Some root => if is_ok (sameRequestURL (Tag e "u") root) then mret e else refuse
    end
  end.
End Auth.
