(* ===== verification/Replication.v ===== *)
(** * internal/replication: planning, delivering and copying events

    Which events leave the relay and where (replication.go), the delivery of
    one planned event (delivery.go), push registrations (push.go), and the
    pull and push passes over another relay (sync.go).  A transport is a
    function from a target and an event to its answer; the log of what was
    sent is the effect.  Relay lists are the functions of the directory. *)

From S2P Require Import Prelude GoLib GoCodec GoLemmas GoStrings Nostr Filter Store StoreQuery Policy Auth.

Inductive Origin := OriginClient | OriginImport | OriginServer | OriginPush | OriginBackupRestore.
#[export] Instance Origin_eq_dec : EqDecision Origin.
Proof. solve_decision. Defined.

Record RPolicy := mkRPolicy { RP_Enabled : bool; RP_ReadMembersOnly : bool; RP_SelfPubKey : string; RP_SelfRelayURL : string }.

Definition origin_text (o : Origin) : string :=
  match o with
  | OriginClient => "client" | OriginImport => "import" | OriginServer => "server" | OriginPush => "push"
  | OriginBackupRestore => "backup_restore"
  end.
Definition origin_payload (o : Origin) : string := "{" +:+ quote "origin" +:+ ":" +:+ quote (origin_text o) +:+ "}".

Definition KIND_RELAY_DISCOVERY : Z := 30166.

(** [privateKind] of this package. *)
Definition delivery_private (kind : Z) : bool := IsPrivate kind || (kind =? KIND_DM).

Definition hasProtectedTag (e : Event) : bool :=
  existsb (λ tag, match tag with n :: _ => String.eqb n "-" | [] => false end) (etags e).

Definition eligible (e : Event) (origin : Origin) (p : RPolicy) : bool :=
  let peerPublication := bool_decide (origin = OriginServer) && (Kind e =? KIND_RELAY_DISCOVERY) && String.eqb (PubKey e) (RP_SelfPubKey p) in
  if negb (RP_Enabled p) || RP_ReadMembersOnly p || negb (bool_decide (origin = OriginClient)) && negb peerPublication
     || String.eqb (PubKey e) (RP_SelfPubKey p) && negb peerPublication || delivery_private (Kind e)
  then false
  else negb (hasProtectedTag e).

Definition appendUnique (out values : list string) : list string :=
  fold_left (λ out value, let value := TrimRightSlash (TrimSpace value) in
    if String.eqb value "" || contains out value then out else out ++ [value]) values out.

Definition isDuplicate (message : string) : bool := HasPrefix message "duplicate:".

Record DeliveryResult := mkDelivery { D_Accepted : bool; D_Message : string }.
Notation SentLog := (list (string * Event)).

(** [sendAccepted]: the transport is asked once, whatever it answers. *)
Definition sendAccepted (transport : string → Event → result DeliveryResult) (target : string) (e : Event) : SentLog * result unit :=
  ([(target, e)],
   match transport target e with
   | Err m => Err ("replication: send event: " +:+ m)
   | Ok response =>
     if D_Accepted response || isDuplicate (D_Message response) then mret tt
     else Err (if String.eqb (D_Message response) "" then "target rejected event" else D_Message response)
   end).

Section Replication.
Context `{GoUnicode} `{GoFTS} `{GoURLs} `{GoPrint}.

Definition safeRelayURL (raw : string) : bool :=
  match parse_url (TrimRightSlash (TrimSpace raw)) with
  | Some u => (String.eqb (p_scheme u) "ws" || String.eqb (p_scheme u) "wss") && negb (String.eqb (p_host u) "")
              && negb (p_user u) && String.eqb (p_fragment u) ""
  | None => false
  end.

Definition canonicalRelayURL (raw : string) : string :=
  match parse_url (TrimSpace raw) with
  | Some u =>
    if String.eqb (p_host u) "" then TrimRightSlash (TrimSpace raw)
    else
      let scheme := ToLower (p_scheme u) in
      let scheme := if String.eqb scheme "ws" then "http" else if String.eqb scheme "wss" then "https" else scheme in
      let host := ToLower (p_hostname u) +:+ (if String.eqb (p_port u) "" then "" else ":" +:+ p_port u) in
      let path := TrimRightSlash (p_escaped u) in
      scheme +:+ "://" +:+ host +:+ (if String.eqb path "" then "/" else path) +:+ "?" +:+ p_query u
  | None => TrimRightSlash (TrimSpace raw)
  end.

Definition uniqueTargets (values : list string) : list string :=
  fold_left (λ out value, if safeRelayURL value then appendUnique out [value] else out) values [].

Definition delivery_targets (write_relays read_relays : string → list string) (e : Event) : list string :=
  fold_left (λ targets pubkey, appendUnique targets (read_relays pubkey)) (TagValues e "p") (uniqueTargets (write_relays (PubKey e))).

Definition own_relay (p : RPolicy) (target : string) : bool :=
  negb (String.eqb (RP_SelfRelayURL p) "") && String.eqb (canonicalRelayURL target) (canonicalRelayURL (RP_SelfRelayURL p)).

Definition PrepareIntents (write_relays read_relays : string → list string) (e : Event) (origin : Origin) (p : RPolicy) : list Intent :=
  if negb (eligible e origin p) then []
  else (λ target, mkIntent "delivery" (ID e) target (origin_payload origin))
         <$> List.filter (λ target, safeRelayURL target && negb (own_relay p target)) (delivery_targets write_relays read_relays e).

(** service.go: no known target leaves the discovery of some to a worker. *)
Definition Prepare (directory : option ((string → list string) * (string → list string))) (e : Event) (origin : Origin) (p : RPolicy)
    : list Intent :=
  let discovery := if eligible e origin p then [mkIntent "delivery-discovery" (ID e) (PubKey e) (origin_payload origin)] else [] in
  match directory with
  | None => discovery
  | Some (write_relays, read_relays) =>
    match PrepareIntents write_relays read_relays e origin p with [] => discovery | intents => intents end
  end.

Definition ValidateIntent (i : Intent) : result unit :=
  guard_err (String.eqb (i_kind i) "" || String.eqb (i_event i) "" || negb (safeRelayURL (i_target i))) "replication: malformed intent".

(** ** delivery.go *)

Definition query_everything (db : DB) (f : Filter) (now limit : Z) : list Event :=
  R_Events (Query db f (mkQueryOptions now (mkAccess [] true false) limit None)).

Definition authorRelayList (db : DB) (e : Event) : option Event :=
  List.find (λ candidate, (Kind candidate =? 10002) && negb (delivery_private (Kind candidate)) && negb (hasProtectedTag candidate))
    (query_everything db (mkFilter None (Some [PubKey e]) (Some [10002]) ∅ None None None "") 0 1).

Definition deliver_event (db : DB) (transport : string → Event → result DeliveryResult) (target : string) (e : Event) : SentLog * result unit :=
  if delivery_private (Kind e) || hasProtectedTag e || PrivateRepository (Some (IsPrivateRepository db)) e then ([], mret tt)
  else
    match (if Kind e =? 10002 then None else authorRelayList db e) with
    | None => sendAccepted transport target e
    | Some relayList =>
      match sendAccepted transport target relayList with
      | (sent, Err m) => (sent, Err m)
      | (sent, Ok _) => let '(more, r) := sendAccepted transport target e in (sent ++ more, r)
      end
    end.

Definition deliver (db : DB) (transport : string → Event → result DeliveryResult) (i : Intent) : SentLog * result unit :=
  match ValidateIntent i with
  | Err m => ([], Err m)
  | Ok _ =>
    match query_everything db (mkFilter (Some [i_event i]) None None ∅ None None None "") 0 1 with
    | [] => ([], mret tt)
    | e :: _ => deliver_event db transport (i_target i) e
    end
  end.

(** ** push.go *)

Record CallbackPolicy := mkCallbackPolicy { HostOrigins : list string; OwnerOrigins : list string }.
Record PushRegistration := mkPush {
  PR_ID : string; PR_Owner : string; PR_Relay : string; PR_Callback : string;
  PR_Filters : list Filter; PR_Ignore : list Filter; PR_IncludeEvent : bool }.

Definition exactTag (e : Event) (name wanted : string) : string :=
  match List.find (λ value, String.eqb (TrimRightSlash value) (TrimRightSlash wanted) && safeRelayURL value) (TagValues e name) with
  | Some value => TrimRightSlash value
  | None => ""
  end.

Definition https_origin (value : string) : option string :=
  match parse_url value with
  | Some u => if String.eqb (p_scheme u) "https" && negb (p_user u) && String.eqb (p_port u) "" && String.eqb (p_escaped u) ""
                 && String.eqb (p_query u) "" && String.eqb (p_fragment u) ""
              then Some (p_scheme u +:+ "://" +:+ p_host u) else None
  | None => None
  end.
Definition exactOriginTag (e : Event) (name : string) : string := default "" (head (omap https_origin (TagValues e name))).

Definition parseFilterTags `{GoJson} (e : Event) (name : string) : result (list Filter) :=
  (fix go (values : list string) : result (list Filter) :=
     match values with
     | [] => mret []
     | value :: r =>
       match ParseFilter value with
       | Err _ => Err "replication: invalid push filter"
       | Ok f => rest ← go r; mret (f :: rest)
       end
     end) (TagValues e name).

Definition ParsePushRegistration `{GoJson} (e : Event) (p : CallbackPolicy) (self : string) : result PushRegistration :=
  guard_err (negb (Kind e =? KIND_PUSH_REGISTRATION)) "replication: wrong push registration kind";;
  let relay := exactTag e "relay" self in
  guard_err (String.eqb relay "") "replication: registration does not name this relay";;
  let callback := exactOriginTag e "callback" in
  guard_err (String.eqb callback "" || negb (contains (HostOrigins p) callback) || negb (contains (OwnerOrigins p) callback))
    "replication: callback origin is not approved";;
  match parseFilterTags e "filter" with
  | Err _ | Ok [] => Err "replication: registration needs a filter"
  | Ok filters =>
    ignore ← parseFilterTags e "ignore";
    mret (mkPush (ID e) (PubKey e) relay callback filters ignore
            (existsb (λ tag, match tag with n :: _ => String.eqb n "include_event" | [] => false end) (etags e)))
  end.

Definition matchesAny (filters : list Filter) (e : Event) : bool := existsb (λ f, Matches f e) filters.
Definition PushMatches (reg : PushRegistration) (e : Event) : bool := matchesAny (PR_Filters reg) e && negb (matchesAny (PR_Ignore reg) e).

(** callback.go: the registration as it is stored now. *)
Definition currentRegistration `{GoJson} (db : DB) (expected : PushRegistration) (p : CallbackPolicy) : option PushRegistration :=
  r ← List.find (λ r, String.eqb (r_id r) (PR_ID expected) && (r_kind r =? KIND_PUSH_REGISTRATION)) (events db);
  match ParsePushRegistration (r_raw r) p (PR_Relay expected) with
  | Ok parsed => if String.eqb (PR_Owner parsed) (PR_Owner expected) then Some parsed else None
  | Err _ => None
  end.

(** The callback handler up to its request: what it posts, if anything. *)
Definition callback_delivery `{GoJson} (db : DB) (enabled : bool) (p : CallbackPolicy) (visible : string → bool)
    (visibleEvent : string → Event → bool) (reg : PushRegistration) (eventID : string) (now : Z) : option (PushRegistration * Event) :=
  if negb enabled then None
  else
    current ← currentRegistration db reg p;
    match query_everything db (mkFilter (Some [eventID]) None None ∅ None None None "") now 1 with
    | [] => None
    | delivered :: _ =>
      if negb (visible (PR_Owner current)) || negb (visibleEvent (PR_Owner current) delivered) || negb (PushMatches current delivered) then None
      else Some (current, delivered)
    end.

(** ** sync.go *)

Record SyncStats := mkStats { St_Stored : Z; St_Duplicates : Z; St_Rejected : Z; St_Sent : Z; St_Refused : Z }.
Definition no_stats : SyncStats := mkStats 0 0 0 0 0.

(** [PullOnceWithIngest] over the state [ingest] works on. *)
Fixpoint pull_items `{NostrCrypto} {T} (ingest : Event → T → T * result unit) (items : list Event) (st : T * SyncStats) : T * SyncStats :=
  match items with
  | [] => st
  | item :: r =>
    let '(t, n) := st in
    let '(mkStats s d j a b) := n in
    pull_items ingest r
      (if is_ok (Nostr.Validate item) then
         match ingest item t with
         | (t', Ok _) => (t', mkStats (s + 1) d j a b)
         | (t', Err m) => (t', if String.eqb m ErrDuplicate || String.eqb m ErrReplaced then mkStats s (d + 1) j a b else mkStats s d (j + 1) a b)
         end
       else (t, mkStats s d (j + 1) a b))
  end.

(** The loop of [PushAfter]: statistics, cursor and what was sent. *)
Fixpoint push_rows (transport : string → Event → result DeliveryResult) (target : string) (rows : list (Z * Event)) (stats : SyncStats) (last : Z)
    : SentLog * (SyncStats * Z * result unit) :=
  match rows with
  | [] => ([], (stats, last, mret tt))
  | (seq, e) :: r =>
    match transport target e with
    | Err m => ([(target, e)], (stats, last, Err ("replication: push event: " +:+ m)))
    | Ok response =>
      let stats := if D_Accepted response || isDuplicate (D_Message response)
                   then mkStats (St_Stored stats) (St_Duplicates stats) (St_Rejected stats) (St_Sent stats + 1) (St_Refused stats)
                   else mkStats (St_Stored stats) (St_Duplicates stats) (St_Rejected stats) (St_Sent stats) (St_Refused stats + 1) in
      let '(sent, out) := push_rows transport target r stats seq in
      ((target, e) :: sent, out)
    end
  end.

Definition PushAfter (db : DB) (transport : string → Event → result DeliveryResult) (target : string) (cursor : Z) (f : Filter) (now : Z)
    : SentLog * (SyncStats * Z * result unit) :=
  if negb (safeRelayURL target) then ([], (no_stats, cursor, Err ("replication: invalid push target " +:+ Quote target)))
  else push_rows transport target (After db cursor f (mkQueryOptions now (mkAccess [] true false) 0 None)) no_stats cursor.
End Replication.
