(* ===== verification/ReplicationProps.v ===== *)
(** * internal/replication: what leaves the relay, and what a pass leaves behind *)

From S2P Require Import Prelude GoLib GoCodec GoLemmas GoStrings Nostr Filter Store StoreQuery StoreInv StoreMaint StoreProps Policy Auth Replication.

Section Props.
Context `{GoUnicode} `{GoFTS} `{GoURLs} `{GoPrint}.

(** ** Planning *)

Lemma eligible_public e origin p : eligible e origin p = true →
  RP_Enabled p = true ∧ RP_ReadMembersOnly p = false ∧ delivery_private (Kind e) = false ∧ hasProtectedTag e = false ∧
  (origin = OriginClient ∧ PubKey e ≠ RP_SelfPubKey p ∨ origin = OriginServer ∧ Kind e = KIND_RELAY_DISCOVERY ∧ PubKey e = RP_SelfPubKey p).
Proof.
  unfold eligible. cbv zeta. set (peer := bool_decide (origin = OriginServer) && _ && _). destruct (_ || _) eqn:E; [done|]. intros Hp.
  rewrite !orb_false_iff, negb_false_iff in E. destruct E as [[[[-> ->] Ho] Hs] ->]. apply negb_true_iff in Hp. split_and!; try done.
  destruct peer eqn:Epeer; subst peer.
  - right. rewrite !andb_true_iff, bool_decide_eq_true, Z.eqb_eq, String.eqb_eq in Epeer. tauto.
  - left. rewrite andb_true_r, negb_false_iff, bool_decide_eq_true in Ho. rewrite andb_true_r, String.eqb_neq in Hs. done.
Qed.

Lemma elem_PrepareIntents w r e origin p i : i ∈ PrepareIntents w r e origin p →
  eligible e origin p = true ∧ i_kind i = "delivery" ∧ i_event i = ID e ∧ safeRelayURL (i_target i) = true ∧ own_relay p (i_target i) = false.
Proof.
  unfold PrepareIntents. destruct (eligible e origin p); cbn [negb]; [|by intros ?%not_elem_of_nil].
  intros (target & -> & [_ Ht]%elem_of_lfilter)%list_elem_of_fmap. apply andb_true_iff in Ht as [? ?%negb_true_iff]. done.
Qed.

(** Work is planned only for an event that may leave: fan-out is on and the
    relay open to readers, the event is neither private nor protected, and it
    is a client's or the relay's own discovery record; no planned target is
    unsafe or the relay itself. *)
Theorem planned_delivery_is_public directory e origin p i :
  i ∈ Prepare directory e origin p →
  RP_Enabled p = true ∧ RP_ReadMembersOnly p = false ∧ delivery_private (Kind e) = false ∧ hasProtectedTag e = false ∧
  (origin = OriginClient ∨ Kind e = KIND_RELAY_DISCOVERY ∧ PubKey e = RP_SelfPubKey p) ∧ i_event i = ID e ∧
  (i_kind i = "delivery" → safeRelayURL (i_target i) = true ∧ own_relay p (i_target i) = false).
Proof.
  intros Hi. assert (eligible e origin p = true ∧ i_event i = ID e ∧ (i_kind i = "delivery" → safeRelayURL (i_target i) = true ∧ own_relay p (i_target i) = false)) as (He & Hid & Hk).
  { unfold Prepare in Hi. cbv zeta in Hi.
    assert (i ∈ (if eligible e origin p then [mkIntent "delivery-discovery" (ID e) (PubKey e) (origin_payload origin)] else []) →
      eligible e origin p = true ∧ i_event i = ID e ∧ (i_kind i = "delivery" → safeRelayURL (i_target i) = true ∧ own_relay p (i_target i) = false)) as Hd.
    { destruct (eligible e origin p); [|by intros ?%not_elem_of_nil]. by intros ->%list_elem_of_singleton. }
    destruct directory as [[w r]|]; [|by apply Hd]. destruct (PrepareIntents w r e origin p) as [|x l] eqn:E; [by apply Hd|].
    rewrite <-E in Hi. apply elem_PrepareIntents in Hi as (? & _ & ? & ? & ?). done. }
  apply eligible_public in He as (? & ? & ? & ? & Ho). split_and!; try done. destruct Ho as [[? _]|(_ & ? & ?)]; auto.
Qed.

(** ** Delivery *)

Definition may_leave (db : DB) (e : Event) : Prop :=
  delivery_private (Kind e) = false ∧ hasProtectedTag e = false ∧ PrivateRepository (Some (IsPrivateRepository db)) e = false.

Lemma sent_sendAccepted transport target e x : x ∈ (sendAccepted transport target e).1 → x = (target, e).
Proof. unfold sendAccepted. cbn. by intros ?%list_elem_of_singleton. Qed.

Lemma where_filter db f opts r : where_cond db f opts r = true → filter_cond db f r = true.
Proof. unfold where_cond. rewrite !andb_true_iff. tauto. Qed.

Lemma query_everything_elem db f now limit e : e ∈ query_everything db f now limit →
  ∃ r, r ∈ events db ∧ r_raw r = e ∧ filter_cond db f r = true.
Proof. intros (r & ? & ? & Hw%where_filter)%Query_sound. eauto. Qed.

Lemma found_by {A} (p : A → bool) (l : list A) x : List.find p l = Some x → x ∈ l ∧ p x = true.
Proof. intros [Hx Hp]%find_some. split; [by apply list_elem_of_In|done]. Qed.

Lemma authorRelayList_public db e e' : authorRelayList db e = Some e' →
  Kind e' = 10002 ∧ may_leave db e' ∧ ∃ r, r ∈ events db ∧ r_raw r = e' ∧ r_pubkey r = PubKey e.
Proof.
  intros [He' Hp]%found_by. apply query_everything_elem in He' as (r & Hr & <- & Hf).
  rewrite !andb_true_iff, !negb_true_iff, Z.eqb_eq in Hp. destruct Hp as [[Hk Hd] Ht]. split_and!; [done| |].
  - split_and!; try done. unfold PrivateRepository, IsPrivateRepositoryEvent. by rewrite Hk.
  - exists r. split_and!; [done..|]. unfold filter_cond in Hf. rewrite !andb_true_iff in Hf. destruct Hf as [[[[[_ Hf] _] _] _] _].
    cbn in Hf. by rewrite orb_false_r, String.eqb_eq in Hf.
Qed.

(** C23: nothing confidential is delivered: what a planned delivery sends goes to
    the planned target, is the planned event or its author's relay list as
    they are stored, and is neither private, nor protected, nor part of a
    private repository; nor is a relay list sent for an event that may not
    leave, and the relay list goes first. *)
Theorem delivery_is_public db transport i x :
  x ∈ (deliver db transport i).1 →
  x.1 = i_target i ∧ safeRelayURL (i_target i) = true ∧ may_leave db x.2 ∧
  ∃ r r', r ∈ events db ∧ r_id r = i_event i ∧ may_leave db (r_raw r) ∧ r' ∈ events db ∧ r_raw r' = x.2 ∧
    (r' = r ∨ Kind x.2 = 10002 ∧ r_pubkey r' = PubKey (r_raw r) ∧ head (deliver db transport i).1 = Some x).
Proof.
  unfold deliver. destruct (ValidateIntent i) eqn:Ev; [|by intros ?%not_elem_of_nil].
  assert (safeRelayURL (i_target i) = true) as Hs.
  { unfold ValidateIntent in Ev. apply guard_err_Ok, orb_false_iff in Ev as [_ Ev]. by apply negb_false_iff in Ev. }
  destruct (query_everything _ _ _ _) as [|e l] eqn:Eq; [by intros ?%not_elem_of_nil|].
  assert (e ∈ query_everything db (mkFilter (Some [i_event i]) None None ∅ None None None "") 0 1) as He by (rewrite Eq; apply list_elem_of_here).
  apply query_everything_elem in He as (r & Hr & Eraw & Hf). unfold deliver_event.
  destruct (_ || _ || _) eqn:Ep; [by intros ?%not_elem_of_nil|]. rewrite !orb_false_iff in Ep. destruct Ep as [[Hd Ht] Hp].
  assert (r_id r = i_event i) as Hid.
  { unfold filter_cond in Hf. rewrite !andb_true_iff in Hf. destruct Hf as [[[[[Hf _] _] _] _] _]. cbn in Hf. by rewrite orb_false_r, String.eqb_eq in Hf. }
  assert (may_leave db (r_raw r)) as Hml by by rewrite Eraw.
  assert (x = (i_target i, e) → x.1 = i_target i ∧ may_leave db x.2 ∧ r_raw r = x.2) as Hself.
  { intros ->. split_and!; [done| |done]. by rewrite Eraw in Hml. }
  destruct (if Kind e =? 10002 then None else authorRelayList db e) as [rl|] eqn:Erl.
  - destruct (Kind e =? 10002); [done|]. apply authorRelayList_public in Erl as (Hk & Hrl & r' & Hr' & Er' & Hpk). intros Hx.
    assert (x = (i_target i, rl) ∨ x = (i_target i, e)) as [->|Hxe].
    { unfold sendAccepted in Hx. destruct (transport (i_target i) rl) as [d|]; [destruct (_ || _)|]; cbn in Hx; set_solver. }
    + split_and!; try done. exists r, r'. split_and!; try done. right. rewrite Eraw. split_and!; try done.
      unfold sendAccepted. destruct (transport (i_target i) rl) as [d|]; [destruct (_ || _)|]; done.
    + destruct (Hself Hxe) as (? & ? & ?). split_and!; try done. exists r, r. split_and!; auto.
  - intros Hxe%sent_sendAccepted. destruct (Hself Hxe) as (? & ? & ?). split_and!; try done. exists r, r. split_and!; auto.
Qed.

(** ** A push pass *)

(** What the other relay said of an event: it takes it, or holds it already;
    it answers and refuses it; or there is no answer. *)
Inductive PushAnswer := Taken | Refused | Unanswered.
#[export] Instance PushAnswer_eq_dec : EqDecision PushAnswer.
Proof. solve_decision. Defined.
Definition push_answer (transport : string → Event → result DeliveryResult) (target : string) (e : Event) : PushAnswer :=
  match transport target e with
  | Ok d => if D_Accepted d || isDuplicate (D_Message d) then Taken else Refused
  | Err _ => Unanswered
  end.
(** The answers of a kind among the events of a pass. *)
Definition answers (transport : string → Event → result DeliveryResult) (target : string) (a : PushAnswer) (rows : list (Z * Event)) : Z :=
  Z.of_nat (List.length (filter (λ x, push_answer transport target x.2 = a) rows)).

Lemma push_rows_spec transport target rows : ∀ stats last sent stats' last' r,
  push_rows transport target rows stats last = (sent, (stats', last', r)) →
  ∃ done_ rest, rows = done_ ++ rest ∧ Forall (λ x, push_answer transport target x.2 ≠ Unanswered) done_ ∧
    last' = default last (list.last (fst <$> done_)) ∧
    St_Sent stats' = St_Sent stats + answers transport target Taken done_ ∧
    St_Refused stats' = St_Refused stats + answers transport target Refused done_ ∧
    ((r = Ok tt ∧ rest = [] ∧ sent = (λ x, (target, x.2)) <$> done_) ∨
     (∃ x rest' m, rest = x :: rest' ∧ push_answer transport target x.2 = Unanswered ∧ r = Err m ∧
        sent = ((λ x, (target, x.2)) <$> done_) ++ [(target, x.2)])).
Proof.
  unfold answers. induction rows as [|[seq e] rows IH]; intros stats last sent stats' last' r; cbn [push_rows].
  - intros [= <- <- <- <-]. exists [], []. split_and!; [done|constructor|done|cbn; lia|cbn; lia|auto].
  - destruct (transport target e) as [d|m] eqn:Et.
    + cbv zeta. destruct (push_rows transport target rows _ seq) as [sent1 [[st1 l1] r1]] eqn:E. intros [= <- <- <- <-].
      assert (push_answer transport target e = if D_Accepted d || isDuplicate (D_Message d) then Taken else Refused) as Ea
        by (unfold push_answer; by rewrite Et).
      apply IH in E as (dn & rest & -> & Hd & -> & Hs & Hr & Hc). exists ((seq, e) :: dn), rest. split_and!; [done| | | | |].
      * constructor; [cbn; rewrite Ea; by case_match|done].
      * rewrite fmap_cons, last_cons. cbn. by destruct (list.last _).
      * rewrite Hs, filter_cons. cbn [snd]. rewrite Ea. destruct (_ || _); cbn [St_Sent]; case_decide; cbn [List.length]; try done; lia.
      * rewrite Hr, filter_cons. cbn [snd]. rewrite Ea. destruct (_ || _); cbn [St_Refused]; case_decide; cbn [List.length]; try done; lia.
      * destruct Hc as [(-> & -> & ->)|(x & rest' & m & -> & Hx & -> & ->)]; [left; auto|right; exists x, rest', m; auto].
    + intros [= <- <- <- <-]. exists [], ((seq, e) :: rows). split_and!; [done|constructor|done|cbn; lia|cbn; lia|].
      right. exists (seq, e), rows, ("replication: push event: " +:+ m). unfold push_answer. cbn. by rewrite Et.
Qed.

Definition pass_opts (now : Z) : QueryOptions := mkQueryOptions now (mkAccess [] true false) 0 None.
Definition wanted_row (db : DB) (c : Z) (f : Filter) (now : Z) (r : EventRow) : bool := where_cond db f (pass_opts now) r && (c <? r_seq r).
Definition row_item (r : EventRow) : Z * Event := (r_seq r, r_raw r).

Lemma After_filter db c f now : WF db → After db c f (pass_opts now) = row_item <$> List.filter (wanted_row db c f now) (events db).
Proof.
  intros Hwf. unfold After. cbn [pass_opts Q_Limit]. change (0 <? 0) with false. cbv iota. f_equal. fold (wanted_row db c f now).
  set (l := List.filter (wanted_row db c f now) (events db)).
  assert (StronglySorted Z.lt (r_seq <$> l)) as Hl by (eapply sublist_sorted; [apply lfilter_fmap_sublist|apply wf_seqs, Hwf]).
  assert (∀ k, StronglySorted Z.lt (r_seq <$> k) → StronglySorted seq_order k) as Hle.
  { clear. induction k as [|x k IH]; cbn; [constructor|]. inversion 1 as [|? ? Hk Hx]; subst. constructor; [by apply IH|].
    rewrite Forall_forall in Hx. apply Forall_forall. intros y Hy. pose proof (Hx _ (list_elem_of_fmap_2 r_seq _ _ Hy)). unfold seq_order. lia. }
  apply (StronglySorted_unique_strong seq_order).
  - intros x y Hx Hy Hxy Hyx. rewrite merge_sort_Permutation in Hx. unfold seq_order in *.
    eapply (NoDup_fmap_elem r_seq l); [by apply sorted_NoDup|done..|lia].
  - apply StronglySorted_merge_sort; intros; unfold seq_order in *; [intros ? ? ?; lia|intros a b; lia].
  - by apply Hle.
  - apply merge_sort_Permutation.
Qed.

Lemma filter_above (l a b : list EventRow) c x :
  StronglySorted Z.lt (r_seq <$> l) → List.filter (λ r, c <? r_seq r) l = a ++ x :: b → c < r_seq x →
  List.filter (λ r, r_seq x <? r_seq r) l = b.
Proof.
  revert a. induction l as [|y l IH]; intros a Hs Hf Hx; [by destruct a|]. cbn [List.filter fmap list_fmap] in *.
  inversion Hs as [|? ? Hl Hy]; subst. rewrite Forall_forall in Hy.
  assert (x = y ∨ x ∈ l) as Hin.
  { assert (x ∈ a ++ x :: b) as Hin by set_solver. rewrite <-Hf in Hin. case_match; [apply elem_of_cons in Hin as [?|Hin]; [auto|]|];
      apply elem_of_lfilter in Hin as [? _]; auto. }
  destruct (Z.ltb_spec c (r_seq y)) as [Hc|Hc].
  - destruct a as [|z a]; cbn in Hf; injection Hf as -> Hf.
    + rewrite Z.ltb_irrefl. rewrite <-Hf. apply lfilter_ext. intros r Hr. specialize (Hy (r_seq r) (list_elem_of_fmap_2 _ _ _ Hr)).
      rewrite (proj2 (Z.ltb_lt _ _)) by lia. symmetry. apply Z.ltb_lt. lia.
    + destruct Hin as [->|Hin]; [|specialize (Hy _ (list_elem_of_fmap_2 _ _ _ Hin)); rewrite (proj2 (Z.ltb_ge _ _)) by lia; by eapply IH].
      exfalso. assert (z ∈ l) as Hz; [|specialize (Hy _ (list_elem_of_fmap_2 r_seq _ _ Hz)); lia].
      assert (z ∈ a ++ z :: b) as Hz by set_solver. rewrite <-Hf in Hz. by apply elem_of_lfilter in Hz as [? _].
  - destruct Hin as [->|Hin]; [lia|]. specialize (Hy _ (list_elem_of_fmap_2 _ _ _ Hin)). rewrite (proj2 (Z.ltb_ge _ _)) by lia. by eapply IH.
Qed.

Lemma After_rest db c f now done_ rest : WF db → After db c f (pass_opts now) = done_ ++ rest →
  c ≤ default c (list.last (fst <$> done_)) ∧ After db (default c (list.last (fst <$> done_))) f (pass_opts now) = rest.
Proof.
  intros Hwf E. destruct done_ as [|x done_ _] using rev_ind; [split; [cbn; lia|done]|].
  rewrite fmap_snoc, last_snoc. cbn [from_option]. rewrite After_filter in E by done.
  rewrite <-app_assoc in E. apply fmap_app_inv in E as (a & k & Ea & Ek & E). cbn in Ek. symmetry in Ek. apply fmap_cons_inv in Ek as (y & b & -> & Eb & ->).
  cbn [row_item fst]. assert (c < r_seq y) as Hlt.
  { assert (y ∈ a ++ y :: b) as Hy by set_solver. rewrite <-E in Hy. apply elem_of_lfilter in Hy as [_ Hy]. apply andb_true_iff in Hy as [_ Hy]. by apply Z.ltb_lt. }
  split; [unfold id; lia|]. rewrite After_filter by done. unfold id. rewrite Eb. f_equal.
  unfold wanted_row in *. rewrite <-lfilter_lfilter in E |- *. eapply filter_above; [|exact E|done].
  eapply sublist_sorted; [apply lfilter_fmap_sublist|apply wf_seqs, Hwf].
Qed.

(** C24: a push pass resumes where it stopped.  It goes through the events it had to
    send in order and passes over an event only once the other relay has answered it,
    be it with a refusal; it counts as sent exactly those the other relay took or held
    already, and as refused exactly those it refused.  What is left to send after the
    cursor it returns is what it had to send without the events that were answered; the
    cursor never goes back, and a pass that stops at an event without an answer is at
    that event again the next time. *)
Theorem push_pass_resumes db transport target cursor f now sent stats cursor' r :
  WF db → PushAfter db transport target cursor f now = (sent, (stats, cursor', r)) → safeRelayURL target = true →
  ∃ done_, After db cursor f (pass_opts now) = done_ ++ After db cursor' f (pass_opts now) ∧ cursor ≤ cursor' ∧
    Forall (λ x, push_answer transport target x.2 ≠ Unanswered) done_ ∧
    St_Sent stats = answers transport target Taken done_ ∧ St_Refused stats = answers transport target Refused done_ ∧
    (r = Ok tt ∧ After db cursor' f (pass_opts now) = [] ∧ sent = (λ x, (target, x.2)) <$> done_ ∨
     ∃ x rest m, After db cursor' f (pass_opts now) = x :: rest ∧ push_answer transport target x.2 = Unanswered ∧ r = Err m ∧
       sent = ((λ x, (target, x.2)) <$> done_) ++ [(target, x.2)]).
Proof.
  intros Hwf Hp Hs. unfold PushAfter in Hp. rewrite Hs in Hp. cbn [negb] in Hp. fold (pass_opts now) in Hp.
  apply push_rows_spec in Hp as (dn & rest & E & Hd & -> & Hst & Hrf & Hc). destruct (After_rest _ _ _ _ _ _ Hwf E) as [Hle Hrest].
  exists dn. rewrite Hrest. split_and!; [done|done|done|by cbn in Hst|by cbn in Hrf|].
  destruct Hc as [(-> & -> & ->)|(x & rest' & m & -> & Hx & -> & ->)]; [left; auto|right; exists x, rest', m; auto].
Qed.
End Props.

(** ** Witnesses *)

#[local] Instance replication_unicode : GoUnicode := ascii_unicode.
#[local] Instance replication_fts : GoFTS := {| fts_match q s := Contains s q |}.
#[local] Instance replication_print : GoPrint := {| is_print _ := true |}.
#[local] Instance replication_urls : GoURLs :=
  {| parse_url raw := if HasPrefix raw "wss://" then Some (mkURLParts "wss" "peer.example" "peer.example" "" false "" "" "" "") else None;
     path_unescape s := Some s; url_at_path _ _ _ := "" |}.

Definition public_note : Event := sample_event "1" sample_pk 1 100 [].
Definition second_note : Event := sample_event "2" sample_pk 1 200 [].
Definition author_relays : Event := sample_event "3" sample_pk 10002 150 [["r"; "wss://peer.example"]].
Definition peer : string := "wss://peer.example".
Definition peer_db : DB := Eval vm_compute in
  (Save (Save (Save empty_db public_note (sample_opts 1000)).1 author_relays (sample_opts 1000)).1 second_note (sample_opts 1000)).1.
Definition accepts (_ : string) (_ : Event) : result DeliveryResult := Ok (mkDelivery true "").
Definition stops_at_second (_ : string) (e : Event) : result DeliveryResult :=
  if String.eqb (ID e) (ID second_note) then Err "connection reset" else Ok (mkDelivery true "").

Lemma delivery_is_public_witness :
  (deliver peer_db accepts (mkIntent "delivery" (ID public_note) peer "")).1 = [(peer, author_relays); (peer, public_note)] ∧
  may_leave peer_db author_relays.
Proof.
  split; [vm_compute; reflexivity|].
  apply (delivery_is_public peer_db accepts (mkIntent "delivery" (ID public_note) peer "") (peer, author_relays)).
  vm_compute. apply list_elem_of_here.
Defined.

Lemma planned_delivery_is_public_witness :
  hasProtectedTag public_note = false ∧
  Prepare None public_note OriginClient (mkRPolicy true false sample_pk2 "") = [mkIntent "delivery-discovery" (ID public_note) sample_pk (origin_payload OriginClient)].
Proof.
  split; [|vm_compute; reflexivity].
  destruct (planned_delivery_is_public None public_note OriginClient (mkRPolicy true false sample_pk2 "")
    (mkIntent "delivery-discovery" (ID public_note) sample_pk (origin_payload OriginClient))) as (_ & _ & _ & Ht & _); [|exact Ht].
  vm_compute. apply list_elem_of_here.
Defined.

Lemma WF_peer_db : WF peer_db.
Proof.
  change peer_db with (Save (Save (Save empty_db public_note (sample_opts 1000)).1 author_relays (sample_opts 1000)).1 second_note (sample_opts 1000)).1.
  repeat (apply WF_Save; [|apply sample_shape; vm_compute; reflexivity|done]). apply WF_empty.
Qed.

(** The pass that is cut off at the third event takes up there again. *)
Lemma push_pass_resumes_witness :
  let '(sent, (stats, cursor, r)) := PushAfter peer_db stops_at_second peer 0 empty_filter 1000 in
  r = Err "replication: push event: connection reset" ∧ cursor = 2 ∧ St_Sent stats = 2 ∧
  ∃ done_, After peer_db 0 empty_filter (pass_opts 1000) = done_ ++ After peer_db 2 empty_filter (pass_opts 1000).
Proof.
  assert (E : PushAfter peer_db stops_at_second peer 0 empty_filter 1000 =
    ([(peer, public_note); (peer, author_relays); (peer, second_note)], (mkStats 0 0 0 2 0, 2, Err "replication: push event: connection reset")))
    by (vm_compute; reflexivity).
  rewrite E. split_and!; try reflexivity.
  destruct (push_pass_resumes _ _ _ _ _ _ _ _ _ _ WF_peer_db E) as (dn & Hd & _); [vm_compute; reflexivity|]. exists dn. exact Hd.
Defined.
