(* ===== verification/AuthProps.v ===== *)
(** * protocol/auth: what a verified proof establishes *)

From S2P Require Import Prelude GoLib GoCodec GoLemmas GoStrings Nostr NostrProps Filter Auth.

Record Request := mkRequest {
  q_now : Z; q_header : string; q_url : string; q_method : string; q_body : string; q_check : bool }.

Inductive ChallengeOp := OpIssue (now : Z) (challenge : string) | OpVerify (now : Z) (e : Event).
(** What happened: a challenge was issued, or an AUTH event was accepted. *)
Inductive ChallengeLog := Issued (at_ : Z) (challenge : string) | Passed (at_ : Z) (e : Event).

Lemma auth_guard_bind {B} b m (k : result B) x : (auth_guard b m;; k) = Ok x ↔ b = false ∧ k = Ok x.
Proof. destruct b; cbn; naive_solver. Qed.

Lemma auth_guard_tt b m u : auth_guard b m = Ok u ↔ b = false.
Proof. destruct b, u; cbn; naive_solver. Qed.

Lemma auth_wrap_Ok {A} (r : result A) a : auth_wrap r = Ok a ↔ r = Ok a.
Proof. destruct r; cbn; naive_solver. Qed.

Section AuthProofs.
Context `{NostrCrypto} `{GoUnicode} `{GoJson} `{GoURLs}.

(** ** Replay *)

(** The accepted proofs of a sequence of requests, with their times. *)
Fixpoint accepted (seen : Seen) (l : list Request) : list (Z * Event) :=
  match l with
  | [] => []
  | q :: r =>
    let '(seen', res) := verifyNIP98 seen (q_now q) (q_header q) (q_url q) (q_method q) (q_body q) (q_check q) in
    match res with Ok e => (q_now q, e) :: accepted seen' r | Err _ => accepted seen' r end
  end.

(** Two accepted proofs with one identifier are over a minute apart. *)
Definition apart (a b : Z * Event) : Prop := ID a.2 = ID b.2 → tokenSkew < b.1 - a.1.

(** Every proof accepted less than a minute ago is still remembered. *)
Definition remembers (seen : Seen) (acc : list (Z * Event)) (last : Z) : Prop :=
  ∀ t e, (t, e) ∈ acc → t ≤ last ∧ (last - t ≤ tokenSkew → ∃ t', seen !! ID e = Some t' ∧ t ≤ t').

Lemma mark_remembers seen acc last now id seen' r :
  last ≤ now → remembers seen acc last → mark seen id now = (seen', r) → remembers seen' acc now.
Proof.
  intros Hle Hr Hm t e Hin. destruct (Hr t e Hin) as [Ht Hkeep]. split; [lia|]. intros Hnow.
  destruct Hkeep as (t' & Hs & Ht'); [lia|].
  assert (filter (λ kv : string * Z, now - kv.2 <= tokenSkew) seen !! ID e = Some t') as Hk.
  { apply map_lookup_filter_Some. split; [done|]. cbn. lia. }
  unfold mark in Hm. cbv zeta in Hm. destruct (filter _ seen !! id) as [?|] eqn:Eid; injection Hm as <- <-.
  - by exists t'.
  - destruct (decide (ID e = id)) as [<-|Hne]; [congruence|]. rewrite lookup_insert_ne by done. by exists t'.
Qed.

Lemma mark_fresh seen acc last now id seen' t e :
  last ≤ now → remembers seen acc last → mark seen id now = (seen', Ok tt) →
  (t, e) ∈ acc → ID e = id → tokenSkew < now - t.
Proof.
  intros Hle Hr Hm Hin <-. destruct (Z_lt_ge_dec tokenSkew (now - t)) as [|Hge]; [done|].
  destruct (Hr t e Hin) as [Ht Hkeep]. destruct Hkeep as (t' & Hs & Ht'); [lia|].
  unfold mark in Hm. cbv zeta in Hm.
  assert (filter (λ kv : string * Z, now - kv.2 <= tokenSkew) seen !! ID e = Some t') as Hk.
  { apply map_lookup_filter_Some. split; [done|]. cbn. lia. }
  by rewrite Hk in Hm.
Qed.

Lemma mark_Ok_seen seen id now seen' : mark seen id now = (seen', Ok tt) → seen' !! id = Some now.
Proof.
  unfold mark. cbv zeta. destruct (_ !! id); [done|]. intros [= <-]. by rewrite lookup_insert_eq.
Qed.

Lemma accepted_apart l seen acc last :
  Sorted Z.le (last :: (q_now <$> l)) → remembers seen acc last → StronglySorted apart acc →
  StronglySorted apart (acc ++ accepted seen l).
Proof.
  revert seen acc last. induction l as [|q l IH]; intros seen acc last Hs Hr Hacc; cbn [accepted].
  - by rewrite app_nil_r.
  - apply Sorted_inv in Hs as [Hs Hhd]. apply HdRel_inv in Hhd. unfold verifyNIP98.
    destruct (nip98_checks _ _ _ _ _ _) as [e|m]; cbn.
    + destruct (mark seen (ID e) (q_now q)) as [seen' [[]|m]] eqn:Em; cbn.
      * replace (acc ++ (q_now q, e) :: accepted seen' l) with ((acc ++ [(q_now q, e)]) ++ accepted seen' l)
          by (by rewrite <-app_assoc).
        apply (IH seen' _ (q_now q)); [done| |].
        -- intros t e' Hin. apply elem_of_app in Hin as [Hin|Hin].
           ++ by apply (mark_remembers _ _ _ _ _ _ _ Hhd Hr Em).
           ++ apply list_elem_of_singleton in Hin. injection Hin as -> ->. split; [lia|]. intros _.
              exists (q_now q). split; [by eapply mark_Ok_seen|lia].
        -- apply StronglySorted_app_2; [|done|repeat constructor].
           intros [t e'] x Hin ->%list_elem_of_singleton E.
           by apply (mark_fresh _ _ _ _ _ _ _ _ Hhd Hr Em Hin).
      * apply (IH seen' _ (q_now q)); [done| |done]. by apply (mark_remembers _ _ _ _ _ _ _ Hhd Hr Em).
    + apply (IH seen _ (q_now q)); [done| |done]. intros t e Hin. destruct (Hr t e Hin) as [Ht Hkeep].
      split; [lia|]. intros Hnow. apply Hkeep. lia.
Qed.

(** C30: whatever requests arrive, in whatever order of headers, URLs and
    bodies, a NIP-98 proof is accepted at most once per minute: two accepted
    proofs with one identifier are more than a minute apart. *)
Theorem nip98_single_use l :
  Sorted Z.le (q_now <$> l) → StronglySorted apart (accepted ∅ l).
Proof.
  intros Hs. destruct l as [|q l]; [constructor|].
  apply (accepted_apart (q :: l) ∅ [] (q_now q)); [|by intros t e ?%not_elem_of_nil|constructor].
  constructor; [done|]. constructor. cbn. lia.
Qed.

(** ** Challenges *)

(** A run of the challenge manager over [active], as a log. *)
Fixpoint challenge_log (relayURL : string) (active : gmap string Z) (ops : list ChallengeOp) : list ChallengeLog :=
  match ops with
  | [] => []
  | OpIssue now c :: r => Issued now c :: challenge_log relayURL (Issue active now c) r
  | OpVerify now e :: r =>
    let '(active', res) := VerifyChallenge relayURL active now e in
    match res with
    | Ok _ => Passed now e :: challenge_log relayURL active' r
    | Err _ => challenge_log relayURL active' r
    end
  end.

(** The log shows [c] issued at [at_] and not used since. *)
Definition open_challenge (log : list ChallengeLog) (c : string) (at_ : Z) : Prop :=
  ∃ before after, log = before ++ Issued at_ c :: after ∧
    ∀ t e, Passed t e ∈ after → Tag e "challenge" ≠ c.

Definition active_open (log : list ChallengeLog) (active : gmap string Z) : Prop :=
  ∀ c expires, active !! c = Some expires → open_challenge log c (expires - tokenSkew).

Lemma open_challenge_snoc log c at_ x :
  open_challenge log c at_ → (∀ t e, x = Passed t e → Tag e "challenge" ≠ c) → open_challenge (log ++ [x]) c at_.
Proof.
  intros (before & after & -> & Hno) Hx. exists before, (after ++ [x]). split; [by rewrite <-app_assoc|].
  intros t e Hin. apply elem_of_app in Hin as [Hin|Hin]; [by eapply Hno|].
  apply list_elem_of_singleton in Hin. by apply (Hx t).
Qed.

Lemma active_open_prune log active now : active_open log active → active_open log (prune active now).
Proof. intros Ha c x Hc. apply map_lookup_filter_Some in Hc as [Hc _]. by apply Ha. Qed.

Lemma active_open_issue log active now c :
  active_open log active → active_open (log ++ [Issued now c]) (Issue active now c).
Proof.
  intros Ha d x Hd. unfold Issue in Hd. destruct (decide (d = c)) as [->|Hne].
  - rewrite lookup_insert_eq in Hd. injection Hd as <-. exists log, [].
    replace (now + tokenSkew - tokenSkew) with now by lia. split; [done|]. by intros t e ?%not_elem_of_nil.
  - rewrite lookup_insert_ne in Hd by done. apply open_challenge_snoc; [|done].
    by apply (active_open_prune _ _ now Ha).
Qed.

(** What the acceptance of an AUTH event rests on. *)
Definition authenticated (relayURL : string) (log : list ChallengeLog) (now : Z) (e : Event) : Prop :=
  Validate e = Ok tt ∧ Kind e = 22242 ∧ Tag e "relay" = relayURL ∧ outsideSkew now (CreatedAt e) = false ∧
  ∃ at_, open_challenge log (Tag e "challenge") at_ ∧ now < at_ + tokenSkew.

Lemma VerifyChallenge_Ok relayURL log active now e active' :
  active_open log active → VerifyChallenge relayURL active now e = (active', Ok tt) →
  authenticated relayURL log now e ∧ active_open (log ++ [Passed now e]) active'.
Proof.
  intros Ha Hv. unfold VerifyChallenge in Hv. destruct (challenge_checks relayURL now e) as [[]|m] eqn:Ec; [|done].
  destruct (prune active now !! Tag e "challenge") as [x|] eqn:Ep; [|done]. injection Hv as <-. split.
  - unfold challenge_checks in Ec. apply result_bind_Ok in Ec as ([] & Hval & Ec).
    rewrite !auth_guard_bind, auth_guard_tt in Ec. destruct Ec as (Hk & Hs & Hr).
    apply (proj1 (auth_wrap_Ok _ _)) in Hval. split_and!; [done| | |done|].
    + by apply negb_false_iff, Z.eqb_eq in Hk.
    + by apply negb_false_iff, String.eqb_eq in Hr.
    + exists (x - tokenSkew). apply map_lookup_filter_Some in Ep as [Ep Hx]. cbn in Hx. split; [by apply Ha|lia].
  - intros c y Hc. apply lookup_delete_Some in Hc as [Hne Hc]. apply open_challenge_snoc.
    + by apply (active_open_prune _ _ now Ha).
    + intros t e' [= <- <-]. done.
Qed.

Lemma VerifyChallenge_Err relayURL log active now e active' m :
  active_open log active → VerifyChallenge relayURL active now e = (active', Err m) → active_open log active'.
Proof.
  intros Ha Hv. unfold VerifyChallenge in Hv. destruct (challenge_checks relayURL now e) as [?|?]; [|by injection Hv as <- _].
  destruct (prune active now !! _); [done|]. injection Hv as <- _. by apply active_open_prune.
Qed.

Lemma challenge_log_ok relayURL ops log active :
  active_open log active →
  (∀ before t e after, log = before ++ Passed t e :: after → authenticated relayURL before t e) →
  ∀ before t e after, log ++ challenge_log relayURL active ops = before ++ Passed t e :: after →
    authenticated relayURL before t e.
Proof.
  assert (∀ l x before t e after, l ++ [x] = before ++ Passed t e :: after →
    (∃ after', l = before ++ Passed t e :: after') ∨ l = before ∧ x = Passed t e) as Hsnoc.
  { intros l x before t e after E. destruct after as [|y after _] using rev_ind.
    - apply app_inj_tail in E as [-> ->]. by right.
    - left. exists after. rewrite app_comm_cons, app_assoc in E. by apply app_inj_tail in E as [-> _]. }
  revert log active. induction ops as [|[now c|now e0] ops IH]; intros log active Ha Hlog; cbn [challenge_log].
  - by rewrite app_nil_r.
  - replace (log ++ Issued now c :: _) with ((log ++ [Issued now c]) ++ challenge_log relayURL (Issue active now c) ops)
      by (by rewrite <-app_assoc).
    apply IH; [by apply active_open_issue|]. intros before t e after E.
    apply Hsnoc in E as [(after' & E)|[_ ?]]; [by apply (Hlog _ _ _ _ E)|done].
  - destruct (VerifyChallenge relayURL active now e0) as [active' [[]|m]] eqn:Ev.
    + destruct (VerifyChallenge_Ok _ _ _ _ _ _ Ha Ev) as [Hau Ha'].
      replace (log ++ Passed now e0 :: _) with ((log ++ [Passed now e0]) ++ challenge_log relayURL active' ops)
        by (by rewrite <-app_assoc).
      apply IH; [done|]. intros before t e after E.
      apply Hsnoc in E as [(after' & E)|[<- [= <- <-]]]; [by apply (Hlog _ _ _ _ E)|done].
    + apply IH; [by apply (VerifyChallenge_Err _ _ _ _ _ _ _ Ha Ev)|done].
Qed.

(** Whatever challenges are issued and whatever AUTH events arrive, an
    accepted AUTH event is valid, names this relay, and answers a challenge that
    was issued less than a minute before and that no accepted AUTH event has
    used since: a challenge authenticates at most once. *)
Theorem challenge_single_use relayURL ops before t e after :
  challenge_log relayURL ∅ ops = before ++ Passed t e :: after → authenticated relayURL before t e.
Proof.
  intros E. apply (challenge_log_ok relayURL ops [] ∅) with (after := after); [|by intros [] ????|done].
  intros c x Hc. by rewrite lookup_empty in Hc.
Qed.

(** ** Who asks *)

(** A proof of the right kind for the request, carried by the header. *)
Definition request_proof (now : Z) (header rawURL method body action blobHash : string) (e : Event) : Prop :=
  Validate e = Ok tt ∧
  (Kind e = 24242 ∧ action ≠ "" ∧ Tag e "t" = action ∧ unix_seconds now < Expiration e ∧
     CreatedAt e ≤ unix_seconds now ∧ (blobHash ≠ "" → names_blob e blobHash = true) ∨
   Kind e = 27235 ∧ outsideSkew now (CreatedAt e) = false ∧ ToUpper (Tag e "method") = ToUpper method ∧
     (∃ url, normalizedRequestURL rawURL = Some url ∧ normalizedRequestURL (Tag e "u") = Some url) ∧
     (body ≠ "" ∨ Tag e "payload" ≠ "" → Tag e "payload" = hashBytes (bytes_of body))).

Lemma nip98_checks_Ok now header rawURL method body e action blobHash :
  nip98_checks now header rawURL method body true = Ok e →
  request_proof now header rawURL method body action blobHash e.
Proof.
  unfold nip98_checks. intros Hc. apply result_bind_Ok in Hc as (e' & _ & Hc).
  apply result_bind_Ok in Hc as ([] & Hv & Hc). apply (proj1 (auth_wrap_Ok _ _)) in Hv.
  rewrite !auth_guard_bind in Hc. destruct Hc as (Hk & Hs & Hc). apply result_bind_Ok in Hc as ([] & Hu & Hc).
  rewrite !auth_guard_bind in Hc. destruct Hc as (Hm & Hp & Hc). apply (inj Ok) in Hc as ->. split; [done|right].
  split_and!; [by apply negb_false_iff, Z.eqb_eq in Hk|done|by apply negb_false_iff, String.eqb_eq in Hm| |].
  - unfold sameRequestURL in Hu. destruct (normalizedRequestURL rawURL) as [want|]; [|done].
    destruct (normalizedRequestURL (Tag e "u")) as [got|]; [|done]. apply auth_guard_tt, negb_false_iff, String.eqb_eq in Hu.
    exists want. by subst.
  - rewrite andb_true_l in Hp. intros Hne. apply andb_false_iff in Hp as [Hp|Hp].
    + apply orb_false_iff in Hp as [Hb Hpl]. apply negb_false_iff, String.eqb_eq in Hb, Hpl. by destruct Hne.
    + by apply negb_false_iff, String.eqb_eq in Hp.
Qed.

Lemma verifyBlossom_Ok now header action e rawURL method body blobHash :
  VerifyBlossom now header action = Ok e → action ≠ "" → (blobHash ≠ "" → names_blob e blobHash = true) →
  request_proof now header rawURL method body action blobHash e.
Proof.
  unfold VerifyBlossom, verifyBlossom. intros Hc Ha Hb. apply result_bind_Ok in Hc as (e' & _ & Hc).
  apply result_bind_Ok in Hc as ([] & Hv & Hc). apply (proj1 (auth_wrap_Ok _ _)) in Hv.
  rewrite !auth_guard_bind in Hc. destruct Hc as (Hk & Ht & _ & Hx & Hf & _ & _ & Hc). apply (inj Ok) in Hc as ->.
  split; [done|left]. apply orb_false_iff in Hx as [_ Hx]. apply Z.leb_gt in Hx. apply Z.ltb_ge in Hf.
  apply negb_false_iff, Z.eqb_eq in Hk. apply negb_false_iff, String.eqb_eq in Ht. by split_and!.
Qed.

(** The identity a request is attributed to is the signer of a valid
    event that was made for this request: a Blossom authorization for the
    action and the blob that has not expired, or a NIP-98 proof of the last
    minute for the same URL and method whose payload hash is that of the body.
    A request without an authorization header has no identity. *)
Theorem WhoAsks_sound seen now header rawURL method body action blobHash seen' keys :
  WhoAsks seen now header rawURL method body action blobHash = (seen', Ok keys) →
  TrimSpace header = "" ∧ keys = [] ∧ seen' = seen ∨
  ∃ e, keys = [PubKey e] ∧ request_proof now header rawURL method body action blobHash e ∧
    (Kind e = 27235 → seen' !! ID e = Some now).
Proof.
  unfold WhoAsks. destruct (String.eqb_spec (TrimSpace header) "") as [Hh|Hh]; [intros [= <- <-]; by left|].
  destruct (decodeToken header "authorization") as [e0|m]; [|done].
  destruct (Kind e0 =? 24242); intros Hw; right.
  - injection Hw as <- Hw. apply auth_guard_bind in Hw as [Ha Hw]. apply String.eqb_neq in Ha.
    apply result_bind_Ok in Hw as (e & Hv & Hw). apply auth_guard_bind in Hw as [Hb Hw]. apply (inj Ok) in Hw as <-.
    exists e. split; [done|].
    assert (request_proof now header rawURL method body action blobHash e) as Hp.
    { apply verifyBlossom_Ok; [done..|]. intros Hne. apply String.eqb_neq in Hne. rewrite Hne in Hb.
      by apply negb_false_iff in Hb. }
    split; [done|]. intros Hk. destruct Hp as [_ [(Hk' & _)|(_ & _)]]; [congruence|].
    exfalso. unfold VerifyBlossom, verifyBlossom in Hv. apply result_bind_Ok in Hv as (e' & _ & Hv).
    apply result_bind_Ok in Hv as ([] & _ & Hv). rewrite !auth_guard_bind in Hv.
    destruct Hv as (Hk' & _ & _ & _ & _ & _ & _ & Hv). apply (inj Ok) in Hv as ->. by rewrite Hk in Hk'.
  - unfold VerifyNIP98, verifyNIP98 in Hw.
    destruct (nip98_checks now header rawURL method body true) as [e|m] eqn:Ec; [|done].
    destruct (mark seen (ID e) now) as [seen1 [[]|m]] eqn:Em; cbn in Hw; [|by injection Hw].
    injection Hw as <- <-. exists e. split; [done|]. split; [by apply nip98_checks_Ok|]. intros _. by eapply mark_Ok_seen.
Qed.
End AuthProofs.

(** ** Witnesses *)

#[local] Instance auth_crypto : NostrCrypto := toy_crypto.
#[local] Instance auth_unicode : GoUnicode := ascii_unicode.

Definition signed (kind created : Z) (tags : list (list string)) : Event :=
  match Sign (mkEvent "" "" created kind (Some tags) "" "") sample_secret with Ok e => e | Err _ => nil_event end.

Definition api_proof : Event := Eval vm_compute in
  signed 27235 1060 [["u"; "https://relay.example/api"]; ["method"; "GET"]].
Definition api_answer : Event := Eval vm_compute in
  signed 22242 1000 [["relay"; "wss://relay.example"]; ["challenge"; "c1"]].

(** A decoder that knows one text, and URLs that are their own host. *)
#[local] Instance toy_json : GoJson :=
  {| json_parse raw := if String.eqb raw "tok" then Some (JObj (event_members api_proof)) else None |}.
#[local] Instance toy_urls : GoURLs :=
  {| parse_url s := Some (mkURLParts "https" s s "" false "" "" "" ""); path_unescape := Some; url_at_path u _ p := p |}.

(** "tok" in base64 *)
Definition api_header : string := "Nostr dG9r".
Definition at_second (s : Z) : Z := s * 1000000000.
Definition api_request (s : Z) : Request :=
  mkRequest (at_second s) api_header "https://relay.example/api" "GET" "" true.

(** A proof dated a minute ahead is used, refused, and usable again after the
    replay window. *)
Example replay_window :
  (λ a, a.1) <$> accepted ∅ (api_request <$> [1000; 1060; 1061]) = [at_second 1000; at_second 1061].
Proof. vm_compute. reflexivity. Qed.

Lemma nip98_single_use_witness : StronglySorted apart (accepted ∅ (api_request <$> [1000; 1060; 1061])).
Proof. apply nip98_single_use. repeat constructor; vm_compute; discriminate. Defined.

Lemma challenge_single_use_witness :
  authenticated "wss://relay.example" [Issued (at_second 990) "c1"] (at_second 1000) api_answer.
Proof.
  apply (challenge_single_use "wss://relay.example"
    [OpIssue (at_second 990) "c1"; OpVerify (at_second 1000) api_answer; OpVerify (at_second 1001) api_answer]
    [Issued (at_second 990) "c1"] (at_second 1000) api_answer []).
  vm_compute. reflexivity.
Defined.

Lemma WhoAsks_sound_witness : ∃ e, PubKey e = PubKey api_proof ∧
  request_proof (at_second 1000) api_header "https://relay.example/api" "GET" "" "" "" e.
Proof.
  destruct (WhoAsks_sound ∅ (at_second 1000) api_header "https://relay.example/api" "GET" "" "" ""
    {[ID api_proof := at_second 1000]} [PubKey api_proof]) as [(Hh & _)|(e & Hk & Hp & _)].
  - vm_compute. reflexivity.
  - vm_compute in Hh. discriminate.
  - exists e. split; [by injection Hk|exact Hp].
Defined.
