(* ===== verification/Catalog.v ===== *)
(** * internal/catalog: the tenants of a process

    The three tables of catalog.db with the directories of the tenants,
    and the operations of catalog.go, hosts.go, delete.go, auth.go and
    validate.go.  Times are nanoseconds, except in [ConsumeAuth]; new
    identifiers are arguments.  Directories are the set of their paths, below
    a data root without trailing slash.  url.Parse is [GoURL] and net.ParseIP is
    [GoNet].  Cancelled contexts, I/O failures, the schema migrations and the
    closed flag are outside the model. *)

From S2P Require Import Prelude GoLib GoCodec GoLemmas GoStrings.

Class GoNet := { parse_ip : string → bool }.

Inductive Status := StatusCreating | StatusReady | StatusDisabled | StatusDeleting.
#[export] Instance Status_eq_dec : EqDecision Status.
Proof. solve_decision. Defined.

Definition status_text (s : Status) : string :=
  match s with StatusCreating => "creating" | StatusReady => "ready" | StatusDisabled => "disabled" | StatusDeleting => "deleting" end.

Definition ErrNotFound : string := "catalog item not found".
Definition ErrNameTaken : string := "tenant name is already in use".
Definition ErrHostTaken : string := "hostname is already in use".
Definition ErrOwnerMismatch : string := "current tenant owner does not match".
Definition ErrInvalidTransition : string := "invalid tenant status transition".
Definition ErrHostMappingNotFound : string := "host mapping not found".

Record CreateOptions := mkCreate { co_Name : string; co_Owner : string; co_Template : string; co_Source : string }.

Record Tenant := mkTenant {
  tn_ID : string; tn_Name : string; tn_Owner : string; tn_Template : string; tn_Source : string; tn_Status : Status;
  tn_Host : option string; tn_CreatedAt : Z; tn_UpdatedAt : Z }.
Record HostMapping := mkHost {
  hm_TenantID : string; hm_Host : string; hm_Site : string; hm_Status : string; hm_CreatedAt : Z; hm_UpdatedAt : Z }.
Record Deletion := mkDeletion { dl_id : string; dl_root : string; dl_staging : string; dl_started : Z }.

Record Catalog := mkCatalog {
  c_tenants : list Tenant; c_hosts : list HostMapping; c_deletions : list Deletion; c_nonces : gmap string Z; c_files : gset string }.

Definition with_tenants (f : list Tenant → list Tenant) (c : Catalog) : Catalog :=
  mkCatalog (f (c_tenants c)) (c_hosts c) (c_deletions c) (c_nonces c) (c_files c).
Definition with_hosts (f : list HostMapping → list HostMapping) (c : Catalog) : Catalog :=
  mkCatalog (c_tenants c) (f (c_hosts c)) (c_deletions c) (c_nonces c) (c_files c).
Definition with_deletions (f : list Deletion → list Deletion) (c : Catalog) : Catalog :=
  mkCatalog (c_tenants c) (c_hosts c) (f (c_deletions c)) (c_nonces c) (c_files c).
Definition with_files (f : gset string → gset string) (c : Catalog) : Catalog :=
  mkCatalog (c_tenants c) (c_hosts c) (c_deletions c) (c_nonces c) (f (c_files c)).

(** COLLATE NOCASE *)
Definition fold_case (s : string) : string := str_map ascii_lower s.
Definition nocase (a b : string) : bool := String.eqb (fold_case a) (fold_case b).

(** ** validate.go *)

Definition hasControl (value : string) : bool := existsb (λ r, (rune_code r <? 32) || (rune_code r =? 127)) (runes value).
Definition any_of (cut : list Z) (s : string) : bool := ContainsAny (containsInt cut) s.

Definition normalizeName (name : string) : result string :=
  let name := TrimSpace name in
  guard_err (String.eqb name "" || (128 <? len name) || any_of [47; 92] name || hasControl name)
    "tenant name must be non-empty, safe, and at most 128 characters";;
  mret name.

Definition label_char (b : Z) : bool := in_range 97 b 122 || in_range 48 b 57.
(** [^[a-z0-9](?:[a-z0-9-]{0,61}[a-z0-9])?$] *)
Definition labelPattern (label : string) : bool :=
  negb (String.eqb label "") && (len label <=? 63) && forallb (λ b, label_char b || (b =? 45)) (bytes_of label)
  && label_char (byte_at label 0) && label_char (byte_at label (String.length label - 1)).

Section Validate.
Context `{GoUnicode} `{GoURL} `{GoNet} `{GoPrint}.

Definition normalizeOwner (owner : string) : result string :=
  let msg := "owner must be a lowercase 32-byte hex public key" in
  guard_err (negb (len owner =? 64) || negb (String.eqb owner (ToLower owner))) msg;;
  match hex_decode owner with
  | Some decoded => guard_err (negb (Z.of_nat (List.length decoded) =? 32)) msg;; mret owner
  | None => Err msg
  end.

Definition normalizeTemplate (template : string) : result string :=
  let template := TrimSpace template in
  if String.eqb template "" then mret "default"
  else guard_err ((64 <? len template) || any_of [47; 92] template || hasControl template)
         "tenant template must be safe and at most 64 characters";;
       mret template.

Definition normalizeSource (source : string) : result string :=
  let source := TrimSpace source in
  if String.eqb source "" then mret ""
  else guard_err (match url_parse source with
         | Some u => String.eqb (u_host u) "" || negb (contains ["http"; "https"; "ws"; "wss"] (u_scheme u)) || u_user u
         | None => true
         end) "source must be an http, https, ws, or wss relay URL";;
       mret source.

Definition normalizeHost (host : string) : result string :=
  let host := TrimSuffix (ToLower (TrimSpace host)) "." in
  guard_err (String.eqb host "" || (253 <? len host) || any_of [47; 92; 58; 64; 63; 35] host || hasControl host)
    "hostname must be a normalized DNS name";;
  if parse_ip host then mret host
  else match List.find (λ label, negb (labelPattern label)) (Split host (char 46)) with
       | Some label => Err ("invalid hostname label " +:+ Quote label)
       | None => mret host
       end.
End Validate.

(** ** Directories *)

Definition under (p q : string) : bool := String.eqb q p || HasPrefix q (p +:+ "/").
Definition move_path (a b q : string) : string := if under a q then b +:+ drop_str (String.length a) q else q.

Definition Stat (p : string) (files : gset string) : bool := bool_decide (p ∈ files).
Definition MkdirAll (p : string) (files : gset string) : gset string := {[ p ]} ∪ files.
Definition RemoveAll (p : string) (files : gset string) : gset string := filter (λ q, under p q = false) files.
(** A directory is not renamed onto one that is not empty. *)
Definition Rename (a b : string) (files : gset string) : result (gset string) :=
  guard_err (bool_decide (filter (λ q, HasPrefix q (b +:+ "/") = true) files ≠ ∅)) "file exists";;
  mret (set_map (move_path a b) files).

Definition stageTenant (root staging : string) (files : gset string) : result (gset string) :=
  if Stat root files then Rename root staging files else mret files.

(** ** catalog.go *)

(** [UPDATE ... WHERE] and the rows it affected. *)
Definition update_rows {A} (p : A → bool) (f : A → A) (l : list A) : list A := (λ x, if p x then f x else x) <$> l.
Definition affected {A} (p : A → bool) (l : list A) : Z := Z.of_nat (List.length (List.filter p l)).

Definition has_id (id : string) (t : Tenant) : bool := String.eqb (tn_ID t) id.
Definition is_status (s : Status) (t : Tenant) : bool := bool_decide (tn_Status t = s).
Definition set_status (s : Status) (now : Z) (t : Tenant) : Tenant :=
  mkTenant (tn_ID t) (tn_Name t) (tn_Owner t) (tn_Template t) (tn_Source t) s (tn_Host t) (tn_CreatedAt t) now.
Definition set_owner (owner : string) (now : Z) (t : Tenant) : Tenant :=
  mkTenant (tn_ID t) (tn_Name t) owner (tn_Template t) (tn_Source t) (tn_Status t) (tn_Host t) (tn_CreatedAt t) now.
Definition set_host (host : option string) (now : Z) (t : Tenant) : Tenant :=
  mkTenant (tn_ID t) (tn_Name t) (tn_Owner t) (tn_Template t) (tn_Source t) (tn_Status t) host (tn_CreatedAt t) now.
Definition host_is (host : string) (t : Tenant) : bool :=
  match tn_Host t with Some h => nocase h host | None => false end.

Section Catalog.
Context `{GoUnicode} `{GoURL} `{GoNet} `{GoPrint}.
Variable dataRoot : string.

Definition tenant_root (id : string) : string := dataRoot +:+ "/tenants/" +:+ id.
Definition tenant_staging (id : string) : string := dataRoot +:+ "/tenants/.deleting-" +:+ id.
Definition tenant_dirs (id : string) : list string := [tenant_root id; tenant_root id +:+ "/blobs"; tenant_root id +:+ "/git"].
Definition makeTenantDirs (id : string) (files : gset string) : gset string := fold_left (flip MkdirAll) (tenant_dirs id) files.

(** [Create] up to its INSERT, and the directories after it. *)
Definition Create_insert (now : Z) (id : string) (options : CreateOptions) (c : Catalog) : Catalog * result Tenant :=
  match (name ← normalizeName (co_Name options);
         owner ← normalizeOwner (co_Owner options);
         template ← normalizeTemplate (co_Template options);
         source ← normalizeSource (co_Source options);
         mret (mkTenant id name owner template source StatusCreating None now now)) with
  | Err e => (c, Err e)
  | Ok t =>
    if existsb (λ u, has_id id u || nocase (tn_Name u) (tn_Name t)) (c_tenants c) then (c, Err ErrNameTaken)
    else (with_tenants (λ l, l ++ [t]) c, Ok t)
  end.
Definition Create (now : Z) (id : string) (options : CreateOptions) (c : Catalog) : Catalog * result Tenant :=
  match Create_insert now id options c with
  | (c', Err e) => (c', Err e)
  | (c', Ok t) => (with_files (makeTenantDirs id) c', Ok t)
  end.

Definition transition (now : Z) (id : string) (from to : Status) (c : Catalog) : Catalog * result unit :=
  let p t := has_id id t && is_status from t in
  let c' := with_tenants (update_rows p (set_status to now)) c in
  if affected p (c_tenants c) =? 1 then (c', mret tt)
  else match List.find (has_id id) (c_tenants c') with
       | None => (c', Err ErrNotFound)
       | Some t => (c', Err (ErrInvalidTransition +:+ ": " +:+ status_text (tn_Status t) +:+ " to " +:+ status_text to))
       end.
Definition MarkReady (now : Z) (id : string) := transition now id StatusCreating StatusReady.
Definition Disable (now : Z) (id : string) := transition now id StatusReady StatusDisabled.
Definition Enable (now : Z) (id : string) := transition now id StatusDisabled StatusReady.

Definition changedOrNotFound (count : Z) : result unit := guard_err (count =? 0) ErrNotFound.

Definition UpdateOwner (now : Z) (id owner : string) (c : Catalog) : Catalog * result unit :=
  match normalizeOwner owner with
  | Err e => (c, Err e)
  | Ok owner => (with_tenants (update_rows (has_id id) (set_owner owner now)) c, changedOrNotFound (affected (has_id id) (c_tenants c)))
  end.

Definition TransferOwner (now : Z) (id currentOwner nextOwner : string) (c : Catalog) : Catalog * result unit :=
  match (current ← normalizeOwner currentOwner; next ← normalizeOwner nextOwner; mret (current, next)) with
  | Err e => (c, Err e)
  | Ok (current, next) =>
    let p t := has_id id t && String.eqb (tn_Owner t) current in
    let c' := with_tenants (update_rows p (set_owner next now)) c in
    if affected p (c_tenants c) =? 1 then (c', mret tt)
    else (c', if existsb (has_id id) (c_tenants c') then Err ErrOwnerMismatch else Err ErrNotFound)
  end.

(** The check of [SetHost] and its UPDATE are separate statements. *)
Definition SetHost_check (host : string) (c : Catalog) : result unit :=
  guard_err (existsb (λ m, nocase (hm_Host m) host) (c_hosts c)) ErrHostTaken.
Definition SetHost_update (now : Z) (id host : string) (c : Catalog) : Catalog * result unit :=
  if existsb (has_id id) (c_tenants c) && existsb (λ t, negb (has_id id t) && host_is host t) (c_tenants c)
  then (c, Err ErrHostTaken)
  else (with_tenants (update_rows (has_id id) (set_host (Some host) now)) c, changedOrNotFound (affected (has_id id) (c_tenants c))).
Definition SetHost (now : Z) (id host : string) (c : Catalog) : Catalog * result unit :=
  match (host ← normalizeHost host; SetHost_check host c;; mret host) with
  | Err e => (c, Err e)
  | Ok host => SetHost_update now id host c
  end.

Definition ClearHost (now : Z) (id : string) (c : Catalog) : Catalog * result unit :=
  (with_tenants (update_rows (has_id id) (set_host None now)) c, changedOrNotFound (affected (has_id id) (c_tenants c))).

Definition get (p : Tenant → bool) (c : Catalog) : result Tenant :=
  match List.find p (c_tenants c) with Some t => mret t | None => Err ErrNotFound end.
Definition GetByID (id : string) (c : Catalog) : result Tenant := get (has_id id) c.
Definition GetByName (name : string) (c : Catalog) : result Tenant :=
  name ← normalizeName name; get (λ t, nocase (tn_Name t) name) c.

Definition hostMapping (tenantID host : string) (c : Catalog) : result HostMapping :=
  match List.find (λ m, nocase (hm_Host m) host && (String.eqb tenantID "" || String.eqb (hm_TenantID m) tenantID)) (c_hosts c) with
  | Some m => mret m
  | None => Err ErrHostMappingNotFound
  end.

Definition ResolveHost (host : string) (c : Catalog) : result Tenant :=
  host ← normalizeHost host;
  match get (host_is host) c with
  | Ok t => mret t
  | Err e =>
    if negb (String.eqb e ErrNotFound) then Err e
    else match List.find (λ m, nocase (hm_Host m) host) (c_hosts c) with
         | Some m => GetByID (hm_TenantID m) c
         | None => Err ErrNotFound
         end
  end.

Definition tenant_leb (a b : Tenant) : bool := by_time_key (tn_CreatedAt a, tn_ID a) (tn_CreatedAt b, tn_ID b).
Definition List_tenants (c : Catalog) : list Tenant := sort_by tenant_leb (c_tenants c).

(** ** hosts.go *)

Definition AddHost_check (tenantID host : string) (c : Catalog) : result unit :=
  guard_err (String.eqb tenantID "") "tenant id is required";;
  _ ← GetByID tenantID c;
  guard_err (existsb (host_is host) (c_tenants c)) ErrHostTaken.
(** The INSERT fails on the primary key and on the foreign key alike. *)
Definition AddHost_insert (now : Z) (tenantID host site : string) (c : Catalog) : Catalog * result HostMapping :=
  let m := mkHost tenantID host site "configured" now now in
  if existsb (λ m', nocase (hm_Host m') host) (c_hosts c) || negb (existsb (has_id tenantID) (c_tenants c))
  then (c, Err ErrHostTaken)
  else (with_hosts (λ l, l ++ [m]) c, mret m).
Definition AddHost (now : Z) (tenantID host site : string) (c : Catalog) : Catalog * result HostMapping :=
  match (normal ← normalizeHost host; AddHost_check tenantID normal c;; mret normal) with
  | Err e => (c, Err e)
  | Ok normal => AddHost_insert now tenantID normal site c
  end.

Definition mapping_of (tenantID host : string) (m : HostMapping) : bool := String.eqb (hm_TenantID m) tenantID && nocase (hm_Host m) host.
Definition set_site (site : string) (now : Z) (m : HostMapping) : HostMapping :=
  mkHost (hm_TenantID m) (hm_Host m) site (hm_Status m) (hm_CreatedAt m) now.

Definition SetHostSite (now : Z) (tenantID host site : string) (c : Catalog) : Catalog * result HostMapping :=
  match normalizeHost host with
  | Err e => (c, Err e)
  | Ok normal =>
    let c' := with_hosts (update_rows (mapping_of tenantID normal) (set_site site now)) c in
    if negb (affected (mapping_of tenantID normal) (c_hosts c) =? 1) then (c', Err ErrHostMappingNotFound)
    else (c', hostMapping tenantID normal c')
  end.

Definition RemoveHost (tenantID host : string) (c : Catalog) : Catalog * result unit :=
  match normalizeHost host with
  | Err e => (c, Err e)
  | Ok normal =>
    (with_hosts (List.filter (λ m, negb (mapping_of tenantID normal m))) c,
     guard_err (negb (affected (mapping_of tenantID normal) (c_hosts c) =? 1)) ErrHostMappingNotFound)
  end.

(** The NOCASE column orders by its folded text. *)
Definition ListHosts (tenantID : string) (c : Catalog) : list HostMapping :=
  sort_by (λ a b, negb (str_ltb (fold_case (hm_Host b)) (fold_case (hm_Host a))))
    (List.filter (λ m, String.eqb (hm_TenantID m) tenantID) (c_hosts c)).
Definition ResolveHostMapping (host : string) (c : Catalog) : result HostMapping :=
  normal ← normalizeHost host; hostMapping "" normal c.

(** ** delete.go *)

Definition beginDeletion (now : Z) (id : string) (c : Catalog) : Catalog * result unit :=
  match List.find (has_id id) (c_tenants c) with
  | None => (c, Err ErrNotFound)
  | Some t =>
    if negb (is_status StatusDisabled t) then (c, Err ErrInvalidTransition)
    else if existsb (λ d, String.eqb (dl_id d) id) (c_deletions c) then (c, Err "record tenant deletion: constraint")
    else (with_deletions (λ l, l ++ [mkDeletion id (tenant_root id) (tenant_staging id) now])
            (with_tenants (update_rows (λ t, has_id id t && is_status StatusDisabled t) (set_status StatusDeleting now)) c), mret tt)
  end.

(** Deleting a tenant row takes its host mappings with it, by the foreign key as by the statement. *)
Definition finishDeletion (id : string) (c : Catalog) : Catalog * result unit :=
  let p t := has_id id t && is_status StatusDeleting t in
  if negb (affected p (c_tenants c) =? 1) then (c, Err ErrNotFound)
  else (with_deletions (List.filter (λ d, negb (String.eqb (dl_id d) id)))
          (with_tenants (List.filter (λ t, negb (p t)))
             (with_hosts (List.filter (λ m, negb (String.eqb (hm_TenantID m) id))) c)), mret tt).

(** Moving the directory out of the way, removing it, and forgetting the tenant. *)
Definition purge (d : Deletion) (c : Catalog) : Catalog * result unit :=
  match stageTenant (dl_root d) (dl_staging d) (c_files c) with
  | Err e => (c, Err e)
  | Ok files => finishDeletion (dl_id d) (with_files (λ _, RemoveAll (dl_staging d) files) c)
  end.

Definition Delete (now : Z) (id : string) (c : Catalog) : Catalog * result unit :=
  match beginDeletion now id c with
  | (c', Err e) => (c', Err e)
  | (c', Ok _) => purge (mkDeletion id (tenant_root id) (tenant_staging id) now) c'
  end.

Fixpoint purge_all (l : list Deletion) (c : Catalog) : Catalog * result unit :=
  match l with
  | [] => (c, mret tt)
  | d :: r => match purge d c with (c', Err e) => (c', Err e) | (c', Ok _) => purge_all r c' end
  end.
Definition recoverDeletions (c : Catalog) : Catalog * result unit :=
  purge_all (sort_by (λ a b, by_time_key (dl_started a, dl_id a) (dl_started b, dl_id b)) (c_deletions c)) c.

(** ** auth.go; times in seconds *)

Definition ConsumeAuth (now : Z) (id : string) (expires : Z) (c : Catalog) : Catalog * result bool :=
  if String.eqb id "" then (c, mret false)
  else
    let nonces := filter (λ kv : string * Z, ¬ (kv.2 < now)) (c_nonces c) in
    let set n := mkCatalog (c_tenants c) (c_hosts c) (c_deletions c) n (c_files c) in
    match nonces !! id with
    | Some _ => (set nonces, mret false)
    | None => (set (<[id := expires]> nonces), mret true)
    end.
End Catalog.
