(* ===== verification/CatalogProps.v ===== *)
(** * internal/catalog: the state of the tenants under every operation

    [cstep] is one database statement (or transaction) or one file-system call
    of the catalog, so its runs are those of any number of processes on one
    catalog, crashes included: the INSERT of a tenant and each of its three
    directories are steps of their own.  The invariant [CInv] holds along them. *)

From S2P Require Import Prelude GoLib GoCodec GoLemmas GoStrings Catalog.

(** ** Rows *)

Section Rows.
Context {A : Type}.
Implicit Types (l : list A) (p : A → bool) (f : A → A).

Lemma elem_update_rows p f l y :
  y ∈ update_rows p f l ↔ ∃ x, x ∈ l ∧ y = if p x then f x else x.
Proof. unfold update_rows. rewrite list_elem_of_fmap. naive_solver. Qed.

Lemma update_rows_key {B} (k : A → B) p f l : (∀ x, k (f x) = k x) → k <$> update_rows p f l = k <$> l.
Proof.
  intros Hk. unfold update_rows. rewrite <-list_fmap_compose. apply list_fmap_ext. intros i x _. cbn. by destruct (p x).
Qed.

Lemma find_Some p l x : List.find p l = Some x → x ∈ l ∧ p x = true.
Proof. intros (? & ?)%List.find_some. by rewrite list_elem_of_In. Qed.

Lemma find_None p l : List.find p l = None → ∀ x, x ∈ l → p x = false.
Proof. intros Hf x Hx. by apply (List.find_none _ _ Hf), list_elem_of_In. Qed.

Lemma find_exists p l x : x ∈ l → p x = true → ∃ y, List.find p l = Some y.
Proof. intros Hx Hp. destruct (List.find p l) as [y|] eqn:E; [eauto|]. by rewrite (find_None p l E x Hx) in Hp. Qed.

(** Exactly one row matches a key that identifies rows. *)
Lemma affected_one {B} (k : A → B) p l x :
  NoDup (k <$> l) → x ∈ l → p x = true → (∀ y, y ∈ l → p y = true → k y = k x) → affected p l = 1.
Proof.
  intros Hn Hx Hp Hk. unfold affected. assert (List.filter p l = [x]) as ->; [|done].
  induction l as [|a l IH]; [by apply elem_of_nil in Hx|]. cbn in *. apply NoDup_cons in Hn as [Ha Hn].
  apply elem_of_cons in Hx as [->|Hx].
  - rewrite Hp. f_equal. apply lfilter_none. intros y Hy. apply not_true_iff_false. intros Hpy. apply Ha.
    rewrite <-(Hk y) by (set_solver || done). by apply list_elem_of_fmap_2.
  - destruct (p a) eqn:Ea; [|apply IH; [done|done|set_solver]]. destruct Ha. rewrite (Hk a) by (set_solver || done). by apply list_elem_of_fmap_2.
Qed.

Lemma affected_pos p l : affected p l ≠ 0 ↔ ∃ x, x ∈ l ∧ p x = true.
Proof.
  unfold affected. split.
  - intros Hn. destruct (List.filter p l) as [|x r] eqn:E; [done|]. exists x. apply elem_of_lfilter. rewrite E. set_solver.
  - intros (x & Hx%elem_of_lfilter). destruct (List.filter p l); [by apply elem_of_nil in Hx|cbn; lia].
Qed.

Lemma lfilter_fmap_NoDup {B} (k : A → B) p l : NoDup (k <$> l) → NoDup (k <$> List.filter p l).
Proof.
  induction l as [|x l IH]; cbn; [done|]. intros [Hx Hn]%NoDup_cons. destruct (p x); [|auto].
  apply NoDup_cons. split; [|auto]. intros (y & E & Hy)%list_elem_of_fmap. apply Hx. rewrite E. apply list_elem_of_fmap_2.
  by apply elem_of_lfilter in Hy as [? _].
Qed.
End Rows.

Lemma nocase_eq a b : nocase a b = true ↔ fold_case a = fold_case b.
Proof. apply String.eqb_eq. Qed.

Lemma has_id_eq id t : has_id id t = true ↔ tn_ID t = id.
Proof. apply String.eqb_eq. Qed.

Lemma is_status_eq s t : is_status s t = true ↔ tn_Status t = s.
Proof. apply bool_decide_eq_true. Qed.

(** ** Paths *)

Definition slash_free (x : string) : Prop := no_char (char 47) x.

Lemma slash_free_cut x y s t :
  slash_free x → slash_free y → x +:+ String (char 47) s = y +:+ String (char 47) t → x = y ∧ s = t.
Proof.
  revert y; induction x as [|a x IH]; intros [|b y] Hx Hy; cbn.
  - by intros [= ->].
  - intros [= <- _]. by apply Forall_cons in Hy as [? _].
  - intros [= -> _]. by apply Forall_cons in Hx as [? _].
  - apply Forall_cons in Hx as [_ Hx]. apply Forall_cons in Hy as [_ Hy]. intros [= -> E]. destruct (IH y Hx Hy E) as (-> & ->). done.
Qed.

Lemma HasPrefix_app s p : HasPrefix s p = true ↔ ∃ t, s = p +:+ t.
Proof.
  unfold HasPrefix. split; [|intros (t & ->); apply prefix_refl_app].
  revert s; induction p as [|a p IH]; intros s; [eauto|]. destruct s as [|b s]; cbn; [done|].
  destruct (ascii_dec a b) as [->|]; [|done]. intros (t & ->)%IH. by exists t.
Qed.

Lemma under_iff p q : under p q = true ↔ q = p ∨ ∃ t, q = p +:+ String (char 47) t.
Proof.
  unfold under. rewrite orb_true_iff, String.eqb_eq, HasPrefix_app. setoid_rewrite str_app_assoc. done.
Qed.

Section Paths.
Variable base : string.

(** Two components below one directory share no path. *)
Lemma under_unique x y q :
  slash_free x → slash_free y → under (base +:+ x) q = true → under (base +:+ y) q = true → x = y.
Proof.
  intros Hx Hy. rewrite !under_iff. intros [->|[t ->]] [E|[t' E]].
  - by apply str_app_inv_head in E.
  - rewrite str_app_assoc in E. apply str_app_inv_head in E. subst x. exfalso.
    unfold slash_free, no_char in Hx. rewrite bytes_of_app in Hx. apply Forall_app in Hx as [_ [? _]%Forall_cons]. done.
  - rewrite str_app_assoc in E. apply str_app_inv_head in E. subst y. exfalso.
    unfold slash_free, no_char in Hy. rewrite bytes_of_app in Hy. apply Forall_app in Hy as [_ [? _]%Forall_cons]. done.
  - rewrite !str_app_assoc in E. apply str_app_inv_head in E. by apply slash_free_cut in E as [-> _].
Qed.

Lemma drop_str_app s t : drop_str (String.length s) (s +:+ t) = t.
Proof. induction s as [|a s IH]; [by destruct t|exact IH]. Qed.

Lemma under_move a b q : under a q = true → under b (move_path a b q) = true.
Proof.
  intros Hu. unfold move_path. rewrite Hu. apply under_iff in Hu as [->|[t ->]]; apply under_iff.
  - left. rewrite <-(str_app_nil_r a) at 2. by rewrite drop_str_app, str_app_nil_r.
  - right. exists t. by rewrite drop_str_app.
Qed.

Lemma under_strict p q : under p q = true → q = p ∨ HasPrefix q (p +:+ "/") = true.
Proof. unfold under. by intros [->%String.eqb_eq|?]%orb_true_iff; [left|right]. Qed.
End Paths.

(** ** Steps and the invariant *)

Section Steps.
Context `{GoUnicode} `{GoURL} `{GoNet} `{GoPrint}.
Variable dataRoot : string.
Local Notation root := (tenant_root dataRoot).
Local Notation staging := (tenant_staging dataRoot).
Implicit Types (c : Catalog) (t : Tenant) (m : HostMapping) (d : Deletion).

(** An identifier as uuid.NewString makes them. *)
Definition plain (id : string) : Prop := slash_free id ∧ HasPrefix id ".deleting-" = false.

(** One statement, transaction or file-system call, by any process. *)
Inductive cstep : Catalog → Catalog → Prop :=
| s_insert now id o c : plain id → id ∉ tn_ID <$> c_tenants c → cstep c (Create_insert now id o c).1
| s_mkdir t made dir rest c : (** one of the three directories, after those before it *)
    t ∈ c_tenants c → tn_Status t = StatusCreating → tenant_dirs dataRoot (tn_ID t) = made ++ dir :: rest →
    (∀ q, q ∈ made → q ∈ c_files c) → cstep c (with_files (MkdirAll dir) c)
| s_ready now id c : cstep c (MarkReady now id c).1
| s_disable now id c : cstep c (Disable now id c).1
| s_enable now id c : cstep c (Enable now id c).1
| s_update_owner now id owner c : cstep c (UpdateOwner now id owner c).1
| s_transfer now id current next c : cstep c (TransferOwner now id current next c).1
| s_set_host now id host c : cstep c (SetHost_update now id host c).1
| s_clear_host now id c : cstep c (ClearHost now id c).1
| s_add_host now id host site c : cstep c (AddHost_insert now id host site c).1
| s_set_site now id host site c : cstep c (SetHostSite now id host site c).1
| s_remove_host id host c : cstep c (RemoveHost id host c).1
| s_begin now id c : cstep c (beginDeletion dataRoot now id c).1
| s_stage d files c :
    d ∈ c_deletions c → stageTenant (dl_root d) (dl_staging d) (c_files c) = Ok files → cstep c (with_files (λ _, files) c)
| s_remove d files c : (** os.RemoveAll, perhaps interrupted *)
    d ∈ c_deletions c → dl_root d ∉ c_files c → RemoveAll (dl_staging d) (c_files c) ⊆ files → files ⊆ c_files c →
    cstep c (with_files (λ _, files) c)
| s_finish d c :
    d ∈ c_deletions c → dl_root d ∉ c_files c → RemoveAll (dl_staging d) (c_files c) = c_files c →
    cstep c (finishDeletion (dl_id d) c).1
| s_consume now id expires c : cstep c (ConsumeAuth now id expires c).1.

Record CInv (c : Catalog) : Prop := mkCInv {
  ci_ids : NoDup (tn_ID <$> c_tenants c);
  ci_plain : ∀ t, t ∈ c_tenants c → plain (tn_ID t);
  ci_names : NoDup (fold_case ∘ tn_Name <$> c_tenants c);
  ci_primary : ∀ t t' h, t ∈ c_tenants c → t' ∈ c_tenants c → host_is h t = true → host_is h t' = true → tn_ID t = tn_ID t';
  ci_maps : NoDup (fold_case ∘ hm_Host <$> c_hosts c);
  ci_fk : ∀ m, m ∈ c_hosts c → hm_TenantID m ∈ tn_ID <$> c_tenants c;
  ci_dels : NoDup (dl_id <$> c_deletions c);
  ci_intent : ∀ id, id ∈ dl_id <$> c_deletions c ↔ ∃ t, t ∈ c_tenants c ∧ tn_ID t = id ∧ tn_Status t = StatusDeleting;
  ci_paths : ∀ d, d ∈ c_deletions c → dl_root d = root (dl_id d) ∧ dl_staging d = staging (dl_id d);
  ci_owned : ∀ q, q ∈ c_files c → ∃ t, t ∈ c_tenants c ∧
               (under (root (tn_ID t)) q = true ∨ under (staging (tn_ID t)) q = true ∧ tn_Status t = StatusDeleting);
  ci_moved : ∀ id q q', plain id → q ∈ c_files c → q' ∈ c_files c → under (root id) q = true → under (staging id) q' = true → False;
  ci_root : ∀ id q, plain id → q ∈ c_files c → under (root id) q = true → root id ∈ c_files c }.

Lemma CInv_init : CInv (mkCatalog [] [] [] ∅ ∅).
Proof. split; simpl; try (by constructor); try set_solver. Qed.

(** Two rows with one identifier are one row. *)
Lemma same_row c t t' : CInv c → t ∈ c_tenants c → t' ∈ c_tenants c → tn_ID t = tn_ID t' → t = t'.
Proof. intros Hi. apply NoDup_fmap_elem, Hi. Qed.

(** The rows change neither identifier nor name, and deletion intents stay in step. *)
Lemma CInv_update c p f :
  CInv c → (∀ t, tn_ID (f t) = tn_ID t ∧ tn_Name (f t) = tn_Name t) →
  (∀ t, t ∈ c_tenants c → p t = true → tn_Status (f t) = StatusDeleting ↔ tn_Status t = StatusDeleting) →
  (∀ t t' h, t ∈ c_tenants c → t' ∈ c_tenants c → host_is h (if p t then f t else t) = true →
     host_is h (if p t' then f t' else t') = true → tn_ID t = tn_ID t') →
  CInv (with_tenants (update_rows p f) c).
Proof.
  intros Hi Hk Hs Hh. pose proof (update_rows_key tn_ID p f (c_tenants c) (λ t, proj1 (Hk t))) as Eid.
  assert (∀ t, tn_ID (if p t then f t else t) = tn_ID t) as Hid by (intros t; destruct (p t); [apply Hk|done]).
  destruct Hi. split; simpl; rewrite ?Eid; try done.
  - intros t' (t & Ht & ->)%elem_update_rows. rewrite Hid. auto.
  - rewrite update_rows_key; [done|]. intros t. cbn. by rewrite (proj2 (Hk t)).
  - intros t1 t2 h (t & Ht & ->)%elem_update_rows (t' & Ht' & ->)%elem_update_rows Hh1 Hh2. rewrite !Hid. by eapply Hh.
  - intros id. rewrite ci_intent0. split.
    + intros (t & Ht & He & Hd). exists (if p t then f t else t). split; [apply elem_update_rows; eauto|]. rewrite Hid.
      split; [done|]. destruct (p t) eqn:Ep; [by apply (Hs t)|done].
    + intros (t' & (t & Ht & ->)%elem_update_rows & He & Hd). rewrite Hid in He. exists t. split; [done|]. split; [done|].
      destruct (p t) eqn:Ep; [by apply (Hs t) in Hd|done].
  - intros q Hq. destruct (ci_owned0 q Hq) as (t & Ht & Ho). exists (if p t then f t else t).
    split; [apply elem_update_rows; eauto|]. rewrite Hid. destruct Ho as [?|[? Hd]]; [by left|right]. split; [done|].
    destruct (p t) eqn:Ep; [by apply (Hs t)|done].
Qed.

Lemma CInv_update_same_host c p f :
  CInv c → (∀ t, tn_ID (f t) = tn_ID t ∧ tn_Name (f t) = tn_Name t) → (∀ t, tn_Host (f t) = tn_Host t) →
  (∀ t, t ∈ c_tenants c → p t = true → tn_Status (f t) = StatusDeleting ↔ tn_Status t = StatusDeleting) →
  CInv (with_tenants (update_rows p f) c).
Proof.
  intros Hi Hk Hh Hs. apply CInv_update; [done|done|done|].
  assert (∀ h t, host_is h (if p t then f t else t) = host_is h t) as E.
  { intros h t. destruct (p t); [|done]. unfold host_is. by rewrite Hh. }
  intros t t' h Ht Ht'. rewrite !E. by apply Hi.
Qed.

(** ** Directories of different tenants *)

Lemma root_base id : root id = (dataRoot +:+ "/tenants/") +:+ id.
Proof. unfold tenant_root. by rewrite str_app_assoc. Qed.
Lemma staging_base id : staging id = (dataRoot +:+ "/tenants/") +:+ (".deleting-" +:+ id).
Proof. unfold tenant_staging. by rewrite !str_app_assoc. Qed.

Lemma deleting_slash_free id : plain id → slash_free (".deleting-" +:+ id).
Proof.
  intros [Hs _]. unfold slash_free, no_char. rewrite bytes_of_app. apply Forall_app. split; [|done]. vm_compute. repeat constructor; done.
Qed.

Lemma root_root id id' q : plain id → plain id' → under (root id) q = true → under (root id') q = true → id = id'.
Proof. rewrite !root_base. intros [? _] [? _]. by apply under_unique. Qed.
Lemma staging_staging id id' q : plain id → plain id' → under (staging id) q = true → under (staging id') q = true → id = id'.
Proof.
  rewrite !staging_base. intros Hp Hp' Hu Hu'.
  apply (str_app_inv_head ".deleting-"), (under_unique (dataRoot +:+ "/tenants/") _ _ q); auto using deleting_slash_free.
Qed.
Lemma root_staging id id' q : plain id → plain id' → under (root id) q = true → under (staging id') q = true → False.
Proof.
  rewrite root_base, staging_base. intros Hp Hp' Hu Hu'.
  assert (id = ".deleting-" +:+ id') as E by (apply (under_unique (dataRoot +:+ "/tenants/") _ _ q); [apply Hp|by apply deleting_slash_free|done|done]).
  destruct Hp as [_ Hp]. rewrite E in Hp. unfold HasPrefix in Hp. by rewrite prefix_refl_app in Hp.
Qed.
Lemma under_self p : under p p = true.
Proof. apply under_iff. by left. Qed.

Lemma elem_RemoveAll p q files : q ∈ RemoveAll p files ↔ q ∈ files ∧ under p q = false.
Proof. unfold RemoveAll. rewrite elem_of_filter. tauto. Qed.

Lemma stage_elem id files files' q :
  stageTenant (root id) (staging id) files = Ok files' →
  q ∈ files' ↔ if bool_decide (root id ∈ files) then ∃ q0, q0 ∈ files ∧ q = move_path (root id) (staging id) q0 else q ∈ files.
Proof.
  unfold stageTenant, Stat. destruct (bool_decide (root id ∈ files)); [|by intros [= <-]].
  unfold Rename. destruct (bool_decide _); [done|]. cbn. intros [= <-]. rewrite elem_of_map. naive_solver.
Qed.

(** ** The steps preserve the invariant *)

Lemma CInv_hosts c hs :
  CInv c → NoDup (fold_case ∘ hm_Host <$> hs) → (∀ m, m ∈ hs → hm_TenantID m ∈ tn_ID <$> c_tenants c) → CInv (with_hosts (λ _, hs) c).
Proof. intros [] Hn Hf. split; done. Qed.

Lemma CInv_consume c now id expires : CInv c → CInv (ConsumeAuth now id expires c).1.
Proof. intros []. unfold ConsumeAuth. destruct (String.eqb _ _); [done|]. by destruct (_ !! id); split. Qed.

(** The row [Create] inserts. *)
Lemma Create_cases c now id o :
  (∃ e, Create_insert now id o c = (c, Err e)) ∨
  ∃ t, tn_ID t = id ∧ tn_Host t = None ∧ tn_Status t = StatusCreating ∧
    (∀ u, u ∈ c_tenants c → tn_ID u ≠ id ∧ fold_case (tn_Name u) ≠ fold_case (tn_Name t)) ∧
    Create_insert now id o c = (with_tenants (λ l, l ++ [t]) c, Ok t).
Proof.
  unfold Create_insert. destruct (normalizeName (co_Name o)) as [name|]; [|eauto]. cbn.
  destruct (normalizeOwner (co_Owner o)) as [owner|]; [|eauto]. cbn.
  destruct (normalizeTemplate (co_Template o)) as [template|]; [|eauto]. cbn.
  destruct (normalizeSource (co_Source o)) as [source|]; [|eauto]. cbn.
  destruct (existsb _ _) eqn:Ex; [eauto|]. right. eexists. split_and!; [..|reflexivity]; try done.
  rewrite existsb_elem_false in Ex. intros u Hu. apply Ex, orb_false_iff in Hu as [Hu Hn]. simpl.
  split; [by intros E%has_id_eq; rewrite E in Hu|intros E%nocase_eq; simpl in Hn; by rewrite E in Hn].
Qed.

Lemma elem_snoc {A} (x y : A) l : x ∈ l ++ [y] ↔ x ∈ l ∨ x = y.
Proof. by rewrite elem_of_app, list_elem_of_singleton. Qed.

Lemma dirs_under id dir : dir ∈ tenant_dirs dataRoot id → under (root id) dir = true.
Proof.
  unfold tenant_dirs. rewrite !elem_of_cons, elem_of_nil.
  intros [->|[->|[->|[]]]]; [apply under_self|apply under_iff; right..]; [by exists "blobs"|by exists "git"].
Qed.

Lemma CInv_insert c now id o : CInv c → plain id → id ∉ tn_ID <$> c_tenants c → CInv (Create_insert now id o c).1.
Proof.
  intros Hi Hp Hf. destruct (Create_cases c now id o) as [(e & ->)|(t & <- & Hh & Hs & Hu & ->)]; [done|].
  destruct Hi. split; simpl; rewrite ?fmap_app; try done.
  - apply NoDup_app. split_and!; [done|set_solver|apply NoDup_singleton].
  - intros u [Hu'| ->]%elem_snoc; [auto|done].
  - apply NoDup_app. split_and!; [done| |apply NoDup_singleton].
    intros x (u & -> & Hu')%list_elem_of_fmap Hx. apply list_elem_of_singleton in Hx. destruct (Hu u Hu') as [_ Hn]. by apply Hn.
  - assert (∀ h, host_is h t = false) as Hnone by (intros h; unfold host_is; by rewrite Hh).
    intros u u' h [Hu1| ->]%elem_snoc [Hu2| ->]%elem_snoc; rewrite ?Hnone; try done. by apply ci_primary0.
  - intros m Hm. apply elem_of_app. left. auto.
  - intros id'. rewrite ci_intent0. split; intros (u & Hu' & He & Hd); exists u; (split; [|done]).
    + apply elem_of_app. by left.
    + apply elem_snoc in Hu' as [?| ->]; [done|congruence].
  - intros q Hq. destruct (ci_owned0 q Hq) as (u & ? & ?). exists u. split; [apply elem_of_app; by left|done].
Qed.

(** A directory of a tenant being created is its own, and the tenant has no
    other, moved out of the way. *)
Lemma CInv_mkdir c t made dir rest :
  CInv c → t ∈ c_tenants c → tn_Status t = StatusCreating → tenant_dirs dataRoot (tn_ID t) = made ++ dir :: rest →
  (∀ q, q ∈ made → q ∈ c_files c) → CInv (with_files (MkdirAll dir) c).
Proof.
  intros Hi Ht Hs Hd Hmade. pose proof (ci_plain c Hi t Ht) as Hpt.
  assert (under (root (tn_ID t)) dir = true) as Hdir by (apply dirs_under; rewrite Hd; apply elem_of_app; right; apply list_elem_of_here).
  assert (∀ q, q ∈ MkdirAll dir (c_files c) ↔ q = dir ∨ q ∈ c_files c) as Hin by (intros q; unfold MkdirAll; set_solver).
  assert (∀ id, plain id → under (root id) dir = true → id = tn_ID t) as Hown by (intros id Hp Hu; by apply (root_root _ _ dir)).
  assert (∀ q, q ∈ c_files c → under (staging (tn_ID t)) q = false) as Hclear.
  { intros q Hq. apply not_true_iff_false. intros Hu. destruct (ci_owned c Hi q Hq) as (u & Hu' & [Ho|[Ho Hsu]]); pose proof (ci_plain c Hi u Hu') as Hpu.
    - by apply (root_staging (tn_ID u) (tn_ID t) q).
    - assert (tn_ID u = tn_ID t) as E by (by apply (staging_staging _ _ q)). rewrite (same_row c u t Hi Hu' Ht E) in Hsu. congruence. }
  pose proof (ci_owned c Hi) as Hco. pose proof (ci_moved c Hi) as Hcm. pose proof (ci_root c Hi) as Hcr.
  destruct Hi. split; simpl; try done.
  - intros q [->|Hq]%Hin; [exists t; split; [done|by left]|by apply Hco].
  - intros id q q' Hp [->|Hq]%Hin [->|Hq']%Hin Hr Hst.
    + by apply (root_staging (tn_ID t) id dir).
    + rewrite (Hown id Hp Hr) in Hst. by rewrite Hclear in Hst.
    + by apply (root_staging (tn_ID t) id dir).
    + by apply (Hcm id q q').
  - intros id q Hp [->|Hq]%Hin Hr; apply Hin; [|right; by apply (Hcr id q)]. rewrite (Hown id Hp Hr).
    destruct made as [|q0 made]; [left|right; apply Hmade]; unfold tenant_dirs in Hd; injection Hd as E _; rewrite E; [done|apply list_elem_of_here].
Qed.

(** [Create] runs these steps. *)
Lemma Create_steps c now id o : plain id → id ∉ tn_ID <$> c_tenants c → rtc cstep c (Create dataRoot now id o c).1.
Proof.
  intros Hp Hf. unfold Create. pose proof (s_insert now id o c Hp Hf) as Hins.
  destruct (Create_cases c now id o) as [(e & E)|(t & <- & _ & Hs & _ & E)]; rewrite E in *; [apply rtc_refl|]. cbn [fst] in *.
  eapply rtc_l; [exact Hins|]. set (c1 := with_tenants _ c) in *. assert (t ∈ c_tenants c1) as Ht by (apply elem_snoc; by right). clearbody c1.
  eapply rtc_l; [eapply (s_mkdir t []); [exact Ht|exact Hs|reflexivity|by intros q ?%elem_of_nil]|].
  eapply rtc_l; [eapply (s_mkdir t [_]); [exact Ht|exact Hs|reflexivity|]|].
  { intros q ->%list_elem_of_singleton. simpl. unfold MkdirAll. set_solver. }
  eapply rtc_l; [eapply (s_mkdir t [_; _]); [exact Ht|exact Hs|reflexivity|]|apply rtc_refl].
  intros q. rewrite !elem_of_cons, elem_of_nil. simpl. unfold MkdirAll. set_solver.
Qed.

Lemma transition_state c now id from to : (transition now id from to c).1 = with_tenants (update_rows (λ t, has_id id t && is_status from t) (set_status to now)) c.
Proof. unfold transition. repeat case_match; done. Qed.

Lemma CInv_transition c now id from to : CInv c → from ≠ StatusDeleting → to ≠ StatusDeleting → CInv (transition now id from to c).1.
Proof.
  intros Hi Hf Ht. rewrite transition_state. apply CInv_update_same_host; [done|done|done|].
  intros t _ [_ Hs%is_status_eq]%andb_true_iff. simpl. naive_solver.
Qed.

Lemma SetHost_update_cases c now id host :
  (SetHost_update now id host c).1 = c ∨
  (∀ t, t ∈ c_tenants c → tn_ID t ≠ id → host_is host t = false) ∧
  (SetHost_update now id host c).1 = with_tenants (update_rows (has_id id) (set_host (Some host) now)) c ∨
  (∀ t, t ∈ c_tenants c → tn_ID t ≠ id) ∧ (SetHost_update now id host c).1 = with_tenants (update_rows (has_id id) (set_host (Some host) now)) c.
Proof.
  unfold SetHost_update. destruct (existsb (has_id id) _) eqn:E1; cbn [andb].
  - clear E1; destruct (existsb (λ t, negb _ && _) (c_tenants c)) eqn:E2; [by left|]. right; left. split; [|done]. rewrite existsb_elem_false in E2.
    intros t Ht Hne. specialize (E2 t Ht). apply andb_false_iff in E2 as [E2|E2]; [|done].
    apply negb_false_iff, has_id_eq in E2. done.
  - right; right. split; [|done]. rewrite existsb_elem_false in E1. intros t Ht E%has_id_eq. by rewrite E1 in E.
Qed.

Lemma host_set host h now t : host_is h (set_host (Some host) now t) = nocase host h.
Proof. done. Qed.

Lemma CInv_set_host c now id host : CInv c → CInv (SetHost_update now id host c).1.
Proof.
  intros Hi. destruct (SetHost_update_cases c now id host) as [->|[[Hh ->]|[Hh ->]]]; [done| |];
    (apply CInv_update; [done|done|done|]).
  - assert (∀ t h, t ∈ c_tenants c → tn_ID t ≠ id → host_is h t = true → nocase host h = true → False) as Hx.
    { intros t h Ht Hne H1' H2'. specialize (Hh t Ht Hne). unfold host_is in *. destruct (tn_Host t) as [x|]; [|done].
      apply nocase_eq in H1', H2'. rewrite (proj2 (nocase_eq x host)) in Hh; congruence. }
    intros t t' h Ht Ht'. destruct (has_id id t) eqn:E, (has_id id t') eqn:E'; rewrite ?host_set; intros H1' H2'.
    + apply has_id_eq in E, E'. congruence.
    + exfalso. apply (Hx t' h); [done| |done|done]. intros Ei%has_id_eq. congruence.
    + exfalso. apply (Hx t h); [done| |done|done]. intros Ei%has_id_eq. congruence.
    + by eapply (ci_primary c Hi).
  - assert (∀ t, t ∈ c_tenants c → has_id id t = false) as Hn.
    { intros t Ht. apply not_true_iff_false. intros E%has_id_eq. by apply (Hh t). }
    intros t t' h Ht Ht'. rewrite (Hn t), (Hn t') by done. by apply (ci_primary c Hi).
Qed.

Lemma CInv_clear_host c now id : CInv c → CInv (ClearHost now id c).1.
Proof.
  intros Hi. apply CInv_update; [done|done|done|]. intros t t' h Ht Ht'.
  destruct (has_id id t), (has_id id t'); try done. by apply (ci_primary c Hi).
Qed.

Lemma CInv_set_owner c p owner now : CInv c → CInv (with_tenants (update_rows p (set_owner owner now)) c).
Proof. intros Hi. by apply CInv_update_same_host. Qed.

Lemma with_hosts_const f c : with_hosts f c = with_hosts (λ _, f (c_hosts c)) c.
Proof. done. Qed.

Lemma CInv_add_host c now id host site : CInv c → CInv (AddHost_insert now id host site c).1.
Proof.
  intros Hi. unfold AddHost_insert. destruct (existsb _ _ || _) eqn:E; [done|]. cbn.
  apply orb_false_iff in E as [E1 E2%negb_false_iff]. rewrite existsb_elem_false in E1. apply existsb_elem in E2 as (t & Ht & Eid%has_id_eq).
  rewrite with_hosts_const. apply CInv_hosts; [done| |].
  - rewrite fmap_app. apply NoDup_app. split_and!; [apply Hi| |apply NoDup_singleton].
    intros x (m & -> & Hm)%list_elem_of_fmap Hx. apply list_elem_of_singleton in Hx. specialize (E1 m Hm).
    by rewrite (proj2 (nocase_eq _ _)) in E1.
  - intros m [Hm| ->]%elem_snoc; [by apply Hi|]. simpl. rewrite <-Eid. by apply list_elem_of_fmap_2.
Qed.

Lemma CInv_set_site c now id host site : CInv c → CInv (SetHostSite now id host site c).1.
Proof.
  intros Hi. unfold SetHostSite. destruct (normalizeHost host) as [normal|]; [|done].
  assert (CInv (with_hosts (update_rows (mapping_of id normal) (set_site site now)) c)) as Hc.
  { rewrite with_hosts_const. apply CInv_hosts; [done|rewrite update_rows_key; [apply Hi|done]|].
    intros m (m0 & Hm & ->)%elem_update_rows. destruct (mapping_of _ _ _); by apply Hi in Hm. }
  by destruct (negb _).
Qed.

Lemma CInv_remove_host c id host : CInv c → CInv (RemoveHost id host c).1.
Proof.
  intros Hi. unfold RemoveHost. destruct (normalizeHost host) as [normal|]; [|done]. simpl. rewrite with_hosts_const.
  apply CInv_hosts; [done|by apply lfilter_fmap_NoDup, Hi|]. intros m [Hm _]%elem_of_lfilter. by apply Hi.
Qed.

Lemma beginDeletion_cases c now id :
  (beginDeletion dataRoot now id c).1 = c ∨
  (∃ t, t ∈ c_tenants c ∧ tn_ID t = id ∧ tn_Status t = StatusDisabled) ∧ id ∉ dl_id <$> c_deletions c ∧
  beginDeletion dataRoot now id c =
    (with_deletions (λ l, l ++ [mkDeletion id (root id) (staging id) now])
      (with_tenants (update_rows (λ t, has_id id t && is_status StatusDisabled t) (set_status StatusDeleting now)) c), Ok tt).
Proof.
  unfold beginDeletion. destruct (List.find _ _) as [t|] eqn:Ef; [|by left]. apply find_Some in Ef as (Ht & Eid%has_id_eq).
  destruct (is_status _ t) eqn:Es; [|by left]. cbn [negb]. apply is_status_eq in Es.
  destruct (existsb _ _) eqn:Ex; [by left|]. right. split; [eauto|]. split; [|done].
  rewrite existsb_elem_false in Ex. intros (d & E & Hd)%list_elem_of_fmap. specialize (Ex d Hd). by rewrite <-E, String.eqb_refl in Ex.
Qed.

Lemma CInv_begin c now id : CInv c → CInv (beginDeletion dataRoot now id c).1.
Proof.
  intros Hi. destruct (beginDeletion_cases c now id) as [->|((t & Ht & Eid & Es) & Hn & ->)]; [done|].
  set (p := λ t, has_id id t && is_status StatusDisabled t). set (f := set_status StatusDeleting now).
  assert (Hp : ∀ u, u ∈ c_tenants c → p u = true ↔ u = t).
  { intros u Hu. unfold p. rewrite andb_true_iff, has_id_eq, is_status_eq. split; [intros [? _]|intros ->; done].
    apply (same_row c); [done|done|done|congruence]. }
  assert (Eids : tn_ID <$> update_rows p f (c_tenants c) = tn_ID <$> c_tenants c) by by apply update_rows_key.
  assert (Hin : f t ∈ update_rows p f (c_tenants c)).
  { apply elem_update_rows. exists t. split; [done|]. by rewrite (proj2 (Hp t Ht) eq_refl). }
  assert (Hid : ∀ u, tn_ID (if p u then f u else u) = tn_ID u) by (intros u; by destruct (p u)).
  assert (Hho : ∀ h u, host_is h (if p u then f u else u) = host_is h u) by (intros h u; by destruct (p u)).
  pose proof Hi as [].
  split; simpl; rewrite ?Eids; try done.
  - intros u' (u & Hu & ->)%elem_update_rows. rewrite Hid. auto.
  - by rewrite update_rows_key.
  - intros u1 u2 h (u & Hu & ->)%elem_update_rows (v & Hv & ->)%elem_update_rows. rewrite !Hid, !Hho. by apply ci_primary0.
  - rewrite fmap_app. apply NoDup_app. split_and!; [done|set_solver|apply NoDup_singleton].
  - intros id'. rewrite fmap_app. change (dl_id <$> [_]) with [id]. rewrite elem_snoc, ci_intent0. split.
    + intros [(u & Hu & He & Hd)| ->]; [|by exists (f t)]. exists u. split; [|done]. apply elem_update_rows. exists u.
      split; [done|]. destruct (p u) eqn:Ep; [|done]. apply (Hp u Hu) in Ep as ->. congruence.
    + intros (u' & (u & Hu & ->)%elem_update_rows & He & Hd). rewrite Hid in He. destruct (p u) eqn:Ep; [|eauto].
      apply (Hp u Hu) in Ep as ->. right. congruence.
  - intros d [Hd| ->]%elem_snoc; [auto|done].
  - intros q Hq. destruct (ci_owned0 q Hq) as (u & Hu & Ho). exists (if p u then f u else u).
    split; [apply elem_update_rows; eauto|]. rewrite Hid. destruct Ho as [?|[? Hd]]; [by left|right]. split; [done|]. by destruct (p u).
Qed.

(** ** The file-system calls *)

(** The tenant a deletion intent speaks of. *)
Lemma intent_tenant c d : CInv c → d ∈ c_deletions c →
  ∃ t, t ∈ c_tenants c ∧ tn_ID t = dl_id d ∧ tn_Status t = StatusDeleting ∧ plain (dl_id d) ∧
    dl_root d = root (dl_id d) ∧ dl_staging d = staging (dl_id d).
Proof.
  intros Hi Hd. pose proof (list_elem_of_fmap_2 dl_id _ _ Hd) as He. apply (ci_intent c Hi) in He as (t & Ht & Eid & Es).
  destruct (ci_paths c Hi d Hd) as [? ?]. exists t. split_and!; try done; rewrite <-Eid; by apply (ci_plain c Hi).
Qed.

Lemma move_other a b q : under a q = false → move_path a b q = q.
Proof. unfold move_path. by intros ->. Qed.

Lemma CInv_stage c d files :
  CInv c → d ∈ c_deletions c → stageTenant (dl_root d) (dl_staging d) (c_files c) = Ok files → CInv (with_files (λ _, files) c).
Proof.
  intros Hi Hd Hst. destruct (intent_tenant c d Hi Hd) as (t & Ht & Eid & Es & Hpl & Er & Eg).
  set (id := dl_id d) in *. rewrite Er, Eg in Hst. pose proof (λ q, stage_elem id (c_files c) files q Hst) as Hel.
  destruct (bool_decide (root id ∈ c_files c)) eqn:Eb; [|].
  2: { assert (files = c_files c) as -> by (apply set_eq; exact Hel). by destruct c. }
  assert (Hq : ∀ q, q ∈ files → (q ∈ c_files c ∧ under (root id) q = false) ∨ under (staging id) q = true ∧ ∃ q0, q0 ∈ c_files c ∧ under (root id) q0 = true).
  { intros q (q0 & Hq0 & ->)%Hel. destruct (under (root id) q0) eqn:E; [right; split; [by apply under_move|eauto]|left; by rewrite move_other]. }
  assert (Hkeep : ∀ q, q ∈ c_files c → under (root id) q = false → q ∈ files).
  { intros q Hc Hu. apply Hel. exists q. by rewrite move_other. }
  destruct Hi. split; simpl; try done.
  - intros q [[Hc Hu]|[Hu _]]%Hq; [auto|]. exists t. split; [done|]. right. by rewrite Eid.
  - intros id' q q' Hp' H1' H2' Hr Hs.
    apply Hq in H1' as [[Hc Hu]|[Hu _]]; [|by apply (root_staging id' id q)].
    apply Hq in H2' as [[Hc' Hu']|[Hu' _]]; [by apply (ci_moved0 id' q q')|].
    assert (id' = id) as -> by (by apply (staging_staging _ _ q')). congruence.
  - intros id' q Hp' H1' Hr. apply Hq in H1' as [[Hc Hu]|[Hu _]]; [|exfalso; by apply (root_staging id' id q)].
    apply Hkeep; [by apply (ci_root0 id' q)|]. apply not_true_iff_false. intros E.
    assert (id' = id) as -> by (apply (root_root _ _ (root id')); auto using under_self). congruence.
Qed.

Lemma CInv_remove c d files :
  CInv c → d ∈ c_deletions c → dl_root d ∉ c_files c → RemoveAll (dl_staging d) (c_files c) ⊆ files → files ⊆ c_files c →
  CInv (with_files (λ _, files) c).
Proof.
  intros Hi Hd Hr Hsub Hsup. destruct (intent_tenant c d Hi Hd) as (t & Ht & Eid & Es & Hpl & Er & Eg).
  destruct Hi. split; simpl; try done.
  - intros q Hq. by apply ci_owned0, Hsup.
  - intros id q q' Hp Hq Hq'. apply (ci_moved0 id); [done|by apply Hsup|by apply Hsup].
  - intros id q Hp Hq Hu. apply Hsup in Hq. apply Hsub, elem_RemoveAll. split; [by apply (ci_root0 id q)|].
    apply not_true_iff_false. rewrite Eg. intros E. by apply (root_staging id (dl_id d) (root id)); auto using under_self.
Qed.

Lemma finishDeletion_ok c d : CInv c → d ∈ c_deletions c →
  finishDeletion (dl_id d) c =
    (with_deletions (List.filter (λ d', negb (String.eqb (dl_id d') (dl_id d))))
      (with_tenants (List.filter (λ t, negb (has_id (dl_id d) t)))
        (with_hosts (List.filter (λ m, negb (String.eqb (hm_TenantID m) (dl_id d)))) c)), Ok tt).
Proof.
  intros Hi Hd. destruct (intent_tenant c d Hi Hd) as (t & Ht & Eid & Es & _). unfold finishDeletion.
  assert (Hp : ∀ u, u ∈ c_tenants c → has_id (dl_id d) u && is_status StatusDeleting u = has_id (dl_id d) u).
  { intros u Hu. destruct (has_id (dl_id d) u) eqn:E; [|done]. apply has_id_eq in E. cbn. apply is_status_eq.
    rewrite (same_row c u t); [done..|congruence]. }
  rewrite (affected_one tn_ID _ _ t); [|apply Hi|done| |].
  - cbn [Z.eqb negb Pos.eqb]. unfold with_deletions, with_tenants, with_hosts. simpl.
    rewrite (lfilter_ext (λ u, negb (has_id (dl_id d) u && is_status StatusDeleting u)) (λ u, negb (has_id (dl_id d) u))); [done|].
    intros u Hu. by rewrite Hp.
  - rewrite Hp by done. by apply has_id_eq.
  - intros u Hu. rewrite Hp by done. rewrite has_id_eq. congruence.
Qed.

Lemma CInv_finish c d :
  CInv c → d ∈ c_deletions c → dl_root d ∉ c_files c → RemoveAll (dl_staging d) (c_files c) = c_files c →
  CInv (finishDeletion (dl_id d) c).1.
Proof.
  intros Hi Hd Hr Hg. rewrite finishDeletion_ok by done. destruct (intent_tenant c d Hi Hd) as (t & Ht & Eid & Es & Hpl & Er & Eg).
  set (id := dl_id d) in *. rewrite Er in Hr. rewrite Eg in Hg.
  assert (Hid : ∀ u, negb (has_id id u) = true ↔ tn_ID u ≠ id) by (intros u; by rewrite negb_true_iff, <-not_true_iff_false, has_id_eq).
  destruct Hi. split; simpl.
  - by apply lfilter_fmap_NoDup.
  - intros u [Hu _]%elem_of_lfilter. auto.
  - by apply lfilter_fmap_NoDup.
  - intros u u' h [Hu _]%elem_of_lfilter [Hu' _]%elem_of_lfilter. by apply ci_primary0.
  - by apply lfilter_fmap_NoDup.
  - intros m [Hm E%negb_true_iff%String.eqb_neq]%elem_of_lfilter. apply ci_fk0 in Hm as (u & Em & Hu)%list_elem_of_fmap.
    rewrite Em. apply list_elem_of_fmap_2, elem_of_lfilter. rewrite Hid. split; [done|congruence].
  - by apply lfilter_fmap_NoDup.
  - intros id'. split.
    + intros (d' & -> & [Hd' E%negb_true_iff%String.eqb_neq]%elem_of_lfilter)%list_elem_of_fmap.
      pose proof (list_elem_of_fmap_2 dl_id _ _ Hd') as (u & Hu & He & Hs)%ci_intent0. exists u. split; [|done].
      apply elem_of_lfilter. rewrite Hid. split; [done|congruence].
    + intros (u & [Hu Hne%Hid]%elem_of_lfilter & <- & Hs). assert (tn_ID u ∈ dl_id <$> c_deletions c) as (d' & E & Hd')%list_elem_of_fmap by (apply ci_intent0; eauto).
      rewrite E. apply list_elem_of_fmap_2, elem_of_lfilter. split; [done|]. apply negb_true_iff, String.eqb_neq. congruence.
  - intros d' [Hd' _]%elem_of_lfilter. auto.
  - intros q Hq. destruct (ci_owned0 q Hq) as (u & Hu & Ho). exists u. split; [|done]. apply elem_of_lfilter. rewrite Hid. split; [done|].
    intros E. rewrite E in Ho. destruct Ho as [Ho|[Ho _]]; [by apply Hr, (ci_root0 id q)|].
    rewrite <-Hg in Hq. apply elem_RemoveAll in Hq as [_ Hq]. congruence.
  - done.
  - done.
Qed.

Lemma cstep_CInv c c' : cstep c c' → CInv c → CInv c'.
Proof.
  destruct 1; intros Hi; eauto using CInv_insert, CInv_mkdir, CInv_set_host, CInv_clear_host, CInv_add_host, CInv_set_site, CInv_remove_host,
    CInv_begin, CInv_stage, CInv_remove, CInv_finish, CInv_consume.
  - by apply CInv_transition.
  - by apply CInv_transition.
  - by apply CInv_transition.
  - unfold UpdateOwner. destruct (normalizeOwner owner); [|done]. by apply CInv_set_owner.
  - unfold TransferOwner. destruct (_ ≫= _) as [[a b]|]; [|done]. destruct (_ =? 1); by apply CInv_set_owner.
Qed.

Lemma csteps_CInv c c' : rtc cstep c c' → CInv c → CInv c'.
Proof. induction 1 as [|x y z Hs _ IH]; [done|]. intros Hi. by apply IH, (cstep_CInv x y). Qed.

(** ** Carrying a deletion through *)

Lemma stage_ok c d : CInv c → d ∈ c_deletions c →
  ∃ files, stageTenant (dl_root d) (dl_staging d) (c_files c) = Ok files ∧ dl_root d ∉ files ∧
    (∀ q, q ∈ RemoveAll (dl_staging d) files ↔ q ∈ c_files c ∧ under (dl_root d) q = false ∧ under (dl_staging d) q = false).
Proof.
  intros Hi Hd. destruct (intent_tenant c d Hi Hd) as (t & Ht & Eid & Es & Hpl & -> & ->). set (id := dl_id d) in *.
  destruct (decide (root id ∈ c_files c)) as [Hr|Hr].
  - assert (∃ files, stageTenant (root id) (staging id) (c_files c) = Ok files) as (files & Hf).
    { unfold stageTenant, Stat, Rename. rewrite bool_decide_true by done. rewrite bool_decide_false; [by eexists|].
      intros Hne. apply Hne. clear Hne. apply set_eq. intros q. rewrite elem_of_filter. split; [|set_solver].
      intros [Hp Hq]. exfalso. apply (ci_moved c Hi id (root id) q); auto using under_self. unfold under. by rewrite Hp, orb_true_r. }
    exists files. split; [done|]. pose proof (λ q, stage_elem id (c_files c) files q Hf) as Hel. rewrite bool_decide_true in Hel by done.
    split.
    + intros (q0 & Hq0 & E)%Hel. destruct (under (root id) q0) eqn:Eu.
      * pose proof (under_move (root id) (staging id) q0 Eu) as Hm. rewrite <-E in Hm. apply (root_staging id id (root id)); auto using under_self.
      * rewrite move_other in E by done. subst q0. by rewrite under_self in Eu.
    + intros q. rewrite elem_RemoveAll, Hel. split.
      * intros ((q0 & Hq0 & ->) & Hs). destruct (under (root id) q0) eqn:Eu; [by rewrite under_move in Hs|].
        rewrite move_other in * by done. done.
      * intros (Hq & Hu & Hs). split; [|done]. exists q. by rewrite move_other.
  - exists (c_files c). split; [unfold stageTenant, Stat; by rewrite bool_decide_false|]. split; [done|].
    intros q. rewrite elem_RemoveAll. split; [|tauto]. intros [Hq Hs]. split_and!; [done| |done].
    apply not_true_iff_false. intros Hu. by apply Hr, (ci_root c Hi id q).
Qed.

Lemma purge_ok c d : CInv c → d ∈ c_deletions c →
  ∃ c', purge d c = (c', Ok tt) ∧ rtc cstep c c' ∧
    c_deletions c' = List.filter (λ d', negb (String.eqb (dl_id d') (dl_id d))) (c_deletions c) ∧
    c_tenants c' = List.filter (λ t, negb (has_id (dl_id d) t)) (c_tenants c) ∧
    c_hosts c' = List.filter (λ m, negb (String.eqb (hm_TenantID m) (dl_id d))) (c_hosts c) ∧
    (∀ q, q ∈ c_files c' ↔ q ∈ c_files c ∧ under (dl_root d) q = false ∧ under (dl_staging d) q = false).
Proof.
  intros Hi Hd. destruct (stage_ok c d Hi Hd) as (files & Hf & Hr & Hel). unfold purge. rewrite Hf.
  set (c1 := with_files (λ _, files) c). set (c2 := with_files (λ _, RemoveAll (dl_staging d) files) c).
  assert (cstep c c1) as H1' by by apply (s_stage d files).
  assert (cstep c1 c2) as H2' by by apply (s_remove d (RemoveAll (dl_staging d) files) c1); [|..|set_solver|unfold RemoveAll; set_solver].
  assert (CInv c2) as Hi2 by eauto using cstep_CInv.
  assert (dl_root d ∉ c_files c2) as Hr2 by (simpl; rewrite elem_RemoveAll; tauto).
  assert (RemoveAll (dl_staging d) (c_files c2) = c_files c2) as Hg2.
  { simpl. apply set_eq. intros q. rewrite !elem_RemoveAll. tauto. }
  exists (finishDeletion (dl_id d) c2).1. pose proof (finishDeletion_ok c2 d Hi2 Hd) as E. split; [by rewrite E|].
  split; [eapply rtc_l; [exact H1'|]; eapply rtc_l; [exact H2'|]; by apply rtc_once, s_finish|].
  rewrite E. simpl. split_and!; try done.
Qed.

#[local] Instance lfilter_proper {A} (p : A → bool) : Proper ((≡ₚ) ==> (≡ₚ)) (List.filter p).
Proof. intros l l'. induction 1; simpl; repeat case_match; eauto using Permutation. Qed.

Lemma purge_all_ok l : ∀ c, CInv c → l ≡ₚ c_deletions c →
  ∃ c', purge_all l c = (c', Ok tt) ∧ rtc cstep c c' ∧ c_deletions c' = [] ∧
    (∀ t, t ∈ c_tenants c' ↔ t ∈ c_tenants c ∧ tn_ID t ∉ dl_id <$> l) ∧
    (∀ m, m ∈ c_hosts c' ↔ m ∈ c_hosts c ∧ hm_TenantID m ∉ dl_id <$> l) ∧
    (∀ q, q ∈ c_files c' ↔ q ∈ c_files c ∧ ∀ d, d ∈ l → under (dl_root d) q = false ∧ under (dl_staging d) q = false).
Proof.
  induction l as [|d l IH]; intros c Hi Hp.
  { exists c. apply Permutation_nil_l in Hp. split_and!; [done|constructor|by rewrite Hp|set_solver..]. }
  assert (d ∈ c_deletions c) as Hd by (rewrite <-Hp; set_solver).
  destruct (purge_ok c d Hi Hd) as (c1 & E1 & Hs1 & Ed & Et & Eh & Ef). cbn [purge_all]. rewrite E1.
  assert (NoDup (dl_id <$> d :: l)) as [Hnd Hn]%NoDup_cons by (rewrite Hp; apply Hi).
  destruct (IH c1) as (c' & E & Hs & Hd' & Ht & Hh & Hf).
  { by apply (csteps_CInv c). }
  { rewrite Ed, <-Hp. simpl. rewrite String.eqb_refl. simpl. rewrite lfilter_all; [done|].
    intros d' Hd'. apply negb_true_iff, String.eqb_neq. intros E. apply Hnd. rewrite <-E. by apply list_elem_of_fmap_2. }
  exists c'. split; [done|]. split; [by etrans|]. split; [done|].
  split; [|split].
  - intros t. rewrite Ht, Et, elem_of_lfilter, negb_true_iff, <-not_true_iff_false, has_id_eq. simpl. rewrite not_elem_of_cons. tauto.
  - intros m. rewrite Hh, Eh, elem_of_lfilter, negb_true_iff, String.eqb_neq. simpl. rewrite not_elem_of_cons. tauto.
  - intros q. rewrite Hf, Ef. setoid_rewrite elem_of_cons. split.
    + intros [(Hq & Hx & Hy) Hl]. split; [done|]. intros d' [->|Hd0]; auto.
    + intros [Hq Hl]. split; [|auto]. split; [done|]. apply Hl. by left.
Qed.

Lemma deleting_intent c t : CInv c → t ∈ c_tenants c → tn_ID t ∉ dl_id <$> c_deletions c ↔ tn_Status t ≠ StatusDeleting.
Proof.
  intros Hi Ht. rewrite (ci_intent c Hi). split; [intros Hn Hs; apply Hn; eauto|].
  intros Hs (u & Hu & E & Hd). by rewrite (same_row c u t Hi Hu Ht E) in Hd.
Qed.

(** C33: wherever processes were interrupted while creating, renaming or deleting tenants
    - between the INSERT of a tenant and its directories, between its directories, in
    the removal of a directory, between the steps of a deletion -, opening the catalog
    completes every pending deletion: it does not fail, no intent and no tenant being
    deleted is left, their hosts and directories are gone, and everything else is as it
    was.  A tenant's directories are made while it has the status it was inserted with;
    new identifiers are fresh. *)
Theorem deletions_recover c :
  rtc cstep (mkCatalog [] [] [] ∅ ∅) c →
  ∃ c', recoverDeletions c = (c', Ok tt) ∧ rtc cstep c c' ∧ c_deletions c' = [] ∧
    (∀ t, t ∈ c_tenants c' ↔ t ∈ c_tenants c ∧ tn_Status t ≠ StatusDeleting) ∧
    (∀ m, m ∈ c_hosts c' ↔ m ∈ c_hosts c ∧ ∃ t, t ∈ c_tenants c ∧ tn_ID t = hm_TenantID m ∧ tn_Status t ≠ StatusDeleting) ∧
    (∀ q, q ∈ c_files c' ↔ q ∈ c_files c ∧ ∃ t, t ∈ c_tenants c' ∧ under (root (tn_ID t)) q = true).
Proof.
  intros Hr. assert (CInv c) as Hi by (eapply csteps_CInv; [done|apply CInv_init]).
  destruct (purge_all_ok (sort_by (λ a b, by_time_key (dl_started a, dl_id a) (dl_started b, dl_id b)) (c_deletions c)) c Hi)
    as (c' & E & Hs & Hd & Ht & Hh & Hf); [apply sort_by_perm|].
  assert (∀ t, t ∈ c_tenants c' ↔ t ∈ c_tenants c ∧ tn_Status t ≠ StatusDeleting) as Ht'.
  { intros t. rewrite Ht, sort_by_perm. split; intros [Hin Hx]; (split; [done|]); by apply (deleting_intent c t Hi Hin). }
  exists c'. split_and!; try done.
  - intros m. rewrite Hh, sort_by_perm. split; intros [Hm Hx]; (split; [done|]).
    + apply (ci_fk c Hi) in Hm as (t & Em & Htm)%list_elem_of_fmap. exists t. split; [done|]. split; [done|].
      apply (deleting_intent c t Hi Htm). by rewrite <-Em.
    + destruct Hx as (t & Htm & <- & Hst). by apply (deleting_intent c t Hi Htm).
  - intros q. rewrite Hf. split; intros [Hq Hx]; (split; [done|]).
    + destruct (ci_owned c Hi q Hq) as (t & Htc & Ho). exists t.
      assert (∀ d, d ∈ c_deletions c → tn_ID t = dl_id d → False) as Hno.
      { intros d Hdd Ee. destruct (Hx d) as [Hx1 Hx2]; [by rewrite sort_by_perm|]. destruct (ci_paths c Hi d Hdd) as [Er Eg].
        rewrite Er in Hx1. rewrite Eg in Hx2. rewrite Ee in Ho. destruct Ho as [?|[? _]]; congruence. }
      assert (tn_Status t ≠ StatusDeleting) as Hst.
      { intros Hst. assert (tn_ID t ∈ dl_id <$> c_deletions c) as (d & Ee & Hdd)%list_elem_of_fmap by (apply (ci_intent c Hi); eauto). by eapply Hno. }
      split; [by apply Ht'|]. by destruct Ho as [?|[_ ?]].
    + intros d Hdd. rewrite sort_by_perm in Hdd. destruct Hx as (t & [Htc Hst]%Ht' & Hu). destruct (intent_tenant c d Hi Hdd) as (u & Hu' & Eu & Hsu & Hpl & -> & ->).
      assert (tn_ID t ≠ dl_id d) as Hne by (intros Ee; rewrite (same_row c t u) in Hst; [done|done|done|done|congruence]).
      split; apply not_true_iff_false; intros Hu2; pose proof (ci_plain c Hi t Htc); [apply Hne; by apply (root_root _ _ q)|by apply (root_staging (tn_ID t) (dl_id d) q)].
Qed.
End Steps.
