(* ===== verification/CatalogRules.v ===== *)
(** * internal/catalog: what the operations promise

    The unique names and hosts, the life of a tenant, deletion, routing by host
    and the single use of creation proofs. *)

From S2P Require Import Prelude GoLib GoCodec GoLemmas GoStrings Catalog CatalogProps.
From S2P Require Import Auth.

Section Rules.
Context `{GoUnicode} `{GoURL} `{GoNet} `{GoPrint}.
Variable dataRoot : string.
Local Notation root := (tenant_root dataRoot).
Local Notation staging := (tenant_staging dataRoot).
Local Notation empty_catalog := (mkCatalog [] [] [] ∅ ∅).
Implicit Types (c : Catalog) (t : Tenant) (m : HostMapping) (d : Deletion).

Lemma reachable_CInv c : rtc (cstep dataRoot) empty_catalog c → CInv dataRoot c.
Proof. intros Hr. eapply csteps_CInv; [done|apply CInv_init]. Qed.

(** Along every interleaving of processes, crashes included: identifiers and names (up to case) are unique, no
    hostname is primary or mapped twice, mappings name existing tenants, exactly the tenants being deleted have a
    recorded intent, and every directory belongs to a tenant. *)
Theorem catalog_invariant c :
  rtc (cstep dataRoot) empty_catalog c →
  NoDup (tn_ID <$> c_tenants c) ∧ NoDup (fold_case ∘ tn_Name <$> c_tenants c) ∧
  (∀ t t' h, t ∈ c_tenants c → t' ∈ c_tenants c → host_is h t = true → host_is h t' = true → t = t') ∧
  NoDup (fold_case ∘ hm_Host <$> c_hosts c) ∧
  (∀ m, m ∈ c_hosts c → ∃ t, t ∈ c_tenants c ∧ tn_ID t = hm_TenantID m) ∧
  (∀ t, t ∈ c_tenants c → tn_Status t = StatusDeleting ↔ tn_ID t ∈ dl_id <$> c_deletions c) ∧
  (∀ q, q ∈ c_files c → ∃ t, t ∈ c_tenants c ∧ (under (root (tn_ID t)) q = true ∨ under (staging (tn_ID t)) q = true)).
Proof.
  intros Hi%reachable_CInv. split; [apply Hi|]. split; [apply Hi|]. split.
  { intros t t' h Ht Ht' Hh Hh'. apply (same_row dataRoot c); [done..|]. by apply (ci_primary _ c Hi t t' h). }
  split; [apply Hi|]. split; [|split].
  - intros m Hm. apply (ci_fk _ c Hi) in Hm as (t & E & Ht)%list_elem_of_fmap. eauto.
  - intros t Ht. pose proof (deleting_intent dataRoot c t Hi Ht). destruct (decide (tn_ID t ∈ dl_id <$> c_deletions c)), (decide (tn_Status t = StatusDeleting)); tauto.
  - intros q Hq. destruct (ci_owned _ c Hi q Hq) as (t & Ht & [?|[? _]]); eauto.
Qed.

(** ** The life of a tenant *)

Inductive edge : Status → Status → Prop :=
| edge_ready : edge StatusCreating StatusReady
| edge_disable : edge StatusReady StatusDisabled
| edge_enable : edge StatusDisabled StatusReady
| edge_delete : edge StatusDisabled StatusDeleting.

Definition follows c c' : Prop :=
  (∀ t', t' ∈ c_tenants c' → (tn_ID t' ∉ tn_ID <$> c_tenants c ∧ tn_Status t' = StatusCreating) ∨
     ∃ t, t ∈ c_tenants c ∧ tn_ID t = tn_ID t' ∧ (tn_Status t = tn_Status t' ∨ edge (tn_Status t) (tn_Status t'))) ∧
  (∀ t, t ∈ c_tenants c → tn_Status t ≠ StatusDeleting → tn_ID t ∈ tn_ID <$> c_tenants c').

Lemma follows_same c c' : c_tenants c' = c_tenants c → follows c c'.
Proof. intros E. split; rewrite E; [intros t Ht; right; eauto|intros t Ht _; by apply list_elem_of_fmap_2]. Qed.

Lemma follows_update c c' p f :
  c_tenants c' = update_rows p f (c_tenants c) → (∀ t, tn_ID (f t) = tn_ID t) →
  (∀ t, t ∈ c_tenants c → p t = true → tn_Status t = tn_Status (f t) ∨ edge (tn_Status t) (tn_Status (f t))) → follows c c'.
Proof.
  intros E Hk Hs. split; rewrite E.
  - intros t' (t & Ht & ->)%elem_update_rows. right. exists t. split; [done|]. destruct (p t) eqn:Ep; [|auto]. split; [done|]. auto.
  - intros t Ht _. rewrite update_rows_key by done. by apply list_elem_of_fmap_2.
Qed.

Lemma follows_transition c now id from to : edge from to → follows c (transition now id from to c).1.
Proof.
  intros He. eapply follows_update; [by rewrite transition_state|done|].
  intros t _ [_ Hs%is_status_eq]%andb_true_iff. right. by rewrite Hs.
Qed.

(** A tenant's status follows creating, ready, disabled, ready again or deleting; it starts as creating, and its
    row disappears only while it is being deleted. *)
Theorem tenant_lifecycle c c' : rtc (cstep dataRoot) empty_catalog c → cstep dataRoot c c' → follows c c'.
Proof.
  intros Hi%reachable_CInv Hs. destruct Hs as [now id o c Hp Hf|t made dir rest c _ _ _ _| | | | | | | | | | |now id c| | |d c Hd Hr Hg|].
  - destruct (Create_cases c now id o) as [(e & ->)|(t & <- & _ & Hc & _ & ->)]; [by apply follows_same|]. split; simpl.
    + intros t' [Ht| ->]%elem_snoc; [right; eauto|by left].
    + intros t' Ht _. rewrite fmap_app. apply elem_of_app. left. by apply list_elem_of_fmap_2.
  - by apply follows_same.
  - apply follows_transition. constructor.
  - apply follows_transition. constructor.
  - apply follows_transition. constructor.
  - unfold UpdateOwner. destruct (normalizeOwner owner); [|by apply follows_same]. eapply follows_update; [done|done|by left].
  - unfold TransferOwner. destruct (_ ≫= _) as [[a b]|]; [|by apply follows_same].
    destruct (_ =? 1); (eapply follows_update; [done|done|by left]).
  - destruct (SetHost_update_cases c now id host) as [->|[[_ ->]|[_ ->]]]; [by apply follows_same|..];
      (eapply follows_update; [done|done|by left]).
  - eapply follows_update; [done|done|by left].
  - apply follows_same. unfold AddHost_insert. by destruct (_ || _).
  - apply follows_same. unfold SetHostSite. destruct (normalizeHost host); [|done]. by destruct (negb _).
  - apply follows_same. unfold RemoveHost. by destruct (normalizeHost host).
  - destruct (beginDeletion_cases dataRoot c now id) as [->|(_ & _ & ->)]; [by apply follows_same|].
    eapply follows_update; [done|done|]. intros t _ [_ Hs%is_status_eq]%andb_true_iff. right. rewrite Hs. constructor.
  - by apply follows_same.
  - by apply follows_same.
  - rewrite (finishDeletion_ok dataRoot) by done. split; simpl.
    + intros t [Ht _]%elem_of_lfilter. right. eauto.
    + intros t Ht Hst. apply list_elem_of_fmap_2, elem_of_lfilter. split; [done|]. apply negb_true_iff, not_true_iff_false.
      intros E%has_id_eq. destruct (intent_tenant dataRoot c d Hi Hd) as (u & Hu & Eu & Hsu & _).
      rewrite (same_row dataRoot c t u) in Hst; [done|done|done|done|congruence].
  - apply follows_same. unfold ConsumeAuth. destruct (String.eqb _ _); [done|]. by destruct (_ !! id).
Qed.

(** ** Deleting a tenant *)

(** C40: [Delete] either changes nothing, because there is no such tenant or it is not disabled, or leaves no trace of
    the tenant: no row, no intent, no host mapping, no directory; the other tenants, hosts and directories are
    untouched. *)
Theorem Delete_outcome c now id :
  rtc (cstep dataRoot) empty_catalog c →
  match Delete dataRoot now id c with
  | (c', Ok _) =>
    (∃ t, t ∈ c_tenants c ∧ tn_ID t = id ∧ tn_Status t = StatusDisabled) ∧
    (∀ u, u ∈ c_tenants c' ↔ u ∈ c_tenants c ∧ tn_ID u ≠ id) ∧
    (∀ m, m ∈ c_hosts c' ↔ m ∈ c_hosts c ∧ hm_TenantID m ≠ id) ∧
    (∀ q, q ∈ c_files c' ↔ q ∈ c_files c ∧ under (root id) q = false) ∧
    c_deletions c' = c_deletions c
  | (c', Err e) =>
    c' = c ∧ ((e = ErrNotFound ∧ ∀ t, t ∈ c_tenants c → tn_ID t ≠ id) ∨
              (e = ErrInvalidTransition ∧ ∃ t, t ∈ c_tenants c ∧ tn_ID t = id ∧ tn_Status t ≠ StatusDisabled))
  end.
Proof.
  intros Hi%reachable_CInv. unfold Delete. pose proof (CInv_begin dataRoot c now id Hi) as Hb.
  unfold beginDeletion in *. destruct (List.find (has_id id) (c_tenants c)) as [t|] eqn:Ef.
  2: { split; [done|]. left. split; [done|]. intros t Ht E%has_id_eq. by rewrite (find_None _ _ Ef t Ht) in E. }
  apply find_Some in Ef as (Ht & Eid%has_id_eq). destruct (is_status StatusDisabled t) eqn:Es; cbn [negb] in *.
  2: { split; [done|]. right. split; [done|]. exists t. split; [done|]. split; [done|]. intros E%is_status_eq. congruence. }
  apply is_status_eq in Es. destruct (existsb _ (c_deletions c)) eqn:Ex; cbn [negb] in *.
  { exfalso. apply existsb_elem in Ex as (d & Hd & Ed%String.eqb_eq).
    assert (id ∈ dl_id <$> c_deletions c) as (u & Hu & Eu & Hsu)%(ci_intent _ c Hi) by (rewrite <-Ed; by apply list_elem_of_fmap_2).
    rewrite (same_row dataRoot c u t Hi Hu Ht) in Hsu; congruence. }
  set (d := mkDeletion id (root id) (staging id) now) in *. set (c1 := with_deletions _ _) in *. simpl in Hb.
  assert (d ∈ c_deletions c1) as Hd by (apply elem_snoc; by right).
  assert (Hfree : id ∉ dl_id <$> c_deletions c).
  { intros (u & Hu & Eu & Hsu)%(ci_intent _ c Hi). rewrite (same_row dataRoot c u t Hi Hu Ht) in Hsu; congruence. }
  destruct (purge_ok dataRoot c1 d Hb Hd) as (c' & -> & _ & Ed & Et & Eh & Ef).
  split; [eauto|]. split; [|split; [|split]].
  - intros u. rewrite Et, elem_of_lfilter, negb_true_iff, <-not_true_iff_false, has_id_eq. simpl. split; intros [Hu Hne]; (split; [|done]).
    + apply elem_update_rows in Hu as (u0 & Hu & ->). destruct (has_id id u0 && _) eqn:Ep; [|done].
      apply andb_true_iff in Ep as [Ep%has_id_eq _]. done.
    + apply elem_update_rows. exists u. split; [done|]. destruct (has_id id u) eqn:Ep; [|done]. by apply has_id_eq in Ep.
  - intros m. by rewrite Eh, elem_of_lfilter, negb_true_iff, String.eqb_neq.
  - intros q. rewrite Ef. simpl. split; [tauto|]. intros [Hq Hu]. split_and!; [done|done|].
    apply not_true_iff_false. intros Hst. destruct (ci_owned _ c Hi q Hq) as (u & Hu' & Ho).
    pose proof (ci_plain _ c Hi u Hu'). pose proof (ci_plain _ c Hi t Ht) as Hp. rewrite Eid in Hp.
    destruct Ho as [Ho|[Ho Hs]]; [by apply (root_staging dataRoot (tn_ID u) id q)|].
    assert (tn_ID u = id) by (by apply (staging_staging dataRoot _ _ q)).
    rewrite (same_row dataRoot c u t Hi Hu' Ht) in Hs; congruence.
  - rewrite Ed. simpl. rewrite lfilter_app. simpl. rewrite String.eqb_refl. simpl. rewrite app_nil_r. apply lfilter_all.
    intros d' Hd'. apply negb_true_iff, String.eqb_neq. intros E. apply Hfree. rewrite <-E. by apply list_elem_of_fmap_2.
Qed.

(** ** Routing *)

Lemma get_host c host t : CInv dataRoot c → t ∈ c_tenants c → host_is host t = true → get (host_is host) c = Ok t.
Proof.
  intros Hi Ht Hh. unfold get. destruct (find_exists _ _ t Ht Hh) as (u & Eu). rewrite Eu. apply find_Some in Eu as (Hu & Hhu).
  f_equal. apply (same_row dataRoot c); [done..|]. by apply (ci_primary _ c Hi u t host).
Qed.

Lemma fold_case_refl h : nocase h h = true.
Proof. by apply nocase_eq. Qed.

(** A hostname given to a tenant routes to it, and one mapped for a tenant routes to it and carries its site, for
    every spelling of the hostname that normalizes alike. *)
Theorem host_routes c now id host site h :
  rtc (cstep dataRoot) empty_catalog c → normalizeHost h = normalizeHost host →
  (∀ c' u, SetHost now id host c = (c', Ok u) → ∃ t, ResolveHost h c' = Ok t ∧ tn_ID t = id) ∧
  (∀ c' m, AddHost now id host site c = (c', Ok m) →
     ResolveHostMapping h c' = Ok m ∧ hm_Site m = site ∧ hm_TenantID m = id ∧ ∃ t, ResolveHost h c' = Ok t ∧ tn_ID t = id).
Proof.
  intros Hr%reachable_CInv En. unfold SetHost, AddHost, ResolveHost, ResolveHostMapping. rewrite En.
  destruct (normalizeHost host) as [n|]; [|done]. cbn. split.
  - intros c' u. destruct (SetHost_check n c); [|done]. cbn. intros E.
    assert (c' = (SetHost_update now id n c).1) as -> by (by rewrite E).
    pose proof (CInv_set_host dataRoot c now id n Hr) as Hi. revert E Hi. unfold SetHost_update.
    destruct (_ && _); [done|]. unfold changedOrNotFound. intros [= E] Hi. simpl in *.
    apply guard_err_Ok, Z.eqb_neq, affected_pos in E as (t & Ht & Eid).
    set (t' := set_host (Some n) now t).
    assert (t' ∈ update_rows (has_id id) (set_host (Some n) now) (c_tenants c)) as Ht'.
    { apply elem_update_rows. exists t. by rewrite Eid. }
    exists t'. rewrite (get_host _ n t' Hi Ht') by apply fold_case_refl. split; [done|]. by apply has_id_eq.
  - intros c' m. destruct (AddHost_check id n c) eqn:Ec; [|done]. cbn.
    unfold AddHost_check in Ec. apply guard_bind_Ok in Ec as [Eid Ec]. apply result_bind_Ok in Ec as (t0 & _ & Ec).
    apply guard_err_Ok in Ec. rewrite existsb_elem_false in Ec.
    intros E. assert (c' = (AddHost_insert now id n site c).1) as -> by (by rewrite E).
    pose proof (CInv_add_host dataRoot c now id n site Hr) as Hi. revert E Hi. unfold AddHost_insert.
    destruct (_ || _) eqn:Eo; [done|]. intros [= <-] Hi. simpl in *. set (m := mkHost id n site "configured" now now) in *.
    apply orb_false_iff in Eo as [Eo Ex%negb_false_iff]. rewrite existsb_elem_false in Eo. apply existsb_elem in Ex as (t & Ht & Et%has_id_eq).
    assert (∀ (q : HostMapping → bool), q m = true → (∀ m', m' ∈ c_hosts c → q m' = false) → List.find q (c_hosts c ++ [m]) = Some m) as Hfind.
    { intros q Hm Hq. destruct (find_exists q (c_hosts c ++ [m]) m) as (m' & Em); [apply elem_snoc; by right|done|]. rewrite Em.
      apply find_Some in Em as ([Hin| ->]%elem_snoc & Hx); [|done]. by rewrite Hq in Hx. }
    split; [|split; [done|]; split; [done|]].
    + unfold hostMapping. simpl. rewrite Hfind; [done| |]; simpl.
      * by rewrite fold_case_refl.
      * intros m' Hm'. by rewrite Eo.
    + assert (get (host_is n) (with_hosts (λ l, l ++ [m]) c) = Err ErrNotFound) as ->.
      { unfold get. simpl. destruct (List.find _ _) as [u|] eqn:Eu; [|done]. apply find_Some in Eu as (Hu & Hh). by rewrite Ec in Hh. }
      rewrite String.eqb_refl. simpl. rewrite Hfind; [|apply fold_case_refl|done]. simpl.
      unfold GetByID, get. simpl. destruct (find_exists (has_id id) (c_tenants c) t) as (u & Eu); [done|by apply has_id_eq|].
      rewrite Eu. exists u. split; [done|]. apply find_Some in Eu as [_ Eu]. by apply has_id_eq.
Qed.

(** ** Creation proofs *)

Definition consume_all (ops : list (Z * string * Z)) (c : Catalog) : Catalog :=
  foldl (λ c op, (ConsumeAuth op.1.1 op.1.2 op.2 c).1) c ops.

(** A signed request consumed once is refused until its expiry, whatever other proofs are consumed in between. *)
Theorem consumed_once c now id expires c1 ops now' expires' :
  ConsumeAuth now id expires c = (c1, Ok true) → Forall (λ op, op.1.1 ≤ expires) ops → now' ≤ expires →
  (ConsumeAuth now' id expires' (consume_all ops c1)).2 = Ok false.
Proof.
  intros E Hops Hn.
  assert (id ≠ "" ∧ c_nonces c1 !! id = Some expires) as (Hid & Hc).
  { unfold ConsumeAuth in E. destruct (String.eqb_spec id ""); [done|]. split; [done|]. destruct (filter _ _ !! id); [done|].
    injection E as <-. simpl. by rewrite lookup_insert_eq. }
  clear E. revert c1 Hc. induction Hops as [|[[n i] e] ops Hop _ IH]; intros c1 Hc; simpl in *.
  - unfold ConsumeAuth. rewrite (proj2 (String.eqb_neq _ _) Hid).
    assert (filter (λ kv : string * Z, ¬ kv.2 < now') (c_nonces c1) !! id = Some expires) as ->; [|done].
    apply map_lookup_filter_Some. simpl. split; [done|lia].
  - apply IH. unfold ConsumeAuth. destruct (String.eqb_spec i ""); [done|].
    assert (filter (λ kv : string * Z, ¬ kv.2 < n) (c_nonces c1) !! id = Some expires) as Hf.
    { apply map_lookup_filter_Some. simpl. split; [done|lia]. }
    destruct (filter _ _ !! i) as [x|] eqn:Ei; simpl; [done|]. rewrite lookup_insert_ne by congruence. done.
Qed.
End Rules.

(** * internal/catalog on concrete tenants

    Two tenants of which one is being deleted when the process dies, the
    theorems at work on them, and what separate statements allow. *)

#[local] Instance ascii_tables : GoUnicode := ascii_unicode.
#[local] Instance no_urls : GoURL := {| url_parse := λ _, None; url_string := u_host |}.
#[local] Instance no_ips : GoNet := {| parse_ip := λ _, false |}.
#[local] Instance ascii_print : GoPrint := {| is_print := λ _, false |}.

Definition hex_owner : string := "aaaaaaaaaaaaaaaaaaaaaaaaaaaaaaaaaaaaaaaaaaaaaaaaaaaaaaaaaaaaaaaa".
Definition options (name : string) : CreateOptions := mkCreate name hex_owner "" "".
Definition start : Catalog := mkCatalog [] [] [] ∅ ∅.

Definition two_tenants : Catalog := (Create "/data" 2 "two" (options "Reef") (Create "/data" 1 "one" (options "Kelp") start).1).1.
Definition one_disabled : Catalog := (Disable 4 "one" (MarkReady 3 "one" two_tenants).1).1.
Definition one_deleting : Catalog := (beginDeletion "/data" 5 "one" one_disabled).1.

(** The process died between the intent and the renaming. *)
Lemma two_tenants_reached : rtc (cstep "/data") start two_tenants.
Proof.
  assert (∀ id, forallb (λ b, negb (b =? 47)) (bytes_of id) = true → HasPrefix id ".deleting-" = false → plain id) as Hp.
  { intros id Hb Hd. split; [|done]. unfold slash_free, no_char. apply Forall_forall. intros b Hin%list_elem_of_In.
    rewrite forallb_forall in Hb. specialize (Hb b Hin). apply negb_true_iff, Z.eqb_neq in Hb. exact Hb. }
  etrans; [apply (Create_steps "/data" start 1 "one" (options "Kelp")); [by apply Hp|set_solver]|].
  apply (Create_steps "/data" _ 2 "two" (options "Reef")); [by apply Hp|].
  vm_compute. intros Hin. apply elem_of_cons in Hin as [?|?%elem_of_nil]; done.
Qed.

Lemma one_deleting_reached : rtc (cstep "/data") start one_deleting.
Proof.
  etrans; [apply two_tenants_reached|]. eapply rtc_l; [apply (s_ready "/data" 3 "one")|].
  eapply rtc_l; [apply (s_disable "/data" 4 "one")|]. apply rtc_once, s_begin.
Qed.

Lemma one_disabled_reached : rtc (cstep "/data") start one_disabled.
Proof.
  etrans; [apply two_tenants_reached|]. eapply rtc_l; [apply (s_ready "/data" 3 "one")|]. apply rtc_once, s_disable.
Qed.

Lemma catalog_invariant_witness :
  (dl_id <$> c_deletions one_deleting = ["one"]) ∧ NoDup (tn_ID <$> c_tenants one_deleting).
Proof. split; [vm_compute; reflexivity|]. apply (catalog_invariant "/data" one_deleting), one_deleting_reached. Defined.

Lemma deletions_recover_witness :
  ∃ c', recoverDeletions one_deleting = (c', Ok tt) ∧ c_deletions c' = [].
Proof.
  destruct (deletions_recover "/data" one_deleting one_deleting_reached) as (c' & Hr & _ & Hd & _). exists c'. by split.
Defined.

Lemma tenant_lifecycle_witness :
  tn_Status <$> c_tenants one_deleting = [StatusDeleting; StatusCreating] ∧ follows one_disabled one_deleting.
Proof.
  split; [vm_compute; reflexivity|]. apply (tenant_lifecycle "/data"); [apply one_disabled_reached|]. apply (s_begin "/data" 5 "one" one_disabled).
Defined.

Lemma Delete_outcome_witness :
  is_ok (Delete "/data" 5 "one" one_disabled).2 = true ∧
  match Delete "/data" 5 "one" one_disabled with
  | (c', Ok _) => (∀ u, u ∈ c_tenants c' ↔ u ∈ c_tenants one_disabled ∧ tn_ID u ≠ "one")
  | _ => True
  end.
Proof.
  split; [vm_compute; reflexivity|]. pose proof (Delete_outcome "/data" one_disabled 5 "one" one_disabled_reached) as Ho.
  destruct (Delete "/data" 5 "one" one_disabled) as [c' [u|e]]; [apply Ho|exact I].
Defined.

Lemma host_routes_witness :
  is_ok (SetHost 6 "two" "Relay.Example." two_tenants).2 = true ∧
  ∃ t, ResolveHost "relay.example" (SetHost 6 "two" "Relay.Example." two_tenants).1 = Ok t ∧ tn_ID t = "two".
Proof.
  split; [vm_compute; reflexivity|].
  assert (normalizeHost "relay.example" = normalizeHost "Relay.Example.") as En by (vm_compute; reflexivity).
  destruct (host_routes "/data" two_tenants 6 "two" "Relay.Example." "" "relay.example" two_tenants_reached En) as [Hs _].
  apply (Hs _ tt). vm_compute. reflexivity.
Defined.

Lemma consumed_once_witness :
  (ConsumeAuth 10 "proof" 70 start).2 = Ok true ∧
  (ConsumeAuth 70 "proof" 130 (consume_all [(20, "other", 80)] (ConsumeAuth 10 "proof" 70 start).1)).2 = Ok false.
Proof.
  split; [reflexivity|]. apply (consumed_once start 10 "proof" 70 (ConsumeAuth 10 "proof" 70 start).1); [reflexivity| |lia].
  constructor; [cbn; lia|constructor].
Defined.

(** Two processes give one hostname to two tenants: both check, then both write. *)
Example host_given_twice :
  let host := "relay.example" in
  SetHost_check host two_tenants = Ok tt ∧ AddHost_check "two" host two_tenants = Ok tt ∧
  let c1 := (SetHost_update 7 "one" host two_tenants).1 in
  let c2 := (AddHost_insert 8 "two" host "blog" c1).1 in
  tn_ID <$> ResolveHost host c2 = Ok "one" ∧ hm_TenantID <$> ResolveHostMapping host c2 = Ok "two".
Proof. vm_compute. done. Qed.

(** A proof dated a minute ahead is good for two minutes and its consumption is forgotten after one. *)
Example dated_ahead :
  let created := 160 in
  outsideSkew (100 * 1000000000) created = false ∧ outsideSkew (161 * 1000000000) created = false ∧
  (ConsumeAuth 100 "proof" 160 start).2 = Ok true ∧
  (ConsumeAuth 161 "proof" 221 (ConsumeAuth 100 "proof" 160 start).1).2 = Ok true.
Proof. vm_compute. done. Qed.
