(* ===== verification/Relay.v ===== *)
(** * internal/relay: the relay message loop

    The router of relay.go: connections with their subscriptions, their
    reconciliation sessions and their bounded output queue, the handlers of
    the client messages, live delivery, and closing.  Each handler runs under
    the router's fence, so it is one step.  A backend is the record of its
    operations over its own state; its optional interfaces are options.

    Go ranges over maps in any order: [ord] is the order of one step, any
    rearrangement of the keys it is given.  Clients are numbered; a closed
    client is no longer in [r.clients] but its goroutine may still be inside a
    handler, so it is kept with [c_closed] set. *)

From S2P Require Import Prelude GoLib GoCodec GoLemmas GoStrings Nostr Filter SyncProtocol Auth.

(** ** The backend and the configuration *)

Section Interfaces.
Context {B : Type}.

Record Backend := mkBackend {
  (** [Publish]: the backend afterwards, the reason, the error *)
  b_Publish : B → Event → Session → B * (string * option string);
  b_Query : B → list Filter → Session → result (list Event);
  (** [Count]: the JSON of the value *)
  b_Count : B → list Filter → Session → result string;
  (** interface Reader *)
  b_CanRead : option (B → Event → Session → bool);
  (** interface FilterReader *)
  b_CanReadFilter : option (B → Event → Session → Filter → bool);
  (** interface QueryHints *)
  b_QueryHints : option (B → list Filter → Session → result (list Event * list string));
  (** interface PolicyChanges *)
  b_CloseSubscriptions : option (B → Session → B);
  (** interface SyncBackend *)
  b_Sync : option (B → Filter → Session → result (list Item));
}.

Record RelayConfig := mkRelayConfig {
  r_RelayURL : string;
  r_OnAuthenticate : option (B → Session → B * result unit);
  r_MaxMessageBytes : Z;
  r_MaxPendingBytes : Z;
  r_ChangesAccess : option (Event → bool);
}.

Definition withDefaults (c : RelayConfig) : RelayConfig :=
  mkRelayConfig (r_RelayURL c) (r_OnAuthenticate c)
    (if r_MaxMessageBytes c <? 0 then 524288 else r_MaxMessageBytes c)
    (if r_MaxPendingBytes c <=? 0 then 4194304 else r_MaxPendingBytes c) (r_ChangesAccess c).
End Interfaces.
Arguments Backend B : clear implicits.
Arguments RelayConfig B : clear implicits.

(** ** Reasons *)

Definition knownProtocolReason (reason : string) : bool :=
  existsb (HasPrefix reason) ["auth-required:"; "restricted:"; "blocked:"; "invalid:"; "unsupported:"].
Definition duplicateReason (reason : string) : bool := HasPrefix reason "duplicate:".
Definition queryErrorReason (err : string) : string :=
  if knownProtocolReason err then err else "error: query failed: " +:+ err.
Definition syncErrorReason (err : string) : string :=
  if knownProtocolReason err then err else "error: sync failed: " +:+ err.

Definition abs (v : Z) : Z := if v <? 0 then wrap64 (- v) else v.

(** ** Messages *)

Definition ok_message (id : string) (ok : bool) (reason : string) : string :=
  json_array [json_html "OK"; json_html id; json_bool ok; json_html reason].
Definition event_message (id : string) (e : Event) : string :=
  json_array [json_html "EVENT"; json_html id; event_json e].
Definition closed_message (id reason : string) : string :=
  json_array [json_html "CLOSED"; json_html id; json_html reason].
Definition sync_message (kind id text : string) : string :=
  json_array [json_html kind; json_html id; json_html text].
Definition notice (text : string) : string := "[" +:+ quote "NOTICE" +:+ "," +:+ quote text +:+ "]".

Definition strings_json (l : list string) : string := json_array (json_html <$> l).

(** ** State *)

Section Relay.
Context `{Negentropy} {B : Type}.

Record Client := mkClient {
  c_session : Session;
  c_challenge : string;
  c_subs : gmap string (list Filter);
  c_syncs : gmap string SyncSession;
  c_queue : list string;
  c_pending : Z;
  c_closed : bool;
}.

(** [r_conns] and [r_gauge] sum the deltas [OnConnection] and
    [OnSubscription] receive; a listener is the list of events it was called
    with. *)
Record Router := mkRouter {
  r_backend : B;
  r_clients : gmap nat Client;
  r_listeners : gmap nat (list Event);
  r_conns : Z;
  r_gauge : Z;
  r_stopped : bool;
}.

Definition New (backend : B) : Router := mkRouter backend ∅ ∅ 0 0 false.

Definition set_backend (r : Router) (b : B) : Router :=
  mkRouter b (r_clients r) (r_listeners r) (r_conns r) (r_gauge r) (r_stopped r).
Definition set_client (r : Router) (i : nat) (c : Client) : Router :=
  mkRouter (r_backend r) (<[i := c]> (r_clients r)) (r_listeners r) (r_conns r) (r_gauge r) (r_stopped r).
Definition OnSubscription (delta : Z) (r : Router) : Router :=
  mkRouter (r_backend r) (r_clients r) (r_listeners r) (r_conns r) (r_gauge r + delta) (r_stopped r).
Definition OnConnection (delta : Z) (r : Router) : Router :=
  mkRouter (r_backend r) (r_clients r) (r_listeners r) (r_conns r + delta) (r_gauge r) (r_stopped r).

Definition with_subs (c : Client) (subs : gmap string (list Filter)) : Client :=
  mkClient (c_session c) (c_challenge c) subs (c_syncs c) (c_queue c) (c_pending c) (c_closed c).
Definition with_syncs (c : Client) (syncs : gmap string SyncSession) : Client :=
  mkClient (c_session c) (c_challenge c) (c_subs c) syncs (c_queue c) (c_pending c) (c_closed c).
Definition add_key_to (s : Session) (key : string) : Session :=
  mkSession (S_PubKeys s ++ [key]) (S_RelayURL s) (S_RemoteIP s).
Definition with_session (c : Client) (s : Session) : Client :=
  mkClient s (c_challenge c) (c_subs c) (c_syncs c) (c_queue c) (c_pending c) (c_closed c).

(** An operation on one client's fields. *)
Definition on_client (i : nat) (f : Client → Client) (r : Router) : Router :=
  match r_clients r !! i with Some c => set_client r i (f c) | None => r end.

Context (bk : Backend B) (cfg : RelayConfig B).
Context (ord : list string → list string) (cord : list nat → list nat).
Context `{NostrCrypto} `{GoUnicode} `{GoURLs} `{GoPrint}.

Definition keys {A} (m : gmap string A) : list string := ord (map_to_list m).*1.

(** [r.clients]: the clients not closed. *)
Definition open_clients (r : Router) : list nat :=
  cord (List.filter (λ ic : nat * Client, negb (c_closed ic.2)) (map_to_list (r_clients r))).*1.

(** ** The output queue *)

Definition enqueueBytes (c : Client) (b : string) : Client * bool :=
  if c_closed c then (c, false)
  else if r_MaxPendingBytes cfg <? c_pending c + len b then (c, false)
  else (mkClient (c_session c) (c_challenge c) (c_subs c) (c_syncs c) (c_queue c ++ [b]) (c_pending c + len b)
          (c_closed c), true).

(** [_ = c.enqueue(s)] *)
Definition enqueue (b : string) (c : Client) : Client := (enqueueBytes c b).1.
Definition say (i : nat) (b : string) (r : Router) : Router := on_client i (enqueue b) r.

Definition replyOK (i : nat) (id : string) (ok : bool) (reason : string) : Router → Router :=
  say i (ok_message id ok reason).
Definition syncError (i : nat) (id reason : string) : Router → Router := say i (sync_message "NEG-ERR" id reason).
Definition sendSyncMessage (i : nat) (id message : string) : Router → Router :=
  say i (sync_message "NEG-MSG" id message).

Definition closedSub (i : nat) (id reason : string) : Router → Router :=
  on_client i (λ c, enqueue (closed_message id reason) (with_subs c (delete id (c_subs c)))).

(** One iteration of [writer] with a message waiting: it leaves the queue. *)
Definition write_next (i : nat) : Router → Router :=
  on_client i (λ c, match c_queue c with
    | [] => c
    | item :: rest => mkClient (c_session c) (c_challenge c) (c_subs c) (c_syncs c) rest (c_pending c - len item)
                        (c_closed c)
    end).

(** [client.close]: the [once] body. *)
Definition close_client (i : nat) (r : Router) : Router :=
  match r_clients r !! i with
  | Some c =>
    if c_closed c then r
    else OnSubscription (- Z.of_nat (size (c_subs c)))
      (OnConnection (-1)
        (set_client r i (mkClient (c_session c) (c_challenge c) ∅ (c_syncs c) (c_queue c) (c_pending c) true)))
  | None => r
  end.

(** ** Live delivery *)

Definition canRead (b : B) (c : Client) (e : Event) (f : Filter) : bool :=
  match b_CanReadFilter bk with
  | Some can => can b e (c_session c) f
  | None => match b_CanRead bk with Some can => can b e (c_session c) | None => true end
  end.

(** Some filter of the subscription matches the event and lets it be read. *)
Definition wanted (b : B) (c : Client) (e : Event) (filters : list Filter) : bool :=
  existsb (λ f, EventMatches f e && canRead b c e f) filters.

Definition sendEvent (c : Client) (id : string) (e : Event) : Client * bool := enqueueBytes c (event_message id e).

(** One subscription of one client, as it was when delivery began. *)
Definition deliver (e : Event) (i : nat) (subs : gmap string (list Filter)) (r : Router) (id : string) : Router :=
  match r_clients r !! i, subs !! id with
  | Some c, Some filters =>
    if wanted (r_backend r) c e filters then
      let '(c', sent) := sendEvent c id e in
      if sent then set_client r i c' else close_client i (set_client r i c')
    else r
  | _, _ => r
  end.

Definition fanout_client (e : Event) (r : Router) (i : nat) : Router :=
  match r_clients r !! i with
  | Some c => foldl (deliver e i (c_subs c)) r (keys (c_subs c))
  | None => r
  end.

Definition notify_listeners (e : Event) (r : Router) : Router :=
  mkRouter (r_backend r) (r_clients r) ((λ seen, seen ++ [e]) <$> r_listeners r) (r_conns r) (r_gauge r) (r_stopped r).

Definition fanout (e : Event) (r : Router) : Router :=
  notify_listeners e (foldl (fanout_client e) r (open_clients r)).

(** ** Invalidating subscriptions *)

Definition drop_client (reason : string) (r : Router) (i : nat) : Router :=
  match r_clients r !! i with
  | Some c =>
    let ids := keys (c_subs c) in
    let syncs := keys (c_syncs c) in
    let c1 := with_syncs (with_subs c ∅) ∅ in
    let c2 := foldl (λ c id, enqueue (closed_message id reason) c) c1 ids in
    let c3 := foldl (λ c id, enqueue (json_array [json_html "NEG-CLOSE"; json_html id]) c) c2 syncs in
    OnSubscription (- Z.of_nat (List.length ids)) (set_client r i c3)
  | None => r
  end.

Definition closeSubscriptionsLocked (reason : string) (r : Router) : Router :=
  let reason := if String.eqb reason "" then "blocked: relay policy changed" else reason in
  let r := foldl (drop_client reason) r (open_clients r) in
  match b_CloseSubscriptions bk with
  | Some close => set_backend r (close (r_backend r) (mkSession [] (r_RelayURL cfg) ""))
  | None => r
  end.

Definition CloseSubscriptions (reason : string) : Router → Router := closeSubscriptionsLocked reason.

Definition changesAccess (e : Event) : bool :=
  match r_ChangesAccess cfg with Some changes => changes e | None => false end.
Definition access_changed : Router → Router :=
  closeSubscriptionsLocked "blocked: relay access policy changed; subscribe again".

(** ** Publication *)

Definition Publish (e : Event) (s : Session) (r : Router) : Router * (string * option string) :=
  let '(b, (reason, err)) := b_Publish bk (r_backend r) e s in
  let r := set_backend r b in
  match err with
  | Some _ => (r, (reason, err))
  | None =>
    if duplicateReason reason then (r, (reason, err))
    else (fanout e (if changesAccess e then access_changed r else r), (reason, err))
  end.

Definition publishClient (i : nat) (e : Event) (s : Session) (r : Router) : Router * (string * option string) :=
  let '(b, (reason, err)) := b_Publish bk (r_backend r) e s in
  let r := set_backend r b in
  match err with
  | Some _ => (r, (reason, err))
  | None =>
    let r := replyOK i (ID e) true reason r in
    let r := if changesAccess e then access_changed r else r in
    (if String.eqb reason "" then fanout e r else r, (reason, None))
  end.

Definition BroadcastGenerated (e : Event) : Router → Router := fanout e.

(** The commit callback: the backend afterwards and the event or error. *)
Definition CommitGenerated (commit : B → B * result Event) (r : Router) : Router * result Event :=
  let '(b, res) := commit (r_backend r) in
  let r := set_backend r b in
  (match res with Ok e => if String.eqb (ID e) "" then r else fanout e r | Err _ => r end, res).

Definition ApplyACLChange (change : B → B * result unit) (reason : string) (r : Router) : Router * result unit :=
  let '(b, res) := change (r_backend r) in
  let r := set_backend r b in
  (match res with Ok _ => closeSubscriptionsLocked reason r | Err _ => r end, res).

(** ** Handlers *)

(** The [id] member of an event that may not be one. *)
Fixpoint probe_id (found : string) (m : list (string * json)) : option string :=
  match m with
  | [] => Some found
  | (key, v) :: r =>
    if String.eqb key "id" || EqualFold "id" key then s ← decode_string found v; probe_id s r
    else probe_id found r
  end.
Definition rawEventID (j : json) : string := match j with JObj m => default "" (probe_id "" m) | _ => "" end.

Definition session_of (r : Router) (i : nat) : Session :=
  match r_clients r !! i with Some c => c_session c | None => mkSession [] "" "" end.

Definition handleEvent (i : nat) (args : list json) (r : Router) : Router :=
  match args with
  | [] => say i (notice "error: EVENT needs an event") r
  | raw :: _ =>
    match Parse_value raw with
    | Err m => replyOK i (rawEventID raw) false m r
    | Ok e =>
      if Kind e =? KIND_AUTH then replyOK i (ID e) false "blocked: AUTH events use AUTH" r
      else
        let '(r', (_, err)) := publishClient i e (session_of r i) r in
        match err with Some m => replyOK i (ID e) false m r' | None => r' end
    end
  end.

(** A subscription identifier: a string of 1 to 64 bytes. *)
Definition subscription_id (j : json) : option string :=
  match decode_string "" j with
  | Some id => if String.eqb id "" || (64 <? len id) then None else Some id
  | None => None
  end.

Fixpoint parse_filters (raws : list json) : result (list Filter) :=
  match raws with
  | [] => mret []
  | raw :: rest =>
    match ParseFilter_value raw with
    | Err m => Err ("invalid: bad filter: " +:+ m)
    | Ok f => fs ← parse_filters rest; mret (f :: fs)
    end
  end.

Definition handleCount (i : nat) (id : string) (filters : list Filter) (r : Router) : Router :=
  match b_Count bk (r_backend r) filters (session_of r i) with
  | Err m => closedSub i id (queryErrorReason m) r
  | Ok value => say i ("[" +:+ quote "COUNT" +:+ "," +:+ Quote id +:+ "," +:+ value +:+ "]") r
  end.

Definition eose (id : string) (hints : list string) : string :=
  "[" +:+ quote "EOSE" +:+ "," +:+ Quote id
  +:+ (match hints with [] => "" | _ => "," +:+ strings_json hints end) +:+ "]".

(** The loop over the stored events: [false] when the queue is full. *)
Fixpoint send_stored (b : B) (id : string) (filters : list Filter) (events : list Event) (c : Client) : Client * bool :=
  match events with
  | [] => (c, true)
  | e :: rest =>
    if wanted b c e filters then
      let '(c', sent) := sendEvent c id e in
      if sent then send_stored b id filters rest c' else (c', false)
    else send_stored b id filters rest c
  end.

Definition stored_events (r : Router) (i : nat) (filters : list Filter) : result (list Event * list string) :=
  match b_QueryHints bk with
  | Some hinted => hinted (r_backend r) filters (session_of r i)
  | None => events ← b_Query bk (r_backend r) filters (session_of r i); mret (events, [])
  end.

Definition register_sub (i : nat) (id : string) (filters : list Filter) (r : Router) : Router :=
  match r_clients r !! i with
  | Some c =>
    let r' := set_client r i (with_subs c (<[id := filters]> (c_subs c))) in
    match c_subs c !! id with Some _ => r' | None => OnSubscription 1 r' end
  | None => r
  end.

Definition handleREQ (i : nat) (id : string) (filters : list Filter) (r : Router) : Router :=
  let r := register_sub i id filters r in
  match stored_events r i filters with
  | Err m => closedSub i id (queryErrorReason m) r
  | Ok (events, hints) =>
    match r_clients r !! i with
    | None => r
    | Some c =>
      let '(c', sent) := send_stored (r_backend r) id filters events c in
      let r := set_client r i c' in
      if sent then say i (eose id hints) r else closedSub i id (queryErrorReason "slow consumer") r
    end
  end.

Definition handleRequest (kind : string) (i : nat) (args : list json) (r : Router) : Router :=
  match args with
  | first :: (_ :: _) as rest =>
    match subscription_id first with
    | None => say i (notice "error: bad subscription id") r
    | Some id =>
      match parse_filters (tail args) with
      | Err m => closedSub i id m r
      | Ok filters => if String.eqb kind "COUNT" then handleCount i id filters r else handleREQ i id filters r
      end
    end
  | _ => say i ("[" +:+ quote "NOTICE" +:+ "," +:+ Quote ("error: " +:+ kind +:+ " needs an id and at least one filter")
                +:+ "]") r
  end.

Definition handleClose (i : nat) (args : list json) (r : Router) : Router :=
  match args with
  | raw :: _ =>
    match decode_string "" raw, r_clients r !! i with
    | Some id, Some c =>
      let r' := set_client r i (with_subs c (delete id (c_subs c))) in
      match c_subs c !! id with Some _ => OnSubscription (-1) r' | None => r' end
    | _, _ => r
    end
  | [] => r
  end.

Definition normalizeAuthRelay (v : string) : string :=
  match parse_url (TrimSpace v) with
  | None => ""
  | Some u =>
    if String.eqb (p_scheme u) "" || String.eqb (p_host u) "" || p_user u
       || negb (String.eqb (p_fragment u) "") || negb (String.eqb (p_opaque u) "") then ""
    else
      let host := ToLower (p_hostname u) +:+ (if String.eqb (p_port u) "" then "" else ":" +:+ p_port u) in
      let path := TrimRightSlash (p_escaped u) in
      ToLower (p_scheme u) +:+ "://" +:+ host +:+ (if String.eqb path "" then "/" else path)
  end.

(** The refusals of [handleAuth] before the session is touched. *)
Definition auth_checks (c : Client) (now : Z) (e : Event) : result unit :=
  guard_err (negb (Kind e =? KIND_AUTH)) "invalid: auth event must be kind 22242";;
  guard_err (600 <? abs (wrap64 (now - CreatedAt e))) "invalid: auth event created_at is too far from the current time";;
  guard_err (negb (String.eqb (Tag e "challenge") (c_challenge c))) "invalid: auth challenge does not match";;
  guard_err (negb (String.eqb (S_RelayURL (c_session c)) "")
             && negb (String.eqb (normalizeAuthRelay (Tag e "relay")) (normalizeAuthRelay (S_RelayURL (c_session c)))))
    "invalid: auth relay tag does not name this relay".

Definition handleAuth (now : Z) (i : nat) (args : list json) (r : Router) : Router :=
  match args, r_clients r !! i with
  | [], _ => replyOK i "" false "invalid: AUTH needs an event" r
  | raw :: _, Some c =>
    match Parse_value raw with
    | Err m => replyOK i (rawEventID raw) false m r
    | Ok e =>
      match auth_checks c now e with
      | Err m => replyOK i (ID e) false m r
      | Ok _ =>
        let seen := contains (S_PubKeys (c_session c)) (PubKey e) in
        let candidate := if seen then c_session c else add_key_to (c_session c) (PubKey e) in
        let '(b, res) := match r_OnAuthenticate cfg with
                         | Some check => check (r_backend r) candidate
                         | None => (r_backend r, mret tt)
                         end in
        let r := set_backend r b in
        match res with
        | Err m => replyOK i (ID e) false ("error: authentication bookkeeping failed: " +:+ m) r
        | Ok _ => replyOK i (ID e) true "" (if seen then r else set_client r i (with_session c candidate))
        end
      end
    end
  | _, None => r
  end.

Definition set_sync (i : nat) (id : string) (s : option SyncSession) : Router → Router :=
  on_client i (λ c, with_syncs c (partial_alter (λ _, s) id (c_syncs c))).

(** A hex message. *)
Definition sync_text (j : json) : option string :=
  match decode_string "" j with
  | Some m => match hex_decode m with Some _ => Some m | None => None end
  | None => None
  end.

Definition neg_close (id : string) : string := "[" +:+ quote "NEG-CLOSE" +:+ "," +:+ Quote id +:+ "]".

Definition sync_open (i : nat) (id : string) (args : list json) (r : Router) : Router :=
  match args with
  | _ :: filter :: message :: _ =>
    match ParseFilter_value filter with
    | Err m => syncError i id ("invalid: bad filter: " +:+ m) r
    | Ok f =>
      match sync_text message, b_Sync bk with
      | None, _ => syncError i id "invalid: message must be hex" r
      | _, None => syncError i id "unsupported: sync is switched off on this relay" r
      | Some text, Some sync =>
        match sync (r_backend r) f (session_of r i) with
        | Err m => syncError i id (syncErrorReason m) r
        | Ok items =>
          match NewSession items false with
          | Err m => syncError i id (syncErrorReason m) r
          | Ok sess =>
            match Reconcile sess text with
            | (_, Err m) => syncError i id (syncErrorReason m) r
            | (sess', Ok response) =>
              if String.eqb response "" then say i (neg_close id) r
              else sendSyncMessage i id response (set_sync i id (Some sess') r)
            end
          end
        end
      end
    end
  | _ => syncError i id "error: NEG-OPEN needs a filter and a message" r
  end.

Definition sync_next (i : nat) (id : string) (args : list json) (r : Router) : Router :=
  match args, r_clients r !! i with
  | _ :: message :: _, Some c =>
    match sync_text message with
    | None => syncError i id "invalid: message must be hex" r
    | Some text =>
      match c_syncs c !! id with
      | None => syncError i id "closed: no such sync, send NEG-OPEN first" r
      | Some sess =>
        match Reconcile sess text with
        | (_, Err m) => syncError i id ("invalid: " +:+ m) (set_sync i id None r)
        | (sess', Ok response) =>
          if String.eqb response "" then say i (neg_close id) (set_sync i id None r)
          else sendSyncMessage i id response (set_sync i id (Some sess') r)
        end
      end
    end
  | _ :: _ :: _, None => r
  | _, _ => syncError i id "error: NEG-MSG needs a message" r
  end.

Definition handleSync (kind : string) (i : nat) (args : list json) (r : Router) : Router :=
  match args with
  | [] => say i ("[" +:+ quote "NEG-ERR" +:+ "," +:+ quote "" +:+ ","
                 +:+ Quote ("error: " +:+ kind +:+ " needs a subscription id") +:+ "]") r
  | first :: _ =>
    match subscription_id first with
    | None => say i ("[" +:+ quote "NEG-ERR" +:+ "," +:+ quote "" +:+ "," +:+ quote "error: bad subscription id" +:+ "]") r
    | Some id =>
      if String.eqb kind "NEG-CLOSE" then set_sync i id None r
      else if String.eqb kind "NEG-OPEN" then sync_open i id args r
      else sync_next i id args r
    end
  end.

Definition dispatch (now : Z) (i : nat) (kind : string) (args : list json) (r : Router) : Router :=
  if String.eqb kind "EVENT" then handleEvent i args r
  else if String.eqb kind "REQ" || String.eqb kind "COUNT" then handleRequest kind i args r
  else if String.eqb kind "CLOSE" then handleClose i args r
  else if String.eqb kind "AUTH" then handleAuth now i args r
  else if contains ["NEG-OPEN"; "NEG-MSG"; "NEG-CLOSE"] kind then handleSync kind i args r
  else say i (notice ("error: unknown message type " +:+ kind)) r.

(** One round of [readLoop] with a frame read. *)
Inductive frame := Binary | Text (data : string).

Definition read_frame `{GoJson} (now : Z) (i : nat) (fr : frame) (r : Router) : Router :=
  match fr with
  | Binary => say i (notice "error: binary frames are not supported") r
  | Text data =>
    if (0 <? r_MaxMessageBytes cfg) && (r_MaxMessageBytes cfg <? len data)
    then say i (notice "error: message too large") r
    else match json_parse data with
    | Some (JArr (first :: args)) =>
      match decode_string "" first with
      | None => say i (notice "error: message type must be a string") r
      | Some kind => dispatch now i kind args r
      end
    | _ => say i (notice "error: could not parse message") r
    end
  end.

(** ** Connections *)

(** [newClient]: the relay identity of the request wins over the configured
    one; the challenge is the hex of the random bytes. *)
Definition newClient (requested remoteIP : string) (random : list Z) : Client :=
  let relayURL := if String.eqb (TrimSpace requested) "" then r_RelayURL cfg else TrimSpace requested in
  mkClient (mkSession [] relayURL remoteIP) (hex_encode random) ∅ ∅ [] 0 false.

(** [HandleHTTP] after the upgrade and the first line of [run]. *)
Definition connect (i : nat) (requested remoteIP : string) (random : list Z) (r : Router) : Router :=
  if r_stopped r then r
  else say i ("[" +:+ quote "AUTH" +:+ "," +:+ Quote (hex_encode random) +:+ "]")
         (OnConnection 1 (set_client r i (newClient requested remoteIP random))).

Definition Listen (l : nat) (r : Router) : Router :=
  mkRouter (r_backend r) (r_clients r) (<[l := []]> (r_listeners r)) (r_conns r) (r_gauge r) (r_stopped r).
Definition Unlisten (l : nat) (r : Router) : Router :=
  mkRouter (r_backend r) (r_clients r) (delete l (r_listeners r)) (r_conns r) (r_gauge r) (r_stopped r).

Definition Close (r : Router) : Router :=
  let cs := open_clients r in
  foldl (flip close_client) (mkRouter (r_backend r) (r_clients r) (r_listeners r) (r_conns r) (r_gauge r) true) cs.
End Relay.
