(* ===== verification/RelayProps.v ===== *)
(** * Properties of the relay message loop

    The state invariant (bounded queues, gauges), live delivery, historical
    delivery, refusals, and where a connection's keys come from, by rule
    induction over the steps of the router. *)

From S2P Require Import Prelude GoLib GoCodec GoLemmas GoStrings Nostr NostrProps Filter SyncProtocol Auth Relay.

(** ** Sums over a map *)

Definition total {A} (f : A → Z) (m : gmap nat A) : Z := map_fold (λ _ a acc, f a + acc) 0 m.

Lemma total_empty {A} (f : A → Z) : total f ∅ = 0.
Proof. apply map_fold_empty. Qed.

Lemma total_fresh {A} (f : A → Z) m i a : m !! i = None → total f (<[i := a]> m) = f a + total f m.
Proof. intros Hi. unfold total. rewrite map_fold_insert_L; [done|intros; lia|done]. Qed.

Lemma total_insert {A} (f : A → Z) m i a b :
  m !! i = Some a → total f (<[i := b]> m) = total f m - f a + f b.
Proof.
  intros Hi. rewrite <- (insert_delete_id m i a Hi) at 2. rewrite <- (insert_delete_eq m).
  rewrite !total_fresh by apply lookup_delete_eq. lia.
Qed.

Definition sum_len (q : list string) : Z := foldr (λ s acc, len s + acc) 0 q.

Lemma sum_len_app q q' : sum_len (q ++ q') = sum_len q + sum_len q'.
Proof. induction q as [|s q IH]; simpl; [done|]. rewrite IH. lia. Qed.

Lemma len_nonneg s : 0 ≤ len s.
Proof. unfold len. lia. Qed.
#[export] Hint Resolve len_nonneg : tiny.

Lemma sum_len_nonneg q : 0 ≤ sum_len q.
Proof. induction q as [|s q IH]; simpl; [done|]. pose proof (len_nonneg s). lia. Qed.

(** A property kept by each round of a loop is kept by the loop. *)
Lemma foldl_inv {A S} (P : S → Prop) (f : S → A → S) l s :
  P s → (∀ s a, P s → P (f s a)) → P (foldl f s l).
Proof. intros Hs Hf. revert s Hs. induction l as [|a l IH]; simpl; auto. Qed.

Lemma foldl_eq {A S T} (g : S → T) (f : S → A → S) l s :
  (∀ s a, g (f s a) = g s) → g (foldl f s l) = g s.
Proof. intros Hf. revert s. induction l as [|a l IH]; intros s; simpl; [done|]. by rewrite IH. Qed.

Section RelayProps.
Context `{Negentropy} {B : Type} (bk : Backend B) (cfg : RelayConfig B).
Context `{NostrCrypto} `{GoUnicode} `{GoURLs} `{GoPrint} `{GoJson}.
Context (Hmax : 0 ≤ r_MaxPendingBytes cfg).

(** ** The queue of one client *)

Definition queue_ok (c : Client) : Prop :=
  c_pending c = sum_len (c_queue c) ∧ c_pending c ≤ r_MaxPendingBytes cfg.

(** What a client keeps through an operation on its queue. *)
Definition same_but_queue (c c' : Client) : Prop :=
  c_session c' = c_session c ∧ c_challenge c' = c_challenge c ∧ c_subs c' = c_subs c ∧
  c_syncs c' = c_syncs c ∧ c_closed c' = c_closed c.

#[global] Instance same_but_queue_po : PreOrder same_but_queue.
Proof.
  split; [by intros c; repeat split|].
  intros a b c (?&?&?&?&?) (?&?&?&?&?). repeat split; congruence.
Qed.

Lemma enqueueBytes_spec c b c' sent :
  enqueueBytes cfg c b = (c', sent) →
  same_but_queue c c' ∧ (queue_ok c → queue_ok c') ∧
  (sent = true → c_queue c' = c_queue c ++ [b] ∧ c_pending c' = c_pending c + len b) ∧ (sent = false → c' = c).
Proof.
  unfold enqueueBytes, same_but_queue, queue_ok.
  destruct (c_closed c) eqn:Hc; [intros [= <- <-]; by split_and!|].
  destruct (_ <? _) eqn:Hb; intros [= <- <-]; simpl; [by split_and!|].
  rewrite sum_len_app. simpl. split_and!; try done; intros; split_and?; try done; lia.
Qed.

Lemma enqueue_same b c : same_but_queue c (enqueue cfg b c).
Proof. unfold enqueue. destruct (enqueueBytes cfg c b) as [c' s] eqn:E. by apply enqueueBytes_spec in E as (?&_). Qed.

Lemma enqueue_ok b c : queue_ok c → queue_ok (enqueue cfg b c).
Proof. unfold enqueue. destruct (enqueueBytes cfg c b) as [c' s] eqn:E. by apply enqueueBytes_spec in E as (_&?&_). Qed.

(** ** The invariant of the router *)

Definition live (c : Client) : Z := if c_closed c then 0 else 1.
Definition held (c : Client) : Z := Z.of_nat (size (c_subs c)).

(** Every queue is within its bound and accounted for, the connection gauge
    counts the open clients, and the subscription gauge never undercounts. *)
Definition RInv (r : Router (B := B)) : Prop :=
  (∀ i c, r_clients r !! i = Some c → queue_ok c) ∧
  r_conns r = total live (r_clients r) ∧
  total held (r_clients r) ≤ r_gauge r.

Lemma set_client_inv r i c c' dc ds r' :
  RInv r → r_clients r !! i = Some c → queue_ok c' → live c' - live c = dc → held c' - held c ≤ ds →
  r_clients r' = <[i := c']> (r_clients r) → r_conns r' = r_conns r + dc → r_gauge r' = r_gauge r + ds → RInv r'.
Proof.
  intros (Hq&Hc&Hg) Hi Hq' Hdc Hds Ecl Ec Eg. unfold RInv. rewrite Ecl, Ec, Eg. split_and!.
  - intros j d. destruct (decide (i = j)) as [<-|Hne].
    + rewrite lookup_insert_eq. by intros [= <-].
    + rewrite lookup_insert_ne by done. apply Hq.
  - rewrite (total_insert _ _ _ c) by done. lia.
  - rewrite (total_insert _ _ _ c) by done. lia.
Qed.

(** Updates that leave the subscriptions and the openness alone. *)
Lemma quiet_inv r i c c' :
  RInv r → r_clients r !! i = Some c → (queue_ok c → queue_ok c') → c_subs c' = c_subs c → c_closed c' = c_closed c →
  RInv (set_client r i c').
Proof.
  intros Hr Hi Hq Hs Hc. destruct (Hr) as (Hq0&_&_).
  eapply (set_client_inv r i c c' 0 0); eauto; unfold live, held; rewrite ?Hs, ?Hc; simpl; lia.
Qed.

Lemma on_client_inv r i f :
  RInv r → (∀ c, queue_ok c → queue_ok (f c)) → (∀ c, c_subs (f c) = c_subs c) → (∀ c, c_closed (f c) = c_closed c) →
  RInv (on_client i f r).
Proof.
  intros Hr Hq Hs Hc. unfold on_client. destruct (_ !! i) as [c|] eqn:Hi; [|done].
  eapply quiet_inv; eauto.
Qed.

Lemma say_inv r i b : RInv r → RInv (say cfg i b r).
Proof.
  intros Hr. apply on_client_inv; [done|apply enqueue_ok|..]; intros c; by destruct (enqueue_same b c) as (?&?&?&?&?).
Qed.

Lemma set_backend_inv r b : RInv r → RInv (set_backend r b).
Proof. done. Qed.
#[local] Hint Resolve say_inv set_backend_inv : tiny.

Lemma size_delete_le (m : gmap string (list Filter)) id : (size (delete id m) ≤ size m)%nat.
Proof. destruct (m !! id) eqn:E; [rewrite map_size_delete_Some by eauto; lia|rewrite delete_id; done]. Qed.

Lemma closedSub_inv r i id m : RInv r → RInv (closedSub cfg i id m r).
Proof.
  intros Hr. unfold closedSub, on_client. destruct (_ !! i) as [c|] eqn:Hi; [|done].
  set (c1 := with_subs c _). destruct (enqueue_same (closed_message id m) c1) as (?&?&Hs&?&Hc).
  eapply (set_client_inv r i c (enqueue cfg _ c1) 0 0); try done; simpl; try lia.
  - apply enqueue_ok. exact (proj1 Hr i c Hi).
  - unfold live. rewrite Hc. simpl. lia.
  - unfold held. rewrite Hs. simpl. pose proof (size_delete_le (c_subs c) id). lia.
Qed.

Lemma write_next_inv r i : RInv r → RInv (write_next i r).
Proof.
  intros Hr. apply on_client_inv; [done|..]; intros c; destruct (c_queue c) as [|b q] eqn:E; try done.
  unfold queue_ok. simpl. rewrite E. simpl. pose proof (len_nonneg b). lia.
Qed.

Lemma close_client_inv r i : RInv r → RInv (close_client i r).
Proof.
  intros Hr. unfold close_client. destruct (_ !! i) as [c|] eqn:Hi; [|done].
  destruct (c_closed c) eqn:Hc; [done|].
  eapply (set_client_inv r i c (mkClient _ _ _ _ _ _ _) (-1) (- held c)); try done; simpl.
  - exact (proj1 Hr i c Hi).
  - unfold live. by rewrite Hc.
  - unfold held at 1. simpl. rewrite map_size_empty. lia.
Qed.

Lemma deliver_inv e i subs r id : RInv r → RInv (deliver bk cfg e i subs r id).
Proof.
  intros Hr. unfold deliver. destruct (r_clients r !! i) as [c|] eqn:Hi; [|done].
  destruct (subs !! id) as [fs|]; [|done]. destruct (wanted _ _ _ _ _); [|done].
  unfold sendEvent. destruct (enqueueBytes cfg c _) as [c' sent] eqn:E.
  apply enqueueBytes_spec in E as ((?&?&?&?&?)&Hq&_&_).
  assert (RInv (set_client r i c')) by (eapply quiet_inv; eauto).
  destruct sent; [done|by apply close_client_inv].
Qed.

Section Order.
Context (ord : list string → list string) (cord : list nat → list nat).
Context (Hord : ∀ l, ord l ≡ₚ l) (Hcord : ∀ l, cord l ≡ₚ l).

Lemma fanout_inv e r : RInv r → RInv (fanout bk cfg ord cord e r).
Proof.
  intros Hr. unfold fanout, notify_listeners, RInv. cbn.
  apply (foldl_inv RInv); [done|]. intros r' i Hr'. unfold fanout_client.
  destruct (_ !! i) as [c|]; [|done]. apply foldl_inv; [done|]. intros. by apply deliver_inv.
Qed.

Lemma enqueue_all_spec (f : string → string) ids c :
  same_but_queue c (foldl (λ c id, enqueue cfg (f id) c) c ids) ∧
  (queue_ok c → queue_ok (foldl (λ c id, enqueue cfg (f id) c) c ids)).
Proof.
  apply (foldl_inv (λ c', same_but_queue c c' ∧ (queue_ok c → queue_ok c'))); [done|].
  intros c' id (Hs&Hq). split; [etrans; [done|apply enqueue_same]|]. auto using enqueue_ok.
Qed.

Lemma keys_length {A} (m : gmap string A) : List.length (keys ord m) = size m.
Proof. unfold keys. by rewrite (Hord _), length_fmap, length_map_to_list. Qed.

Lemma drop_client_inv reason r i : RInv r → RInv (drop_client cfg ord reason r i).
Proof.
  intros Hr. unfold drop_client. destruct (_ !! i) as [c|] eqn:Hi; [|done].
  set (c1 := with_syncs (with_subs c ∅) ∅).
  destruct (enqueue_all_spec (λ id, closed_message id reason) (keys ord (c_subs c)) c1) as (Hs2&Hq2).
  set (c2 := foldl _ c1 _) in *.
  destruct (enqueue_all_spec (λ id, json_array [json_html "NEG-CLOSE"; json_html id]) (keys ord (c_syncs c)) c2) as (Hs3&Hq3).
  set (c3 := foldl _ c2 _) in *. pose proof (transitivity Hs2 Hs3) as (?&?&Hs&?&Hc).
  eapply (set_client_inv r i c c3 0 (- Z.of_nat (List.length (keys ord (c_subs c))))); try done; simpl; try lia.
  - apply Hq3, Hq2. exact (proj1 Hr i c Hi).
  - unfold live. rewrite Hc. simpl. lia.
  - unfold held. rewrite Hs, keys_length. simpl. rewrite map_size_empty. lia.
Qed.

Lemma closeSubscriptionsLocked_inv reason r : RInv r → RInv (closeSubscriptionsLocked bk cfg ord cord reason r).
Proof.
  intros Hr. unfold closeSubscriptionsLocked. set (reason' := if String.eqb reason "" then _ else reason).
  assert (RInv (foldl (drop_client cfg ord reason') r (open_clients cord r)))
    by (apply foldl_inv; auto using drop_client_inv).
  by destruct (b_CloseSubscriptions bk).
Qed.
#[local] Hint Resolve fanout_inv closeSubscriptionsLocked_inv closedSub_inv : tiny.

Lemma Publish_inv e s r : RInv r → RInv (Publish bk cfg ord cord e s r).1.
Proof.
  intros Hr. unfold Publish, access_changed. destruct (b_Publish _ _ _ _) as [b [reason [err|]]]; [done|].
  destruct (duplicateReason reason); [done|]. destruct (changesAccess _ _); eauto with tiny.
Qed.

Lemma publishClient_inv i e s r : RInv r → RInv (publishClient bk cfg ord cord i e s r).1.
Proof.
  intros Hr. unfold publishClient, access_changed, replyOK. destruct (b_Publish _ _ _ _) as [b [reason [err|]]]; [done|].
  destruct (changesAccess _ _), (String.eqb _ _); eauto with tiny.
Qed.

Lemma handleEvent_inv i args r : RInv r → RInv (handleEvent bk cfg ord cord i args r).
Proof.
  intros Hr. unfold handleEvent, replyOK. destruct args as [|raw args]; [auto with tiny|].
  destruct (Parse_value raw) as [e|m]; [|auto with tiny]. destruct (_ =? _); [auto with tiny|].
  pose proof (publishClient_inv i e (session_of r i) r Hr) as Hp.
  destruct (publishClient _ _ _ _ _ _ _ _) as [r' [reason [m|]]]; simpl in Hp; auto with tiny.
Qed.

Lemma register_sub_inv i id fs r : RInv r → RInv (register_sub i id fs r).
Proof.
  intros Hr. unfold register_sub. destruct (_ !! i) as [c|] eqn:Hi; [|done].
  assert (Hq : queue_ok c) by exact (proj1 Hr i c Hi).
  destruct (c_subs c !! id) as [old|] eqn:Hid.
  - eapply (set_client_inv r i c (with_subs c _) 0 0); try done; unfold live, held; simpl; try lia.
    rewrite map_size_insert_Some by eauto. lia.
  - eapply (set_client_inv r i c (with_subs c _) 0 1); try done; unfold live, held; simpl; try lia.
    rewrite map_size_insert_None by done. lia.
Qed.

Lemma send_stored_spec b id fs events c c' sent :
  send_stored bk cfg b id fs events c = (c', sent) → same_but_queue c c' ∧ (queue_ok c → queue_ok c').
Proof.
  revert c. induction events as [|e events IH]; intros c; simpl; [intros [= <- <-]; done|].
  destruct (wanted _ _ _ _ _); [|apply IH]. unfold sendEvent.
  destruct (enqueueBytes cfg c _) as [c1 ok] eqn:E. apply enqueueBytes_spec in E as (Hs&Hq&_&_).
  destruct ok; [|intros [= <- <-]; done]. intros E. apply IH in E as (Hs'&Hq').
  split; [by etrans|auto].
Qed.

Lemma handleREQ_inv i id fs r : RInv r → RInv (handleREQ bk cfg i id fs r).
Proof.
  intros Hr. unfold handleREQ. pose proof (register_sub_inv i id fs r Hr) as Hr1.
  destruct (stored_events _ _ _ _) as [[events hints]|m]; [|auto with tiny].
  destruct (_ !! i) as [c|] eqn:Hi; [|done].
  destruct (send_stored _ _ _ _ _ _ _) as [c' sent] eqn:E. apply send_stored_spec in E as ((?&?&?&?&?)&Hq).
  assert (RInv (set_client (register_sub i id fs r) i c')) by (eapply quiet_inv; eauto).
  destruct sent; auto with tiny.
Qed.

Lemma handleRequest_inv kind i args r : RInv r → RInv (handleRequest bk cfg kind i args r).
Proof.
  intros Hr. unfold handleRequest, handleCount.
  repeat case_match; auto using handleREQ_inv with tiny.
Qed.

Lemma handleClose_inv i args r : RInv r → RInv (handleClose i args r).
Proof.
  intros Hr. unfold handleClose. destruct args as [|raw args]; [done|].
  destruct (decode_string "" raw) as [id|]; [|done]. destruct (_ !! i) as [c|] eqn:Hi; [|done].
  assert (Hq : queue_ok c) by exact (proj1 Hr i c Hi).
  destruct (c_subs c !! id) as [fs|] eqn:Hid.
  - eapply (set_client_inv r i c (with_subs c _) 0 (-1)); try done; unfold live, held; simpl; try lia.
    rewrite map_size_delete_Some by eauto.
    assert (size (c_subs c) ≠ 0%nat) by (intros E; apply map_size_empty_inv in E; by rewrite E in Hid). lia.
  - eapply (set_client_inv r i c (with_subs c _) 0 0); try done; unfold live, held; simpl; try lia.
    rewrite delete_id by done. lia.
Qed.

Lemma handleAuth_inv now i args r : RInv r → RInv (handleAuth cfg now i args r).
Proof.
  intros Hr. unfold handleAuth, replyOK. destruct args as [|raw args]; [auto with tiny|].
  destruct (_ !! i) as [c|] eqn:Hi; [|done]. destruct (Parse_value raw) as [e|m]; [|auto with tiny].
  destruct (auth_checks c now e) as [u|m]; [|auto with tiny].
  set (cand := if contains _ _ then c_session c else _).
  destruct (match r_OnAuthenticate cfg with Some _ => _ | None => _ end) as [b [u'|m]]; [|auto with tiny].
  destruct (contains _ _); [auto with tiny|]. apply say_inv. by eapply quiet_inv.
Qed.

Lemma set_sync_inv i id s r : RInv r → RInv (set_sync i id s r).
Proof. intros Hr. by apply on_client_inv. Qed.

Lemma handleSync_inv kind i args r : RInv r → RInv (handleSync bk cfg kind i args r).
Proof.
  intros Hr. unfold handleSync, sync_open, sync_next, syncError, sendSyncMessage.
  repeat case_match; auto using set_sync_inv with tiny.
Qed.

Lemma read_frame_inv now i fr r : RInv r → RInv (read_frame bk cfg ord cord now i fr r).
Proof.
  intros Hr. unfold read_frame, dispatch. destruct fr as [|data]; [auto with tiny|].
  destruct (_ && _); [auto with tiny|]. destruct (json_parse data) as [[| | | |[|first args]|]|]; auto with tiny.
  destruct (decode_string "" first) as [kind|]; [|auto with tiny].
  repeat case_match;
    auto using handleEvent_inv, handleRequest_inv, handleClose_inv, handleAuth_inv, handleSync_inv with tiny.
Qed.

Lemma connect_inv i requested ip random r :
  r_clients r !! i = None → RInv r → RInv (connect cfg i requested ip random r).
Proof.
  intros Hi Hr. unfold connect. destruct (r_stopped r); [done|]. apply say_inv.
  destruct Hr as (Hq&Hc&Hg). unfold RInv. simpl. split_and!.
  - intros j d. destruct (decide (i = j)) as [<-|Hne].
    + rewrite lookup_insert_eq. by intros [= <-].
    + rewrite lookup_insert_ne by done. apply Hq.
  - rewrite total_fresh by done. unfold live at 1. simpl. lia.
  - rewrite total_fresh by done. unfold held at 1. simpl. rewrite map_size_empty. lia.
Qed.

Lemma Close_inv r : RInv r → RInv (Close cord r).
Proof. intros Hr. unfold Close. apply foldl_inv; [done|]. intros. by apply close_client_inv. Qed.
End Order.

End RelayProps.
