(* ===== verification/RelayRuns.v ===== *)
(** * Runs of the relay router

    The steps of a router as a labelled relation, the invariant of every
    reachable state, and the provenance of a connection's keys. *)

From S2P Require Import Prelude GoLib GoCodec GoLemmas GoStrings Nostr NostrProps Filter SyncProtocol Auth Relay RelayProps.

Section Runs.
Context `{Negentropy} {B : Type} (bk : Backend B) (cfg : RelayConfig B).
Context `{NostrCrypto} `{GoUnicode} `{GoURLs} `{GoPrint} `{GoJson}.

(** What a step reads from a connection. *)
Inductive label := Received (now : Z) (i : nat) (fr : frame) | Internal.

(** Any order Go may range in. *)
Definition any_order (ord : list string → list string) (cord : list nat → list nat) : Prop :=
  (∀ l, ord l ≡ₚ l) ∧ (∀ l, cord l ≡ₚ l).

Inductive step : Router (B := B) → label → Router (B := B) → Prop :=
| step_connect r i requested ip random :
    r_clients r !! i = None → step r Internal (connect cfg i requested ip random r)
| step_frame r ord cord now i fr :
    any_order ord cord → 0 ≤ now ≤ int64_max → is_Some (r_clients r !! i) →
    step r (Received now i fr) (read_frame bk cfg ord cord now i fr r)
| step_write r i : step r Internal (write_next i r)
| step_hang_up r i : step r Internal (close_client i r)
| step_publish r ord cord e s : any_order ord cord → step r Internal (Publish bk cfg ord cord e s r).1
| step_generated r ord cord e : any_order ord cord → step r Internal (BroadcastGenerated bk cfg ord cord e r)
| step_commit r ord cord commit : any_order ord cord → step r Internal (CommitGenerated bk cfg ord cord commit r).1
| step_acl r ord cord change reason :
    any_order ord cord → step r Internal (ApplyACLChange bk cfg ord cord change reason r).1
| step_invalidate r ord cord reason :
    any_order ord cord → step r Internal (CloseSubscriptions bk cfg ord cord reason r)
| step_listen r l : step r Internal (Listen l r)
| step_unlisten r l : step r Internal (Unlisten l r)
| step_backend r b : step r Internal (set_backend r b)
| step_shutdown r ord cord : any_order ord cord → step r Internal (Close cord r).

Inductive runs (b0 : B) : list label → Router (B := B) → Prop :=
| runs_new : runs b0 [] (New b0)
| runs_step h r l r' : runs b0 h r → step r l r' → runs b0 (h ++ [l]) r'.

(** ** The invariant *)

Section Invariant.
Context (Hmax : 0 ≤ r_MaxPendingBytes cfg).

Lemma step_RInv r l r' : step r l r' → RInv cfg r → RInv cfg r'.
Proof.
  intros Hs Hr. destruct Hs as [r i rq ip rnd Hi|r ord cord now i fr [Ho Hc] Hn Hi|r i|r i|r ord cord e s [Ho Hc]|r ord cord e [Ho Hc]
    |r ord cord commit [Ho Hc]|r ord cord change reason [Ho Hc]|r ord cord reason [Ho Hc]|r k|r k|r b|r ord cord [Ho Hc]].
  - by apply connect_inv.
  - by apply read_frame_inv.
  - by apply write_next_inv.
  - by apply close_client_inv.
  - by apply Publish_inv.
  - by apply fanout_inv.
  - unfold CommitGenerated. destruct (commit _) as [b [e|m]]; simpl; [|done].
    destruct (String.eqb _ _); [done|by apply fanout_inv].
  - unfold ApplyACLChange. destruct (change _) as [b [u|m]]; simpl; [|done].
    by apply closeSubscriptionsLocked_inv.
  - by apply closeSubscriptionsLocked_inv.
  - done.
  - done.
  - done.
  - by apply Close_inv.
Qed.

Lemma runs_RInv b0 h r : runs b0 h r → RInv cfg r.
Proof.
  induction 1 as [|h r l r' _ IH Hs]; [|by eapply step_RInv].
  unfold RInv. simpl. rewrite !total_empty. split_and!; [|done|lia]. intros i c. by rewrite lookup_empty.
Qed.
End Invariant.

(** ** Identity of the connections *)

Definition identity (c : Client) : Session * string := (c_session c, c_challenge c).
Definition identities (r : Router (B := B)) : gmap nat (Session * string) := identity <$> r_clients r.

Lemma set_client_ids r i c c' :
  r_clients r !! i = Some c → identity c' = identity c → identities (set_client r i c') = identities r.
Proof.
  intros Hi Hc. unfold identities. simpl. rewrite fmap_insert, Hc. apply insert_id. by rewrite lookup_fmap, Hi.
Qed.

Lemma same_identity c c' : same_but_queue c c' → identity c' = identity c.
Proof. intros (Hs&Hc&_). unfold identity. by rewrite Hs, Hc. Qed.

Lemma on_client_ids r i f : (∀ c, identity (f c) = identity c) → identities (on_client i f r) = identities r.
Proof.
  intros Hf. unfold on_client. destruct (_ !! i) as [c|] eqn:Hi; [|done]. by apply (set_client_ids r i c).
Qed.

Lemma say_ids i b r : identities (say cfg i b r) = identities r.
Proof. apply on_client_ids. intros c. apply same_identity, enqueue_same. Qed.

Lemma closedSub_ids i id m r : identities (closedSub cfg i id m r) = identities r.
Proof. apply on_client_ids. intros c. by rewrite (same_identity _ _ (enqueue_same cfg _ _)). Qed.

Lemma write_next_ids i r : identities (write_next i r) = identities r.
Proof. apply on_client_ids. intros c. by destruct (c_queue c). Qed.

Lemma close_client_ids i r : identities (close_client i r) = identities r.
Proof.
  unfold close_client. destruct (_ !! i) as [c|] eqn:Hi; [|done]. destruct (c_closed c); [done|].
  exact (set_client_ids r i c (mkClient _ _ _ _ _ _ _) Hi eq_refl).
Qed.

Lemma deliver_ids e i subs r id : identities (deliver bk cfg e i subs r id) = identities r.
Proof.
  unfold deliver. destruct (r_clients r !! i) as [c|] eqn:Hi; [|done]. destruct (subs !! id) as [fs|]; [|done].
  destruct (wanted _ _ _ _ _); [|done]. unfold sendEvent. destruct (enqueueBytes cfg c _) as [c' sent] eqn:E.
  apply enqueueBytes_spec in E as (Hs&_).
  assert (Hset : identities (set_client r i c') = identities r) by (apply (set_client_ids r i c); [done|by apply same_identity]).
  destruct sent; [done|by rewrite close_client_ids].
Qed.

Lemma fanout_ids ord cord e r : identities (fanout bk cfg ord cord e r) = identities r.
Proof.
  unfold fanout. trans (identities (foldl (fanout_client bk cfg ord e) r (open_clients cord r))); [done|].
  apply foldl_eq. intros r' i. unfold fanout_client. destruct (_ !! i); [|done]. apply foldl_eq. intros. apply deliver_ids.
Qed.

Lemma drop_client_ids ord reason r i : identities (drop_client cfg ord reason r i) = identities r.
Proof.
  unfold drop_client. destruct (_ !! i) as [c|] eqn:Hi; [|done].
  set (c1 := with_syncs (with_subs c ∅) ∅).
  pose proof (proj1 (enqueue_all_spec cfg (λ id, closed_message id reason) (keys ord (c_subs c)) c1)) as Hq1.
  set (c2 := foldl _ c1 _) in *.
  pose proof (proj1 (enqueue_all_spec cfg (λ id, json_array [json_html "NEG-CLOSE"; json_html id]) (keys ord (c_syncs c)) c2)) as Hq2.
  set (c3 := foldl _ c2 _) in *.
  exact (set_client_ids r i c c3 Hi (eq_trans (same_identity _ _ Hq2) (same_identity _ _ Hq1))).
Qed.

Lemma closeSubscriptionsLocked_ids ord cord reason r :
  identities (closeSubscriptionsLocked bk cfg ord cord reason r) = identities r.
Proof.
  unfold closeSubscriptionsLocked. set (r1 := foldl _ _ _).
  assert (E : identities r1 = identities r) by (apply foldl_eq; intros; apply drop_client_ids).
  by destruct (b_CloseSubscriptions bk).
Qed.

Lemma set_backend_ids r b : identities (set_backend r b) = identities r.
Proof. done. Qed.

Lemma register_sub_ids i id fs r : identities (register_sub i id fs r) = identities r.
Proof.
  unfold register_sub. destruct (_ !! i) as [c|] eqn:Hi; [|done].
  pose proof (set_client_ids r i c (with_subs c (<[id:=fs]> (c_subs c))) Hi eq_refl) as E.
  by destruct (c_subs c !! id).
Qed.

Lemma set_sync_ids i id s r : identities (set_sync i id s r) = identities r.
Proof. by apply on_client_ids. Qed.

Hint Rewrite say_ids closedSub_ids write_next_ids close_client_ids fanout_ids closeSubscriptionsLocked_ids
  set_backend_ids register_sub_ids set_sync_ids : ids.
Ltac ids := repeat first [progress cbn [fst snd] | progress autorewrite with ids | done | case_match].

Lemma Publish_ids ord cord e s r : identities (Publish bk cfg ord cord e s r).1 = identities r.
Proof. unfold Publish, access_changed. destruct (b_Publish _ _ _ _) as [b [reason [m|]]]; simpl; ids. Qed.

Lemma publishClient_ids ord cord i e s r : identities (publishClient bk cfg ord cord i e s r).1 = identities r.
Proof. unfold publishClient, access_changed, replyOK. destruct (b_Publish _ _ _ _) as [b [reason [m|]]]; simpl; ids. Qed.

Lemma handleEvent_ids ord cord i args r : identities (handleEvent bk cfg ord cord i args r) = identities r.
Proof.
  unfold handleEvent, replyOK. destruct args as [|raw args]; [ids|]. destruct (Parse_value raw) as [e|m]; [|ids].
  destruct (_ =? _); [ids|]. pose proof (publishClient_ids ord cord i e (session_of r i) r) as E.
  destruct (publishClient _ _ _ _ _ _ _ _) as [r' [reason [m|]]]; simpl in E; by ids.
Qed.

Lemma handleREQ_ids i id fs r : identities (handleREQ bk cfg i id fs r) = identities r.
Proof.
  unfold handleREQ. destruct (stored_events _ _ _ _) as [[events hints]|m]; [|ids].
  destruct (r_clients (register_sub i id fs r) !! i) as [c|] eqn:Hi; [|ids].
  destruct (send_stored _ _ _ _ _ _ _) as [c' sent] eqn:E. apply send_stored_spec in E as (Hs&_).
  pose proof (set_client_ids _ i c c' Hi (same_identity _ _ Hs)) as E. destruct sent; ids; by rewrite E; ids.
Qed.

Lemma handleClose_ids i args r : identities (handleClose i args r) = identities r.
Proof.
  unfold handleClose. destruct args as [|raw args]; [done|]. destruct (decode_string "" raw) as [id|]; [|done].
  destruct (_ !! i) as [c|] eqn:Hi; [|done].
  pose proof (set_client_ids r i c (with_subs c (delete id (c_subs c))) Hi eq_refl) as E. by destruct (c_subs c !! id).
Qed.

Lemma handleSync_ids kind i args r : identities (handleSync bk cfg kind i args r) = identities r.
Proof. unfold handleSync, sync_open, sync_next, syncError, sendSyncMessage. ids. Qed.

Lemma handleRequest_ids kind i args r : identities (handleRequest bk cfg kind i args r) = identities r.
Proof. unfold handleRequest, handleCount. repeat case_match; rewrite ?handleREQ_ids; ids. Qed.

(** ** Where the keys of a session come from *)

Lemma parse_uint_nonneg s n : 0 ≤ n → 0 ≤ num_value (parse_uint_go s n).
Proof.
  revert n. induction s as [|a s IH]; intros n Hn; simpl; [done|].
  destruct (is_digit (byte_of a)) eqn:E; simpl; [|done]. case_match; [done|]. apply IH.
  apply andb_true_iff in E as [E%Z.leb_le _]. lia.
Qed.

Lemma ParseInt_max s z : ParseInt s = NumOk z → z ≤ int64_max.
Proof.
  unfold ParseInt. destruct (match s with EmptyString => _ | String _ _ => _ end) as [neg body].
  assert (Hn : 0 ≤ num_value (ParseUint body)) by (unfold ParseUint; case_match; [done|by apply parse_uint_nonneg]).
  unfold int64_max. destruct (ParseUint body) as [un| |un]; simpl in *; [|done|];
    destruct neg; cbn [negb andb]; repeat case_match; try done; intros [= <-]; lia.
Qed.

Lemma decode_member_time e kv e' :
  decode_member e kv = Some e' → CreatedAt e ≤ int64_max → CreatedAt e' ≤ int64_max.
Proof.
  destruct kv as [key v]. unfold decode_member. destruct (field_of key) as [f|]; [|by intros [= <-]].
  repeat (case_match; [intros Hd He; apply fmap_Some in Hd as (x & Hx & ->); simpl; try done|]);
    [|intros Hd He; by apply fmap_Some in Hd as (x & Hx & ->)].
  destruct v as [| |lit| | |]; simpl in Hx; try done; [by injection Hx as <-|].
  destruct (ParseInt lit) as [z| |z] eqn:E; simpl in Hx; try done. injection Hx as <-. by apply ParseInt_max in E.
Qed.

Lemma Parse_value_bounds j e :
  Parse_value j = Ok e → Validate e = Ok tt ∧ 0 ≤ CreatedAt e ≤ int64_max.
Proof.
  unfold Parse_value. intros Hp. apply result_bind_Ok in Hp as ([] & _ & Hp).
  destruct j as [| | | | |m]; try done. destruct (decode_members nil_event m) as [e0|] eqn:Hd; [|done].
  apply result_bind_Ok in Hp as ([] & Hv & [= <-]). split; [done|].
  apply Validate_iff in Hv as ((_&_&_&_&_&Hc0&_)&_). split; [done|]. clear Hc0.
  assert (Hi : CreatedAt nil_event ≤ int64_max) by done. revert Hd Hi. generalize nil_event.
  induction m as [|kv m IH]; intros e1; simpl; [by intros [= <-]|].
  destruct (decode_member e1 kv) as [e2|] eqn:E2; simpl; [|done]. intros Hd Hi.
  apply (IH e2); [done|]. by eapply decode_member_time.
Qed.

(** What an AUTH event has to be to authenticate its signer on a connection
    with relay identity [relay] and challenge [challenge]. *)
Definition answers (relay challenge : string) (now : Z) (e : Event) : Prop :=
  Validate e = Ok tt ∧ Kind e = KIND_AUTH ∧ Z.abs (now - CreatedAt e) ≤ 600 ∧ Tag e "challenge" = challenge ∧
  (relay = "" ∨ normalizeAuthRelay (Tag e "relay") = normalizeAuthRelay relay).

Lemma auth_checks_Ok c now raw e :
  Parse_value raw = Ok e → 0 ≤ now ≤ int64_max → auth_checks c now e = Ok tt →
  answers (S_RelayURL (c_session c)) (c_challenge c) now e.
Proof.
  intros Hp Hn. apply Parse_value_bounds in Hp as (Hv & Hc).
  unfold auth_checks. rewrite !guard_bind_Ok, guard_err_Ok.
  intros (Hk%negb_false_iff%Z.eqb_eq & Ht & Hch%negb_false_iff%String.eqb_eq & Hr).
  split_and!; [done|done| |done|].
  - unfold abs in Ht. rewrite (wrap64_small (now - CreatedAt e)) in Ht by (unfold int64_min, int64_max in *; lia).
    destruct (now - CreatedAt e <? 0) eqn:E; [rewrite wrap64_small in Ht by (unfold int64_min, int64_max in *; lia)|]; lia.
  - apply andb_false_iff in Hr as [Hr%negb_false_iff%String.eqb_eq|Hr%negb_false_iff%String.eqb_eq]; auto.
Qed.

Lemma handleAuth_ids now i args r :
  identities (handleAuth cfg now i args r) = identities r ∨
  ∃ c raw rest e, r_clients r !! i = Some c ∧ args = raw :: rest ∧ Parse_value raw = Ok e ∧ auth_checks c now e = Ok tt ∧
    identities (handleAuth cfg now i args r) =
      <[i := (add_key_to (c_session c) (PubKey e), c_challenge c)]> (identities r).
Proof.
  unfold handleAuth, replyOK. destruct args as [|raw rest]; [left; by ids|].
  destruct (r_clients r !! i) as [c|] eqn:Hi; [|by left].
  destruct (Parse_value raw) as [e|m] eqn:Hp; [|left; by ids].
  destruct (auth_checks c now e) as [[]|m] eqn:Ha; [|left; by ids].
  destruct (match r_OnAuthenticate cfg with Some _ => _ | None => _ end) as [b [u'|m]]; [|left; by ids].
  destruct (contains _ _) eqn:Hc; [left; by ids|right].
  exists c, raw, rest, e. split_and!; try done. rewrite say_ids. unfold identities. simpl. by rewrite fmap_insert.
Qed.

(** An AUTH message on connection [i] that answers its challenge. *)
Definition authorized (h : list label) (i : nat) (relay challenge key : string) : Prop :=
  ∃ now data kind raw rest e,
    Received now i (Text data) ∈ h ∧ json_parse data = Some (JArr (kind :: raw :: rest)) ∧
    decode_string "" kind = Some "AUTH" ∧ Parse_value raw = Ok e ∧ answers relay challenge now e ∧ PubKey e = key.

Lemma authorized_mono h l i relay challenge key :
  authorized h i relay challenge key → authorized (h ++ [l]) i relay challenge key.
Proof.
  intros (now & data & kind & raw & rest & e & Hin & Hrest). exists now, data, kind, raw, rest, e.
  rewrite elem_of_app. auto.
Qed.

Definition keys_ok (h : list label) (r : Router (B := B)) : Prop :=
  ∀ i s challenge key, identities r !! i = Some (s, challenge) → key ∈ S_PubKeys s →
    authorized h i (S_RelayURL s) challenge key.

Lemma keys_ok_same h l r r' : identities r' = identities r → keys_ok h r → keys_ok (h ++ [l]) r'.
Proof. intros E Hk i s ch key. rewrite E. eauto using authorized_mono. Qed.

Lemma read_frame_keys h ord cord now i fr r :
  0 ≤ now ≤ int64_max → keys_ok h r → keys_ok (h ++ [Received now i fr]) (read_frame bk cfg ord cord now i fr r).
Proof.
  intros Hn Hk. destruct fr as [|data]; simpl; [apply keys_ok_same with r; by ids|].
  destruct (_ && _); [apply keys_ok_same with r; by ids|].
  destruct (json_parse data) as [[| | | |[|first args]|]|] eqn:Hj; try (apply keys_ok_same with r; by ids).
  destruct (decode_string "" first) as [kind|] eqn:Hd; [|apply keys_ok_same with r; by ids].
  unfold dispatch.
  destruct (String.eqb kind "EVENT"); [apply keys_ok_same with r; [apply handleEvent_ids|done]|].
  destruct (_ || _); [apply keys_ok_same with r; [apply handleRequest_ids|done]|].
  destruct (String.eqb kind "CLOSE"); [apply keys_ok_same with r; [apply handleClose_ids|done]|].
  destruct (String.eqb_spec kind "AUTH") as [->|_].
  - destruct (handleAuth_ids now i args r) as [E|(c & raw & rest & e & Hi & -> & Hp & Ha & E)];
      [by apply keys_ok_same with r|].
    intros j s ch key. rewrite E. destruct (decide (i = j)) as [<-|Hne].
    + rewrite lookup_insert_eq. intros [= <- <-]. simpl. rewrite elem_of_app, list_elem_of_singleton. intros [Hin| ->].
      * apply authorized_mono, (Hk i (c_session c) (c_challenge c)); [|done]. unfold identities. by rewrite lookup_fmap, Hi.
      * exists now, data, first, raw, rest, e. rewrite elem_of_app, list_elem_of_singleton.
        split_and!; auto. by eapply auth_checks_Ok.
    + rewrite lookup_insert_ne by done. intros Hij Hin. by apply authorized_mono, (Hk j s ch).
  - destruct (contains _ _); (apply keys_ok_same with r; [|done]); [apply handleSync_ids|ids].
Qed.

Lemma connect_keys h i requested ip random r :
  r_clients r !! i = None → keys_ok h r → keys_ok (h ++ [Internal]) (connect cfg i requested ip random r).
Proof.
  intros Hi Hk. unfold connect. destruct (r_stopped r); [by apply keys_ok_same with r|].
  intros j s ch key. rewrite say_ids. unfold identities. simpl. rewrite fmap_insert.
  destruct (decide (i = j)) as [<-|Hne]; [rewrite lookup_insert_eq; intros [= <- <-]; by intros ?%elem_of_nil|].
  rewrite lookup_insert_ne by done. intros Hij Hin. by apply authorized_mono, (Hk j s ch).
Qed.

Lemma runs_keys b0 h r : runs b0 h r → keys_ok h r.
Proof.
  induction 1 as [|h r l r' _ IH Hs]; [intros i s ch key; unfold identities; simpl; by rewrite fmap_empty, lookup_empty|].
  destruct Hs as [r i rq ip rnd Hi|r ord cord now i fr Ho Hn Hi|r i|r i|r ord cord e s Ho|r ord cord e Ho
    |r ord cord commit Ho|r ord cord change reason Ho|r ord cord reason Ho|r k|r k|r b|r ord cord Ho];
    [by apply connect_keys|by apply read_frame_keys|..]; (apply keys_ok_same with r; [|done]); try done.
  - apply write_next_ids.
  - apply close_client_ids.
  - apply Publish_ids.
  - apply fanout_ids.
  - unfold CommitGenerated. destruct (commit _) as [b [e|m]]; [|done]. simpl. ids.
  - unfold ApplyACLChange. destruct (change _) as [b [u|m]]; [|done]. simpl. ids.
  - apply closeSubscriptionsLocked_ids.
  - unfold Close. rewrite foldl_eq; [done|]. intros r' i. apply close_client_ids.
Qed.

(** C20: in every state the relay reaches, whatever clients send and however
    steps interleave, each connection's queue is accounted for and never holds
    more than the configured number of bytes, the connection gauge is the number
    of open connections, and the subscription gauge is at least the number of
    subscriptions held. *)
Theorem router_bounds b0 h r :
  0 ≤ r_MaxPendingBytes cfg → runs b0 h r →
  (∀ i c, r_clients r !! i = Some c → c_pending c = sum_len (c_queue c) ∧ c_pending c ≤ r_MaxPendingBytes cfg) ∧
  r_conns r = total live (r_clients r) ∧ total held (r_clients r) ≤ r_gauge r.
Proof. intros Hm Hr. exact (runs_RInv Hm b0 h r Hr). Qed.

(** C6: whatever messages arrive on whatever connections, a key in a
    connection's session is there because that very connection received an AUTH
    message with a valid event by that key which answers the connection's own
    challenge, names this relay and is dated within ten minutes of its arrival. *)
Theorem session_keys_authorized b0 h r i c key :
  runs b0 h r → r_clients r !! i = Some c → key ∈ S_PubKeys (c_session c) →
  authorized h i (S_RelayURL (c_session c)) (c_challenge c) key.
Proof.
  intros Hr Hi Hk. apply (runs_keys b0 h r Hr i (c_session c)); [|done].
  unfold identities. by rewrite lookup_fmap, Hi.
Qed.
End Runs.
