(* ===== verification/RelayDelivery.v ===== *)
(** * Delivery through the relay router

    What live delivery, a subscription request and a refused event do to the
    queues of the connections. *)

From S2P Require Import Prelude GoLib GoCodec GoLemmas GoStrings Nostr NostrProps Filter SyncProtocol Auth Relay RelayProps.
From S2P Require Import AuthProps RelayRuns.

Section Delivery.
Context `{Negentropy} {B : Type} (bk : Backend B) (cfg : RelayConfig B).
Context `{NostrCrypto} `{GoUnicode} `{GoURLs} `{GoPrint}.

Lemma enqueueBytes_fits c b :
  c_closed c = false → c_pending c + len b ≤ r_MaxPendingBytes cfg → (enqueueBytes cfg c b).2 = true.
Proof. intros Hc Hb. unfold enqueueBytes. rewrite Hc. by rewrite (proj2 (Z.ltb_ge _ _) Hb). Qed.

(** ** One client *)

(** [client.close] on the client's own fields. *)
Definition shut (c : Client) : Client :=
  if c_closed c then c
  else mkClient (c_session c) (c_challenge c) ∅ (c_syncs c) (c_queue c) (c_pending c) true.

Definition deliver_to (b : B) (e : Event) (subs : gmap string (list Filter)) (c : Client) (id : string) : Client :=
  match subs !! id with
  | Some filters =>
    if wanted bk b c e filters then
      let '(c', sent) := sendEvent cfg c id e in if sent then c' else shut c'
    else c
  | None => c
  end.

(** The subscriptions of [ids] the event is due to. *)
Definition due_ids (b : B) (e : Event) (subs : gmap string (list Filter)) (c : Client) (ids : list string) : list string :=
  List.filter (λ id, match subs !! id with Some fs => wanted bk b c e fs | None => false end) ids.
Definition due (b : B) (e : Event) (subs : gmap string (list Filter)) (c : Client) (ids : list string) : list string :=
  (λ id, event_message id e) <$> due_ids b e subs c ids.

Lemma wanted_session b c c' e fs : c_session c' = c_session c → wanted bk b c' e fs = wanted bk b c e fs.
Proof. intros E. unfold wanted, canRead. by rewrite E. Qed.

Lemma due_session b e subs c c' ids : c_session c' = c_session c → due b e subs c' ids = due b e subs c ids.
Proof.
  intros E. unfold due, due_ids. f_equal. apply lfilter_ext. intros id _. destruct (subs !! id); [|done].
  by apply wanted_session.
Qed.

Lemma deliver_to_closed b e subs c ids :
  c_closed c = true → foldl (deliver_to b e subs) c ids = c.
Proof.
  intros Hc. induction ids as [|id ids IH]; [done|]. cbn [foldl].
  assert (deliver_to b e subs c id = c) as ->; [|done].
  unfold deliver_to, sendEvent, enqueueBytes, shut. rewrite Hc. destruct (subs !! id); [|done].
  by destruct (wanted _ _ _ _ _); rewrite ?Hc.
Qed.

(** The queue grows by a prefix of the messages due; it is all of them unless
    the queue is full, and then the client is closed. *)
Lemma deliver_to_spec b e subs ids c :
  c_closed c = false →
  let c' := foldl (deliver_to b e subs) c ids in
  let msgs := due b e subs c ids in
  c_session c' = c_session c ∧
  ∃ n, c_queue c' = c_queue c ++ take n msgs ∧
    (n = List.length msgs ∧ c_closed c' = false ∧ c_subs c' = c_subs c ∧ c_pending c' = c_pending c + sum_len msgs ∨
     (n < List.length msgs)%nat ∧ c_closed c' = true ∧ c_subs c' = ∅ ∧ r_MaxPendingBytes cfg < c_pending c + sum_len msgs).
Proof.
  revert c. induction ids as [|id ids IH]; intros c Hc.
  { split; [done|]. exists 0%nat. rewrite app_nil_r. split; [done|]. left. simpl. split_and!; try done; lia. }
  cbn [foldl]. unfold due, due_ids. cbn [List.filter].
  destruct (subs !! id) as [fs|] eqn:Hid.
  2:{ assert (deliver_to b e subs c id = c) as -> by (unfold deliver_to; by rewrite Hid). by apply IH. }
  destruct (wanted bk b c e fs) eqn:Hw.
  2:{ assert (deliver_to b e subs c id = c) as -> by (unfold deliver_to; by rewrite Hid, Hw). by apply IH. }
  rewrite fmap_cons. fold (due_ids b e subs c ids) (due b e subs c ids). set (msgs := due b e subs c ids).
  assert (Hd : deliver_to b e subs c id =
            (let '(c', sent) := sendEvent cfg c id e in if sent then c' else shut c')) by (unfold deliver_to; by rewrite Hid, Hw).
  rewrite Hd. unfold sendEvent. destruct (enqueueBytes cfg c (event_message id e)) as [c1 sent] eqn:E.
  pose proof E as E'. apply enqueueBytes_spec in E' as ((Hs&_&Hsub&_&Hcl)&_&Ht&Hf).
  destruct sent.
  - destruct (Ht eq_refl) as (Hqu&Hpe). rewrite Hc in Hcl. destruct (IH c1 Hcl) as (Hs'&n&Hn&Hrest).
    rewrite (due_session b e subs c c1) in Hn, Hrest by done. fold msgs in Hn, Hrest.
    split; [congruence|]. exists (S n). rewrite Hn, Hqu, <-app_assoc. split; [done|]. simpl.
    destruct Hrest as [(->&?&?&Hp)|(?&?&?&Hp)]; [left|right]; split_and!; try done; try congruence; lia.
  - rewrite (Hf eq_refl). assert (Hsh : c_closed (shut c) = true) by (unfold shut; by rewrite Hc).
    rewrite deliver_to_closed by done. unfold shut. rewrite Hc. simpl. split; [done|].
    exists 0%nat. rewrite app_nil_r. split; [done|]. right. split_and!; try done; [lia|].
    unfold enqueueBytes in E. rewrite Hc in E. destruct (_ <? _) eqn:Hlt; [|done].
    pose proof (sum_len_nonneg msgs). lia.
Qed.

(** ** The router *)

Section Order.
Context (ord : list string → list string) (cord : list nat → list nat).
Context (Hord : ∀ l, ord l ≡ₚ l) (Hcord : ∀ l, cord l ≡ₚ l).

Lemma close_client_lookup i (r : Router (B := B)) j :
  r_clients (close_client i r) !! j = (if decide (i = j) then shut <$> r_clients r !! j else r_clients r !! j).
Proof.
  unfold close_client, shut. destruct (r_clients r !! i) as [c|] eqn:Hi.
  - destruct (c_closed c) eqn:Hc; simpl; destruct (decide (i = j)) as [<-|Hne];
      rewrite ?lookup_insert_eq, ?lookup_insert_ne, ?Hi by done; simpl; by rewrite ?Hc.
  - destruct (decide (i = j)) as [<-|]; [by rewrite Hi|done].
Qed.

Lemma close_client_backend i (r : Router (B := B)) : r_backend (close_client i r) = r_backend r.
Proof. unfold close_client. destruct (_ !! i) as [c|]; [|done]. by destruct (c_closed c). Qed.

Lemma deliver_lookup e i subs r id j :
  r_clients (deliver bk cfg e i subs r id) !! j =
    (if decide (i = j) then (λ c, deliver_to (r_backend r) e subs c id) <$> r_clients r !! j else r_clients r !! j)
  ∧ r_backend (deliver bk cfg e i subs r id) = r_backend r.
Proof.
  unfold deliver, deliver_to. destruct (r_clients r !! i) as [c|] eqn:Hi.
  2:{ split; [|done]. destruct (decide (i = j)) as [<-|]; by rewrite ?Hi. }
  destruct (subs !! id) as [fs|]; simpl.
  2:{ split; [|done]. destruct (decide (i = j)) as [<-|]; by rewrite ?Hi. }
  destruct (wanted _ _ c _ _) eqn:Hw; simpl.
  2:{ split; [|done]. destruct (decide (i = j)) as [<-|]; [rewrite Hi; simpl; by rewrite Hw|done]. }
  destruct (sendEvent cfg c id e) as [c' [|]] eqn:Es; simpl.
  - split; [|done]. destruct (decide (i = j)) as [<-|]; [|by rewrite lookup_insert_ne].
    rewrite lookup_insert_eq, Hi. simpl. by rewrite Hw, Es.
  - split; [|by rewrite close_client_backend]. rewrite close_client_lookup. simpl.
    destruct (decide (i = j)) as [<-|]; [|by rewrite lookup_insert_ne].
    rewrite lookup_insert_eq, Hi. simpl. by rewrite Hw, Es.
Qed.

Lemma fanout_client_lookup e r i j :
  r_clients (fanout_client bk cfg ord e r i) !! j =
    (if decide (i = j)
     then (λ c, foldl (deliver_to (r_backend r) e (c_subs c)) c (keys ord (c_subs c))) <$> r_clients r !! j
     else r_clients r !! j)
  ∧ r_backend (fanout_client bk cfg ord e r i) = r_backend r.
Proof.
  unfold fanout_client. destruct (r_clients r !! i) as [c|] eqn:Hi.
  2:{ split; [|done]. destruct (decide (i = j)) as [<-|]; by rewrite ?Hi. }
  assert (Hgen : ∀ subs ids r, r_clients (foldl (deliver bk cfg e i subs) r ids) !! j =
      (if decide (i = j) then (λ c, foldl (deliver_to (r_backend r) e subs) c ids) <$> r_clients r !! j else r_clients r !! j)
      ∧ r_backend (foldl (deliver bk cfg e i subs) r ids) = r_backend r).
  { intros subs ids. induction ids as [|id ids IH]; intros r0; cbn [foldl].
    - split; [|done]. destruct (decide (i = j)); [|done]. by rewrite option_fmap_id.
    - destruct (deliver_lookup e i subs r0 id j) as (Hl&Hb), (IH (deliver bk cfg e i subs r0 id)) as (IHl&IHb).
      rewrite IHl, IHb, Hl, Hb. split; [|done]. destruct (decide (i = j)); [|done]. by destruct (r_clients r0 !! j). }
  destruct (Hgen (c_subs c) (keys ord (c_subs c)) r) as (Hl&Hb). rewrite Hl, Hb. split; [|done].
  destruct (decide (i = j)) as [<-|]; [|done]. by rewrite Hi.
Qed.

Lemma open_clients_spec (r : Router (B := B)) i :
  i ∈ open_clients cord r ↔ ∃ c, r_clients r !! i = Some c ∧ c_closed c = false.
Proof.
  unfold open_clients. rewrite (Hcord _), list_elem_of_fmap. split.
  - intros ([k c] & -> & [Hin Hc]%elem_of_lfilter). exists c. simpl in *.
    apply elem_of_map_to_list in Hin. by apply negb_true_iff in Hc.
  - intros (c & Hi & Hc). exists (i, c). rewrite elem_of_lfilter, elem_of_map_to_list. simpl. by rewrite Hc.
Qed.

Lemma open_clients_NoDup (r : Router (B := B)) : NoDup (open_clients cord r).
Proof.
  unfold open_clients. rewrite (Hcord _). eapply sublist_NoDup; [|apply fmap_sublist, lfilter_sublist].
  apply NoDup_fst_map_to_list.
Qed.

(** A client's state after delivery depends on its own state alone. *)
Lemma fanout_loop e l r i :
  NoDup l →
  r_clients (foldl (fanout_client bk cfg ord e) r l) !! i =
    (if decide (i ∈ l)
     then (λ c, foldl (deliver_to (r_backend r) e (c_subs c)) c (keys ord (c_subs c))) <$> r_clients r !! i
     else r_clients r !! i)
  ∧ r_backend (foldl (fanout_client bk cfg ord e) r l) = r_backend r.
Proof.
  revert r. induction l as [|k l IH]; intros r Hnd; cbn [foldl].
  { split; [|done]. rewrite decide_False; [done|by intros ?%elem_of_nil]. }
  apply NoDup_cons in Hnd as (Hk&Hnd). destruct (IH (fanout_client bk cfg ord e r k) Hnd) as (Hl&Hb).
  destruct (fanout_client_lookup e r k i) as (Hfl&Hfb). rewrite Hl, Hb, Hfl, Hfb. split; [|done].
  destruct (decide (k = i)) as [<-|Hne].
  - rewrite decide_False by done. by rewrite decide_True by (apply list_elem_of_here).
  - destruct (decide (i ∈ l)) as [Hin|Hin].
    + by rewrite decide_True by (by apply list_elem_of_further).
    + rewrite decide_False; [done|]. intros [?|?]%elem_of_cons; [congruence|done].
Qed.

Lemma fanout_lookup e r i :
  r_clients (fanout bk cfg ord cord e r) !! i =
    (λ c, if c_closed c then c
          else foldl (deliver_to (r_backend r) e (c_subs c)) c (keys ord (c_subs c))) <$> r_clients r !! i.
Proof.
  unfold fanout. simpl. rewrite (proj1 (fanout_loop e _ r i (open_clients_NoDup r))).
  destruct (r_clients r !! i) as [c|] eqn:Hi; [|by case_decide]. simpl.
  destruct (c_closed c) eqn:Hc.
  - rewrite decide_False; [done|]. rewrite open_clients_spec. intros (c'&?&?). congruence.
  - rewrite decide_True; [done|]. rewrite open_clients_spec. eauto.
Qed.

Lemma fanout_backend e r : r_backend (fanout bk cfg ord cord e r) = r_backend r.
Proof. unfold fanout. simpl. apply (fanout_loop e (open_clients cord r) r 0%nat (open_clients_NoDup r)). Qed.

Lemma fanout_listeners e r : r_listeners (fanout bk cfg ord cord e r) = (λ heard, heard ++ [e]) <$> r_listeners r.
Proof.
  unfold fanout, notify_listeners. simpl. f_equal. apply foldl_eq. intros r' i. unfold fanout_client.
  destruct (_ !! i) as [c|]; [|done]. apply foldl_eq. intros r1 id. unfold deliver.
  destruct (r_clients r1 !! i) as [c1|]; [|done]. destruct (c_subs c !! id); [|done]. destruct (wanted _ _ _ _ _); [|done].
  destruct (sendEvent cfg c1 id e) as [c2 [|]]; [done|]. unfold close_client. simpl. rewrite lookup_insert_eq.
  by destruct (c_closed c2).
Qed.

Lemma due_ids_keys b e subs c :
  NoDup (due_ids b e subs c (keys ord subs)) ∧
  ∀ id, id ∈ due_ids b e subs c (keys ord subs) ↔ ∃ fs, subs !! id = Some fs ∧ wanted bk b c e fs = true.
Proof.
  unfold due_ids, keys. split.
  - eapply sublist_NoDup; [|apply lfilter_sublist]. rewrite (Hord _). apply NoDup_fst_map_to_list.
  - intros id. rewrite elem_of_lfilter, (Hord _), list_elem_of_fmap. split.
    + intros [_ Hw]. destruct (subs !! id) as [fs|]; [eauto|done].
    + intros (fs & Hid & Hw). rewrite Hid. split; [|done]. exists (id, fs). by rewrite elem_of_map_to_list.
Qed.

(** What delivery of [e] makes of an open client [c], in some order of its
    subscriptions. *)
Definition received (b : B) (e : Event) (c c' : Client) : Prop :=
  ∃ ids n, NoDup ids ∧ (∀ id, id ∈ ids ↔ ∃ fs, c_subs c !! id = Some fs ∧ wanted bk b c e fs = true) ∧
    let msgs := (λ id, event_message id e) <$> ids in
    c_session c' = c_session c ∧ c_queue c' = c_queue c ++ take n msgs ∧
    (n = List.length msgs ∧ c_closed c' = false ∧ c_subs c' = c_subs c ∨
     (n < List.length msgs)%nat ∧ c_closed c' = true ∧ c_subs c' = ∅ ∧ r_MaxPendingBytes cfg < c_pending c + sum_len msgs).

Lemma fanout_open e r i c :
  r_clients r !! i = Some c → c_closed c = false →
  ∃ c', r_clients (fanout bk cfg ord cord e r) !! i = Some c' ∧ received (r_backend r) e c c'.
Proof.
  intros Hi Hc. rewrite fanout_lookup, Hi. simpl. rewrite Hc. eexists. split; [done|].
  destruct (deliver_to_spec (r_backend r) e (c_subs c) (keys ord (c_subs c)) c Hc) as (Hs&n&Hq&Hrest).
  destruct (due_ids_keys (r_backend r) e (c_subs c) c) as (Hnd&Hin).
  exists (due_ids (r_backend r) e (c_subs c) c (keys ord (c_subs c))), n. split_and!; try done. naive_solver.
Qed.

(** C5: live delivery. When an event is fanned out, the backend is left
    alone, every listener hears the event once, closed connections are not
    touched, and an open connection is queued the event exactly once for each of
    its subscriptions with a filter that matches the event and lets the
    connection read it, and for no other; only a connection whose queue cannot
    hold them gets fewer, and it is closed. *)
Theorem live_delivery e r i c :
  r_clients r !! i = Some c →
  let r' := fanout bk cfg ord cord e r in
  r_backend r' = r_backend r ∧ r_listeners r' = (λ heard, heard ++ [e]) <$> r_listeners r ∧
  ∃ c', r_clients r' !! i = Some c' ∧
    if c_closed c then c' = c else received (r_backend r) e c c'.
Proof.
  intros Hi r'. split_and!; [apply fanout_backend|apply fanout_listeners|].
  destruct (c_closed c) eqn:Hc; [|by apply fanout_open].
  exists c. split; [|done]. unfold r'. rewrite fanout_lookup, Hi. simpl. by rewrite Hc.
Qed.

(** ** Publication on a connection *)

Lemma say_lookup i b (r : Router (B := B)) j :
  r_clients (say cfg i b r) !! j = (if decide (i = j) then enqueue cfg b <$> r_clients r !! j else r_clients r !! j)
  ∧ r_backend (say cfg i b r) = r_backend r ∧ r_listeners (say cfg i b r) = r_listeners r
  ∧ r_gauge (say cfg i b r) = r_gauge r.
Proof.
  unfold say, on_client. destruct (r_clients r !! i) as [c|] eqn:Hi; (split; [|done]); simpl.
  - destruct (decide (i = j)) as [<-|]; [by rewrite lookup_insert_eq, Hi|by rewrite lookup_insert_ne].
  - destruct (decide (i = j)) as [<-|]; by rewrite ?Hi.
Qed.

(** The answer comes first. When the backend accepts a client's event for
    delivery and no access rule changes, the sender's queue gets its OK and only
    then the copies of the event its own subscriptions are due. *)
Theorem own_OK_first i e s r c b :
  r_clients r !! i = Some c → c_closed c = false → b_Publish bk (r_backend r) e s = (b, ("", None)) →
  changesAccess cfg e = false → c_pending c + len (ok_message (ID e) true "") ≤ r_MaxPendingBytes cfg →
  ∃ c' ids n, r_clients (publishClient bk cfg ord cord i e s r).1 !! i = Some c' ∧
    c_queue c' = c_queue c ++ [ok_message (ID e) true ""] ++ take n ((λ id, event_message id e) <$> ids) ∧
    (∀ id, id ∈ ids ↔ ∃ fs, c_subs c !! id = Some fs ∧ wanted bk b c e fs = true) ∧
    (c_closed c' = false → n = List.length ids).
Proof.
  intros Hi Hc Hp Ha Hb. unfold publishClient. rewrite Hp, Ha. simpl. unfold replyOK.
  set (r1 := set_backend r b). set (msg := ok_message (ID e) true "") in *.
  destruct (enqueueBytes cfg c msg) as [c1 sent] eqn:E.
  assert (Hsent : sent = true) by (pose proof (enqueueBytes_fits c msg Hc Hb) as Hf; by rewrite E in Hf).
  pose proof E as E'. apply enqueueBytes_spec in E as ((Hs&_&Hsub&_&Hcl)&_&Ht&_). destruct (Ht Hsent) as (Hq&_).
  destruct (say_lookup i msg r1 i) as (Hl&Hbk&_). rewrite decide_True in Hl by done. simpl in Hl, Hbk.
  rewrite Hi in Hl. simpl in Hl. unfold enqueue in Hl. rewrite E' in Hl.
  destruct (fanout_open e (say cfg i msg r1) i c1 Hl ltac:(congruence)) as (c'&Hl'&ids&n&_&Hin&_&Hq'&Hn).
  exists c', ids, n. split_and!; [done|by rewrite Hq', Hq, <-app_assoc| |].
  - intros id. rewrite Hin, Hsub, Hbk. setoid_rewrite (wanted_session b c c1); done.
  - intros Hcl'. rewrite length_fmap in Hn. destruct Hn as [(?&_)|(_&?&_)]; [done|congruence].
Qed.

(** The message carries an event the backend takes. *)
Definition accepted (r : Router (B := B)) (i : nat) (raw : json) : Prop :=
  ∃ e, Parse_value raw = Ok e ∧ Kind e ≠ KIND_AUTH ∧ (b_Publish bk (r_backend r) e (session_of r i)).2.2 = None.

(** A refused EVENT is silent. An EVENT message whose event does not
    parse or validate, is an AUTH event, or is refused by the backend is answered
    by one OK-false on its own connection and changes nothing else: no other
    connection, no subscription, no listener and no gauge. *)
Theorem refused_event_silent i raw rest r :
  ¬ accepted r i raw →
  let r' := handleEvent bk cfg ord cord i (raw :: rest) r in
  (∀ j, i ≠ j → r_clients r' !! j = r_clients r !! j) ∧
  r_listeners r' = r_listeners r ∧ r_gauge r' = r_gauge r ∧
  ∃ id reason, r_clients r' !! i = enqueue cfg (ok_message id false reason) <$> r_clients r !! i.
Proof.
  intros Hna r'.
  assert (∃ id reason b, r' = say cfg i (ok_message id false reason) (set_backend r b)) as (id & reason & b & ->).
  { unfold r', handleEvent, replyOK. destruct (Parse_value raw) as [e|m] eqn:Hp.
    2:{ exists (rawEventID raw), m, (r_backend r). by destruct r. }
    destruct (Kind e =? KIND_AUTH) eqn:Hk.
    { exists (ID e), "blocked: AUTH events use AUTH", (r_backend r). by destruct r. }
    unfold publishClient. destruct (b_Publish _ _ _ _) as [b [reason [m|]]] eqn:Hb.
    - by exists (ID e), m, b.
    - destruct Hna. exists e. split_and!; [done|by apply Z.eqb_neq|by rewrite Hb]. }
  destruct (say_lookup i (ok_message id false reason) (set_backend r b) i) as (Hl&_&Hli&Hg).
  split_and!; [|done|done|].
  - intros j Hne. destruct (say_lookup i (ok_message id false reason) (set_backend r b) j) as (Hl'&_).
    rewrite Hl'. by rewrite decide_False.
  - exists id, reason. rewrite Hl. by rewrite decide_True.
Qed.
End Order.

(** ** Subscription requests *)

Lemma send_stored_queue b id fs events c :
  c_closed c = false →
  let msgs := event_message id <$> List.filter (λ e, wanted bk b c e fs) events in
  let '(c', sent) := send_stored bk cfg b id fs events c in
  same_but_queue c c' ∧
  ∃ n, c_queue c' = c_queue c ++ take n msgs ∧ c_pending c' = c_pending c + sum_len (take n msgs) ∧
    (sent = true ∧ n = List.length msgs ∨
     sent = false ∧ (n < List.length msgs)%nat ∧ r_MaxPendingBytes cfg < c_pending c + sum_len msgs).
Proof.
  revert c. induction events as [|e events IH]; intros c Hc; simpl.
  { split; [done|]. exists 0%nat. rewrite app_nil_r. split_and!; [done|simpl; lia|by left]. }
  destruct (wanted bk b c e fs) eqn:Hw; [|by apply IH].
  unfold sendEvent. destruct (enqueueBytes cfg c (event_message id e)) as [c1 sent] eqn:E.
  pose proof E as E'. apply enqueueBytes_spec in E' as (Hsame&_&Ht&Hf). rewrite fmap_cons.
  destruct sent.
  - destruct (Ht eq_refl) as (Hq&Hp). pose proof Hsame as (Hs&_&_&_&Hcl). rewrite Hc in Hcl.
    specialize (IH c1 Hcl). simpl in IH.
    rewrite (lfilter_ext _ (λ e0, wanted bk b c e0 fs)) in IH by (intros; by apply wanted_session).
    destruct (send_stored _ _ _ _ _ _ c1) as [c2 sent]. destruct IH as (Hsame'&n&Hq'&Hp'&Hn).
    split; [by etrans|]. exists (S n). rewrite Hq', Hq, <-app_assoc. split_and!; [done|simpl; lia|].
    destruct Hn as [(->& ->)|(->&?&?)]; [by left|right]; simpl; split_and!; [done|lia|lia].
  - rewrite (Hf eq_refl). split; [done|]. exists 0%nat. rewrite app_nil_r. split_and!; [done|simpl; lia|right].
    split_and!; [done|simpl; lia|]. unfold enqueueBytes in E. rewrite Hc in E. destruct (_ <? _) eqn:Hlt; [|done].
    simpl. pose proof (sum_len_nonneg (event_message id <$> List.filter (λ e, wanted bk b c e fs) events)). lia.
Qed.

(** A subscription request that the backend answers registers the
    subscription and queues, in the backend's order, exactly the answered events
    that match one of the filters and may be read, then EOSE.  Only a queue that
    cannot hold all this gets less: a prefix of the events and no subscription,
    or everything but the EOSE. *)
Theorem REQ_snapshot i id fs r c events hints :
  r_clients r !! i = Some c → c_closed c = false → stored_events bk (register_sub i id fs r) i fs = Ok (events, hints) →
  let msgs := event_message id <$> List.filter (λ e, wanted bk (r_backend r) c e fs) events in
  ∃ c' n tail, r_clients (handleREQ bk cfg i id fs r) !! i = Some c' ∧
    c_queue c' = c_queue c ++ take n msgs ++ tail ∧
    (n = List.length msgs ∧ c_subs c' = <[id := fs]> (c_subs c) ∧
       (tail = [eose id hints] ∨ tail = [] ∧ r_MaxPendingBytes cfg < c_pending c + sum_len (msgs ++ [eose id hints])) ∨
     (n < List.length msgs)%nat ∧ c_subs c' = delete id (c_subs c) ∧
       r_MaxPendingBytes cfg < c_pending c + sum_len msgs ∧
       (tail = [] ∨ tail = [closed_message id "error: query failed: slow consumer"])).
Proof.
  intros Hi Hc Hst msgs. unfold handleREQ. rewrite Hst.
  assert (Hreg : r_clients (register_sub i id fs r) !! i = Some (with_subs c (<[id := fs]> (c_subs c)))
                 ∧ r_backend (register_sub i id fs r) = r_backend r).
  { unfold register_sub. rewrite Hi. destruct (c_subs c !! id); simpl; by rewrite lookup_insert_eq. }
  destruct Hreg as (Hl&Hb). rewrite Hl, Hb. set (c0 := with_subs c _).
  pose proof (send_stored_queue (r_backend r) id fs events c0 Hc) as Hsend. simpl in Hsend.
  rewrite (lfilter_ext _ (λ e, wanted bk (r_backend r) c e fs)) in Hsend by (intros; by apply wanted_session).
  fold msgs in Hsend. destruct (send_stored _ _ _ _ _ _ c0) as [c1 sent].
  destruct Hsend as ((_&_&Hsub&_&Hcl)&n&Hq&Hp&Hn). simpl in Hsub, Hcl, Hq, Hp. rewrite Hc in Hcl.
  destruct Hn as [(->& ->)|(->&Hlt&Hfull)].
  - unfold say, on_client. simpl. rewrite lookup_insert_eq. simpl.
    unfold enqueue. destruct (enqueueBytes cfg c1 (eose id hints)) as [c2 sent] eqn:E.
    pose proof E as E'. apply enqueueBytes_spec in E' as ((_&_&Hsub2&_&_)&_&Ht&Hf).
    exists c2, (List.length msgs), (if sent then [eose id hints] else []). rewrite lookup_insert_eq.
    rewrite take_ge in Hq, Hp |- * by done. split; [done|]. destruct sent.
    + destruct (Ht eq_refl) as (Hq2&_). rewrite Hq2, Hq, <-app_assoc. split; [done|]. left. rewrite Hsub2. auto.
    + rewrite (Hf eq_refl), Hq, app_nil_r. split; [done|]. left. split_and!; [done|done|]. right. split; [done|].
      rewrite sum_len_app. simpl. unfold enqueueBytes in E. rewrite Hcl in E. destruct (_ <? _) eqn:Hlt; [lia|done].
  - unfold closedSub, on_client. simpl. rewrite lookup_insert_eq. simpl. rewrite lookup_insert_eq.
    unfold enqueue. set (m := closed_message id _). destruct (enqueueBytes cfg _ m) as [c2 sent] eqn:E.
    pose proof E as E'. apply enqueueBytes_spec in E' as ((_&_&Hsub2&_&_)&_&Ht&Hf). simpl in Hsub2, Ht.
    exists c2, n, (if sent then [m] else []). split; [done|]. rewrite Hsub2, Hsub, delete_insert_eq.
    destruct sent.
    + destruct (Ht eq_refl) as (Hq2&_). rewrite Hq2, Hq, <-app_assoc. split; [done|]. right. split_and!; auto.
    + rewrite (Hf eq_refl). simpl. rewrite Hq, app_nil_r. split; [done|]. right. split_and!; auto.
Qed.
End Delivery.

(** * The relay router on concrete inputs

    A backend that keeps every event, a small session, and the router theorems
    at work on it. *)

#[local] Instance relay_crypto : NostrCrypto := toy_crypto.
#[local] Instance relay_unicode : GoUnicode := ascii_unicode.
#[local] Instance relay_print : GoPrint := {| is_print _ := true |}.
#[local] Instance relay_urls : GoURLs :=
  {| parse_url s := Some (mkURLParts "wss" s s "" false "" "" "" ""); path_unescape := Some; url_at_path u _ p := p |}.
#[local] Instance no_negentropy : Negentropy :=
  {| Neg := unit; lib_IDFromHex := Ok; lib_New _ _ := (); lib_Start n := (n, ""); lib_Reconcile n _ := (n, Ok "") |}.

(** The frames of the session. *)
Definition a_note : Event := Eval vm_compute in signed 1 1000 [["t"; "go"]].
Definition an_event (e : Event) : json := JObj (event_members e).
Definition notes_req : json := JArr [JStr "REQ"; JStr "notes"; JObj [("kinds", JArr [JNum "1"])]].
#[local] Instance relay_json : GoJson :=
  {| json_parse raw :=
       if String.eqb raw "auth" then Some (JArr [JStr "AUTH"; an_event api_answer])
       else if String.eqb raw "req" then Some notes_req
       else if String.eqb raw "event" then Some (JArr [JStr "EVENT"; an_event a_note])
       else None |}.

(** A backend over the list of its events, open to everyone; it refuses the
    events of kind 7 and the queries for another kind than 1. *)
Definition keep_all : Backend (list Event) :=
  {| b_Publish b e _ := if Kind e =? 7 then (b, ("", Some "blocked: no reactions")) else (b ++ [e], ("", None));
     b_Query b fs _ := if existsb (λ f, match Kinds f with Some [1] => false | _ => true end) fs
                       then Err "restricted: notes only" else Ok b;
     b_Count b _ _ := Ok (Itoa (Z.of_nat (List.length b)));
     b_CanRead := None; b_CanReadFilter := None; b_QueryHints := None; b_CloseSubscriptions := None; b_Sync := None |}.

Definition small : RelayConfig (list Event) :=
  withDefaults {| r_RelayURL := "wss://relay.example"; r_OnAuthenticate := None; r_MaxMessageBytes := 0;
                  r_MaxPendingBytes := 0; r_ChangesAccess := None |}.

Definition id_order {A} (l : list A) : list A := l.
Lemma id_any_order : any_order id_order id_order.
Proof. by split. Qed.

Definition connected : Router := connect small 0 "" "10.0.0.1" [193] (New []).
Definition receive (s : string) (r : Router) : Router := read_frame keep_all small id_order id_order 1200 0 (Text s) r.
Definition after_auth : Router := receive "auth" connected.
Definition subscribed : Router := receive "req" after_auth.
Definition published : Router := receive "event" subscribed.

Definition the_client {B} (r : Router (B := B)) : Client := default (newClient small "" "" []) (r_clients r !! 0%nat).

Example session_runs :
  S_PubKeys (c_session (the_client published)) = [PubKey api_answer] ∧
  c_queue (the_client published) =
    ["[" +:+ quote "AUTH" +:+ "," +:+ quote "c1" +:+ "]"; ok_message (ID api_answer) true ""; eose "notes" [];
     ok_message (ID a_note) true ""; event_message "notes" a_note].
Proof. vm_compute. done. Qed.

Lemma runs_after_auth : runs keep_all small [] [Internal; Received 1200 0 (Text "auth")] after_auth.
Proof.
  refine (runs_step _ _ _ [Internal] connected _ _ (runs_step _ _ _ [] _ _ _ (runs_new _ _ _) _) _).
  - by apply step_connect.
  - apply step_frame; [apply id_any_order|unfold int64_max; lia|vm_compute; eauto].
Qed.

Lemma router_bounds_witness :
  0 ≤ c_pending (the_client after_auth) ≤ r_MaxPendingBytes small ∧ r_conns after_auth = 1.
Proof.
  assert (Hm : 0 ≤ r_MaxPendingBytes small) by done.
  destruct (router_bounds keep_all small [] _ after_auth Hm runs_after_auth) as (Hq&_&_).
  assert (Hi : r_clients after_auth !! 0%nat = Some (the_client after_auth)) by (vm_compute; reflexivity).
  destruct (Hq 0%nat _ Hi) as (_&Hle). split; [|vm_compute; reflexivity]. split; [vm_compute; discriminate|exact Hle].
Defined.

Lemma session_keys_authorized_witness :
  authorized [Internal; Received 1200 0 (Text "auth")] 0 "wss://relay.example" "c1" (PubKey api_answer).
Proof.
  apply (session_keys_authorized keep_all small [] _ after_auth 0 (the_client after_auth) (PubKey api_answer) runs_after_auth).
  - vm_compute. reflexivity.
  - vm_compute. apply list_elem_of_here.
Defined.

Lemma live_delivery_witness :
  received keep_all small [] a_note (the_client subscribed)
    (the_client (fanout keep_all small id_order id_order a_note subscribed)).
Proof.
  assert (Hi : r_clients subscribed !! 0%nat = Some (the_client subscribed)) by (vm_compute; reflexivity).
  destruct (live_delivery keep_all small id_order id_order (proj1 id_any_order) (proj2 id_any_order) a_note subscribed
    0 (the_client subscribed) Hi) as (_&_&c'&Hi'&Hr).
  unfold the_client at 2. rewrite Hi'. exact Hr.
Defined.

Lemma own_OK_first_witness : ∃ c' ids n,
  r_clients (publishClient keep_all small id_order id_order 0 a_note (c_session (the_client subscribed)) subscribed).1 !! 0%nat
    = Some c' ∧
  c_queue c' = c_queue (the_client subscribed) ++ [ok_message (ID a_note) true ""]
                 ++ take n ((λ id, event_message id a_note) <$> ids).
Proof.
  destruct (own_OK_first keep_all small id_order id_order (proj1 id_any_order) (proj2 id_any_order) 0 a_note
    (c_session (the_client subscribed)) subscribed (the_client subscribed) [a_note]) as (c'&ids&n&Hi&Hq&_).
  - vm_compute. reflexivity.
  - vm_compute. reflexivity.
  - vm_compute. reflexivity.
  - reflexivity.
  - vm_compute. discriminate.
  - exists c', ids, n. split; [exact Hi|exact Hq].
Defined.

Definition a_reaction : Event := Eval vm_compute in signed 7 1000 [].

Lemma refused_event_silent_witness :
  r_listeners (handleEvent keep_all small id_order id_order 0 [an_event a_reaction] (Listen 0 subscribed)) = {[0%nat := []]}.
Proof.
  destruct (refused_event_silent keep_all small id_order id_order 0 (an_event a_reaction) [] (Listen 0 subscribed))
    as (_&Hl&_).
  - intros (e&He&_&Hb). vm_compute in He. injection He as <-. vm_compute in Hb. discriminate.
  - rewrite Hl. vm_compute. reflexivity.
Defined.

Definition notes : Filter := mkFilter None None (Some [1]) ∅ None None None "".

Lemma REQ_snapshot_witness : ∃ c' n tail,
  r_clients (handleREQ keep_all small 0 "more" [notes] published) !! 0%nat = Some c' ∧
  c_queue c' = c_queue (the_client published) ++ take n [event_message "more" a_note] ++ tail.
Proof.
  destruct (REQ_snapshot keep_all small 0 "more" [notes] published (the_client published) [a_note] [])
    as (c'&n&tail&Hi&Hq&_).
  - vm_compute. reflexivity.
  - vm_compute. reflexivity.
  - vm_compute. reflexivity.
  - exists c', n, tail. split; [exact Hi|].
    assert (E : List.filter (λ e, wanted keep_all (r_backend published) (the_client published) e [notes]) [a_note] = [a_note])
      by (vm_compute; reflexivity).
    rewrite E in Hq. exact Hq.
Defined.

(** ** What the code gets wrong *)

(** A refused request has removed its subscription without telling the
    subscription gauge, which only ever drifts upwards. *)
Lemma refused_REQ_drifts :
  let r := handleREQ keep_all small 0 "dms" [empty_filter] connected in
  c_subs (the_client r) = ∅ ∧ r_gauge r = 1.
Proof. vm_compute. done. Qed.

(** A request on a connection that live delivery has just closed leaves its
    subscription, and its count, behind. *)
Lemma closed_REQ_drifts :
  let r := handleREQ keep_all small 0 "notes" [notes] (close_client 0 connected) in
  c_closed (the_client r) = true ∧ size (c_subs (the_client r)) = 1%nat ∧ r_gauge r = 1.
Proof. vm_compute. done. Qed.

(** The quoting of EOSE is Go's, not JSON's: a control character in a
    subscription identifier becomes an escape JSON does not have. *)
Lemma eose_not_json : eose (str1 127) [] = "[" +:+ quote "EOSE" +:+ "," +:+ quote "\x7f" +:+ "]".
Proof. reflexivity. Qed.
