(* ===== verification/Gates.v ===== *)
(** * internal/gates: admission and visibility

    [Write], [Import], [Read] and [CanSee] with their helpers.  The tenant
    database is the storage model; the community service is the record of its
    answers at one moment, each of which may fail.  The agent rate limiter is
    the only state a gate changes and is threaded through. *)

From S2P Require Import Prelude GoLib GoCodec GoLemmas GoStrings Nostr Filter Store StoreQuery Policy Sites Roster Agents Community Membership Rooms Auth.

(** regexp2 (third party): does a case-insensitive pattern match; a pattern
    that does not compile, or a match error, is no match. *)
Class Regexp2 := { re2_match : string → string → bool }.


(** What the gate asks of [community.Service]. *)
Record Community := mkCommunityView {
  c_AgentGrant : string → result (option AgentGrant);
  c_Role : string → result string;
  c_IsMember : string → result bool;
  c_IsBanned : string → result bool;
  c_IsEventBanned : string → result bool;
  c_IsIPBlocked : string → result bool;
  c_Room : string → result Room;
  c_RoomWriteAllowed : string → string → result bool;
  c_RoomVisible : string → list string → result bool;
  (** [Execute] of the list commands: [None] when the value has another type *)
  c_AllowedKinds : result (option (list Z));
  c_BlockedKinds : result (option (list Z));
  c_Retention : result (option (list (Z * Z)));
  c_Members : result (option (list string));
  c_ReviewAgentGrantRequest : Event → Z → result unit;
  c_ValidateAgentGrantReplacement : Event → Z → result unit;
}.

(** Events an artifact check is nested in, carried by the context. *)
Record ArtifactState := mkArtifact { seen : gset string; depth : Z }.

Record Config := mkConfig {
  cfg_Store : option DB;
  cfg_Community : option Community;
  cfg_Policy : Policy;
  cfg_Slug : string;
  cfg_ArtifactVisible : option (ArtifactState → Event → Session → bool);
}.

(** [fmt.Errorf("what: %w", err)] *)
Definition wrap_err {A} (what : string) (r : result A) : result A :=
  match r with Ok a => Ok a | Err m => Err (what +:+ ": " +:+ m) end.

(** ** The agent rate limiter *)

Notation Limiter := (gmap string (list Z)).

Definition limiter_allow (l : Limiter) (agent : string) (limit now : Z) : Limiter * bool :=
  let kept := List.filter (λ at_, now - 60 <? at_) (default [] (l !! agent)) in
  if limit <=? Z.of_nat (List.length kept) then (<[agent := kept]> l, false)
  else (<[agent := kept ++ [now]]> l, true).

(** ** Tag shapes (marmot.go, jobs.go) *)

Definition hasTag (e : Event) (name : string) : bool :=
  existsb (λ t, match t with n :: _ => String.eqb n name | [] => false end) (etags e).

Definition marmotHex64 (s : string) : bool := hex64 s.
Definition marmotID (s : string) : bool :=
  (len s =? 6) && HasPrefix s "0x" && isHex (slice s 2 6).
Definition marmotVersion (s : string) : bool := String.eqb s "1.0".
Definition marmotHex (s : string) : bool := negb (String.eqb s "") && isHex s.

Definition named (name : string) (t : list string) : bool :=
  match t with n :: _ => String.eqb n name | [] => false end.

Definition singletonTag (e : Event) (name : string) (valid : string → bool) : bool :=
  let found := List.filter (named name) (etags e) in
  forallb (λ t, match t with [_; v] => valid v | _ => false end) found && Nat.eqb (List.length found) 1.

Fixpoint distinct_ids (seen : list string) (l : list string) : bool :=
  match l with
  | [] => true
  | id :: r => marmotID id && negb (contains seen id) && distinct_ids (id :: seen) r
  end.

Definition idList (e : Event) (name : string) : bool :=
  let found := List.filter (named name) (etags e) in
  forallb (λ t, match t with _ :: (_ :: _) as ids => distinct_ids [] (tail t) | _ => false end) found
  && Nat.eqb (List.length found) 1.

Definition countTag (e : Event) (name : string) : Z := Z.of_nat (List.length (List.filter (named name) (etags e))).

Definition digits (s : string) : bool := negb (String.eqb s "") && forallb is_digit (bytes_of s).

Definition groupShape (e : Event) : result unit :=
  guard_err (negb (singletonTag e "h" marmotHex64)) "invalid: kind 445 needs one lowercase 32-byte h tag";;
  guard_err (match base64_decode (Content e) with
             | Some b => (List.length b <? 28)%nat
             | None => true
             end) "invalid: kind 445 content must be padded base64 containing a nonce and authentication tag";;
  guard_err (existsb (λ t, match t with
    | [] => true
    | n :: rest => negb (String.eqb n "h")
        && negb (String.eqb n "expiration" && match rest with [v] => digits v | _ => false end)
    end) (etags e)) "invalid: kind 445 has an unsupported tag";;
  guard_err (1 <? countTag e "expiration") "invalid: kind 445 has repeated expiration".

Definition keyPackageTags : list string :=
  ["d"; "mls_protocol_version"; "i"; "mls_ciphersuite"; "mls_extensions"; "mls_proposals"; "app_components"].

Definition keyPackageShape (e : Event) : result unit :=
  guard_err (negb (singletonTag e "d" marmotHex64) || negb (singletonTag e "mls_protocol_version" marmotVersion)
             || negb (singletonTag e "i" marmotHex)) "invalid: kind 30443 has a malformed singleton tag";;
  guard_err (negb (forallb (idList e) ["mls_ciphersuite"; "mls_extensions"; "mls_proposals"; "app_components"]))
    "invalid: kind 30443 has a malformed id-list tag";;
  guard_err (existsb (λ t, named "app_components" t && negb (contains (tail t) "0x8009")) (etags e))
    "invalid: kind 30443 must advertise account identity proof";;
  guard_err (match base64_decode (Content e) with Some [] => true | Some _ => false | None => true end)
    "invalid: kind 30443 content must be padded base64";;
  guard_err (existsb (λ t, match t with [] => true | n :: _ => negb (contains keyPackageTags n) end) (etags e))
    "invalid: kind 30443 has an unsupported tag".

Definition MarmotShape (e : Event) : result unit :=
  if Kind e =? KIND_MARMOT_GROUP then groupShape e
  else if Kind e =? KIND_MARMOT_KEY_PACKAGE then keyPackageShape e
  else mret tt.

Definition jobID (value : string) : bool := (len value =? 64) && isHex value.

Definition JobKindName (kind : Z) : string :=
  if kind =? KIND_JOB_REQUEST then "job request"
  else if kind =? KIND_JOB_ACCEPTED then "job accepted"
  else if kind =? KIND_JOB_PROGRESS then "job progress"
  else if kind =? KIND_JOB_RESULT then "job result"
  else if kind =? KIND_JOB_CANCEL then "job cancel"
  else if kind =? KIND_JOB_ERROR then "job error"
  else "job event".

Definition JobRequestID (e : Event) : string := Tag e "e".

(** The loop over the tags of a request counts the asked keys. *)
Fixpoint job_request_tags (asked : Z) (l : list (list string)) : result Z :=
  match l with
  | [] => mret asked
  | (n :: v :: _) :: r =>
    if String.eqb n "p" then
      guard_err (negb (jobID v)) "invalid: job request p tags must be hex public keys";;
      job_request_tags (asked + 1) r
    else if String.eqb n "e" then
      guard_err (negb (jobID v)) "invalid: job request e tag must name the thread root event id";;
      job_request_tags asked r
    else job_request_tags asked r
  | _ :: r => job_request_tags asked r
  end.

Definition jobRequestShape (e : Event) : result unit :=
  guard_err (negb (ValidRoomID (Tag e "h"))) "invalid: job request must name its room in an h tag";;
  asked ← job_request_tags 0 (etags e);
  guard_err (asked =? 0) "invalid: job request must name at least one asked key in a p tag".

Definition jobAnswerShape (e : Event) (what : string) : result unit :=
  guard_err (negb (jobID (JobRequestID e))) ("invalid: " +:+ what +:+ " must name the job request in an e tag");;
  guard_err (negb (jobID (Tag e "p"))) ("invalid: " +:+ what +:+ " must name the requester in a p tag");;
  guard_err (negb (ValidRoomID (Tag e "h"))) ("invalid: " +:+ what +:+ " must keep the request's room in an h tag").

Definition jobCancelShape (e : Event) : result unit :=
  guard_err (negb (jobID (JobRequestID e))) "invalid: job cancel must name the job request in an e tag";;
  guard_err (negb (ValidRoomID (Tag e "h"))) "invalid: job cancel must keep the request's room in an h tag";;
  guard_err (negb (String.eqb (Tag e "p") "") && negb (jobID (Tag e "p")))
    "invalid: job cancel p tag must be a hex public key".

Definition JobShape (e : Event) : result unit :=
  if IsJobRequest (Kind e) then jobRequestShape e
  else if IsJobAnswer (Kind e) then jobAnswerShape e (JobKindName (Kind e))
  else if IsJobCancel (Kind e) then jobCancelShape e
  else mret tt.

Definition jobFeature (p : Policy) (e : Event) : result unit :=
  guard_err (IsJobKind (Kind e) && negb (F_Jobs (P_Features p)))
    "restricted: long tasks are switched off on this relay".

Definition jobWriter (e : Event) (a : PAccess) : result unit :=
  guard_err (IsJobKind (Kind e) && negb (PA_Member a) && negb (PA_Owner a))
    "restricted: long tasks are accepted from members and agents".

Definition protectedKind (kind : Z) : bool :=
  containsInt [0; 3; 10002; 9735; 13534; 8000; 8001; 9000; 9001; 33534; 39000; 39001; 39002; 39003; 39005] kind.

Definition nip43Shape (e : Event) (now : Z) : result unit :=
  if negb (Kind e =? KIND_NIP43_JOIN) && negb (Kind e =? KIND_NIP43_LEAVE) then mret tt
  else
    let delta := wrap64 (CreatedAt e - now) in
    guard_err ((300 <? delta) || (delta <? -300)) "invalid: NIP-43 request is outside the allowed time window";;
    if Kind e =? KIND_NIP43_LEAVE then
      let protected := List.filter (named "-") (etags e) in
      guard_err (existsb (λ t, negb (Nat.eqb (List.length t) 1)) protected)
        "invalid: NIP-43 leave protected tag must be empty";;
      guard_err (negb (Nat.eqb (List.length protected) 1)) "invalid: NIP-43 leave needs one protected tag"
    else mret tt.

Definition inboxAdmission (p : Policy) (e : Event) : bool :=
  String.eqb (PubKey e) (Owner p) && containsInt [0; 3; 10002] (Kind e)
  || contains (TagValues e "p") (Owner p).

(** ** The gate *)

Section Gate.
Context `{NostrCrypto} `{GoUnicode} `{GoFTS} `{NostrKeys} `{GoJson} `{Regexp2}.
Context (g : Config).

Let p := cfg_Policy g.

Definition blocked_pattern_matches (regex : bool) (pattern value : string) : bool :=
  if regex then re2_match pattern value else Contains (ToLower value) (ToLower pattern).

(** [blockedWord]; the slice of a single slash panics. *)
Fixpoint blocked_word_in (words : list string) (e : Event) : result string :=
  match words with
  | [] => mret ""
  | word :: r =>
    let regex := is_regex_word word in
    pattern ← (if regex then word_pattern word else mret word);
    if blocked_pattern_matches regex pattern (Content e) then mret "content contains a blocked word"
    else if BlockedWordsInTags p
            && existsb (λ t, existsb (blocked_pattern_matches regex pattern) t) (etags e)
    then mret "a tag contains a blocked word"
    else blocked_word_in r e
  end.
Definition blockedWord (e : Event) : result string := blocked_word_in (BlockedWords p) e.

Definition isModerator (key : string) : bool :=
  match cfg_Community g with
  | Some c => match c_Role c key with
              | Ok role => String.eqb role "owner" || String.eqb role "moderator"
              | Err _ => false
              end
  | None => false
  end.

(** One iteration of the loop of [accessFor] over the session's keys. *)
Definition access_step (c : Community) (a : PAccess) (key : string) : PAccess :=
  let member := match c_IsMember c key with Ok true => true | _ => PA_Member a end in
  let role := match c_Role c key with
              | Ok role => if String.eqb role "" then PA_Role a else role
              | Err _ => PA_Role a
              end in
  mkPAccess (PA_PubKeys a) role member (PA_Owner a).

Definition accessFor (keys : list string) : PAccess :=
  let a := mkPAccess keys "" false (contains keys (Owner p)) in
  match cfg_Community g with
  | Some c => fold_left (access_step c) keys a
  | None => a
  end.

Definition roomID (e : Event) : string :=
  if Kind e =? KIND_MARMOT_GROUP then "" else Tag e "h".

Definition roomExists (e : Event) : result unit :=
  let id := roomID e in
  if String.eqb id "" || String.eqb id (cfg_Slug g) || (Kind e =? KIND_CREATE_GROUP) then mret tt
  else match cfg_Community g with
  | None => Err ("blocked: this relay hosts one group: " +:+ cfg_Slug g)
  | Some c =>
    room ← wrap_err "check room" (c_Room c id);
    guard_err (negb (Live room)) ("invalid: unknown room " +:+ id)
  end.

Definition roomWrite (e : Event) : result unit :=
  roomExists e;;
  let id := roomID e in
  guard_err (negb (String.eqb id "") && RoomNoticeKind (Kind e)) "blocked: member notices are signed by the relay";;
  if String.eqb id "" || String.eqb id (cfg_Slug g) || (Kind e =? KIND_CREATE_GROUP) || RoomAdminKind (Kind e)
  then mret tt
  else match cfg_Community g with
  | None => mret tt (* unreachable: [roomExists] has refused *)
  | Some c =>
    allowed ← wrap_err "check room membership" (c_RoomWriteAllowed c id (PubKey e));
    guard_err (negb allowed) ("restricted: not a member of room " +:+ id)
  end.

Definition roomVisible (e : Event) (s : Session) : bool :=
  let id := roomID e in
  let id := if String.eqb id "" && containsInt [KIND_GROUP_METADATA; KIND_GROUP_ADMINS; KIND_GROUP_MEMBERS] (Kind e)
            then Tag e "d" else id in
  match cfg_Community g with
  | None => true
  | Some c =>
    if String.eqb id "" || String.eqb id (cfg_Slug g) then true
    else match c_RoomVisible c id (S_PubKeys s) with Ok visible => visible | Err _ => false end
  end.

Definition membersOnlyRoomFilter (f : Filter) : bool :=
  match cfg_Community g with
  | None => false
  | Some c =>
    existsb (λ id, negb (String.eqb id (cfg_Slug g))
      && match c_Room c id with
         | Ok room => Live room && String.eqb (R_Access room) "members"
         | Err _ => false
         end) (default [] (FTags f !! "h"))
  end.

(** Allowed and blocked, by the community's lists or the policy's. *)
Definition kindRules (kind : Z) : result (bool * bool) :=
  match cfg_Community g with
  | None => mret (Nat.eqb (List.length (AllowedKinds p)) 0 || containsInt (AllowedKinds p) kind,
                  containsInt (BlockedKinds p) kind)
  | Some c =>
    allowed ← c_AllowedKinds c;
    blocked ← c_BlockedKinds c;
    mret (match allowed with
          | Some values => Nat.eqb (List.length values) 0 || containsInt values kind
          | None => true
          end,
          match blocked with Some values => containsInt values kind | None => false end)
  end.

Fixpoint retention_for (rules : list (Z * Z)) (wildcard kind : Z) : Z :=
  match rules with
  | [] => wildcard
  | (k, days) :: r => if k =? kind then days
                      else retention_for r (if k <? 0 then days else wildcard) kind
  end.

Definition RetentionDays (kind : Z) : Z :=
  match cfg_Community g with
  | None => retention_for (Retention p) 0 kind
  | Some c => match c_Retention c with
              | Ok (Some rules) => retention_for rules 0 kind
              | _ => 0
              end
  end.

Definition query_all (f : Filter) (now limit : Z) (db : DB) : list Event :=
  R_Events (Query db f (mkQueryOptions now (mkAccess [] true false) limit None)).
Definition by_id (id : string) : Filter := mkFilter (Some [id]) None None ∅ None None None "".

Definition wotAllows (target owner : string) : bool :=
  match cfg_Store g with
  | None => false
  | Some db =>
    let principals := owner :: match cfg_Community g with
      | Some c => match c_Members c with Ok (Some l) => l | _ => [] end
      | None => []
      end in
    existsb (λ principal,
      match query_all (mkFilter None (Some [principal]) (Some [3]) ∅ None None None "") 0 0 db with
      | latest :: _ => contains (TagValues latest "p") target
      | [] => false
      end) principals
  end.

Definition isDMInbox : bool :=
  match cfg_Community g with
  | Some c =>
    if negb (String.eqb (Reads p) "members") then false
    else match c_AllowedKinds c with Ok (Some values) => containsInt values KIND_WRAP | _ => false end
  | None => String.eqb (Reads p) "members" && containsInt (AllowedKinds p) KIND_WRAP
  end.

Definition guestPass (e : Event) (a : PAccess) (now : Z) : bool :=
  if negb (PA_Member a) && negb (PA_Owner a) && negb (String.eqb (Writes p) "open") then
    if containsInt (OpenKinds p) (Kind e) then true
    else match cfg_Store g with
    | None => false
    | Some db =>
      if negb (GuestReplies p) || negb (Kind e =? 1) && negb (Kind e =? 1111) then false
      else existsb (λ id,
        match query_all (by_id id) now 1 db with
        | parent :: _ =>
          String.eqb (PubKey parent) (Owner p)
          || match cfg_Community g with
             | Some c => match c_IsMember c (PubKey parent) with Ok true => true | _ => false end
             | None => false
             end
        | [] => false
        end) (TagValues e "e" ++ TagValues e "E")
    end
  else false.

(** ** Visibility *)

Definition canSeeSignerMessage (e : Event) (s : Session) (f : option Filter) : bool :=
  contains (S_PubKeys s) (PubKey e)
  || existsb (λ recipient, contains (S_PubKeys s) recipient
       || match f with
          | Some f => match Kinds f with
                      | Some [k] => (k =? KIND_NOSTR_CONNECT) && contains (default [] (FTags f !! "p")) recipient
                      | _ => false
                      end
          | None => false
          end) (TagValues e "p").

Definition held (e : Event) : bool :=
  match cfg_Store g with
  | None => false
  | Some db => match hidden db !! ID e, pending db !! ID e with None, None => false | _, _ => true end
  end.

Definition ban_free (e : Event) (s : Session) : bool :=
  match cfg_Community g with
  | None => true
  | Some c =>
    let clear r := match r with Ok false => true | _ => false end in
    clear (c_IsEventBanned c (ID e)) && clear (c_IsBanned c (PubKey e))
    && forallb (λ key, clear (c_IsBanned c key)) (S_PubKeys s)
  end.

(** The artifact check and the context it runs in. *)
Definition artifact_ok (st : ArtifactState) (e : Event) (s : Session) : bool :=
  match cfg_ArtifactVisible g with
  | Some visible =>
    if Kind e =? KIND_VIEW then
      if bool_decide (ID e ∈ seen st) || (32 <=? depth st) then false
      else visible (mkArtifact ({[ID e]} ∪ seen st) (depth st + 1)) e s
    else true
  | None => true
  end.

Definition CanSee (st : ArtifactState) (e : Event) (s : Session) (f : option Filter) : bool :=
  if negb (artifact_ok st e s) then false
  else if IsAgentGrantRequest e && negb (contains (S_PubKeys s) (PubKey e))
          && negb (contains (S_PubKeys s) (Tag e "p")) then false
  else if held e then false
  else if PrivateRepository (IsPrivateRepository <$> cfg_Store g) e
          && (negb (F_Grasp08 (P_Features p)) || negb (String.eqb (Reads p) "members")) then false
  else if negb (ban_free e s) then false
  else if Kind e =? KIND_PUSH_REGISTRATION then contains (S_PubKeys s) (PubKey e)
  else if Kind e =? KIND_NOSTR_CONNECT then F_Signer (P_Features p) && canSeeSignerMessage e s f
  else if negb (CanRead p e (accessFor (S_PubKeys s))) then false
  else if negb (roomVisible e s) then false
  else if IsPrivate (Kind e) then
    contains (S_PubKeys s) (PubKey e) || existsb (contains (S_PubKeys s)) (TagValues e "p")
  else true.

Definition no_artifacts : ArtifactState := mkArtifact ∅ 0.

Definition jobReply (e : Event) (now : Z) : result unit :=
  if negb (IsJobAnswer (Kind e)) && negb (IsJobCancel (Kind e)) then mret tt
  else
    let what := JobKindName (Kind e) in
    let missing := Err ("restricted: " +:+ what +:+ " must name a request this relay holds") in
    match cfg_Store g with
    | None => missing
    | Some db =>
      match query_all (by_id (JobRequestID e)) now 1 db with
      | [] => missing
      | request :: _ =>
        if negb (IsJobRequest (Kind request)) then missing
        else if negb (CanSee no_artifacts request (mkSession [PubKey e] "" "") None) then missing
        else
          guard_err (negb (String.eqb (Tag e "h") (Tag request "h")))
            ("invalid: " +:+ what +:+ " must keep the request's room h tag");;
          if IsJobCancel (Kind e) then
            guard_err (negb (String.eqb (PubKey e) (PubKey request)))
              "restricted: only the requester may cancel a long task"
          else
            guard_err (negb (String.eqb (Tag e "p") (PubKey request)))
              ("invalid: " +:+ what +:+ " p tag must name the requester");;
            guard_err (negb (contains (TagValues request "p") (PubKey e)))
              ("restricted: " +:+ what +:+ " must come from a key the request asked")
      end
    end.

(** ** Admission *)

(** The agent step is the one that counts the event against the rate. *)
Definition agentAdmission (l : Limiter) (e : Event) (now : Z) : Limiter * result unit :=
  match cfg_Community g with
  | None => (l, mret tt)
  | Some c =>
    match wrap_err "check agent grant" (c_AgentGrant c (PubKey e)) with
    | Err m => (l, Err m)
    | Ok None =>
      (l, guard_err (IsAgentGrantRequest e) "restricted: grant requests require an active agent grant")
    | Ok (Some grant) =>
      match wrap_err "check agent role" (c_Role c (PubKey e)) with
      | Err m => (l, Err m)
      | Ok role =>
        if negb (String.eqb role "") && negb (String.eqb role "agent") then
          (l, guard_err (IsAgentGrantRequest e) "restricted: only the granted agent may request a grant change")
        else
          match (if IsAgentGrantRequest e then c_ReviewAgentGrantRequest c e now else Check grant e now) with
          | Err m => (l, Err m)
          | Ok _ =>
            let '(l', ok) := limiter_allow l (PubKey e) (Sc_Rate (G_Scope grant)) now in
            (l', guard_err (negb ok) ("restricted: agent grant does not allow more than "
                   +:+ Itoa (Sc_Rate (G_Scope grant)) +:+ " events per minute"))
          end
      end
    end
  end.

Definition agentGrantShape (e : Event) (now : Z) : result unit :=
  if negb (Kind e =? KIND_AGENT_GRANT) then mret tt
  else match cfg_Community g with
  | None => Err "restricted: agent grants need the membership service"
  | Some c =>
    role ← wrap_err "check grant signer" (c_Role c (PubKey e));
    guard_err (negb (CanGrantAgents role)) "restricted: only the owner or a moderator can grant an agent";;
    (if negb (String.eqb (Tag e "grant-request") "") || negb (String.eqb (Tag e "grant-base") "")
     then c_ValidateAgentGrantReplacement c e now else mret tt);;
    ParseAgentGrant e now;;
    mret tt
  end.

(** marmot.go: the account whose write policy a group envelope is under. *)
Definition Principal (e : Event) (s : Session) : result string :=
  if negb (Kind e =? KIND_MARMOT_GROUP) then mret (PubKey e)
  else if String.eqb (Writes p) "open" then
    match S_PubKeys s with key :: _ => mret key | [] => mret (PubKey e) end
  else match List.filter (λ key, PA_Owner (accessFor [key]) || PA_Member (accessFor [key])) (S_PubKeys s) with
  | key :: _ => mret key
  | [] => Err "auth-required: Marmot group envelopes need an authenticated account allowed to write here"
  end.

Definition not_banned (c : Community) (e : Event) : result unit :=
  banned ← wrap_err "check pubkey ban" (c_IsBanned c (PubKey e));
  guard_err banned "blocked: this pubkey is banned";;
  banned ← wrap_err "check event ban" (c_IsEventBanned c (ID e));
  guard_err banned "blocked: this event is banned".

Definition on_community (check : Community → result unit) : result unit :=
  match cfg_Community g with Some c => check c | None => mret tt end.

(** The checks [Write] and [Import] open with. *)
Definition event_shape (e : Event) (now : Z) : result unit :=
  Nostr.Validate e;;
  nip43Shape e now;;
  jobFeature p e;;
  JobShape e;;
  guard_err ((0 <? MaxFuture p) && (wrap64 (now + MaxFuture p) <? CreatedAt e))
    "invalid: event creation date is too far off from the current time";;
  guard_err ((0 <? Expiration e) && (Expiration e <=? now) && negb (Kind e =? KIND_AGENT_GRANT))
    "invalid: event has already expired".

Definition marmot_admission (e : Event) : result unit :=
  if (Kind e =? KIND_MARMOT_GROUP) || (Kind e =? KIND_MARMOT_KEY_PACKAGE) then
    guard_err (negb (F_Marmot (P_Features p))) "restricted: Marmot transport is switched off on this relay";;
    MarmotShape e
  else mret tt.

Definition blocked_word_check (e : Event) : result unit :=
  found ← blockedWord e;
  guard_err (negb (String.eqb found "") && negb (isModerator (PubKey e))) ("blocked: " +:+ found).

(** [Write] up to the agent step. *)
Definition write_pre (e : Event) (s : Session) (now : Z) : result unit :=
  guard_err (Kind e =? KIND_AUTH) "blocked: kind 22242 is only accepted inside AUTH";;
  marmot_admission e;;
  (if Kind e =? KIND_MARMOT_GROUP then
     guard_err (contains (S_PubKeys s) (PubKey e)) "invalid: kind 445 must use a fresh ephemeral author";;
     guard_err (match cfg_Store g with
                | Some db => negb (Nat.eqb (List.length (query_all (mkFilter None (Some [PubKey e])
                               (Some [KIND_MARMOT_GROUP]) ∅ None None None "") now 1 db)) 0)
                | None => false
                end) "invalid: kind 445 ephemeral author was already used"
   else mret tt);;
  event_shape e now;;
  on_community (λ c,
    (if String.eqb (S_RemoteIP s) "" then mret tt
     else blocked ← wrap_err "check IP block" (c_IsIPBlocked c (S_RemoteIP s));
          guard_err blocked "blocked: this IP address is blocked");;
    not_banned c e);;
  agentGrantShape e now.

(** The access of the key the event is written under. *)
Definition write_access (e : Event) (s : Session) : result PAccess :=
  if Kind e =? KIND_MARMOT_GROUP then
    principal ← Principal e s;
    on_community (λ c,
      banned ← wrap_err "check Marmot principal ban" (c_IsBanned c principal);
      guard_err banned "blocked: Marmot account is banned");;
    mret (accessFor [principal])
  else mret (accessFor [PubKey e]).

Definition membershipEvent (e : Event) : bool :=
  containsInt [KIND_JOIN; KIND_LEAVE; KIND_NIP43_JOIN; KIND_NIP43_LEAVE] (Kind e).

Definition retention_expired (e : Event) (now : Z) : bool :=
  let days := RetentionDays (Kind e) in
  (0 <? days) && negb (protectedKind (Kind e)) && (CreatedAt e <? wrap64 (now - wrap64 (days * 86400))).

(** The recipients of a gift wrap at a tenant that is a DM inbox. *)
Definition wrap_recipient_foreign (e : Event) : bool :=
  (Kind e =? KIND_WRAP) && isDMInbox
  && match cfg_Community g with
     | Some c => negb (Nat.eqb (List.length (TagValues e "p")) 0)
         && negb (existsb (λ r, match c_IsMember c r with Ok true => true | _ => false end) (TagValues e "p"))
     | None => false
     end.

Definition write_post (e : Event) (s : Session) (now : Z) : result unit :=
  blocked_word_check e;;
  if Kind e =? KIND_NOSTR_CONNECT then
    guard_err (negb (F_Signer (P_Features p))) "restricted: signer traffic is switched off"
  else
    roomWrite e;;
    guard_err (InboxTargeted p && negb (inboxAdmission p e))
      "blocked: inbox event must target the relay owner";;
    guard_err (hasTag e "-" && negb (contains (S_PubKeys s) (PubKey e)))
      "auth-required: this event may only be published by its author";;
    let author := accessFor [PubKey e] in
    guard_err (String.eqb (Writes p) "wot" && negb (PA_Member author) && negb (PA_Owner author)
               && negb (wotAllows (PubKey e) (Owner p)))
      "restricted: this relay only accepts events from its members and the people they follow";;
    a ← write_access e s;
    jobWriter e a;;
    jobReply e now;;
    let ownerReplaceable := PA_Owner a && (IsReplaceable (Kind e) || IsAddressable (Kind e)) in
    rules ← wrap_err "read kind rules" (kindRules (Kind e));
    guard_err ((rules.2 || negb rules.1) && negb ownerReplaceable)
      "blocked: this relay does not accept this event kind";;
    guard_err (negb ownerReplaceable && negb (membershipEvent e) && negb (CanWrite p e a) && negb (guestPass e a now))
      "blocked: this event is not allowed by the relay write policy";;
    guard_err (retention_expired e now && negb ownerReplaceable)
      "blocked: event is older than this relay's retention window";;
    guard_err (wrap_recipient_foreign e) "blocked: gift wrap recipient is not local";;
    guard_err ((0 <? MinPow p) && (Difficulty (ID e) <? MinPow p))
      ("pow: difficulty " +:+ Itoa (Difficulty (ID e)) +:+ " is less than " +:+ Itoa (MinPow p));;
    guard_err ((0 <? MinPow p) && (0 <? CommittedDifficulty e) && (CommittedDifficulty e <? MinPow p))
      ("pow: committed target " +:+ Itoa (CommittedDifficulty e) +:+ " is less than " +:+ Itoa (MinPow p)).

Definition Write (l : Limiter) (e : Event) (s : Session) (now : Z) : Limiter * result unit :=
  match write_pre e s now with
  | Err m => (l, Err m)
  | Ok _ => let '(l', r) := agentAdmission l e now in (l', r;; write_post e s now)
  end.

Definition import_post (e : Event) (now : Z) : result unit :=
  jobReply e now;;
  blocked_word_check e;;
  guard_err (Kind e =? KIND_AUTH) "blocked: kind 22242 is only accepted inside AUTH";;
  guard_err ((Kind e =? KIND_NOSTR_CONNECT) && negb (F_Signer (P_Features p)))
    "restricted: signer traffic is switched off";;
  marmot_admission e;;
  roomExists e.

Definition Import (l : Limiter) (e : Event) (now : Z) : Limiter * result unit :=
  match (event_shape e now;; on_community (λ c, not_banned c e);; agentGrantShape e now) with
  | Err m => (l, Err m)
  | Ok _ => let '(l', r) := agentAdmission l e now in (l', r;; import_post e now)
  end.

(** ** Subscriptions *)

Definition signer_only (f : Filter) : bool :=
  match Kinds f with Some [k] => k =? KIND_NOSTR_CONNECT | _ => false end.

(** One filter's effect on [privateOnly] and [authHint]. *)
Definition read_step (anonymous : bool) (st : bool * bool) (f : Filter) : bool * bool :=
  let hint := st.2 || anonymous && membersOnlyRoomFilter f in
  match default [] (Kinds f) with
  | [] => (false, true)
  | kinds => (st.1 && forallb IsPrivate kinds, hint || existsb IsPrivate kinds && anonymous)
  end.

Definition Read (filters : list Filter) (s : Session) : result bool :=
  if F_Signer (P_Features p) && negb (Nat.eqb (List.length filters) 0) && forallb signer_only filters
  then mret false
  else
    guard_err (String.eqb (F_Search (P_Features p)) "off" && existsb (λ f, negb (String.eqb (Search f) "")) filters)
      "unsupported: search is switched off on this relay";;
    let a := accessFor (S_PubKeys s) in
    let anonymous := Nat.eqb (List.length (PA_PubKeys a)) 0 in
    guard_err (String.eqb (Reads p) "auth" && anonymous) "auth-required: this relay requires AUTH";;
    (if String.eqb (Reads p) "members" && negb (PA_Member a) && negb (PA_Owner a) then
       guard_err anonymous "auth-required: this relay is members-only";;
       Err "restricted: this relay is members-only"
     else mret tt);;
    let '(privateOnly, authHint) := fold_left (read_step anonymous) filters (true, false) in
    guard_err (privateOnly && anonymous) "auth-required: private kinds are only served to their recipients";;
    mret authHint.
End Gate.
