(* ===== verification/GatesProps.v ===== *)
(** * internal/gates: what admission and visibility guarantee *)

From S2P Require Import Prelude GoLib GoCodec GoLemmas GoStrings Nostr NostrProps Filter Store StoreQuery StoreInv StoreProps StoreMaint Policy Sites SitesProps Roster Agents Community Membership Rooms Auth Gates.

(** ** The agent rate limiter *)

(** The moments at which [agent] is let through while calls arrive. *)
Fixpoint admitted (rate : string → Z) (agent : string) (l : Limiter) (calls : list (string * Z)) : list Z :=
  match calls with
  | [] => []
  | (a, now) :: r =>
    let '(l', ok) := limiter_allow l a (rate a) now in
    (if ok && String.eqb a agent then [now] else []) ++ admitted rate agent l' r
  end.

Definition in_window (t at_ : Z) : bool := (t - 60 <? at_) && (at_ <=? t).
Definition window_count (t : Z) (l : list Z) : Z := Z.of_nat (List.length (List.filter (in_window t) l)).

Section LimiterProof.
Context (rate : string → Z) (agent : string).

(** [acc] is what was let through up to [last]. *)
Definition limiter_inv (l : Limiter) (acc : list Z) (last : Z) : Prop :=
  List.filter (λ a, last - 60 <? a) (default [] (l !! agent)) = List.filter (λ a, last - 60 <? a) acc ∧
  (∀ a, a ∈ acc → a ≤ last) ∧
  ∀ t, window_count t acc ≤ Z.max 0 (rate agent).

Lemma recent_filter lo lo' (l : list Z) : lo ≤ lo' →
  List.filter (λ a, lo' <? a) (List.filter (λ a, lo <? a) l) = List.filter (λ a, lo' <? a) l.
Proof.
  intros Hle. rewrite lfilter_lfilter. apply lfilter_ext. intros a _.
  destruct (Z.ltb_spec lo a), (Z.ltb_spec lo' a); cbn; try done; lia.
Qed.

Lemma window_app t l l' : window_count t (l ++ l') = window_count t l + window_count t l'.
Proof. unfold window_count. rewrite lfilter_app, List.length_app. lia. Qed.

Lemma window_recent t now l : now ≤ t → 
  window_count t l ≤ Z.of_nat (List.length (List.filter (λ a, now - 60 <? a) l)).
Proof.
  intros Hle. unfold window_count. apply inj_le.
  replace (List.filter (in_window t) l)
    with (List.filter (in_window t) (List.filter (λ a, now - 60 <? a) l)); [apply sublist_length, lfilter_sublist|].
  rewrite lfilter_lfilter. apply lfilter_ext. intros a _. unfold in_window.
  destruct (Z.ltb_spec (now - 60) a), (Z.ltb_spec (t - 60) a); cbn; try done; lia.
Qed.

Lemma limiter_other l a now : a ≠ agent → (limiter_allow l a (rate a) now).1 !! agent = l !! agent.
Proof. intros Hne. unfold limiter_allow. destruct (_ <=? _); cbn; by rewrite lookup_insert_ne. Qed.

Lemma limiter_inv_wait l acc last now : last ≤ now → limiter_inv l acc last → limiter_inv l acc now.
Proof.
  intros Hle (Hf & Hacc & Hw). split_and!; [|intros a Ha; specialize (Hacc a Ha); lia|done].
  rewrite <-(recent_filter (last - 60) (now - 60)) by lia. rewrite Hf. apply recent_filter. lia.
Qed.

Lemma limiter_inv_step l acc last a now : last ≤ now → limiter_inv l acc last →
  let '(l', ok) := limiter_allow l a (rate a) now in
  limiter_inv l' (acc ++ if ok && String.eqb a agent then [now] else []) now.
Proof.
  intros Hle Hinv. apply (limiter_inv_wait _ _ _ now) in Hinv; [|done]. clear Hle last.
  destruct (String.eqb_spec a agent) as [->|Hne].
  - destruct Hinv as (Hf & Hacc & Hw). unfold limiter_allow. cbv zeta. rewrite Hf.
    destruct (Z.leb_spec (rate agent) (Z.of_nat (List.length (List.filter (λ a, now - 60 <? a) acc)))) as [Hfull|Hfree]; cbn.
    + rewrite app_nil_r. split_and!; [|done|done]. rewrite lookup_insert_eq. cbn. by apply recent_filter.
    + split_and!.
      * rewrite lookup_insert_eq. cbn. rewrite !lfilter_app. f_equal. by apply recent_filter.
      * intros x. rewrite elem_of_app, list_elem_of_singleton. intros [Hx| ->]; [by apply Hacc|lia].
      * intros t. rewrite window_app. destruct (Z.leb_spec now t) as [Ht|Ht].
        -- pose proof (window_recent t now acc Ht). specialize (Hw t).
           assert (window_count t [now] ≤ 1) by (unfold window_count; cbn; case_match; cbn; lia). lia.
        -- assert (window_count t [now] = 0) as ->; [|specialize (Hw t); lia].
           unfold window_count, in_window. cbn. by rewrite (proj2 (Z.leb_gt now t)), andb_false_r by done.
  - destruct (limiter_allow l a (rate a) now) as [l' ok] eqn:E. rewrite andb_false_r, app_nil_r.
    pose proof (limiter_other l a now Hne) as Hl. rewrite E in Hl. cbn in Hl.
    destruct Hinv as (Hf & ? & ?). split_and!; [|done|done]. by rewrite Hl.
Qed.

Lemma limiter_inv_run calls l acc last :
  Sorted Z.le (last :: calls.*2) → limiter_inv l acc last →
  ∀ t, window_count t (acc ++ admitted rate agent l calls) ≤ Z.max 0 (rate agent).
Proof.
  revert l acc last. induction calls as [|[a now] calls IH]; intros l acc last Hs Hinv t.
  - cbn. rewrite app_nil_r. apply Hinv.
  - cbn [admitted]. apply Sorted_inv in Hs as [Hs Hhd]. apply HdRel_inv in Hhd.
    pose proof (limiter_inv_step l acc last a now Hhd Hinv) as Hstep.
    destruct (limiter_allow l a (rate a) now) as [l' ok]. rewrite app_assoc. by apply (IH l' _ now).
Qed.
End LimiterProof.

(** Whatever calls arrive, for whatever agents, no agent is let through
    more often than its rate in any window of sixty seconds. *)
Theorem limiter_window rate agent calls t :
  Sorted Z.le (calls.*2) →
  window_count t (admitted rate agent ∅ calls) ≤ Z.max 0 (rate agent).
Proof.
  intros Hs. destruct calls as [|[a now] calls]; [cbn; unfold window_count; cbn; lia|].
  apply (limiter_inv_run rate agent ((a, now) :: calls) ∅ [] now).
  - constructor; [done|]. constructor. cbn. lia.
  - split_and!; [by rewrite lookup_empty|by intros x ?%not_elem_of_nil|intros u; unfold window_count; cbn; lia].
Qed.

Section GateProofs.
Context `{NostrCrypto} `{GoUnicode} `{GoFTS} `{NostrKeys} `{GoJson} `{Regexp2}.
Context (g : Config).

(** A key of the session that is the owner's or, by the roster, a member's. *)
Definition member_key (key : string) : Prop :=
  key = Owner (cfg_Policy g) ∨ ∃ c, cfg_Community g = Some c ∧ c_IsMember c key = Ok true.

Lemma access_member_fold c keys a :
  PA_Member (fold_left (access_step c) keys a) = true →
  PA_Member a = true ∨ ∃ key, key ∈ keys ∧ c_IsMember c key = Ok true.
Proof.
  revert a. induction keys as [|key keys IH]; intros a Hm; [by left|]. cbn in Hm.
  destruct (IH _ Hm) as [Ha|(k & Hk & E)]; [|right; exists k; split; [by apply list_elem_of_further|done]].
  cbn in Ha. destruct (c_IsMember c key) as [[]|] eqn:E; [|by left..].
  right. exists key. split; [apply list_elem_of_here|done].
Qed.

Lemma access_owner_fold c keys a : PA_Owner (fold_left (access_step c) keys a) = PA_Owner a.
Proof. revert a. induction keys as [|key keys IH]; intros a; [done|]. cbn. by rewrite IH. Qed.

Lemma access_keys_fold c keys a : PA_PubKeys (fold_left (access_step c) keys a) = PA_PubKeys a.
Proof. revert a. induction keys as [|key keys IH]; intros a; [done|]. cbn. by rewrite IH. Qed.

Lemma accessFor_keys keys : PA_PubKeys (accessFor g keys) = keys.
Proof. unfold accessFor. cbv zeta. destruct (cfg_Community g) as [c|]; [by rewrite access_keys_fold|done]. Qed.

Lemma accessFor_insider keys :
  PA_Member (accessFor g keys) || PA_Owner (accessFor g keys) = true → ∃ key, key ∈ keys ∧ member_key key.
Proof.
  unfold accessFor. cbv zeta. rewrite orb_true_iff. destruct (cfg_Community g) as [c|] eqn:Ec.
  - rewrite access_owner_fold. cbn [PA_Owner]. intros [Hm|Ho].
    + destruct (access_member_fold _ _ _ Hm) as [?|(k & Hk & E)]; [done|]. exists k. split; [done|right].
      by exists c.
    + apply contains_spec in Ho. eexists. split; [exact Ho|by left].
  - cbn. intros [?|Ho]; [done|]. apply contains_spec in Ho. eexists. split; [exact Ho|by left].
Qed.

Lemma readRule_members p a :
  Reads p = "members" → readRule p a = true → PA_Member a || PA_Owner a = true.
Proof. unfold readRule. intros ->. done. Qed.

Lemma not_true b : negb b = false → b = true.
Proof. by destruct b. Qed.

Lemma clear_answer (r : result bool) : match r with Ok false => true | _ => false end = true → r = Ok false.
Proof. by destruct r as [[]|]. Qed.

Lemma ban_free_spec e s c : cfg_Community g = Some c → ban_free g e s = true →
  c_IsEventBanned c (ID e) = Ok false ∧ c_IsBanned c (PubKey e) = Ok false ∧
  ∀ key, key ∈ S_PubKeys s → c_IsBanned c key = Ok false.
Proof.
  unfold ban_free. intros ->. cbv zeta. rewrite !andb_true_iff, forallb_elem. intros [[He Ha] Hk].
  split_and!; [by apply clear_answer..|]. intros key Hin. by apply clear_answer, Hk.
Qed.

(** C4: an event is served to a session only if it is not held for review,
    neither it, its author nor any key of the session is banned, and, for
    private repositories, the tenant runs a members-only private service.  A
    private kind goes to its author and its recipients (for signer traffic
    also to a subscription that asks for exactly that inbox), and on a
    members-only tenant every event outside the signer and push kinds goes to
    a session that holds the owner's or a member's key. *)
Theorem CanSee_sound st e s f :
  CanSee g st e s f = true →
  held g e = false ∧
  (∀ c, cfg_Community g = Some c →
     c_IsEventBanned c (ID e) = Ok false ∧ c_IsBanned c (PubKey e) = Ok false ∧
     ∀ key, key ∈ S_PubKeys s → c_IsBanned c key = Ok false) ∧
  (PrivateRepository (IsPrivateRepository <$> cfg_Store g) e = true →
     F_Grasp08 (P_Features (cfg_Policy g)) = true ∧ Reads (cfg_Policy g) = "members") ∧
  (IsPrivate (Kind e) = true →
     PubKey e ∈ S_PubKeys s ∨ (∃ key, key ∈ S_PubKeys s ∧ key ∈ TagValues e "p") ∨
     Kind e = KIND_NOSTR_CONNECT ∧ ∃ f', f = Some f' ∧ Kinds f' = Some [KIND_NOSTR_CONNECT] ∧
       ∃ r, r ∈ TagValues e "p" ∧ r ∈ default [] (FTags f' !! "p")) ∧
  (Reads (cfg_Policy g) = "members" → Kind e ≠ KIND_PUSH_REGISTRATION → Kind e ≠ KIND_NOSTR_CONNECT →
     ∃ key, key ∈ S_PubKeys s ∧ member_key key).
Proof.
  unfold CanSee. destruct (negb (artifact_ok _ _ _ _)); [done|]. destruct (_ && _ && _); [done|].
  destruct (held g e); [done|].
  destruct (PrivateRepository _ e && _) eqn:Erepo; [done|].
  destruct (negb (ban_free g e s)) eqn:Eban; [done|]. apply not_true in Eban. intros Hsee.
  split; [done|]. split; [intros c Hc; by apply (ban_free_spec e s c)|]. split.
  { intros Hp. rewrite Hp in Erepo. cbn in Erepo. apply orb_false_iff in Erepo as [E1 E2].
    split; [by apply not_true|]. by apply String.eqb_eq, not_true. }
  destruct (Kind e =? KIND_PUSH_REGISTRATION) eqn:Epush.
  { apply contains_spec in Hsee. split; [by left|]. intros _ Hne. by apply Z.eqb_eq in Epush. }
  apply Z.eqb_neq in Epush. destruct (Z.eqb_spec (Kind e) KIND_NOSTR_CONNECT) as [Enc|Enc].
  { split; [|done]. intros _. apply andb_true_iff in Hsee as [_ Hsee]. unfold canSeeSignerMessage in Hsee.
    apply orb_true_iff in Hsee as [Hs|Hs]; [left; by apply contains_spec|right].
    apply existsb_elem in Hs as (r & Hr & Hs). apply orb_true_iff in Hs as [Hs|Hs].
    - left. exists r. split; [by apply contains_spec|done].
    - right. split; [done|]. destruct f as [f'|]; [|done]. exists f'. split; [done|].
      destruct (Kinds f') as [[|k [|]]|]; try done. apply andb_true_iff in Hs as [Hk Hs].
      apply Z.eqb_eq in Hk as ->. split; [done|]. exists r. split; [done|by apply contains_spec]. }
  destruct (negb (CanRead _ _ _)) eqn:Eread; [done|]. destruct (negb (roomVisible _ _ _)); [done|]. split.
  - intros Hp. rewrite Hp in Hsee. apply orb_true_iff in Hsee as [Hs|Hs]; [left; by apply contains_spec|].
    right; left. apply existsb_elem in Hs as (r & Hr & Hs). exists r. split; [by apply contains_spec|done].
  - intros Hm _ _. apply not_true in Eread. unfold CanRead in Eread.
    destruct (containsInt _ _); [done|]. destruct (readRule _ _) eqn:Er; [|done].
    by eapply accessFor_insider, readRule_members.
Qed.

(** ** Admission *)

Lemma Write_Ok l e s now l' :
  Write g l e s now = (l', Ok tt) →
  write_pre g e s now = Ok tt ∧ agentAdmission g l e now = (l', Ok tt) ∧ write_post g e s now = Ok tt.
Proof.
  unfold Write. destruct (write_pre g e s now) as [[]|m]; [|by intros [=]].
  destruct (agentAdmission g l e now) as [l1 [[]|m]]; cbn; [intros [= -> E]; by split_and!|by intros [=]].
Qed.

Lemma bind_tt (m k : result unit) : (m;; k) = Ok tt ↔ m = Ok tt ∧ k = Ok tt.
Proof. rewrite result_bind_Ok. split; [intros ([] & ? & ?); done|intros [? ?]; by exists tt]. Qed.

Lemma if_tt (b : bool) (k : result unit) : (if b then mret tt else k) = Ok tt ↔ b = true ∨ k = Ok tt.
Proof. destruct b; naive_solver. Qed.

Lemma not_banned_Ok c e : not_banned c e = Ok tt → c_IsBanned c (PubKey e) = Ok false ∧ c_IsEventBanned c (ID e) = Ok false.
Proof.
  unfold not_banned. destruct (c_IsBanned c (PubKey e)) as [[]|]; cbn; [done| |done].
  destruct (c_IsEventBanned c (ID e)) as [[]|]; cbn; done.
Qed.

Lemma write_pre_parts e s now : write_pre g e s now = Ok tt →
  Kind e ≠ KIND_AUTH ∧ marmot_admission g e = Ok tt ∧ event_shape g e now = Ok tt ∧
  on_community g (λ c, not_banned c e) = Ok tt ∧ agentGrantShape g e now = Ok tt.
Proof.
  unfold write_pre. rewrite guard_bind_Ok, !bind_tt. intros (Ha & Hm & _ & Hs & Hc & Hg).
  apply Z.eqb_neq in Ha. split_and!; try done. unfold on_community in *. destruct (cfg_Community g); [|done].
  by apply bind_tt in Hc as [_ Hc].
Qed.

(** Who may write: the last three policy checks of [Write]. *)
Definition write_policy (e : Event) (a : PAccess) (now : Z) : Prop :=
  PA_Owner a = true ∧ (IsReplaceable (Kind e) = true ∨ IsAddressable (Kind e) = true) ∨
  membershipEvent e = true ∨ CanWrite (cfg_Policy g) e a = true ∨ guestPass g e a now = true.

Lemma write_post_policy e s now : write_post g e s now = Ok tt → Kind e ≠ KIND_NOSTR_CONNECT →
  roomWrite g e = Ok tt ∧ (hasTag e "-" = true → PubKey e ∈ S_PubKeys s) ∧ jobReply g e now = Ok tt ∧
  (∃ a, write_access g e s = Ok a ∧ write_policy e a now) ∧
  (0 < MinPow (cfg_Policy g) → MinPow (cfg_Policy g) ≤ Difficulty (ID e)).
Proof.
  unfold write_post. rewrite bind_tt. intros [_ Hp] Hnc. apply Z.eqb_neq in Hnc. rewrite Hnc in Hp.
  apply bind_tt in Hp as [Hroom Hp]. rewrite !guard_bind_Ok in Hp. destruct Hp as (_ & Hprot & _ & Hp).
  apply result_bind_Ok in Hp as (a & Ha & Hp). rewrite !bind_tt in Hp. destruct Hp as (_ & Hjob & Hp).
  apply result_bind_Ok in Hp as (rules & _ & Hp). rewrite !guard_bind_Ok in Hp.
  destruct Hp as (_ & Hpol & _ & _ & Hpow & _). split_and!; [done| |done| |].
  - intros Ht. rewrite Ht in Hprot. by apply contains_spec, not_true.
  - exists a. split; [done|]. unfold write_policy. revert Hpol.
    destruct (PA_Owner a), (IsReplaceable (Kind e)), (IsAddressable (Kind e)), (membershipEvent e),
      (CanWrite _ _ _), (guestPass _ _ _ _); naive_solver.
  - intros Hmin. apply Z.ltb_lt in Hmin. rewrite Hmin in Hpow. by apply Z.ltb_ge.
Qed.

Lemma roomWrite_member e : roomWrite g e = Ok tt →
  roomID e ≠ "" → roomID e ≠ cfg_Slug g → Kind e ≠ KIND_CREATE_GROUP →
  ∃ c room, cfg_Community g = Some c ∧ c_Room c (roomID e) = Ok room ∧ Live room = true ∧
    (RoomAdminKind (Kind e) = false → c_RoomWriteAllowed c (roomID e) (PubKey e) = Ok true).
Proof.
  unfold roomWrite, roomExists. intros Hr H1' H2' H3'. apply String.eqb_neq in H1', H2'. apply Z.eqb_neq in H3'.
  rewrite H1', H2', H3' in Hr. cbn [orb negb andb] in Hr. apply bind_tt in Hr as [Hex Hr].
  destruct (cfg_Community g) as [c|]; [|done]. apply result_bind_Ok in Hex as (room & Eroom & Hlive).
  destruct (c_Room c (roomID e)) as [room'|] eqn:E; [|done]. cbn in Eroom. apply (inj Ok) in Eroom as ->.
  apply guard_Ok_tt, negb_false_iff in Hlive. exists c, room. split_and!; [done..|]. intros Hadm.
  rewrite Hadm in Hr. apply bind_tt in Hr as [_ Hr].
  destruct (c_RoomWriteAllowed c (roomID e) (PubKey e)) as [[]|]; done.
Qed.

Lemma agentAdmission_granted l e now l' c grant role :
  agentAdmission g l e now = (l', Ok tt) → cfg_Community g = Some c →
  c_AgentGrant c (PubKey e) = Ok (Some grant) → c_Role c (PubKey e) = Ok role → role = "" ∨ role = "agent" →
  (if IsAgentGrantRequest e then c_ReviewAgentGrantRequest c e now else Check grant e now) = Ok tt ∧
  limiter_allow l (PubKey e) (Sc_Rate (G_Scope grant)) now = (l', true).
Proof.
  unfold agentAdmission. intros Ha Ec Eg Er Hrole. rewrite Ec, Eg in Ha. cbn [wrap_err] in Ha. rewrite Er in Ha. cbn [wrap_err] in Ha.
  assert (negb (String.eqb role "") && negb (String.eqb role "agent") = false) as E by (by destruct Hrole as [-> | ->]).
  rewrite E in Ha. destruct (if IsAgentGrantRequest e then _ else _) as [[]|]; [|by injection Ha].
  destruct (limiter_allow l (PubKey e) (Sc_Rate (G_Scope grant)) now) as [l1 ok].
  injection Ha as -> Hg. apply guard_Ok_tt in Hg. split; [done|]. by destruct ok.
Qed.

(** C3: what a client gets accepted is a valid event that is not an AUTH event, is not
    dated beyond the allowed future where the policy sets one, and has not expired unless it
    is an agent grant; on a tenant with a community neither its author nor its identifier is
    banned, and a key that holds nothing but an agent grant wrote what its grant covers, or
    a grant request that passes the review of such requests, and was counted against its
    rate.  Outside signer traffic, an event in a room other than the relay's own, group
    creations aside, names a live room and, unless it is of a kind that administers rooms,
    comes from someone who may write there; a protected event comes from a session
    authenticated as its author, the write policy holds for the account it is written
    under, and it carries the proof of work the tenant asks for. *)
Theorem Write_sound l e s now l' :
  Write g l e s now = (l', Ok tt) →
  Kind e ≠ KIND_AUTH ∧ Nostr.Validate e = Ok tt ∧
  (0 < MaxFuture (cfg_Policy g) → CreatedAt e ≤ wrap64 (now + MaxFuture (cfg_Policy g))) ∧
  (Kind e ≠ KIND_AGENT_GRANT → 0 < Expiration e → now < Expiration e) ∧
  (∀ c, cfg_Community g = Some c →
     c_IsBanned c (PubKey e) = Ok false ∧ c_IsEventBanned c (ID e) = Ok false ∧
     ∀ grant role, c_AgentGrant c (PubKey e) = Ok (Some grant) → c_Role c (PubKey e) = Ok role →
       role = "" ∨ role = "agent" →
       (IsAgentGrantRequest e = false → Check grant e now = Ok tt) ∧
       (IsAgentGrantRequest e = true → c_ReviewAgentGrantRequest c e now = Ok tt) ∧
       limiter_allow l (PubKey e) (Sc_Rate (G_Scope grant)) now = (l', true)) ∧
  (Kind e ≠ KIND_NOSTR_CONNECT →
     (roomID e ≠ "" → roomID e ≠ cfg_Slug g → Kind e ≠ KIND_CREATE_GROUP →
        ∃ c room, cfg_Community g = Some c ∧ c_Room c (roomID e) = Ok room ∧ Live room = true ∧
          (RoomAdminKind (Kind e) = false → c_RoomWriteAllowed c (roomID e) (PubKey e) = Ok true)) ∧
     (hasTag e "-" = true → PubKey e ∈ S_PubKeys s) ∧
     (∃ a, write_access g e s = Ok a ∧ write_policy e a now) ∧
     (0 < MinPow (cfg_Policy g) → MinPow (cfg_Policy g) ≤ Difficulty (ID e))).
Proof.
  intros Hw. apply Write_Ok in Hw as (Hpre & Hag & Hpost).
  apply write_pre_parts in Hpre as (Hauth & _ & Hshape & Hban & _).
  unfold event_shape in Hshape. rewrite !bind_tt, !guard_Ok_tt in Hshape.
  destruct Hshape as (Hval & _ & _ & _ & Hfut & Hexp). split_and!; [done|done| | | |].
  - intros Hm. apply Z.ltb_lt in Hm. rewrite Hm in Hfut. by apply Z.ltb_ge.
  - intros Hk He. apply Z.eqb_neq in Hk. apply Z.ltb_lt in He. rewrite Hk, He in Hexp.
    rewrite andb_true_r in Hexp. by apply Z.leb_gt.
  - intros c Hc. unfold on_community in Hban. rewrite Hc in Hban. apply not_banned_Ok in Hban as [Hb1 Hb2].
    split_and!; [done..|]. intros grant role Eg Er Hr.
    destruct (agentAdmission_granted _ _ _ _ _ _ _ Hag Hc Eg Er Hr) as [Hck Hlim].
    split_and!; [| |done]; intros Hreq; by rewrite Hreq in Hck.
  - intros Hnc. apply write_post_policy in Hpost as (Hroom & Hprot & _ & Hpol & Hpow); [|done].
    split_and!; [|done..]. by apply roomWrite_member.
Qed.

Lemma jobReply_other e now : IsJobKind (Kind e) = false → jobReply g e now = Ok tt.
Proof. unfold jobReply, IsJobKind. rewrite !orb_false_iff. by intros [[_ ->] ->]. Qed.

(** What a relay accepts from a client it also accepts from a peer in the
    same state, with the same effect on the rate limiter; signer traffic that
    names a room is the one exception, since [Write] never looks at its room. *)
Theorem Write_implies_Import l e s now l' :
  Write g l e s now = (l', Ok tt) → Kind e ≠ KIND_NOSTR_CONNECT ∨ roomID e = "" →
  Import g l e now = (l', Ok tt).
Proof.
  intros Hw Hnc. apply Write_Ok in Hw as (Hpre & Hag & Hpost).
  apply write_pre_parts in Hpre as (Hauth & Hmar & Hshape & Hban & Hgrant).
  unfold Import. rewrite Hshape, Hban, Hgrant. cbn. rewrite Hag. f_equal. cbn.
  unfold import_post. apply Z.eqb_neq in Hauth. rewrite Hauth, Hmar.
  destruct (Z.eqb_spec (Kind e) KIND_NOSTR_CONNECT) as [E|E].
  - unfold write_post in Hpost. rewrite E, Z.eqb_refl in Hpost. apply bind_tt in Hpost as [-> Hs].
    rewrite jobReply_other by (by rewrite E). apply guard_Ok_tt in Hs. rewrite Hs. cbn.
    unfold roomExists. destruct Hnc as [?|Hr]; [done|]. by rewrite Hr.
  - pose proof (write_post_policy _ _ _ Hpost E) as (Hroom & _ & -> & _).
    unfold write_post in Hpost. apply bind_tt in Hpost as [-> _]. cbn.
    unfold roomWrite in Hroom. by apply bind_tt in Hroom as [-> _].
Qed.

Lemma query_by_id id now db request rest :
  query_all (by_id id) now 1 db = request :: rest →
  ∃ r, r ∈ events db ∧ r_raw r = request ∧ r_id r = id ∧ hidden db !! id = None ∧ pending db !! id = None.
Proof.
  unfold query_all. rewrite (Query_prefix _ _ _ 1) by done. cbn [R_Events]. intros E.
  assert (request ∈ r_raw <$> query_rows db (by_id id) (mkQueryOptions now (mkAccess [] true false) 1 None)) as Hin.
  { destruct (r_raw <$> _) as [|x l]; [done|]. cbn in E. injection E as -> _. apply list_elem_of_here. }
  apply list_elem_of_fmap in Hin as (r & -> & Hr). apply elem_of_query_rows in Hr as [Hr Hw].
  unfold where_cond, live_cond in Hw. rewrite !andb_true_iff in Hw.
  destruct Hw as [[[[_ Hf] _] [[_ Hh] Hp]] _]. unfold filter_cond in Hf. rewrite !andb_true_iff in Hf.
  destruct Hf as [[[[[Hid _] _] _] _] _]. cbn in Hid. rewrite orb_false_r in Hid. apply String.eqb_eq in Hid.
  subst id. exists r. split_and!; try done; [by destruct (hidden _ !! _)|by destruct (pending _ !! _)].
Qed.

(** An accepted answer to a long task names a request that the tenant
    holds and serves, stays in its room, addresses the requester and comes
    from a key the request asked; only the requester's cancellation is taken. *)
Theorem job_reply_sound l e s now l' :
  Write g l e s now = (l', Ok tt) → IsJobAnswer (Kind e) = true ∨ IsJobCancel (Kind e) = true →
  ∃ db r, cfg_Store g = Some db ∧ r ∈ events db ∧ r_id r = JobRequestID e ∧
    hidden db !! JobRequestID e = None ∧ pending db !! JobRequestID e = None ∧
    IsJobRequest (Kind (r_raw r)) = true ∧ Tag e "h" = Tag (r_raw r) "h" ∧
    CanSee g no_artifacts (r_raw r) (mkSession [PubKey e] "" "") None = true ∧
    (IsJobCancel (Kind e) = true → PubKey e = PubKey (r_raw r)) ∧
    (IsJobCancel (Kind e) = false →
       Tag e "p" = PubKey (r_raw r) ∧ PubKey e ∈ TagValues (r_raw r) "p").
Proof.
  intros Hw Hkind. apply Write_Ok in Hw as (_ & _ & Hpost).
  assert (Kind e ≠ KIND_NOSTR_CONNECT) as Hnc by (intros E; rewrite E in Hkind; by destruct Hkind).
  apply write_post_policy in Hpost as (_ & _ & Hjob & _); [|done]. unfold jobReply in Hjob.
  assert (negb (IsJobAnswer (Kind e)) && negb (IsJobCancel (Kind e)) = false) as E
    by (destruct Hkind as [-> | ->]; [done|by rewrite andb_false_r]).
  rewrite E in Hjob. cbv zeta in Hjob. destruct (cfg_Store g) as [db|]; [|done].
  destruct (query_all _ _ _ _) as [|request rest] eqn:Eq; [done|].
  apply query_by_id in Eq as (r & Hr & <- & Hid & Hh & Hp).
  destruct (negb (IsJobRequest _)) eqn:Ereq; [done|]. destruct (negb (CanSee _ _ _ _ _)) eqn:Esee; [done|].
  apply guard_bind_Ok in Hjob as [Hroom Hjob]. exists db, r.
  apply not_true in Ereq, Esee. apply not_true, String.eqb_eq in Hroom.
  split_and!; try done; intros Hc; rewrite Hc in Hjob.
  - by apply guard_Ok_tt, not_true, String.eqb_eq in Hjob.
  - apply guard_bind_Ok in Hjob as [H1' H2']. apply guard_Ok_tt, not_true, contains_spec in H2'.
    by apply not_true, String.eqb_eq in H1'.
Qed.

(** ** Subscriptions *)

Lemma forallb_false_elem {A} (test : A → bool) l : forallb test l = false → ∃ x, x ∈ l ∧ test x = false.
Proof.
  induction l as [|x l IH]; [done|]. cbn. destruct (test x) eqn:E; intros Hl.
  - destruct (IH Hl) as (y & ? & ?). exists y. split; [by apply list_elem_of_further|done].
  - exists x. split; [apply list_elem_of_here|done].
Qed.

(** Some filter of the request reaches beyond the private kinds. *)
Definition asks_public (fs : list Filter) : Prop :=
  ∃ f, f ∈ fs ∧ (default [] (Kinds f) = [] ∨ ∃ k, k ∈ default [] (Kinds f) ∧ IsPrivate k = false).

Lemma read_fold_private anonymous fs st :
  (fold_left (read_step g anonymous) fs st).1 = false → st.1 = false ∨ asks_public fs.
Proof.
  revert st. induction fs as [|f fs IH]; intros st E; [by left|]. cbn [fold_left] in E.
  destruct (IH _ E) as [Hs|(f' & Hf & Hk)].
  - unfold read_step in Hs. destruct (default [] (Kinds f)) as [|k ks] eqn:Ek.
    + right. exists f. split; [apply list_elem_of_here|by left].
    + cbn [fst] in Hs. apply andb_false_iff in Hs as [Hs|Hs]; [by left|right].
      exists f. split; [apply list_elem_of_here|right]. rewrite Ek.
      destruct (forallb_false_elem _ _ Hs) as (k' & ? & ?). by exists k'.
  - right. exists f'. split; [by apply list_elem_of_further|done].
Qed.

(** A subscription that is opened satisfies the tenant's read rule: on an
    auth tenant the session is authenticated, on a members-only tenant it holds
    the owner's or a member's key, with search off no filter searches, and an
    unauthenticated session asks for more than private kinds.  Signer inboxes
    are the one exception, so that a remote signer can be reached first. *)
Theorem Read_sound fs s hint :
  Read g fs s = Ok hint →
  (F_Signer (P_Features (cfg_Policy g)) = true ∧ fs ≠ [] ∧
     ∀ f, f ∈ fs → Kinds f = Some [KIND_NOSTR_CONNECT]) ∨
  ((F_Search (P_Features (cfg_Policy g)) = "off" → ∀ f, f ∈ fs → Search f = "") ∧
   (Reads (cfg_Policy g) = "auth" → S_PubKeys s ≠ []) ∧
   (Reads (cfg_Policy g) = "members" → ∃ key, key ∈ S_PubKeys s ∧ member_key key) ∧
   (S_PubKeys s = [] → asks_public fs)).
Proof.
  unfold Read. destruct (_ && _ && _) eqn:Esig; intros Hr.
  - left. rewrite !andb_true_iff, forallb_elem in Esig. destruct Esig as [[Hs Hn] Hall].
    split_and!; [done|by destruct fs|]. intros f Hf. specialize (Hall f Hf). unfold signer_only in Hall.
    destruct (Kinds f) as [[|k [|]]|]; try done. by apply Z.eqb_eq in Hall as ->.
  - right. clear Esig. cbv zeta in Hr. rewrite accessFor_keys in Hr. rewrite !guard_bind_Ok in Hr.
    destruct Hr as (Hsearch & Hauth & Hr). apply result_bind_Ok in Hr as ([] & Hmem & Hr).
    destruct (fold_left _ _ _) as [private h] eqn:Efold. apply guard_bind_Ok in Hr as [Hpriv _]. split_and!.
    + intros Hoff f Hf. rewrite Hoff in Hsearch. cbn [andb String.eqb] in Hsearch.
      pose proof (proj1 (existsb_elem_false _ _) Hsearch f Hf) as Hs. by apply String.eqb_eq, not_true.
    + intros E Hk. by rewrite E, Hk in Hauth.
    + intros E. apply accessFor_insider. rewrite E in Hmem. cbn [andb String.eqb] in Hmem.
      destruct (PA_Member _), (PA_Owner _); try done. cbn in Hmem. by apply guard_bind_Ok in Hmem as [_ Hmem].
    + intros Hk. rewrite Hk, andb_true_r in Hpriv. subst private.
      destruct (read_fold_private (Nat.eqb (List.length (S_PubKeys s)) 0) fs (true, false)) as [?|?]; [|done|done].
      by rewrite Efold.
Qed.
End GateProofs.

(** ** Witnesses *)

#[local] Instance toy_fts : GoFTS := {| fts_match q s := Contains s q |}.
#[local] Instance no_json : GoJson := {| json_parse _ := None |}.
#[local] Instance toy_keys_instance : NostrKeys := toy_keys.
#[local] Instance ascii_instance : GoUnicode := ascii_unicode.
#[local] Instance toy_crypto_instance : NostrCrypto := toy_crypto.
#[local] Instance toy_regexp2 : Regexp2 := {| re2_match p s := Contains s p |}.

Definition worker : string := Eval vm_compute in match PublicKey sample_secret with Ok pk => pk | Err _ => "" end.
Definition job_request : Event :=
  sample_event "7" sample_pk KIND_JOB_REQUEST 100 [["h"; "main"]; ["p"; worker]].
Definition job_accepted : Event := Eval vm_compute in
  match Sign (mkEvent "" "" 150 KIND_JOB_ACCEPTED
    (Some [["h"; "main"]; ["p"; sample_pk]; ["e"; ID job_request]]) "" "") sample_secret with
  | Ok e => e | Err _ => nil_event end.
Definition job_db : DB := (Save empty_db job_request (sample_opts 120)).1.
Definition job_gate : Config := mkConfig (Some job_db) None (Defaults worker) "main" None.
Definition worker_session : Session := mkSession [worker] "" "".

Lemma job_write : Write job_gate ∅ job_accepted worker_session 160 = (∅, Ok tt).
Proof. vm_compute. reflexivity. Qed.

Lemma Write_sound_witness : Kind job_accepted ≠ KIND_AUTH.
Proof. apply (Write_sound job_gate ∅ job_accepted worker_session 160 ∅). exact job_write. Defined.

Lemma Write_implies_Import_witness : Import job_gate ∅ job_accepted 160 = (∅, Ok tt).
Proof. apply (Write_implies_Import job_gate ∅ job_accepted worker_session); [exact job_write|left; discriminate]. Defined.

Lemma job_reply_sound_witness : ∃ db r, cfg_Store job_gate = Some db ∧ r ∈ events db ∧ r_id r = JobRequestID job_accepted.
Proof.
  destruct (job_reply_sound job_gate ∅ job_accepted worker_session 160 ∅) as (db & r & ? & ? & ? & _).
  - exact job_write.
  - left. reflexivity.
  - exists db, r. split; [|split]; assumption.
Defined.

Definition members_gate : Config := mkConfig None None private_policy "main" None.
Definition owner_session : Session := mkSession ["owner"] "" "".

Lemma CanSee_sound_witness : ∃ key, key ∈ ["owner"] ∧ member_key members_gate key.
Proof.
  apply (CanSee_sound members_gate no_artifacts job_request owner_session None);
    [vm_compute; reflexivity|reflexivity|discriminate|discriminate].
Defined.

Lemma Read_sound_witness : ∃ key, key ∈ ["owner"] ∧ member_key members_gate key.
Proof.
  destruct (Read_sound members_gate [empty_filter] owner_session true) as [(_ & _ & Hs)|(_ & _ & Hm & _)].
  - vm_compute. reflexivity.
  - specialize (Hs empty_filter (list_elem_of_here _ _)). discriminate.
  - apply Hm. reflexivity.
Defined.

Lemma limiter_window_witness :
  window_count 130 (admitted (λ _, 2) "bot" ∅ [("bot", 100); ("bot", 110); ("bot", 120); ("bot", 161)]) ≤ 2.
Proof.
  apply (limiter_window (λ _, 2) "bot" [("bot", 100); ("bot", 110); ("bot", 120); ("bot", 161)]).
  repeat constructor; cbn; lia.
Defined.
