(* ===== verification/Tenant.v ===== *)
(** * internal/daemon: a tenant's reads (tenant.go, membership_protocol.go)

    A tenant composes one relay's policy, storage, community and gate.  This
    file holds its state, the view of the community service its gate asks, and
    the read side: queries, counts, reconciliation items, live visibility and
    authentication.  What the gate and the commit ask of parts modelled
    elsewhere or not at all is [TenantParts]. *)

From S2P Require Import Prelude GoLib GoCodec GoLemmas GoStrings Nostr Filter SyncProtocol Store.
From S2P Require Import StoreQuery StoreAdmin Maintenance Policy Sites Roster Agents Community Membership Rooms GrantRequests CommunityExec.
From S2P Require Import Auth Replication Gates.

(** tinygit's validation of an announcement or state event ([true]: a
    client's), giving the repository's address and its JSON, and its staging of
    the metadata; the follow-up intent event_followups.go plans; the visibility of a stored view's
    artifact (custom_views.go); [json.Marshal] of a policy; [net.ParseIP]. *)
Class TenantParts := {
  git_validate : bool → DB → Event → result (string * string);
  git_stage : Event → DB → result unit;
  followup_plan : bool → DB → Event → Z → option Intent;
  artifact_visible : ArtifactState → Event → Session → bool;
  policy_text : Policy → string;
  is_ip : string → bool;
}.

Record Manifest := mkManifest { mf_event : string; mf_kind : Z; mf_pubkey : string; mf_d : string; mf_at : Z }.

(** [t_manifests], [t_pins] and [t_presence] are the tables site_manifests,
    records_pins and records_presence; [t_secret] signs the relay's records. *)
Record Tenant := mkTenant {
  t_name : string; t_publicURL : string; t_secret : string;
  t_service : Service; t_policy : Policy; t_limiter : gmap string (list Z);
  t_manifests : gmap string Manifest; t_pins : list (Z * string); t_presence : gmap string Z;
  t_maintenance : MGate }.

Definition t_store (t : Tenant) : DB := s_store (t_service t).
Definition with_service (s : Service) (t : Tenant) : Tenant :=
  mkTenant (t_name t) (t_publicURL t) (t_secret t) s (t_policy t) (t_limiter t) (t_manifests t) (t_pins t) (t_presence t) (t_maintenance t).
Definition with_policy (p : Policy) (t : Tenant) : Tenant :=
  mkTenant (t_name t) (t_publicURL t) (t_secret t) (t_service t) p (t_limiter t) (t_manifests t) (t_pins t) (t_presence t) (t_maintenance t).
Definition with_limiter (l : gmap string (list Z)) (t : Tenant) : Tenant :=
  mkTenant (t_name t) (t_publicURL t) (t_secret t) (t_service t) (t_policy t) l (t_manifests t) (t_pins t) (t_presence t) (t_maintenance t).
Definition with_manifests (m : gmap string Manifest) (t : Tenant) : Tenant :=
  mkTenant (t_name t) (t_publicURL t) (t_secret t) (t_service t) (t_policy t) (t_limiter t) m (t_pins t) (t_presence t) (t_maintenance t).
Definition with_pins (p : list (Z * string)) (t : Tenant) : Tenant :=
  mkTenant (t_name t) (t_publicURL t) (t_secret t) (t_service t) (t_policy t) (t_limiter t) (t_manifests t) p (t_presence t) (t_maintenance t).
Definition with_presence (p : gmap string Z) (t : Tenant) : Tenant :=
  mkTenant (t_name t) (t_publicURL t) (t_secret t) (t_service t) (t_policy t) (t_limiter t) (t_manifests t) (t_pins t) p (t_maintenance t).

(** [strings.Replace(s, old, new, 1)] for a nonempty [old]. *)
Definition replace_first (s old new : string) : string :=
  match Index s old with
  | Some i => take_str i s +:+ new +:+ drop_str (i + String.length old) s
  | None => s
  end.
Definition RelayURL (t : Tenant) : string := replace_first (t_publicURL t) "http" "ws".

(** [beginOperation], for an operation that runs to its end. *)
Definition admission (t : Tenant) : result unit :=
  match (beginOperation NoMarker None (t_maintenance t)).2 with Ok _ => mret tt | Err m => Err m end.

Definition query_time_leb (a b : Event) : bool :=
  if CreatedAt a =? CreatedAt b then negb (str_ltb (ID b) (ID a)) else CreatedAt b <? CreatedAt a.

Definition containsKind (kinds : list Z) (wanted : Z) : bool := containsInt kinds wanted.

Definition KIND_NIP43_INVITE : Z := 28935.

(** The filter without the invite kind; [None] when nothing else is asked. *)
Definition withoutNIP43Invite (f : Filter) : option Filter :=
  match default [] (Kinds f) with
  | [] => Some f
  | kinds =>
    match List.filter (λ kind, negb (kind =? KIND_NIP43_INVITE)) kinds with
    | [] => None
    | rest => Some (mkFilter (IDs f) (Authors f) (Some rest) (FTags f) (Since f) (Until f) (Limit f) (Search f))
    end
  end.

Definition nip43FilterCouldMatch (f : Filter) (relayPubKey : string) (now : Z) : bool :=
  match IDs f with Some _ => false | None => String.eqb (Search f) "" end
  && match Authors f with Some authors => contains authors relayPubKey | None => true end
  && match Since f with Some since => since <=? now | None => true end
  && match Until f with Some until => now <=? until | None => true end
  && forallb (λ kv : string * list string, String.eqb kv.1 "claim" && negb (Nat.eqb (List.length kv.2) 0)) (map_to_list (FTags f)).

Definition without_limit (f : Filter) : Filter :=
  mkFilter (IDs f) (Authors f) (Kinds f) (FTags f) (Since f) (Until f) None (Search f).

Section Tenant.
Context `{NostrCrypto} `{GoUnicode} `{GoFTS} `{NostrKeys} `{GoJson} `{GoJsonDecoder} `{Regexp2} `{GoPrint} `{TenantParts}.

(** ** The community service as the gate sees it *)

(** [Execute] of a list command as the policy's owner. *)
Definition listing (p : Policy) (s : Service) (method : string) : result Value := (Execute p is_ip [] 0 (Owner p) method [] s).2.

(** The gate asserts [listmembers] to be a list of members; it is an object. *)
Definition community_of (p : Policy) (s : Service) : Gates.Community :=
  mkCommunityView (λ key, mret (agent_grants (s_db s) !! key)) (λ key, mret (Role s key)) (λ key, mret (IsMember s key))
    (λ key, mret (IsBanned s key)) (λ id, mret (IsEventBanned s id)) (λ ip, mret (IsIPBlocked s ip)) (λ id, mret (room_row s id))
    (λ id key, mret (RoomWriteAllowed s id key).1) (λ id keys, mret (RoomVisible s id keys))
    (v ← listing p s "listallowedkinds"; mret (match v with VKinds l => Some l | _ => None end))
    (v ← listing p s "listblockedkinds"; mret (match v with VKinds l => Some l | _ => None end))
    (v ← listing p s "listretention"; mret (match v with VRetentions l => Some l | _ => None end))
    (v ← listing p s "listmembers"; mret None)
    (λ e now, ReviewAgentGrantRequest s e now;; mret tt)
    (λ e now, ValidateAgentGrantReplacement s e now).

Definition gate_of (t : Tenant) : Gates.Config :=
  mkConfig (Some (t_store t)) (Some (community_of (t_policy t) (t_service t))) (t_policy t) (t_name t) (Some artifact_visible).

(** [gate.CanSee] from the tenant: no artifact is being checked yet. *)
Definition can_see (t : Tenant) (e : Event) (s : Session) (f : option Filter) : bool := CanSee (gate_of t) no_artifacts e s f.

Definition CanRead (t : Tenant) (e : Event) (s : Session) : bool := can_see t e s None.
Definition CanReadFilter (t : Tenant) (e : Event) (s : Session) (f : Filter) : bool := can_see t e s (Some f).

(** ** Invitations *)

(** [records.PublicKey]; its error is dropped. *)
Definition relay_key (t : Tenant) : string := match PublicKey (t_secret t) with Ok pk => pk | Err _ => "" end.

Definition GenerateEphemeral (t : Tenant) (kind : Z) (tags : list (list string)) (content : string) (now : Z) : result Event :=
  Sign (mkEvent "" "" now kind (Some tags) content "") (t_secret t).

Definition nip43Invite (random : list Z) (f : Filter) (s : Session) (now : Z) (t : Tenant) : Tenant * result (option Event) :=
  if negb (containsKind (default [] (Kinds f)) KIND_NIP43_INVITE) then (t, mret None)
  else if match Limit f with Some n => n <=? 0 | None => false end then (t, mret None)
  else if negb (nip43FilterCouldMatch f (relay_key t) now) then (t, mret None)
  else match S_PubKeys s with
  | [] => (t, Err "auth-required: NIP-43 invite requests require AUTH")
  | key :: _ =>
    match IssueNIP43Invite (t_policy t) random key now (t_service t) with
    | (sv, Err m) => (with_service sv t, Err m)
    | (sv, Ok (code, _)) =>
      let t := with_service sv t in
      (t, (e ← GenerateEphemeral t KIND_NIP43_INVITE [["-"]; ["claim"; code]] "" now; mret (Some e)))
    end
  end.

(** ** Queries *)

Definition session_opts (s : Session) (now : Z) : QueryOptions := mkQueryOptions now (mkAccess (S_PubKeys s) false false) 0 None.

(** [!seen[e.ID]]: the identifiers seen are those of the result. *)
Definition add_seen (result_ : list Event) (e : Event) : list Event :=
  if contains (ID <$> result_) (ID e) then result_ else result_ ++ [e].

(** The visible rows of one filter. *)
Definition add_rows (t : Tenant) (s : Session) (f : Filter) (rows : list Event) (result_ : list Event) : list Event :=
  fold_left (λ acc e, if can_see t e s (Some f) then add_seen acc e else acc) rows result_.

Fixpoint query_filters (random : nat → list Z) (s : Session) (now : Z) (i : nat) (filters : list Filter) (result_ : list Event) (t : Tenant)
    : Tenant * result (list Event) :=
  match filters with
  | [] => (t, mret result_)
  | f :: rest =>
    match nip43Invite (random i) f s now t with
    | (t, Err m) => (t, Err m)
    | (t, Ok invite) =>
      let result_ := match invite with Some e => add_seen result_ e | None => result_ end in
      let result_ := match withoutNIP43Invite f with
                     | Some queryFilter => add_rows t s f (R_Events (StoreQuery.Query (t_store t) queryFilter (session_opts s now))) result_
                     | None => result_
                     end in
      query_filters random s now (S i) rest result_ t
    end
  end.

Definition Query (random : nat → list Z) (filters : list Filter) (s : Session) (now : Z) (t : Tenant) : Tenant * result (list Event) :=
  match admission t;; Read (gate_of t) filters s with
  | Err m => (t, Err m)
  | Ok _ =>
    let '(t, r) := query_filters random s now 0 filters [] t in
    (t, (l ← r; mret (sort_by query_time_leb l)))
  end.

(** The value of COUNT: the size and, for one supported filter, the sketch. *)
Definition count_sketch (filters : list Filter) (events : list Event) : result (option string) :=
  match filters with
  | [f] =>
    match HLLFilterOffset f with
    | Some offset =>
      h ← foldl (λ h e, h ← h; Add h (PubKey e)) (mret (NewHLL offset)) events;
      mret (Some (Hex h))
    | None => mret None
    end
  | _ => mret None
  end.

Definition Count (random : nat → list Z) (filters : list Filter) (s : Session) (now : Z) (t : Tenant) : Tenant * result (Z * option string) :=
  match admission t;; guard_err (negb (F_Count (P_Features (t_policy t)))) "unsupported: COUNT is switched off on this relay" with
  | Err m => (t, Err m)
  | Ok _ =>
    let '(t, r) := Query random (without_limit <$> filters) s now t in
    (t, (events ← r; sketch ← count_sketch filters events; mret (Z.of_nat (List.length events), sketch)))
  end.

Definition Sync (random : nat → list Z) (f : Filter) (s : Session) (now : Z) (t : Tenant) : Tenant * result (list Item) :=
  match admission t;; guard_err (negb (F_Sync (P_Features (t_policy t)))) "unsupported: sync is switched off on this relay" with
  | Err m => (t, Err m)
  | Ok _ =>
    let '(t, r) := Query random [without_limit f] s now t in
    (t, match r with Ok events => mret ((λ e, mkItem (ID e) (CreatedAt e)) <$> events) | Err m => Err m end)
  end.

(** The loop over the limited filters: more is left when a page is. *)
Definition page_left (s : Session) (now : Z) (t : Tenant) (f : Filter) : bool :=
  match Limit f with Some _ => R_More (StoreQuery.Query (t_store t) f (session_opts s now)) | None => false end.

Definition QueryHints (random : nat → list Z) (filters : list Filter) (s : Session) (now : Z) (t : Tenant)
    : Tenant * result (list Event * list string) :=
  match admission t;; Read (gate_of t) filters s with
  | Err m => (t, Err m)
  | Ok authHint =>
    let '(t, r) := Query random filters s now t in
    (t, (events ← r;
        mret (events, (if existsb (page_left s now t) filters then "more" else "finish") :: (if authHint : bool then ["auth"] else []))))
  end.

(** ** Authentication *)

(** private_grasp.go *)
Definition requirePrivateAccess (t : Tenant) (pubkey : string) : result unit :=
  if negb (PrivateServiceEnabled (t_policy t)) then mret tt
  else
    guard_err (String.eqb pubkey "") "auth-required: private service requires NIP-42 or NIP-98";;
    guard_err (IsBanned (t_service t) pubkey) "blocked: private service identity is banned";;
    let role := Role (t_service t) pubkey in
    let owner := String.eqb role "owner" || String.eqb pubkey (Owner (t_policy t)) in
    let member := String.eqb role "member" || String.eqb role "moderator" in
    guard_err (negb member && negb owner) "restricted: private service membership required".

Definition NotePresence (pubkey : string) (now : Z) (t : Tenant) : Tenant * result unit :=
  if String.eqb pubkey "" then (t, Err "presence: empty pubkey") else (with_presence (<[pubkey := now]> (t_presence t)) t, mret tt).

(** records/succession.go: the owner is alive. *)
Definition Heartbeat (owner : string) (now : Z) (t : Tenant) : Tenant * result unit :=
  if String.eqb owner "" || negb (String.eqb owner (Owner (t_policy t))) then (t, Err "restricted: owner heartbeat")
  else
    (with_service (on_store (λ db, PutSetting (PutSetting (PutSetting db "records.owner_seen" (Itoa now)) "records.succession_warning" "0")
                                     "records.succession_notify" "0") (t_service t)) t, mret tt).

(** One key of the session. *)
Definition authenticated_key (now : Z) (pubkey : string) (t : Tenant) : Tenant * result unit :=
  match (if PrivateServiceEnabled (t_policy t) then requirePrivateAccess t pubkey else mret tt);;
        guard_err (IsBanned (t_service t) pubkey) "blocked: this pubkey is banned" with
  | Err m => (t, Err m)
  | Ok _ =>
    match NotePresence pubkey now t with
    | (t, Err m) => (t, Err m)
    | (t, Ok _) => if String.eqb pubkey (Owner (t_policy t)) then Heartbeat pubkey now t else (t, mret tt)
    end
  end.

Fixpoint authenticated_keys (now : Z) (keys : list string) (t : Tenant) : Tenant * result unit :=
  match keys with
  | [] => (t, mret tt)
  | key :: r => match authenticated_key now key t with (t, Err m) => (t, Err m) | (t, Ok _) => authenticated_keys now r t end
  end.

Definition authenticated (s : Session) (now : Z) (t : Tenant) : Tenant * result unit :=
  match admission t with Err m => (t, Err m) | Ok _ => authenticated_keys now (S_PubKeys s) t end.
End Tenant.
