(* ===== verification/TenantWrite.v ===== *)
(** * internal/daemon: a tenant's writes (tenant.go, client_events.go, event_commit.go)

    Publication by a client, import from another relay, and changes of the
    policy.  One SQL transaction is one function on the tenant's tables: the
    event, its projections and its planned work land or fall together.  What
    [afterStoredEvent] does with the committed tenant (devices, callbacks,
    stored views, wiki notices) is another component's: a publication returns
    the calls it makes of it. *)

From S2P Require Import Prelude GoLib GoCodec GoLemmas GoStrings Nostr Filter SyncProtocol Store.
From S2P Require Import StoreQuery StoreAdmin Maintenance Policy Sites Roster Agents Community Membership Rooms GrantRequests CommunityExec.
From S2P Require Import Auth Replication Gates Tenant.

(** ** Shapes checked before the commit *)

(** tenant.go *)
Definition roomScope (name : string) (e : Event) : string :=
  if Kind e =? KIND_MARMOT_GROUP then ""
  else let id := Tag e "h" in if negb (String.eqb id "") && negb (String.eqb id name) then id else "".

Definition hexLower (value : string) : bool := isHex value.

Definition pin_ref (tag : list string) : option string :=
  match tag with
  | n :: ref :: _ =>
    if String.eqb n "e" then (if (len ref =? 64) && hexLower ref then Some ref else None)
    else if String.eqb n "a" then (if GoLib.Contains ref ":" then Some ref else None)
    else None
  | _ => None
  end.

(** The pinned references, each once. *)
Definition parsePinTags (tags : list (list string)) : result (list string) :=
  let out := fold_left (λ out ref, if contains out ref then out else out ++ [ref]) (omap pin_ref tags) [] in
  guard_err (20 <? Z.of_nat (List.length out)) "invalid: pin list has more than 20 entries";;
  mret out.

(** [ReplacePinsTx]: blank references leave a gap in the positions. *)
Fixpoint pin_rows (position : Z) (refs : list string) : list (Z * string) :=
  match refs with
  | [] => []
  | ref :: r => (if String.eqb (TrimSpace ref) "" then [] else [(position, ref)]) ++ pin_rows (position + 1) r
  end.

Definition reviewFileMax : Z := 4096.

(** collaboration_review.go: [validateReviewAnchor]. *)
Definition review_file_ok (tag : list string) : bool :=
  match tag with
  | _ :: file :: _ => negb (String.eqb (TrimSpace file) "") && (len file <=? reviewFileMax)
      && forallb (λ b, negb ((b =? 10) || (b =? 13) || (b =? 0))) (bytes_of file)
  | _ => false
  end.
Definition review_line (tag : list string) : result (Z * string) :=
  match tag with
  | _ :: number :: side :: _ =>
    match num_ok (Atoi number) with
    | Some n =>
      guard_err ((n <? 1) || negb (String.eqb (Itoa n) number)) "blocked: a review comment line must be a positive integer";;
      guard_err (negb (contains ["old"; "new"] side)) "blocked: a review comment side must be old or new";;
      mret (n, side)
    | None => Err "blocked: a review comment line must be a positive integer"
    end
  | _ => Err "blocked: a review comment line tag needs a line number and a side, old or new"
  end.
Definition validateReviewAnchor (e : Event) : result unit :=
  if negb (Kind e =? 1111) then mret tt
  else
    match List.filter (named "file") (etags e), List.filter (named "line") (etags e) with
    | [], [] => mret tt
    | [file], [line] =>
      guard_err (negb (review_file_ok file)) "blocked: a review comment file tag needs a path";;
      review_line line;;
      guard_err (negb (contains ["1617"; "1618"] (Tag e "K"))) "blocked: a review comment anchors to a pull request or patch"
    | _, _ => Err "blocked: a review comment carries one file tag and one line tag"
    end.

(** client_events.go: the first e, p or x tag with a value.  [target] is still
    empty after such a tag without one, which leaves its third element. *)
Definition report_tag (acc : string * string * string) (tag : list string) : string * string * string :=
  let '(target, targetType, reportType) := acc in
  match tag with
  | n :: v :: more =>
    let named := if String.eqb n "e" then "event" else if String.eqb n "p" then "pubkey" else if String.eqb n "x" then "blob" else "" in
    if negb (String.eqb named "") && String.eqb target "" then (v, named, match more with r :: _ => r | [] => reportType end) else acc
  | _ => acc
  end.
Definition report_target (tags : list (list string)) : string * string * string := fold_left report_tag tags ("", "", "").

(** relay_access.go *)
Definition relayAccessChange (e : Event) : bool :=
  if (Kind e =? KIND_NIP43_JOIN) && String.eqb (Tag e "claim") "" then false
  else containsInt [KIND_REPORT; KIND_VANISH; KIND_JOIN; KIND_LEAVE; KIND_NIP43_JOIN; KIND_NIP43_LEAVE; KIND_PUT_USER;
                    KIND_REMOVE_USER; KIND_DELETE_EVENT; KIND_DELETE_GROUP] (Kind e).

(** replication_services.go *)
Definition pushFilterField (key : string) : bool :=
  contains ["ids"; "authors"; "kinds"; "since"; "until"] key || (len key =? 2) && HasPrefix key "#".
Definition push_filter_text `{GoJson} (raw : string) : result unit :=
  match json_parse raw with
  | Some (JObj m) => guard_err (negb (forallb (λ kv, pushFilterField kv.1) m)) "invalid: unknown push filter field"
  | Some JNull => Err "invalid: push filter must be an object"
  | _ => Err "invalid: push filter is not JSON"
  end.
Definition push_filter_values (f : Filter) : bool :=
  forallb (λ kind, (0 <=? kind) && (kind <=? 65535)) (default [] (Kinds f))
  && match Since f with Some since => 0 <=? since | None => true end
  && match Until f with Some until => 0 <=? until | None => true end.

(** client_events.go: the policy an edit-metadata event asks for. *)
Definition with_profile (name description icon : string) (p : Policy) : Policy :=
  mkPolicy (Owner p) (CustomHosts p) (P_Succession p) name description icon (P_Banner p) (P_Contact p) (PostingPolicy p)
    (PrivacyPolicy p) (P_Tags p) (LanguageTags p) (RelayCountries p) (P_Notify p) (Writes p) (OpenKinds p) (GuestReplies p)
    (BlockedWords p) (BlockedWordsInTags p) (ReportThreshold p) (Reads p) (JoinTerms p) (DirectoryPublic p) (MinPow p)
    (MaxFuture p) (P_MemberInvites p) (P_Views p) (P_Features p) (PushCallbacks p) (PrivatePeers p) (P_FileLimits p)
    (LetteredNips p) (P_Delivery p) (InboxTargeted p) (Dumps p) (DumpsKeep p) (Rooms p) (Callbacks p) (BlockedKinds p)
    (AllowedKinds p) (Retention p).
Definition edited_tag (p : Policy) (tag : list string) : Policy :=
  match tag with
  | n :: v :: _ =>
    if String.eqb n "name" then with_profile (cut 200 v) (P_Description p) (P_Icon p) p
    else if String.eqb n "about" then with_profile (Policy.P_Name p) (cut 2000 v) (P_Icon p) p
    else if String.eqb n "picture" then with_profile (Policy.P_Name p) (P_Description p) (cut 2000 v) p
    else p
  | _ => p
  end.
Definition edited_policy (p : Policy) (e : Event) : Policy := fold_left edited_tag (etags e) p.

Section Write.
Context `{NostrCrypto} `{GoUnicode} `{GoFTS} `{GoURLs} `{NostrKeys} `{GoJson} `{GoJsonDecoder} `{Regexp2} `{GoPrint} `{TenantParts}.

(** ** Admission of what is stored *)

(** private_repository.go *)
Definition private_relay (p : Policy) : bool := F_Grasp08 (P_Features p) && String.eqb (Reads p) "members".
Definition validatePrivateRepositoryPlacement (t : Tenant) (e : Event) : result unit :=
  if negb (Kind e =? KIND_REPO) && negb (Kind e =? KIND_REPO_STATE) then mret tt
  else if negb (PrivateRepository (Some (IsPrivateRepository (t_store t))) e) then mret tt
  else guard_err (negb (private_relay (t_policy t))) "blocked: private repositories require a GRASP-08 private tenant".

Definition validateStoredEvent (t : Tenant) (e : Event) : result unit :=
  validatePrivateRepositoryPlacement t e;; validateReviewAnchor e;; ValidateManifest e.

Definition callbackPolicy (hostOrigins : list string) (t : Tenant) : CallbackPolicy := mkCallbackPolicy hostOrigins (PushCallbacks (t_policy t)).

Definition validatePushRegistration (hostOrigins : list string) (t : Tenant) (e : Event) (s : Session) : result unit :=
  if negb (Kind e =? KIND_PUSH_REGISTRATION) then mret tt
  else
    guard_err (negb (F_Push (P_Features (t_policy t)))) "unsupported: relay push is switched off";;
    guard_err (negb (contains (S_PubKeys s) (PubKey e))) "auth-required: push registration must be authenticated as its author";;
    guard_err (String.eqb (Role (t_service t) (PubKey e)) "") "restricted: push registrations are limited to relay members";;
    guard_err (negb (Nat.eqb (List.length (TagValues e "d")) 1) || String.eqb (Tag e "d") "" || (256 <? len (Tag e "d")))
      "invalid: push registration needs one d tag";;
    guard_err (Nat.eqb (List.length (TagValues e "relay")) 0 || (4 <? Z.of_nat (List.length (TagValues e "relay")))
               || negb (Nat.eqb (List.length (TagValues e "callback")) 1)) "invalid: push registration needs relay and callback tags";;
    foldl (λ r raw, r;; push_filter_text raw) (mret tt) (TagValues e "filter" ++ TagValues e "ignore");;
    parsed ← ParsePushRegistration e (callbackPolicy hostOrigins t) (RelayURL t);
    guard_err (negb (forallb push_filter_values (PR_Filters parsed ++ PR_Ignore parsed))) "invalid: push filter value out of range".

(** ** Events that only act *)

Definition vanish (e : Event) (t : Tenant) : Tenant * result unit :=
  if existsb (λ tag, match tag with
                     | n :: v :: _ => String.eqb n "relay"
                         && (String.eqb v "ALL_RELAYS" || String.eqb (TrimSuffix v "/") (TrimSuffix (RelayURL t) "/"))
                     | _ => false
                     end) (etags e)
  then (with_service (on_store (λ db, Vanish db (PubKey e) (CreatedAt e)) (t_service t)) t, mret tt)
  else (t, Err "invalid: vanish request does not name this relay").

Definition publishReport (e : Event) (now : Z) (t : Tenant) : Tenant * result string :=
  let '(target, targetType, reportType) := report_target (etags e) in
  if String.eqb target "" then (t, Err "invalid: report needs an e or p tag")
  else
    let '(s, r) := SubmitReportTarget (PubKey e) target targetType reportType (Content e) (ReportThreshold (t_policy t)) now (t_service t) in
    (with_service s t, (r;; mret "info: report received")).

(** ** The commit *)

(** [storage.SaveOptions] with the hooks of the event's transaction, and what
    the caller keeps: whether Git metadata is staged, the follow-ups. *)
Record EventPlan := mkPlan {
  P_Now : Z; P_SearchMode : string; P_Intents : list Intent; P_BeforeCommit : Service → result Service;
  P_GitMetadata : bool; P_Followups : option Intent }.

Definition add_intents (l : list Intent) (pl : EventPlan) : EventPlan :=
  mkPlan (P_Now pl) (P_SearchMode pl) (P_Intents pl ++ l) (P_BeforeCommit pl) (P_GitMetadata pl) (P_Followups pl).
Definition add_hook (next : Service → result Service) (pl : EventPlan) : EventPlan :=
  mkPlan (P_Now pl) (P_SearchMode pl) (P_Intents pl) (λ s, s' ← P_BeforeCommit pl s; next s') (P_GitMetadata pl) (P_Followups pl).
Definition when (b : bool) (f : EventPlan → EventPlan) (pl : EventPlan) : EventPlan := if b then f pl else pl.

(** sites/service.go: a valid manifest's row; the label is the site's. *)
Definition site_kind (kind : Z) : bool := (kind =? KindSite) || (kind =? KindNamedSite) || (kind =? KindSiteSnapshot).
Definition indexed_manifest (e : Event) : bool := site_kind (Kind e) && match ValidateManifest e with Ok _ => true | Err _ => false end.
Definition manifest_row (e : Event) (now : Z) : Manifest := mkManifest (ID e) (Kind e) (PubKey e) (Tag e "d") now.
Definition site_options (p : Policy) (e : Event) (now : Z) : EventPlan :=
  let plan := mkPlan now "" [] (λ s, mret s) false None in
  if indexed_manifest e then
    when (S_Mirror (F_Sites (P_Features p))) (add_intents [mkIntent "site-mirror" (ID e) "" (SiteLabel e)])
      (add_hook (λ s, guard_err (String.eqb (SiteLabel e) "") "invalid: site label";; mret s) plan)
  else plan.

Definition put_pending (id reason : string) (db : DB) : DB :=
  mkDB (events db) (next_seq db) (tags db) (search db) (vanished db) (deletions db) (hidden db)
    (<[id := reason]> (pending db)) (marmot db) (history db) (wiki db) (grants db) (settings db) (intents db).
Definition put_marmot (id pubkey : string) (db : DB) : DB :=
  mkDB (events db) (next_seq db) (tags db) (search db) (vanished db) (deletions db) (hidden db) (pending db)
    (<[id := pubkey]> (marmot db)) (history db) (wiki db) (grants db) (settings db) (intents db).

(** [c.community.ApplyAgentEventTx] inside the transaction. *)
Definition agent_hook (e : Event) (now : Z) (s : Service) : result Service :=
  db ← ApplyAgentEventTx (ValidateAgentGrantReplacement s e now) (s_db s) e now;
  mret (mkService db (s_store s) (s_owner s) (s_slug s)).

Definition prepareRepository (client : bool) (db : DB) (e : Event) (pl : EventPlan) : result EventPlan :=
  '(target, raw) ← git_validate client db e;
  let pl := mkPlan (P_Now pl) (P_SearchMode pl) (P_Intents pl ++ [mkIntent "git-metadata" (ID e) target raw]) (P_BeforeCommit pl) true
              (P_Followups pl) in
  mret (when (Kind e =? KIND_REPO_STATE) (add_hook (λ s, mret (on_store (put_pending (ID e) "git objects") s))) pl).

(** [eventCommitter.prepare] *)
Definition prepare (p : Policy) (client : bool) (db : DB) (e : Event) (now : Z) : result EventPlan :=
  let pl := site_options p e now in
  let pl := mkPlan (P_Now pl) (F_Search (P_Features p)) (P_Intents pl) (P_BeforeCommit pl) (P_GitMetadata pl) (P_Followups pl) in
  let pl := when (Kind e =? 30023) (add_intents [mkIntent "view-publish" (ID e) "articles" "{}"]) pl in
  let pl := when (containsInt [54; 10154; 10064; KIND_DELETION] (Kind e)) (add_intents [mkIntent "view-publish" (ID e) "podcasts" "{}"]) pl in
  let pl := when ((Kind e =? KIND_AGENT_GRANT) || (Kind e =? KIND_DELETION)) (add_hook (agent_hook e now)) pl in
  if F_Grasp (P_Features p) && ((Kind e =? KIND_REPO) || (Kind e =? KIND_REPO_STATE)) then prepareRepository client db e pl else mret pl.

Definition prepareStoredEvent (t : Tenant) (client : bool) (e : Event) (now : Z) : result EventPlan :=
  pl ← prepare (t_policy t) client (t_store t) e now;
  mret (match followup_plan client (t_store t) e now with
        | Some i => mkPlan (P_Now pl) (P_SearchMode pl) (P_Intents pl ++ [i]) (P_BeforeCommit pl) (P_GitMetadata pl) (Some i)
        | None => pl
        end).

(** services.go: the newest relay list of a key. *)
Definition relays (db : DB) (now : Z) (pubkey : string) (write all : bool) : list string :=
  match query_everything db (mkFilter None (Some [pubkey]) (Some [10002]) ∅ None None None "") now 1 with
  | [] => []
  | e :: _ => omap (λ tag, match tag with
      | n :: v :: more =>
        let read := match more with r :: _ => String.eqb r "read" | [] => false end in
        let marked := negb (Nat.eqb (List.length more) 0) in
        if negb (String.eqb n "r") || negb all && negb write && marked && negb read || negb all && write && marked && read
        then None else Some v
      | _ => None
      end) (etags e)
  end.
Definition WriteRelays (db : DB) (now : Z) (pubkey : string) : list string := relays db now pubkey true false.
Definition ReadRelays (db : DB) (now : Z) (pubkey : string) : list string := relays db now pubkey false false.
Definition replication_policy (t : Tenant) : RPolicy :=
  mkRPolicy (P_Delivery (t_policy t)) (negb (String.eqb (Reads (t_policy t)) "open")) (relay_key t) (RelayURL t).

Definition edits_policy (t : Tenant) (e : Event) : bool := (Kind e =? KIND_EDIT_METADATA) && String.eqb (roomScope (t_name t) e) "".
Definition replaces_pins (t : Tenant) (e : Event) : bool := (Kind e =? KIND_PINS) && String.eqb (roomScope (t_name t) e) "".

(** The side effect of the tenant's group metadata and pins. *)
Definition projection_effect (t : Tenant) (e : Event) (s : Service) : result Service :=
  if Kind e =? KIND_EDIT_METADATA then mret (on_store (λ db, PutSetting db "policy" (policy_text (edited_policy (t_policy t) e))) s)
  else parsePinTags (etags e);; mret s.

Definition prepareClientEvent (t : Tenant) (e : Event) (s : Session) (now : Z) : result EventPlan :=
  pl ← prepareStoredEvent t true e now;
  let projects := edits_policy t e || replaces_pins t e in
  let role := Role (t_service t) (PubKey e) in
  guard_err (projects && negb (String.eqb role "owner") && negb (String.eqb role "moderator")) "restricted: not a group admin";;
  let pl := when projects (add_hook (HandleProjectionEventTx e now (projection_effect t e))) pl in
  let pl := add_intents (Prepare (Some (WriteRelays (t_store t) now, ReadRelays (t_store t) now)) e OriginClient (replication_policy t)) pl in
  if Kind e =? KIND_MARMOT_GROUP then
    principal ← Principal (gate_of t) e s;
    mret (add_hook (λ s, mret (on_store (put_marmot (ID e) principal) s)) pl)
  else mret pl.

(** [persist]: the save and its hooks, in the caller's transaction. *)
Definition persist (pl : EventPlan) (e : Event) (s : Service) : result Service :=
  if IsEphemeral (Kind e) then mret s
  else
    saved ← SaveTx (s_store s) e (mkSaveOptions (P_Now pl) (P_SearchMode pl) (P_Intents pl) None);
    P_BeforeCommit pl (on_store (λ _, saved.1) s).

(** The OK message: that of an access request or of a repeated change of
    membership. *)
Definition membership_reason (m : MembershipResult) : string :=
  if MR_AccessRequest m || HasPrefix (MR_Message m) "duplicate:" then MR_Message m else "".

(** The calls a publication makes of other components: [notifyJoinRequest] and
    [afterStoredEvent]. *)
Inductive Followup := JoinRequested (e : Event) | AfterStored (e : Event) (followups : option Intent).

Definition persistClientEvent (random : list Z) (t : Tenant) (e : Event) (now : Z) (pl : EventPlan)
    : Service * result (string * list Followup) :=
  let room := roomScope (t_name t) e in
  let p := t_policy t in
  let sv := t_service t in
  if negb (String.eqb room "") && RoomAdminKind (Kind e) then
    let '(sv, r) := HandleRoomEventTx p e now (persist pl e) sv in (sv, (r;; mret ("", [])))
  else if negb (String.eqb room "") && negb (IsEphemeral (Kind e)) then
    let '(sv, r) := HandleRoomMessageTx e now (persist pl e) sv in (sv, (r;; mret ("", [])))
  else if is_join (Kind e) || is_leave (Kind e) then
    let '(sv, r) := HandleMembershipEventTx p e now (persist pl e) sv in 
    (sv, (m ← r; mret (membership_reason m, if MR_NewRequest m then [JoinRequested e] else [])))
  else if moderation_kind (Kind e) then
    let '(sv, r) := HandleModerationEventTx p random e now (persist pl e) sv in (sv, (r;; mret ("", [])))
  else withTx sv (sv' ← persist pl e sv; mret ("", [], sv')).

(** The tables outside the service that the committed hooks wrote. *)
Definition committed (e : Event) (now : Z) (sv : Service) (t : Tenant) : Tenant :=
  let t' := with_service sv t in
  let t' := if indexed_manifest e then with_manifests (<[SiteLabel e := manifest_row e now]> (t_manifests t)) t' else t' in
  if replaces_pins t e then match parsePinTags (etags e) with Ok refs => with_pins (pin_rows 0 refs) t' | Err _ => t' end else t'.

Definition outcome : Type := Tenant * list Followup * result string.
Definition quietly {A} (r : Tenant * result A) : Tenant := r.1.

(** Past the transaction: staging, the policy, presence and the heartbeat. *)
Definition finish_publication (e : Event) (now : Z) (pl : EventPlan) (reason : string) (calls : list Followup) (before : Policy) (t : Tenant) : outcome :=
  let calls := calls ++ [AfterStored e (P_Followups pl)] in
  match (if P_GitMetadata pl then git_stage e (t_store t) else mret tt) with
  | Err m => (t, calls, Err m)
  | Ok _ =>
    let t := if edits_policy t e then with_policy (edited_policy before e) t else t in
    let t := quietly (NotePresence (PubKey e) now t) in
    let t := if String.eqb (PubKey e) (Owner (t_policy t)) then quietly (Heartbeat (PubKey e) now t) else t in
    (t, calls, mret reason)
  end.

Definition refused (t : Tenant) (m : string) : outcome := (t, [], Err m).
Definition acted (r : Tenant * result string) : outcome := (r.1, [], r.2).

Definition publish_event (random : list Z) (e : Event) (s : Session) (now : Z) (t : Tenant) : outcome :=
  match prepareClientEvent t e s now with
  | Err m => refused t m
  | Ok pl =>
    match persistClientEvent random t e now pl with
    | (sv, Err m) => if String.eqb m ErrDuplicate then (with_service sv t, [], mret ErrDuplicate) else refused (with_service sv t) m
    | (sv, Ok (reason, calls)) => finish_publication e now pl reason calls (t_policy t) (committed e now sv t)
    end
  end.

Definition Publish (hostOrigins : list string) (random : list Z) (e : Event) (s : Session) (now : Z) (t : Tenant) : outcome :=
  match admission t with
  | Err m => refused t m
  | Ok _ =>
    let '(l, r) := Write (gate_of t) (t_limiter t) e s now in
    let t := with_limiter l t in
    match (r;; validateStoredEvent t e;; validatePushRegistration hostOrigins t e s) with
    | Err m => refused t m
    | Ok _ =>
      if Kind e =? KIND_VANISH then acted (let '(t, r) := vanish e t in (t, (r;; mret "")))
      else if Kind e =? KIND_REPORT then acted (publishReport e now t)
      else publish_event random e s now t
    end
  end.

(** ** Import and the relay's own records (services.go) *)

Definition commitImported (e : Event) (now : Z) (t : Tenant) : Tenant * list Followup * result unit :=
  let '(l, r) := Import (gate_of t) (t_limiter t) e now in
  let t := with_limiter l t in
  match (r;; validateStoredEvent t e;; prepareStoredEvent t false e now) with
  | Err m => (t, [], Err m)
  | Ok pl =>
    match withTx (t_service t) (sv ← persist pl e (t_service t); mret (tt, sv)) with
    | (sv, Err m) => (with_service sv t, [], Err m)
    | (sv, Ok _) =>
      let t := with_service sv t in
      (if indexed_manifest e then with_manifests (<[SiteLabel e := manifest_row e now]> (t_manifests t)) t else t,
       [AfterStored e (P_Followups pl)], mret tt)
    end
  end.

Definition ingest (e : Event) (now : Z) (t : Tenant) : Tenant * list Followup * result unit :=
  match admission t with
  | Err m => (t, [], Err m)
  | Ok _ =>
    let '(t, calls, r) := commitImported e now t in
    (t, calls, match r with
               | Err m => if String.eqb m ErrDuplicate || String.eqb m ErrReplaced then mret tt else Err m
               | Ok _ => mret tt
               end)
  end.

Definition generatedRecord (e : Event) (t : Tenant) : Tenant * result unit :=
  match admission t with
  | Err m => (t, Err m)
  | Ok _ =>
    let '(db, r) := Save (t_store t) e (mkSaveOptions (CreatedAt e) (F_Search (P_Features (t_policy t))) [] None) in
    (with_service (on_store (λ _, db) (t_service t)) t, (r;; mret tt))
  end.

(** ** The policy *)

Definition validatePolicyTransition (previous next : Policy) : result unit :=
  guard_err (private_relay previous && negb (private_relay next))
    "blocked: opening a private GRASP-08 tenant requires an explicit data migration".

(** services.go: the new snapshot; the main room's access follows the reads. *)
Definition replacePolicy (next : Policy) (now : Z) (t : Tenant) : Tenant :=
  let previous := t_policy t in
  let t := with_policy next t in
  if String.eqb (RoomAccessFor (Reads previous)) (RoomAccessFor (Reads next)) then t
  else with_service (EnsureSlugRoom (t_name t) (RoomAccessFor (Reads next)) now (t_service t)).1 t.

(** [id] is the tenant's identifier in the catalog, [stamp] the RFC 3339 time. *)
Definition policy_tx (id stamp : string) (previous next : Policy) (now : Z) (s : Service) : result Service :=
  s ← (if String.eqb (Owner next) (Owner previous) then mret s
       else
         s ← ApplyOwnerTx (Owner previous) (Owner next) s;
         mret (on_store (λ db, AddIntents db [mkIntent "catalog-owner" (Owner next +:+ stamp) id (Owner next)] now) s));
  mret (on_store (λ db, PutSetting db "policy" (policy_text next)) s).

Definition persistPolicy (id stamp : string) (next : Policy) (now : Z) (t : Tenant) : Tenant * result unit :=
  match validatePolicyTransition (t_policy t) next;; policy_tx id stamp (t_policy t) next now (t_service t) with
  | Err m => (t, Err m)
  | Ok s => (replacePolicy next now (with_service (SetOwner (Owner next) s).1 t), mret tt)
  end.

Definition applyPolicy : string → string → Policy → Z → Tenant → Tenant * result unit := persistPolicy.

Definition setPolicy `{GoURL} `{GoRegexp} (decode : gmap string json → result Policy) (id stamp : string) (patch : gmap string json)
    (now : Z) (t : Tenant) : Tenant * result Policy :=
  match Patch decode (t_policy t) patch with
  | Err m => (t, Err m)
  | Ok next => let '(t, r) := persistPolicy id stamp next now t in (t, (r;; mret next))
  end.

(** ** Opening a tenant *)

Definition with_private (p : Policy) : Policy :=
  mkPolicy (Owner p) (CustomHosts p) (P_Succession p) (Policy.P_Name p) (P_Description p) (P_Icon p) (P_Banner p) (P_Contact p)
    (PostingPolicy p) (PrivacyPolicy p) (P_Tags p) (LanguageTags p) (RelayCountries p) (P_Notify p) (Writes p) (OpenKinds p)
    (GuestReplies p) (BlockedWords p) (BlockedWordsInTags p) (ReportThreshold p) "members" (JoinTerms p) (DirectoryPublic p)
    (MinPow p) (MaxFuture p) (P_MemberInvites p) (P_Views p)
    (let f := P_Features p in
     mkFeatures (F_Search f) (F_Sync f) (F_Count f) (F_Discovery f) (F_Names f) (F_Files f) (F_Pages f) (F_Sites f) (F_Signer f)
       (F_Marmot f) true (F_Grasp02 f) (F_Grasp03 f) (F_Grasp05 f) (F_Grasp06 f) true (F_Push f) (F_Jobs f))
    (PushCallbacks p) (PrivatePeers p) (P_FileLimits p) (LetteredNips p) (P_Delivery p) (InboxTargeted p) (Dumps p) (DumpsKeep p)
    (Rooms p) (Callbacks p) (BlockedKinds p) (AllowedKinds p) (Retention p).

(** A relay holding private repositories opens private, whatever its stored
    policy says. *)
Definition newTenant (name publicURL secret : string) (db : CommunityDB) (store : DB) (p : Policy) (manifests : gmap string Manifest)
    (pins : list (Z * string)) (presence : gmap string Z) (now : Z) : result Tenant :=
  let legacy := HasPrivateRepositories store && negb (private_relay p) in
  let p := if legacy then with_private p else p in
  let store := if legacy then PutSetting store "policy" (policy_text p) else store in
  s ← NewService db store (Owner p) now;
  match EnsureSlugRoom name (RoomAccessFor (Reads p)) now s with
  | (_, Err m) => Err m
  | (s, Ok _) => mret (mkTenant name publicURL secret s p ∅ manifests pins presence new_gate)
  end.
End Write.
