(* ===== verification/TenantProps.v ===== *)
(** * internal/daemon: what a tenant's reads return

    The union of the filters is exactly the stored events a filter selects and
    the session may see, each once and newest first; a count is its size and a
    reconciliation its keys. *)

From S2P Require Import Prelude GoLib GoCodec GoLemmas GoStrings Nostr NostrProps Filter SyncProtocol Store StoreQuery.
From S2P Require Import StoreAdmin StoreInv StoreProps Maintenance Policy Sites Roster Agents Community Membership Rooms GrantRequests.
From S2P Require Import CommunityExec Auth Replication Gates GatesProps Tenant.

(** The filter asks for no invitation. *)
Definition plain (f : Filter) : Prop := containsKind (default [] (Kinds f)) KIND_NIP43_INVITE = false.

Lemma containsInt_filter_out (l : list Z) k : containsInt l k = false → List.filter (λ x, negb (x =? k)) l = l.
Proof.
  induction l as [|x l IH]; cbn; [done|]. intros [-> Hl]%orb_false_iff. cbn. by rewrite (IH Hl).
Qed.

Lemma plain_without f : plain f → withoutNIP43Invite f = Some f.
Proof.
  unfold plain, containsKind, withoutNIP43Invite. intros Hp. destruct f as [ids authors [[|k l]|] tags_ since until limit_ search_]; [done| |done].
  change (default [] _) with (k :: l) in *. pose proof (containsInt_filter_out (k :: l) _ Hp) as E.
  cbv beta iota. rewrite E. done.
Qed.

Lemma query_time_key a b : ordered query_time_leb a b ↔ not_after (CreatedAt a) (ID a) (CreatedAt b) (ID b).
Proof.
  unfold ordered, query_time_leb, not_after, key_before. rewrite Z.eqb_sym.
  destruct (Z.eqb_spec (CreatedAt b) (CreatedAt a)) as [E|E], (Z.ltb_spec (CreatedAt a) (CreatedAt b)), (Z.ltb_spec (CreatedAt b) (CreatedAt a));
    cbn; rewrite ?negb_true_iff; try lia; try done.
Qed.

#[local] Instance query_time_total : Total (ordered query_time_leb).
Proof. intros a b. rewrite !query_time_key. apply not_after_total. Qed.
#[local] Instance query_time_trans : Transitive (ordered query_time_leb).
Proof. intros a b c. rewrite !query_time_key. apply not_after_trans. Qed.

Section Reads.
Context `{NostrCrypto} `{GoUnicode} `{GoFTS} `{NostrKeys} `{GoJson} `{GoJsonDecoder} `{Regexp2} `{GoPrint} `{TenantParts}.

(** ** The union of the filters *)

Definition filter_rows (t : Tenant) (s : Session) (now : Z) (f : Filter) : list Event :=
  R_Events (StoreQuery.Query (t_store t) f (session_opts s now)).
Definition union_rows (t : Tenant) (s : Session) (now : Z) (fs : list Filter) (acc : list Event) : list Event :=
  fold_left (λ acc f, add_rows t s f (filter_rows t s now f) acc) fs acc.

Lemma nip43Invite_plain random f s now t : plain f → nip43Invite random f s now t = (t, Ok None).
Proof. intros Hp. unfold nip43Invite. by rewrite Hp. Qed.

Lemma query_filters_plain random s now fs : Forall plain fs →
  ∀ i acc t, query_filters random s now i fs acc t = (t, Ok (union_rows t s now fs acc)).
Proof.
  induction 1 as [|f fs Hf Hfs IH]; intros i acc t; [done|]. cbn [query_filters].
  rewrite (nip43Invite_plain _ _ _ _ _ Hf), (plain_without _ Hf). by rewrite IH.
Qed.

(** [Keeps l acc e]: what adding events keeps. *)
Lemma add_seen_spec acc e :
  (NoDup (ID <$> acc) → NoDup (ID <$> add_seen acc e)) ∧
  (∀ x, x ∈ add_seen acc e → x ∈ acc ∨ x = e) ∧ acc ⊆ add_seen acc e ∧ ID e ∈ ID <$> add_seen acc e.
Proof.
  unfold add_seen. destruct (contains (ID <$> acc) (ID e)) eqn:E.
  { apply contains_spec in E. naive_solver. }
  apply not_true_iff_false in E. rewrite contains_spec in E. rewrite fmap_app. split_and!.
  - intros Hnd. apply NoDup_app. split; [done|]. cbn. split; [|apply NoDup_singleton].
    intros x Hx ->%list_elem_of_singleton. done.
  - intros x [?|?%list_elem_of_singleton]%elem_of_app; auto.
  - intros x Hx. apply elem_of_app. by left.
  - apply elem_of_app. right. apply list_elem_of_here.
Qed.

Lemma add_rows_spec t s f rows acc :
  (NoDup (ID <$> acc) → NoDup (ID <$> add_rows t s f rows acc)) ∧
  (∀ x, x ∈ add_rows t s f rows acc → x ∈ acc ∨ x ∈ rows ∧ can_see t x s (Some f) = true) ∧
  acc ⊆ add_rows t s f rows acc ∧
  (∀ x, x ∈ rows → can_see t x s (Some f) = true → ID x ∈ ID <$> add_rows t s f rows acc).
Proof.
  unfold add_rows. revert acc. induction rows as [|r rows IH]; intros acc; cbn [fold_left].
  { split_and!; try done; [by left|]. by intros x ?%not_elem_of_nil. }
  destruct (IH (if can_see t r s (Some f) then add_seen acc r else acc)) as (I1 & I2 & I3 & I4).
  destruct (add_seen_spec acc r) as (S1 & S2 & S3 & S4). destruct (can_see t r s (Some f)) eqn:Er.
  - split_and!.
    + intros Hn. by apply I1, S1.
    + intros x [[?| ->]%S2|[? ?]]%I2; [by left|right; split; [apply list_elem_of_here|done]|right; split; [by apply list_elem_of_further|done]].
    + intros x Hx. by apply I3, S3.
    + intros x [->|Hx]%elem_of_cons Hs; [|by apply I4]. apply list_elem_of_fmap in S4 as (y & Ey & Hy).
      rewrite Ey. by apply list_elem_of_fmap_2, I3.
  - split_and!; try done.
    + intros x [?|[? ?]]%I2; [by left|right; split; [by apply list_elem_of_further|done]].
    + intros x [->|Hx]%elem_of_cons Hs; [congruence|by apply I4].
Qed.

Lemma union_rows_spec t s now fs acc :
  (NoDup (ID <$> acc) → NoDup (ID <$> union_rows t s now fs acc)) ∧
  (∀ x, x ∈ union_rows t s now fs acc → x ∈ acc ∨ ∃ f, f ∈ fs ∧ x ∈ filter_rows t s now f ∧ can_see t x s (Some f) = true) ∧
  acc ⊆ union_rows t s now fs acc ∧
  (∀ f x, f ∈ fs → x ∈ filter_rows t s now f → can_see t x s (Some f) = true → ID x ∈ ID <$> union_rows t s now fs acc).
Proof.
  unfold union_rows. revert acc. induction fs as [|f fs IH]; intros acc; cbn [fold_left].
  { split_and!; try done; [by left|]. by intros f x ?%not_elem_of_nil. }
  destruct (IH (add_rows t s f (filter_rows t s now f) acc)) as (I1 & I2 & I3 & I4).
  destruct (add_rows_spec t s f (filter_rows t s now f) acc) as (S1 & S2 & S3 & S4). split_and!.
  - intros Hn. by apply I1, S1.
  - intros x [[?|[? ?]]%S2|(g & Hg & ? & ?)]%I2; [by left|right; exists f; split_and!; [apply list_elem_of_here|done|done]|].
    right. exists g. split_and!; [by apply list_elem_of_further|done|done].
  - intros x Hx. by apply I3, S3.
  - intros g x [->|Hg]%elem_of_cons Hx Hs; [|by eapply I4]. destruct (list_elem_of_fmap_1 _ _ _ (S4 x Hx Hs)) as (y & Ey & Hy).
    rewrite Ey. by apply list_elem_of_fmap_2, I3.
Qed.

(** Stored events with one identifier are one event. *)
Lemma stored_same_id db r r' : WF db → r ∈ events db → r' ∈ events db → ID (r_raw r) = ID (r_raw r') → r = r'.
Proof.
  intros Hwf Hr Hr' E. destruct (row_fields db r Hwf Hr) as (E1 & _). destruct (row_fields db r' Hwf Hr') as (E1' & _).
  apply (NoDup_fmap_elem r_id _ r r' (wf_ids db Hwf) Hr Hr'). congruence.
Qed.

Lemma Query_plain random fs s now t t' l :
  Forall plain fs → Query random fs s now t = (t', Ok l) → t' = t ∧ l = sort_by query_time_leb (union_rows t s now fs []).
Proof.
  intros Hp HQ. unfold Query in HQ. destruct (admission t;; _) as [?|m]; [|done].
  rewrite (query_filters_plain _ _ _ _ Hp) in HQ. cbn in HQ. by injection HQ as <- <-.
Qed.

Lemma filter_rows_stored t s now f e : e ∈ filter_rows t s now f → ∃ r, r ∈ events (t_store t) ∧ r_raw r = e.
Proof. intros (r & Hr & Ee & _)%Query_sound. by exists r. Qed.

(** C15: a query answers with the union of its filters' pages: exactly the stored
    events that some filter's page holds and the session may see through that
    filter, each identifier once, newest first and then by identifier; it
    changes nothing.  (A filter that asks for an invitation is answered with
    a fresh one besides.) *)
Theorem Query_exact random fs s now t t' l :
  WF (t_store t) → Forall plain fs → Query random fs s now t = (t', Ok l) →
  t' = t ∧ StronglySorted (ordered query_time_leb) l ∧ NoDup (ID <$> l) ∧
  ∀ e, e ∈ l ↔ ∃ f, f ∈ fs ∧ e ∈ filter_rows t s now f ∧ can_see t e s (Some f) = true.
Proof.
  intros Hwf Hp [-> ->]%Query_plain; [|done]. destruct (union_rows_spec t s now fs []) as (S1 & S2 & _ & S4).
  split_and!; [done|apply (StronglySorted_merge_sort _)| |].
  - rewrite sort_by_perm. apply S1. constructor.
  - intros e. rewrite sort_by_perm. split.
    + intros [?%not_elem_of_nil|Hx]%S2; done.
    + intros (f & Hf & He & Hs). destruct (list_elem_of_fmap_1 _ _ _ (S4 f e Hf He Hs)) as (y & Ey & Hy).
      destruct (filter_rows_stored _ _ _ _ _ He) as (r & Hr & <-).
      destruct (S2 y Hy) as [?%not_elem_of_nil|(g & _ & Hg & _)]; [done|]. destruct (filter_rows_stored _ _ _ _ _ Hg) as (r' & Hr' & <-).
      by rewrite (stored_same_id _ _ _ Hwf Hr Hr' Ey).
Qed.

(** ** Counts and reconciliation *)

(** The row is selected by a filter, whose limit is ignored, and visible. *)
Definition counted (t : Tenant) (s : Session) (now : Z) (fs : list Filter) (r : EventRow) : bool :=
  existsb (λ f, where_cond (t_store t) (without_limit f) (session_opts s now) r && can_see t (r_raw r) s (Some (without_limit f))) fs.

Lemma unlimited_rows t s now f e :
  e ∈ filter_rows t s now (without_limit f) ↔
  ∃ r, r ∈ events (t_store t) ∧ r_raw r = e ∧ where_cond (t_store t) (without_limit f) (session_opts s now) r = true.
Proof.
  split; [apply Query_sound|]. intros (r & Hr & <- & Hw). unfold filter_rows, StoreQuery.Query.
  change (query_limit (without_limit f) (session_opts s now)) with (@None Z). cbv beta iota. rewrite scan_rows_all. cbn [R_Events app].
  apply list_elem_of_fmap_2. by apply elem_of_query_rows.
Qed.

Lemma plain_unlimited f : plain f → plain (without_limit f).
Proof. done. Qed.

Lemma elem_of_union t s now fs e : WF (t_store t) →
  e ∈ union_rows t s now (without_limit <$> fs) [] ↔ e ∈ r_raw <$> List.filter (counted t s now fs) (events (t_store t)).
Proof.
  intros Hwf. destruct (union_rows_spec t s now (without_limit <$> fs) []) as (_ & S2 & _ & S4). split.
  - intros [?%not_elem_of_nil|(f & (g & -> & Hg)%list_elem_of_fmap & Hr & Hs)]%S2; [done|].
    apply unlimited_rows in Hr as (r & Hr & <- & Hw). apply list_elem_of_fmap_2, elem_of_lfilter. split; [done|].
    apply existsb_elem. exists g. by rewrite Hw, Hs.
  - intros (r & -> & [Hr Hc]%elem_of_lfilter)%list_elem_of_fmap. apply existsb_elem in Hc as (g & Hg & [Hw Hs]%andb_true_iff).
    assert (r_raw r ∈ filter_rows t s now (without_limit g)) as Hin by (apply unlimited_rows; eauto).
    destruct (list_elem_of_fmap_1 _ _ _ (S4 _ _ (list_elem_of_fmap_2 without_limit _ _ Hg) Hin Hs)) as (y & Ey & Hy).
    destruct (S2 y Hy) as [?%not_elem_of_nil|(f & _ & Hf & _)]; [done|]. destruct (filter_rows_stored _ _ _ _ _ Hf) as (r' & Hr' & <-).
    by rewrite (stored_same_id _ _ _ Hwf Hr Hr' Ey).
Qed.

Lemma union_perm t s now fs : WF (t_store t) →
  union_rows t s now (without_limit <$> fs) [] ≡ₚ r_raw <$> List.filter (counted t s now fs) (events (t_store t)).
Proof.
  intros Hwf. apply NoDup_Permutation.
  - apply (NoDup_fmap_1 ID), union_rows_spec. constructor.
  - apply (NoDup_fmap_1 ID). rewrite <-list_fmap_compose. eapply sublist_NoDup; [exact (wf_ids _ Hwf)|].
    rewrite (list_fmap_ext (ID ∘ r_raw) r_id); [apply lfilter_fmap_sublist|]. intros i r Hr%list_elem_of_lookup_2.
    apply elem_of_lfilter in Hr as [Hr _]. by destruct (row_fields _ _ Hwf Hr) as [-> _].
  - intros e. by apply elem_of_union.
Qed.

(** The answer of COUNT is the number of stored events that a filter selects,
    its limit ignored, and that the session may see. *)
Theorem Count_exact random fs s now t t' n sketch :
  WF (t_store t) → Forall plain fs → Count random fs s now t = (t', Ok (n, sketch)) →
  t' = t ∧ n = Z.of_nat (List.length (List.filter (counted t s now fs) (events (t_store t)))).
Proof.
  intros Hwf Hp HC. unfold Count in HC. destruct (admission t;; _) as [?|m]; [|done].
  destruct (Query random (without_limit <$> fs) s now t) as [t1 r1] eqn:EQ. destruct r1 as [l|m]; [|done].
  apply Query_plain in EQ as [-> ->]; [|by apply Forall_fmap, (Forall_impl plain)].
  cbn in HC. destruct (count_sketch fs _) as [k|m]; [|done]. cbn in HC. injection HC as -> <- _. split; [done|].
  by rewrite sort_by_perm, union_perm, length_fmap.
Qed.

(** Reconciliation works on the keys of exactly the stored events that the
    filter selects, its limit ignored, and that the session may see. *)
Theorem Sync_exact random f s now t t' items :
  WF (t_store t) → plain f → Sync random f s now t = (t', Ok items) →
  t' = t ∧ items ≡ₚ (λ r, mkItem (r_id r) (r_created r)) <$> List.filter (counted t s now [f]) (events (t_store t)).
Proof.
  intros Hwf Hp HS. unfold Sync in HS. destruct (admission t;; _) as [?|m]; [|done].
  destruct (Query random [without_limit f] s now t) as [t1 r1] eqn:EQ. destruct r1 as [l|m]; [|done].
  apply Query_plain in EQ as [-> ->]; [|by repeat constructor]. injection HS as <- <-. split; [done|].
  rewrite sort_by_perm. etransitivity; [apply fmap_Permutation, (union_perm t s now [f] Hwf)|].
  rewrite <-list_fmap_compose. rewrite (list_fmap_ext _ (λ r, mkItem (r_id r) (r_created r))); [done|]. intros i r Hr%list_elem_of_lookup_2. apply elem_of_lfilter in Hr as [Hr _].
  destruct (row_fields _ _ Hwf Hr) as (E1 & _ & E2 & _). unfold compose. by rewrite E1, E2.
Qed.
End Reads.
