(* ===== verification/TenantWriteProps.v ===== *)
(** * internal/daemon: what a tenant's writes do

    A refused publication writes nothing; an accepted one is stored with its
    planned delivery in the same transaction; a tenant that holds a private
    repository is private and stays so; a publication changes no more of the
    policy than the name, description and icon, for a group admin. *)

From S2P Require Import Prelude GoLib GoCodec GoLemmas GoStrings Nostr NostrProps Filter SyncProtocol Store.
From S2P Require Import StoreQuery StoreAdmin StoreInv StoreProps StoreSave StoreMaint WorkProps Maintenance Policy Sites Roster Agents Community Membership Rooms.
From S2P Require Import GrantRequests CommunityExec CommunityProps Auth Replication ReplicationProps Gates GatesProps Tenant TenantWrite TenantProps.

(** ** What a statement may do to the stored events and the planned work *)

Lemma insert_or_ignore_keeps {A} (same : A → A → bool) rows table x : x ∈ table → x ∈ insert_or_ignore same rows table.
Proof.
  destruct (insert_or_ignore_split same rows table) as (added & -> & _). intros Hx. apply elem_of_app. by left.
Qed.
Lemma insert_or_ignore_has {A} (same : A → A → bool) rows table x : same x x = true →
  x ∈ rows → ∃ y, y ∈ insert_or_ignore same rows table ∧ same x y = true.
Proof.
  intros Hs. revert table. induction rows as [|z rows IH]; intros table; [by intros ?%not_elem_of_nil|]. cbn.
  intros [->|Hx]%elem_of_cons; [|by apply IH]. destruct (existsb (same z) table) eqn:E.
  - apply existsb_elem in E as (y & Hy & Es). exists y. split; [by apply insert_or_ignore_keeps|done].
  - exists z. split; [|done]. apply insert_or_ignore_keeps, elem_of_app. right. apply list_elem_of_here.
Qed.

(** Events only leave, work only comes. *)
Definition trims (s s' : Service) : Prop :=
  events (s_store s') `sublist_of` events (s_store s) ∧ ∀ w, w ∈ intents (s_store s) → w ∈ intents (s_store s').

#[export] Instance trims_preorder : PreOrder trims.
Proof.
  split; [by intros s; split|]. intros a b c [H1 H2] [H3 H4]. split; [by etransitivity|auto].
Qed.

Lemma trims_store s s' : s_store s' = s_store s → trims s s'.
Proof. intros E. unfold trims. by rewrite E. Qed.
Lemma trims_on_store f s s' :
  events (f (s_store s')) = events (s_store s') → (∀ w, w ∈ intents (s_store s') → w ∈ intents (f (s_store s'))) →
  trims s s' → trims s (on_store f s').
Proof. intros He Hi Ht. etransitivity; [exact Ht|]. split; cbn; [by rewrite He|done]. Qed.
Lemma trims_tables f s s' : trims s s' → trims s (on_tables f s').
Proof. intros Ht. etransitivity; [exact Ht|]. by apply trims_store. Qed.
Lemma trims_record a b c d s s' : trims s s' → trims s (record a b c d s').
Proof. intros Ht. etransitivity; [exact Ht|]. by apply trims_store. Qed.
Lemma svc_trims_delete p s s' : trims s s' → trims s (on_store (λ db, (delete_events p db).1) s').
Proof.
  intros Ht. etransitivity; [exact Ht|]. split; cbn [s_store on_store]; [|done]. rewrite events_delete. apply lfilter_sublist.
Qed.
Lemma trims_enqueue id target payload now s s' : trims s s' → trims s (enqueue_projection id target payload now s').
Proof. apply trims_on_store; [done|]. intros w Hw. by apply insert_or_ignore_keeps. Qed.
Lemma trims_delete_rows ids s s' : trims s s' → trims s (delete_event_rows ids s').
Proof.
  revert s'. induction ids as [|id ids IH]; intros s' Ht; [etransitivity; [exact Ht|by apply trims_store; destruct s']|].
  unfold delete_event_rows. cbn [fold_left].
  change (trims s (delete_event_rows ids (on_store (λ db, (delete_events (λ r, String.eqb (r_id r) id) db).1) s'))).
  by apply IH, svc_trims_delete.
Qed.
#[local] Hint Resolve trims_tables trims_record svc_trims_delete trims_enqueue trims_delete_rows : tiny.


(** ** The handlers run the save in their transaction, or nothing of it *)

(** A handler that fails leaves the service; one that succeeds has saved last,
    or ([early]) has returned before. *)
Definition handled {A} (early : bool) (persist : Service → result Service) (s : Service) (out : Service * result A) : Prop :=
  match out.2 with
  | Err _ => out.1 = s
  | Ok _ => early = true ∧ trims s out.1 ∨ ∃ s1, trims s s1 ∧ persist s1 = Ok out.1
  end.

Section Handlers.
Context `{GoUnicode} `{GoPrint} (persist : Service → result Service) (s : Service).

Lemma handled_refuse {A} early m : handled early persist s (refuse (A := A) m s).
Proof. done. Qed.

Lemma handled_withTx {A} early (body : result (A * Service)) :
  (∀ a s', body = Ok (a, s') → early = true ∧ trims s s' ∨ ∃ s1, trims s s1 ∧ persist s1 = Ok s') →
  handled early persist s (withTx s body).
Proof. intros Hb. unfold handled, withTx. destruct body as [[a s']|m]; [by eapply Hb|done]. Qed.

Lemma handled_map {A B} early (f : A → B) (out : Service * result A) :
  handled early persist s out → handled early persist s (out.1, (x ← out.2; mret (f x))).
Proof. unfold handled. by destruct out as [s' [a|m]]. Qed.
Lemma handled_early {A} persist' (out : Service * result A) : handled false persist' s out → handled true persist' s out.
Proof. unfold handled. destruct out.2; [intros [[? _]|?]; [done|by right]|done]. Qed.

Lemma handled_message e now : handled false persist s (HandleRoomMessageTx e now persist s).
Proof.
  unfold HandleRoomMessageTx. cbv zeta. apply handled_withTx. intros [] s'.
  intros (_ & (s1 & Hs1 & (s2 & Hs2 & [= <-])%result_bind_Ok)%result_bind_Ok)%guard_bind_Ok. right. exists s1. split; [|done].
  destruct (String.eqb _ _); [|by injection Hs1 as <-]. apply guard_bind_Ok in Hs1 as (_ & [= <-]). unfold add_room_member.
  destruct (_ !! _); [done|]. by apply trims_store.
Qed.

(** ** Membership and moderation *)

Lemma admit_key_store pol e now s0 s' : admit_key pol e now s0 = Ok s' → s_store s' = s_store s0.
Proof.
  unfold admit_key. cbv zeta. destruct (String.eqb (join_claim e) "").
  - by intros (_ & (a & _ & [= <-])%result_bind_Ok)%guard_bind_Ok.
  - intros (i & Hi & (a & _ & (s1 & Hs1 & [= <-])%result_bind_Ok)%result_bind_Ok)%result_bind_Ok.
    unfold use_invite in Hs1. by apply guard_bind_Ok in Hs1 as (_ & [= <-]).
Qed.

Lemma membership_tx_store pol e now s0 out go_on early :
  membership_tx pol e now s0 = Ok (out, go_on, early) → s_store early = s_store s0 ∧ s_store (default s0 go_on) = s_store s0.
Proof.
  unfold membership_tx. cbv zeta. destruct (is_leave (Kind e)).
  - intros (_ & E)%guard_bind_Ok. destruct (negb _); [destruct (Kind e =? KIND_NIP43_LEAVE); [|done]|]; by injection E as <- <- <-.
  - destruct (member_of s0 (PubKey e)); [by intros [= <- <- <-]|]. destruct (IsAccessRequest e).
    + intros ([b s1] & Hr & [= <- <- <-])%result_bind_Ok. split; [|done]. unfold recordJoinRequestTx in Hr.
      by apply guard_bind_Ok in Hr as (_ & [= _ <-]).
    + intros (s1 & Hs1 & [= <- <- <-])%result_bind_Ok. split; [done|]. by eapply admit_key_store.
Qed.

Lemma handled_membership pol e now : handled true persist s (HandleMembershipEventTx pol e now persist s).
Proof.
  unfold HandleMembershipEventTx. destruct (negb _); [done|]. apply handled_withTx.
  intros out s' ([[out1 go_on] early] & Hm & Hk)%result_bind_Ok. apply membership_tx_store in Hm as (He & Hg).
  destruct go_on as [s1|]; [|injection Hk as _ <-; left; split; [done|by apply trims_store]].
  apply result_bind_Ok in Hk as (s2 & Hs2 & [= _ <-]). assert (trims s (EnqueueProjectionTx e now s1)) as Ht by (by apply trims_enqueue, trims_store).
  destruct (MR_Stored out1); [right; by eexists|]. injection Hs2 as <-. by left.
Qed.

Lemma moderation_tx_trims pol random role e now s' : moderation_tx pol random role e now s = Ok s' → trims s s'.
Proof.
  unfold moderation_tx. cbv zeta. destruct (_ || _).
  - intros (_ & (_ & (_ & E)%guard_bind_Ok)%guard_bind_Ok)%guard_bind_Ok.
    destruct (Kind e =? KIND_REMOVE_USER); [injection E as <-; by apply trims_store|].
    apply guard_bind_Ok in E as (_ & [= <-]). by apply trims_store.
  - destruct (Kind e =? KIND_DELETE_EVENT); [intros (_ & [= <-])%guard_bind_Ok; by apply trims_delete_rows|].
    intros (u & _ & (_ & E)%guard_bind_Ok)%result_bind_Ok. unfold insert_invite in E. destruct (_ !! _); [done|].
    injection E as <-. by apply trims_store.
Qed.

Lemma handled_moderation pol random e now : handled false persist s (HandleModerationEventTx pol random e now persist s).
Proof.
  unfold HandleModerationEventTx. destruct (negb _); [done|]. cbv zeta. destruct (_ && _); [done|]. apply handled_withTx.
  intros out s' (s1 & Hs1 & (s2 & Hs2 & [= _ <-])%result_bind_Ok)%result_bind_Ok. right. eexists. split; [|exact Hs2].
  apply trims_enqueue. by eapply moderation_tx_trims.
Qed.

(** ** Room events *)

Lemma delete_room_messages_trims admin pk room ids s0 s' : delete_room_messages admin pk room ids s0 = Ok s' → trims s0 s'.
Proof.
  revert s0. induction ids as [|id ids IH]; simpl; intros s0 E; [by injection E as <-|].
  destruct (room_message_author _ _ _); [|by apply IH]. apply guard_bind_Ok in E as (_ & E).
  etransitivity; [|by apply IH]. by apply trims_delete_rows.
Qed.

Lemma room_event_body_trims e room role now s' : room_event_body e room role now s = Ok (inr s') → trims s s'.
Proof.
  unfold room_event_body. cbv zeta.
  destruct (_ =? KIND_EDIT_METADATA); [intros (_ & [= <-])%guard_bind_Ok; by apply trims_enqueue, trims_store|].
  destruct (_ =? KIND_PUT_USER).
  { intros (_ & E)%guard_bind_Ok. destruct (roomTarget e) as [target wanted].
    apply guard_bind_Ok in E as (_ & (_ & (_ & [= <-])%guard_bind_Ok)%guard_bind_Ok). by apply trims_store. }
  destruct (_ =? KIND_REMOVE_USER).
  { intros (_ & E)%guard_bind_Ok. destruct (roomTarget e) as [target wanted].
    apply guard_bind_Ok in E as (_ & E). destruct (String.eqb _ ""); [done|].
    apply result_bind_Ok in E as (u & _ & [= <-]). by apply trims_store. }
  destruct (_ =? KIND_JOIN).
  { destruct (negb _); [done|]. intros (_ & (s1 & Hi & [= <-])%result_bind_Ok)%guard_bind_Ok.
    apply insert_room_member_Ok in Hi as (_ & ->). by apply trims_store. }
  destruct (_ =? KIND_LEAVE).
  { intros (_ & (u & _ & [= <-])%result_bind_Ok)%guard_bind_Ok. by apply trims_store. }
  destruct (_ =? KIND_DELETE_EVENT).
  { intros (_ & (s1 & Hs1 & [= <-])%result_bind_Ok)%guard_bind_Ok. by eapply delete_room_messages_trims. }
  destruct (_ =? KIND_DELETE_GROUP); [|by intros [= <-]].
  intros (_ & [= <-])%guard_bind_Ok. apply trims_enqueue. etransitivity; [|by apply svc_trims_delete]. by apply trims_store.
Qed.

Lemma handled_room pol e now : handled true persist s (HandleRoomEventTx pol e now persist s).
Proof.
  unfold HandleRoomEventTx. cbv zeta. do 6 (case_match; [done|]). apply handled_withTx. intros out s'.
  destruct (Kind e =? KIND_CREATE_GROUP).
  - intros (s1 & Hs1 & (s2 & Hs2 & [= _ <-])%result_bind_Ok)%result_bind_Ok. right. exists s1. split; [|done].
    apply guard_bind_Ok in Hs1 as (_ & (_ & (_ & [= <-])%guard_bind_Ok)%guard_bind_Ok). by apply trims_store.
  - intros (_ & ([m|s1] & Hb & Hk)%result_bind_Ok)%guard_bind_Ok; [injection Hk as _ <-; by left|].
    apply result_bind_Ok in Hk as (s2 & Hs2 & [= _ <-]). right. eexists. split; [|exact Hs2].
    apply trims_record. by eapply room_event_body_trims.
Qed.
End Handlers.

(** ** The save and its hooks *)

(** A hook of the transaction leaves the stored events alone. *)
Definition calm (hook : Service → result Service) : Prop :=
  ∀ s s', hook s = Ok s' → events (s_store s') = events (s_store s) ∧ ∀ w, w ∈ intents (s_store s) → w ∈ intents (s_store s').

Lemma calm_ret : calm (λ s, mret s).
Proof. by intros s s' [= <-]. Qed.
Lemma calm_seq h h' : calm h → calm h' → calm (λ s, s' ← h s; h' s').
Proof.
  intros Hh Hh' s s' (s1 & H1 & H2)%result_bind_Ok. destruct (Hh _ _ H1) as [E1 I1], (Hh' _ _ H2) as [E2 I2]. split; [congruence|auto].
Qed.
Lemma calm_store f : (∀ db, events (f db) = events db ∧ intents (f db) = intents db) → calm (λ s, mret (on_store f s)).
Proof. intros Hf s s' [= <-]. cbn. destruct (Hf (s_store s)) as [-> ->]. done. Qed.

Definition calm_plan (pl : EventPlan) : Prop := calm (P_BeforeCommit pl).
Lemma calm_add_intents l pl : calm_plan pl → calm_plan (add_intents l pl).
Proof. done. Qed.
Lemma calm_add_hook h pl : calm h → calm_plan pl → calm_plan (add_hook h pl).
Proof. intros Hh Hp. by apply calm_seq. Qed.
Lemma calm_when b f pl : (∀ pl, calm_plan pl → calm_plan (f pl)) → calm_plan pl → calm_plan (when b f pl).
Proof. unfold when. destruct b; auto. Qed.

Section Plans.
Context `{NostrCrypto} `{GoUnicode} `{GoFTS} `{GoURLs} `{NostrKeys} `{GoJson} `{GoJsonDecoder} `{Regexp2} `{GoPrint} `{TenantParts}.

Lemma calm_agent e now : calm (agent_hook e now).
Proof. by intros s s' (db & _ & [= <-])%result_bind_Ok. Qed.

Lemma calm_site p e now : calm_plan (site_options p e now).
Proof.
  unfold site_options. destruct (indexed_manifest e); [|apply calm_ret]. apply calm_when; [intros; by apply calm_add_intents|].
  apply calm_add_hook; [|apply calm_ret]. by intros s s' (_ & [= <-])%guard_bind_Ok.
Qed.

Lemma calm_projection t e now : calm (HandleProjectionEventTx e now (projection_effect t e)).
Proof.
  intros s s' (_ & (s1 & Hs1 & [= <-])%result_bind_Ok)%guard_bind_Ok.
  assert (events (s_store s1) = events (s_store s) ∧ intents (s_store s1) = intents (s_store s)) as [E I].
  { unfold projection_effect in Hs1. destruct (Kind e =? KIND_EDIT_METADATA); [by injection Hs1 as <-|].
    by apply result_bind_Ok in Hs1 as (l & _ & [= <-]). }
  split; [exact E|]. eapply (trims_enqueue _ _ _ now s s1). split; by rewrite ?E, ?I.
Qed.

Lemma calm_prepareStored t client e now pl : prepareStoredEvent t client e now = Ok pl → calm_plan pl.
Proof.
  intros (pl1 & Hp & E)%result_bind_Ok. assert (calm_plan pl1) as Hc; [|by destruct (followup_plan _ _ _ _); injection E as <-].
  unfold prepare in Hp. cbv zeta in Hp. revert Hp.
  match goal with |- context [when (Kind e =? 30023) ?f ?pl] => assert (calm_plan pl) as Hs by apply (calm_site (t_policy t) e now); revert Hs; generalize pl end.
  intros pl0 Hs.
  match goal with |- context [if _ then prepareRepository _ _ _ ?pl else _] => assert (calm_plan pl) as Ha; [|revert Ha; generalize pl] end.
  { apply calm_when; [intros; apply calm_add_hook; [apply calm_agent|done]|]. by do 2 (apply calm_when; [done|]). }
  intros pl2 Ha. destruct (_ && _); [|by intros [= <-]]. unfold prepareRepository. intros ([target raw] & _ & [= <-])%result_bind_Ok.
  apply calm_when; [|done]. intros. apply calm_add_hook; [by apply calm_store|done].
Qed.

Lemma calm_prepareClient t e s now pl : prepareClientEvent t e s now = Ok pl → calm_plan pl.
Proof.
  intros (pl1 & Hp%calm_prepareStored & (_ & E)%guard_bind_Ok)%result_bind_Ok. cbv zeta in E. revert E.
  match goal with |- context [if Kind e =? KIND_MARMOT_GROUP then _ else mret ?pl] => assert (calm_plan pl) as Ha; [|revert Ha; generalize pl] end.
  { apply calm_add_intents, calm_when; [|done]. intros. apply calm_add_hook; [apply calm_projection|done]. }
  intros pl2 Ha. destruct (Kind e =? KIND_MARMOT_GROUP); [|by intros [= <-]]. intros (pr & _ & [= <-])%result_bind_Ok.
  apply calm_add_hook; [by apply calm_store|done].
Qed.
End Plans.

(** ** A save inside a transaction *)

(** The queue holds the work, under its identifier or under its key. *)
Definition planned (l : list WorkRow) (i : Intent) : Prop :=
  ∃ w, w ∈ l ∧ (w_id w = IntentID (i_kind i) (i_event i) (i_target i) ∨
                w_kind w = i_kind i ∧ w_event w = i_event i ∧ w_target w = i_target i).

(** The event is the last row, the other rows were there, the work is planned. *)
Definition saved (e : Event) (l : list Intent) (before after_ : DB) : Prop :=
  ∃ rest seq, events after_ = rest ++ [event_row seq e] ∧ rest `sublist_of` events before ∧
    ∀ i, i ∈ l → planned (intents after_) i.

Lemma SaveTx_saved db e opts db' res :
  IsEphemeral (Kind e) = false → BeforeCommit opts = None → SaveTx db e opts = Ok (db', res) → saved e (Intents opts) db db'.
Proof.
  intros Hk Hb Hs. pose proof (Save_cases db e opts Hk Hb) as Hc. unfold Save, WithTx in Hc. rewrite Hs in Hc.
  destruct (save_refusal db e) as [u|m]; [|discriminate Hc]. destruct Hc as (db1 & rest & seq & [= <- _] & He & Hsub & _).
  exists rest, seq. split_and!; [done|done|]. intros i Hi.
  destruct (SaveTx_Ok _ _ _ _ _ Hs Hk) as (d1 & d2 & _ & _ & _ & Ho). rewrite Hb in Ho. injection Ho as <-. cbn.
  destruct (insert_or_ignore_has same_work (intent_row (Now opts) <$> Intents opts) (intents d2) (intent_row (Now opts) i)) as (w & Hw & Es);
    [by unfold same_work; rewrite String.eqb_refl|by apply list_elem_of_fmap_2|].
  exists w. split; [done|]. unfold same_work in Es. rewrite orb_true_iff, !andb_true_iff, !String.eqb_eq in Es. naive_solver.
Qed.

Lemma persist_saved pl e s s' :
  calm_plan pl → IsEphemeral (Kind e) = false → persist pl e s = Ok s' → saved e (P_Intents pl) (s_store s) (s_store s').
Proof.
  intros Hc Hk Hp. unfold persist in Hp. rewrite Hk in Hp. apply result_bind_Ok in Hp as ([db res] & Hs & Hh).
  apply SaveTx_saved in Hs as (rest & seq & He & Hsub & Hi); [|done|done]. destruct (Hc _ _ Hh) as [E I].
  exists rest, seq. rewrite E. split_and!; [done|done|]. intros i Hx. apply Hi in Hx.
  destruct Hx as (w & Hw & Hid). exists w. auto.
Qed.

Lemma persist_grows pl e s s' : calm_plan pl → persist pl e s = Ok s' →
  ∀ r, r ∈ events (s_store s') → r ∈ events (s_store s) ∨ r_kind r = Kind e ∧ r_raw r = e.
Proof.
  intros Hc Hp r Hr. destruct (IsEphemeral (Kind e)) eqn:Hk.
  { unfold persist in Hp. rewrite Hk in Hp. injection Hp as <-. by left. }
  destruct (persist_saved _ _ _ _ Hc Hk Hp) as (rest & seq & E & Hsub & _). rewrite E in Hr.
  apply elem_of_app in Hr as [Hr|Hr%list_elem_of_singleton]; [left; by eapply elem_of_sublist|right; by subst].
Qed.

Lemma edited_profile p e : ∃ name description icon, edited_policy p e = with_profile name description icon p.
Proof.
  unfold edited_policy. generalize (etags e). intros tags.
  assert (∃ a b c, p = with_profile a b c p) as Hp by (exists (Policy.P_Name p), (P_Description p), (P_Icon p); by destruct p).
  assert (∀ q, (∃ a b c, q = with_profile a b c p) → ∃ a b c, fold_left edited_tag tags q = with_profile a b c p) as Hi; [|by apply Hi].
  induction tags as [|tag tags IH]; intros q Hq; [done|]. cbn [fold_left]. apply IH. destruct Hq as (a & b & c & ->).
  unfold edited_tag. destruct tag as [|n [|v more]]; eauto. repeat case_match; eexists _, _, _; reflexivity.
Qed.

Section Publication.
Context `{NostrCrypto} `{GoUnicode} `{GoFTS} `{GoURLs} `{NostrKeys} `{GoJson} `{GoJsonDecoder} `{Regexp2} `{GoPrint} `{TenantParts}.

(** Kinds whose handler may succeed without saving. *)
Definition may_return_early (t : Tenant) (e : Event) : bool :=
  negb (String.eqb (roomScope (t_name t) e) "") && RoomAdminKind (Kind e) || is_join (Kind e) || is_leave (Kind e).

Lemma handled_persistClient random t e now pl :
  handled (may_return_early t e) (persist pl e) (t_service t) (persistClientEvent random t e now pl).
Proof.
  unfold persistClientEvent, may_return_early. cbv zeta.
  destruct (negb (String.eqb (roomScope (t_name t) e) "") && RoomAdminKind (Kind e)).
  { pose proof (handled_room (persist pl e) (t_service t) (t_policy t) e now) as Hh. destruct (HandleRoomEventTx _ _ _ _ _) as [s' [a|m]]; exact Hh. }
  destruct (_ && negb (IsEphemeral (Kind e))).
  { pose proof (handled_message (persist pl e) (t_service t) e now) as Hh. destruct (HandleRoomMessageTx _ _ _ _) as [s' [a|m]]; [|done].
    destruct Hh as [[? _]|?]; [done|by right]. }
  destruct (is_join (Kind e) || is_leave (Kind e)) eqn:Ej.
  { pose proof (handled_membership (persist pl e) (t_service t) (t_policy t) e now) as Hh.
    destruct (HandleMembershipEventTx _ _ _ _ _) as [s' [a|m]]; [|done]. destruct Hh as [[_ ?]|?]; [left|by right].
    split; [by rewrite <-orb_assoc, Ej|done]. }
  destruct (moderation_kind (Kind e)).
  { pose proof (handled_moderation (persist pl e) (t_service t) (t_policy t) random e now) as Hh.
    destruct (HandleModerationEventTx _ _ _ _ _ _) as [s' [a|m]]; [|done]. destruct Hh as [[? _]|?]; [done|by right]. }
  apply handled_withTx. intros a s' (s1 & Hp & [= _ <-])%result_bind_Ok. right. by exists (t_service t).
Qed.

Lemma with_own_service t : with_service (t_service t) t = t.
Proof. by destruct t. Qed.

(** The store and the policy after the publication has been finished. *)
Lemma finish_store e now pl reason calls before t :
  (finish_publication e now pl reason calls before t).1.2 ≠ [] ∧
  events (t_store (finish_publication e now pl reason calls before t).1.1) = events (t_store t) ∧
  intents (t_store (finish_publication e now pl reason calls before t).1.1) = intents (t_store t) ∧
  (t_policy (finish_publication e now pl reason calls before t).1.1 = t_policy t ∨
   edits_policy t e = true ∧ t_policy (finish_publication e now pl reason calls before t).1.1 = edited_policy before e).
Proof.
  unfold finish_publication. cbv zeta. split; [destruct (if P_GitMetadata pl then _ else _); by destruct calls|].
  destruct (if P_GitMetadata pl then _ else _) as [u|m]; [|by repeat split; left]. cbn [fst snd].
  set (t1 := if edits_policy t e then with_policy (edited_policy before e) t else t).
  assert (t_store t1 = t_store t) as Es by (unfold t1; by destruct (edits_policy t e)).
  assert (t_policy t1 = t_policy t ∨ edits_policy t e = true ∧ t_policy t1 = edited_policy before e) as Ep
    by (unfold t1; destruct (edits_policy t e); auto).
  assert (t_store (quietly (NotePresence (PubKey e) now t1)) = t_store t1 ∧ t_policy (quietly (NotePresence (PubKey e) now t1)) = t_policy t1) as [E1 E2]
    by (unfold NotePresence; by destruct (String.eqb (PubKey e) "")).
  revert E1 E2. generalize (quietly (NotePresence (PubKey e) now t1)). intros t2 E1 E2. rewrite <-Es, <-E1. rewrite <-E2 in Ep.
  destruct (String.eqb (PubKey e) (Owner (t_policy t2))); [|done]. unfold Heartbeat. by destruct (_ || _).
Qed.

Lemma with_limiter_self l t : with_limiter l t = with_limiter (t_limiter (with_limiter l t)) t.
Proof. done. Qed.
Lemma with_own_limiter t : t = with_limiter (t_limiter t) t.
Proof. by destruct t. Qed.

(** The ways a publication ends. *)
Lemma publish_event_cases random e s now t :
  let out := publish_event random e s now t in
  (∃ m, out = refused t m) ∨ out = (t, [], Ok ErrDuplicate) ∨
  ∃ pl sv reason calls, prepareClientEvent t e s now = Ok pl ∧
    (may_return_early t e = true ∧ trims (t_service t) sv ∨ ∃ s1, trims (t_service t) s1 ∧ persist pl e s1 = Ok sv) ∧
    out = finish_publication e now pl reason calls (t_policy t) (committed e now sv t).
Proof.
  cbv zeta. unfold publish_event. destruct (prepareClientEvent t e s now) as [pl|m] eqn:Epl; [|left; by eexists].
  pose proof (handled_persistClient random t e now pl) as Hh. unfold handled in Hh.
  destruct (persistClientEvent random t e now pl) as [sv [[reason calls]|m]]; cbn [fst snd] in Hh.
  - right; right. by exists pl, sv, reason, calls.
  - subst sv. rewrite with_own_service. destruct (String.eqb m ErrDuplicate); [right; by left|left; by eexists].
Qed.

Lemma Publish_cases hosts random e s now t :
  let out := Publish hosts random e s now t in
  let t1 := with_limiter (Write (gate_of t) (t_limiter t) e s now).1 t in
  (∃ m, out = refused t m ∨ out = refused t1 m) ∨
  validateStoredEvent t1 e = Ok tt ∧ (Write (gate_of t) (t_limiter t) e s now).2 = Ok tt ∧
  out = (if Kind e =? KIND_VANISH then acted (let '(t, r) := vanish e t1 in (t, (r;; mret "")))
         else if Kind e =? KIND_REPORT then acted (publishReport e now t1) else publish_event random e s now t1).
Proof.
  cbv zeta. unfold Publish. destruct (admission t); [|left; eexists; by left].
  destruct (Write _ _ _ _ _) as [l [[]|m]]; cbn [fst snd]; [|left; eexists; by right].
  destruct (_;; _) as [[]|m] eqn:Ev; [|left; eexists; by right].
  right. apply result_bind_Ok in Ev as ([] & Hs & Ev). apply result_bind_Ok in Ev as ([] & Hv & _). done.
Qed.

Lemma vanish_Err e t m : (vanish e t).2 = Err m → (vanish e t).1 = t.
Proof. unfold vanish. by destruct (existsb _ _). Qed.
Lemma publishReport_Err e now t m : (publishReport e now t).2 = Err m → (publishReport e now t).1 = t.
Proof.
  unfold publishReport. destruct (report_target (etags e)) as [[target ty] rep]. destruct (String.eqb target ""); [done|].
  unfold SubmitReportTarget, withTx. destruct (_ ≫= _) as [[[] sv]|m']; [done|]. intros _. apply with_own_service.
Qed.

(** C10: a publication that is refused writes nothing but the agent's rate: the
    tables, the policy and the queue are as they were, unless the event was
    committed and only the staging of its Git metadata failed afterwards; and
    a duplicate is acknowledged without any change. *)
Theorem refused_publication_writes_nothing hosts random e s now t t' calls r :
  Publish hosts random e s now t = (t', calls, r) →
  match r with
  | Err m => t' = with_limiter (t_limiter t') t ∨ calls ≠ [] ∧ git_stage e (t_store t') = Err m
  | Ok m => calls = [] → Kind e ≠ KIND_VANISH → Kind e ≠ KIND_REPORT → m = ErrDuplicate ∧ t' = with_limiter (t_limiter t') t
  end.
Proof.
  intros HP. pose proof (Publish_cases hosts random e s now t) as Hc. cbv zeta in Hc. rewrite HP in Hc.
  set (t1 := with_limiter _ t) in Hc. assert (t1 = with_limiter (t_limiter t1) t) as Et1 by done. clearbody t1.
  destruct Hc as [(m & [Hm|Hm])|(_ & _ & Ho)]; [injection Hm as -> -> ->; left; apply with_own_limiter|by injection Hm as -> -> ->; left|].
  destruct (Z.eqb_spec (Kind e) KIND_VANISH) as [Ev|Ev].
  { pose proof (vanish_Err e t1) as Hv. destruct (vanish e t1) as [t2 r2]. cbn in Ho, Hv. injection Ho as -> -> ->.
    destruct r2 as [u|m]; [done|]. left. by rewrite (Hv m eq_refl). }
  destruct (Z.eqb_spec (Kind e) KIND_REPORT) as [Er|Er].
  { pose proof (publishReport_Err e now t1) as Hv. destruct (publishReport e now t1) as [t2 r2]. cbn in Ho, Hv. injection Ho as -> -> ->.
    destruct r2 as [u|m]; [done|]. left. by rewrite (Hv m eq_refl). }
  destruct (publish_event_cases random e s now t1) as [(m & Hm)|[Hm|(pl & sv & reason & calls' & _ & _ & Hm)]]; rewrite Hm in Ho.
  - injection Ho as -> -> ->. by left.
  - by injection Ho as -> -> ->.
  - pose proof (finish_store e now pl reason calls' (t_policy t1) (committed e now sv t1)) as (Hne & _). rewrite <-Ho in Hne. cbn in Hne.
    destruct r as [m|m]; [done|]. right. split; [done|]. unfold finish_publication in Ho. cbv zeta in Ho.
    destruct (P_GitMetadata pl); [|done]. destruct (git_stage _ _) eqn:Eg; [done|]. by injection Ho as -> _ ->.
Qed.

Lemma saved_trims e l (s s1 s2 : Service) : trims s s1 → saved e l (s_store s1) (s_store s2) → saved e l (s_store s) (s_store s2).
Proof. intros [Ht _] (rest & seq & E & Hs & Hi). exists rest, seq. split_and!; [done|by etransitivity|done]. Qed.

Lemma committed_service e now sv t : t_service (committed e now sv t) = sv.
Proof. unfold committed. cbv zeta. repeat case_match; done. Qed.
Lemma committed_policy e now sv t : t_policy (committed e now sv t) = t_policy t.
Proof. unfold committed. cbv zeta. repeat case_match; done. Qed.

(** C9: a publication of an event that is not of an ephemeral kind and that
    reaches the follow-ups has stored its event, as the newest row, and planned
    all of its work, in one transaction: whatever is answered, nothing that is
    delivered is missing from the store and nothing stored is missing from the
    queue. Two classes are excepted: ephemeral events, which reach the follow-ups
    and delivery without ever being stored, and events that join or leave, or
    administer a room, which may be settled without a row. *)
Theorem accepted_event_is_stored hosts random e s now t t' calls r :
  Publish hosts random e s now t = (t', calls, r) → calls ≠ [] → IsEphemeral (Kind e) = false → may_return_early t e = false →
  ∃ pl, prepareClientEvent t e s now = Ok pl ∧ saved e (P_Intents pl) (t_store t) (t_store t').
Proof.
  intros HP Hne Hk Hm. pose proof (Publish_cases hosts random e s now t) as Hc. cbv zeta in Hc. rewrite HP in Hc.
  set (l1 := (Write _ _ _ _ _).1) in Hc. clearbody l1.
  destruct Hc as [(m & [Er|Er])|(_ & _ & Ho)]; [by injection Er as -> -> ->|by injection Er as -> -> ->|].
  destruct (Kind e =? KIND_VANISH); [by injection Ho as -> -> ->|]. destruct (Kind e =? KIND_REPORT); [by injection Ho as -> -> ->|].
  destruct (publish_event_cases random e s now (with_limiter l1 t)) as [(m & Er)|[Er|(pl & sv & reason & calls' & Hpl & Hs & Er)]];
    rewrite Er in Ho; [by injection Ho as -> -> ->|by injection Ho as -> -> ->|]. clear Er.
  change (may_return_early (with_limiter l1 t) e) with (may_return_early t e) in Hs. rewrite Hm in Hs.
  destruct Hs as [[? _]|(s1 & Ht & Hp)]; [done|]. exists pl. split; [exact Hpl|].
  apply persist_saved in Hp; [|by eapply calm_prepareClient|done]. apply (saved_trims _ _ _ _ _ Ht) in Hp.
  pose proof (finish_store e now pl reason calls' (t_policy (with_limiter l1 t)) (committed e now sv (with_limiter l1 t))) as (_ & E & I & _).
  rewrite <-Ho in E, I. cbn [fst snd] in E, I. unfold t_store in E at 2, I at 2. rewrite committed_service in E, I.
  destruct Hp as (rest & seq & He & Hsub & Hi). exists rest, seq. rewrite E, I. done.
Qed.

(** What a publication may do to the policy. *)
Definition policy_after (t : Tenant) (e : Event) (p : Policy) : Prop :=
  p = t_policy t ∨ edits_policy t e = true ∧ p = edited_policy (t_policy t) e.

(** A publication that runs through: the handlers trim, the save adds the
    event, the policy follows an edit. *)
Lemma publish_event_effects random e s now t :
  let t' := (publish_event random e s now t).1.1 in
  t' = t ∨ ∃ pl s1, prepareClientEvent t e s now = Ok pl ∧ trims (t_service t) s1 ∧ policy_after t e (t_policy t') ∧
    ∀ r, r ∈ events (t_store t') → r ∈ events (s_store s1) ∨ r_kind r = Kind e ∧ r_raw r = e.
Proof.
  cbv zeta. destruct (publish_event_cases random e s now t) as [(m & ->)|[->|(pl & sv & reason & calls & Hpl & Hs & ->)]]; [by left|by left|].
  right. pose proof (finish_store e now pl reason calls (t_policy t) (committed e now sv t)) as (_ & E & _ & Hpol).
  exists pl. unfold t_store in E at 2. rewrite committed_service in E. rewrite E. rewrite committed_policy in Hpol.
  assert (edits_policy (committed e now sv t) e = edits_policy t e) as Ee
    by (unfold edits_policy, committed; cbv zeta; repeat (case_match; try done)).
  rewrite Ee in Hpol. destruct Hs as [(_ & Ht)|(s1 & Ht & Hp)].
  - exists sv. split_and!; [done|done|exact Hpol|by left].
  - exists s1. split_and!; [done|done|exact Hpol|]. eapply persist_grows; [by eapply calm_prepareClient|exact Hp].
Qed.

(** The publication of an event that only acts. *)
Lemma acted_policy e t :
  (vanish e t).1 = t ∨ (vanish e t).1 = with_service (on_store (λ db, Vanish db (PubKey e) (CreatedAt e)) (t_service t)) t.
Proof. unfold vanish. destruct (existsb _ _); auto. Qed.

Lemma publishReport_cases e now t :
  (publishReport e now t).1 = t ∨
  ∃ target ty rep, (publishReport e now t).1 =
    with_service (SubmitReportTarget (PubKey e) target ty rep (Content e) (ReportThreshold (t_policy t)) now (t_service t)).1 t.
Proof.
  unfold publishReport. destruct (report_target (etags e)) as [[target ty] rep]. destruct (String.eqb target ""); [by left|].
  right. exists target, ty, rep. by destruct (SubmitReportTarget _ _ _ _ _ _ _ _).
Qed.

(** Everything a publication may do to a tenant. *)
Lemma Publish_effects hosts random e s now t :
  let t' := (Publish hosts random e s now t).1.1 in
  let t1 := with_limiter (Write (gate_of t) (t_limiter t) e s now).1 t in
  t' = t ∨ t' = t1 ∨ validateStoredEvent t1 e = Ok tt ∧ (t' = (vanish e t1).1 ∨ t' = (publishReport e now t1).1 ∨ t' = (publish_event random e s now t1).1.1).
Proof.
  cbv zeta. pose proof (Publish_cases hosts random e s now t) as Hc. cbv zeta in Hc. revert Hc.
  generalize (Publish hosts random e s now t). set (t1 := with_limiter _ t). intros out Hc.
  destruct Hc as [(m & [-> | ->])|(Hv & _ & ->)]; [by left|by right; left|]. right; right. split; [done|].
  destruct (Kind e =? KIND_VANISH); [left; by destruct (vanish e t1)|]. destruct (Kind e =? KIND_REPORT); auto.
Qed.

(** A publication changes no more of the policy than the name, description
    and icon, and that for a group admin's edit of the tenant's group only. *)
Theorem publication_edits_the_profile_only hosts random e s now t t' calls r :
  Publish hosts random e s now t = (t', calls, r) →
  t_policy t' = t_policy t ∨
  (∃ name description icon, t_policy t' = with_profile name description icon (t_policy t)) ∧
  edits_policy t e = true ∧ (Role (t_service t) (PubKey e) = "owner" ∨ Role (t_service t) (PubKey e) = "moderator").
Proof.
  intros HP. pose proof (Publish_effects hosts random e s now t) as Hc. cbv zeta in Hc. rewrite HP in Hc. cbn [fst] in Hc.
  set (t1 := with_limiter _ t) in Hc. destruct Hc as [->|[->|(_ & [->|[->| ->]])]]; [by left|by left|..].
  { destruct (acted_policy e t1) as [->| ->]; by left. }
  { destruct (publishReport_cases e now t1) as [->|(? & ? & ? & ->)]; by left. }
  destruct (publish_event_effects random e s now t1) as [->|(pl & s1 & Hpl & _ & Hpol & _)]; [by left|].
  destruct Hpol as [->|[Hed ->]]; [by left|right]. apply result_bind_Ok in Hpl as (pl1 & _ & (Hg & _)%guard_bind_Ok).
  rewrite Hed in Hg. cbn in Hg.
  split_and!; [apply edited_profile|exact Hed|].
  apply andb_false_iff in Hg as [Hg|Hg]; apply negb_false_iff, String.eqb_eq in Hg; auto.
Qed.
End Publication.
