(* ===== verification/TenantPrivate.v ===== *)
(** * internal/daemon: a private relay stays private

    A tenant that holds a private repository serves members only.  The
    invariant is kept by every operation that stores an event, changes the
    policy or runs a management method, from the moment the tenant opens. *)

From S2P Require Import Prelude GoLib GoCodec GoLemmas GoStrings Nostr NostrProps Filter SyncProtocol Store.
From S2P Require Import StoreQuery StoreAdmin StoreInv StoreProps StoreSave StoreMaint WorkProps Maintenance Policy Sites Roster Agents Community Membership Rooms.
From S2P Require Import GrantRequests CommunityExec CommunityProps Auth Replication ReplicationProps Gates GatesProps Tenant TenantWrite TenantProps TenantWriteProps.
From S2P Require Import SitesProps AgentsProps GrantRequestsProps ConfigProps.

(** ** Markers *)

Section Marker.
Context `{GoUnicode}.


End Marker.

(** ** No management method adds an event *)

#[local] Hint Resolve trims_tables trims_record svc_trims_delete trims_store trims_delete_rows : tiny.

Lemma trims_refl s : trims s s.
Proof. reflexivity. Qed.
#[local] Hint Resolve trims_refl : tiny.

Section Methods.
Context `{GoUnicode} `{GoPrint}.








End Methods.

(** ** Steps of a tenant *)

Section Steps.
Context `{NostrCrypto} `{GoUnicode} `{GoFTS} `{GoURLs} `{NostrKeys} `{GoJson} `{GoJsonDecoder} `{Regexp2} `{GoPrint} `{TenantParts}.
























End Steps.

(** * The tenant on concrete inputs

    A relay over three stored events: what it answers, what a publication
    stores, what a refusal leaves, and a private relay with its repository. *)

#[local] Instance tenant_crypto : NostrCrypto := toy_crypto.
#[local] Instance tenant_unicode : GoUnicode := ascii_unicode.
#[local] Instance tenant_fts : GoFTS := {| fts_match q s := Contains s q |}.
#[local] Instance tenant_print : GoPrint := {| is_print _ := true |}.
#[local] Instance tenant_urls : GoURLs := {| parse_url raw := None; path_unescape s := Some s; url_at_path _ _ _ := "" |}.
#[local] Instance tenant_keys : NostrKeys := toy_keys.
#[local] Instance tenant_json : GoJson := {| json_parse _ := None |}.
#[local] Instance tenant_decoder : GoJsonDecoder := {| json_value _ := None |}.
#[local] Instance tenant_regexp : Regexp2 := {| re2_match p s := Contains s p |}.
(** tinygit refuses no announcement and stages none twice; nothing follows. *)
#[local] Instance tenant_parts : TenantParts :=
  {| git_validate client db e := Ok ("address", "{}");
     git_stage e db := if String.eqb (Content e) "broken" then Err "git: cannot stage" else Ok tt;
     followup_plan _ _ _ _ := None; artifact_visible _ _ _ := true; policy_text p := Reads p; is_ip _ := true |}.

Definition no_tenant : Tenant := mkTenant "" "" "" (service_of empty_roster) (Defaults "") ∅ ∅ [] ∅ new_gate.
Definition opened (store : DB) (p : Policy) : Tenant :=
  match newTenant "main" "https://relay.example" sample_secret no_community store p ∅ [] ∅ 1000 with Ok t => t | Err _ => no_tenant end.
Definition open_tenant : Tenant := opened peer_db (Defaults operator_pk).

Lemma WF_open_tenant : WF (t_store open_tenant).
Proof. replace (t_store open_tenant) with peer_db by vm_eq. apply WF_peer_db. Qed.

Definition visitor : Session := mkSession [] "wss://relay.example" "10.0.0.1".
Definition notes (limit : option Z) : Filter := mkFilter None None (Some [1]) ∅ None None limit "".
Definition lists : Filter := mkFilter None None (Some [10002]) ∅ None None None "".
Definition no_random (_ : nat) : list Z := [].
Definition ids_of (r : Tenant * result (list Event)) : list string := match r.2 with Ok l => ID <$> l | Err _ => [] end.

Example query_answer :
  ids_of (Tenant.Query no_random [lists; notes (Some 1); notes None] visitor 2000 open_tenant) = [ID second_note; ID author_relays; ID public_note].
Proof. vm_compute. reflexivity. Qed.

(** ** Reads *)

Definition asked_filters : list Filter := [lists; notes (Some 1); notes None].
Definition page : list Event := [second_note; author_relays; public_note].
Lemma page_answer : Tenant.Query no_random asked_filters visitor 2000 open_tenant = (open_tenant, Ok page).
Proof. vm_eq. Qed.

Lemma Query_exact_witness :
  StronglySorted (ordered query_time_leb) page ∧
  ∃ f, f ∈ asked_filters ∧ public_note ∈ filter_rows open_tenant visitor 2000 f ∧ can_see open_tenant public_note visitor (Some f) = true.
Proof.
  destruct (Query_exact no_random asked_filters visitor 2000 open_tenant open_tenant page) as (_ & Hs & _ & Hq);
    [apply WF_open_tenant|by repeat constructor|apply page_answer|].
  split; [exact Hs|]. apply Hq. do 2 apply list_elem_of_further. apply list_elem_of_here.
Defined.

Lemma Count_exact_witness :
  (Tenant.Count no_random [notes (Some 1)] visitor 2000 open_tenant).2 = Ok (2, None) ∧
  2 = Z.of_nat (List.length (List.filter (counted open_tenant visitor 2000 [notes (Some 1)]) (events (t_store open_tenant)))).
Proof.
  assert (Tenant.Count no_random [notes (Some 1)] visitor 2000 open_tenant = (open_tenant, Ok (2, None))) as E by vm_eq.
  split; [by rewrite E|].
  apply (Count_exact no_random [notes (Some 1)] visitor 2000 open_tenant open_tenant 2 None); [apply WF_open_tenant|by repeat constructor|exact E].
Defined.

Definition note_keys : list Item := [mkItem (ID second_note) 200; mkItem (ID public_note) 100].
Lemma Sync_exact_witness :
  note_keys ≡ₚ (λ r, mkItem (r_id r) (r_created r)) <$> List.filter (counted open_tenant visitor 2000 [notes (Some 1)]) (events (t_store open_tenant)).
Proof.
  apply (Sync_exact no_random (notes (Some 1)) visitor 2000 open_tenant open_tenant note_keys); [apply WF_open_tenant|done|vm_eq].
Defined.

(** ** Publications *)

Definition note_by (kind : Z) (tags : list (list string)) (content : string) : Event := signed operator_secret 1900 kind tags content.
Definition owner_session : Session := mkSession [operator_pk] "wss://relay.example" "10.0.0.1".
Definition article : Event := Eval vm_compute in note_by 30023 [["d"; "hello"]] "text".
Definition published (e : Event) (t : Tenant) : Tenant := (TenantWrite.Publish [] [] e owner_session 2000 t).1.1.
Definition answered (e : Event) (t : Tenant) : list Followup * result string :=
  ((TenantWrite.Publish [] [] e owner_session 2000 t).1.2, (TenantWrite.Publish [] [] e owner_session 2000 t).2).

Lemma publish_split e t fs r : answered e t = (fs, r) → TenantWrite.Publish [] [] e owner_session 2000 t = (published e t, fs, r).
Proof. unfold answered, published. destruct (TenantWrite.Publish [] [] e owner_session 2000 t) as [[t' fs'] r']. intros E. by injection E as <- <-. Qed.

Example article_answer : answered article open_tenant = ([AfterStored article None], Ok "").
Proof. vm_compute. reflexivity. Qed.
Example auth_refused : answered (note_by 22242 [] "") open_tenant = ([], Err "blocked: kind 22242 is only accepted inside AUTH").
Proof. vm_compute. reflexivity. Qed.

(** The article is refused the second time, and so is a proof published as an
    event. *)
Definition auth_event : Event := Eval vm_compute in note_by 22242 [] "".
Definition with_article : Tenant := published article open_tenant.

Lemma refused_publication_writes_nothing_witness :
  answered article with_article = ([], Ok ErrDuplicate) ∧
  published article with_article = with_limiter (t_limiter (published article with_article)) with_article ∧
  published auth_event open_tenant = with_limiter (t_limiter (published auth_event open_tenant)) open_tenant.
Proof.
  assert (answered article with_article = ([], Ok ErrDuplicate)) as A by vm_eq.
  assert (answered auth_event open_tenant = ([], Err "blocked: kind 22242 is only accepted inside AUTH")) as A2 by vm_eq.
  split; [exact A|]. split.
  - assert (Kind article = 30023) as K by vm_eq.
    refine (proj2 (refused_publication_writes_nothing _ _ _ _ _ _ _ _ _ (publish_split _ _ _ _ A) eq_refl _ _)); rewrite K; discriminate.
  - destruct (refused_publication_writes_nothing _ _ _ _ _ _ _ _ _ (publish_split _ _ _ _ A2)) as [Hl|[Hn _]]; [exact Hl|exfalso; exact (Hn eq_refl)].
Defined.

Lemma accepted_event_is_stored_witness :
  (∃ pl, prepareClientEvent open_tenant article owner_session 2000 = Ok pl ∧
     saved article (P_Intents pl) (t_store open_tenant) (t_store with_article)) ∧
  List.length (events (t_store with_article)) = 4%nat.
Proof.
  split; [|vm_eq]. assert (answered article open_tenant = ([AfterStored article None], Ok "")) as A by vm_eq.
  refine (accepted_event_is_stored [] [] article owner_session 2000 open_tenant with_article [AfterStored article None] (Ok "")
    (publish_split _ _ _ _ A) _ _ _); [discriminate|vm_eq|vm_eq].
Defined.

(** The owner renames the tenant's group. *)
Definition rename : Event := Eval vm_compute in note_by KIND_EDIT_METADATA [["h"; "main"]; ["name"; "Harbour"]] "".
Lemma publication_edits_the_profile_only_witness :
  Policy.P_Name (t_policy (published rename open_tenant)) = "Harbour" ∧
  (Role (t_service open_tenant) (PubKey rename) = "owner" ∨ Role (t_service open_tenant) (PubKey rename) = "moderator").
Proof.
  assert (Policy.P_Name (t_policy (published rename open_tenant)) = "Harbour") as N by vm_eq.
  assert (answered rename open_tenant = ([AfterStored rename None], Ok "")) as A by vm_eq.
  assert (String.eqb (Policy.P_Name (t_policy open_tenant)) "Harbour" = false) as O by vm_eq.
  split; [exact N|].
  destruct (publication_edits_the_profile_only [] [] rename owner_session 2000 open_tenant _ _ _ (publish_split _ _ _ _ A)) as [E|(_ & _ & E)]; [|exact E].
  exfalso. rewrite E in N. rewrite N in O. discriminate O.
Defined.

(** ** A private relay *)

Definition repository : Event := Eval vm_compute in note_by KIND_REPO [["d"; "tool"]; ["private"; "TRUE"]] "".

Example open_relay_refuses : answered repository open_tenant = ([], Err "blocked: private repositories require a GRASP-08 private tenant").
Proof. vm_compute. reflexivity. Qed.

