(* ===== verification/Records.v ===== *)
(** * internal/records: the relay's own records (identity.go, projections.go, rooms.go, notifications.go)

    Every record carries the time of a clock in the settings that never stands
    still, so that a record replaces the one before it.  An operation is a
    function on the tenant; what it signs it stores through
    [Tenant.generatedRecord].  Notifications are gift wraps (NIP-59) whose
    NIP-44 encryption is another library's. *)

From S2P Require Import Prelude GoLib GoCodec GoLemmas GoStrings Nostr Filter SyncProtocol Store.
From S2P Require Import StoreQuery StoreAdmin Maintenance Policy Sites Roster Agents Community Membership Rooms GrantRequests CommunityExec.
From S2P Require Import Auth Replication Gates Tenant TenantWrite.

(** ** Operations on a tenant *)

Definition Op (A : Type) : Type := Tenant → Tenant * result A.
Definition op_ret {A} (a : A) : Op A := λ t, (t, Ok a).
Definition op_fail {A} (m : string) : Op A := λ t, (t, Err m).
Definition op_of {A} (r : result A) : Op A := λ t, (t, r).
(** What was done before an error stays. *)
Definition op_bind {A B} (m : Op A) (k : A → Op B) : Op B :=
  λ t, match m t with (t, Ok a) => k a t | (t, Err e) => (t, Err e) end.
Declare Scope op_scope.
Delimit Scope op_scope with op.
Notation "'do' x <- m ; k" := (op_bind m (λ x, k)) (at level 200, x binder, m at level 100, k at level 200) : op_scope.
Open Scope op_scope.

Fixpoint op_each {A B} (f : A → Op B) (l : list A) : Op (list B) :=
  match l with
  | [] => op_ret []
  | a :: l => do b <- f a; do bs <- op_each f l; op_ret (b :: bs)
  end.

Definition KIND_PRESENCE : Z := 20078.
Definition KIND_MEMBER_ADDED : Z := 8000.
Definition KIND_MEMBER_REMOVED : Z := 8001.
Definition KIND_ROSTER : Z := 13534.
Definition KIND_ROLE_DEF : Z := 33534.
Definition KIND_GROUP_ROLES : Z := 39003.
Definition KIND_GROUP_PINS : Z := 39005.

(** A JSON object of encoded members. *)
Definition json_object (fields : list (string * string)) : string :=
  "{" +:+ json_join ((λ kv : string * string, json_string kv.1 +:+ ":" +:+ kv.2) <$> fields) +:+ "}".

(** NIP-44 of fiatjaf.com/nostr: [SecretKeyFromHex], [GenerateConversationKey]
    of a public key and a secret, and [Encrypt]. *)
Class Nip44 := {
  secret_from_hex : string → result string;
  conversation_key : list Z → string → result string;
  encrypt44 : string → string → result string;
}.

Section Records.
Context `{NostrCrypto} `{GoUnicode} `{GoFTS} `{NostrKeys}.
Context `{GoJson} `{GoJsonDecoder} `{Regexp2} `{GoPrint} `{TenantParts} `{Nip44}.

(** ** The clock *)

(** The column is scanned into an integer. *)
Definition previous_time (db : DB) : result Z :=
  match GetSetting db "records.clock" with
  | None => mret 0
  | Some raw => match num_ok (ParseInt raw) with Some n => mret n | None => Err "sql: Scan error" end
  end.
Definition nextTimestamp (db : DB) (now : Z) : result (DB * Z) :=
  previous ← previous_time db;
  let now := if now <=? previous then wrap64 (previous + 1) else now in
  mret (PutSetting db "records.clock" (Itoa now), now).

(** The clock and the signature commit together. *)
Definition signedOnly (kind : Z) (tags : option (list (list string))) (content : string) (now : Z) : Op Event := λ t,
  match ('(db, at_) ← nextTimestamp (t_store t) now; e ← Sign (mkEvent "" "" at_ kind tags content "") (t_secret t); mret (db, e)) with
  | Ok (db, e) => (with_service (on_store (λ _, db) (t_service t)) t, Ok e)
  | Err m => (t, Err m)
  end.
Definition signed (kind : Z) (tags : option (list (list string))) (content : string) (now : Z) : Op Event :=
  do e <- signedOnly kind tags content now;
  do _ <- generatedRecord e;
  op_ret e.
Definition Generate : Z → option (list (list string)) → string → Z → Op Event := signed.
Definition Sign_record : Z → option (list (list string)) → string → Z → Op Event := signedOnly.

(** ** Identity *)

(** [records.Config.GroupID]: the tenant's name in the catalog. *)
Definition group (t : Tenant) : string := if String.eqb (t_name t) "" then RelayURL t else t_name t.

(** records_reader.go: [Members], in the order of their keys. *)
Definition Members (t : Tenant) : list (string * Member) := sort_by by_key (map_to_list (r_members (tables (t_service t)))).
Definition MemberStatus (t : Tenant) (pubkey : string) : bool * Z :=
  (match member_of (t_service t) pubkey with Some _ => true | None => false end, Z.of_nat (size (r_members (tables (t_service t))))).

Definition groupMetaTags (g : string) (p : Policy) : list (list string) :=
  [["-"]; ["d"; g]; ["name"; Policy.P_Name p]; ["about"; P_Description p]]
  ++ (if String.eqb (P_Icon p) "" then [] else [["picture"; P_Icon p]])
  ++ (if String.eqb (Reads p) "members" then [["private"]] else [])
  ++ (if String.eqb (Writes p) "open" then [] else [["restricted"]]).

Definition profile (now : Z) : Op Event := λ t,
  let p := t_policy t in
  signed KIND_PROFILE None
    (json_object [("about", json_html (P_Description p)); ("name", json_html (Policy.P_Name p)); ("picture", json_html (P_Icon p))]) now t.

Definition discovery (now : Z) : Op Event := λ t,
  let p := t_policy t in
  signed KIND_RELAY_DISCOVERY
    (Some ([["d"; RelayURL t]] ++ (if String.eqb (Reads p) "open" then [] else [["r"; Reads p]])
           ++ (if String.eqb (Writes p) "open" then [] else [["writes"; Writes p]]))) (RelayURL t) now t.

Definition roster_tag (km : string * Member) : list string :=
  ["member"; km.1] ++ (if String.eqb (M_Role km.2) "" || String.eqb (M_Role km.2) "member" then [] else [M_Role km.2]).
Definition roster_tags (t : Tenant) : list (list string) :=
  let tags := ["-"] :: (roster_tag <$> Members t) in
  if Nat.eqb (List.length tags) 1 && negb (String.eqb (Owner (t_policy t)) "") then tags ++ [["member"; Owner (t_policy t); "owner"]] else tags.
Definition rosterRecord (now : Z) : Op Event := λ t, signed KIND_ROSTER (Some (roster_tags t)) "" now t.

Definition groupState (now : Z) : Op Event := λ t, signed KIND_GROUP_METADATA (Some (groupMetaTags (group t) (t_policy t))) "" now t.

Definition MembershipDelta (pubkey : string) (added : bool) (now : Z) : Op Event :=
  signed (if added then KIND_MEMBER_ADDED else KIND_MEMBER_REMOVED) (Some [["-"]; ["p"; pubkey]]) "" now.

Definition roleOrder : list string := ["owner"; "moderator"; "member"; "agent"].
Definition rolesAbout (role : string) : string :=
  if String.eqb role "owner" then "relay owner" else if String.eqb role "moderator" then "relay moderator"
  else if String.eqb role "member" then "relay member" else if String.eqb role "agent" then "agent under an owner-signed grant" else "".

Definition member_tag (km : string * Member) : list string :=
  if String.eqb (M_Role km.2) "agent" then ["p"; km.1; M_Role km.2] else ["p"; km.1].
Definition group_member_tags (t : Tenant) : list (list string) := if DirectoryPublic (t_policy t) then member_tag <$> Members t else [].
Definition group_admin_tags (t : Tenant) : list (list string) :=
  omap (λ km : string * Member,
    if String.eqb (M_Role km.2) "owner" || String.eqb (M_Role km.2) "moderator" then Some ["p"; km.1; M_Role km.2] else None) (Members t).
Definition role_tags : list (list string) := (λ role, ["role"; role; rolesAbout role]) <$> roleOrder.

Definition group_vals (t : Tenant) : list (Z * list (list string)) :=
  let own tags := [["-"]; ["d"; group t]] ++ tags in
  [(KIND_GROUP_METADATA, groupMetaTags (group t) (t_policy t)); (KIND_GROUP_ADMINS, own (group_admin_tags t));
   (KIND_GROUP_MEMBERS, own (group_member_tags t)); (KIND_GROUP_ROLES, own role_tags)].
Definition role_def (i : nat) (role : string) : list (list string) :=
  [["-"]; ["d"; role]; ["label"; role]; ["description"; rolesAbout role]; ["order"; Itoa (Z.of_nat i + 1)]].
Definition groupRecords (now : Z) : Op (list Event) := λ t,
  (do out <- op_each (λ v : Z * list (list string), signed v.1 (Some v.2) "" now) (group_vals t);
   do defs <- op_each (λ tags, signed KIND_ROLE_DEF (Some tags) "" now) (imap role_def roleOrder);
   op_ret (out ++ defs)) t.

(** ** Projections *)

Definition pins (now : Z) : Op Event := λ t,
  signed KIND_GROUP_PINS (Some ([["-"]; ["d"; group t]] ++ ((λ row : Z * string, ["e"; row.2]) <$> t_pins t))) "" now t.

Definition PublishMembership (now : Z) : Op (list Event) :=
  do out <- op_each (λ fn : Z → Op Event, fn now) [profile; discovery; rosterRecord; groupState];
  do group <- groupRecords now;
  op_ret (out ++ group).

Record MembershipChange := mkChange { MC_PubKey : string; MC_Added : option bool; MC_Roles : list string }.

(** [tags[1]] is the h tag: the roles follow the room there. *)
Definition change_tags (t : Tenant) (c : MembershipChange) : list (list string) := [["-"]; ["h"; group t] ++ MC_Roles c; ["p"; MC_PubKey c]].
Definition publish_change (now : Z) (c : MembershipChange) : Op (list Event) := λ t,
  (do delta <- match MC_Added c with
               | Some added => do d <- MembershipDelta (MC_PubKey c) added now; op_ret [d]
               | None => op_ret []
               end;
   do e <- signed (if match MC_Added c with Some added => negb added | None => false end then KIND_REMOVE_USER else KIND_PUT_USER)
             (Some (change_tags t c)) "" now;
   op_ret (delta ++ [e])) t.
Definition PublishMembershipChanges (changes : list MembershipChange) (now : Z) : Op (list Event) :=
  do out <- PublishMembership now;
  do more <- op_each (publish_change now) changes;
  op_ret (out ++ List.concat more).

Definition presence_text (kv : string * Z) : string := json_object [("pubkey", json_html kv.1); ("seen_at", Itoa kv.2)].
Definition seen_leb (a b : string * Z) : bool := negb (str_ltb b.1 a.1).
Definition Presence (caller : PAccess) (now : Z) : Op Event := λ t,
  if negb (Policy.CanRead (t_policy t) (mkEvent "" "" 0 KIND_PRESENCE None "" "") caller) then (t, Err "restricted: presence")
  else
    let values := List.filter (λ kv : string * Z, now - 900 <=? kv.2) (sort_by seen_leb (map_to_list (t_presence t))) in
    signedOnly KIND_PRESENCE None (if Nat.eqb (List.length values) 0 then "null" else json_array (presence_text <$> values)) now t.

(** A reference pinned twice violates the table's uniqueness. *)
Definition ReplacePinsTx (refs : list string) : result (list (Z * string)) :=
  let rows := pin_rows 0 refs in
  guard_err (negb (bool_decide (NoDup rows.*2))) "UNIQUE constraint failed: records_pins.ref";;
  mret rows.
Definition SetPins (refs : list string) (now : Z) : Op Event := λ t,
  match ReplacePinsTx refs with
  | Err m => (t, Err m)
  | Ok rows => pins now (with_pins rows t)
  end.

(** ** Rooms *)

Definition room_pk_leb (a b : string * RoomMember) : bool :=
  let ra := room_rank (RM_Role a.2) in let rb := room_rank (RM_Role b.2) in
  (ra <? rb) || (ra =? rb) && negb (str_ltb b.1 a.1).
Definition room_rows (t : Tenant) (room : string) : list (string * RoomMember) :=
  sort_by room_pk_leb (omap (λ kr : (string * string) * RoomMember, if String.eqb kr.1.1 room then Some (kr.1.2, kr.2) else None)
    (map_to_list (r_room_members (tables (t_service t))))).

Definition RetireRoom (room : string) : Op unit := λ t,
  (with_service (on_store (λ db, (delete_events (λ r, String.eqb (r_pubkey r) (relay_key t)
      && containsInt [KIND_GROUP_METADATA; KIND_GROUP_ADMINS; KIND_GROUP_MEMBERS] (r_kind r) && String.eqb (r_d r) room) db).1)
    (t_service t)) t, Ok tt).

Definition room_vals (t : Tenant) (room : string) (r : Room) : list (Z * list (list string)) :=
  let p := t_policy t in
  let rows := room_rows t room in
  let admins := omap (λ kr : string * RoomMember,
    if String.eqb (RM_Role kr.2) "owner" || String.eqb (RM_Role kr.2) "admin" then Some ["p"; kr.1; RM_Role kr.2] else None) rows in
  let members := if String.eqb (R_Access r) "open" && negb (DirectoryPublic p) then [] else (λ kr : string * RoomMember, ["p"; kr.1]) <$> rows in
  let meta := [["-"]; ["d"; room]; ["name"; R_Name r]; ["about"; R_About r]]
    ++ (if String.eqb (R_Picture r) "" then [] else [["picture"; R_Picture r]])
    ++ [if String.eqb (R_Access r) "members" then ["closed"] else ["open"]]
    ++ [if String.eqb (Reads p) "members" then ["private"] else ["public"]] in
  [(KIND_GROUP_METADATA, meta); (KIND_GROUP_ADMINS, [["-"]; ["d"; room]] ++ admins); (KIND_GROUP_MEMBERS, [["-"]; ["d"; room]] ++ members)].
Definition PublishRoom (room : string) (now : Z) : Op (list Event) := λ t,
  match r_rooms (tables (t_service t)) !! room with
  | Some r =>
    if 0 <? R_DeletedAt r then (do _ <- RetireRoom room; op_ret []) t
    else op_each (λ v : Z * list (list string), signed v.1 (Some v.2) "" now) (room_vals t room r) t
  | None => (do _ <- RetireRoom room; op_ret []) t
  end.
Definition RoomNotice (room pubkey : string) (added : bool) (now : Z) : Op Event :=
  signed (if added then KIND_ROOM_MEMBER_ADDED else KIND_ROOM_MEMBER_REMOVED) (Some [["h"; room]; ["p"; pubkey]]) "" now.

(** ** Notifications *)

Definition zero_sig : string := string_of_list_ascii (replicate 128 "0"%char).

(** [nonce] is the secret of [nostr.Generate]. *)
Definition giftWrap (secret nonce recipient content subject : string) (now : Z) : result Event :=
  rpk ← match pubkey_from_hex recipient with Some k => mret k | None => Err "invalid public key" end;
  sk ← secret_from_hex secret;
  rumor ← Sign (mkEvent "" "" now KIND_DM (Some ([["p"; recipient]] ++ (if String.eqb subject "" then [] else [["subject"; subject]]))) content "") secret;
  key ← conversation_key rpk sk;
  rumorCipher ← encrypt44 (event_json (mkEvent (ID rumor) (PubKey rumor) (CreatedAt rumor) (Kind rumor) (Tags rumor) (Content rumor) zero_sig)) key;
  seal ← Sign (mkEvent "" "" now 13 (Some []) rumorCipher "") secret;
  outerKey ← conversation_key rpk nonce;
  outerCipher ← encrypt44 (event_json seal) outerKey;
  Sign (mkEvent "" "" now KIND_WRAP (Some [["p"; recipient]]) outerCipher "") nonce.

(** daemon/notifications.go: [deliverNotification], [id] the tenant's in the
    catalog. *)
Definition deliverNotification (id : string) (wrap : Event) (recipient : string) (now : Z) : Op unit := λ t,
  if negb (Kind wrap =? KIND_WRAP) || String.eqb recipient "" || negb (String.eqb (Tag wrap "p") recipient)
  then (t, Err "notification: invalid recipient or gift wrap")
  else
    let payload := json_object [("recipient", json_html recipient)] in
    let '(db, r) := Save (t_store t) wrap (mkSaveOptions now "off"
      [mkIntent "notification-broadcast" (ID wrap) id payload; mkIntent "notification-delivery" (ID wrap) recipient payload] None) in
    (with_service (on_store (λ _, db) (t_service t)) t, (r;; mret tt)).

(** For a recipient who registered no device: [enqueuePush] then does nothing. *)
Definition notifyText (id nonce text subject target : string) (now : Z) : Op unit := λ t,
  if String.eqb target "" then (t, Err "notify: empty recipient")
  else match giftWrap (t_secret t) nonce target text subject now with
       | Err m => (t, Err m)
       | Ok wrapped => deliverNotification id wrapped target now t
       end.
Definition notify_enabled (p : Policy) (kind : string) : bool :=
  let n := P_Notify p in
  if String.eqb kind "reports" then N_Reports n else if String.eqb kind "jobs" then N_Jobs n
  else if String.eqb kind "succession" then N_Succession n else if String.eqb kind "digest" then N_Digest n else false.
Definition NotifyMember (id nonce kind text subject target : string) (now : Z) : Op unit := λ t,
  if negb (String.eqb kind "test") && negb (notify_enabled (t_policy t) kind) then (t, Ok tt)
  else notifyText id nonce text subject (if String.eqb target "" then Owner (t_policy t) else target) now t.
(** The notice of [notifytest]: a JSON object in a wrap to the owner. *)
Definition notify (id nonce typ owner target : string) (now : Z) : Op unit := λ t,
  if negb (N_Succession (P_Notify (t_policy t))) && (String.eqb typ "succession" || String.eqb typ "succession-transfer") then (t, Ok tt)
  else match giftWrap (t_secret t) nonce owner (json_object [("target", json_html target); ("type", json_html typ)]) "relay" now with
       | Err m => (t, Err m)
       | Ok wrapped => deliverNotification id wrapped target now t
       end.
End Records.
