(* ===== verification/Views.v ===== *)
(** * internal/records: the schedule of the stored views (views.go, [tickViews] of succession.go)

    A stored view is a record the relay signs again at its trigger: daily,
    hourly when its sources changed, or shortly after a write marked it.  What
    a view folds out of the stored events is [ViewFolds]. *)

From S2P Require Import Prelude GoLib GoCodec GoLemmas GoStrings Nostr Filter SyncProtocol Store.
From S2P Require Import StoreQuery StoreAdmin Maintenance Policy Sites Roster Agents Community Membership Rooms GrantRequests CommunityExec.
From S2P Require Import Auth Replication Gates Tenant TenantWrite Records.

(** The rows and the text of a view for a caller. *)
Class ViewFolds := { fold_view : Tenant → string → PAccess → Z → result (list (list string) * string) }.

(** ** Settings that hold numbers and strings *)

Section Settings.
Context `{GoJson}.

(** [GetSetting] into an integer, a missing row tolerated. *)
Definition int_setting (db : DB) (key : string) : result Z :=
  match GetSetting db key with
  | None => mret 0
  | Some raw =>
    match json_parse raw with
    | Some JNull => mret 0
    | Some j => match unmarshal_int j with Some n => mret n | None => Err ("decode setting " +:+ key) end
    | None => Err ("decode setting " +:+ key)
    end
  end.
(** Its error dropped. *)
Definition int_or_zero (db : DB) (key : string) : Z := match int_setting db key with Ok n => n | Err _ => 0 end.
Definition string_setting (db : DB) (key : string) : result string :=
  match GetSetting db key with
  | None => mret ""
  | Some raw =>
    match json_parse raw with
    | Some JNull => mret ""
    | Some j => match unmarshal_string j with Some s => mret s | None => Err ("decode setting " +:+ key) end
    | None => Err ("decode setting " +:+ key)
    end
  end.
End Settings.
Definition put_int (key : string) (n : Z) (t : Tenant) : Tenant := with_service (on_store (λ db, PutSetting db key (Itoa n)) (t_service t)) t.
Definition put_string (key s : string) (t : Tenant) : Tenant := with_service (on_store (λ db, PutSetting db key (json_html s)) (t_service t)) t.

(** ** Triggers and audiences *)

Definition viewNames : list string := ["profiles"; "relays"; "calendar"; "moderation"; "articles"; "podcasts"; "zaps"; "presence"].

Fixpoint assoc (name : string) (l : list (string * string)) : string :=
  match l with [] => "" | (n, v) :: r => if String.eqb n name then v else assoc name r end.

Definition defaultViewTrigger (name : string) : string :=
  assoc name [("profiles", "daily"); ("relays", "daily"); ("calendar", "hourly"); ("moderation", "daily"); ("articles", "write");
              ("podcasts", "write"); ("zaps", "hourly"); ("presence", "live")].
Definition effectiveViewTrigger (p : Policy) (name : string) : string :=
  let mode := assoc name (P_Views p) in
  if String.eqb mode "" then defaultViewTrigger name else mode.

Definition viewAudience (p : Policy) (name : string) : string :=
  if (String.eqb name "profiles" || String.eqb name "relays") && negb (DirectoryPublic p) then "members"
  else if String.eqb (Reads p) "members" then "members" else "public".
Definition viewStored (p : Policy) (name : string) : bool := negb (String.eqb name "presence") && String.eqb (viewAudience p name) "public".

(** The periods of [tickViews] and [NextDue], in the order Go ranges over them. *)
Definition view_period (name : string) : Z :=
  if String.eqb name "calendar" || String.eqb name "zaps" then 3600 else 86400.
Definition scheduled (p : Policy) (name : string) : bool :=
  negb (String.eqb (effectiveViewTrigger p name) "off") && viewStored p name.

Definition at_key (name : string) : string := "records.view." +:+ name +:+ ".at".
Definition dirty_key (name : string) : string := "records.view." +:+ name +:+ ".dirty".
Definition fingerprint_key (name : string) : string := "records.view." +:+ name +:+ ".fingerprint".

Section Views.
Context `{NostrCrypto} `{GoUnicode} `{GoFTS} `{GoURLs} `{NostrKeys}.
Context `{GoJson} `{GoJsonDecoder} `{Regexp2} `{GoPrint} `{TenantParts} `{Nip44} `{ViewFolds}.

(** ** One view *)

Definition view (name : string) (caller : PAccess) (now : Z) : Op Event := λ t,
  match fold_view t name caller now with
  | Err m => (t, Err m)
  | Ok (tags, content) =>
    let tags := [["-"]; ["d"; "bind.ws/view/" +:+ name]; ["trigger"; effectiveViewTrigger (t_policy t) name]] ++ tags in
    (if viewStored (t_policy t) name then signed else signedOnly) KIND_VIEW (Some tags) content now t
  end.

Record ViewRun := mkRun { VR_Name : string; VR_At : Z; VR_Rows : Z }.
Definition run_leb (a b : nat * ViewRun) : bool :=
  (VR_At b.2 <? VR_At a.2) || (VR_At b.2 =? VR_At a.2) && (b.1 <=? a.1)%nat.
(** Of each view the newest sixty runs are kept. *)
Definition recordViewRun (name : string) (at_ rows : Z) (runs : list ViewRun) : list ViewRun :=
  let runs := runs ++ [mkRun name at_ rows] in
  let of_name := List.filter (λ ir : nat * ViewRun, String.eqb (VR_Name ir.2) name) (imap pair runs) in
  let kept := (take 60 (sort_by run_leb of_name)).*1 in
  (List.filter (λ ir : nat * ViewRun, negb (String.eqb (VR_Name ir.2) name) || existsb (Nat.eqb ir.1) kept) (imap pair runs)).*2.
Definition run_at_leb (a b : ViewRun) : bool := VR_At a <=? VR_At b.
Definition ViewRuns (name : string) (runs : list ViewRun) : list ViewRun :=
  sort_by run_at_leb (List.filter (λ r, String.eqb (VR_Name r) name) runs).
Definition ViewRowsSince (name : string) (since : Z) (runs : list ViewRun) : Z :=
  foldr Z.add 0 (VR_Rows <$> List.filter (λ r, String.eqb (VR_Name r) name && (since <=? VR_At r)) runs).

(** ** The schedule *)

(** Why a view is passed over ([false]), and whether a write had marked it. *)
Definition view_due (p : Policy) (db : DB) (name : string) (now : Z) : result (bool * Z) :=
  let mode := effectiveViewTrigger p name in
  let period := if String.eqb mode "daily" then 86400 else if String.eqb mode "hourly" then 3600 else view_period name in
  last_ ← int_setting db (at_key name);
  let stale := (last_ =? 0) || (period - 300 <=? now - last_) in
  if String.eqb mode "write" then
    dirty ← int_setting db (dirty_key name);
    mret (if negb (dirty =? 0) && (10 <=? now - dirty) then true else if negb (dirty =? 0) then false else stale, dirty)
  else mret (stale, 0).

Definition count_kinds (db : DB) (kinds : list Z) : Z * Z :=
  let rows := List.filter (λ r, containsInt kinds (r_kind r)) (events db) in
  (Z.of_nat (List.length rows), max_list (r_created <$> rows)).
Definition viewFingerprint (db : DB) (name : string) (now : Z) : string :=
  let show '(n, newest) day := Itoa n +:+ ":" +:+ Itoa newest +:+ ":" +:+ Itoa day in
  if String.eqb name "calendar" then show (count_kinds db [31922; 31923; 31925]) (Z.quot now 86400)
  else if String.eqb name "zaps" then show (count_kinds db [9735]) 0
  else "".

(** The unchanged sources of an hourly view only move its time. *)
Definition publish_view (name : string) (dirty now : Z) (runs : list ViewRun) : Op (list ViewRun) := λ t,
  let write := String.eqb (effectiveViewTrigger (t_policy t) name) "write" in
  match view name (mkPAccess [] "" false true) now t with
  | (t, Err m) => (t, Err m)
  | (t, Ok e) =>
    let t := put_int (at_key name) now t in
    (if write && negb (dirty =? 0) then put_int (dirty_key name) 0 t else t,
     Ok (recordViewRun name now (Z.max 0 (Z.of_nat (List.length (etags e)) - 3)) runs))
  end.
Definition tick_view (name : string) (now : Z) (runs : list ViewRun) : Op (list ViewRun) := λ t,
  let p := t_policy t in
  if negb (scheduled p name) then (t, Ok runs)
  else match view_due p (t_store t) name now with
  | Err m => (t, Err m)
  | Ok (false, _) => (t, Ok runs)
  | Ok (true, dirty) =>
    if String.eqb (effectiveViewTrigger p name) "hourly" then
      let fp := viewFingerprint (t_store t) name now in
      match string_setting (t_store t) (fingerprint_key name) with
      | Err m => (t, Err m)
      | Ok previous =>
        if negb (String.eqb previous "") && String.eqb previous fp then (put_int (at_key name) now t, Ok runs)
        else publish_view name dirty now runs (put_string (fingerprint_key name) fp t)
      end
    else publish_view name dirty now runs t
  end.
Fixpoint tickViews (order : list string) (now : Z) (runs : list ViewRun) : Op (list ViewRun) := λ t,
  match order with
  | [] => (t, Ok runs)
  | name :: order => match tick_view name now runs t with
                     | (t, Err m) => (t, Err m)
                     | (t, Ok runs) => tickViews order now runs t
                     end
  end.

Definition MarkView (name : string) (now : Z) : Op unit := λ t,
  let p := t_policy t in
  if String.eqb name "presence" || negb (String.eqb (effectiveViewTrigger p name) "write") || negb (viewStored p name) then (t, Ok tt)
  else match int_setting (t_store t) (dirty_key name) with
       | Err m => (t, Err m)
       | Ok dirty => (if dirty =? 0 then put_int (dirty_key name) now t else t, Ok tt)
       end.

(** When a view is due next, if it is scheduled. *)
Definition view_next (p : Policy) (db : DB) (name : string) (now : Z) : result (option Z) :=
  let mode := effectiveViewTrigger p name in
  if negb (scheduled p name) then mret None
  else
    let period := if String.eqb mode "write" then 86400 else if String.eqb mode "hourly" then 3600
                  else if String.eqb mode "daily" then 86400 else view_period name in
    dirty ← (if String.eqb mode "write" then int_setting db (dirty_key name) else mret 0);
    if negb (dirty =? 0) then mret (Some (dirty + 10))
    else
      last_ ← int_setting db (at_key name);
      mret (Some (if last_ =? 0 then now else last_ + period)).
Fixpoint next_due (order : list string) (p : Policy) (db : DB) (now next : Z) : result Z :=
  match order with
  | [] => mret next
  | name :: order =>
    due ← view_next p db name now;
    match due with
    | None => next_due order p db now next
    | Some due =>
      if due <=? now then mret now
      else next_due order p db now (if (next =? 0) || (due <? next) then due else next)
    end
  end.
Definition NextDue (order : list string) (now : Z) (t : Tenant) : result Z := next_due order (t_policy t) (t_store t) now 0.

(** [Views] and [View] for callers: the audience is checked before the fold. *)
Definition view_access (p : Policy) (name : string) (caller : PAccess) : result unit :=
  let insider := PA_Member caller || PA_Owner caller in
  guard_err (negb (contains viewNames name) || String.eqb (effectiveViewTrigger p name) "off") "not found: view";;
  guard_err (String.eqb (Reads p) "members" && negb insider) "restricted: views";;
  guard_err (String.eqb (Reads p) "auth" && Nat.eqb (List.length (PA_PubKeys caller)) 0 && negb (PA_Owner caller)) "auth-required: views";;
  guard_err (String.eqb (viewAudience p name) "members" && negb insider) "auth-required: view is for members".
Definition View (name : string) (caller : PAccess) (now : Z) : Op (Event * Z) := λ t,
  match view_access (t_policy t) name caller with
  | Err m => (t, Err m)
  | Ok _ =>
    (if String.eqb name "presence" then do e <- Presence caller now; op_ret (e, Z.max 0 (Z.of_nat (List.length (etags e)) - 1))
     else do e <- view name caller now; op_ret (e, Z.max 0 (Z.of_nat (List.length (etags e)) - 3))) t
  end.

Record ViewSummary := mkSummary {
  VS_Name : string; VS_About : string; VS_Trigger : string; VS_Default : string; VS_Choices : list string; VS_Audience : string;
  VS_On : bool; VS_Stored : bool; VS_Last : option ViewRun; VS_Path : string;
}.
Definition view_about (name : string) : string :=
  assoc name
    [("profiles", "every member's newest profile in one record"); ("relays", "where the members are: the union of their relay lists");
     ("calendar", "what is on: calendar events starting in the next 30 days, with RSVPs counted");
     ("moderation", "this month's moderation counts, no ids"); ("articles", "the newest hundred articles, by address");
     ("podcasts", "the newest hundred NIP-F4 episodes and their shows"); ("zaps", "zap totals for the top notes and authors here");
     ("presence", "who is connected now and who wrote in the last 15 minutes")].
Definition ViewSummaries (runs : list ViewRun) (t : Tenant) : list ViewSummary :=
  let p := t_policy t in
  (λ name, mkSummary name (view_about name) (effectiveViewTrigger p name) (defaultViewTrigger name)
    (if String.eqb name "presence" then ["off"] else ["off"; "write"; "hourly"; "daily"]) (viewAudience p name)
    (negb (String.eqb (effectiveViewTrigger p name) "off")) (viewStored p name) (last (ViewRuns name runs)) ("/view/" +:+ name)) <$> viewNames.
End Views.
