(* ===== verification/Succession.v ===== *)
(** * internal/records: succession and record management (succession.go, management.go)

    The owner names an heir and a number of days.  When the owner has not been
    seen for that long the relay warns; after thirty more days it goes to the
    heir.  [Tick] is one pass of the scheduler; the policy is set through the
    tenant ([applyPolicy]), which moves the ownership in the community. *)

From S2P Require Import Prelude GoLib GoCodec GoLemmas GoStrings Nostr Filter SyncProtocol Store.
From S2P Require Import StoreQuery StoreAdmin Maintenance Policy Sites Roster Agents Community Membership Rooms GrantRequests CommunityExec.
From S2P Require Import Auth Replication Gates Tenant TenantWrite Records Views.

Definition owner_seen : string := "records.owner_seen".
Definition warning_key : string := "records.succession_warning".
Definition notify_key : string := "records.succession_notify".
Definition log_key : string := "records.succession_log".

(** The policy with another owner and plan. *)
Definition with_succession (owner : string) (plan : option Succession) (p : Policy) : Policy :=
  mkPolicy owner (CustomHosts p) plan (Policy.P_Name p) (P_Description p) (P_Icon p) (P_Banner p) (P_Contact p) (PostingPolicy p)
    (PrivacyPolicy p) (P_Tags p) (LanguageTags p) (RelayCountries p) (P_Notify p) (Writes p) (OpenKinds p) (GuestReplies p)
    (BlockedWords p) (BlockedWordsInTags p) (ReportThreshold p) (Reads p) (JoinTerms p) (DirectoryPublic p) (MinPow p)
    (MaxFuture p) (P_MemberInvites p) (P_Views p) (P_Features p) (PushCallbacks p) (PrivatePeers p) (P_FileLimits p)
    (LetteredNips p) (P_Delivery p) (InboxTargeted p) (Dumps p) (DumpsKeep p) (Rooms p) (Callbacks p) (BlockedKinds p)
    (AllowedKinds p) (Retention p).
Definition with_notify (n : Notify) (p : Policy) : Policy :=
  mkPolicy (Owner p) (CustomHosts p) (P_Succession p) (Policy.P_Name p) (P_Description p) (P_Icon p) (P_Banner p) (P_Contact p) (PostingPolicy p)
    (PrivacyPolicy p) (P_Tags p) (LanguageTags p) (RelayCountries p) n (Writes p) (OpenKinds p) (GuestReplies p)
    (BlockedWords p) (BlockedWordsInTags p) (ReportThreshold p) (Reads p) (JoinTerms p) (DirectoryPublic p) (MinPow p)
    (MaxFuture p) (P_MemberInvites p) (P_Views p) (P_Features p) (PushCallbacks p) (PrivatePeers p) (P_FileLimits p)
    (LetteredNips p) (P_Delivery p) (InboxTargeted p) (Dumps p) (DumpsKeep p) (Rooms p) (Callbacks p) (BlockedKinds p)
    (AllowedKinds p) (Retention p).
Definition notify_succession (on : bool) (n : Notify) : Notify := mkNotify (N_Reports n) (N_Jobs n) on (N_Digest n).

(** ** The log of handovers *)

Record SuccessionEntry := mkEntry { SE_At : Z; SE_From : string; SE_To : string }.
Definition entry_text (e : SuccessionEntry) : string :=
  json_object [("at", Itoa (SE_At e)); ("from", json_html (SE_From e)); ("to", json_html (SE_To e))].
Definition log_text (l : list SuccessionEntry) : string := json_array (entry_text <$> l).

(** What a text written by [log_text] holds. *)
Definition decode_entry (j : json) : option SuccessionEntry :=
  match j with
  | JObj [(_, at_); (_, from); (_, to)] =>
    a ← unmarshal_int at_; f ← unmarshal_string from; t ← unmarshal_string to; Some (mkEntry a f t)
  | _ => None
  end.
Definition decode_log `{GoJson} (db : DB) : list SuccessionEntry :=
  match (raw ← GetSetting db log_key; json_parse raw) with
  | Some (JArr l) => default [] (mapM decode_entry l)
  | _ => []
  end.
(** The last ten entries. *)
Definition append_entry (e : SuccessionEntry) (l : list SuccessionEntry) : list SuccessionEntry :=
  let l := l ++ [e] in if (10 <? List.length l)%nat then drop (List.length l - 10) l else l.

Definition day : Z := 86400.
Definition warning_period : Z := 30 * day.

Section Succession.
Context `{NostrCrypto} `{GoUnicode} `{GoFTS} `{GoURLs} `{NostrKeys}.
Context `{GoJson} `{GoJsonDecoder} `{Regexp2} `{GoPrint} `{TenantParts} `{Nip44} `{ViewFolds}.

Definition put_log (e : SuccessionEntry) (t : Tenant) : Tenant :=
  with_service (on_store (λ db, PutSetting db log_key (log_text (append_entry e (decode_log db)))) (t_service t)) t.

Definition tell (id nonce text target : string) (now : Z) : Op unit := notifyText id nonce text "succession on relay" target now.

(** What a pass needs beside the tenant: its identifier in the catalog, the
    stamp of an owner's change, the secrets of two gift wraps. *)
Record TickEnv := mkTickEnv { te_id : string; te_stamp : string; te_nonce1 : string; te_nonce2 : string }.

(** The heir left: the plan is off. *)
Definition heir_lost (env : TickEnv) (now : Z) : Op unit := λ t,
  let p := t_policy t in
  match persistPolicy (te_id env) (te_stamp env) (with_succession (Owner p) None p) now t with
  | (t, Err m) => (t, Err m)
  | (t, Ok _) =>
    tell (te_id env) (te_nonce1 env)
      "Your heir is no longer a member, so the handover plan is off. Name another heir if you still want one." (Owner p) now
      (put_int notify_key 0 (put_int warning_key 0 t))
  end.

Definition hand_over (env : TickEnv) (heir : string) (now : Z) : Op unit := λ t,
  let p := t_policy t in
  match persistPolicy (te_id env) (te_stamp env) (with_succession heir None p) now t with
  | (t, Err m) => (t, Err m)
  | (t, Ok _) =>
    let t := put_log (mkEntry now (Owner p) heir) t in
    let t := put_int notify_key 0 (put_int warning_key 0 (put_int owner_seen now t)) in
    (do _ <- tell (te_id env) (te_nonce1 env)
         "The relay now belongs to your heir, as you planned. You stay on as a moderator." (Owner p) now;
     tell (te_id env) (te_nonce2 env)
       "The relay is yours now. Its owner named you heir and has been away through the warning period." heir now) t
  end.

(** [Tick] after its views. *)
Definition succession_tick (env : TickEnv) (now : Z) : Op unit := λ t,
  let p := t_policy t in
  match P_Succession p with
  | None => (t, Ok tt)
  | Some plan =>
    if String.eqb (Heir plan) "" || String.eqb (Owner p) "" then (t, Ok tt)
    else
      let '(member, memberCount) := MemberStatus t (Heir plan) in
      if (0 <? memberCount) && negb member then heir_lost env now t
      else match int_setting (t_store t) owner_seen with
      | Err m => (t, Err m)
      | Ok heartbeat =>
        if heartbeat =? 0 then (put_int owner_seen now t, Ok tt)
        else if now <? wrap64 (heartbeat + wrap64 (AfterDays plan * day)) then (t, Ok tt)
        else
          let warned := int_or_zero (t_store t) warning_key in
          if warned =? 0 then
            tell (te_id env) (te_nonce1 env)
              "You have been away long enough to start the succession warning period. Any signed action cancels it." (Owner p) now
              (put_int notify_key now (put_int warning_key now t))
          else if now <? warned + warning_period then
            if 7 * day <=? now - int_or_zero (t_store t) notify_key then
              tell (te_id env) (te_nonce1 env) "Still no sign of you. The relay will go to your heir unless you sign in." (Owner p) now
                (put_int notify_key now t)
            else (t, Ok tt)
          else hand_over env (Heir plan) now t
      end
  end.

Definition Tick (env : TickEnv) (order : list string) (now : Z) (runs : list ViewRun) : Op (list ViewRun) := λ t,
  match tickViews order now runs t with
  | (t, Err m) => (t, Err m)
  | (t, Ok runs) => match succession_tick env now t with (t, Err m) => (t, Err m) | (t, Ok _) => (t, Ok runs) end
  end.

(** ** Management *)

Inductive RecordsValue :=
| RV_Status (seen : Z) (warning : option (Z * Z)) (handover : Z) (log : list SuccessionEntry) (plan : option Succession)
| RV_Plan (plan : Succession)
| RV_True
| RV_Query (** the open result set of the pins, not its rows *)
| RV_Pinned (e : Event)
| RV_Views (views : list ViewSummary)
| RV_Notify (n : Notify).

Definition successionstatus (t : Tenant) : RecordsValue :=
  let db := t_store t in
  let seen := int_or_zero db owner_seen in
  let warning := int_or_zero db warning_key in
  RV_Status seen (if 0 <? warning then Some (warning, int_or_zero db notify_key) else None)
    (if 0 <? warning then warning + warning_period
     else match P_Succession (t_policy t) with
          | Some plan => wrap64 (wrap64 (seen + wrap64 (AfterDays plan * day)) + warning_period)
          | None => 0
          end)
    (decode_log db) (P_Succession (t_policy t)).

(** [plan] is what [json.Unmarshal] makes of the parameter. *)
Definition setsuccession (id stamp : string) (plan : result Succession) (now : Z) : Op RecordsValue := λ t,
  let p := t_policy t in
  match (v ← plan; guard_err (negb (containsInt [90; 180; 365] (AfterDays v))) "invalid: succession delay";; mret v) with
  | Err m => (t, Err m)
  | Ok v =>
    match persistPolicy id stamp (with_notify (notify_succession true (P_Notify p)) (with_succession (Owner p) (Some v) p)) now t with
    | (t, Err m) => (t, Err m)
    | (t, Ok _) =>
      (with_service (on_store (λ db, PutSetting db "records.succession"
         (json_object [("heir", json_html (Heir v)); ("afterDays", Itoa (AfterDays v))])) (t_service t)) t, Ok (RV_Plan v))
    end
  end.
Definition clearsuccession (id stamp : string) (now : Z) : Op RecordsValue := λ t,
  let p := t_policy t in
  match persistPolicy id stamp (with_notify (notify_succession false (P_Notify p)) (with_succession (Owner p) None p)) now t with
  | (t, Err m) => (t, Err m)
  | (t, Ok _) => (with_service (on_store (λ db, PutSetting db "records.succession" "null") (t_service t)) t, Ok RV_True)
  end.
Definition pin (add : bool) (param : result string) (now : Z) : Op RecordsValue := λ t,
  match param with
  | Err m => (t, Err m)
  | Ok ref =>
    let refs := List.filter (λ x, negb (String.eqb x ref)) (t_pins t).*2 in
    (do e <- SetPins (if add then refs ++ [ref] else refs) now; op_ret (RV_Pinned e)) t
  end.

(** What the parameters decode to; the audit row of a call is not kept. *)
Record RecordsParams := mkParams { rp_plan : result Succession; rp_ref : result string }.
Definition ExecuteRecords (env : TickEnv) (actor method : string) (params : RecordsParams) (runs : list ViewRun) (now : Z) : Op RecordsValue := λ t,
  let p := t_policy t in
  if negb (String.eqb actor "") && negb (String.eqb actor (Owner p)) then (t, Err "restricted: owner record operation")
  else if String.eqb method "successionstatus" then (t, Ok (successionstatus t))
  else if String.eqb method "setsuccession" then setsuccession (te_id env) (te_stamp env) (rp_plan params) now t
  else if String.eqb method "clearsuccession" then clearsuccession (te_id env) (te_stamp env) now t
  else if String.eqb method "listpins" then (t, Ok RV_Query)
  else if String.eqb method "pinevent" then pin true (rp_ref params) now t
  else if String.eqb method "unpinevent" then pin false (rp_ref params) now t
  else if String.eqb method "listviews" then (t, Ok (RV_Views (ViewSummaries runs t)))
  else if String.eqb method "notifytest" then
    (do _ <- notify (te_id env) (te_nonce1 env) "test" (Owner p) (Owner p) now; op_ret RV_True) t
  else if String.eqb method "notifystatus" then (t, Ok (RV_Notify (P_Notify p)))
  else (t, Err ("unsupported: records method " +:+ Quote method)).
End Succession.
