(* ===== verification/RecordsProps.v ===== *)
(** * internal/records: the clock, the projections and the schedule of views

    A record is newer than every one the relay signed before, so publishing
    never fails as out of date and the store holds the newest projection of
    the community at each address; after a pass no view is still due. *)

From S2P Require Import Prelude GoLib GoCodec GoLemmas GoStrings Nostr NostrProps Filter SyncProtocol Store.
From S2P Require Import StoreQuery StoreAdmin StoreInv StoreProps StoreSave StoreMaint WorkProps Maintenance Policy Sites Roster Agents Community Membership Rooms.
From S2P Require Import GrantRequests CommunityExec CommunityProps Auth Replication ReplicationProps Gates GatesProps Tenant TenantWrite TenantProps TenantWriteProps TenantPrivate.
From S2P Require Import Records Views Succession.

(** ** Settings survive a save *)

Lemma settings_delete_events p db : settings (delete_events p db).1 = settings db.
Proof. done. Qed.

Lemma settings_deletion_tag e db tag : settings (deletion_tag e db tag) = settings db.
Proof.
  unfold deletion_tag, applyDeletion, delete_address, delete_by_id, archiveAgentGrantDeletion, archiveAgentGrantEventDeletion, put_tombstone.
  cbv zeta. by repeat case_match.
Qed.

Lemma settings_replaceOrDelete db e now db' : replaceOrDelete db e now = Ok db' → settings db' = settings db.
Proof.
  unfold replaceOrDelete. destruct (_ || _); [by intros (_ & _ & _ & _ & _ & _ & _ & ? & _)%replace_Ok|].
  destruct (negb _); intros [= <-]; [done|]. apply (fold_left_inv (λ d, settings d = settings db)); [done|].
  intros d tag E. by rewrite settings_deletion_tag.
Qed.

Lemma settings_Save db e opts : BeforeCommit opts = None → settings (Save db e opts).1 = settings db.
Proof.
  intros Hb. unfold Save, WithTx. destruct (SaveTx db e opts) as [[db' res]|m] eqn:Es; [|done]. cbn.
  destruct (IsEphemeral (Kind e)) eqn:Hk; [unfold SaveTx in Es; rewrite Hk in Es; by injection Es as <- _|].
  destruct (SaveTx_Ok _ _ _ _ _ Es Hk) as (d1 & d2 & _ & Hr & Hi & Ho). rewrite Hb in Ho. injection Ho as <-.
  apply settings_replaceOrDelete in Hr. rewrite <-Hr. unfold insertEvent in Hi. by apply guard_bind_Ok in Hi as (_ & [= <- _]).
Qed.

Lemma setting_put_same db k v : GetSetting (PutSetting db k v) k = Some v.
Proof. apply lookup_insert_eq. Qed.
Lemma setting_put_other db k k' v : k ≠ k' → GetSetting (PutSetting db k v) k' = GetSetting db k'.
Proof. intros Hk. by apply lookup_insert_ne. Qed.

(** ** Signing *)

(** What a record is made from. *)
Record Spec := mkSpec { sp_kind : Z; sp_tags : option (list (list string)); sp_content : string }.
Definition spec_d (s : Spec) : string := if IsAddressable (sp_kind s) then tag_first (default [] (sp_tags s)) "d" else "".

(** What the projections read besides the store. *)
Definition same_identity (t t' : Tenant) : Prop :=
  t_policy t' = t_policy t ∧ s_db (t_service t') = s_db (t_service t) ∧ s_owner (t_service t') = s_owner (t_service t) ∧
  t_name t' = t_name t ∧ t_publicURL t' = t_publicURL t ∧ t_secret t' = t_secret t ∧ t_pins t' = t_pins t ∧ t_maintenance t' = t_maintenance t.
#[export] Instance same_identity_po : PreOrder same_identity.
Proof. split; [by intros t|]. intros a b c (? & ? & ? & ? & ? & ? & ? & ?) (? & ? & ? & ? & ? & ? & ? & ?). split_and!; congruence. Qed.

Section Clock.
Context `{NostrCrypto} `{GoUnicode} `{GoFTS} `{NostrKeys}.
Context `{GoJson} `{GoJsonDecoder} `{Regexp2} `{GoPrint} `{TenantParts} `{Nip44}.

(** The row is of the relay's record at the address of the specification. *)
Definition record_at (t : Tenant) (s : Spec) (r : EventRow) : bool := at_address (relay_key t) (sp_kind s) (spec_d s) r.
(** The store holds exactly the specified record at its address. *)
Definition current (t : Tenant) (s : Spec) : Prop :=
  ∃ r, r ∈ events (t_store t) ∧ record_at t s r = true ∧ etags (r_raw r) = default [] (sp_tags s) ∧ Content (r_raw r) = sp_content s ∧
    ∀ r', r' ∈ events (t_store t) → record_at t s r' = true → r' = r.

(** The clock reads at most [b], and no record of the relay is later. *)
Definition Clocked (b : Z) (t : Tenant) : Prop :=
  ∃ prev, previous_time (t_store t) = Ok prev ∧ 0 ≤ prev ≤ b ∧ ∀ r, r ∈ events (t_store t) → r_pubkey r = relay_key t → r_created r ≤ prev.

Lemma same_identity_key t t' : same_identity t t' → relay_key t' = relay_key t.
Proof. intros (_ & _ & _ & _ & _ & E & _). unfold relay_key. by rewrite E. Qed.

Lemma previous_time_put db n : int64_min ≤ n ≤ int64_max → previous_time (PutSetting db "records.clock" (Itoa n)) = Ok n.
Proof. intros Hn. unfold previous_time. rewrite setting_put_same, ParseInt_Itoa by done. done. Qed.

Lemma Sign_fields e0 secret e : Sign e0 secret = Ok e →
  Kind e = Kind e0 ∧ CreatedAt e = CreatedAt e0 ∧ etags e = etags e0 ∧ Content e = Content e0 ∧
  (match PublicKey secret with Ok pk => pk | Err _ => "" end) = PubKey e.
Proof.
  intros (sk & Hs & Hg)%result_bind_Ok. unfold PublicKey. rewrite Hs. cbn. cbv zeta in Hg. destruct (schnorr_sign _ _); [|done]. by injection Hg as <-.
Qed.

(** A signed record is later than everything before it. *)
Lemma signedOnly_Ok b kind tags content now t t' e :
  Clocked b t → now ≤ b → b < int64_max → signedOnly kind tags content now t = (t', Ok e) →
  same_identity t t' ∧ events (t_store t') = events (t_store t) ∧ PubKey e = relay_key t ∧ Kind e = kind ∧
  etags e = default [] tags ∧ Content e = content ∧ (0 < CreatedAt e ∧ now ≤ CreatedAt e ≤ b + 1) ∧ previous_time (t_store t') = Ok (CreatedAt e) ∧
  ∀ r, r ∈ events (t_store t) → r_pubkey r = relay_key t → r_created r < CreatedAt e.
Proof.
  intros (prev & Hp & Hb & Hold) Hnow Hmax Hs. unfold signedOnly in Hs.
  destruct (_ ← nextTimestamp _ _; _) as [[db e1]|m] eqn:E; [|done]. injection Hs as <- ->.
  apply result_bind_Ok in E as ([db1 at_] & Hn & E). apply result_bind_Ok in E as (e2 & Hsg & [= -> ->]).
  unfold nextTimestamp in Hn. rewrite Hp in Hn. cbn in Hn. injection Hn as <- Hat.
  apply Sign_fields in Hsg as (Ek & Ec & Et & En & Epk). cbn in Ek, Ec, Et, En.
  assert (at_ = if now <=? prev then prev + 1 else now) as Ha.
  { rewrite <-Hat. destruct (now <=? prev); [|done]. apply wrap64_small. unfold int64_min, int64_max in *. lia. }
  assert (prev < at_ ∧ now ≤ at_ ≤ b + 1) as (Hlt & Hle) by (rewrite Ha; destruct (Z.leb_spec now prev); lia).
  rewrite Ec. split_and!; try done; try lia.
  - cbn. rewrite Hat. apply previous_time_put. unfold int64_min, int64_max in *. lia.
  - intros r Hr Hk. specialize (Hold r Hr Hk). lia.
Qed.

Lemma same_identity_with_store db t : same_identity t (with_service (on_store (λ _, db) (t_service t)) t).
Proof. done. Qed.

Lemma sublist_rows e db rest seq db' : events db' = rest ++ [event_row seq e] → rest `sublist_of` events db →
  ∀ r, r ∈ events db' → r ∈ events db ∨ r = event_row seq e.
Proof.
  intros -> Hs r [Hr|Hr%list_elem_of_singleton]%elem_of_app; [left; by eapply elem_of_sublist|by right].
Qed.

Lemma replaces_kept k : replaces k = true → IsEphemeral k = false ∧ k ≠ 5.
Proof.
  unfold replaces, IsReplaceable, IsAddressable, IsEphemeral, in_range. intros Hr.
  rewrite !orb_true_iff, !andb_true_iff, ?Z.leb_le, ?Z.ltb_lt, ?Z.eqb_eq in Hr.
  split; [|lia]. apply not_true_iff_false. rewrite !andb_true_iff, ?Z.leb_le, ?Z.ltb_lt. lia.
Qed.

Lemma generated_Ok e t t' u : replaces (Kind e) = true → generatedRecord e t = (t', Ok u) →
  same_identity t t' ∧ settings (t_store t') = settings (t_store t) ∧
  ∃ seq, events (t_store t') =
    List.filter (λ r, negb (at_address (PubKey e) (Kind e) (d_of e) r)) (events (t_store t)) ++ [event_row seq e].
Proof.
  intros Hr Hg. destruct (replaces_kept _ Hr) as [Hk Hn5]. unfold generatedRecord in Hg. destruct (admission t); [|done].
  set (opts := mkSaveOptions _ _ _ _) in Hg. pose proof (Save_cases (t_store t) e opts Hk eq_refl) as Hc.
  pose proof (settings_Save (t_store t) e opts eq_refl) as Hst. destruct (Save (t_store t) e opts) as [db res].
  destruct (save_refusal _ _) as [v|m]; [|injection Hc as -> ->; by injection Hg]. injection Hg as <- _. split; [done|]. split; [done|].
  destruct Hc as (db1 & rest & seq & [= -> ->] & He & _ & Hrest). rewrite (Hrest Hn5), Hr in He. by exists seq.
Qed.

(** A record that was signed and stored is the one at its address, and the
    other addresses are as they were. *)
Lemma signed_Ok b s now t t' e :
  replaces (sp_kind s) = true → Clocked b t → now ≤ b → b < int64_max →
  signed (sp_kind s) (sp_tags s) (sp_content s) now t = (t', Ok e) →
  same_identity t t' ∧ Clocked (b + 1) t' ∧ current t' s ∧
  ∀ s', (sp_kind s', spec_d s') ≠ (sp_kind s, spec_d s) → current t s' → current t' s'.
Proof.
  intros Hr Hc Hnow Hb Hs. unfold signed, op_bind in Hs.
  destruct (signedOnly _ _ _ _ t) as [t1 [e1|m]] eqn:E1; [|done]. destruct (generatedRecord e1 t1) as [t2 [u|m]] eqn:E2; [|done].
  injection Hs as -> ->. destruct (signedOnly_Ok _ _ _ _ _ _ _ _ Hc Hnow Hb E1) as (Hid1 & He1 & Hpk & Hk & Ht & Hcn & Hat & Hpt & Hlt).
  rewrite <-Hk in Hr. destruct (generated_Ok _ _ _ _ Hr E2) as (Hid2 & Hst & seq & He2). rewrite He1 in He2.
  pose proof (same_identity_key _ _ Hid1) as Hkey1. pose proof (same_identity_key _ _ Hid2) as Hkey2. rewrite Hkey1 in Hkey2.
  assert (d_of e = spec_d s) as Hd by (unfold d_of, spec_d, Tag; by rewrite Hk, Ht).
  rewrite Hk, Hpk, Hd in He2.
  split; [by etransitivity|]. split; [|split].
  - exists (CreatedAt e). split; [unfold previous_time, GetSetting; by rewrite Hst|].
    destruct Hc as (prev & _ & Hp & _). split; [lia|]. intros r Hr2 Hpub. rewrite He2 in Hr2.
    apply elem_of_app in Hr2 as [[Hr2 _]%elem_of_lfilter|Hr2%list_elem_of_singleton]; [|subst r; cbn; lia].
    rewrite Hkey2 in Hpub. specialize (Hlt r Hr2 Hpub). lia.
  - exists (event_row seq e). unfold record_at. rewrite Hkey2, He2. split_and!.
    + apply elem_of_app. right. apply list_elem_of_here.
    + apply at_address_row. cbn. by rewrite Hpk, Hk, Hd.
    + done.
    + done.
    + intros r' [[_ Hn]%elem_of_lfilter| ->%list_elem_of_singleton]%elem_of_app Ha; [|done]. by rewrite Ha in Hn.
  - intros s' Hne (r & Hr' & Ha & Hts & Hcs & Hu). unfold record_at in Ha, Hu. exists r. unfold record_at. rewrite Hkey2, He2. split_and!; try done.
    + apply elem_of_app. left. apply elem_of_lfilter. split; [done|]. apply negb_true_iff, not_true_iff_false. intros Ho.
      apply Hne. apply at_address_row in Ha as (_ & <- & <-), Ho as (_ & <- & <-). done.
    + intros r' [[Hr'' _]%elem_of_lfilter| ->%list_elem_of_singleton]%elem_of_app Ha'; [by apply Hu|].
      exfalso. apply Hne. apply at_address_row in Ha' as (_ & <- & <-). cbn. by rewrite Hk, Hd.
Qed.

(** Why a record may not be signed and stored.  Its age is no reason. *)
Inductive cannot_record (t : Tenant) (s : Spec) (m : string) : Prop :=
| cannot_admit : admission t = Err m → cannot_record t s m
| cannot_sign at_ : Sign (mkEvent "" "" at_ (sp_kind s) (sp_tags s) (sp_content s) "") (t_secret t) = Err m → cannot_record t s m
| cannot_save at_ e : Sign (mkEvent "" "" at_ (sp_kind s) (sp_tags s) (sp_content s) "") (t_secret t) = Ok e →
    first_err [guard_err (holds_id (t_store t) (ID e)) ErrDuplicate;
      guard_err (match vanished (t_store t) !! PubKey e with Some u => CreatedAt e <=? u | None => false end) ErrVanished;
      checkDeleted (t_store t) e] = Err m → cannot_record t s m.

Lemma generated_Err e t t' m : replaces (Kind e) = true →
  (∀ r, r ∈ events (t_store t) → r_pubkey r = PubKey e → r_created r < CreatedAt e) → generatedRecord e t = (t', Err m) →
  admission t = Err m ∨ first_err [guard_err (holds_id (t_store t) (ID e)) ErrDuplicate;
      guard_err (match vanished (t_store t) !! PubKey e with Some u => CreatedAt e <=? u | None => false end) ErrVanished;
      checkDeleted (t_store t) e] = Err m.
Proof.
  intros Hr Hlt Hg. destruct (replaces_kept _ Hr) as [Hk _]. unfold generatedRecord in Hg. destruct (admission t) as [u|m']; [|left; congruence].
  right. set (opts := mkSaveOptions _ _ _ _) in Hg. pose proof (Save_cases (t_store t) e opts Hk eq_refl) as Hc.
  destruct (Save (t_store t) e opts) as [db res]. injection Hg as _ Hg.
  assert (existsb (newer_row e) (List.filter (at_address (PubKey e) (Kind e) (d_of e)) (events (t_store t))) = false) as Hold.
  { apply existsb_elem_false. intros r [Hin Ha]%elem_of_lfilter. apply at_address_row in Ha as (Hp & _). specialize (Hlt r Hin Hp).
    unfold newer_row. rewrite (proj2 (Z.ltb_ge _ _)) by lia. by rewrite (proj2 (Z.eqb_neq _ _)) by lia. }
  unfold save_refusal in Hc. rewrite Hold, andb_false_r in Hc. cbn [first_err guard_err] in Hc |- *.
  destruct (guard_err (holds_id _ _) _) as [[]|m1]; [|injection Hc as _ ->; exact Hg].
  destruct (guard_err (match _ with Some u => _ | None => _ end) _) as [[]|m1]; [|injection Hc as _ ->; exact Hg].
  destruct (checkDeleted _ _) as [[]|m1]; [|injection Hc as _ ->; exact Hg].
  destruct Hc as (db1 & rest & seq & [= -> ->] & _). done.
Qed.

Lemma signed_Err b s now t t' m :
  replaces (sp_kind s) = true → Clocked b t → now ≤ b → b < int64_max →
  signed (sp_kind s) (sp_tags s) (sp_content s) now t = (t', Err m) →
  ∃ t1, same_identity t t1 ∧ cannot_record t1 s m.
Proof.
  intros Hr Hc Hnow Hb Hs. unfold signed, op_bind in Hs.
  destruct (signedOnly _ _ _ _ t) as [t1 [e1|m1]] eqn:E1.
  - destruct (generatedRecord e1 t1) as [t2 [u|m1]] eqn:E2; [done|]. injection Hs as _ ->.
    destruct (signedOnly_Ok _ _ _ _ _ _ _ _ Hc Hnow Hb E1) as (Hid & He & Hpk & Hk & _ & _ & _ & _ & Hlt).
    exists t1. split; [done|]. rewrite <-Hk in Hr. apply generated_Err in E2 as [?|?]; [by apply cannot_admit| |done|].
    + unfold signedOnly in E1. destruct (_ ← nextTimestamp _ _; _) as [[db e2]|] eqn:E; [|done]. injection E1 as <- ->.
      apply result_bind_Ok in E as ([db1 at_] & _ & E). apply result_bind_Ok in E as (e2 & Hsg & [= _ ->]).
      by apply (cannot_save _ _ _ at_ e1).
    + intros r Hin Hp. rewrite He in Hin. apply Hlt; [done|]. by rewrite Hp, Hpk.
  - injection Hs as _ ->. exists t. split; [done|]. destruct Hc as (prev & Hp & _). unfold signedOnly, nextTimestamp in E1. rewrite Hp in E1.
    cbn [mbind result_bind mret result_ret] in E1. destruct (Sign _ _) as [e|m2] eqn:Es; [done|]. injection E1 as _ ->. by eapply cannot_sign.
Qed.

(** ** Projections *)

Definition spec_address (s : Spec) : Z * string := (sp_kind s, spec_d s).

Inductive signed_run (now : Z) : list Spec → Tenant → Tenant → Prop :=
| run_nil t : signed_run now [] t t
| run_cons s l t t1 t2 e :
    signed (sp_kind s) (sp_tags s) (sp_content s) now t = (t1, Ok e) → signed_run now l t1 t2 → signed_run now (s :: l) t t2.

Lemma signed_run_app now l l' t t1 t2 : signed_run now l t t1 → signed_run now l' t1 t2 → signed_run now (l ++ l') t t2.
Proof. induction 1; [done|]. intros Hr. econstructor; [done|auto]. Qed.

(** After a run the store holds each of its records, if none of a later one
    has its address, and what it held elsewhere. *)
Lemma run_current now l t t' b :
  signed_run now l t t' → Forall (λ s, replaces (sp_kind s) = true) l → NoDup (spec_address <$> l) →
  Clocked b t → now ≤ b → b + Z.of_nat (List.length l) ≤ int64_max →
  same_identity t t' ∧ Clocked (b + Z.of_nat (List.length l)) t' ∧
  (∀ s, s ∈ l → current t' s) ∧ ∀ s, spec_address s ∉ spec_address <$> l → current t s → current t' s.
Proof.
  intros Hr. revert b. induction Hr as [t|s l t t1 t2 e Hs _ IH]; intros b Hf Hnd Hc Hnow Hb.
  { cbn. rewrite Z.add_0_r. split_and!; [done|done|by intros s ?%not_elem_of_nil|done]. }
  apply Forall_cons in Hf as [Hrs Hf]. apply NoDup_cons in Hnd as [Hnew Hnd]. cbn [List.length] in *.
  destruct (signed_Ok _ _ _ _ _ _ Hrs Hc Hnow ltac:(lia) Hs) as (Hid & Hc1 & Hcur & Hkeep).
  destruct (IH (b + 1) Hf Hnd Hc1) as (Hid2 & Hc2 & Hcur2 & Hkeep2); [lia|lia|].
  split_and!; [by etransitivity|by replace (b + Z.of_nat (S (List.length l))) with (b + 1 + Z.of_nat (List.length l)) by lia| |].
  - intros s' [->|Hin]%elem_of_cons; [by apply Hkeep2|by apply Hcur2].
  - intros s' Hn Hcs. rewrite fmap_cons, not_elem_of_cons in Hn. destruct Hn as [Hn1 Hn2]. apply Hkeep2; [done|]. by apply Hkeep.
Qed.

Lemma op_each_run {A} (f : A → Op Event) (sp : A → Spec) now l :
  (∀ a t t' e, f a t = (t', Ok e) → signed (sp_kind (sp a)) (sp_tags (sp a)) (sp_content (sp a)) now t = (t', Ok e)) →
  ∀ t t' out, op_each f l t = (t', Ok out) → signed_run now (sp <$> l) t t'.
Proof.
  intros Hf. induction l as [|a l IH]; intros t t' out Ho; cbn in Ho; [injection Ho as <- _; constructor|].
  unfold op_bind in Ho. destruct (f a t) as [t1 [e|m]] eqn:E; [|done]. destruct (op_each f l t1) as [t2 [es|m]] eqn:E2; [|done].
  injection Ho as <- _. econstructor; [by apply Hf|by eapply IH].
Qed.

(** A run that stops at a record with an error. *)
Definition signed_stop (now : Z) (l : list Spec) (t : Tenant) (m : string) : Prop :=
  ∃ l1 s l2 t1 t', l = l1 ++ s :: l2 ∧ signed_run now l1 t t1 ∧ signed (sp_kind s) (sp_tags s) (sp_content s) now t1 = (t', Err m).

Lemma signed_stop_later now l l' t t1 m : signed_run now l t t1 → signed_stop now l' t1 m → signed_stop now (l ++ l') t m.
Proof.
  intros Hr (l1 & s & l2 & t2 & t' & -> & Hr2 & Hs). exists (l ++ l1), s, l2, t2, t'. rewrite <-app_assoc. split_and!; [done|by eapply signed_run_app|done].
Qed.
Lemma signed_stop_app now l l' t m : signed_stop now l t m → signed_stop now (l ++ l') t m.
Proof. intros (l1 & s & l2 & t2 & t' & -> & Hr & Hs). exists l1, s, (l2 ++ l'), t2, t'. by rewrite <-app_assoc. Qed.
Lemma signed_stop_head now s l t t' m : signed (sp_kind s) (sp_tags s) (sp_content s) now t = (t', Err m) → signed_stop now (s :: l) t m.
Proof. intros Hs. exists [], s, l, t, t'. split_and!; [done|constructor|done]. Qed.

(** What stops a run is no matter of age. *)
Lemma stop_cannot now l t m b :
  signed_stop now l t m → Forall (λ s, replaces (sp_kind s) = true) l → NoDup (spec_address <$> l) →
  Clocked b t → now ≤ b → b + Z.of_nat (List.length l) ≤ int64_max →
  ∃ t1 s, same_identity t t1 ∧ s ∈ l ∧ cannot_record t1 s m.
Proof.
  intros (l1 & s & l2 & t1 & t' & -> & Hr & Hs) Hf Hnd Hc Hnow Hb. rewrite length_app in Hb. cbn [List.length] in Hb.
  apply Forall_app in Hf as [Hf1 Hf2]. apply Forall_cons in Hf2 as [Hfs _]. rewrite fmap_app in Hnd. apply NoDup_app in Hnd as [Hnd _].
  destruct (run_current _ _ _ _ b Hr Hf1 Hnd Hc Hnow) as (Hid & Hc1 & _); [lia|].
  destruct (signed_Err (b + Z.of_nat (List.length l1)) s now t1 t' m Hfs Hc1) as (t2 & Hid2 & Hcan); [lia|lia|done|].
  exists t2, s. split_and!; [by etransitivity|apply elem_of_app; right; apply list_elem_of_here|done].
Qed.

Lemma op_each_stop {A} (f : A → Op Event) (sp : A → Spec) now l :
  (∀ a t t' r, f a t = (t', r) → signed (sp_kind (sp a)) (sp_tags (sp a)) (sp_content (sp a)) now t = (t', r)) →
  ∀ t t' m, op_each f l t = (t', Err m) → signed_stop now (sp <$> l) t m.
Proof.
  intros Hf. induction l as [|a l IH]; intros t t' m Ho; cbn in Ho; [done|].
  unfold op_bind in Ho. destruct (f a t) as [t1 [e|m1]] eqn:E; [|injection Ho as <- ->; by eapply signed_stop_head, Hf].
  destruct (op_each f l t1) as [t2 [es|m1]] eqn:E2; [done|]. injection Ho as <- ->. rewrite fmap_cons.
  apply (signed_stop_later now [sp a] _ t t1); [econstructor; [by apply Hf|constructor]|by eapply IH].
Qed.

Definition no_spec : Spec := mkSpec 0 None "".
Definition profile_spec (t : Tenant) : Spec :=
  let p := t_policy t in
  mkSpec KIND_PROFILE None (json_object [("about", json_html (P_Description p)); ("name", json_html (Policy.P_Name p)); ("picture", json_html (P_Icon p))]).
Definition discovery_spec (t : Tenant) : Spec :=
  let p := t_policy t in
  mkSpec KIND_RELAY_DISCOVERY
    (Some ([["d"; RelayURL t]] ++ (if String.eqb (Reads p) "open" then [] else [["r"; Reads p]])
           ++ (if String.eqb (Writes p) "open" then [] else [["writes"; Writes p]]))) (RelayURL t).
Definition roster_spec (t : Tenant) : Spec := mkSpec KIND_ROSTER (Some (roster_tags t)) "".
Definition identity_specs (t : Tenant) : list Spec :=
  [profile_spec t; discovery_spec t; roster_spec t; mkSpec KIND_GROUP_METADATA (Some (groupMetaTags (group t) (t_policy t))) ""].
Definition group_specs (t : Tenant) : list Spec := (λ v : Z * list (list string), mkSpec v.1 (Some v.2) "") <$> group_vals t.
Definition role_specs : list Spec := (λ tags, mkSpec KIND_ROLE_DEF (Some tags) "") <$> imap role_def roleOrder.
(** The relay's identity, its members and its roles, as the community has them. *)
Definition membership_specs (t : Tenant) : list Spec := identity_specs t ++ group_specs t ++ role_specs.

Lemma same_identity_specs t t' : same_identity t t' → membership_specs t' = membership_specs t.
Proof.
  intros (E1 & E2 & E3 & E4 & E5 & _). unfold membership_specs, identity_specs, group_specs, group_vals, profile_spec, discovery_spec, roster_spec,
    roster_tags, group_admin_tags, group_member_tags, group, RelayURL, Members, tables. by rewrite E1, E2, E4, E5.
Qed.

Lemma signed_same now s t t' e : signed (sp_kind s) (sp_tags s) (sp_content s) now t = (t', Ok e) → same_identity t t'.
Proof.
  unfold signed, op_bind. destruct (signedOnly _ _ _ _ t) as [t1 [e1|m]] eqn:E1; [|done].
  destruct (generatedRecord e1 t1) as [t2 [u|m]] eqn:E2; [|done]. intros [= <- _].
  transitivity t1; [unfold signedOnly in E1; destruct (_ ← nextTimestamp _ _; _) as [[db e2]|m]; [|done]; by injection E1 as <- _|].
  unfold generatedRecord in E2. destruct (admission t1); [|by injection E2 as <-]. destruct (Save _ _ _) as [db r]. by injection E2 as <- _.
Qed.
Lemma run_same now l t t' : signed_run now l t t' → same_identity t t'.
Proof. induction 1 as [|s l t t1 t2 e Hs _ IH]; [reflexivity|]. transitivity t1; [by eapply signed_same|done]. Qed.

(** A function that signs what it reads from the tenant. *)
Definition signs (now : Z) (fn : Z → Op Event) (sp : Tenant → Spec) : Prop :=
  (∀ t, fn now t = signed (sp_kind (sp t)) (sp_tags (sp t)) (sp_content (sp t)) now t) ∧ ∀ t t', same_identity t t' → sp t' = sp t.

Lemma op_each_fns now (l : list ((Z → Op Event) * (Tenant → Spec))) :
  Forall (λ fs, signs now fs.1 fs.2) l →
  ∀ t t' out, op_each (λ fn : Z → Op Event, fn now) l.*1 t = (t', Ok out) → signed_run now ((λ fs, fs.2 t) <$> l) t t'.
Proof.
  induction l as [|[fn sp] l IH]; intros Hl t t' out Ho; cbn in Ho; [injection Ho as <- _; constructor|].
  apply Forall_cons in Hl as [[Hf Hsame] Hl]. unfold op_bind in Ho. cbn in Hf. rewrite Hf in Ho.
  destruct (signed _ _ _ now t) as [t1 [e|m]] eqn:E; [|done].
  destruct (op_each _ _ t1) as [t2 [es|m]] eqn:E2; [|done]. injection Ho as <- _. cbn. econstructor; [exact E|].
  pose proof (signed_same _ _ _ _ _ E) as Hid. rewrite (list_fmap_ext _ (λ fs : (Z → Op Event) * (Tenant → Spec), fs.2 t1)).
  - by eapply IH.
  - intros i fs Hfs. rewrite Forall_lookup in Hl. symmetry. by apply (Hl _ _ Hfs).
Qed.

Lemma op_each_fns_stop now (l : list ((Z → Op Event) * (Tenant → Spec))) :
  Forall (λ fs, signs now fs.1 fs.2) l →
  ∀ t t' m, op_each (λ fn : Z → Op Event, fn now) l.*1 t = (t', Err m) → signed_stop now ((λ fs, fs.2 t) <$> l) t m.
Proof.
  induction l as [|[fn sp] l IH]; intros Hl t t' m Ho; cbn in Ho; [done|].
  apply Forall_cons in Hl as [[Hf Hsame] Hl]. unfold op_bind in Ho. cbn in Hf. rewrite Hf in Ho. rewrite fmap_cons. cbn [snd].
  destruct (signed _ _ _ now t) as [t1 [e|m1]] eqn:E; [|injection Ho as <- ->; by eapply signed_stop_head].
  destruct (op_each _ _ t1) as [t2 [es|m1]] eqn:E2; [done|]. injection Ho as <- ->.
  apply (signed_stop_later now [sp t] _ t t1); [econstructor; [exact E|constructor]|].
  pose proof (signed_same _ _ _ _ _ E) as Hid. rewrite (list_fmap_ext _ (λ fs : (Z → Op Event) * (Tenant → Spec), fs.2 t1)).
  - by eapply IH.
  - intros i fs Hfs. rewrite Forall_lookup in Hl. symmetry. by apply (Hl _ _ Hfs).
Qed.

Ltac distinct_addresses :=
  repeat (apply NoDup_cons; split;
    [rewrite ?not_elem_of_cons; repeat split; try (let E := fresh in intros E; discriminate E); apply not_elem_of_nil|]); apply NoDup_nil_2.

(** The records of one publication have an address each. *)
Lemma identity_addresses t : NoDup (spec_address <$> identity_specs t).
Proof. cbn. distinct_addresses. Qed.
Lemma group_addresses t : NoDup (spec_address <$> (group_specs t ++ role_specs)).
Proof. cbn. distinct_addresses. Qed.

Lemma groupRecords_run now t t' out : groupRecords now t = (t', Ok out) → signed_run now (group_specs t ++ role_specs) t t'.
Proof.
  unfold groupRecords, op_bind. destruct (op_each _ (group_vals t) t) as [t1 [o1|m]] eqn:E1; [|done].
  destruct (op_each _ (imap role_def roleOrder) t1) as [t2 [o2|m]] eqn:E2; [|done]. intros [= <- _].
  apply (signed_run_app now _ _ t t1 t2).
  - eapply (op_each_run _ (λ v : Z * list (list string), mkSpec v.1 (Some v.2) "")); [|exact E1]. done.
  - eapply (op_each_run _ (λ tags, mkSpec KIND_ROLE_DEF (Some tags) "")); [|exact E2]. done.
Qed.

Lemma groupRecords_stop now t t' m : groupRecords now t = (t', Err m) → signed_stop now (group_specs t ++ role_specs) t m.
Proof.
  unfold groupRecords, op_bind. destruct (op_each _ (group_vals t) t) as [t1 [o1|m1]] eqn:E1.
  - destruct (op_each _ (imap role_def roleOrder) t1) as [t2 [o2|m2]] eqn:E2; [done|]. intros [= _ ->].
    apply (signed_stop_later now _ _ t t1).
    + eapply (op_each_run _ (λ v : Z * list (list string), mkSpec v.1 (Some v.2) "")); [|exact E1]. done.
    + eapply (op_each_stop _ (λ tags, mkSpec KIND_ROLE_DEF (Some tags) "")); [|exact E2]. done.
  - intros [= _ ->]. apply signed_stop_app. eapply (op_each_stop _ (λ v : Z * list (list string), mkSpec v.1 (Some v.2) "")); [|exact E1]. done.
Qed.

(** The functions of [PublishMembership] and what each signs. *)
Definition identity_functions : list ((Z → Op Event) * (Tenant → Spec)) :=
  [(profile, profile_spec); (discovery, discovery_spec); (rosterRecord, roster_spec);
   (groupState, λ t, mkSpec KIND_GROUP_METADATA (Some (groupMetaTags (group t) (t_policy t))) "")].
Lemma identity_functions_sign now : Forall (λ fs, signs now fs.1 fs.2) identity_functions.
Proof.
  unfold identity_functions. rewrite !Forall_cons. split_and!; [..|apply Forall_nil_2]; (split; [done|]); intros a b Hid;
    apply same_identity_specs in Hid; cbn [fst snd].
  - exact (f_equal (λ l, nth 0 l no_spec) Hid).
  - exact (f_equal (λ l, nth 1 l no_spec) Hid).
  - exact (f_equal (λ l, nth 2 l no_spec) Hid).
  - exact (f_equal (λ l, nth 3 l no_spec) Hid).
Qed.

Lemma PublishMembership_run now t t' out : PublishMembership now t = (t', Ok out) →
  ∃ t1, signed_run now (identity_specs t) t t1 ∧ signed_run now (group_specs t1 ++ role_specs) t1 t'.
Proof.
  unfold PublishMembership, op_bind. destruct (op_each _ _ t) as [t1 [o1|m]] eqn:E1; [|done].
  destruct (groupRecords now t1) as [t2 [o2|m]] eqn:E2; [|done]. intros [= <- _]. exists t1. split; [|by eapply groupRecords_run].
  exact (op_each_fns now identity_functions (identity_functions_sign now) _ _ _ E1).
Qed.

Lemma PublishMembership_stop now t t' m : PublishMembership now t = (t', Err m) →
  signed_stop now (identity_specs t) t m ∨
  ∃ t1, signed_run now (identity_specs t) t t1 ∧ signed_stop now (group_specs t1 ++ role_specs) t1 m.
Proof.
  unfold PublishMembership, op_bind. destruct (op_each _ _ t) as [t1 [o1|m1]] eqn:E1.
  - destruct (groupRecords now t1) as [t2 [o2|m2]] eqn:E2; [done|]. intros [= _ ->]. right. exists t1.
    split; [exact (op_each_fns now identity_functions (identity_functions_sign now) _ _ _ E1)|by eapply groupRecords_stop].
  - intros [= _ ->]. left. exact (op_each_fns_stop now identity_functions (identity_functions_sign now) _ _ _ E1).
Qed.

Lemma same_identity_group t t' : same_identity t t' → group_specs t' = group_specs t.
Proof. intros Hid. exact (f_equal (λ l, take 4 (drop 4 l)) (same_identity_specs _ _ Hid)). Qed.

(** A publication that gets through leaves every record current. *)
Lemma published_current now b t t' out :
  Clocked b t → now ≤ b → b + 12 ≤ int64_max → PublishMembership now t = (t', Ok out) →
  Clocked (b + 12) t' ∧ same_identity t t' ∧ ∀ s, s ∈ membership_specs t → current t' s.
Proof.
  intros Hc Hnow Hb (t1 & R1 & R2)%PublishMembership_run.
  destruct (run_current _ _ _ _ b R1) as (Hid1 & Hc1 & Hcur1 & _);
    [by repeat constructor|apply identity_addresses|done|done|cbn; lia|].
  destruct (run_current _ _ _ _ (b + 4) R2) as (Hid2 & Hc2 & Hcur2 & Hkeep2);
    [by repeat constructor|apply group_addresses|done|lia|cbn; lia|].
  split; [by replace (b + 12) with (b + 4 + 8) by lia|]. split; [by etransitivity|].
  pose proof (same_identity_group _ _ Hid1) as Eg.
  intros s [Hs|Hs]%elem_of_app; [|apply Hcur2; by rewrite Eg].
  destruct (decide (spec_address s ∈ spec_address <$> (group_specs t1 ++ role_specs))) as [Hin|Hn]; [|by apply Hkeep2, Hcur1].
  rewrite Eg in Hin. repeat (apply elem_of_cons in Hs as [->|Hs]); try (by apply not_elem_of_nil in Hs).
  1-3: exfalso; repeat (apply elem_of_cons in Hin as [Hin|Hin]; [discriminate|]); by apply not_elem_of_nil in Hin.
  apply Hcur2. rewrite Eg. apply list_elem_of_here.
Qed.

(** One that fails could not sign or store a record, for another reason than
    its age. *)
Lemma published_stop now b t t' m :
  Clocked b t → now ≤ b → b + 12 ≤ int64_max → PublishMembership now t = (t', Err m) →
  ∃ t1 s, same_identity t t1 ∧ s ∈ membership_specs t ∧ cannot_record t1 s m.
Proof.
  intros Hc Hnow Hb [Hs|(t1 & R1 & Hs)]%PublishMembership_stop.
  - destruct (stop_cannot _ _ _ _ b Hs) as (t2 & s & Hid & Hin & Hcan);
      [by repeat constructor|apply identity_addresses|done|done|cbn; lia|].
    exists t2, s. split_and!; [done|apply elem_of_app; by left|done].
  - destruct (run_current _ _ _ _ b R1) as (Hid1 & Hc1 & _ & _);
      [by repeat constructor|apply identity_addresses|done|done|cbn; lia|].
    destruct (stop_cannot _ _ _ _ (b + 4) Hs) as (t2 & s & Hid & Hin & Hcan);
      [by repeat constructor|apply group_addresses|done|lia|cbn; lia|].
    rewrite (same_identity_group _ _ Hid1) in Hin. exists t2, s. split_and!; [by etransitivity|apply elem_of_app; by right|done].
Qed.

(** C16: suppose the clock of the records reads a number, no record of the relay is
    dated after it, and it and the time are twelve seconds from the end of the 64-bit
    integers.  When the relay has published its membership, this holds again, and the
    store holds, at every address of the projection, exactly the record of the
    community as it is now: its profile, its roster with every member's role, the
    group's metadata, admins and members, and the roles; no older version is left.  And
    no record is refused as out of date, also when two of one second share an address:
    a publication that fails failed because the tenant admits no work, a record could
    not be signed, or its identifier is stored already or was deleted, or the relay's
    key has vanished. *)
Theorem membership_projection_exact now b t :
  Clocked b t → now ≤ b → b + 12 ≤ int64_max →
  match PublishMembership now t with
  | (t', Ok out) => Clocked (b + 12) t' ∧ same_identity t t' ∧ ∀ s, s ∈ membership_specs t → current t' s
  | (t', Err m) => ∃ t1 s, same_identity t t1 ∧ s ∈ membership_specs t ∧ cannot_record t1 s m
  end.
Proof.
  intros Hc Hnow Hb. destruct (PublishMembership now t) as [t' [out|m]] eqn:E; [by eapply published_current|by eapply published_stop].
Qed.
End Clock.
