(* ===== verification/ViewsProps.v ===== *)
(** * internal/records: the schedule of views settles

    After a pass over the stored views none is due: what [NextDue] names lies
    in the future, so the scheduler sleeps. *)

From S2P Require Import Prelude GoLib GoCodec GoLemmas GoStrings Nostr NostrProps Filter SyncProtocol Store.
From S2P Require Import StoreQuery StoreAdmin StoreInv StoreProps StoreSave StoreMaint WorkProps Maintenance Policy Sites Roster Agents Community Membership Rooms.
From S2P Require Import GrantRequests CommunityExec CommunityProps Auth Replication ReplicationProps Gates GatesProps Tenant TenantWrite TenantProps TenantWriteProps TenantPrivate.
From S2P Require Import Records Views Succession RecordsProps.

(** ** Settings *)

(** [json.Unmarshal] of an integer's text. *)
Class GoJsonInts `{GoJson} : Prop := json_int : ∀ n, json_parse (Itoa n) = Some (JNum (Itoa n)).

Section Settings.
Context `{GoJson}.

Lemma int_setting_put `{!GoJsonInts} db k n : int64_min ≤ n ≤ int64_max → int_setting (PutSetting db k (Itoa n)) k = Ok n.
Proof. intros Hn. unfold int_setting. rewrite setting_put_same, json_int. unfold unmarshal_int. by rewrite ParseInt_Itoa. Qed.
Lemma int_setting_other db k k' v : k ≠ k' → int_setting (PutSetting db k v) k' = int_setting db k'.
Proof. intros Hk. unfold int_setting. by rewrite setting_put_other. Qed.
Lemma int_setting_same db db' k : GetSetting db' k = GetSetting db k → int_setting db' k = int_setting db k.
Proof. intros E. unfold int_setting. by rewrite E. Qed.
End Settings.

(** ** The seven stored views and their keys *)

Definition stored_views : list string := ["profiles"; "relays"; "calendar"; "moderation"; "articles"; "podcasts"; "zaps"].

Definition keys_apart (n n' : string) : bool :=
  negb (contains [at_key n; dirty_key n; fingerprint_key n] "records.clock")
  && negb (contains [dirty_key n; fingerprint_key n] (at_key n)) && negb (contains [at_key n; fingerprint_key n] (dirty_key n))
  && (String.eqb n n' || negb (contains [at_key n; dirty_key n; fingerprint_key n] (at_key n') || contains [at_key n; dirty_key n; fingerprint_key n] (dirty_key n'))).

Lemma keys_are_apart n n' : n ∈ stored_views → n' ∈ stored_views → keys_apart n n' = true.
Proof.
  assert (forallb (λ n, forallb (keys_apart n) stored_views) stored_views = true) as Ha by (vm_compute; reflexivity).
  rewrite forallb_forall in Ha. intros Hn Hn'. apply list_elem_of_In in Hn, Hn'. specialize (Ha n Hn).
  rewrite forallb_forall in Ha. by apply Ha.
Qed.

Lemma not_contains l x : contains l x = false → ∀ y, y ∈ l → y ≠ x.
Proof. intros Hc y Hy ->. apply not_true_iff_false in Hc. by rewrite contains_spec in Hc. Qed.

(** The settings of the names but [n], and the policy. *)
Definition elsewhere (n : string) (t t' : Tenant) : Prop :=
  t_policy t' = t_policy t ∧ ∀ n', n' ∈ stored_views → n' ≠ n →
    GetSetting (t_store t') (at_key n') = GetSetting (t_store t) (at_key n') ∧
    GetSetting (t_store t') (dirty_key n') = GetSetting (t_store t) (dirty_key n').
#[export] Instance elsewhere_po n : PreOrder (elsewhere n).
Proof.
  split; [by intros t|]. intros a b c [P1 H1] [P2 H2]. split; [congruence|]. intros n' Hn Hne.
  destruct (H1 n' Hn Hne), (H2 n' Hn Hne). split; congruence.
Qed.

Section Schedule.
Context `{NostrCrypto} `{GoUnicode} `{GoFTS} `{GoURLs} `{NostrKeys}.
Context `{GoJson} `{GoJsonDecoder} `{Regexp2} `{GoPrint} `{TenantParts} `{Nip44} `{ViewFolds} `{!GoJsonInts}.

Lemma signedOnly_settings kind tags content now t key : key ≠ "records.clock" →
  t_policy (signedOnly kind tags content now t).1 = t_policy t ∧
  GetSetting (t_store (signedOnly kind tags content now t).1) key = GetSetting (t_store t) key.
Proof.
  intros Hk. unfold signedOnly. destruct (_ ← nextTimestamp _ _; _) as [[db e1]|m] eqn:E; [|done]. split; [done|]. cbn.
  apply result_bind_Ok in E as ([db1 at_] & Hn & E). apply result_bind_Ok in E as (e2 & _ & [= -> _]).
  apply result_bind_Ok in Hn as (prev & _ & Hn). injection Hn as <- _. by apply setting_put_other.
Qed.

Lemma generated_settings e t :
  t_policy (generatedRecord e t).1 = t_policy t ∧ settings (t_store (generatedRecord e t).1) = settings (t_store t).
Proof.
  unfold generatedRecord. destruct (admission t); [|done]. set (opts := mkSaveOptions _ _ _ _).
  pose proof (settings_Save (t_store t) e opts eq_refl) as Hs. by destruct (Save (t_store t) e opts).
Qed.

Lemma signed_settings kind tags content now t key : key ≠ "records.clock" →
  t_policy (signed kind tags content now t).1 = t_policy t ∧
  GetSetting (t_store (signed kind tags content now t).1) key = GetSetting (t_store t) key.
Proof.
  intros Hk. unfold signed, op_bind. destruct (signedOnly_settings kind tags content now t key Hk) as [P S].
  destruct (signedOnly _ _ _ _ t) as [t1 [e1|m]]; [|done]. cbn in P, S. destruct (generated_settings e1 t1) as [P2 S2].
  destruct (generatedRecord e1 t1) as [t2 [u|m]]; cbn in *; unfold GetSetting in *; rewrite S2; split; congruence.
Qed.

Lemma view_settings name caller now t key : key ≠ "records.clock" →
  t_policy (view name caller now t).1 = t_policy t ∧ GetSetting (t_store (view name caller now t).1) key = GetSetting (t_store t) key.
Proof.
  intros Hk. unfold view. destruct (fold_view _ _ _ _) as [[tags content]|m]; [|done].
  destruct (viewStored _ _); [by apply signed_settings|by apply signedOnly_settings].
Qed.

Lemma put_elsewhere n key v t : n ∈ stored_views → key ∈ [at_key n; dirty_key n; fingerprint_key n] →
  elsewhere n t (with_service (on_store (λ db, PutSetting db key v) (t_service t)) t).
Proof.
  intros Hn Hk. split; [done|]. intros n' Hn' Hne. pose proof (keys_are_apart n n' Hn Hn') as Ha.
  unfold keys_apart in Ha. apply andb_true_iff in Ha as [_ [E|E]%orb_true_iff]; [by apply String.eqb_eq in E|].
  apply negb_true_iff, orb_false_iff in E as [E1 E2]. cbn.
  split; apply setting_put_other; [by apply (not_contains _ _ E1)|by apply (not_contains _ _ E2)].
Qed.

Lemma not_clock n key : n ∈ stored_views → key ∈ [at_key n; dirty_key n; fingerprint_key n] → key ≠ "records.clock".
Proof.
  intros Hn Hk. pose proof (keys_are_apart n n Hn Hn) as Ha. unfold keys_apart in Ha. rewrite !andb_true_iff, !negb_true_iff in Ha.
  destruct Ha as [[[Hc _] _] _]. by apply (not_contains _ _ Hc).
Qed.

Lemma view_elsewhere n name caller now t : elsewhere n t (view name caller now t).1.
Proof.
  split; [by apply (view_settings name caller now t "other")|]. intros n' Hn' _.
  split; apply view_settings, (not_clock n'); done || set_solver.
Qed.

(** ** One view after its turn *)

(** The view is not due at [now]. *)
Definition settled (p : Policy) (db : DB) (now : Z) (name : string) : Prop :=
  ∀ due, view_next p db name now = Ok (Some due) → now < due.

Lemma settled_elsewhere n n' now t t' : n' ∈ stored_views → n' ≠ n → elsewhere n t t' →
  settled (t_policy t) (t_store t) now n' → settled (t_policy t') (t_store t') now n'.
Proof.
  intros Hn' Hne [P E] Hs due. destruct (E n' Hn' Hne) as [E1 E2]. rewrite P. intros Hd. apply Hs. rewrite <-Hd.
  unfold view_next. by rewrite (int_setting_same _ _ _ E1), (int_setting_same _ _ _ E2).
Qed.

Lemma publish_view_elsewhere n dirty now runs t : n ∈ stored_views → elsewhere n t (publish_view n dirty now runs t).1.
Proof.
  intros Hn. unfold publish_view. pose proof (view_elsewhere n n (mkPAccess [] "" false true) now t) as Hv.
  destruct (view _ _ _ t) as [t1 [e|m]]; [|done]. cbn [fst] in *. cbv zeta.
  assert (elsewhere n t (put_int (at_key n) now t1)) as Ha by (etransitivity; [exact Hv|apply put_elsewhere; set_solver]).
  destruct (_ && _); [|done]. cbn [fst]. etransitivity; [exact Ha|apply put_elsewhere; set_solver].
Qed.

Lemma tick_view_elsewhere n now runs t : n ∈ stored_views → elsewhere n t (tick_view n now runs t).1.
Proof.
  intros Hn. unfold tick_view. destruct (negb _); [done|]. destruct (view_due _ _ _ _) as [[[] dirty]|m]; [|done|done].
  destruct (String.eqb _ "hourly"); [|by apply publish_view_elsewhere].
  cbv zeta. destruct (string_setting _ _) as [previous|m]; [|done]. destruct (_ && _).
  - apply put_elsewhere; set_solver.
  - etransitivity; [|by apply publish_view_elsewhere]. apply put_elsewhere; set_solver.
Qed.

Definition sane_time (now : Z) : Prop := 0 < now < 2 ^ 62.

Lemma view_period_cases n : view_period n = 3600 ∨ view_period n = 86400.
Proof. unfold view_period. destruct (_ || _); auto. Qed.

(** The setting of a view that was just published. *)
Lemma settled_published p db now n :
  sane_time now → int_setting db (at_key n) = Ok now →
  (String.eqb (effectiveViewTrigger p n) "write" = true → int_setting db (dirty_key n) = Ok 0) → settled p db now n.
Proof.
  intros Hnow Hat Hdirty due. unfold view_next. destruct (negb (scheduled p n)); [done|]. cbv zeta.
  destruct (String.eqb (effectiveViewTrigger p n) "write").
  - rewrite Hdirty by done. cbn [mbind result_bind negb Z.eqb]. rewrite Hat. cbn [mbind result_bind]. unfold sane_time in Hnow. rewrite (proj2 (Z.eqb_neq now 0)) by lia. intros [= <-]. lia.
  - cbn [mbind result_bind negb Z.eqb mret result_ret]. rewrite Hat. cbn [mbind result_bind]. unfold sane_time in Hnow. rewrite (proj2 (Z.eqb_neq now 0)) by lia. intros [= <-].
    destruct (view_period_cases n) as [-> | ->]; repeat case_match; lia.
Qed.

(** A view that is passed over is not due. *)
Lemma settled_skipped p db now n dirty : scheduled p n = true → view_due p db n now = Ok (false, dirty) → settled p db now n.
Proof.
  intros Hsch (last_ & Hl & Hd)%result_bind_Ok due. unfold view_next. rewrite Hsch. cbn [negb]. cbv zeta in *.
  destruct (String.eqb (effectiveViewTrigger p n) "write") eqn:Ew.
  - apply result_bind_Ok in Hd as (d & Hdd & [= Hb _]). rewrite Hdd. cbn [mbind result_bind].
    destruct (Z.eqb_spec d 0) as [->|Hd0]; cbn [negb andb orb] in *.
    + rewrite Hl. cbn [mbind result_bind]. apply orb_false_iff in Hb as [Hl0%Z.eqb_neq Hb%Z.leb_gt]. apply String.eqb_eq in Ew. rewrite Ew in Hb. cbn in Hb.
      destruct (Z.eqb_spec last_ 0); [done|]. intros [= <-]. destruct (view_period_cases n) as [E|E]; rewrite E in Hb; lia.
    + destruct (10 <=? now - d) eqn:E10; [done|]. apply Z.leb_gt in E10. cbn. intros [= <-]. lia.
  - injection Hd as Hb _. cbn [mbind result_bind negb Z.eqb mret result_ret]. rewrite Hl. cbn [mbind result_bind]. apply orb_false_iff in Hb as [Hb0%Z.eqb_neq Hb%Z.leb_gt].
    destruct (Z.eqb_spec last_ 0); [done|]. intros [= <-]. revert Hb.
    destruct (String.eqb _ "daily") eqn:Ed; [apply String.eqb_eq in Ed; rewrite Ed; cbn; lia|].
    destruct (String.eqb _ "hourly"); lia.
Qed.

Lemma view_due_dirty p db n now b dirty : view_due p db n now = Ok (b, dirty) →
  String.eqb (effectiveViewTrigger p n) "write" = true → int_setting db (dirty_key n) = Ok dirty.
Proof.
  intros (last_ & _ & Hd)%result_bind_Ok Hw. cbv zeta in Hd. rewrite Hw in Hd. apply result_bind_Ok in Hd as (d & Hd & [= _ <-]). done.
Qed.

Lemma own_keys n : n ∈ stored_views → at_key n ≠ dirty_key n ∧ fingerprint_key n ≠ dirty_key n.
Proof.
  intros Hn. pose proof (keys_are_apart n n Hn Hn) as Ha. unfold keys_apart in Ha. rewrite !andb_true_iff, !negb_true_iff in Ha.
  destruct Ha as [[[_ _] Hc] _]. split; apply (not_contains _ _ Hc); set_solver.
Qed.

Lemma settled_after_publish n dirty now runs t t' runs' : n ∈ stored_views → sane_time now →
  (String.eqb (effectiveViewTrigger (t_policy t) n) "write" = true → int_setting (t_store t) (dirty_key n) = Ok dirty) →
  publish_view n dirty now runs t = (t', Ok runs') → settled (t_policy t') (t_store t') now n.
Proof.
  intros Hn Hnow Hd Hp. unfold publish_view in Hp. destruct (own_keys n Hn) as [Hk1 _].
  destruct (view_settings n (mkPAccess [] "" false true) now t (dirty_key n)) as [P S]; [apply (not_clock n); set_solver|].
  destruct (view _ _ _ t) as [t1 [e|m]]; [|done]. cbn [fst] in P, S. cbv zeta in Hp. rewrite <-P in Hd.
  set (write := String.eqb (effectiveViewTrigger (t_policy t) n) "write") in *. injection Hp as <- _.
  assert (int64_min ≤ now ≤ int64_max) as Hr by (unfold sane_time, int64_min, int64_max in *; lia).
  apply settled_published; [done| |].
  - destruct (write && _); cbn; [rewrite int_setting_other by done|]; by apply int_setting_put.
  - intros Hw. destruct (Z.eqb_spec dirty 0) as [->|Hn0]; cbn [negb].
    + rewrite andb_false_r in *. cbn. rewrite int_setting_other by done. rewrite (int_setting_same (t_store t1) (t_store t1)) by done.
      rewrite (int_setting_same _ _ _ S). exact (Hd Hw).
    + assert (write = true) as Ew by (revert Hw; unfold write at 2; rewrite <-P; by destruct (write && negb false)).
      rewrite Ew. cbn. apply (int_setting_put _ _ 0). unfold int64_min, int64_max. lia.
Qed.

Lemma settled_after_turn n now runs t t' runs' : n ∈ stored_views → sane_time now →
  tick_view n now runs t = (t', Ok runs') → settled (t_policy t') (t_store t') now n.
Proof.
  intros Hn Hnow Ht. unfold tick_view in Ht. destruct (scheduled (t_policy t) n) eqn:Hsch; cbn [negb] in Ht.
  2:{ injection Ht as <- _. intros due. unfold view_next. by rewrite Hsch. }
  destruct (view_due _ _ _ _) as [[[] dirty]|m] eqn:Hd; [|by injection Ht as <- _; eapply settled_skipped|done].
  assert (int64_min ≤ now ≤ int64_max) as Hr by (unfold sane_time, int64_min, int64_max in *; lia).
  destruct (String.eqb _ "hourly") eqn:Eh; [|eapply settled_after_publish; [done|done| |exact Ht]; by eapply view_due_dirty].
  assert (String.eqb (effectiveViewTrigger (t_policy t) n) "write" = false) as Enw by (apply String.eqb_eq in Eh; by rewrite Eh).
  cbv zeta in Ht. destruct (string_setting _ _) as [previous|m]; [|done]. destruct (_ && _).
  - injection Ht as <- _. apply settled_published; [done|by apply int_setting_put|]. cbn. by rewrite Enw.
  - eapply settled_after_publish; [done|done| |exact Ht]. cbn. by rewrite Enw.
Qed.

Lemma settled_after_ticks order now runs t t' runs' : order ⊆ stored_views → sane_time now →
  tickViews order now runs t = (t', Ok runs') →
  (∀ n, n ∈ order → settled (t_policy t') (t_store t') now n) ∧
  ∀ n, n ∈ stored_views → n ∉ order → settled (t_policy t) (t_store t) now n → settled (t_policy t') (t_store t') now n.
Proof.
  intros Hsub Hnow. revert runs t. induction order as [|a order IH]; intros runs t Ht; cbn [tickViews] in Ht.
  { injection Ht as <- _. split; [by intros n ?%not_elem_of_nil|done]. }
  assert (a ∈ stored_views) as Ha by (apply Hsub, list_elem_of_here).
  pose proof (tick_view_elsewhere a now runs t Ha) as He.
  destruct (tick_view a now runs t) as [t1 [runs1|m]] eqn:E; [|done]. cbn [fst] in He.
  pose proof (settled_after_turn _ _ _ _ _ _ Ha Hnow E) as Hsa.
  destruct (IH ltac:(set_solver) runs1 t1 Ht) as [I1 I2]. split.
  - intros n [->|Hn]%elem_of_cons; [|by apply I1]. destruct (decide (a ∈ order)); [by apply I1|by apply I2].
  - intros n Hn [Hne Hno]%not_elem_of_cons Hs. apply I2; [done|done|]. by apply (settled_elsewhere a n now t t1).
Qed.

Lemma next_due_settled order p db now next due :
  (∀ n, n ∈ order → settled p db now n) → next = 0 ∨ now < next → next_due order p db now next = Ok due → due = 0 ∨ now < due.
Proof.
  revert next. induction order as [|a order IH]; intros next Hs Hn Hd; cbn in Hd; [injection Hd as <-; done|].
  apply result_bind_Ok in Hd as (o & Ho & Hd).
  assert (∀ n, n ∈ order → settled p db now n) as Hs' by (intros n Hin; apply Hs; by apply list_elem_of_further).
  destruct o as [d|]; [|by apply (IH next)]. assert (now < d) as Hlt by (apply (Hs a); [apply list_elem_of_here|done]).
  destruct (d <=? now) eqn:E; [apply Z.leb_le in E; lia|]. eapply IH; [done| |exact Hd]. right.
  destruct (next =? 0) eqn:E0; cbn; [done|]. destruct (d <? next); [done|]. destruct Hn as [->|?]; [done|lia].
Qed.

(** A pass over the stored views leaves none of them due: whatever the
    triggers, the marks of writes and the order in which the views are taken,
    the next deadline is none or in the future, so the scheduler never spins. *)
Theorem view_schedule_settles order order' now runs t t' runs' due :
  order ⊆ stored_views → order' ⊆ order → sane_time now →
  tickViews order now runs t = (t', Ok runs') → NextDue order' now t' = Ok due → due = 0 ∨ now < due.
Proof.
  intros Hsub Hsub' Hnow Ht Hd. destruct (settled_after_ticks _ _ _ _ _ _ Hsub Hnow Ht) as [Hs _].
  eapply next_due_settled; [|by left|exact Hd]. intros n Hn. by apply Hs, Hsub'.
Qed.
End Schedule.
