(* ===== verification/SuccessionProps.v ===== *)
(** * internal/records: when the relay goes to the heir

    Not before the owner has been away for the shortest delay a plan has had
    since the last sign of the owner and for the thirty days of warning; but then
    it does, if the heir is still a member. *)

From S2P Require Import Prelude GoLib GoCodec GoLemmas GoStrings Nostr NostrProps Filter SyncProtocol Store.
From S2P Require Import StoreQuery StoreAdmin StoreInv StoreProps StoreSave StoreMaint WorkProps Maintenance Policy Sites SitesProps Roster Agents AgentsProps Community Membership Rooms.
From S2P Require Import GrantRequests GrantRequestsProps CommunityExec CommunityProps ConfigProps Auth Replication ReplicationProps Gates GatesProps Tenant TenantWrite TenantProps TenantWriteProps TenantPrivate.
From S2P Require Import Records Views Succession RecordsProps ViewsProps.

(** The settings the plan is watched by. *)
Definition watch_key (k : string) : Prop := k ∈ [owner_seen; warning_key; notify_key].

Lemma watch_key_apart k n : watch_key k →
  at_key n ≠ k ∧ dirty_key n ≠ k ∧ fingerprint_key n ≠ k ∧ "records.clock" ≠ k ∧ "policy" ≠ k ∧ log_key ≠ k.
Proof.
  intros Hk. repeat (apply elem_of_cons in Hk as [->|Hk]); [..|by apply not_elem_of_nil in Hk]; split_and!; intros E; discriminate E.
Qed.

(** The tenant as it was, but for its events, its queue and other settings. *)
Definition quiet (t t' : Tenant) : Prop :=
  same_identity t t' ∧ ∀ k, watch_key k → GetSetting (t_store t') k = GetSetting (t_store t) k.
#[export] Instance quiet_po : PreOrder quiet.
Proof.
  split; [by intros t|]. intros a b c [I1 S1] [I2 S2]. split; [by etransitivity|]. intros k Hk. by rewrite S2, S1.
Qed.

Section Quiet.
Context `{NostrCrypto} `{GoUnicode} `{GoFTS} `{GoURLs} `{NostrKeys}.
Context `{GoJson} `{GoJsonDecoder} `{Regexp2} `{GoPrint} `{TenantParts} `{Nip44} `{ViewFolds}.

Lemma quiet_put key v t : ¬ watch_key key → quiet t (with_service (on_store (λ db, PutSetting db key v) (t_service t)) t).
Proof. intros Hk. split; [done|]. intros k Hw. cbn. apply setting_put_other. by intros ->. Qed.

Lemma quiet_signedOnly kind tags content now t : quiet t (signedOnly kind tags content now t).1.
Proof.
  split.
  - unfold signedOnly. by destruct (_ ← nextTimestamp _ _; _) as [[db e1]|m].
  - intros k Hk. apply signedOnly_settings. intros ->. by destruct (watch_key_apart _ "" Hk) as (_ & _ & _ & ? & _).
Qed.
Lemma quiet_signed kind tags content now t : quiet t (signed kind tags content now t).1.
Proof.
  split.
  - unfold signed, op_bind. destruct (quiet_signedOnly kind tags content now t) as [Hid _].
    destruct (signedOnly _ _ _ _ t) as [t1 [e1|m]]; [|done]. cbn [fst] in Hid. transitivity t1; [done|]. unfold generatedRecord.
    destruct (admission t1); [|done]. destruct (Save _ _ _) as [db [r|m]]; done.
  - intros k Hk. apply signed_settings. intros ->. by destruct (watch_key_apart _ "" Hk) as (_ & _ & _ & ? & _).
Qed.

Lemma not_watched n k : k ∈ [at_key n; dirty_key n; fingerprint_key n] → ¬ watch_key k.
Proof.
  intros Hk Hw. destruct (watch_key_apart k n Hw) as (? & ? & ? & _).
  repeat (apply elem_of_cons in Hk as [->|Hk]; [done|]). by apply not_elem_of_nil in Hk.
Qed.
#[local] Hint Extern 1 (_ ∈ _) => set_solver : core.

Lemma quiet_publish_view n dirty now runs t : quiet t (publish_view n dirty now runs t).1.
Proof.
  unfold publish_view. assert (quiet t (view n (mkPAccess [] "" false true) now t).1) as Hv.
  { unfold view. destruct (fold_view _ _ _ _) as [[tags content]|m]; [|done].
    destruct (viewStored _ _); [apply quiet_signed|apply quiet_signedOnly]. }
  destruct (view _ _ _ t) as [t1 [e|m]]; [|done]. cbn [fst] in *. cbv zeta.
  assert (quiet t (put_int (at_key n) now t1)) as Ha by (etransitivity; [exact Hv|]; apply quiet_put, (not_watched n); auto).
  destruct (_ && _); [|done]. cbn [fst]. etransitivity; [exact Ha|]. apply quiet_put, (not_watched n); auto.
Qed.

Lemma quiet_tick_view n now runs t : quiet t (tick_view n now runs t).1.
Proof.
  unfold tick_view. destruct (negb _); [done|]. destruct (view_due _ _ _ _) as [[[] dirty]|m]; [|done|done].
  destruct (String.eqb _ "hourly"); [|apply quiet_publish_view]. cbv zeta. destruct (string_setting _ _) as [previous|m]; [|done].
  destruct (_ && _); [apply quiet_put, (not_watched n); auto|].
  etransitivity; [|apply quiet_publish_view]. apply quiet_put, (not_watched n); auto.
Qed.

Lemma quiet_tickViews order now runs t : quiet t (tickViews order now runs t).1.
Proof.
  revert runs t. induction order as [|n order IH]; intros runs t; [done|]. cbn [tickViews].
  pose proof (quiet_tick_view n now runs t) as Hn. destruct (tick_view n now runs t) as [t1 [runs1|m]]; [|done].
  etransitivity; [exact Hn|apply IH].
Qed.

Lemma quiet_tell id nonce text target now t : quiet t (tell id nonce text target now t).1.
Proof.
  unfold tell, notifyText. destruct (String.eqb target ""); [done|]. destruct (giftWrap _ _ _ _ _ _) as [wrap|m]; [|done].
  unfold deliverNotification. destruct (_ || _); [done|]. cbv zeta.
  match goal with |- context [Save ?db ?e ?o] => pose proof (settings_Save db e o eq_refl) as Hs; destruct (Save db e o) as [db' r] end.
  split; [done|]. intros k _. cbn in *. unfold GetSetting. by rewrite Hs.
Qed.
End Quiet.

(** ** Watching the owner *)

Section Watch.
Context `{NostrCrypto} `{GoUnicode} `{GoFTS} `{GoURLs} `{NostrKeys}.
Context `{GoJson} `{GoJsonDecoder} `{Regexp2} `{GoPrint} `{TenantParts} `{Nip44} `{ViewFolds} `{!GoJsonInts}.

Definition seen_at (t : Tenant) : result Z := int_setting (t_store t) owner_seen.
Definition warned_at (t : Tenant) : Z := int_or_zero (t_store t) warning_key.

Lemma owner_watched : watch_key owner_seen.
Proof. apply list_elem_of_here. Qed.
Lemma warning_watched : watch_key warning_key.
Proof. apply list_elem_of_further, list_elem_of_here. Qed.

Lemma quiet_seen t t' : quiet t t' → seen_at t' = seen_at t ∧ warned_at t' = warned_at t.
Proof.
  intros [_ S]. unfold seen_at, warned_at, int_or_zero.
  by rewrite (int_setting_same _ _ _ (S _ owner_watched)), (int_setting_same _ _ _ (S _ warning_watched)).
Qed.

Lemma seen_put_warning n t : int64_min ≤ n ≤ int64_max → seen_at (put_int warning_key n t) = seen_at t ∧ warned_at (put_int warning_key n t) = n.
Proof.
  intros Hn. unfold seen_at, warned_at, int_or_zero, put_int. cbn [t_store t_service with_service on_store s_store].
  rewrite int_setting_put by done. by rewrite int_setting_other by (intros E; discriminate E).
Qed.
Lemma seen_put_notify n t : seen_at (put_int notify_key n t) = seen_at t ∧ warned_at (put_int notify_key n t) = warned_at t.
Proof.
  unfold seen_at, warned_at, int_or_zero, put_int. cbn [t_store t_service with_service on_store s_store].
  by rewrite !int_setting_other by (intros E; discriminate E).
Qed.
Lemma seen_put_log e t : seen_at (put_log e t) = seen_at t ∧ warned_at (put_log e t) = warned_at t.
Proof.
  unfold seen_at, warned_at, int_or_zero, put_log. cbn [t_store t_service with_service on_store s_store].
  by rewrite !int_setting_other by (intros E; discriminate E).
Qed.





Lemma sane_int now : sane_time now → int64_min ≤ now ≤ int64_max.
Proof. unfold sane_time, int64_min, int64_max. lia. Qed.

Lemma no_overflow seen d : 0 < seen < 2 ^ 62 → 0 ≤ d ≤ 1000000 → wrap64 (seen + wrap64 (d * day)) = seen + d * day.
Proof.
  intros Hs Hd. unfold day. rewrite (wrap64_small (d * 86400)) by (unfold int64_min, int64_max; lia).
  apply wrap64_small. unfold int64_min, int64_max. lia.
Qed.









(** ** The handover *)

Lemma ApplyOwnerTx_succeeds old new s :
  validPubKey new = true → new ≠ old → is_Some (member_of s new) → ∃ s', ApplyOwnerTx old new s = Ok s'.
Proof.
  intros Hv Hne [m Hm]. unfold ApplyOwnerTx. rewrite Hv, (proj2 (String.eqb_neq _ _) Hne). cbn [negb orb guard_err mbind result_bind].
  rewrite Hm. cbv zeta. set (s1 := match member_of s (if String.eqb old "" then _ else _) with Some _ => _ | None => _ end).
  destruct (member_of s1 new); by eexists.
Qed.

Lemma persist_heir_succeeds env heir now t :
  is_Some (member_of (t_service t) heir) → validPubKey heir = true → heir ≠ Owner (t_policy t) →
  let '(t', r) := persistPolicy (te_id env) (te_stamp env) (with_succession heir None (t_policy t)) now t in
  r = Ok tt ∧ t_policy t' = with_succession heir None (t_policy t) ∧ s_owner (t_service t') = heir.
Proof.
  intros Hm Hv Hne. unfold persistPolicy. set (next := with_succession heir None (t_policy t)).
  assert (validatePolicyTransition (t_policy t) next = Ok tt) as ->.
  { unfold validatePolicyTransition. change (private_relay next) with (private_relay (t_policy t)). by destruct (private_relay _). }
  cbn [mbind result_bind]. unfold policy_tx. change (Owner next) with heir. rewrite (proj2 (String.eqb_neq _ _) Hne).
  destruct (ApplyOwnerTx_succeeds (Owner (t_policy t)) heir (t_service t) Hv Hne Hm) as [s' ->]. cbn [mbind result_bind mret result_ret].
  unfold SetOwner. rewrite Hv. cbn [negb fst exec]. unfold replacePolicy. cbv zeta. change (Reads next) with (Reads (t_policy t)).
  change (t_policy (with_service _ t)) with (t_policy t). by rewrite String.eqb_refl.
Qed.

Lemma hand_over_succeeds env heir now t :
  is_Some (member_of (t_service t) heir) → validPubKey heir = true → heir ≠ Owner (t_policy t) →
  let t' := (hand_over env heir now t).1 in
  Owner (t_policy t') = heir ∧ P_Succession (t_policy t') = None ∧ Role (t_service t') heir = "owner".
Proof.
  intros Hm Hv Hne. cbv zeta. unfold hand_over. pose proof (persist_heir_succeeds env heir now t Hm Hv Hne) as Hp.
  destruct (persistPolicy _ _ _ _ t) as [t1 r]. destruct Hp as (-> & Hpol & Hown). cbv zeta.
  set (t2 := put_int notify_key 0 _).
  assert (t_policy t2 = with_succession heir None (t_policy t) ∧ s_owner (t_service t2) = heir) as [P2 O2] by done. clearbody t2.
  assert (∀ t3, same_identity t2 t3 → Owner (t_policy t3) = heir ∧ P_Succession (t_policy t3) = None ∧ Role (t_service t3) heir = "owner") as Hd.
  { intros t3 (Ep & _ & Eo & _). unfold Role. rewrite Ep, Eo, P2, O2, String.eqb_refl. done. }
  unfold op_bind. pose proof (quiet_tell (te_id env) (te_nonce1 env)
    "The relay now belongs to your heir, as you planned. You stay on as a moderator." (Owner (t_policy t)) now t2) as [Q1 _].
  destruct (tell _ _ _ _ _ t2) as [t3 [u|m]]; [|by apply Hd]. apply Hd. etransitivity; [exact Q1|]. apply quiet_tell.
Qed.

(** Nothing that concerns the plan happens: the policy, the heir's membership
    and the watch stay. *)
Definition undisturbed (heir : string) (t t' : Tenant) : Prop :=
  t_policy t' = t_policy t ∧ (is_Some (member_of (t_service t) heir) → is_Some (member_of (t_service t') heir)) ∧
  seen_at t' = seen_at t ∧ warned_at t' = warned_at t.

(** A pass while the plan is armed and the heir a member. *)
Lemma armed_tick env now t plan seen :
  P_Succession (t_policy t) = Some plan → Heir plan ≠ "" → Owner (t_policy t) ≠ "" → is_Some (member_of (t_service t) (Heir plan)) →
  seen_at t = Ok seen → 0 < seen < 2 ^ 62 → 0 ≤ AfterDays plan ≤ 1000000 → seen + AfterDays plan * day ≤ now →
  (warned_at t = 0 → sane_time now →
   let t' := (succession_tick env now t).1 in undisturbed (Heir plan) (put_int warning_key now t) t') ∧
  (0 < warned_at t → warned_at t + warning_period ≤ now → succession_tick env now t = hand_over env (Heir plan) now t).
Proof.
  intros Hpl Hh Ho [m Hm] Hs Hb Hd Hlate. unfold succession_tick. cbv zeta. rewrite Hpl.
  rewrite (proj2 (String.eqb_neq _ _) Hh), (proj2 (String.eqb_neq _ _) Ho). cbn [orb]. unfold MemberStatus. rewrite Hm. cbn [negb]. rewrite andb_false_r.
  unfold seen_at in Hs. rewrite Hs. rewrite (proj2 (Z.eqb_neq seen 0)) by lia. rewrite no_overflow by lia.
  rewrite (proj2 (Z.ltb_ge now (seen + AfterDays plan * day))) by lia. fold (warned_at t). split.
  - intros Hw Hn. rewrite Hw, Z.eqb_refl.
    destruct (quiet_tell (te_id env) (te_nonce1 env)
      "You have been away long enough to start the succession warning period. Any signed action cancels it." (Owner (t_policy t)) now
      (put_int notify_key now (put_int warning_key now t))) as [Hid Hset].
    destruct (quiet_seen _ _ (conj Hid Hset)) as [E1 E2]. destruct (seen_put_notify now (put_int warning_key now t)) as [S1 S2].
    destruct Hid as (Ep & Edb & _). unfold undisturbed. rewrite E1, E2, S1, S2, Ep. split_and!; try done.
    unfold member_of, tables. by rewrite Edb.
  - intros Hw Hover. rewrite (proj2 (Z.eqb_neq (warned_at t) 0)) by lia. by rewrite (proj2 (Z.ltb_ge now (warned_at t + warning_period))) by lia.
Qed.

Lemma undisturbed_trans heir t t1 t2 : undisturbed heir t t1 → undisturbed heir t1 t2 → undisturbed heir t t2.
Proof. intros (P1 & M1 & S1 & W1) (P2 & M2 & S2 & W2). unfold undisturbed. rewrite P2, S2, W2. auto. Qed.

Lemma quiet_undisturbed heir t t' : quiet t t' → undisturbed heir t t'.
Proof.
  intros Hq. destruct (quiet_seen _ _ Hq) as [E1 E2]. destruct Hq as [(Ep & Edb & _) _].
  unfold undisturbed. rewrite E1, E2, Ep. split_and!; try done. unfold member_of, tables. by rewrite Edb.
Qed.

(** A pass whose views are published is the succession's pass on the tenant
    that the views leave. *)
Lemma Tick_views_Ok env order now runs runs1 t :
  (tickViews order now runs t).2 = Ok runs1 →
  (Tick env order now runs t).1 = (succession_tick env now (tickViews order now runs t).1).1.
Proof. unfold Tick. destruct (tickViews _ _ _ t) as [t1 r]. cbn [snd fst]. intros ->. by destruct (succession_tick env now t1) as [t2 [u|m]]. Qed.

(** C18: the relay is handed over.  Let a plan name an heir, a valid key other than
    the owner's, with a delay between 0 and a million days; let the heir be a member,
    the owner's last sign be recorded and no warning stand.  Then the first pass of the
    scheduler after the delay warns, and, if the plan, the heir's membership, the sign
    and the warning are left alone in between, the first pass thirty days later makes
    the heir the owner, in the policy and in the community, and ends the plan, whether
    or not the notices can be delivered.  Both are passes that get through the views: a
    pass that fails to publish a view ends before it comes to the succession. *)
Theorem succession_completes env env' order order' now now' runs runs' ran ran' t t2 plan seen :
  P_Succession (t_policy t) = Some plan → Heir plan ≠ "" → Owner (t_policy t) ≠ "" → Heir plan ≠ Owner (t_policy t) →
  validPubKey (Heir plan) = true → is_Some (member_of (t_service t) (Heir plan)) →
  seen_at t = Ok seen → 0 < seen < 2 ^ 62 → 0 ≤ AfterDays plan ≤ 1000000 → warned_at t = 0 →
  seen + AfterDays plan * day ≤ now → sane_time now → (tickViews order now runs t).2 = Ok ran →
  undisturbed (Heir plan) (Tick env order now runs t).1 t2 → now + warning_period ≤ now' → (tickViews order' now' runs' t2).2 = Ok ran' →
  let t1 := (Tick env order now runs t).1 in let t' := (Tick env' order' now' runs' t2).1 in
  (Owner (t_policy t1) = Owner (t_policy t) ∧ P_Succession (t_policy t1) = Some plan ∧ warned_at t1 = now) ∧
  Owner (t_policy t') = Heir plan ∧ P_Succession (t_policy t') = None ∧ Role (t_service t') (Heir plan) = "owner".
Proof.
  intros Hpl Hh Ho Hne Hv Hm Hs Hb Hd Hw Hlate Hn Hran Hu Hover Hran'. cbv zeta.
  rewrite (Tick_views_Ok _ _ _ _ _ _ Hran) in *. rewrite (Tick_views_Ok _ _ _ _ _ _ Hran').
  destruct (quiet_undisturbed (Heir plan) _ _ (quiet_tickViews order now runs t)) as (P0 & M0 & S0 & W0).
  set (tv := (tickViews order now runs t).1) in *. clearbody tv.
  destruct (armed_tick env now tv plan seen) as [Hfirst _]; rewrite ?P0, ?S0; auto. rewrite W0 in Hfirst. specialize (Hfirst Hw Hn). cbv zeta in Hfirst.
  destruct (seen_put_warning now tv (sane_int _ Hn)) as [Sn Wn]. pose proof Hfirst as (P1 & _ & _ & W1).
  assert (t_policy (put_int warning_key now tv) = t_policy t) as P by exact P0. rewrite P in P1.
  split. { by rewrite P1, W1, Wn, Hpl. }
  pose proof (undisturbed_trans _ _ _ _ Hfirst (undisturbed_trans _ _ _ _ Hu (quiet_undisturbed _ _ _ (quiet_tickViews order' now' runs' t2)))) as (P2 & M2 & S2 & W2).
  rewrite Sn, S0 in S2. rewrite Wn in W2. rewrite P in P2. specialize (M2 (M0 Hm)).
  set (tw := (tickViews order' now' runs' t2).1) in *. clearbody tw.
  assert (0 < warning_period) as Hwp by (unfold warning_period, day; lia). unfold sane_time in Hn.
  destruct (armed_tick env' now' tw plan seen) as [_ Hsecond]; rewrite ?P2, ?S2; auto; [lia|].
  rewrite Hsecond by (rewrite W2; lia). apply hand_over_succeeds; [done|done|by rewrite P2].
Qed.
End Watch.

(** * The relay's records on concrete inputs

    A relay whose owner named alice the heir: its published membership, the
    schedule of its views, the handover; and a plan armed again after a warning
    that was never taken back. *)

#[local] Instance records_crypto : NostrCrypto := toy_crypto.
#[local] Instance records_unicode : GoUnicode := ascii_unicode.
#[local] Instance records_fts : GoFTS := {| fts_match q s := Contains s q |}.
#[local] Instance records_print : GoPrint := {| is_print _ := true |}.
#[local] Instance records_urls : GoURLs := {| parse_url raw := None; path_unescape s := Some s; url_at_path _ _ _ := "" |}.
#[local] Instance records_keys : NostrKeys := toy_keys.
(** Every text is read as a number. *)
#[local] Instance records_json : GoJson := {| json_parse raw := Some (JNum raw) |}.
#[local] Instance records_json_ints : GoJsonInts.
Proof. by intros n. Qed.
#[local] Instance records_decoder : GoJsonDecoder := {| json_value _ := None |}.
#[local] Instance records_regexp : Regexp2 := {| re2_match p s := Contains s p |}.
#[local] Instance records_parts : TenantParts :=
  {| git_validate client db e := Ok ("address", "{}"); git_stage e db := Ok tt; followup_plan _ _ _ _ := None;
     artifact_visible _ _ _ := true; policy_text p := Reads p; is_ip _ := true |}.
#[local] Instance records_nip44 : Nip44 := {| secret_from_hex s := Ok s; conversation_key _ s := Ok s; encrypt44 _ _ := Ok "sealed" |}.
#[local] Instance records_folds : ViewFolds := {| fold_view _ name _ _ := Ok ([["t"; name]], "") |}.

Definition planned_policy (days : Z) : Policy := with_succession owner_key (Some (mkSuccession alice days)) (Defaults owner_key).
Definition two_members : Service :=
  mkService (mkCommunity ∅ (upd_members (λ _, {[owner_key := joined "owner" ""; alice := joined "member" ""]}) empty_roster) []) empty_db owner_key "main".
Definition with_heir : Tenant := mkTenant "main" "https://relay.example" sample_secret two_members (planned_policy 90) ∅ ∅ [] ∅ new_gate.
Definition env0 : TickEnv := mkTickEnv "id" "stamp" operator_secret agent_secret.

(** ** Membership records *)

Definition published_members : Tenant * result (list Event) := PublishMembership 1000 with_heir.

Lemma membership_projection_exact_witness :
  roster_tags with_heir = [["-"]; ["member"; owner_key; "owner"]; ["member"; alice]] ∧
  current published_members.1 (roster_spec with_heir) ∧ List.length (events (t_store published_members.1)) = 11%nat.
Proof.
  split; [vm_eq|]. split; [|vm_eq].
  assert (match PublishMembership 1000 with_heir with
    | (t', Ok out) => Clocked (1000 + 12) t' ∧ same_identity with_heir t' ∧ ∀ s, s ∈ membership_specs with_heir → current t' s
    | (t', Err m) => ∃ t1 s, same_identity with_heir t1 ∧ s ∈ membership_specs with_heir ∧ cannot_record t1 s m
    end) as Hp.
  { apply (membership_projection_exact 1000 1000 with_heir).
    - exists 0. split; [vm_eq|]. split; [lia|]. intros r Hr. exfalso. exact (not_elem_of_nil r Hr).
    - lia.
    - vm_compute. discriminate. }
  unfold published_members. destruct (PublishMembership 1000 with_heir) as [t' r] eqn:E. destruct r as [out|m].
  - destruct Hp as (_ & _ & Hs). apply Hs. do 2 apply list_elem_of_further. apply list_elem_of_here.
  - exfalso. apply (f_equal (λ x, match x.2 with Ok _ => true | Err _ => false end)) in E. vm_compute in E. discriminate.
Defined.

(** ** Views *)

Lemma view_schedule_settles_witness :
  let '(t', r) := tickViews stored_views 1000 [] with_heir in
  (match r with Ok runs => List.length runs | Err _ => 0%nat end) = 7%nat ∧ NextDue stored_views 1000 with_heir = Ok 1000 ∧
  ∃ due, NextDue stored_views 1000 t' = Ok due ∧ 1000 < due.
Proof.
  assert (Hr : let '(t', r) := tickViews stored_views 1000 [] with_heir in
    (match r with Ok runs => List.length runs | Err _ => 0%nat end) = 7%nat ∧ NextDue stored_views 1000 t' = Ok 4600) by (vm_compute; split; reflexivity).
  destruct (tickViews stored_views 1000 [] with_heir) as [t' r] eqn:E.
  destruct Hr as [Hr Hd]. split; [exact Hr|]. split; [vm_eq|]. destruct r as [runs|m]; [|discriminate Hr]. exists 4600. split; [exact Hd|].
  assert (sane_time 1000) as Hs by (unfold sane_time; lia).
  destruct (view_schedule_settles stored_views stored_views 1000 [] with_heir t' runs 4600 (reflexivity _) (reflexivity _) Hs E Hd) as [D|D]; [discriminate D|exact D].
Defined.

(** ** Succession *)

Definition tick (now : Z) (t : Tenant) : Tenant := (Tick env0 [] now [] t).1.
Definition seen_tenant : Tenant := (Heartbeat owner_key 1000 with_heir).1.
Definition away : Z := 1000 + 90 * day.
Definition warned_tenant : Tenant := tick away seen_tenant.
Definition handed_over : Tenant := tick (away + warning_period) warned_tenant.


Lemma succession_completes_witness : Owner (t_policy handed_over) = alice.
Proof.
  refine (proj1 (proj2 (succession_completes env0 env0 [] [] away (away + warning_period) [] [] [] [] seen_tenant warned_tenant (mkSuccession alice 90) 1000
    _ _ _ _ _ _ _ _ _ _ _ _ _ _ _ _))).
  - vm_eq.
  - intros E. cbn [Heir] in E. vm_compute in E. discriminate.
  - intros E. vm_compute in E. discriminate.
  - intros E. apply (f_equal (String.eqb alice)) in E. vm_compute in E. discriminate.
  - vm_eq.
  - vm_compute. eexists. reflexivity.
  - vm_eq.
  - lia.
  - cbn [AfterDays]. lia.
  - vm_eq.
  - unfold away, day. cbn [AfterDays]. lia.
  - unfold sane_time, away, day. lia.
  - reflexivity.
  - unfold warned_tenant, tick. generalize (Tick env0 [] away [] seen_tenant).1. intros t. unfold undisturbed. split; [reflexivity|]. split; [intros Hm; exact Hm|]. split; reflexivity.
  - apply Z.le_refl.
  - reflexivity.
Defined.

(** ** A warning that stays *)

(** Warned, the owner clears the plan with a signed management call and names
    an heir again with another a year later. *)
Definition cleared : Tenant := (clearsuccession "id" "stamp" (away + day) warned_tenant).1.
Definition rearmed : Tenant := (setsuccession "id" "stamp" (Ok (mkSuccession alice 365)) (away + 365 * day) cleared).1.

(** The first pass after the plan is armed gives the relay away: neither
    signed call takes the warning back, though the notice says that any signed
    action cancels it. *)
Theorem rearmed_plan_hands_over_at_once :
  warned_at warned_tenant = away ∧ P_Succession (t_policy cleared) = None ∧ Owner (t_policy (tick (away + 400 * day) cleared)) = owner_key ∧
  P_Succession (t_policy rearmed) = Some (mkSuccession alice 365) ∧
  Owner (t_policy (tick (away + 365 * day + 60) rearmed)) = alice.
Proof. split_and!; vm_compute; reflexivity. Qed.
