(* ===== verification/Blob.v ===== *)
(** * internal/blob: content-addressed files (storage.go, metadata.go, service.go)

    The blob tables of a tenant with the directory of their bytes.  An operation
    runs against the two in statements, each of which is durable when it ends: it
    yields the disks it leaves on its way, so that a crash is one of them, the
    last disk and the result.  The names of temporary files, the times and the
    directory's modification times are arguments, and [GoSniff] is
    [http.DetectContentType].  Errors of the file system and the driver are
    outside the model. *)

From S2P Require Import Prelude GoLib GoCodec GoLemmas GoStrings.

Class GoSniff := { detect_content_type : string → string }.

(** ** The tables *)

Record Blob := mkBlob { B_SHA256 : string; B_Size : Z; B_Type : string; B_Uploader : string; B_Uploaded : Z }.
Record BlobRow := mkBlobRow { br_size : Z; br_type : string; br_uploader : string; br_uploaded : Z; br_access : string }.
Record Claim := mkClaim { cl_claimed_at : Z; cl_expires : Z }.
Record ClaimMeta := mkMeta { cm_name : string; cm_purpose : string; cm_size : Z; cm_type : string; cm_updated : Z }.
Record BlobReport := mkBlobReport {
  bp_id : string; bp_reporter : string; bp_target_pubkey : string; bp_target_blob : string; bp_type : string; bp_content : string; bp_at : Z }.
Record Upload := mkUpload {
  up_sha256 : string; up_uploader : string; up_length : Z; up_type : string; up_created : Z; up_last_seen : Z;
  up_name : string; up_path : string; up_access : string; up_purpose : string }.

(** [hidden] is the set of the identifiers in [hidden_events]. *)
Record BlobDB := mkBlobDB {
  blobs : gmap string BlobRow;
  claims : gmap (string * string) Claim;
  metas : gmap (string * string * string) ClaimMeta;
  reports : list BlobReport;
  blocks : gmap string (string * Z);
  tombstones : gmap string Z;
  uploads : gmap string Upload;
  parts : gmap (string * Z) Z;
  hidden_ids : gset string;
}.
Definition no_blobs : BlobDB := mkBlobDB ∅ ∅ ∅ [] ∅ ∅ ∅ ∅ ∅.

Definition upd_blobs (f : gmap string BlobRow → gmap string BlobRow) (db : BlobDB) : BlobDB :=
  mkBlobDB (f (blobs db)) (claims db) (metas db) (reports db) (blocks db) (tombstones db) (uploads db) (parts db) (hidden_ids db).
Definition upd_claims (f : gmap (string * string) Claim → gmap (string * string) Claim) (db : BlobDB) : BlobDB :=
  mkBlobDB (blobs db) (f (claims db)) (metas db) (reports db) (blocks db) (tombstones db) (uploads db) (parts db) (hidden_ids db).
Definition upd_metas (f : gmap (string * string * string) ClaimMeta → gmap (string * string * string) ClaimMeta) (db : BlobDB) : BlobDB :=
  mkBlobDB (blobs db) (claims db) (f (metas db)) (reports db) (blocks db) (tombstones db) (uploads db) (parts db) (hidden_ids db).
Definition upd_reports (f : list BlobReport → list BlobReport) (db : BlobDB) : BlobDB :=
  mkBlobDB (blobs db) (claims db) (metas db) (f (reports db)) (blocks db) (tombstones db) (uploads db) (parts db) (hidden_ids db).
Definition upd_blocks (f : gmap string (string * Z) → gmap string (string * Z)) (db : BlobDB) : BlobDB :=
  mkBlobDB (blobs db) (claims db) (metas db) (reports db) (f (blocks db)) (tombstones db) (uploads db) (parts db) (hidden_ids db).
Definition upd_tombstones (f : gmap string Z → gmap string Z) (db : BlobDB) : BlobDB :=
  mkBlobDB (blobs db) (claims db) (metas db) (reports db) (blocks db) (f (tombstones db)) (uploads db) (parts db) (hidden_ids db).
Definition upd_uploads (f : gmap string Upload → gmap string Upload) (db : BlobDB) : BlobDB :=
  mkBlobDB (blobs db) (claims db) (metas db) (reports db) (blocks db) (tombstones db) (f (uploads db)) (parts db) (hidden_ids db).
Definition upd_parts (f : gmap (string * Z) Z → gmap (string * Z) Z) (db : BlobDB) : BlobDB :=
  mkBlobDB (blobs db) (claims db) (metas db) (reports db) (blocks db) (tombstones db) (uploads db) (f (parts db)) (hidden_ids db).

(** ** Statements, with the cascades of the schema *)

Definition delete_metas (p : string * string → bool) : BlobDB → BlobDB :=
  upd_metas (filter (λ km, p km.1.1 = false)).
(** DELETE FROM blob_claims; the names of a claim go with it. *)
Definition delete_claims (p : (string * string) → Claim → bool) (db : BlobDB) : BlobDB :=
  let gone k := match claims db !! k with Some c => p k c | None => false end in
  delete_metas gone (upd_claims (filter (λ kc, p kc.1 kc.2 = false)) db).
(** DELETE FROM blobs WHERE sha256=? *)
Definition delete_blob (sha : string) (db : BlobDB) : BlobDB :=
  delete_claims (λ k _, String.eqb k.1 sha) (upd_blobs (delete sha) db).
Definition entomb (sha : string) (now : Z) : BlobDB → BlobDB := upd_tombstones (<[sha := now]>).
(** DELETE FROM multipart_uploads WHERE id=? *)
Definition delete_upload (id : string) (db : BlobDB) : BlobDB :=
  upd_parts (filter (λ kl, kl.1.1 ≠ id)) (upd_uploads (delete id) db).

(** [claimSQL] *)
Definition claimSQL (sha uploader : string) (now expires : Z) : BlobDB → BlobDB :=
  upd_claims (λ m, <[(sha, uploader) := mkClaim (match m !! (sha, uploader) with Some c => cl_claimed_at c | None => now end) expires]> m).
(** INSERT OR IGNORE INTO blobs, with the trigger [blob_claim_on_insert]. *)
Definition insert_blob (sha : string) (r : BlobRow) (db : BlobDB) : BlobDB :=
  match blobs db !! sha with
  | Some _ => db
  | None =>
    let db := upd_blobs (<[sha := r]>) db in
    if String.eqb (br_uploader r) "" then db
    else match claims db !! (sha, br_uploader r) with
         | Some _ => db
         | None => upd_claims (<[(sha, br_uploader r) := mkClaim (br_uploaded r) 0]>) db
         end
  end.

(** ** The disk and the operations on it *)

Record Disk := mkDisk { d_db : BlobDB; d_files : gmap string string }.
Definition on_db (f : BlobDB → BlobDB) (d : Disk) : Disk := mkDisk (f (d_db d)) (d_files d).
Definition on_files (f : gmap string string → gmap string string) (d : Disk) : Disk := mkDisk (d_db d) (f (d_files d)).

(** The disks an operation leaves, the last of them, and its result. *)
Definition IO (A : Type) : Type := Disk → list Disk * Disk * result A.
Definition io_ret {A} (a : A) : IO A := λ d, ([], d, Ok a).
Definition io_fail {A} (m : string) : IO A := λ d, ([], d, Err m).
Definition io_of {A} (r : result A) : IO A := λ d, ([], d, r).
Definition io_get {A} (f : Disk → IO A) : IO A := λ d, f d d.
Definition io_bind {A B} (m : IO A) (k : A → IO B) : IO B := λ d,
  match m d with
  | (l, d, Ok a) => let '(l', d', r) := k a d in (l ++ l', d', r)
  | (l, d, Err e) => (l, d, Err e)
  end.
(** One durable statement. *)
Definition commit (f : Disk → Disk) : IO unit := λ d, ([f d], f d, Ok tt).
Definition commit_db (f : BlobDB → BlobDB) : IO unit := commit (on_db f).
Definition commit_files (f : gmap string string → gmap string string) : IO unit := commit (on_files f).
(** A transaction that may fail, and then leaves nothing. *)
Definition commit_tx (f : BlobDB → result BlobDB) : IO unit := io_get (λ d,
  match f (d_db d) with Ok db => commit (λ d, mkDisk db (d_files d)) | Err m => io_fail m end).
Declare Scope io_scope.
Delimit Scope io_scope with io.
Notation "'run' x <- m ; k" := (io_bind m (λ x, k)) (at level 200, x binder, m at level 100, k at level 200) : io_scope.
Open Scope io_scope.

Fixpoint io_each {A} (f : A → IO unit) (l : list A) : IO unit :=
  match l with [] => io_ret tt | a :: l => run _ <- f a; io_each f l end.

(** [os.Remove], a missing file tolerated; [os.Rename], which finds nothing
    under an empty name. *)
Definition remove (name : string) : IO unit := commit_files (delete name).
Definition rename (from to : string) : IO unit := io_get (λ d,
  match (if String.eqb from "" then None else d_files d !! from) with
  | Some c => commit_files (λ fs, <[to := c]> (delete from fs))
  | None => io_fail "no such file or directory"
  end).

(** ** service.go *)

Definition ErrBlocked : string := "blocked: this blob was removed by a moderator".
Definition ErrHashMismatch : string := "conflict: mirrored blob hash does not match the requested hash".
Definition ErrFileTooLarge : string := "invalid: blob exceeds the per-file size limit".
Definition ErrQuotaExceeded : string := "restricted: uploader storage quota exceeded".
Definition ErrMultipartConflict : string := "conflict: upload metadata differs from existing session".
Definition ErrNotEncrypted : string := "restricted: agent grant requires encrypted uploads".
Definition ErrAccessConflict : string := "conflict: the blob already has a different access policy".
Definition ErrInvalidAccess : string := "invalid: access must be public or members".
Definition ErrNoRows : string := "sql: no rows in result set".
Definition AccessPublic : string := "public".
Definition AccessMembers : string := "members".

Record Limits := mkLimits { MaxFileBytes : Z; UserStorageBytes : Z }.
Record UploadTerms := mkTerms { ExpiresAt : Z; Encrypted : bool }.
Definition no_terms : UploadTerms := mkTerms 0 false.
Definition encryptedTypes (typ : string) : bool := contains ["application/octet-stream"; "application/vnd.blossom.directory+msgpack"] typ.

Definition lower_hex_byte (b : Z) : bool := in_range 48 b 57 || in_range 97 b 102.
(** [^[0-9a-f]{64}$] *)
Definition shaPattern (s : string) : bool := (len s =? 64) && forallb lower_hex_byte (bytes_of s).

(** ** metadata.go *)

Definition maxClaimMetadataBytes : Z := 4096.
Definition errInvalidClaimName : string := "invalid: filename must be a single path component".
Definition errInvalidClaimPath : string := "invalid: upload path must be a safe relative path".
Definition errMismatchedClaimName : string := "invalid: filename must match the upload path basename".

(** [path.Clean] and [path.Base]. *)
Definition clean_step (rooted : bool) (out : list string) (part : string) : list string :=
  if String.eqb part "" || String.eqb part "." then out
  else if String.eqb part ".." then
    match out with
    | [] => if rooted then [] else [".."]
    | x :: r => if String.eqb x ".." then ".." :: out else r
    end
  else part :: out.
Definition path_Clean (p : string) : string :=
  let rooted := HasPrefix p "/" in
  let s := Join (rev (fold_left (clean_step rooted) (Split p (char 47)) [])) "/" in
  if rooted then "/" +:+ s else if String.eqb s "" then "." else s.
Definition path_Base (p : string) : string :=
  if String.eqb p "" then "."
  else let s := List.last (Split (TrimRight (Z.eqb 47) p) (char 47)) "" in
       if String.eqb s "" then "/" else s.

(** [unicode.IsControl] of a rune *)
Definition hasControl (value : string) : bool := existsb (λ r, in_range 0 (rune_code r) 31 || in_range 127 (rune_code r) 159) (runes value).

Definition validateClaimName (name : string) : result unit :=
  if String.eqb name "" then mret tt
  else guard_err (negb (valid_utf8 name) || (maxClaimMetadataBytes <? len name) || ContainsAny (λ b, (b =? 47) || (b =? 92)) name
                  || String.eqb name "." || String.eqb name ".." || hasControl name) errInvalidClaimName.
Definition validateClaimPath (raw : string) : result string :=
  if String.eqb raw "" then mret ""
  else
    guard_err (negb (valid_utf8 raw) || (maxClaimMetadataBytes <? len raw) || Contains raw "\" || HasPrefix raw "/" || HasSuffix raw "/" || hasControl raw)
      errInvalidClaimPath;;
    let clean := path_Clean raw in
    guard_err (String.eqb clean "." || String.eqb clean ".." || HasPrefix clean "../" || negb (String.eqb clean raw)) errInvalidClaimPath;;
    guard_err (existsb (λ part, String.eqb part "" || String.eqb part "." || String.eqb part "..") (Split raw (char 47))) errInvalidClaimPath;;
    mret clean.
Definition claimMetadata (name rawPath : string) : result (string * string) :=
  validateClaimName name;;
  cleanPath ← validateClaimPath rawPath;
  let name := if String.eqb name "" && negb (String.eqb cleanPath "") then path_Base cleanPath else name in
  if String.eqb cleanPath "" then mret (name, name)
  else guard_err (negb (String.eqb name "") && negb (String.eqb (path_Base cleanPath) name)) errMismatchedClaimName;; mret (name, cleanPath).

(** The upsert keeps the logical size and type of an earlier row. *)
Definition put_meta (key : string * string * string) (name purpose : string) (now : Z) : BlobDB → BlobDB :=
  upd_metas (λ m, <[key := match m !! key with
                           | Some old => mkMeta name purpose (cm_size old) (cm_type old) now
                           | None => mkMeta name purpose 0 "" now
                           end]> m).
Definition saveClaimMetadata (sha uploader name path purpose : string) (now : Z) (db : BlobDB) : BlobDB :=
  if String.eqb uploader "" || String.eqb name "" && String.eqb path "" && String.eqb purpose "" then db
  else put_meta (sha, uploader, path) name purpose now db.

Definition set_metadata_checks (uploader sha name rawPath purpose typ : string) (size : Z) : result (string * string * string) :=
  guard_err (negb (shaPattern sha) || String.eqb uploader "") "invalid: blob metadata target";;
  guard_err (negb (contains ["file"; "chunk"] purpose)) "invalid: blob metadata purpose";;
  guard_err ((size <? 0) || (2 ^ 40 <? size)) "invalid: logical file size";;
  '(name, rawPath) ← claimMetadata name rawPath;
  guard_err (String.eqb purpose "file" && String.eqb name "") "invalid: logical file name is required";;
  let typ := if String.eqb typ "" then "application/octet-stream" else typ in
  guard_err ((256 <? len typ) || negb (Contains typ "/") || hasControl typ) "invalid: logical file type";;
  mret (name, rawPath, typ).
Definition SetClaimMetadata (uploader sha name rawPath purpose typ : string) (size now : Z) : IO unit :=
  run c <- io_of (set_metadata_checks uploader sha name rawPath purpose typ size);
  let '(name, path, typ) := c in
  commit_tx (λ db,
    match claims db !! (sha, uploader) with
    | None => Err "not found: uploader blob claim"
    | Some _ => Ok (upd_metas (<[(sha, uploader, path) := mkMeta name purpose size typ now]>) db)
    end).

Record BlobClaimMetadata := mkClaimMetadata {
  BM_SHA256 : string; BM_Uploader : string; BM_Name : string; BM_Path : string; BM_Purpose : string; BM_Size : Z; BM_Type : string; BM_UpdatedAt : Z }.
(** One row per named path of a claim, one for a claim without a name. *)
Definition claim_listing (db : BlobDB) (kc : (string * string) * Claim) : list BlobClaimMetadata :=
  let '((sha, uploader), c) := kc in
  match omap (λ km : (string * string * string) * ClaimMeta, if decide (km.1.1 = (sha, uploader)) then Some (km.1.2, km.2) else None) (map_to_list (metas db)) with
  | [] => [mkClaimMetadata sha uploader "" "" "" 0 "" (cl_claimed_at c)]
  | l => (λ pm : string * ClaimMeta, mkClaimMetadata sha uploader (cm_name pm.2) pm.1 (cm_purpose pm.2) (cm_size pm.2) (cm_type pm.2) (cm_updated pm.2)) <$> l
  end.
Definition listing_leb (a b : BlobClaimMetadata) : bool :=
  (BM_UpdatedAt b <? BM_UpdatedAt a) || (BM_UpdatedAt a =? BM_UpdatedAt b) && negb (str_ltb (BM_SHA256 a) (BM_SHA256 b)).
Definition ListClaimMetadata (db : BlobDB) (uploader : string) : list BlobClaimMetadata :=
  sort_by listing_leb (List.concat (claim_listing db <$>
    List.filter (λ kc : (string * string) * Claim, String.eqb kc.1.2 uploader && bool_decide (is_Some (blobs db !! kc.1.1))) (map_to_list (claims db)))).

Section Blob.
Context `{GoUnicode} `{GoSniff}.

(** ** format.go: content types *)

Definition contentType (raw : string) : string :=
  let raw := ToLower (TrimSpace (Cut raw ";").1) in if String.eqb raw "" then "application/octet-stream" else raw.
Definition DetectMediaType (head : string) : string :=
  let detected := contentType (detect_content_type head) in
  if existsb (HasPrefix detected) ["image/"; "video/"; "audio/"] || String.eqb detected "application/pdf" then detected
  else "application/octet-stream".
(** The first 512 bytes decide. *)
Definition detectFileType (content : string) : string := DetectMediaType (take_str 512 content).

(** ** storage.go: reading *)

Definition parseAccess (access : string) : result string :=
  let access := ToLower (TrimSpace access) in
  if String.eqb access "" || String.eqb access AccessPublic then mret AccessPublic
  else if String.eqb access AccessMembers then mret AccessMembers else Err ErrInvalidAccess.

Definition blob_of (sha : string) (r : BlobRow) : Blob := mkBlob sha (br_size r) (br_type r) (br_uploader r) (br_uploaded r).
Definition lookup_blob (db : BlobDB) (sha : string) : option Blob := blob_of sha <$> blobs db !! sha.
Definition BlobAccess (db : BlobDB) (sha : string) : result string :=
  match blobs db !! sha with Some r => parseAccess (br_access r) | None => Err ErrNoRows end.
Definition blocked (db : BlobDB) (sha : string) : bool := bool_decide (sha ∈ hidden_ids db) || bool_decide (is_Some (blocks db !! sha)).
Definition hasClaim (db : BlobDB) (sha uploader : string) : bool := bool_decide (is_Some (claims db !! (sha, uploader))).

Definition Get (sha : string) (d : Disk) : result (Blob * string) :=
  guard_err (negb (shaPattern sha)) "invalid: bad blob sha256";;
  match lookup_blob (d_db d) sha with
  | None => Err ErrNoRows
  | Some entry =>
    guard_err (blocked (d_db d) sha) ErrBlocked;;
    match d_files d !! sha with Some content => mret (entry, content) | None => Err "no such file or directory" end
  end.

(** The blobs an uploader claims, newest first; the uploader of an entry is
    the one who claims it. *)
Definition blob_leb (a b : Blob) : bool :=
  (B_Uploaded b <? B_Uploaded a) || (B_Uploaded a =? B_Uploaded b) && negb (str_ltb (B_SHA256 a) (B_SHA256 b)).
Definition claimed_blobs (db : BlobDB) (uploader : string) : list Blob :=
  omap (λ kr : string * BlobRow,
    if hasClaim db kr.1 uploader then Some (mkBlob kr.1 (br_size kr.2) (br_type kr.2) uploader (br_uploaded kr.2)) else None)
    (map_to_list (blobs db)).
Definition ListMetadata (db : BlobDB) (uploader : string) : list Blob := sort_by blob_leb (claimed_blobs db uploader).

Definition page_limit (limit : Z) : Z := let limit := if limit <? 1 then 20 else limit in if 100 <? limit then 100 else limit.
Definition ListPage (db : BlobDB) (uploader : string) (limit : Z) (cursor : string) : result (list Blob * string) :=
  let limit := page_limit limit in
  rows ← (if String.eqb cursor "" then mret (claimed_blobs db uploader)
          else match blobs db !! cursor with
               | Some r =>
                 guard_err (negb (hasClaim db cursor uploader)) ("resolve blob cursor: " +:+ ErrNoRows);;
                 mret (List.filter (λ b, (B_Uploaded b <? br_uploaded r) || (B_Uploaded b =? br_uploaded r) && str_ltb (B_SHA256 b) cursor)
                         (claimed_blobs db uploader))
               | None => Err ("resolve blob cursor: " +:+ ErrNoRows)
               end);
  let entries := take (Z.to_nat limit + 1) (sort_by blob_leb rows) in
  if limit <? Z.of_nat (List.length entries)
  then mret (take (Z.to_nat limit) entries, match entries !! (Z.to_nat limit - 1)%nat with Some b => B_SHA256 b | None => "" end)
  else mret (entries, "").

(** ** Deleting *)

(** What [Delete] commits before it removes the bytes. *)
Definition Delete_tx (sha : string) (now : Z) : IO unit :=
  commit_db (λ db, delete_metas (λ k, String.eqb k.1 sha) (delete_blob sha (entomb sha now db))).
Definition Delete (sha : string) (now : Z) : IO unit :=
  if negb (shaPattern sha) then io_fail "invalid: bad blob sha256"
  else run _ <- Delete_tx sha now; remove sha.

Definition claims_of (sha : string) (db : BlobDB) : nat := size (filter (λ kc, kc.1.1 = sha) (claims db)).
Definition release_claim (sha uploader : string) (now : Z) (db : BlobDB) : result (BlobDB * bool) :=
  match claims db !! (sha, uploader) with
  | None => Err ErrNoRows
  | Some _ =>
    let db := delete_claims (λ k _, bool_decide (k = (sha, uploader))) db in
    let db := delete_metas (λ k, bool_decide (k = (sha, uploader))) db in
    let removed := Nat.eqb (claims_of sha db) 0 in
    mret (if removed then delete_blob sha (entomb sha now db) else db, removed)
  end.
(** What [DeleteForUploader] commits before it removes the bytes, and whether
    it does. *)
Definition Release_tx (sha uploader : string) (now : Z) : IO bool := io_get (λ d,
  match release_claim sha uploader now (d_db d) with
  | Err m => io_fail m
  | Ok (db, removed) => run _ <- commit_db (λ _, db); io_ret removed
  end).
Definition DeleteForUploader (sha uploader : string) (now : Z) : IO unit :=
  if negb (shaPattern sha) then io_fail "invalid: bad blob sha256"
  else run removed <- Release_tx sha uploader now; if removed : bool then remove sha else io_ret tt.

(** http.go: [Block]; its statements are not one transaction. *)
Definition put_block (sha reason : string) (now : Z) : IO unit := commit_db (upd_blocks (<[sha := (reason, now)]>)).
Definition Block (sha reason : string) (now : Z) : IO unit :=
  if negb (shaPattern sha) then io_fail "invalid: bad blob sha256"
  else
    run _ <- put_block sha reason now;
    run _ <- commit_db (entomb sha now);
    run _ <- commit_db (delete_blob sha);
    remove sha.

(** ** Quotas *)

Definition sum_list (l : list Z) : Z := foldr Z.add 0 l.
Definition claimed_bytes (db : BlobDB) (uploader : string) : Z := sum_list (B_Size <$> claimed_blobs db uploader).
Definition reserved_bytes (db : BlobDB) (uploader reservation : string) : Z :=
  sum_list (omap (λ iu : string * Upload, if String.eqb (up_uploader iu.2) uploader && negb (String.eqb iu.1 reservation) then Some (up_length iu.2) else None)
    (map_to_list (uploads db))).
Definition quotaUsageExcept (db : BlobDB) (uploader reservation : string) : Z := claimed_bytes db uploader + reserved_bytes db uploader reservation.
Definition quotaUsage (db : BlobDB) (uploader : string) : Z := quotaUsageExcept db uploader "".

(** A negative limit is none. *)
Definition currentLimits (limits : Limits) : Limits := mkLimits (Z.max 0 (MaxFileBytes limits)) (Z.max 0 (UserStorageBytes limits)).
Definition uploadTerms (terms : string → result UploadTerms) (uploader : string) : result UploadTerms :=
  if String.eqb uploader "" then mret no_terms else terms uploader.

(** ** Storing *)

Definition installBlobFile (source hash : string) : IO unit := rename source hash.

(** [cd_commit] is the caller's part of the transaction: it writes its own
    tables, or refuses. *)
Record uploadCandidate := mkCandidate {
  cd_path : string; cd_hash : string; cd_type : string; cd_uploader : string; cd_reservation : string; cd_name : string;
  cd_metadataPath : string; cd_access : string; cd_purpose : string; cd_size : Z; cd_commit : option (Blob → bool → result unit) }.

(** What an upload needs beside the disk: the limits of the policy, the terms
    of an uploader's grant and the time. *)
Record BlobEnv := mkBlobEnv { be_limits : Limits; be_terms : string → result UploadTerms; be_now : Z }.

Definition quota_exceeded (db : BlobDB) (limits : Limits) (uploader reservation : string) (size : Z) : bool :=
  UserStorageBytes limits - quotaUsageExcept db uploader reservation <? size.

Definition commit_hook (cd : uploadCandidate) (b : Blob) (isNew : bool) : result unit :=
  match cd_commit cd with Some f => f b isNew | None => mret tt end.
Definition release_reservation (id : string) (db : BlobDB) : BlobDB := if String.eqb id "" then db else delete_upload id db.

Definition claim_tx (env : BlobEnv) (cd : uploadCandidate) (terms : UploadTerms) (existing : Blob) (db : BlobDB) : result BlobDB :=
  commit_hook cd existing false;;
  let db := if String.eqb (cd_uploader cd) "" then db
            else saveClaimMetadata (cd_hash cd) (cd_uploader cd) (cd_name cd) (cd_metadataPath cd) (cd_purpose cd) (be_now env)
                   (claimSQL (cd_hash cd) (cd_uploader cd) (be_now env) (ExpiresAt terms) db) in
  mret (release_reservation (cd_reservation cd) db).
(** The bytes are there already: a claim on them is recorded. *)
Definition claim_existing (env : BlobEnv) (cd : uploadCandidate) (terms : UploadTerms) (access : string) (existing : Blob) : IO (Blob * bool) := io_get (λ d,
  let db := d_db d in let sha := cd_hash cd in let uploader := cd_uploader cd in let limits := currentLimits (be_limits env) in
  run existingAccess <- io_of (BlobAccess db sha);
  run _ <- io_of (guard_err (negb (String.eqb existingAccess access)) ErrAccessConflict);
  run _ <- io_of (guard_err (Encrypted terms && negb (encryptedTypes (B_Type existing))) ErrNotEncrypted);
  run _ <- io_of (guard_err (negb (String.eqb uploader "") && (0 <? UserStorageBytes limits) && negb (hasClaim db sha uploader)
                             && quota_exceeded db limits uploader (cd_reservation cd) (B_Size existing)) ErrQuotaExceeded);
  run _ <- commit_tx (claim_tx env cd terms existing);
  run _ <- io_get (λ d, match d_files d !! sha with None => installBlobFile (cd_path cd) sha | Some _ => io_ret tt end);
  io_ret (existing, false)).

Definition scoped_name (sha : string) : string := ".scoped-" +:+ sha.
(** What a new blob's transaction writes. *)
Definition install_tx (env : BlobEnv) (cd : uploadCandidate) (terms : UploadTerms) (access : string) (entry : Blob) (db : BlobDB) : result BlobDB :=
  let sha := B_SHA256 entry in
  let db := insert_blob sha (mkBlobRow (B_Size entry) (B_Type entry) (B_Uploader entry) (B_Uploaded entry) access) (upd_tombstones (delete sha) db) in
  let db := if String.eqb (B_Uploader entry) "" then db
            else saveClaimMetadata sha (B_Uploader entry) (cd_name cd) (cd_metadataPath cd) (cd_purpose cd) (be_now env)
                   (claimSQL sha (B_Uploader entry) (B_Uploaded entry) (ExpiresAt terms) db) in
  let db := release_reservation (cd_reservation cd) db in
  commit_hook cd entry true;;
  mret db.
(** New bytes: without a hook the file comes first, with one it is staged until
    the transaction has committed. *)
Definition install_new (env : BlobEnv) (cd : uploadCandidate) (terms : UploadTerms) (access : string) : IO (Blob * bool) := io_get (λ d,
  let sha := cd_hash cd in let uploader := cd_uploader cd in let limits := currentLimits (be_limits env) in let now := be_now env in
  run _ <- io_of (guard_err ((0 <? UserStorageBytes limits) && negb (String.eqb uploader "")
                             && quota_exceeded (d_db d) limits uploader (cd_reservation cd) (cd_size cd)) ErrQuotaExceeded);
  let typ := contentType (cd_type cd) in
  let typ := if String.eqb typ "application/octet-stream"
             then match d_files d !! cd_path cd with Some content => detectFileType content | None => "application/octet-stream" end else typ in
  run _ <- io_of (guard_err (Encrypted terms && negb (encryptedTypes typ)) ErrNotEncrypted);
  let entry := mkBlob sha (cd_size cd) typ uploader now in
  run _ <- match cd_commit cd with Some _ => rename (cd_path cd) (scoped_name sha) | None => installBlobFile (cd_path cd) sha end;
  run _ <- io_get (λ d, match install_tx env cd terms access entry (d_db d) with
    | Ok db => commit_db (λ _, db)
    | Err m => run _ <- match cd_commit cd with Some _ => remove (scoped_name sha) | None => io_ret tt end; io_fail m
    end);
  run _ <- match cd_commit cd with Some _ => installBlobFile (scoped_name sha) sha | None => io_ret tt end;
  io_get (λ d, match lookup_blob (d_db d) sha with
    | Some saved => io_ret (saved, String.eqb (B_Uploader saved) uploader && (B_Uploaded saved =? now))
    | None => io_ret (entry, true)
    end)).

Definition installUpload (env : BlobEnv) (cd : uploadCandidate) : IO (Blob * bool) := io_get (λ d,
  let sha := cd_hash cd in let uploader := cd_uploader cd in let limits := currentLimits (be_limits env) in
  run access <- io_of (parseAccess (cd_access cd));
  run _ <- io_of (guard_err (blocked (d_db d) sha) ErrBlocked);
  run terms <- io_of (uploadTerms (be_terms env) uploader);
  run _ <- io_of (guard_err ((0 <? MaxFileBytes limits) && (MaxFileBytes limits <? cd_size cd)) ErrFileTooLarge);
  run _ <- io_of (guard_err ((0 <? UserStorageBytes limits) && negb (String.eqb uploader "") && (UserStorageBytes limits <? cd_size cd)) ErrQuotaExceeded);
  match lookup_blob (d_db d) sha with
  | Some existing => claim_existing env cd terms access existing
  | None => install_new env cd terms access
  end).

Record PutOptions := mkPut {
  po_Type : string; po_Uploader : string; po_Hash : string; po_Name : string; po_Path : string; po_Access : string; po_Purpose : string;
  po_Commit : option (Blob → bool → result unit) }.

(** The stream is cut one byte past its limit; [tmp] is the fresh name of the
    temporary file, removed whatever happens. *)
Definition stream_limit (limits : Limits) (uploader : string) : Z * bool :=
  if (MaxFileBytes limits =? 0) && (0 <? UserStorageBytes limits) && negb (String.eqb uploader "")
  then (UserStorageBytes limits, true) else (MaxFileBytes limits, false).
Definition read_stream (limit : Z) (source : string) : string :=
  if (0 <? limit) && (limit <? int64_max) then take_str (Z.to_nat (limit + 1)) source else source.
Definition temp_remove {A} (tmp : string) (m : IO A) : IO A := λ d,
  match m d with
  | (l, d, r) => let '(l', d', _) := remove tmp d in (l ++ l', d', r)
  end.
Definition putValidatedWithMetadata (env : BlobEnv) (tmp source : string) (o : PutOptions) (validate : string → result unit) : IO (Blob * bool) :=
  run access <- io_of (parseAccess (po_Access o));
  run np <- io_of (claimMetadata (po_Name o) (po_Path o));
  let limits := currentLimits (be_limits env) in
  let '(streamLimit, quotaStream) := stream_limit limits (po_Uploader o) in
  let content := read_stream streamLimit source in
  let count := len content in
  temp_remove tmp (
    run _ <- commit_files (<[tmp := content]>);
    run _ <- io_of (guard_err ((0 <? MaxFileBytes limits) && (MaxFileBytes limits <? count)) ErrFileTooLarge);
    run _ <- io_of (guard_err (quotaStream && (streamLimit <? count)) ErrQuotaExceeded);
    let sha := sha256_hex content in
    run _ <- io_of (guard_err (negb (String.eqb (po_Hash o) "") && negb (String.eqb (po_Hash o) sha)) ErrHashMismatch);
    run _ <- io_of (validate sha);
    installUpload env (mkCandidate tmp sha (po_Type o) (po_Uploader o) "" np.1 np.2 access (po_Purpose o) count (po_Commit o))).
Definition Put (env : BlobEnv) (tmp source : string) (o : PutOptions) : IO Blob :=
  run e <- putValidatedWithMetadata env tmp source o (λ _, mret tt); io_ret e.1.

(** ** Expiry *)

Definition lapsed (now : Z) (c : Claim) : bool := (0 <? cl_expires c) && (cl_expires c <=? now).
Definition live (now : Z) (c : Claim) : bool := (cl_expires c =? 0) || (now <? cl_expires c).
Definition claims_on (sha : string) (db : BlobDB) : list Claim :=
  (List.filter (λ kc : (string * string) * Claim, String.eqb kc.1.1 sha) (map_to_list (claims db))).*2.
(** In an order SQLite may report them. *)
Definition expired_blobs (now : Z) (db : BlobDB) : list string :=
  List.filter (λ sha, existsb (lapsed now) (claims_on sha db) && negb (existsb (live now) (claims_on sha db)))
    (elements (set_map fst (dom (claims db)) : gset string)).
Definition SweepExpired (now : Z) : IO Z := io_get (λ d,
  let expired := expired_blobs now (d_db d) in
  run _ <- io_each (λ sha, Delete sha now) expired;
  run _ <- commit_db (delete_claims (λ _ c, lapsed now c));
  io_ret (Z.of_nat (List.length expired))).

(** ** Opening: what a crash left *)

Definition recoverBlob (mtime : string → Z) (name : string) : IO unit := io_get (λ d,
  match d_files d !! name with
  | None => io_fail ("open orphan blob " +:+ name)
  | Some content =>
    run _ <- io_of (guard_err (negb (String.eqb (sha256_hex content) name)) ("orphan blob " +:+ name +:+ " failed content hash"));
    commit_db (insert_blob name (mkBlobRow (len content) "application/octet-stream" "" (mtime name) AccessPublic))
  end).

Definition reconcileStaged (name sha : string) : IO unit := io_get (λ d,
  match blobs (d_db d) !! sha, d_files d !! name with
  | None, _ => remove name
  | Some _, None => io_fail "no such file or directory"
  | Some r, Some content =>
    run _ <- io_of (guard_err (negb (len content =? br_size r)) "staged blob has another size");
    run _ <- io_of (guard_err (negb (String.eqb (sha256_hex content) sha)) "staged blob failed content hash");
    match d_files d !! sha with None => rename name sha | Some _ => remove name end
  end).

Definition reconcile_entry (mtime : string → Z) (name : string) : IO unit := io_get (λ d,
  if HasPrefix name ".scoped-" then
    let sha := TrimPrefix name ".scoped-" in
    if negb (shaPattern sha) then remove name else reconcileStaged name sha
  else if HasPrefix name ".upload-" || HasPrefix name ".multipart-chunk-" then remove name
  else if negb (shaPattern name) then io_ret tt
  else if bool_decide (is_Some (tombstones (d_db d) !! name)) || bool_decide (is_Some (blocks (d_db d) !! name)) then io_ret tt
  else if bool_decide (is_Some (blobs (d_db d) !! name)) then io_ret tt
  else recoverBlob mtime name).
(** [os.ReadDir] sorts by name. *)
Definition dir_names (d : Disk) : list string := sort_by (λ a b, negb (str_ltb b a)) (elements (dom (d_files d))).
Definition reconcile (mtime : string → Z) : IO unit := io_get (λ d, io_each (reconcile_entry mtime) (dir_names d)).
End Blob.
