(* ===== verification/Multipart.v ===== *)
(** * internal/blob: uploads in chunks (multipart.go)

    A session reserves the final length, receives chunks at offsets in any order
    and is verified and installed when they cover it.  What the service keeps in
    memory is threaded beside the disk; a finalization releases the lock while
    it hashes, so its three parts are separate operations.  The runs of the whole
    service are here too, with the deletions that take no lock.  The file of a
    session starts as zeros. *)

From S2P Require Import Prelude GoLib GoCodec GoLemmas GoStrings Blob.

Definition multipartExpiry : Z := 60.
Definition multipartChunkLimit : Z := 8388608.
Definition multipartStorageLimit : Z := 1073741824.
Definition multipartSessionLimit : Z := 64.
Definition multipartUserSessionLimit : Z := 16.
Definition multipartActiveLimit : Z := 32.
Definition multipartRangeLimit : Z := 1024.

Record multipartRequest := mkPart {
  mp_id : string; mp_hash : string; mp_uploader : string; mp_typ : string; mp_name : string; mp_metadataPath : string;
  mp_access : string; mp_purpose : string; mp_length : Z; mp_offset : Z; mp_count : Z }.

(** [activeParts] and [multipartFinalizing]. *)
Record Sessions := mkSessions { ss_active : gmap string Z; ss_finalizing : gset string }.
Definition no_sessions : Sessions := mkSessions ∅ ∅.

(** ** The request *)

(** A header or query parameter that is missing is empty. *)
Record PartRequest := mkPartRequest {
  pr_filename : string; pr_path : string; pr_access : string; pr_purpose : string; pr_ContentLength : Z; pr_ContentType : string;
  pr_UploadLength : string; pr_UploadOffset : string; pr_UploadType : string }.

(** [mime.ParseMediaType]: the media type, lowered and without parameters. *)
Class GoMime := { parse_media_type : string → option string }.

Definition multipartID (hash uploader : string) : string := hash +:+ "-" +:+ sha256_hex uploader.
Definition multipartPath (id : string) : string := ".multipart-" +:+ id.

Definition nonnegative_header (name raw : string) : result Z :=
  match ParseInt raw with
  | NumOk value => guard_err ((value <? 0) || String.eqb raw "" || negb (forallb (λ b, in_range 48 b 57) (bytes_of raw))) (name +:+ " must be a nonnegative integer");; mret value
  | _ => Err (name +:+ " must be a nonnegative integer")
  end.

Section Multipart.
Context `{GoUnicode} `{GoSniff} `{GoMime}.

Definition parseMultipart (r : PartRequest) (hash uploader : string) : result multipartRequest :=
  '(name, path) ← claimMetadata (pr_filename r) (pr_path r);
  access ← parseAccess (pr_access r);
  let purpose := TrimSpace (pr_purpose r) in
  guard_err (negb (contains [""; "chunk"; "file"] purpose)) "invalid upload purpose";;
  guard_err (pr_ContentLength r <? 0) "Content-Length is required";;
  guard_err (negb (String.eqb (pr_ContentType r) "application/octet-stream")) "Content-Type must be application/octet-stream";;
  length ← nonnegative_header "Upload-Length" (pr_UploadLength r);
  offset ← nonnegative_header "Upload-Offset" (pr_UploadOffset r);
  let count := pr_ContentLength r in
  guard_err ((length <? offset) || (length - offset <? count)) "chunk range exceeds Upload-Length";;
  guard_err ((count =? 0) && negb (length =? 0)) "nonempty uploads require nonempty chunks";;
  guard_err ((multipartChunkLimit <? count) || (multipartStorageLimit <? length)) "multipart upload exceeds temporary storage limits";;
  match parse_media_type (pr_UploadType r) with
  | Some typ =>
    guard_err (negb (Contains typ "/")) "Upload-Type must be a MIME type";;
    mret (mkPart (multipartID hash uploader) hash uploader (contentType typ) name path access purpose length offset count)
  | None => Err "Upload-Type must be a MIME type"
  end.

(** ** Sessions *)

Definition discardMultipart (id : string) : IO unit := run _ <- commit_db (delete_upload id); remove (multipartPath id).

(** Sessions whose last chunk is a minute old, and which no request uses. *)
Definition expired_sessions (now : Z) (ss : Sessions) (db : BlobDB) : list string :=
  omap (λ iu : string * Upload,
    if (up_last_seen iu.2 <=? now - multipartExpiry) && (default 0 (ss_active ss !! iu.1) =? 0) then Some iu.1 else None)
    (map_to_list (uploads db)).
Definition cleanupMultipart (now : Z) (ss : Sessions) : IO unit := io_get (λ d, io_each discardMultipart (expired_sessions now ss (d_db d))).

Definition checkMultipartQuota (db : BlobDB) (limits : Limits) (part : multipartRequest) : result unit :=
  if (UserStorageBytes limits =? 0) || hasClaim db (mp_hash part) (mp_uploader part) then mret tt
  else guard_err (quota_exceeded db limits (mp_uploader part) (mp_id part) (mp_length part)) ErrQuotaExceeded.

Definition zeros (n : Z) : string := string_of_list_ascii (replicate (Z.to_nat n) (char 0)).
Definition upload_total (db : BlobDB) : Z := sum_list ((λ iu : string * Upload, up_length iu.2) <$> map_to_list (uploads db)).
Definition user_sessions (db : BlobDB) (uploader : string) : Z :=
  Z.of_nat (size (filter (λ iu : string * Upload, up_uploader iu.2 = uploader) (uploads db))).
Definition sessions_full (db : BlobDB) (part : multipartRequest) : bool :=
  (multipartSessionLimit <=? Z.of_nat (size (uploads db))) || (multipartUserSessionLimit <=? user_sessions db (mp_uploader part))
  || (multipartStorageLimit - upload_total db <? mp_length part).
Definition createMultipart (now : Z) (part : multipartRequest) : IO unit := io_get (λ d,
  let db := d_db d in
  run _ <- io_of (guard_err (sessions_full db part) "temporary upload capacity is full");
  run _ <- commit_files (<[multipartPath (mp_id part) := zeros (mp_length part)]>);
  commit_db (upd_uploads (<[mp_id part :=
    mkUpload (mp_hash part) (mp_uploader part) (mp_length part) (mp_typ part) now now (mp_name part) (mp_metadataPath part) (mp_access part) (mp_purpose part)]>))).

(** A later chunk of a session may name it; without a name it keeps the first. *)
Definition touch_upload (now : Z) (part : multipartRequest) (u : Upload) : Upload :=
  let unnamed := String.eqb (mp_name part) "" && String.eqb (mp_metadataPath part) "" in
  mkUpload (up_sha256 u) (up_uploader u) (up_length u) (up_type u) (up_created u) now
    (if unnamed then up_name u else mp_name part) (if unnamed then up_path u else mp_metadataPath part) (up_access u)
    (if String.eqb (mp_purpose part) "" then up_purpose u else mp_purpose part).
Definition session_conflict (u : Upload) (part : multipartRequest) : bool :=
  negb (up_length u =? mp_length part) || negb (String.eqb (up_type u) (mp_typ part)) || negb (String.eqb (up_access u) (mp_access part))
  || negb (String.eqb (up_purpose u) "") && negb (String.eqb (up_purpose u) (mp_purpose part)).
Definition multipartAdmission (limits : Limits) (now : Z) (part : multipartRequest) : IO unit := io_get (λ d,
  let db := d_db d in let limits := currentLimits limits in
  run _ <- io_of (guard_err (blocked db (mp_hash part)) ErrBlocked);
  run _ <- io_of (guard_err ((0 <? MaxFileBytes limits) && (MaxFileBytes limits <? mp_length part)) ErrFileTooLarge);
  match lookup_blob db (mp_hash part) with
  | Some existing =>
    run _ <- io_of (guard_err (negb (B_Size existing =? mp_length part)) ErrMultipartConflict);
    io_of (checkMultipartQuota db limits part)
  | None =>
    match uploads db !! mp_id part with
    | Some u =>
      run _ <- io_of (guard_err (session_conflict u part) ErrMultipartConflict);
      run _ <- io_of (checkMultipartQuota db limits part);
      commit_db (upd_uploads (alter (touch_upload now part) (mp_id part)))
    | None =>
      run _ <- io_of (checkMultipartQuota db limits part);
      createMultipart now part
    end
  end).

Definition active_total (ss : Sessions) : Z := sum_list (map_to_list (ss_active ss)).*2.
Definition begin_part (id : string) (ss : Sessions) : Sessions := mkSessions (<[id := default 0 (ss_active ss !! id) + 1]> (ss_active ss)) (ss_finalizing ss).
Definition reserveMultipart (limits : Limits) (now : Z) (part : multipartRequest) (ss : Sessions) : IO Sessions :=
  run _ <- cleanupMultipart now ss;
  run _ <- io_of (guard_err (multipartActiveLimit <=? active_total ss) "too many active upload chunks");
  run _ <- multipartAdmission limits now part;
  io_ret (begin_part (mp_id part) ss).

Definition parts_of (db : BlobDB) (id : string) : list (Z * Z) :=
  omap (λ kl : (string * Z) * Z, if String.eqb kl.1.1 id then Some (kl.1.2, kl.1.2 + kl.2) else None) (map_to_list (parts db)).
(** The last request of a session without a byte discards it. *)
Definition releaseMultipart (id : string) (ss : Sessions) : IO Sessions := io_get (λ d,
  let n := default 0 (ss_active ss !! id) - 1 in
  if 0 <? n then io_ret (mkSessions (<[id := n]> (ss_active ss)) (ss_finalizing ss))
  else
    run _ <- match parts_of (d_db d) id with [] => discardMultipart id | _ => io_ret tt end;
    io_ret (mkSessions (delete id (ss_active ss)) (ss_finalizing ss))).

(** ** Chunks *)

(** The body must have the announced length, and the policy may refuse its hash. *)
Definition stageMultipart (validate : string → result unit) (tmp body : string) (part : multipartRequest) : IO string :=
  run _ <- io_of (guard_err (len body <? mp_count part) "chunk body is shorter than Content-Length");
  run _ <- io_of (guard_err (mp_count part <? len body) "chunk body is longer than Content-Length");
  run _ <- io_of (validate (sha256_hex body));
  run _ <- commit_files (<[tmp := body]>);
  io_ret tmp.

Definition span_leb (a b : Z * Z) : bool := a.1 <=? b.1.
(** The ranges sorted by their start; [merged] is the last range so far. *)
Fixpoint merge_ranges (merged : Z * Z) (l : list (Z * Z)) : list (Z * Z) :=
  match l with
  | [] => [merged]
  | span :: l =>
    if span.1 <=? merged.2 then merge_ranges (merged.1, Z.max merged.2 span.2) l
    else merged :: merge_ranges span l
  end.
Definition merged_ranges (l : list (Z * Z)) : list (Z * Z) :=
  match sort_by span_leb l with [] => [] | r :: l => merge_ranges r l end.
Definition multipartRanges (db : BlobDB) (part : multipartRequest) : result (list (Z * Z)) :=
  let merged := merged_ranges ((mp_offset part, mp_offset part + mp_count part) :: parts_of db (mp_id part)) in
  guard_err (multipartRangeLimit <? Z.of_nat (List.length merged)) "too many disjoint upload ranges";;
  mret merged.

(** Writing past the end extends the file. *)
Definition write_at (content chunk : string) (offset : nat) : string :=
  take_str offset content +:+ zeros (Z.of_nat offset - len content) +:+ chunk +:+ drop_str (offset + String.length chunk) content.
Definition writeMultipartChunk (path chunk : string) (offset : Z) : IO unit := io_get (λ d,
  match d_files d !! chunk, d_files d !! path with
  | Some bytes, Some content => commit_files (<[path := write_at content bytes (Z.to_nat offset)]>)
  | _, _ => io_fail "no such file or directory"
  end).

Definition recordMultipartRanges (id : string) (now : Z) (ranges : list (Z * Z)) : IO unit :=
  commit_db (λ db, upd_uploads (alter (λ u,
      mkUpload (up_sha256 u) (up_uploader u) (up_length u) (up_type u) (up_created u) now (up_name u) (up_path u) (up_access u) (up_purpose u)) id)
    (upd_parts (λ m, list_to_map ((λ span : Z * Z, ((id, span.1), span.2 - span.1)) <$> ranges) ∪ filter (λ kl, kl.1.1 ≠ id) m) db)).

Definition on_error {A} (m : IO A) (cleanup : IO unit) : IO A := λ d,
  match m d with
  | (l, d, Ok a) => (l, d, Ok a)
  | (l, d, Err e) => let '(l', d', _) := cleanup d in (l ++ l', d', Err e)
  end.

Definition part_candidate (part : multipartRequest) (path name metadataPath purpose : string) : uploadCandidate :=
  mkCandidate path (mp_hash part) (mp_typ part) (mp_uploader part) (mp_id part) name metadataPath (mp_access part) purpose (mp_length part) None.

(** What the locked part of a commit ends with: the blob was there, chunks are
    missing, or the assembled file is to be verified. *)
Inductive PartOutcome :=
| Stored (entry : Blob)
| Incomplete
| Finalize (cd : uploadCandidate).

Definition commitMultipart (env : BlobEnv) (part : multipartRequest) (chunk : string) (ss : Sessions) : IO (PartOutcome * Sessions) :=
  run _ <- io_of (guard_err (bool_decide (mp_id part ∈ ss_finalizing ss)) "multipart upload is being finalized");
  run _ <- multipartAdmission (be_limits env) (be_now env) part;
  io_get (λ d,
    let unnamed := String.eqb (mp_name part) "" && String.eqb (mp_metadataPath part) "" in
    let '(name, path, purpose) :=
      match uploads (d_db d) !! mp_id part with
      | Some u => if unnamed then (up_name u, up_path u, up_purpose u) else (mp_name part, mp_metadataPath part, mp_purpose part)
      | None => (mp_name part, mp_metadataPath part, mp_purpose part)
      end in
    match lookup_blob (d_db d) (mp_hash part) with
    | Some existing =>
      run _ <- io_of (guard_err (negb (B_Size existing =? mp_length part)) ErrMultipartConflict);
      run e <- installUpload env (part_candidate part "" name path purpose);
      io_ret (Stored e.1, ss)
    | None =>
      run ranges <- io_of (multipartRanges (d_db d) part);
      let cd := part_candidate part (multipartPath (mp_id part)) name path purpose in
      run _ <- on_error (writeMultipartChunk (cd_path cd) chunk (mp_offset part)) (discardMultipart (mp_id part));
      run _ <- recordMultipartRanges (mp_id part) (be_now env) ranges;
      io_ret (match ranges with
              | [(start, stop)] =>
                if (start =? 0) && (stop =? mp_length part) then (Finalize cd, mkSessions (ss_active ss) ({[mp_id part]} ∪ ss_finalizing ss))
                else (Incomplete, ss)
              | _ => (Incomplete, ss)
              end)
    end).

(** [verifyMultipart], outside the lock; [canceled] is a request that went away,
    whose session stays complete for a retry. *)
Definition verifyMultipart (cd : uploadCandidate) (d : Disk) : result unit :=
  match d_files d !! cd_path cd with
  | None => Err "no such file or directory"
  | Some content => guard_err (negb (len content =? cd_size cd) || negb (String.eqb (sha256_hex content) (cd_hash cd))) ErrHashMismatch
  end.
Definition end_finalizing (id : string) (ss : Sessions) : Sessions := mkSessions (ss_active ss) (ss_finalizing ss ∖ {[id]}).
Definition finalize_failed (canceled : bool) (cd : uploadCandidate) (ss : Sessions) : IO Sessions :=
  run _ <- (if canceled then io_ret tt else discardMultipart (cd_reservation cd));
  io_ret (end_finalizing (cd_reservation cd) ss).
Definition finalize_install (env : BlobEnv) (cd : uploadCandidate) (ss : Sessions) : IO (result (Blob * bool) * Sessions) := λ d,
  let '(l, d, r) := installUpload env cd d in
  let '(l', d', _) := discardMultipart (cd_reservation cd) d in
  (l ++ l', d', Ok (r, end_finalizing (cd_reservation cd) ss)).

(** ** Opening *)

Definition reconcile_session (name : string) : IO unit := io_get (λ d,
  if negb (HasPrefix name ".multipart-") then io_ret tt
  else
    let id := TrimPrefix name ".multipart-" in
    match uploads (d_db d) !! id, d_files d !! name with
    | None, _ => remove name
    | Some u, Some content => if len content =? up_length u then io_ret tt else discardMultipart id
    | Some u, None => io_ret tt
    end).
Definition missing_sessions (d : Disk) : list string :=
  List.filter (λ id, negb (bool_decide (is_Some (d_files d !! multipartPath id)))) (elements (dom (uploads (d_db d)))).
Definition reconcileMultipart (now : Z) : IO unit :=
  run _ <- cleanupMultipart now no_sessions;
  run _ <- io_get (λ d, io_each reconcile_session (dir_names d));
  io_get (λ d, io_each discardMultipart (missing_sessions d)).

(** [New], past the schema. *)
Definition New (mtime : string → Z) (now : Z) : IO unit := run _ <- reconcile mtime; reconcileMultipart now.

(** ** The service at work *)

(** A request between two of its locked parts: it reads its body, holds a
    staged chunk, verifies the assembled file, is about to install it, or is
    done and removes its chunk and its hold on the session. *)
Inductive Thread :=
| Began (part : multipartRequest)
| Held (part : multipartRequest) (chunk : string)
| Verifying (part : multipartRequest) (chunk : string) (cd : uploadCandidate)
| Verified (part : multipartRequest) (chunk : string) (cd : uploadCandidate)
| Ending (part : multipartRequest) (chunk : option string).
(** Deletions and blocks take no lock: what each of them has still to do. *)
Inductive Removal :=
| ToEntomb (sha : string) (now : Z)
| ToUnlist (sha : string)
| ToRemove (sha : string).
Record Run := mkRun { r_disk : Disk; r_sessions : Sessions; r_threads : list Thread; r_pending : list Removal }.

Definition io_try {A} (m : IO A) : IO (result A) := λ d, let '(l, d, r) := m d in (l, d, Ok r).

(** [multipart], a part at a time.  [ts] are the other requests. *)
Definition begin_multipart (limits : Limits) (now : Z) (r : PartRequest) (hash uploader : string) (ss : Sessions) (ts : list Thread) : IO (Sessions * list Thread) :=
  match parseMultipart r hash uploader with
  | Err _ => io_ret (ss, ts)
  | Ok part =>
    run res <- io_try (reserveMultipart limits now part ss);
    io_ret (match res with Ok ss => (ss, Began part :: ts) | Err _ => (ss, ts) end)
  end.
Definition hold_multipart (validate : string → result unit) (tmp body : string) (part : multipartRequest) (ss : Sessions) (ts : list Thread) : IO (Sessions * list Thread) :=
  run res <- io_try (stageMultipart validate tmp body part);
  io_ret (match res with Ok chunk => (ss, Held part chunk :: ts) | Err _ => (ss, Ending part None :: ts) end).
Definition commit_multipart (env : BlobEnv) (part : multipartRequest) (chunk : string) (ss : Sessions) (ts : list Thread) : IO (Sessions * list Thread) :=
  run res <- io_try (commitMultipart env part chunk ss);
  io_ret (match res with
          | Ok (Finalize cd, ss) => (ss, Verifying part chunk cd :: ts)
          | Ok (_, ss) => (ss, Ending part (Some chunk) :: ts)
          | Err _ => (ss, Ending part (Some chunk) :: ts)
          end).
Definition verify_multipart (canceled : bool) (part : multipartRequest) (chunk : string) (cd : uploadCandidate) (ss : Sessions) (ts : list Thread) : IO (Sessions * list Thread) := io_get (λ d,
  match (if canceled then Err "context canceled" else verifyMultipart cd d) with
  | Ok _ => io_ret (ss, Verified part chunk cd :: ts)
  | Err _ => run ss <- finalize_failed canceled cd ss; io_ret (ss, Ending part (Some chunk) :: ts)
  end).
Definition install_multipart (env : BlobEnv) (part : multipartRequest) (chunk : string) (cd : uploadCandidate) (ss : Sessions) (ts : list Thread) : IO (Sessions * list Thread) :=
  run r <- finalize_install env cd ss; io_ret (r.2, Ending part (Some chunk) :: ts).
(** The deferred calls, the last one first. *)
Definition end_multipart (part : multipartRequest) (chunk : option string) (ss : Sessions) (ts : list Thread) : IO (Sessions * list Thread) :=
  match chunk with
  | Some chunk => run _ <- remove chunk; io_ret (ss, Ending part None :: ts)
  | None => run ss <- releaseMultipart (mp_id part) ss; io_ret (ss, ts)
  end.

(** A call that runs under its locks, whatever it answers. *)
Definition alone {A} (m : IO A) (ss : Sessions) (ts : list Thread) : IO (Sessions * list Thread) := run _ <- io_try m; io_ret (ss, ts).

(** The moderation of the community hides blobs with the events. *)
Definition set_hidden (ids : gset string) (db : BlobDB) : BlobDB :=
  mkBlobDB (blobs db) (claims db) (metas db) (reports db) (blocks db) (tombstones db) (uploads db) (parts db) ids.

(** [os.CreateTemp] *)
Definition fresh_temp (name : string) (d : Disk) : bool :=
  (HasPrefix name ".upload-" || HasPrefix name ".multipart-chunk-") && negb (bool_decide (is_Some (d_files d !! name))).

(** [Delete], [DeleteForUploader] and [Block], a statement at a time.  [ps] are
    the others that have begun. *)
Definition begin_delete (sha : string) (now : Z) (ps : list Removal) : IO (list Removal) :=
  if negb (shaPattern sha) then io_ret ps else run _ <- Delete_tx sha now; io_ret (ToRemove sha :: ps).
Definition begin_release (sha uploader : string) (now : Z) (ps : list Removal) : IO (list Removal) :=
  if negb (shaPattern sha) then io_ret ps
  else run res <- io_try (Release_tx sha uploader now); io_ret (match res with Ok true => ToRemove sha :: ps | _ => ps end).
Definition begin_block (sha reason : string) (now : Z) (ps : list Removal) : IO (list Removal) :=
  if negb (shaPattern sha) then io_ret ps else run _ <- put_block sha reason now; io_ret (ToEntomb sha now :: ps).
Definition next_pending (p : Removal) (ps : list Removal) : IO (list Removal) :=
  match p with
  | ToEntomb sha now => run _ <- commit_db (entomb sha now); io_ret (ToUnlist sha :: ps)
  | ToUnlist sha => run _ <- commit_db (delete_blob sha); io_ret (ToRemove sha :: ps)
  | ToRemove sha => run _ <- remove sha; io_ret ps
  end.
(** A step of theirs, which needs no lock.  [tidy] restricts the runs: the
    bytes are removed only while no row names them, that is, nobody stored them
    again after the deletion's row was gone. *)
Class Tidy := tidy : Prop.
Definition anytime : Tidy := False.
Definition tidily : Tidy := True.
Definition may_remove {T : Tidy} (d : Disk) (p : Removal) : Prop :=
  match p with ToRemove sha => tidy → blobs (d_db d) !! sha = None | _ => True end.
Inductive unlocked {T : Tidy} (r : Run) : IO (list Removal) → Prop :=
| un_delete sha now : unlocked r (begin_delete sha now (r_pending r))
| un_release sha uploader now : unlocked r (begin_release sha uploader now (r_pending r))
| un_block sha reason now : unlocked r (begin_block sha reason now (r_pending r))
| un_next p ps : r_pending r ≡ₚ p :: ps → may_remove (r_disk r) p → unlocked r (next_pending p ps).

(** The parts of a chunk's request. *)
Inductive chunk_op (P : Limits → Prop) (r : Run) : IO (Sessions * list Thread) → Prop :=
| chunk_begin limits now req hash uploader :
  P limits → shaPattern hash = true → chunk_op P r (begin_multipart limits now req hash uploader (r_sessions r) (r_threads r))
| chunk_hold validate tmp body part ts :
  r_threads r ≡ₚ Began part :: ts → fresh_temp tmp (r_disk r) = true → chunk_op P r (hold_multipart validate tmp body part (r_sessions r) ts)
| chunk_commit env part chunk ts :
  P (be_limits env) → r_threads r ≡ₚ Held part chunk :: ts → chunk_op P r (commit_multipart env part chunk (r_sessions r) ts)
| chunk_verify canceled part chunk cd ts :
  r_threads r ≡ₚ Verifying part chunk cd :: ts → chunk_op P r (verify_multipart canceled part chunk cd (r_sessions r) ts)
| chunk_install env part chunk cd ts :
  P (be_limits env) → r_threads r ≡ₚ Verified part chunk cd :: ts → chunk_op P r (install_multipart env part chunk cd (r_sessions r) ts)
| chunk_end part chunk ts :
  r_threads r ≡ₚ Ending part chunk :: ts → chunk_op P r (end_multipart part chunk (r_sessions r) ts).

(** What may run next under the locks and limits that satisfy [P]: one part
    of a request that holds them, or one statement. *)
Inductive op (P : Limits → Prop) (r : Run) : IO (Sessions * list Thread) → Prop :=
| op_put env tmp source o validate :
  P (be_limits env) → fresh_temp tmp (r_disk r) = true →
  op P r (alone (putValidatedWithMetadata env tmp source o validate) (r_sessions r) (r_threads r))
| op_name uploader sha name path purpose typ size now :
  op P r (alone (SetClaimMetadata uploader sha name path purpose typ size now) (r_sessions r) (r_threads r))
| op_hide ids : op P r (alone (commit_db (set_hidden ids)) (r_sessions r) (r_threads r))
| op_report f : op P r (alone (commit_db (upd_reports f)) (r_sessions r) (r_threads r))
| op_sweep now : op P r (alone (SweepExpired now) (r_sessions r) (r_threads r))
| op_cleanup now : op P r (alone (cleanupMultipart now (r_sessions r)) (r_sessions r) (r_threads r))
| op_chunk m : chunk_op P r m → op P r m.

(** The runs of the service from an empty disk, and the disks a crash leaves:
    in the middle of an operation, or of an opening after another crash.  A
    statement without a lock leaves the disk it ends in. *)
Inductive reachable {T : Tidy} (P : Limits → Prop) : Run → Prop :=
| run_first : reachable P (mkRun (mkDisk no_blobs ∅) no_sessions [] [])
| run_op r m l d ss ts : reachable P r → op P r m → m (r_disk r) = (l, d, Ok (ss, ts)) → reachable P (mkRun d ss ts (r_pending r))
| run_unlocked r m l d ps : reachable P r → unlocked r m → m (r_disk r) = (l, d, Ok ps) → reachable P (mkRun d (r_sessions r) (r_threads r) ps)
| run_open d mtime now l d' : crashed P d → New mtime now d = (l, d', Ok tt) → reachable P (mkRun d' no_sessions [] [])
with crashed {T : Tidy} (P : Limits → Prop) : Disk → Prop :=
| crash_idle r : reachable P r → crashed P (r_disk r)
| crash_op r m l d res d' : reachable P r → op P r m → m (r_disk r) = (l, d, res) → d' ∈ l → crashed P d'
| crash_open d mtime now l d' res d'' : crashed P d → New mtime now d = (l, d', res) → d'' ∈ l → crashed P d''.
End Multipart.
