(* ===== verification/BlobProps.v ===== *)
(** * internal/blob: the invariant of the stored bytes

    Rules for programs that leave disks behind them, the names of the blob
    directory, and the invariants: [CInv] holds on every disk an operation
    leaves, [Inv] when it ends. *)

From S2P Require Import Prelude GoLib GoCodec GoLemmas GoStrings Nostr NostrProps Blob Multipart.

(** ** Rules for operations *)

Section Rules.
(** [C] holds on every disk left behind, [I] after an error. *)
Context (C I : Disk → Prop).

Definition safe {A} (P : Disk → Prop) (m : IO A) (Q : A → Disk → Prop) : Prop :=
  ∀ d, P d → ∀ l d' r, m d = (l, d', r) → Forall C l ∧ match r with Ok a => Q a d' | Err _ => I d' end.

Lemma safe_ret {A} (P : Disk → Prop) (a : A) Q : (∀ d, P d → Q a d) → safe P (io_ret a) Q.
Proof. intros HQ d HP l d' r [= <- <- <-]. split; [constructor|by apply HQ]. Qed.

Lemma safe_of {A} (P : Disk → Prop) (m : result A) Q :
  (∀ d, P d → I d) → (∀ a d, m = Ok a → P d → Q a d) → safe P (io_of m) Q.
Proof. intros HI HQ d HP l d' r [= <- <- <-]. split; [constructor|]. destruct m as [a|e]; [by apply HQ|by apply HI]. Qed.

Lemma safe_fail {A} (P : Disk → Prop) e (Q : A → Disk → Prop) : (∀ d, P d → I d) → safe P (io_fail e) Q.
Proof. intros HI d HP l d' r [= <- <- <-]. split; [constructor|by apply HI]. Qed.

Lemma safe_get {A} (P : Disk → Prop) (f : Disk → IO A) Q : (∀ d0, P d0 → safe (λ d, d = d0 ∧ P d) (f d0) Q) → safe P (io_get f) Q.
Proof. intros Hf d HP l d' r E. by apply (Hf d HP d (conj eq_refl HP) l d' r). Qed.

Lemma safe_commit (P : Disk → Prop) f (Q : unit → Disk → Prop) : (∀ d, P d → C (f d) ∧ Q tt (f d)) → safe P (commit f) Q.
Proof. intros Hf d HP l d' r [= <- <- <-]. destruct (Hf d HP). split; [by repeat constructor|done]. Qed.

Lemma safe_bind {A B} (P : Disk → Prop) (m : IO A) (k : A → IO B) Q R :
  safe P m Q → (∀ a, safe (Q a) (k a) R) → safe P (io_bind m k) R.
Proof.
  intros Hm Hk d HP l d' r. unfold io_bind. destruct (m d) as [[l1 d1] r1] eqn:E. destruct (Hm d HP l1 d1 r1 E) as [HC HQ].
  destruct r1 as [a|e]; [|by intros [= <- <- <-]].
  destruct (k a d1) as [[l2 d2] r2] eqn:E2. intros [= <- <- <-]. destruct (Hk a d1 HQ l2 d2 r2 E2) as [HC2 HR].
  split; [by apply Forall_app|done].
Qed.

(** A check before the next statement. *)
Lemma safe_pure {A B} (P : Disk → Prop) (r : result A) (k : A → IO B) Q :
  (∀ d, P d → I d) → (∀ a, r = Ok a → safe P (k a) Q) → safe P (io_bind (io_of r) k) Q.
Proof.
  intros HI Hk. destruct r as [a|e]; intros d HP l d' r'; unfold io_bind, io_of; [|by intros [= <- <- <-]; split; [constructor|apply HI]].
  destruct (k a d) as [[l2 d2] r2] eqn:E. intros [= <- <- <-]. by apply (Hk a eq_refl d HP).
Qed.

Lemma safe_guard {B} (P : Disk → Prop) b m (k : IO B) Q :
  (∀ d, P d → I d) → (b = false → safe P k Q) → safe P (io_bind (io_of (guard_err b m)) (λ _, k)) Q.
Proof. intros HI Hk. apply safe_pure; [done|]. intros [] Hb%guard_Ok_tt. by apply Hk. Qed.

Lemma safe_conseq {A} (P P' : Disk → Prop) (m : IO A) (Q Q' : A → Disk → Prop) :
  safe P' m Q' → (∀ d, P d → P' d) → (∀ a d, Q' a d → Q a d) → safe P m Q.
Proof. intros Hm HP HQ d Hd l d' r E. destruct (Hm d (HP d Hd) l d' r E) as [HC HR]. split; [done|]. destruct r; auto. Qed.

Lemma safe_each {A} (J : Disk → Prop) (f : A → IO unit) l : (∀ a, a ∈ l → safe J (f a) (λ _, J)) → safe J (io_each f l) (λ _, J).
Proof.
  induction l as [|a l IH]; intros Hf; cbn; [by apply safe_ret|].
  eapply safe_bind; [apply Hf, list_elem_of_here|]. intros u. apply IH. intros b Hb. by apply Hf, list_elem_of_further.
Qed.

(** What must hold whatever the result is. *)
Lemma safe_keeps {A} (P : Disk → Prop) (m : IO A) Q : safe P m Q → (∀ a d, Q a d → I d) → ∀ d l d' r, P d → m d = (l, d', r) → Forall C l ∧ I d'.
Proof. intros Hm HQ d l d' r HP E. destruct (Hm d HP l d' r E) as [HC HR]. split; [done|]. destruct r; [by eapply HQ|done]. Qed.
End Rules.

(** ** The names in the directory *)

#[global] Arguments scoped_name : simpl never.
#[global] Arguments multipartPath : simpl never.

Definition temp_name (s : string) : bool := HasPrefix s ".upload-" || HasPrefix s ".multipart-chunk-".

Lemma HasPrefix_cons a p b s : HasPrefix (String b s) (String a p) = Ascii.eqb a b && HasPrefix s p.
Proof.
  unfold HasPrefix. change (String.prefix (String a p) (String b s)) with (if ascii_dec a b then String.prefix p s else false).
  destruct (ascii_dec a b) as [->|Hn]; [by rewrite Ascii.eqb_refl|]. apply Ascii.eqb_neq in Hn. by rewrite Hn.
Qed.

Lemma HasPrefix_nil s : HasPrefix s "" = true.
Proof. by destruct s. Qed.

Lemma prefix_app p s : HasPrefix (p +:+ s) p = true.
Proof. induction p as [|a p IH]; [apply HasPrefix_nil|]. by rewrite str_app_cons, HasPrefix_cons, Ascii.eqb_refl. Qed.

Lemma prefix_split p s : HasPrefix s p = true → s = p +:+ drop_str (String.length p) s.
Proof.
  revert s. induction p as [|a p IH]; intros s; [by destruct s|]. destruct s as [|b s]; [done|].
  rewrite HasPrefix_cons, andb_true_iff. intros [->%Ascii.eqb_eq Hp]. cbn. by rewrite <-(IH s Hp).
Qed.

Lemma trim_prefix_app p s : TrimPrefix (p +:+ s) p = s.
Proof. unfold TrimPrefix. rewrite prefix_app. induction p as [|a p IH]; [by destruct s|exact IH]. Qed.

Lemma sha_first s : shaPattern s = true → ∃ a b r, s = String a (String b r) ∧ lower_hex_byte (byte_of a) = true ∧ lower_hex_byte (byte_of b) = true.
Proof.
  unfold shaPattern. rewrite andb_true_iff. intros [Hl Hs]. destruct s as [|a [|b r]]; [done|done|].
  cbn [bytes_of forallb] in Hs. rewrite !andb_true_iff in Hs. destruct Hs as (Ha & Hb & _). by exists a, b, r.
Qed.

Lemma sha_not_dotted s : shaPattern s = true → HasPrefix s "." = false.
Proof.
  intros (a & b & r & -> & Ha & _)%sha_first. rewrite HasPrefix_cons, andb_false_iff. left. apply Ascii.eqb_neq. intros <-. by vm_compute in Ha.
Qed.

Lemma prefix_trans s p q : HasPrefix s (p +:+ q) = true → HasPrefix s p = true.
Proof.
  revert s. induction p as [|a p IH]; intros s; [intros _; apply HasPrefix_nil|]. destruct s as [|b s]; [done|].
  rewrite str_app_cons, !HasPrefix_cons, !andb_true_iff. intros [-> Hp]. split; [done|by apply IH].
Qed.

Lemma sha_not_temp s : shaPattern s = true → temp_name s = false.
Proof.
  intros Hs%sha_not_dotted. unfold temp_name. apply orb_false_iff. split; apply not_true_iff_false; intros Ht.
  - by rewrite (prefix_trans s "." "upload-" Ht) in Hs.
  - by rewrite (prefix_trans s "." "multipart-chunk-" Ht) in Hs.
Qed.

Lemma sha_not_scoped s x : shaPattern s = true → s ≠ scoped_name x.
Proof. intros Hs%sha_not_dotted ->. by pose proof (eq_trans (eq_sym (prefix_app "." ("scoped-" +:+ x))) Hs). Qed.

Lemma sha_not_session s id : shaPattern s = true → s ≠ multipartPath id.
Proof. intros Hs%sha_not_dotted ->. by pose proof (eq_trans (eq_sym (prefix_app "." ("multipart-" +:+ id))) Hs). Qed.

Lemma temp_not_scoped s x : temp_name s = true → s ≠ scoped_name x.
Proof. intros Ht ->. by vm_compute in Ht. Qed.

Lemma scoped_not_session x id : scoped_name x ≠ multipartPath id.
Proof. intros E. by vm_compute in E. Qed.

#[export] Instance scoped_inj : Inj (=) (=) scoped_name.
Proof. intros x y E. by apply str_app_inv_head in E. Qed.
#[export] Instance multipartPath_inj : Inj (=) (=) multipartPath.
Proof. intros x y E. by apply str_app_inv_head in E. Qed.

(** The identifier of a session begins with a hash, that of a chunk with a word. *)
Lemma temp_not_session s h u : temp_name s = true → shaPattern h = true → s ≠ multipartPath (multipartID h u).
Proof.
  intros Ht (a & b & r & -> & _ & Hb)%sha_first ->. unfold temp_name, multipartPath, multipartID in Ht.
  apply orb_true_iff in Ht as [Ht|Ht]; [by vm_compute in Ht|].
  change (".multipart-" +:+ String a (String b r) +:+ "-" +:+ sha256_hex u)
    with (".multipart-" +:+ String a (String b (r +:+ "-" +:+ sha256_hex u))) in Ht.
  change ".multipart-chunk-" with (".multipart-" +:+ String "c" (String "h" "unk-")) in Ht.
  revert Ht. generalize (r +:+ "-" +:+ sha256_hex u). intros t Ht.
  assert (HasPrefix (String a (String b t)) (String "c" (String "h" "unk-")) = true) as Hp by (rewrite !str_app_cons, !HasPrefix_cons in Ht; exact Ht).
  rewrite !HasPrefix_cons, !andb_true_iff in Hp. destruct Hp as (_ & Hh & _). apply Ascii.eqb_eq in Hh as <-. by vm_compute in Hb.
Qed.

(** ** The invariants

    That a row has its bytes holds in the runs that are [tidy], the rest in all
    of them. *)

Section Tidying.
Context {Tdy : Tidy}.

Definition digest_ok (d : Disk) : Prop := ∀ name c, d_files d !! name = Some c → shaPattern name = true → sha256_hex c = name.
(** A row has the digest and the size of some bytes. *)
Definition row_ok (sha : string) (r : BlobRow) : Prop := shaPattern sha = true ∧ ∃ c, sha256_hex c = sha ∧ len c = br_size r.
Definition scoped_ok (d : Disk) : Prop := ∀ sha c, d_files d !! scoped_name sha = Some c →
  shaPattern sha = true ∧ sha256_hex c = sha ∧ ∀ r, blobs (d_db d) !! sha = Some r → len c = br_size r.
Definition session_id (id : string) (u : Upload) : Prop :=
  id = multipartID (up_sha256 u) (up_uploader u) ∧ shaPattern (up_sha256 u) = true ∧ 0 ≤ up_length u.

(** The keys other tables refer to. *)
Record KeysOK (db : BlobDB) : Prop := {
  keys_rows sha r : blobs db !! sha = Some r → row_ok sha r;
  keys_claims k c : claims db !! k = Some c → is_Some (blobs db !! k.1);
  keys_metas k m : metas db !! k = Some m → is_Some (claims db !! k.1);
  keys_parts k n : parts db !! k = Some n → is_Some (uploads db !! k.1);
  keys_uploads id u : uploads db !! id = Some u → session_id id u;
}.

Record CInv (d : Disk) : Prop := {
  ci_digest : digest_ok d;
  ci_keys : KeysOK (d_db d);
  ci_scoped : scoped_ok d;
  ci_present sha : tidy → is_Some (blobs (d_db d) !! sha) → is_Some (d_files d !! sha) ∨ is_Some (d_files d !! scoped_name sha);
}.

Definition session_file (d : Disk) : Prop :=
  ∀ id u, uploads (d_db d) !! id = Some u → ∃ c, d_files d !! multipartPath id = Some c ∧ len c = up_length u.
Record Inv (d : Disk) : Prop := {
  inv_crash : CInv d;
  inv_no_scoped sha : d_files d !! scoped_name sha = None;
  inv_sessions : session_file d;
}.

Lemma inv_present d : Inv d → ∀ sha, tidy → is_Some (blobs (d_db d) !! sha) → is_Some (d_files d !! sha).
Proof. intros HI sha HT Hr. destruct (ci_present d (inv_crash d HI) sha HT Hr) as [?|[c E]]; [done|]. by rewrite (inv_no_scoped d HI) in E. Qed.

Lemma store_empty : Inv (mkDisk no_blobs ∅).
Proof.
  split; [split; [|split|..]|..]; try (repeat intro; cbn in *; by simplify_map_eq).
Qed.

(** ** Statements keep the keys *)

(** The statement touches none of the keys. *)
Lemma KeysOK_ext db db' :
  blobs db' = blobs db → claims db' = claims db → metas db' = metas db → parts db' = parts db → uploads db' = uploads db → KeysOK db → KeysOK db'.
Proof. intros E1 E2 E3 E4 E5 [K1 K2 K3 K4 K5]. split; rewrite ?E1, ?E2, ?E3, ?E4, ?E5; done. Qed.

Lemma lookup_filter_is {K A} `{Countable K} (p : K * A → Prop) `{∀ x, Decision (p x)} (m : gmap K A) k a :
  filter p m !! k = Some a ↔ m !! k = Some a ∧ p (k, a).
Proof. apply map_lookup_filter_Some. Qed.

Lemma KeysOK_delete_metas p db : KeysOK db → KeysOK (delete_metas p db).
Proof.
  intros [K1 K2 K3 K4 K5]. split; [done..| |done|done].
  intros k m [Hm _]%lookup_filter_is. by eapply K3.
Qed.

Lemma KeysOK_delete_claims p db : KeysOK db → KeysOK (delete_claims p db).
Proof.
  intros [K1 K2 K3 K4 K5]. split; [done| | |done|done].
  - intros k c [Hc _]%lookup_filter_is. by eapply K2.
  - intros k m [Hm Hg]%lookup_filter_is. cbn in Hg, Hm. destruct (K3 k m Hm) as [c Hc].
    exists c. apply lookup_filter_is. split; [exact Hc|]. cbn. by rewrite Hc in Hg.
Qed.

Lemma claims_delete_claims p db k c : claims (delete_claims p db) !! k = Some c ↔ claims db !! k = Some c ∧ p k c = false.
Proof. cbn. apply lookup_filter_is. Qed.

Lemma KeysOK_delete_blob sha db : KeysOK db → KeysOK (delete_blob sha db).
Proof.
  intros [K1 K2 K3 K4 K5]. split; [| | |done|done].
  - intros s r. cbn. intros [_ Hr]%lookup_delete_Some. by apply K1.
  - intros k c [Hc Hp]%claims_delete_claims. apply String.eqb_neq in Hp. destruct (K2 k c Hc) as [r Hr].
    exists r. cbn. by rewrite lookup_delete_ne.
  - intros k m [Hm Hg]%lookup_filter_is. cbn in Hg, Hm. destruct (K3 k m Hm) as [c Hc].
    exists c. apply claims_delete_claims. split; [exact Hc|]. by rewrite Hc in Hg.
Qed.

Lemma KeysOK_insert_claim k c db : is_Some (blobs db !! k.1) → KeysOK db → KeysOK (upd_claims (<[k := c]>) db).
Proof.
  intros Hb [K1 K2 K3 K4 K5]. split; [done| | |done|done].
  - intros k' c'. cbn. intros [[<- _]|[_ Hc]]%lookup_insert_Some; [done|by eapply K2].
  - intros k' m Hm. cbn. apply lookup_insert_is_Some'. right. by eapply K3.
Qed.

Lemma KeysOK_claimSQL sha u now ex db : is_Some (blobs db !! sha) → KeysOK db → KeysOK (claimSQL sha u now ex db).
Proof. intros Hb. by apply (KeysOK_insert_claim (sha, u)). Qed.

Lemma KeysOK_insert_meta k m db : is_Some (claims db !! k.1) → KeysOK db → KeysOK (upd_metas (<[k := m]>) db).
Proof.
  intros Hb [K1 K2 K3 K4 K5]. split; [done..| |done|done].
  intros k' m'. cbn. intros [[<- _]|[_ Hm]]%lookup_insert_Some; [done|by eapply K3].
Qed.

Lemma KeysOK_saveClaimMetadata sha u n p pu now db : is_Some (claims db !! (sha, u)) → KeysOK db → KeysOK (saveClaimMetadata sha u n p pu now db).
Proof. intros Hc HK. unfold saveClaimMetadata. case_match; [done|]. by apply (KeysOK_insert_meta (sha, u, p)). Qed.

Lemma KeysOK_insert_blob sha r db : row_ok sha r → KeysOK db → KeysOK (insert_blob sha r db).
Proof.
  intros Hr HK. unfold insert_blob. destruct (blobs db !! sha) as [r0|] eqn:E; [done|].
  assert (KeysOK (upd_blobs (<[sha := r]>) db)) as HK'.
  { destruct HK as [K1 K2 K3 K4 K5]. split; [| |done..].
    - intros s r'. cbn. intros [[<- <-]|[_ Hr']]%lookup_insert_Some; [done|by apply K1].
    - intros k c Hc. cbn. apply lookup_insert_is_Some'. right. by eapply K2. }
  case_match; [done|]. case_match; [done|]. apply KeysOK_insert_claim; [|done]. cbn. rewrite lookup_insert_eq. by eexists.
Qed.

Lemma KeysOK_delete_upload id db : KeysOK db → KeysOK (delete_upload id db).
Proof.
  intros [K1 K2 K3 K4 K5]. split; [done..| |].
  - intros k n. cbn. intros [Hn Hk]%lookup_filter_is. rewrite lookup_delete_ne by (intros ->; by apply Hk). by eapply K4.
  - intros i u. cbn. intros [_ Hu]%lookup_delete_Some. by apply K5.
Qed.

Lemma KeysOK_release id db : KeysOK db → KeysOK (release_reservation id db).
Proof. intros HK. unfold release_reservation. case_match; [done|by apply KeysOK_delete_upload]. Qed.

Lemma KeysOK_insert_upload id u db : session_id id u → KeysOK db → KeysOK (upd_uploads (<[id := u]>) db).
Proof.
  intros Hs [K1 K2 K3 K4 K5]. split; [done..| |].
  - intros k n Hn. cbn. apply lookup_insert_is_Some'. right. by eapply K4.
  - intros i u'. cbn. intros [[<- <-]|[_ Hu]]%lookup_insert_Some; [done|by apply K5].
Qed.

Lemma KeysOK_alter_upload id f db : (∀ u, session_id id u → session_id id (f u)) → KeysOK db → KeysOK (upd_uploads (alter f id) db).
Proof.
  intros Hf [K1 K2 K3 K4 K5]. split; [done..| |].
  - intros k n Hn. cbn. rewrite lookup_alter_is_Some. by eapply K4.
  - intros i u'. cbn. destruct (decide (i = id)) as [->|Hn].
    + rewrite lookup_alter_eq. intros (u & Hu & ->)%fmap_Some. apply Hf. by apply K5.
    + rewrite lookup_alter_ne by done. by apply K5.
Qed.

Lemma KeysOK_parts id m db : is_Some (uploads db !! id) → (∀ k n, m !! k = Some n → k.1 = id ∨ parts db !! k = Some n) → KeysOK db → KeysOK (upd_parts (λ _, m) db).
Proof. intros Hu Hm [K1 K2 K3 K4 K5]. split; [done..| |done]. intros k n. cbn. intros [->|Hn]%Hm; [done|by eapply K4]. Qed.

(** ** Statements and files keep the invariants *)

(** A row is old, or its bytes are there. *)
Lemma CInv_db f d :
  CInv d → KeysOK (f (d_db d)) →
  (∀ sha r, blobs (f (d_db d)) !! sha = Some r → blobs (d_db d) !! sha = Some r ∨
     (is_Some (d_files d !! sha) ∨ is_Some (d_files d !! scoped_name sha)) ∧ ∀ c, d_files d !! scoped_name sha = Some c → len c = br_size r) →
  CInv (on_db f d).
Proof.
  intros [D K S P] HK Hb. split; [done|done| |].
  - intros sha c Hc. destruct (S sha c Hc) as (H1 & H2 & H3). split; [done|]. split; [done|]. intros r Hr.
    destruct (Hb sha r Hr) as [Ho|[_ Hl]]; [by apply H3|by apply Hl].
  - intros sha HT [r Hr]. destruct (Hb sha r Hr) as [Ho|[Hp _]]; [|exact Hp]. apply P; [done|by eexists].
Qed.

Lemma Inv_db f d :
  Inv d → KeysOK (f (d_db d)) →
  (∀ sha r, blobs (f (d_db d)) !! sha = Some r → blobs (d_db d) !! sha = Some r ∨ is_Some (d_files d !! sha)) →
  (∀ id u', uploads (f (d_db d)) !! id = Some u' → ∃ u, uploads (d_db d) !! id = Some u ∧ up_length u' = up_length u) →
  Inv (on_db f d).
Proof.
  intros [HC N S] HK Hb Hu. split; [|done|].
  - apply CInv_db; [done|done|]. intros sha r Hr. destruct (Hb sha r Hr) as [?|?]; [by left|right].
    split; [by left|]. intros c Hc. by rewrite N in Hc.
  - intros id u' Hu'. destruct (Hu id u' Hu') as (u & E & El). destruct (S id u E) as (c & Hc & Hl). exists c. split; [done|congruence].
Qed.

(** The statement leaves the tables of the bytes alone. *)
Lemma Inv_db_same f d :
  Inv d → KeysOK (f (d_db d)) → blobs (f (d_db d)) = blobs (d_db d) → uploads (f (d_db d)) = uploads (d_db d) → Inv (on_db f d).
Proof. intros HI HK Eb Eu. apply Inv_db; [done|done|..]; [rewrite Eb; by left|rewrite Eu; eauto]. Qed.

(** A file that is neither bytes nor staged nor of a session. *)
Definition plain_name (d : Disk) (name : string) : Prop :=
  shaPattern name = false ∧ (∀ sha, name ≠ scoped_name sha) ∧ ∀ id u, uploads (d_db d) !! id = Some u → name ≠ multipartPath id.

Lemma CInv_put name c d : shaPattern name = false → (∀ sha, name ≠ scoped_name sha) → CInv d → CInv (on_files (<[name := c]>) d).
Proof.
  intros Hn Hs [D K S P]. split; [|done|..].
  - intros n c'. cbn. intros [[<- <-]|[_ Hc]]%lookup_insert_Some Hp; [by rewrite Hn in Hp|by apply D].
  - intros sha c'. cbn. intros [[E _]|[_ Hc]]%lookup_insert_Some; [by destruct (Hs sha)|by apply S].
  - intros sha HT Hb. cbn. destruct (P sha HT Hb); [left|right]; apply lookup_insert_is_Some'; auto.
Qed.

Lemma Inv_put name c d :
  shaPattern name = false → (∀ sha, name ≠ scoped_name sha) →
  (∀ id u, uploads (d_db d) !! id = Some u → name = multipartPath id → len c = up_length u) → Inv d → Inv (on_files (<[name := c]>) d).
Proof.
  intros Hn Hs Hu [HC N S]. split; [by apply CInv_put|..].
  - intros sha. cbn. rewrite lookup_insert_ne by apply Hs. apply N.
  - intros id u E. destruct (decide (name = multipartPath id)) as [->|Hne].
    + exists c. cbn. rewrite lookup_insert_eq. split; [done|by eapply Hu].
    + destruct (S id u E) as (c' & Hc & Hl). exists c'. split; [|done]. cbn. by rewrite lookup_insert_ne.
Qed.

Lemma CInv_delete_file name d :
  (tidy → is_Some (blobs (d_db d) !! name) → is_Some (d_files d !! scoped_name name)) →
  (∀ sha, tidy → name = scoped_name sha → is_Some (blobs (d_db d) !! sha) → is_Some (d_files d !! sha)) →
  CInv d → CInv (on_files (delete name) d).
Proof.
  intros Hb Hs [D K S P]. split; [|done|..].
  - intros n c. cbn. intros [_ Hc]%lookup_delete_Some. by apply D.
  - intros sha c. cbn. intros [_ Hc]%lookup_delete_Some. by apply S.
  - intros sha HT Hr. cbn. assert (Hp : shaPattern sha = true) by (destruct Hr as [r Hr]; by destruct (keys_rows _ K sha r Hr)).
    assert (sha ≠ scoped_name sha) by by apply sha_not_scoped.
    destruct (decide (name = sha)) as [->|N1]; [right; rewrite lookup_delete_ne by done; by apply Hb|].
    destruct (decide (name = scoped_name sha)) as [->|N2]; [left; rewrite lookup_delete_ne by done; by apply Hs|].
    rewrite !lookup_delete_ne by done. by apply P.
Qed.

Lemma Inv_remove name d :
  (tidy → blobs (d_db d) !! name = None) → (∀ id u, uploads (d_db d) !! id = Some u → name ≠ multipartPath id) → Inv d → Inv (on_files (delete name) d).
Proof.
  intros Hb Hu HI. pose proof (inv_present d) as HP. destruct HI as [HC N S]. split.
  - apply CInv_delete_file; [intros HT; rewrite (Hb HT); by intros [??]| |done]. intros sha HT -> Hr. apply HP; [by split|done..].
  - intros sha. cbn. destruct (decide (name = scoped_name sha)) as [->|Hn]; [by rewrite lookup_delete_eq|].
    rewrite lookup_delete_ne by done. apply N.
  - intros id u E. destruct (S id u E) as (c & Hc & Hl). exists c. split; [|done]. cbn. rewrite lookup_delete_ne; [done|]. by eapply Hu.
Qed.

(** ** Storing an upload *)

Section Storing.
Context `{GoUnicode} `{GoSniff}.
Implicit Types (env : BlobEnv) (cd : uploadCandidate) (d : Disk).

Lemma sha256_hex_pattern s : shaPattern (sha256_hex s) = true.
Proof.
  assert (∀ t, forallb lower_hex_byte (bytes_of t) = isHex t) as E by (induction t as [|a t IH]; cbn; [done|by rewrite IH]).
  unfold shaPattern. rewrite E. apply (hex64_hex_encode _ (sha256_range _) (sha256_length _)).
Qed.

(** The file of a candidate has its hash and its size. *)
Definition cand_bytes cd d : Prop := ∃ c, d_files d !! cd_path cd = Some c ∧ sha256_hex c = cd_hash cd ∧ len c = cd_size cd.
(** It is a temporary file, or the assembled file of a session. *)
Definition cand_path cd : Prop :=
  (cd_reservation cd = "" ∧ temp_name (cd_path cd) = true) ∨
  (cd_commit cd = None ∧ cd_reservation cd = multipartID (cd_hash cd) (cd_uploader cd) ∧ cd_path cd = multipartPath (cd_reservation cd)).

Lemma cand_hash cd d : cand_bytes cd d → shaPattern (cd_hash cd) = true.
Proof. intros (c & _ & <- & _). apply sha256_hex_pattern. Qed.

Lemma cand_nonempty cd : cand_path cd → cd_path cd ≠ "".
Proof. intros [[_ Ht]|(_ & _ & ->)]; [|done]. intros E. by rewrite E in Ht. Qed.

Lemma scoped_nonempty sha : scoped_name sha ≠ "".
Proof. done. Qed.

Lemma cand_plain cd : cand_path cd → shaPattern (cd_path cd) = false ∧ ∀ sha, cd_path cd ≠ scoped_name sha.
Proof.
  intros [[_ Ht]|(_ & _ & ->)].
  - split; [|intros sha; by apply temp_not_scoped]. apply not_true_iff_false. intros Hs. by rewrite sha_not_temp in Ht.
  - split; [|intros sha Es; by apply (scoped_not_session sha (cd_reservation cd))]. apply not_true_iff_false. intros Hs. by apply (sha_not_session _ (cd_reservation cd)) in Hs.
Qed.

(** Sessions other than the candidate's have their files. *)
Definition sessions_but (id : string) d : Prop :=
  ∀ i u, uploads (d_db d) !! i = Some u → i ≠ id → ∃ c, d_files d !! multipartPath i = Some c ∧ len c = up_length u.

Lemma release_uploads id db : (∀ i u, uploads db !! i = Some u → i ≠ "") → uploads (release_reservation id db) = delete id (uploads db).
Proof.
  intros Hn. unfold release_reservation. destruct (String.eqb_spec id "") as [->|]; [|done].
  symmetry. apply delete_id. apply eq_None_not_Some. intros [u Hu]. by eapply Hn.
Qed.

Lemma session_id_nonempty db : KeysOK db → ∀ i u, uploads db !! i = Some u → i ≠ "".
Proof.
  intros HK i u Hu ->. destruct (keys_uploads db HK _ _ Hu) as (E & (a & b & r & Es & _)%sha_first & _).
  unfold multipartID in E. rewrite Es in E. discriminate.
Qed.

(** The hook of the caller writes nothing of ours. *)
Lemma claim_part_keys env cd sha u now ex db :
  KeysOK db → is_Some (blobs db !! sha) →
  let db' := if String.eqb u "" then db
             else saveClaimMetadata sha u (cd_name cd) (cd_metadataPath cd) (cd_purpose cd) (be_now env) (claimSQL sha u now ex db) in
  KeysOK db' ∧ blobs db' = blobs db ∧ uploads db' = uploads db.
Proof.
  intros HK Hb. cbv zeta. case_match; [done|]. split; [|unfold saveClaimMetadata; by case_match].
  apply KeysOK_saveClaimMetadata; [cbn; rewrite lookup_insert_eq; by eexists|]. by apply KeysOK_claimSQL.
Qed.

Lemma release_keys id db : KeysOK db → KeysOK (release_reservation id db) ∧ blobs (release_reservation id db) = blobs db.
Proof. intros HK. split; [by apply KeysOK_release|]. unfold release_reservation. by case_match. Qed.

Definition entry_row (e : Blob) (access : string) : BlobRow := mkBlobRow (B_Size e) (B_Type e) (B_Uploader e) (B_Uploaded e) access.

Lemma blobs_insert_blob sha r db : blobs db !! sha = None → blobs (insert_blob sha r db) = <[sha := r]> (blobs db) ∧ uploads (insert_blob sha r db) = uploads db.
Proof. intros E. unfold insert_blob. rewrite E. case_match; [done|]. by case_match. Qed.

Lemma install_tx_spec env cd terms access e db db' :
  KeysOK db → row_ok (B_SHA256 e) (entry_row e access) → blobs db !! B_SHA256 e = None →
  install_tx env cd terms access e db = Ok db' →
  KeysOK db' ∧ blobs db' = <[B_SHA256 e := entry_row e access]> (blobs db) ∧ uploads db' = delete (cd_reservation cd) (uploads db).
Proof.
  intros HK Hr Hn. unfold install_tx. destruct (commit_hook cd e true); [|done]. intros [= <-].
  set (db0 := upd_tombstones (delete (B_SHA256 e)) db). set (db1 := insert_blob _ _ db0).
  assert (KeysOK db1) as HK1 by (apply KeysOK_insert_blob; [done|by apply (KeysOK_ext db)]).
  destruct (blobs_insert_blob (B_SHA256 e) (entry_row e access) db0 Hn) as [Eb Eu].
  destruct (claim_part_keys env cd (B_SHA256 e) (B_Uploader e) (B_Uploaded e) (ExpiresAt terms) db1 HK1) as (HK2 & Eb2 & Eu2).
  { unfold db1. change (mkBlobRow _ _ _ _ _) with (entry_row e access). rewrite Eb, lookup_insert_eq. by eexists. }
  cbv zeta in HK2, Eb2, Eu2. destruct (release_keys (cd_reservation cd) _ HK2) as [HK3 Eb3]. split; [exact HK3|]. split.
  - rewrite Eb3, Eb2. exact Eb.
  - rewrite release_uploads, Eu2; [f_equal; exact Eu|]. by apply session_id_nonempty.
Qed.

Lemma safe_rename (C I P : Disk → Prop) from to (Q : unit → Disk → Prop) :
  from ≠ "" → (∀ d, P d → ∃ c, d_files d !! from = Some c ∧ let d' := on_files (λ fs, <[to := c]> (delete from fs)) d in C d' ∧ Q tt d') →
  safe C I P (rename from to) Q.
Proof.
  intros Hne%String.eqb_neq Hf d HP l d' r. unfold rename, io_get. rewrite Hne. destruct (Hf d HP) as (c & -> & HC & HQ). intros [= <- <- <-]. split; [by repeat constructor|done].
Qed.

(** Between the file and its row. *)
Record Mid cd d : Prop := {
  mid_crash : CInv d;
  mid_no_scoped sha : d_files d !! scoped_name sha = None;
  mid_sessions : sessions_but (cd_reservation cd) d;
  mid_file : is_Some (d_files d !! cd_hash cd);
  mid_row : blobs (d_db d) !! cd_hash cd = None;
}.

Lemma cand_not_session cd d i u : KeysOK (d_db d) → cand_path cd → uploads (d_db d) !! i = Some u → i ≠ cd_reservation cd → multipartPath i ≠ cd_path cd.
Proof.
  intros HK Hp Hu Hi. destruct (keys_uploads _ HK i u Hu) as (Ei & Hs & _). destruct Hp as [[_ Ht]|(_ & _ & ->)].
  - rewrite Ei. intros E. symmetry in E. by eapply temp_not_session.
  - intros E. by apply (inj _) in E.
Qed.

(** A verified candidate takes the name of its digest, whatever is there. *)
Lemma install_bytes cd d :
  Inv d → cand_path cd → cand_bytes cd d →
  ∃ c, d_files d !! cd_path cd = Some c ∧ let d' := on_files (λ fs, <[cd_hash cd := c]> (delete (cd_path cd) fs)) d in
    CInv d' ∧ (∀ sha, d_files d' !! scoped_name sha = None) ∧ sessions_but (cd_reservation cd) d' ∧ is_Some (d_files d' !! cd_hash cd).
Proof.
  intros HI Hp Hb. pose proof (cand_hash cd d Hb) as Hs. destruct (cand_plain cd Hp) as [Hps Hpsc], Hb as (c & Hc & Hd & Hl).
  exists c. split; [exact Hc|]. pose proof (inv_present d HI) as HP. destruct HI as [[D K S P] N F]. split_and!; cbn.
  - split; [|done|..]; cbn.
    + intros n c'. cbn. intros [[<- <-]|[_ [_ Hc']%lookup_delete_Some]]%lookup_insert_Some Hsn; [done|by apply D].
    + intros sha c'. cbn. rewrite lookup_insert_ne by by apply sha_not_scoped. intros [_ Hc']%lookup_delete_Some. by apply S.
    + intros sha HT Hr. left. destruct (decide (cd_hash cd = sha)) as [->|Hne]; [rewrite lookup_insert_eq; by eexists|].
      rewrite lookup_insert_ne by done. rewrite lookup_delete_ne; [by apply HP|]. intros <-. destruct Hr as [r Hr]. destruct (keys_rows _ K _ r Hr) as [Hsha _]. by rewrite Hps in Hsha.
  - intros sha. rewrite lookup_insert_ne by by apply sha_not_scoped. rewrite lookup_delete_ne by apply Hpsc. apply N.
  - intros i u Hu Hi. cbn in *. destruct (F i u Hu) as (c' & Hc' & Hl'). exists c'. split; [|done].
    rewrite lookup_insert_ne by by apply sha_not_session. rewrite lookup_delete_ne; [done|]. intros E. symmetry in E. revert E. by eapply (cand_not_session cd d).
  - rewrite lookup_insert_eq. by eexists.
Qed.

Lemma install_file cd d :
  Inv d → cand_path cd → cand_bytes cd d → blobs (d_db d) !! cd_hash cd = None →
  ∃ c, d_files d !! cd_path cd = Some c ∧ Mid cd (on_files (λ fs, <[cd_hash cd := c]> (delete (cd_path cd) fs)) d).
Proof. intros HI Hp Hb Hn. destruct (install_bytes cd d HI Hp Hb) as (c & Hc & ? & ? & ? & ?). exists c. split; [done|by split]. Qed.

(** A new blob whose caller has a hook waits under its staged name. *)
Record Staged cd d : Prop := {
  st_crash : CInv d;
  st_only sha : sha ≠ cd_hash cd → d_files d !! scoped_name sha = None;
  st_file : ∃ c, d_files d !! scoped_name (cd_hash cd) = Some c ∧ sha256_hex c = cd_hash cd ∧ len c = cd_size cd;
  st_sessions : session_file d;
  st_present sha : tidy → sha ≠ cd_hash cd → is_Some (blobs (d_db d) !! sha) → is_Some (d_files d !! sha);
}.

Lemma stage_file cd d :
  Inv d → temp_name (cd_path cd) = true → cand_bytes cd d → blobs (d_db d) !! cd_hash cd = None →
  ∃ c, d_files d !! cd_path cd = Some c ∧
    let d' := on_files (λ fs, <[scoped_name (cd_hash cd) := c]> (delete (cd_path cd) fs)) d in Staged cd d' ∧ blobs (d_db d') !! cd_hash cd = None.
Proof.
  intros HI Ht Hb Hn. pose proof (cand_hash cd d Hb) as Hs. destruct Hb as (c & Hc & Hd & Hl).
  exists c. split; [exact Hc|]. cbv zeta. split; [|done]. pose proof (inv_present d HI) as HP. destruct HI as [[D K S P] N F].
  assert (∀ s, shaPattern s = true → cd_path cd ≠ s) as Hps by (intros s Hsn E; by rewrite E, (sha_not_temp s Hsn) in Ht).
  assert (∀ sha, tidy → is_Some (blobs (d_db d) !! sha) → is_Some (<[scoped_name (cd_hash cd):=c]> (delete (cd_path cd) (d_files d)) !! sha)) as HP'.
  { intros sha HT Hr. assert (shaPattern sha = true) as Hsha by (destruct Hr as [r Hr]; by destruct (keys_rows _ K _ r Hr)).
    rewrite lookup_insert_ne by (intros E; by apply (sha_not_scoped sha (cd_hash cd))). rewrite lookup_delete_ne; [by apply HP|by apply Hps]. }
  split; cbn.
  - split; [|done|..]; cbn.
    + intros n c'. cbn. intros [[<- _]|[_ [_ Hc']%lookup_delete_Some]]%lookup_insert_Some Hsn; [|by apply D].
      by apply (sha_not_scoped _ (cd_hash cd)) in Hsn.
    + intros sha c'. cbn. intros [[E <-]|[_ [_ Hc']%lookup_delete_Some]]%lookup_insert_Some; [|by apply S].
      apply (inj scoped_name) in E as <-. split; [done|]. split; [done|]. intros r Hr. by rewrite Hn in Hr.
    + intros sha HT Hr. left. by apply HP'.
  - intros sha Hne. rewrite lookup_insert_ne by (intros E; by apply (inj scoped_name) in E). rewrite lookup_delete_ne by by apply temp_not_scoped. apply N.
  - exists c. rewrite lookup_insert_eq. done.
  - intros i u Hu. cbn in *. destruct (F i u Hu) as (c' & Hc' & Hl'). exists c'. split; [|done].
    rewrite lookup_insert_ne by apply scoped_not_session. rewrite lookup_delete_ne; [done|].
    destruct (keys_uploads _ K i u Hu) as (-> & Hsu & _). by apply temp_not_session.
  - intros sha HT _ Hr. by apply HP'.
Qed.

Lemma Staged_row cd d db' r :
  Staged cd d → KeysOK db' → br_size r = cd_size cd → blobs db' = <[cd_hash cd := r]> (blobs (d_db d)) →
  (∀ id u, uploads db' !! id = Some u → uploads (d_db d) !! id = Some u) → Staged cd (on_db (λ _, db') d).
Proof.
  intros [HC O (c & Hc & Hd & Hl) F P] HK Er Eb Eu. split.
  - apply CInv_db; [done|done|]. rewrite Eb. intros sha r'. intros [[<- <-]|[_ Hr]]%lookup_insert_Some; [right|by left].
    split; [right; by eexists|]. intros c' Hc'. congruence.
  - exact O.
  - by exists c.
  - intros id u Hu. by apply F, Eu.
  - intros sha HT Hne. cbn. rewrite Eb, lookup_insert_ne by done. by apply P.
Qed.

Lemma Staged_installed cd d : Staged cd d → ∃ c, d_files d !! scoped_name (cd_hash cd) = Some c ∧
  Inv (on_files (λ fs, <[cd_hash cd := c]> (delete (scoped_name (cd_hash cd)) fs)) d).
Proof.
  intros [[D K S P] O (c & Hc & Hd & Hl) F HP]. exists c. split; [exact Hc|]. destruct (S _ _ Hc) as (Hs & _ & _).
  assert (∀ sha, <[cd_hash cd:=c]> (delete (scoped_name (cd_hash cd)) (d_files d)) !! scoped_name sha = None) as HN.
  { intros sha. rewrite lookup_insert_ne by by apply sha_not_scoped. destruct (decide (sha = cd_hash cd)) as [->|Hne]; [apply lookup_delete_eq|].
    rewrite lookup_delete_ne by (intros E; by apply (inj scoped_name) in E). by apply O. }
  split; [split; [|done|..]|exact HN|]; cbn.
  - intros n c'. cbn. intros [[<- <-]|[_ [_ Hc']%lookup_delete_Some]]%lookup_insert_Some Hsn; [done|by apply D].
  - intros sha c' Hc'. cbn in Hc'. by rewrite HN in Hc'.
  - intros sha HT Hr. left. cbn. destruct (decide (cd_hash cd = sha)) as [->|Hne]; [rewrite lookup_insert_eq; by eexists|].
    rewrite lookup_insert_ne by done. rewrite lookup_delete_ne; [by apply HP|].
    destruct Hr as [r Hr]. destruct (keys_rows _ K _ r Hr) as [Hsha _]. intros E. by apply (sha_not_scoped sha (cd_hash cd)).
  - intros i u Hu. destruct (F i u Hu) as (c' & Hc' & Hl'). exists c'. split; [|done]. cbn.
    rewrite lookup_insert_ne by by apply sha_not_session. by rewrite lookup_delete_ne by apply scoped_not_session.
Qed.

Lemma Staged_removed cd d : Staged cd d → blobs (d_db d) !! cd_hash cd = None → Inv (on_files (delete (scoped_name (cd_hash cd))) d).
Proof.
  intros [HC O (c & Hc & Hd & Hl) F HP] Hn. pose proof (ci_keys d HC) as K. split.
  - apply CInv_delete_file; [|intros sha _ E; apply (inj scoped_name) in E as <-; rewrite Hn; by intros [? ?]|done].
    intros _ [r Hr]. destruct (keys_rows _ K _ r Hr) as [Hsha _]. by apply (sha_not_scoped _ (cd_hash cd)) in Hsha.
  - intros sha. cbn. destruct (decide (sha = cd_hash cd)) as [->|Hne]; [apply lookup_delete_eq|].
    rewrite lookup_delete_ne by (intros E; by apply (inj scoped_name) in E). by apply O.
  - intros i u Hu. destruct (F i u Hu) as (c' & Hc' & Hl'). exists c'. split; [|done]. cbn. by rewrite lookup_delete_ne by apply scoped_not_session.
Qed.

(** A property of the tables that every operation carries along, under the
    limits [L]: the checks an upload passed are hypotheses. *)
Class Carried (L : Limits) (J : BlobDB → Prop) : Prop := {
  carry_shrink db db' : blobs db' ⊆ blobs db → claims db' ⊆ claims db → uploads db' ⊆ uploads db → J db → J db';
  carry_install env cd terms access e db db' :
    be_limits env = L → KeysOK db → blobs db !! B_SHA256 e = None → B_Uploader e = cd_uploader cd → 0 ≤ B_Size e →
    (0 <? UserStorageBytes (currentLimits L)) && negb (String.eqb (cd_uploader cd) "")
      && quota_exceeded db (currentLimits L) (cd_uploader cd) (cd_reservation cd) (B_Size e) = false →
    install_tx env cd terms access e db = Ok db' → J db → J db';
  carry_claim env cd terms existing db db' :
    be_limits env = L → KeysOK db → lookup_blob db (cd_hash cd) = Some existing →
    negb (String.eqb (cd_uploader cd) "") && (0 <? UserStorageBytes (currentLimits L)) && negb (hasClaim db (cd_hash cd) (cd_uploader cd))
      && quota_exceeded db (currentLimits L) (cd_uploader cd) (cd_reservation cd) (B_Size existing) = false →
    claim_tx env cd terms existing db = Ok db' → J db → J db';
  carry_upload part u db :
    KeysOK db → uploads db !! mp_id part = None → lookup_blob db (mp_hash part) = None → up_uploader u = mp_uploader part → up_length u = mp_length part →
    checkMultipartQuota db (currentLimits L) part = Ok tt → sessions_full db part = false → 0 ≤ mp_length part → J db → J (upd_uploads (<[mp_id part := u]>) db);
  carry_touch id f db :
    (∀ u, up_uploader (f u) = up_uploader u ∧ up_length (f u) = up_length u) → J db → J (upd_uploads (alter f id) db);
  carry_recover sha r db :
    KeysOK db → blobs db !! sha = None → br_uploader r = "" → 0 ≤ br_size r → J db → J (insert_blob sha r db);
}.

#[export] Instance carried_true L : Carried L (λ _, True).
Proof. by split. Qed.

(** The names a request has for itself. *)
Definition own_name d (n : string) : Prop := temp_name n = true ∨ ∃ id, n = multipartPath id ∧ is_Some (uploads (d_db d) !! id).

Lemma own_not_sha d n sha : own_name d n → shaPattern sha = true → n ≠ sha.
Proof. intros [Ht|(id & -> & _)] Hs <-; [by rewrite sha_not_temp in Ht|by apply (sha_not_session _ id) in Hs]. Qed.
Lemma own_not_scoped d n sha : own_name d n → n ≠ scoped_name sha.
Proof. intros [Ht|(id & -> & _)]; [by apply temp_not_scoped|]. intros E. by apply (scoped_not_session sha id). Qed.

(** Files that nobody may touch, with the bytes they have. *)
Definition frozen (Sn : gmap string string) d : Prop := ∀ n c, Sn !! n = Some c → d_files d !! n = Some c ∧ own_name d n.

Lemma frozen_db Sn f d :
  (∀ id, is_Some (Sn !! multipartPath id) → is_Some (uploads (d_db d) !! id) → is_Some (uploads (f (d_db d)) !! id)) → frozen Sn d → frozen Sn (on_db f d).
Proof. intros Hf HF n c E. destruct (HF n c E) as [Hc [Ht|(id & -> & Hu)]]; (split; [done|]); [by left|right]. exists id. split; [done|]. apply Hf; [by eexists|done]. Qed.

Lemma frozen_files Sn f d :
  (∀ n, is_Some (Sn !! n) → own_name d n → f (d_files d) !! n = d_files d !! n) → frozen Sn d → frozen Sn (on_files f d).
Proof. intros Hf HF n c E. destruct (HF n c E) as [Hc Hu]. split; [|done]. cbn. rewrite Hf; [done|by eexists|done]. Qed.

Section Triples.
Context (L : Limits) (J : BlobDB → Prop) `{!Carried L J} (Sn : gmap string string).
Definition CJ d : Prop := CInv d ∧ J (d_db d).
Definition IJ d : Prop := Inv d ∧ J (d_db d) ∧ frozen Sn d.
Notation holds := (safe CJ IJ).

Lemma IJ_CJ d : IJ d → CJ d.
Proof. intros (HI & HJ & _). split; [by apply inv_crash|done]. Qed.

(** A candidate releases no frozen session. *)
Definition releasable cd : Prop := cd_reservation cd = "" ∨ Sn !! multipartPath (cd_reservation cd) = None.

Lemma cand_releasable cd : cand_path cd → Sn !! cd_path cd = None → releasable cd.
Proof. intros [[E _]|(_ & _ & E)] HS; [by left|right; by rewrite <-E]. Qed.

Lemma frozen_reservation cd db' d :
  releasable cd → KeysOK (d_db d) → uploads db' = delete (cd_reservation cd) (uploads (d_db d)) → frozen Sn d → frozen Sn (on_db (λ _, db') d).
Proof.
  intros Hp HK Eu. apply frozen_db. rewrite Eu. intros id Hid Hu. rewrite lookup_delete_ne; [done|]. intros <-. destruct Hp as [E|E].
  - destruct Hu as [u Hu]. by apply (session_id_nonempty _ HK _ _ Hu).
  - rewrite E in Hid. by destruct Hid.
Qed.

Lemma holds_install_new env cd terms access :
  be_limits env = L → cand_path cd → Sn !! cd_path cd = None →
  holds (λ d, IJ d ∧ cand_bytes cd d ∧ blobs (d_db d) !! cd_hash cd = None) (install_new env cd terms access) (λ _, IJ).
Proof.
  intros EL Hp HS. apply safe_get. intros d0 (HI0 & Hb0 & Hn0). cbv zeta.
  apply safe_guard; [tauto|]. rewrite EL. intros Hq. set (typ := if String.eqb _ _ then _ else _).
  apply safe_guard; [tauto|]. intros _. set (e := mkBlob _ _ _ _ _).
  assert (row_ok (B_SHA256 e) (entry_row e access) ∧ 0 ≤ B_Size e) as [Hrow Hsz].
  { destruct Hb0 as (c & _ & Hd & Hl). split; [|cbn; rewrite <-Hl; unfold len; lia]. split; [cbn; rewrite <-Hd; apply sha256_hex_pattern|]. by exists c. }
  assert (∀ db' d, J (d_db d) → d_db d = d_db d0 → install_tx env cd terms access e (d_db d) = Ok db' → J db') as HJ.
  { intros db' d Hj Ed Ht. rewrite Ed in Ht, Hj. apply (carry_install env cd terms access e (d_db d0) db'); try done. by apply ci_keys, inv_crash, HI0. }
  assert (∀ to c d, IJ d → (∀ n, own_name d n → n ≠ to) → frozen Sn (on_files (λ fs, <[to := c]> (delete (cd_path cd) fs)) d)) as HM.
  { intros to c d (_ & _ & HF) Hto. apply frozen_files; [|done]. intros n Hn Ho%Hto. rewrite lookup_insert_ne by done.
    apply lookup_delete_ne. intros <-. rewrite HS in Hn. by destruct Hn. }
  assert (∀ d db', KeysOK (d_db d) → frozen Sn d → uploads db' = delete (cd_reservation cd) (uploads (d_db d)) → frozen Sn (on_db (λ _, db') d)) as HD
    by (intros d db' HK HF Eu; apply (frozen_reservation cd); [by apply cand_releasable|done..]).
  pose proof (cand_hash cd d0 Hb0) as Hsha.
  destruct (cd_commit cd) as [h|] eqn:Eh.
  - assert (temp_name (cd_path cd) = true) as Ht by (destruct Hp as [[_ ?]|[E _]]; [done|congruence]).
    eapply (safe_bind _ _ _ _ _ (λ _ d, Staged cd d ∧ blobs (d_db d) !! cd_hash cd = None ∧ d_db d = d_db d0 ∧ J (d_db d) ∧ frozen Sn d)).
    { apply safe_rename; [by apply cand_nonempty|]. intros d (-> & HIJ & Hb & Hn). destruct HIJ as (HI & Hj & HF) eqn:Ehij. destruct (stage_file cd d0 HI Ht Hb Hn) as (c & Hc & HSt & Hn'). exists c.
      split; [done|]. split; [split; [by apply (st_crash cd)|done]|]. split_and!; [done..|]. apply HM; [done|]. intros n. apply own_not_scoped. }
    intros []. eapply (safe_bind _ _ _ _ _ (λ _ d, Staged cd d ∧ J (d_db d) ∧ frozen Sn d)).
    { apply safe_get. intros d1 (HSt & Hn & Ed & Hj & HF). destruct (install_tx env cd terms access e (d_db d1)) as [db'|m] eqn:Et.
      - apply safe_commit. intros d [-> _].
        destruct (install_tx_spec env cd terms access e (d_db d1) db') as (HK & Eb & Eu); [by apply ci_keys, (st_crash cd)|done|done|done|].
        assert (Staged cd (on_db (λ _, db') d1)) as HSt'.
        { apply (Staged_row cd d1 db' (entry_row e access)); [done..|]. intros id u. rewrite Eu. by intros [_ ?]%lookup_delete_Some. }
        split; [split; [by apply (st_crash cd)|by eapply HJ]|]. split; [done|]. split; [by eapply HJ|apply HD; [by apply ci_keys, (st_crash cd)|done..]].
      - eapply (safe_bind _ _ _ _ _ (λ _, IJ)); [|intros []; by apply safe_fail].
        apply safe_commit. intros d [-> _]. assert (IJ (on_files (delete (scoped_name (cd_hash cd))) d1)) as HI.
        { split; [by apply (Staged_removed cd)|]. split; [done|]. apply frozen_files; [|done]. intros n _ Ho. apply lookup_delete_ne. intros E. by apply (own_not_scoped d1 n (cd_hash cd)). }
        split; [by apply IJ_CJ|done]. }
    intros []. eapply (safe_bind _ _ _ _ _ (λ _, IJ)); [|intros []; apply safe_get; intros d1 Hd1; case_match; apply safe_ret; by intros d [-> _]].
    apply safe_rename; [apply scoped_nonempty|]. intros d (HSt & Hj & HF). destruct (Staged_installed cd d HSt) as (c & Hc & HI). exists c. split; [done|]. split; [split; [by apply inv_crash|done]|].
    split; [done|]. split; [done|]. apply frozen_files; [|done]. intros n _ Ho. rewrite lookup_insert_ne by (intros E; by apply (own_not_sha d n (cd_hash cd))).
    apply lookup_delete_ne. intros E. by apply (own_not_scoped d n (cd_hash cd)).
  - eapply (safe_bind _ _ _ _ _ (λ _ d, Mid cd d ∧ d_db d = d_db d0 ∧ J (d_db d) ∧ frozen Sn d)).
    { apply safe_rename; [by apply cand_nonempty|]. intros d (-> & HIJ & Hb & Hn). destruct HIJ as (HI & Hj & HF) eqn:Ehij. destruct (install_file cd d0 HI Hp Hb Hn) as (c & Hc & HMid). exists c.
      split; [done|]. split; [split; [by apply (mid_crash cd)|done]|]. split_and!; [done..|]. apply HM; [done|]. intros n Ho. by eapply own_not_sha. }
    intros []. eapply (safe_bind _ _ _ _ _ (λ _, IJ)).
    { apply safe_get. intros d1 (HMid & Ed & Hj & HF). destruct (install_tx env cd terms access e (d_db d1)) as [db'|m] eqn:Et; [|by unfold install_tx, commit_hook in Et; rewrite Eh in Et].
      apply safe_commit. intros d [-> _]. assert (IJ (on_db (λ _, db') d1)) as HI; [|split; [by apply IJ_CJ|done]].
      destruct (install_tx_spec env cd terms access e (d_db d1) db') as (HK & Eb & Eu); [by apply ci_keys, (mid_crash cd)|done|by apply (mid_row cd)|done|].
      split; [|split; [by eapply HJ|apply HD; [by apply ci_keys, (mid_crash cd)|done..]]]. destruct HMid as [HC N F Hf Hn]. split; [|exact N|].
      + apply CInv_db; [done|done|]. rewrite Eb. intros sha r. intros [[<- <-]|[_ Hr]]%lookup_insert_Some; [right|by left]. split; [by left|]. intros c Hc. by rewrite N in Hc.
      + intros i u. cbn. rewrite Eu. intros [Hne Hu]%lookup_delete_Some. by apply F. }
    intros []. eapply (safe_bind _ _ _ _ _ (λ _, IJ)); [by apply safe_ret|].
    intros []. apply safe_get. intros d1 Hd1. case_match; apply safe_ret; by intros d [-> _].
Qed.

(** The bytes of a row come back with a verified candidate. *)
Lemma holds_restore cd :
  cand_path cd → Sn !! cd_path cd = None →
  holds (λ d, IJ d ∧ uploads (d_db d) !! cd_reservation cd = None ∧ cand_bytes cd d) (installBlobFile (cd_path cd) (cd_hash cd)) (λ _, IJ).
Proof.
  intros Hp HS. apply safe_rename; [by apply cand_nonempty|]. intros d ((HI & Hj & HF) & Hu & Hb). pose proof (cand_hash cd d Hb) as Hs.
  destruct (install_bytes cd d HI Hp Hb) as (c & Hc & HC & HN & HSe & _). exists c. split; [done|].
  match goal with |- let d' := ?x in _ => assert (IJ x) as HIJ; [|by split; [apply IJ_CJ|]] end. split; [|split; [done|]].
  - split; [exact HC|exact HN|]. intros i u Ei. apply HSe; [done|]. intros ->. cbn in Ei. congruence.
  - apply frozen_files; [|done]. intros n Hn Ho. rewrite lookup_insert_ne by (intros E; by apply (own_not_sha d n (cd_hash cd))).
    apply lookup_delete_ne. intros <-. rewrite HS in Hn. by destruct Hn.
Qed.

Lemma holds_claim_existing env cd terms access existing :
  be_limits env = L → releasable cd → (cd_path cd = "" ∨ cand_path cd ∧ Sn !! cd_path cd = None) →
  holds (λ d, IJ d ∧ lookup_blob (d_db d) (cd_hash cd) = Some existing ∧ (cd_path cd = "" ∨ cand_bytes cd d)) (claim_existing env cd terms access existing) (λ _, IJ).
Proof.
  intros EL Hrel HP. apply safe_get. intros d0 (HI0 & Hl & Hb). cbv zeta.
  apply safe_pure; [tauto|]. intros acc _. do 2 (apply safe_guard; [tauto|]; intros _). apply safe_guard; [tauto|]. rewrite EL. intros Hq.
  eapply (safe_bind _ _ _ _ _ (λ _ d, IJ d ∧ uploads (d_db d) !! cd_reservation cd = None ∧ (cd_path cd = "" ∨ cand_bytes cd d))).
  { apply safe_get. intros d1 (-> & _ & _). destruct HI0 as (HI & Hj & HF), (claim_tx env cd terms existing (d_db d0)) as [db'|m] eqn:Et; [|apply safe_fail; by intros d (-> & _)].
    apply safe_commit. intros d [-> _]. assert (J db') as Hj' by (eapply carry_claim; try done; by apply ci_keys, inv_crash).
    pose proof (ci_keys d0 (inv_crash d0 HI)) as HK. assert (is_Some (blobs (d_db d0) !! cd_hash cd)) as Hr.
    { unfold lookup_blob in Hl. destruct (blobs (d_db d0) !! cd_hash cd); [by eexists|done]. }
    unfold claim_tx in Et. destruct (commit_hook cd existing false); [|done]. injection Et as <-.
    destruct (claim_part_keys env cd (cd_hash cd) (cd_uploader cd) (be_now env) (ExpiresAt terms) (d_db d0) HK Hr) as (HK1 & Eb & Eu).
    cbv zeta in HK1, Eb, Eu. destruct (release_keys (cd_reservation cd) _ HK1) as [HK2 Eb2].
    assert (IJ (on_db (λ _, release_reservation (cd_reservation cd) (if String.eqb (cd_uploader cd) "" then d_db d0
              else saveClaimMetadata (cd_hash cd) (cd_uploader cd) (cd_name cd) (cd_metadataPath cd) (cd_purpose cd) (be_now env)
                     (claimSQL (cd_hash cd) (cd_uploader cd) (be_now env) (ExpiresAt terms) (d_db d0)))) d0)) as HIJ.
    { assert (uploads (release_reservation (cd_reservation cd) (if String.eqb (cd_uploader cd) "" then d_db d0
              else saveClaimMetadata (cd_hash cd) (cd_uploader cd) (cd_name cd) (cd_metadataPath cd) (cd_purpose cd) (be_now env)
                     (claimSQL (cd_hash cd) (cd_uploader cd) (be_now env) (ExpiresAt terms) (d_db d0)))) = delete (cd_reservation cd) (uploads (d_db d0))) as Er.
      { rewrite release_uploads, Eu; [done|by apply session_id_nonempty]. }
      split; [|split; [exact Hj'|]]; [apply Inv_db; [done|done|..]|by apply (frozen_reservation cd)].
      - rewrite Eb2, Eb. by left.
      - intros id u. rewrite Er. intros [_ Hu]%lookup_delete_Some. eauto. }
    split; [by apply IJ_CJ|]. split; [exact HIJ|]. split; [|done]. cbn [d_db on_db]. rewrite release_uploads, Eu by (rewrite Eu; by apply session_id_nonempty). apply lookup_delete_eq. }
  intros []. eapply (safe_bind _ _ _ _ _ (λ _, IJ)); [|intros []; by apply safe_ret].
  apply safe_get. intros d1 (HI1 & Hu & Hb1). destruct (d_files d1 !! cd_hash cd); [by apply safe_ret; intros d [-> _]|].
  destruct HP as [Ep|[Hp HS]]; [|destruct Hb1 as [Ep|Hb1]].
  1-2: apply safe_get; intros d2 _; rewrite Ep; apply safe_fail; by intros d [_ [-> _]].
  eapply safe_conseq; [by apply (holds_restore cd)| |done]. intros d [-> _]. done.
Qed.

Lemma holds_installUpload env cd :
  be_limits env = L → cand_path cd → Sn !! cd_path cd = None → holds (λ d, IJ d ∧ cand_bytes cd d) (installUpload env cd) (λ _, IJ).
Proof.
  intros EL Hp HS. apply safe_get. intros d0 (HI0 & Hb0). cbv zeta. apply safe_pure; [tauto|]. intros access _.
  apply safe_guard; [tauto|]. intros _. apply safe_pure; [tauto|]. intros terms _. do 2 (apply safe_guard; [tauto|]; intros _).
  destruct (lookup_blob (d_db d0) (cd_hash cd)) as [existing|] eqn:El.
  - eapply safe_conseq; [apply holds_claim_existing; [done|by apply cand_releasable|by right]| |done]. intros d (-> & HI & Hb). split; [done|]. split; [done|by right].
  - eapply safe_conseq; [by apply holds_install_new| |done]. intros d (-> & HI & Hb). split_and!; [done..|].
    unfold lookup_blob in El. by destruct (blobs (d_db d0) !! cd_hash cd).
Qed.

(** ** Uploads *)

Lemma temp_plain tmp : temp_name tmp = true → shaPattern tmp = false ∧ ∀ sha, tmp ≠ scoped_name sha.
Proof. intros Ht. split; [|intros sha; by apply temp_not_scoped]. apply not_true_iff_false. intros Hs. by rewrite sha_not_temp in Ht. Qed.

Lemma temp_not_own tmp d id : temp_name tmp = true → Inv d → is_Some (uploads (d_db d) !! id) → tmp ≠ multipartPath id.
Proof. intros Ht HI [u Hu]. destruct (keys_uploads _ (ci_keys d (inv_crash d HI)) id u Hu) as (-> & Hs & _). by apply temp_not_session. Qed.

Lemma IJ_put_temp tmp c d : temp_name tmp = true → Sn !! tmp = None → IJ d → IJ (on_files (<[tmp := c]>) d).
Proof.
  intros Ht HS (HI & Hj & HF). destruct (temp_plain tmp Ht). split; [|split; [done|]].
  - apply Inv_put; [done|done| |done]. intros id u Hu ->. destruct (temp_not_own (multipartPath id) d id Ht HI); [by eexists|done].
  - apply frozen_files; [|done]. intros n Hn _. apply lookup_insert_ne. intros <-. rewrite HS in Hn. by destruct Hn.
Qed.

Lemma IJ_remove_temp tmp d : temp_name tmp = true → Sn !! tmp = None → IJ d → IJ (on_files (delete tmp) d).
Proof.
  intros Ht HS (HI & Hj & HF). destruct (temp_plain tmp Ht) as [Hs _]. pose proof (ci_keys d (inv_crash d HI)) as K.
  split; [|split; [done|]].
  - apply Inv_remove; [..|done].
    + intros _. apply eq_None_not_Some. intros [r Hr]. destruct (keys_rows _ K _ r Hr). congruence.
    + intros id u Hu. eapply temp_not_own; [done..|by eexists].
  - apply frozen_files; [|done]. intros n Hn _. apply lookup_delete_ne. intros <-. rewrite HS in Hn. by destruct Hn.
Qed.

Lemma safe_temp_remove {A} (P : Disk → Prop) tmp (m : IO A) :
  temp_name tmp = true → Sn !! tmp = None → holds P m (λ _, IJ) → holds P (temp_remove tmp m) (λ _, IJ).
Proof.
  intros Ht HS Hm d HP l d' r. unfold temp_remove. destruct (m d) as [[l1 d1] r1] eqn:E. cbn. intros [= <- <- <-].
  destruct (safe_keeps _ _ _ _ _ Hm (λ _ _ H, H) d l1 d1 r1 HP E) as [HC HI]. assert (IJ (on_files (delete tmp) d1)) as HI' by by apply IJ_remove_temp.
  split; [apply Forall_app; split; [done|]; constructor; [by apply IJ_CJ|constructor]|]. by destruct r1.
Qed.

Lemma holds_put env tmp source o validate :
  be_limits env = L → temp_name tmp = true → Sn !! tmp = None → holds IJ (putValidatedWithMetadata env tmp source o validate) (λ _, IJ).
Proof.
  intros EL Ht HS. unfold putValidatedWithMetadata. apply safe_pure; [done|]. intros access _. apply safe_pure; [done|]. intros [name path] _. cbv zeta.
  destruct (stream_limit _ _) as [limit quota]. set (content := read_stream limit source). apply safe_temp_remove; [done|done|].
  eapply (safe_bind _ _ _ _ _ (λ _ d, IJ d ∧ d_files d !! tmp = Some content)).
  { apply safe_commit. intros d HI. assert (IJ (on_files (<[tmp:=content]>) d)) by by apply IJ_put_temp. split; [by apply IJ_CJ|]. split; [done|]. apply lookup_insert_eq. }
  intros []. do 3 (apply safe_guard; [tauto|]; intros _). apply safe_pure; [tauto|]. intros [] _.
  eapply safe_conseq; [by apply holds_installUpload; [|left|]| |done]. intros d [HI Hc]. split; [done|]. exists content. split; [done|]. by split.
Qed.

(** ** Deletions *)

Lemma delete_metas_keeps p db : blobs (delete_metas p db) = blobs db ∧ claims (delete_metas p db) = claims db ∧ uploads (delete_metas p db) = uploads db.
Proof. done. Qed.

Lemma IJ_shrink f d :
  IJ d → KeysOK (f (d_db d)) → blobs (f (d_db d)) ⊆ blobs (d_db d) → claims (f (d_db d)) ⊆ claims (d_db d) → uploads (f (d_db d)) = uploads (d_db d) →
  IJ (on_db f d).
Proof.
  intros (HI & Hj & HF) HK Sb Sc Su. split; [|split; [apply (carry_shrink (d_db d)); [done|done|by cbn; rewrite Su|done]|apply frozen_db; [by rewrite Su|done]]].
  apply Inv_db; [done|done|..].
  - intros sha r Hr. left. by eapply lookup_weaken.
  - rewrite Su. intros id u Hu. by exists u.
Qed.

Lemma holds_shrink f :
  (∀ db, KeysOK db → KeysOK (f db) ∧ blobs (f db) ⊆ blobs db ∧ claims (f db) ⊆ claims db ∧ uploads (f db) = uploads db) → holds IJ (commit_db f) (λ _, IJ).
Proof.
  intros Hf. apply safe_commit. intros d HI. destruct (Hf (d_db d)) as (? & ? & ? & ?); [by apply ci_keys, inv_crash, HI|].
  assert (IJ (on_db f d)) by by apply IJ_shrink. split; [by apply IJ_CJ|done].
Qed.

Lemma delete_blob_shrinks sha db :
  blobs (delete_blob sha db) = delete sha (blobs db) ∧ claims (delete_blob sha db) ⊆ claims db ∧ uploads (delete_blob sha db) = uploads db.
Proof. split; [done|]. split; [apply map_filter_subseteq|done]. Qed.

(** The row is gone before the bytes. *)
Lemma holds_remove_bytes sha : shaPattern sha = true → holds (λ d, IJ d ∧ (tidy → blobs (d_db d) !! sha = None)) (remove sha) (λ _, IJ).
Proof.
  intros Hs. apply safe_commit. intros d [(HI & Hj & HF) Hn]. assert (IJ (on_files (delete sha) d)); [|split; [by apply IJ_CJ|done]].
  split; [|split; [done|]]; [apply Inv_remove; [done| |done]; intros id u Hu; by apply sha_not_session|].
  apply frozen_files; [|done]. intros n _ Ho. apply lookup_delete_ne. intros E. by apply (own_not_sha d n sha).
Qed.

Lemma holds_Delete_tx sha now : holds IJ (Delete_tx sha now) (λ _ d, IJ d ∧ blobs (d_db d) !! sha = None).
Proof.
  apply safe_commit. intros d HI. match goal with |- CJ (on_db ?f d) ∧ _ => assert (IJ (on_db f d)) as HI' end.
  { apply IJ_shrink; [done|..].
    - apply KeysOK_delete_metas, KeysOK_delete_blob. apply (KeysOK_ext (d_db d)); [done..|]. by apply ci_keys, inv_crash, HI.
    - apply delete_subseteq.
    - apply map_filter_subseteq.
    - done. }
  split; [by apply IJ_CJ|]. split; [done|]. apply lookup_delete_eq.
Qed.

Lemma holds_Delete sha now : holds IJ (Delete sha now) (λ _, IJ).
Proof.
  unfold Delete. destruct (shaPattern sha) eqn:Hs; cbn [negb]; [|by apply safe_fail].
  eapply safe_bind; [apply holds_Delete_tx|]. intros u. eapply safe_conseq; [by apply holds_remove_bytes|by intros d []|done].
Qed.

Lemma release_claim_spec sha u now db db' removed :
  KeysOK db → release_claim sha u now db = Ok (db', removed) →
  KeysOK db' ∧ blobs db' ⊆ blobs db ∧ claims db' ⊆ claims db ∧ uploads db' = uploads db ∧ (removed = true → blobs db' !! sha = None).
Proof.
  intros HK. unfold release_claim. destruct (claims db !! (sha, u)) as [c|]; [|done]. cbv zeta. set (db1 := delete_metas _ _). intros [= <- <-].
  assert (KeysOK db1) as HK1 by by apply KeysOK_delete_metas, KeysOK_delete_claims.
  assert (blobs db1 = blobs db ∧ claims db1 ⊆ claims db ∧ uploads db1 = uploads db) as (Eb & Sc & Eu) by (split; [done|split; [apply map_filter_subseteq|done]]).
  destruct (Nat.eqb _ 0).
  - split; [apply KeysOK_delete_blob; by apply (KeysOK_ext db1)|]. split; [cbn; rewrite <-Eb; apply delete_subseteq|].
    split; [etransitivity; [apply map_filter_subseteq|exact Sc]|]. split; [done|]. intros _. apply lookup_delete_eq.
  - split; [done|]. by rewrite Eb.
Qed.

Lemma holds_Release_tx sha u now : holds IJ (Release_tx sha u now) (λ removed d, IJ d ∧ (removed = true → blobs (d_db d) !! sha = None)).
Proof.
  apply safe_get. intros d0 HI0. destruct (release_claim sha u now (d_db d0)) as [[db removed]|m] eqn:E; [|apply safe_fail; by intros d [-> _]].
  destruct (release_claim_spec sha u now (d_db d0) db removed) as (HK & Sb & Sc & Eu & Hr); [by apply ci_keys, inv_crash, HI0|done|].
  eapply (safe_bind _ _ _ _ _ (λ _ d, IJ d ∧ (removed = true → blobs (d_db d) !! sha = None))); [|intros []; by apply safe_ret].
  apply safe_commit. intros d [-> _]. assert (IJ (on_db (λ _, db) d0)) by (apply IJ_shrink; [done..|by rewrite Eu]). split; [by apply IJ_CJ|done].
Qed.

(** The statements of [Block]. *)
Lemma holds_put_block sha reason now : holds IJ (put_block sha reason now) (λ _, IJ).
Proof. apply holds_shrink. intros db HK. split_and!; [by apply (KeysOK_ext db)|done..]. Qed.

Lemma holds_entomb sha now : holds IJ (commit_db (entomb sha now)) (λ _, IJ).
Proof. apply holds_shrink. intros db HK. split_and!; [by apply (KeysOK_ext db)|done..]. Qed.

Lemma holds_unlist sha : holds IJ (commit_db (delete_blob sha)) (λ _, IJ).
Proof.
  apply holds_shrink. intros db HK. destruct (delete_blob_shrinks sha db) as (Eb & Sc & Eu).
  split_and!; [by apply KeysOK_delete_blob|rewrite Eb; apply delete_subseteq|done|done].
Qed.

Lemma holds_SetClaimMetadata u sha name path purpose typ size now : holds IJ (SetClaimMetadata u sha name path purpose typ size now) (λ _, IJ).
Proof.
  unfold SetClaimMetadata. apply safe_pure; [done|]. intros [[n p] ty] _. apply safe_get. intros d0 HI0.
  destruct (claims (d_db d0) !! (sha, u)) eqn:Ec; [|apply safe_fail; by intros d [-> _]].
  apply safe_commit. intros d [-> _]. set (db' := upd_metas _ _). assert (IJ (on_db (λ _, db') d0)); [|split; [by apply IJ_CJ|done]].
  apply IJ_shrink; [done| |done..]. apply (KeysOK_insert_meta (sha, u, p)); [cbn; rewrite Ec; by eexists|]. by apply ci_keys, inv_crash, HI0.
Qed.

Lemma holds_SweepExpired now : holds IJ (SweepExpired now) (λ _, IJ).
Proof.
  apply safe_get. intros d0 HI0. eapply (safe_bind _ _ _ _ _ (λ _, IJ)).
  { eapply safe_conseq; [apply (safe_each _ _ IJ); intros sha _; apply holds_Delete|by intros d [-> _]|done]. }
  intros []. eapply (safe_bind _ _ _ _ _ (λ _, IJ)); [|intros []; by apply safe_ret].
  apply holds_shrink. intros db HK. split_and!; [by apply KeysOK_delete_claims|done|apply map_filter_subseteq|done].
Qed.
End Triples.
End Storing.
End Tidying.
