(* ===== verification/BlobRuns.v ===== *)
(** * internal/blob: sessions, recovery and runs of the store

    The invariant through the steps of uploads in chunks and through a crash;
    the threads that upload chunks, and every state they reach. *)

From S2P Require Import Prelude GoLib GoCodec GoLemmas GoStrings Nostr NostrProps Blob Multipart BlobProps.

(** ** Lengths *)

Lemma len_zeros n : len (zeros n) = Z.max 0 n.
Proof.
  unfold len, zeros. assert (∀ k, String.length (string_of_list_ascii (replicate k (char 0))) = k) as -> by (induction k as [|k IH]; [done|]; cbn [replicate string_of_list_ascii String.length]; by rewrite IH). lia.
Qed.
Lemma len_app s t : len (s +:+ t) = len s + len t.
Proof. unfold len. rewrite str_app_length. lia. Qed.

Lemma len_write_at content chunk offset :
  Z.of_nat offset + len chunk ≤ len content → len (write_at content chunk offset) = len content.
Proof.
  intros Hb. unfold write_at. rewrite !len_app, len_zeros. unfold len in *. rewrite length_take_str, length_drop_str. lia.
Qed.

(** ** Sessions *)

(** What [parseMultipart] lets through. *)
Record part_ok (part : multipartRequest) : Prop := {
  po_id : mp_id part = multipartID (mp_hash part) (mp_uploader part);
  po_hash : shaPattern (mp_hash part) = true;
  po_range : 0 ≤ mp_offset part ∧ 0 ≤ mp_count part ∧ mp_offset part + mp_count part ≤ mp_length part;
}.

Lemma parseMultipart_ok `{GoUnicode} `{GoMime} r hash uploader part :
  shaPattern hash = true → parseMultipart r hash uploader = Ok part → part_ok part ∧ mp_hash part = hash ∧ mp_uploader part = uploader.
Proof.
  intros Hs. unfold parseMultipart. intros ([name path] & _ & (access & _ & Hp)%result_bind_Ok)%result_bind_Ok.
  apply guard_bind_Ok in Hp as [_ Hp]. apply guard_bind_Ok in Hp as [Hc Hp]. apply guard_bind_Ok in Hp as [_ Hp].
  apply result_bind_Ok in Hp as (length & Hl & Hp). apply result_bind_Ok in Hp as (offset & Ho & Hp).
  apply guard_bind_Ok in Hp as [Hr Hp]. apply guard_bind_Ok in Hp as [_ Hp]. apply guard_bind_Ok in Hp as [_ Hp].
  destruct (parse_media_type _) as [typ|]; [|done]. apply guard_bind_Ok in Hp as [_ [= <-]]. split; [|done].
  assert (∀ name raw v, nonnegative_header name raw = Ok v → 0 ≤ v) as Hh.
  { intros n raw v. unfold nonnegative_header. destruct (ParseInt raw); [|done..]. intros [Hv [= <-]]%guard_bind_Ok. apply orb_false_iff in Hv as [Hv _].
    apply orb_false_iff in Hv as [Hv _]. by apply Z.ltb_ge. }
  apply Hh in Hl, Ho. apply orb_false_iff in Hr as [H1%Z.ltb_ge H2%Z.ltb_ge]. apply Z.ltb_ge in Hc. split; cbn; [done..|lia].
Qed.

Implicit Types (part : multipartRequest) (d : Disk).

Section Tidying.
Context {Tdy : Tidy}.

Section Multi.
Context `{GoUnicode} `{GoSniff} (L : Limits) (J : BlobDB → Prop) `{!Carried L J} (Sn : gmap string string).
Notation IJ := (IJ J Sn).
Notation holds := (safe (CJ J) IJ).

Lemma holds_discard id : Sn !! multipartPath id = None → holds IJ (discardMultipart id) (λ _, IJ).
Proof.
  intros HS. eapply (safe_bind _ _ _ _ _ (λ _ d, IJ d ∧ uploads (d_db d) !! id = None)).
  - apply safe_commit. intros d HIJ. destruct HIJ as (HI & Hj & HF) eqn:E. assert (IJ (on_db (delete_upload id) d)) as HI'.
    { split; [|split].
      - apply Inv_db; [done|by apply KeysOK_delete_upload, ci_keys, inv_crash|by left|]. intros i u. cbn. intros [_ Hu]%lookup_delete_Some. eauto.
      - apply (carry_shrink (d_db d)); [done|done|apply delete_subseteq|done].
      - apply frozen_db; [|done]. intros i Hi Hu. cbn. rewrite lookup_delete_ne; [done|]. intros <-. rewrite HS in Hi. by destruct Hi. }
    split; [by eapply IJ_CJ|]. split; [done|]. apply lookup_delete_eq.
  - intros []. apply safe_commit. intros d [(HI & Hj & HF) Hu]. assert (∀ i, is_Some (uploads (d_db d) !! i) → multipartPath id ≠ multipartPath i) as Hne.
    { intros i [u Ei] E. apply (inj multipartPath) in E as <-. congruence. }
    assert (IJ (on_files (delete (multipartPath id)) d)) as HI'; [|split; [by eapply IJ_CJ|done]].
    split; [|split; [done|]].
    + apply Inv_remove; [|intros i u Ei; apply Hne; by eexists|done]. intros _. apply eq_None_not_Some. intros [r Hr].
      destruct (keys_rows _ (ci_keys d (inv_crash d HI)) _ r Hr) as [Hs _]. by apply (sha_not_session _ id) in Hs.
    + apply frozen_files; [|done]. intros n Hn _. apply lookup_delete_ne. intros <-. rewrite HS in Hn. by destruct Hn.
Qed.

(** Sessions with an active request are left alone. *)
Lemma holds_cleanup now ss :
  (∀ id, temp_name (multipartPath id) = false → is_Some (Sn !! multipartPath id) → default 0 (ss_active ss !! id) ≠ 0) → holds IJ (cleanupMultipart now ss) (λ _, IJ).
Proof.
  intros Ha. apply safe_get. intros d0 HI0. eapply safe_conseq; [apply (safe_each _ _ IJ)|by intros d [-> _]|done].
  intros id Hid. apply holds_discard. apply eq_None_not_Some. intros Hs. unfold expired_sessions in Hid.
  apply list_elem_of_omap in Hid as ([i u] & Hiu & Hc). cbn in Hc. destruct (_ && _) eqn:Eb; [|done]. injection Hc as ->.
  apply andb_true_iff in Eb as [_ Eb%Z.eqb_eq]. apply (Ha id); [|done..]. apply elem_of_map_to_list in Hiu.
  destruct (keys_uploads _ (ci_keys d0 (inv_crash d0 (proj1 HI0))) id u Hiu) as (-> & Hsha & _).
  apply not_true_iff_false. intros Ht. apply (temp_not_session _ _ _ Ht Hsha eq_refl).
Qed.

Lemma holds_createMultipart now part :
  part_ok part →
  holds (λ d, IJ d ∧ uploads (d_db d) !! mp_id part = None ∧ lookup_blob (d_db d) (mp_hash part) = None ∧ checkMultipartQuota (d_db d) (currentLimits L) part = Ok tt)
    (createMultipart now part) (λ _ d, IJ d ∧ ∃ u, uploads (d_db d) !! mp_id part = Some u ∧ up_length u = mp_length part).
Proof.
  intros [Ei Hs Hr]. apply safe_get. intros d0 (HIJ & Hn & Hl & Hq). cbv zeta. apply safe_guard; [tauto|]. intros Hfull.
  destruct HIJ as (HI & Hj & HF) eqn:EH. clear EH.
  assert (Sn !! multipartPath (mp_id part) = None) as HS.
  { apply eq_None_not_Some. intros [c Hc]. destruct (HF _ c Hc) as [_ [Ht|(id & E & Hu)]].
    - rewrite Ei in Ht. by eapply temp_not_session.
    - apply (inj multipartPath) in E as <-. rewrite Hn in Hu. by destruct Hu. }
  set (z := zeros (mp_length part)). assert (len z = mp_length part) as Hz by (unfold z; rewrite len_zeros; lia).
  set (d1 := on_files (<[multipartPath (mp_id part) := z]>) d0).
  assert (IJ d1) as HI1.
  { split; [|split; [done|]].
    - apply Inv_put; [|done| |done].
      + apply not_true_iff_false. intros Hp. by apply (sha_not_session _ (mp_id part)) in Hp.
      + intros id u Hu E. apply (inj multipartPath) in E as <-. congruence.
    - apply frozen_files; [|done]. intros n Hin _. apply lookup_insert_ne. intros <-. rewrite HS in Hin. by destruct Hin. }
  eapply (safe_bind _ _ _ _ _ (λ _ d, d = d1)).
  - apply safe_commit. intros d [-> _]. split; [by eapply IJ_CJ|done].
  - intros []. apply safe_commit. intros d ->. set (u := mkUpload _ _ _ _ _ _ _ _ _ _).
    pose proof (ci_keys d0 (inv_crash d0 HI)) as K.
    assert (IJ (on_db (upd_uploads (<[mp_id part := u]>)) d1)) as HI2.
    { destruct HI1 as (HI1 & _ & HF1). split; [|split].
      - split; [|apply (inv_no_scoped d1 HI1)|].
        + apply CInv_db; [by apply inv_crash| |by left]. apply KeysOK_insert_upload; [|done]. split; [done|]. cbn. split; [done|lia].
        + intros i u'. cbn. intros [[<- <-]|[_ Hu]]%lookup_insert_Some; [|by apply (inv_sessions d1 HI1)].
          exists z. rewrite lookup_insert_eq. done.
      - apply (carry_upload part u); [done..|lia|done].
      - apply frozen_db; [|done]. intros i _ Hu. cbn. apply lookup_insert_is_Some'. by right. }
    split; [by eapply IJ_CJ|]. split; [done|]. exists u. cbn. by rewrite lookup_insert_eq.
Qed.

Lemma touch_same now part u : up_uploader (touch_upload now part u) = up_uploader u ∧ up_length (touch_upload now part u) = up_length u ∧ up_sha256 (touch_upload now part u) = up_sha256 u.
Proof. done. Qed.

Lemma IJ_alter_upload id f d :
  (∀ u, up_uploader (f u) = up_uploader u ∧ up_length (f u) = up_length u ∧ up_sha256 (f u) = up_sha256 u) → IJ d → IJ (on_db (upd_uploads (alter f id)) d).
Proof.
  intros Hf (HI & Hj & HF). split; [|split].
  - apply Inv_db; [done| |by left|].
    + apply KeysOK_alter_upload; [|by apply ci_keys, inv_crash]. intros u (E & Hs & Hl). destruct (Hf u) as (E1 & E2 & E3). unfold session_id. by rewrite E1, E2, E3.
    + intros i u'. cbn. destruct (decide (i = id)) as [->|Hne].
      * rewrite lookup_alter_eq. intros (u & Hu & ->)%fmap_Some. exists u. split; [done|]. apply Hf.
      * rewrite lookup_alter_ne by done. eauto.
  - apply carry_touch; [|done]. intros u. by destruct (Hf u) as (? & ? & _).
  - apply frozen_db; [|done]. intros i _ Hu. cbn. by rewrite lookup_alter_is_Some.
Qed.

(** An admitted chunk of a blob that is not there has its session. *)
Lemma holds_admission limits now part :
  limits = L → part_ok part →
  holds IJ (multipartAdmission limits now part)
    (λ _ d, IJ d ∧ (lookup_blob (d_db d) (mp_hash part) = None → ∃ u, uploads (d_db d) !! mp_id part = Some u ∧ up_length u = mp_length part)).
Proof.
  intros -> Hp. apply safe_get. intros d0 HI0. cbv zeta. do 2 (apply safe_guard; [tauto|]; intros _).
  destruct (lookup_blob (d_db d0) (mp_hash part)) as [existing|] eqn:El.
  - apply safe_guard; [tauto|]. intros _. apply safe_of; [tauto|]. intros [] d _ (-> & _). split; [done|]. by rewrite El.
  - destruct (uploads (d_db d0) !! mp_id part) as [u|] eqn:Eu.
    + apply safe_guard; [tauto|]. intros Hc. apply safe_pure; [tauto|]. intros [] _. apply safe_commit. intros d [-> _].
      assert (IJ (on_db (upd_uploads (alter (touch_upload now part) (mp_id part))) d0)) as HI' by by apply IJ_alter_upload.
      split; [by eapply IJ_CJ|]. split; [done|]. intros _. exists (touch_upload now part u). cbn. rewrite lookup_alter_eq, Eu. split; [done|]. cbn.
      unfold session_conflict in Hc. rewrite !orb_false_iff, negb_false_iff, Z.eqb_eq in Hc. tauto.
    + apply safe_pure; [tauto|]. intros [] Hq. eapply safe_conseq; [by apply (holds_createMultipart now part)| |].
      * by intros d (-> & _).
      * intros [] d (HI & Hu). split; [done|]. by intros _.
Qed.

Lemma holds_reserve limits now part ss :
  limits = L → part_ok part → (∀ id, temp_name (multipartPath id) = false → is_Some (Sn !! multipartPath id) → default 0 (ss_active ss !! id) ≠ 0) →
  holds IJ (reserveMultipart limits now part ss) (λ ss' d, IJ d ∧ ss' = begin_part (mp_id part) ss).
Proof.
  intros EL Hp Ha. eapply safe_bind; [by apply holds_cleanup|]. intros []. apply safe_guard; [done|]. intros _.
  eapply (safe_bind _ _ _ _ _ (λ _, IJ)).
  - eapply safe_conseq; [by apply holds_admission|done|]. by intros [] d [? _].
  - intros []. by apply safe_ret.
Qed.

Definition released (id : string) (ss : Sessions) : Sessions :=
  let n := default 0 (ss_active ss !! id) - 1 in
  if 0 <? n then mkSessions (<[id := n]> (ss_active ss)) (ss_finalizing ss) else mkSessions (delete id (ss_active ss)) (ss_finalizing ss).

Lemma holds_release id ss :
  (default 0 (ss_active ss !! id) ≤ 1 → Sn !! multipartPath id = None) → holds IJ (releaseMultipart id ss) (λ ss' d, IJ d ∧ ss' = released id ss).
Proof.
  intros Ha. apply safe_get. intros d0 HI0. cbv zeta. unfold released. destruct (Z.ltb_spec 0 (default 0 (ss_active ss !! id) - 1)).
  - apply safe_ret. by intros d [-> _].
  - eapply (safe_bind _ _ _ _ _ (λ _, IJ)); [|intros []; by apply safe_ret].
    destruct (parts_of (d_db d0) id); [|apply safe_ret; by intros d [-> _]].
    eapply safe_conseq; [apply holds_discard, Ha; lia|by intros d [-> _]|done].
Qed.

Lemma holds_stage validate tmp body part :
  temp_name tmp = true → Sn !! tmp = None → holds IJ (stageMultipart validate tmp body part) (λ chunk d, IJ d ∧ chunk = tmp ∧ d_files d !! tmp = Some body ∧ len body = mp_count part).
Proof.
  intros Ht HS. apply safe_guard; [done|]. intros H1%Z.ltb_ge. apply safe_guard; [done|]. intros H2%Z.ltb_ge. apply safe_pure; [done|]. intros [] _.
  eapply (safe_bind _ _ _ _ _ (λ _ d, IJ d ∧ d_files d !! tmp = Some body)); [|intros []; apply safe_ret; intros d [? ?]; split_and!; [done..|lia]].
  apply safe_commit. intros d HI. assert (IJ (on_files (<[tmp:=body]>) d)) by by apply IJ_put_temp. split; [by eapply IJ_CJ|]. split; [done|apply lookup_insert_eq].
Qed.

Lemma holds_writeChunk part tmp body :
  part_ok part → Sn !! multipartPath (mp_id part) = None → Sn !! tmp = Some body → len body = mp_count part →
  holds (λ d, IJ d ∧ ∃ u, uploads (d_db d) !! mp_id part = Some u ∧ up_length u = mp_length part)
    (writeMultipartChunk (multipartPath (mp_id part)) tmp (mp_offset part)) (λ _ d, IJ d ∧ is_Some (uploads (d_db d) !! mp_id part)).
Proof.
  intros Hp HS Hst Hl. apply safe_get. intros d0 (HIJ & u & Hu & Hul). destruct HIJ as (HI & Hj & HF) eqn:EH. clear EH. destruct (HF tmp body Hst) as [Hc _].
  destruct (inv_sessions d0 HI _ u Hu) as (content & Hf & Hlen). rewrite Hc, Hf. apply safe_commit. intros d [-> _].
  destruct (po_range part Hp) as (H1 & H2 & H3).
  assert (IJ (on_files (<[multipartPath (mp_id part) := write_at content body (Z.to_nat (mp_offset part))]>) d0)) as HI'.
  { split; [|split; [done|]].
    - apply Inv_put; [|done| |done].
      + apply not_true_iff_false. intros Hn. by apply (sha_not_session _ (mp_id part)) in Hn.
      + intros id u' Hu' E. apply (inj multipartPath) in E as <-. rewrite len_write_at; [congruence|]. lia.
    - apply frozen_files; [|done]. intros n Hid _. apply lookup_insert_ne. intros <-. rewrite HS in Hid. by destruct Hid. }
  split; [by eapply IJ_CJ|]. split; [done|]. by exists u.
Qed.

Lemma holds_record id now ranges :
  holds (λ d, IJ d ∧ is_Some (uploads (d_db d) !! id)) (recordMultipartRanges id now ranges) (λ _ d, IJ d ∧ is_Some (uploads (d_db d) !! id)).
Proof.
  apply safe_commit. intros d [HI Hu].
  match goal with |- CJ J (on_db ?f d) ∧ _ => assert (IJ (on_db f d)) as HI'; [|split; [by eapply IJ_CJ|split; [done|cbn; by rewrite lookup_alter_is_Some]]] end.
  change (IJ (on_db (upd_uploads (alter (λ u, mkUpload (up_sha256 u) (up_uploader u) (up_length u) (up_type u) (up_created u) now (up_name u) (up_path u) (up_access u) (up_purpose u)) id))
    (on_db (λ db, upd_parts (λ m, list_to_map ((λ span : Z * Z, ((id, span.1), span.2 - span.1)) <$> ranges) ∪ filter (λ kl, kl.1.1 ≠ id) m) db) d))).
  apply IJ_alter_upload; [done|]. apply (IJ_shrink L); [done|done| |done..].
  apply (KeysOK_parts id); [done| |by apply ci_keys, inv_crash, HI]. intros k n [Hn|[_ Hn]]%lookup_union_Some_raw.
  - left. apply elem_of_list_to_map_2, list_elem_of_fmap in Hn as (span & [= -> _] & _). done.
  - right. by apply lookup_filter_is in Hn as [Hn _].
Qed.

(** ** Commits *)

Lemma safe_on_error {A} (P : Disk → Prop) (m : IO A) cleanup Q : holds P m Q → holds IJ cleanup (λ _, IJ) → holds P (on_error m cleanup) Q.
Proof.
  intros Hm Hc d HP l d' r. unfold on_error. destruct (m d) as [[l1 d1] r1] eqn:E. destruct (Hm d HP l1 d1 r1 E) as [HC HQ].
  destruct r1 as [a|e]; [by intros [= <- <- <-]|]. destruct (cleanup d1) as [[l2 d2] r2] eqn:E2. intros [= <- <- <-].
  destruct (safe_keeps _ _ _ _ _ Hc (λ _ _ H, H) d1 l2 d2 r2 HQ E2). split; [by apply Forall_app|done].
Qed.

(** A blob that is there is claimed: the candidate has no file, and none is
    put back. *)
Lemma holds_install_known env cd :
  be_limits env = L → releasable Sn cd → cd_path cd = "" → holds (λ d, IJ d ∧ is_Some (lookup_blob (d_db d) (cd_hash cd))) (installUpload env cd) (λ _, IJ).
Proof.
  intros EL Hr Ep. apply safe_get. intros d0 (HI0 & existing & El). cbv zeta. apply safe_pure; [tauto|]. intros access _.
  apply safe_guard; [tauto|]. intros _. apply safe_pure; [tauto|]. intros terms _. do 2 (apply safe_guard; [tauto|]; intros _).
  rewrite El. eapply safe_conseq; [apply (holds_claim_existing L); [done|done|done|by left]| |done]. intros d (-> & HI & _). split; [done|]. split; [done|by left].
Qed.

(** The candidate of an assembled session. *)
Record assembled part (cd : uploadCandidate) : Prop := {
  as_path : cd_path cd = multipartPath (mp_id part);
  as_reservation : cd_reservation cd = mp_id part;
  as_hash : cd_hash cd = mp_hash part;
  as_uploader : cd_uploader cd = mp_uploader part;
  as_commit : cd_commit cd = None;
}.

Lemma assembled_cand part cd : part_ok part → assembled part cd → cand_path cd.
Proof. intros Hp [E1 E2 E3 E4 E5]. right. rewrite E1, E2, E3, E4. split_and!; [done|apply Hp|done]. Qed.

Definition finalizing (id : string) (ss : Sessions) : Sessions := mkSessions (ss_active ss) ({[id]} ∪ ss_finalizing ss).
Definition committed part ss (r : PartOutcome * Sessions) d : Prop :=
  match r.1 with
  | Finalize cd => assembled part cd ∧ mp_id part ∉ ss_finalizing ss ∧ r.2 = finalizing (mp_id part) ss ∧ is_Some (uploads (d_db d) !! mp_id part)
  | _ => r.2 = ss
  end.

Lemma holds_commit env part chunk body ss :
  be_limits env = L → part_ok part → Sn !! chunk = Some body → len body = mp_count part →
  (mp_id part ∉ ss_finalizing ss → Sn !! multipartPath (mp_id part) = None) →
  holds IJ (commitMultipart env part chunk ss) (λ r d, IJ d ∧ committed part ss r d).
Proof.
  intros EL Hp Hst Hl HS. apply safe_guard; [done|]. intros Hf%bool_decide_eq_false. specialize (HS Hf).
  eapply safe_bind; [by apply holds_admission|]. intros []. apply safe_get. intros d0 (HI0 & Hu). cbv zeta.
  destruct (match uploads (d_db d0) !! mp_id part with Some u => _ | None => _ end) as [[name path] purpose].
  destruct (lookup_blob (d_db d0) (mp_hash part)) as [existing|] eqn:El.
  - apply safe_guard; [tauto|]. intros _. eapply safe_bind; [|intros e; apply safe_ret; intros d HI; split; [exact HI|done]].
    eapply safe_conseq; [apply holds_install_known; [done|by right|done]| |done]. intros d (-> & _). split; [done|]. cbn. rewrite El. by eexists.
  - apply safe_pure; [tauto|]. intros ranges _. eapply (safe_bind _ _ _ _ _ (λ _ d, IJ d ∧ is_Some (uploads (d_db d) !! mp_id part))).
    { apply safe_on_error; [|by apply holds_discard]. eapply safe_conseq; [by apply (holds_writeChunk part chunk body)| |done].
      intros d (-> & _). split; [done|by apply Hu]. }
    intros []. eapply safe_bind; [by apply holds_record|]. intros []. apply safe_ret. intros d [HI Hs]. split; [done|].
    destruct ranges as [|[start stop] [|]]; [done| |done]. by destruct (_ && _).
Qed.

Lemma holds_finalize_failed canceled part cd ss :
  assembled part cd → Sn !! multipartPath (mp_id part) = None →
  holds IJ (finalize_failed canceled cd ss) (λ ss' d, IJ d ∧ ss' = end_finalizing (mp_id part) ss).
Proof.
  intros Ha HS. unfold finalize_failed. rewrite (as_reservation _ _ Ha).
  eapply (safe_bind _ _ _ _ _ (λ _, IJ)); [|intros []; by apply safe_ret]. destruct canceled; [by apply safe_ret|by apply holds_discard].
Qed.

Lemma holds_finalize_install env part cd ss :
  be_limits env = L → part_ok part → assembled part cd → Sn !! multipartPath (mp_id part) = None →
  holds (λ d, IJ d ∧ cand_bytes cd d) (finalize_install env cd ss) (λ r d, IJ d ∧ r.2 = end_finalizing (mp_id part) ss).
Proof.
  intros EL Hp Ha HS d HP l d' r. unfold finalize_install. destruct (installUpload env cd d) as [[l1 d1] r1] eqn:E1.
  destruct (discardMultipart (cd_reservation cd) d1) as [[l2 d2] r2] eqn:E2. intros [= <- <- <-]. cbn. rewrite (as_reservation _ _ Ha) in E2 |- *.
  assert (Sn !! cd_path cd = None) as HS' by by rewrite (as_path _ _ Ha).
  destruct (safe_keeps _ _ _ _ _ (holds_installUpload L J Sn env cd EL (assembled_cand part cd Hp Ha) HS') (λ _ _ H, H) d l1 d1 r1 HP E1) as [HC1 HI1].
  destruct (safe_keeps _ _ _ _ _ (holds_discard (mp_id part) HS) (λ _ _ H, H) d1 l2 d2 r2 HI1 E2) as [HC2 HI2].
  split; [by apply Forall_app|done].
Qed.
End Multi.

(** ** Requests *)

Definition thread_part (t : Thread) : multipartRequest :=
  match t with Began p | Held p _ | Verifying p _ _ | Verified p _ _ | Ending p _ => p end.
Definition thread_id (t : Thread) : string := mp_id (thread_part t).
(** The files a request has for itself. *)
Definition thread_names (t : Thread) : list string :=
  match t with
  | Began _ | Ending _ None => []
  | Held _ chunk | Ending _ (Some chunk) => [chunk]
  | Verifying _ chunk cd | Verified _ chunk cd => [chunk; cd_path cd]
  end.
(** It finalizes its session. *)
Definition holds_session (ss : Sessions) part cd d : Prop :=
  assembled part cd ∧ mp_id part ∈ ss_finalizing ss ∧ is_Some (uploads (d_db d) !! mp_id part).
Definition thread_ok (ss : Sessions) d (t : Thread) : Prop :=
  part_ok (thread_part t) ∧ (∀ n, n ∈ thread_names t → is_Some (d_files d !! n)) ∧
  match t with
  | Began _ | Ending _ None => True
  | Held part chunk => temp_name chunk = true ∧ ∃ body, d_files d !! chunk = Some body ∧ len body = mp_count part
  | Verifying part chunk cd => temp_name chunk = true ∧ holds_session ss part cd d
  | Verified part chunk cd => temp_name chunk = true ∧ holds_session ss part cd d ∧ cand_bytes cd d
  | Ending _ (Some chunk) => temp_name chunk = true
  end.

Definition holders (id : string) (ts : list Thread) : Z := Z.of_nat (List.length (List.filter (λ t, String.eqb (thread_id t) id) ts)).

Definition pending_sha (p : Removal) : string := match p with ToEntomb sha _ | ToUnlist sha | ToRemove sha => sha end.
(** What holds between operations. *)
Record RInv (J : BlobDB → Prop) (r : Run) : Prop := {
  ri_inv : Inv (r_disk r);
  ri_carried : J (d_db (r_disk r));
  ri_threads : Forall (thread_ok (r_sessions r) (r_disk r)) (r_threads r);
  ri_names : NoDup (r_threads r ≫= thread_names);
  ri_active id : default 0 (ss_active (r_sessions r) !! id) = holders id (r_threads r);
  ri_pending : Forall (λ p, shaPattern (pending_sha p) = true) (r_pending r);
}.

(** ** Threads keep what they hold *)

Lemma holders_perm id ts ts' : ts ≡ₚ ts' → holders id ts = holders id ts'.
Proof.
  intros Hp. unfold holders. f_equal. apply Permutation_length. induction Hp as [|t ts ts' _ IH|t u ts|ts1 ts2 ts3 _ IH1 _ IH2]; cbn; [done|..].
  - case_match; [by constructor|done].
  - repeat case_match; [constructor|done..].
  - by etransitivity.
Qed.

Lemma holders_cons id t ts : holders id (t :: ts) = holders id ts + (if String.eqb (thread_id t) id then 1 else 0).
Proof. unfold holders. cbn. case_match; cbn [List.length]; lia. Qed.

Lemma holders_app id ts ts' : holders id (ts ++ ts') = holders id ts + holders id ts'.
Proof. induction ts as [|t ts IH]; [done|]. cbn [app]. rewrite !holders_cons, IH. lia. Qed.

Lemma holders_pos id t ts : t ∈ ts → thread_id t = id → 0 < holders id ts.
Proof.
  intros Hin <-. induction Hin as [ts|u ts Hin IH]; rewrite holders_cons; [rewrite String.eqb_refl|]; unfold holders in *; [lia|]. case_match; lia.
Qed.

Lemma holders_nonneg id ts : 0 ≤ holders id ts.
Proof. unfold holders. lia. Qed.

(** The files of these requests. *)
Definition keep (ts : list Thread) d : gmap string string := filter (λ nc, nc.1 ∈ ts ≫= thread_names) (d_files d).

Lemma keep_Some ts d n c : keep ts d !! n = Some c ↔ d_files d !! n = Some c ∧ n ∈ ts ≫= thread_names.
Proof. apply lookup_filter_is. Qed.

Lemma keep_none ts d n : n ∉ ts ≫= thread_names → keep ts d !! n = None.
Proof. intros Hn. apply eq_None_not_Some. by intros [c [_ Hc]%keep_Some]. Qed.

Lemma keep_fresh ts d n : fresh_temp n d = true → temp_name n = true ∧ keep ts d !! n = None.
Proof.
  unfold fresh_temp. rewrite andb_true_iff, negb_true_iff, bool_decide_eq_false. intros [Ht Hn]. split; [done|].
  apply eq_None_not_Some. intros [c [Hc _]%keep_Some]. apply Hn. by eexists.
Qed.

Lemma thread_own ss d t n : thread_ok ss d t → n ∈ thread_names t → own_name d n.
Proof.
  intros (Hp & _ & Ht). destruct t as [p|p chunk|p chunk cd|p chunk cd|p [chunk|]]; cbn in *; intros Hn; set_unfold; [done|left; naive_solver|..|left; naive_solver|done].
  - destruct Ht as (Ht & Ha & _ & Hu), Hn as [->|[->|[]]]; [by left|right]. exists (mp_id p). by rewrite (as_path _ _ Ha).
  - destruct Ht as (Ht & (Ha & _ & Hu) & _), Hn as [->|[->|[]]]; [by left|right]. exists (mp_id p). by rewrite (as_path _ _ Ha).
Qed.

Lemma keep_frozen ss ts d : Forall (thread_ok ss d) ts → frozen (keep ts d) d.
Proof.
  intros Ht n c [Hc (t & Hn & Hin)%list_elem_of_bind]%keep_Some. split; [done|]. rewrite Forall_forall in Ht. eapply thread_own; [by apply Ht|done].
Qed.

Lemma session_not_temp part : part_ok part → temp_name (multipartPath (mp_id part)) = false.
Proof. intros Hp. apply not_true_iff_false. intros Ht. rewrite (po_id _ Hp) in Ht. apply (temp_not_session _ _ _ Ht (po_hash _ Hp) eq_refl). Qed.

(** The session a request finalizes. *)
Definition session_of (t : Thread) : option string :=
  match t with Verifying p _ _ | Verified p _ _ => Some (mp_id p) | _ => None end.

Lemma session_name ss d t id : thread_ok ss d t → session_of t = Some id → multipartPath id ∈ thread_names t ∧ thread_id t = id.
Proof.
  intros (_ & _ & Ht). destruct t as [| |p chunk cd|p chunk cd|]; cbn in *; [done..| | |done]; intros [= <-]; (split; [|done]).
  - destruct Ht as (_ & Ha & _). rewrite (as_path _ _ Ha). set_solver.
  - destruct Ht as (_ & (Ha & _) & _). rewrite (as_path _ _ Ha). set_solver.
Qed.

Lemma keep_thread ss ss' ts d d' t :
  thread_ok ss d t → t ∈ ts → frozen (keep ts d) d' → (∀ id, session_of t = Some id → id ∈ ss_finalizing ss → id ∈ ss_finalizing ss') → thread_ok ss' d' t.
Proof.
  intros (Hp & Hn & Ht) Hin HF Hss.
  assert (∀ n c, n ∈ thread_names t → d_files d !! n = Some c → d_files d' !! n = Some c ∧ own_name d' n) as Hk.
  { intros n c Hnt Hc. apply HF. apply keep_Some. split; [done|]. apply list_elem_of_bind. by exists t. }
  assert (∀ part cd, thread_part t = part → session_of t = Some (mp_id part) → cd_path cd ∈ thread_names t → holds_session ss part cd d → holds_session ss' part cd d') as Hs.
  { intros part cd <- Hso Hcd (Ha & Hf & Hu). split; [done|]. split; [by apply Hss|]. destruct (Hn _ Hcd) as [c Hc]. destruct (Hk _ c Hcd Hc) as [_ Ho].
    rewrite (as_path _ _ Ha) in Ho. destruct Ho as [Ho|(id & E & Ho)]; [by rewrite session_not_temp in Ho|]. by apply (inj multipartPath) in E as <-. }
  split; [done|]. split; [intros n Hnt; destruct (Hn n Hnt) as [c Hc]; exists c; by apply Hk|].
  destruct t as [p|p chunk|p chunk cd|p chunk cd|p [chunk|]]; cbn in *; [done|..|done|done].
  - destruct Ht as (Ht & body & Hb & Hl). split; [done|]. exists body. split; [apply Hk; set_solver|done].
  - destruct Ht as [Ht Hh]. split; [done|]. apply Hs; [done..|set_solver|done].
  - destruct Ht as (Ht & Hh & c & Hc & Hd). split; [done|]. split; [apply Hs; [done..|set_solver|done]|].
    exists c. split; [apply Hk; set_solver|done].
Qed.

Lemma RInv_next J r old ts new ss' d' :
  RInv J r → r_threads r ≡ₚ old ++ ts → IJ J (keep ts (r_disk r)) d' →
  (∀ t id, t ∈ ts → session_of t = Some id → id ∈ ss_finalizing (r_sessions r) → id ∈ ss_finalizing ss') →
  Forall (thread_ok ss' d') new → NoDup (new ≫= thread_names) → (∀ n, n ∈ new ≫= thread_names → n ∈ ts ≫= thread_names → False) →
  (∀ id, default 0 (ss_active ss' !! id) = holders id (new ++ ts)) →
  RInv J (mkRun d' ss' (new ++ ts) (r_pending r)).
Proof.
  intros [HI Hj Ht Hn Ha Hpe] Hp (HI' & Hj' & HF) Hss Hnew Hnd Hdis Hact. rewrite Hp in Ht, Hn. rewrite bind_app in Hn. apply NoDup_app in Hn as (_ & _ & Hn).
  apply Forall_app in Ht as [_ Ht]. split; [done|done| |cbn [r_threads]; rewrite bind_app; apply NoDup_app; by split_and!|done|done].
  apply Forall_app. split; [done|]. rewrite Forall_forall in Ht |- *. intros t Hin. eapply keep_thread; [by apply Ht|done|done|]. intros id Hs. by eapply Hss.
Qed.

Lemma RInv_IJ J r ts old : RInv J r → r_threads r ≡ₚ old ++ ts → IJ J (keep ts (r_disk r)) (r_disk r).
Proof.
  intros [HI Hj Ht _ _ _] Hp. split; [done|]. split; [done|]. rewrite Hp in Ht. apply Forall_app in Ht as [_ Ht]. by eapply keep_frozen.
Qed.

(** ** Operations *)

Lemma safe_try {A} (C I I' P : Disk → Prop) (m : IO A) Q :
  safe C I P m Q → safe C I' P (io_try m) (λ r d, match r with Ok a => Q a d | Err _ => I d end).
Proof.
  intros Hm d HP l d' r. unfold io_try. destruct (m d) as [[l1 d1] r1] eqn:E. intros [= <- <- <-]. by apply (Hm d HP).
Qed.

Section Ops.
Context `{GoUnicode} `{GoSniff} `{GoMime} (P : Limits → Prop) (J : BlobDB → Prop) (HC : ∀ L, P L → Carried L J) (L0 : Limits) (HL0 : P L0).
Implicit Types (r : Run) (ts : list Thread).
Notation Next r m := (safe (CJ J) (λ _, False) (λ d, d = r_disk r) m (λ x d, RInv J (mkRun d x.1 x.2 (r_pending r)))).
Notation Kept ts r := (IJ J (keep ts (r_disk r))).

(** A program under [safe], with the errors it may end in. *)
Lemma next_try {A} r ts old (m : IO A) Q (k : result A → Sessions * list Thread) :
  RInv J r → r_threads r ≡ₚ old ++ ts → safe (CJ J) (Kept ts r) (Kept ts r) m Q →
  (∀ a d, Q a d → RInv J (mkRun d (k (Ok a)).1 (k (Ok a)).2 (r_pending r))) →
  (∀ e d, Kept ts r d → RInv J (mkRun d (k (Err e)).1 (k (Err e)).2 (r_pending r))) →
  Next r (run res <- io_try m; io_ret (k res)).
Proof.
  intros HR Hp Hm HQ HE. eapply safe_bind.
  - apply safe_try. eapply safe_conseq; [exact Hm| |done]. intros d ->. by eapply RInv_IJ.
  - intros [a|e]; apply safe_ret; [apply HQ|apply HE].
Qed.

Lemma RInv_same r d : RInv J r → Kept (r_threads r) r d → RInv J (mkRun d (r_sessions r) (r_threads r) (r_pending r)).
Proof.
  intros HR HI. apply (RInv_next J r [] (r_threads r) []); [done..| |constructor| |intros n Hn; by apply not_elem_of_nil in Hn|apply (ri_active J r HR)]; [done|constructor].
Qed.

Lemma next_alone {A} r (m : IO A) : RInv J r → safe (CJ J) (Kept (r_threads r) r) (Kept (r_threads r) r) m (λ _, Kept (r_threads r) r) → Next r (alone m (r_sessions r) (r_threads r)).
Proof.
  intros HR Hm. apply (next_try r (r_threads r) [] m (λ _, Kept (r_threads r) r) (λ _, (r_sessions r, r_threads r))); [done..| |]; intros; by apply RInv_same.
Qed.

(** A session with a file of a request has a request. *)
Lemma kept_active r ts id : RInv J r → ts ⊆ r_threads r → temp_name (multipartPath id) = false → is_Some (keep ts (r_disk r) !! multipartPath id) →
  ∃ t, t ∈ ts ∧ session_of t = Some id.
Proof.
  intros HR Hts Ht [c [_ (t & Hn & Hin)%list_elem_of_bind]%keep_Some]. exists t. split; [done|]. pose proof (ri_threads J r HR) as HT. rewrite Forall_forall in HT.
  destruct (HT t (Hts t Hin)) as (_ & _ & Hok). destruct t as [p|p chunk|p chunk cd|p chunk cd|p [chunk|]]; cbn in *; set_unfold; [done|..|done].
  - destruct Hn as [E|[]]. subst chunk. destruct Hok. congruence.
  - destruct Hok as (Hc & Ha & _), Hn as [E|[E|[]]]; [congruence|]. rewrite (as_path _ _ Ha) in E. by apply (inj multipartPath) in E as ->.
  - destruct Hok as (Hc & (Ha & _) & _), Hn as [E|[E|[]]]; [congruence|]. rewrite (as_path _ _ Ha) in E. by apply (inj multipartPath) in E as ->.
  - destruct Hn as [E|[]]. congruence.
Qed.

Lemma active_kept r ts id : RInv J r → ts ⊆ r_threads r → temp_name (multipartPath id) = false → is_Some (keep ts (r_disk r) !! multipartPath id) → 0 < holders id ts.
Proof.
  intros HR Hts Ht Hk. destruct (kept_active r ts id HR Hts Ht Hk) as (t & Hin & Hs). apply (holders_pos id t ts Hin).
  pose proof (ri_threads J r HR) as HT. rewrite Forall_forall in HT. by destruct (session_name _ _ t id (HT t (Hts t Hin)) Hs).
Qed.

Lemma kept_weaken r t ts d : Kept (t :: ts) r d → Kept ts r d.
Proof.
  intros (HI & Hj & HF). split; [done|]. split; [done|]. intros n c [Hc Hn]%keep_Some. apply HF, keep_Some. split; [done|]. cbn. apply elem_of_app. by right.
Qed.

Lemma kept_of r ts : RInv J r → Forall (thread_ok (r_sessions r) (r_disk r)) ts → Kept ts r (r_disk r).
Proof. intros HR Ht. split; [apply HR|]. split; [apply HR|]. by eapply keep_frozen. Qed.

(** What is known of a request and of the others. *)
Lemma threads_split r t ts : RInv J r → r_threads r ≡ₚ t :: ts →
  thread_ok (r_sessions r) (r_disk r) t ∧ Forall (thread_ok (r_sessions r) (r_disk r)) ts ∧ ts ⊆ r_threads r ∧
  NoDup (thread_names t) ∧ (∀ n, n ∈ thread_names t → n ∈ ts ≫= thread_names → False) ∧ ∀ id, default 0 (ss_active (r_sessions r) !! id) = holders id (t :: ts).
Proof.
  intros HR Hp. pose proof (ri_threads J r HR) as Ht. pose proof (ri_names J r HR) as Hn. rewrite Hp in Ht, Hn. inversion Ht; subst.
  change ((t :: ts) ≫= thread_names) with (thread_names t ++ (ts ≫= thread_names)) in Hn. apply NoDup_app in Hn as (Hn1 & Hn2 & _).
  split_and!; [done|done| |done|done|].
  - intros u Hu. rewrite Hp. by right.
  - intros id. by rewrite (ri_active J r HR), (holders_perm id _ _ Hp).
Qed.

(** A request goes on. *)
Lemma RInv_turn r t t' ts ss' d' :
  RInv J r → r_threads r ≡ₚ t :: ts → Kept ts r d' → thread_part t' = thread_part t → ss_active ss' = ss_active (r_sessions r) →
  (∀ u id, u ∈ ts → session_of u = Some id → id ∈ ss_finalizing (r_sessions r) → id ∈ ss_finalizing ss') →
  thread_ok ss' d' t' → NoDup (thread_names t') → (∀ n, n ∈ thread_names t' → n ∈ ts ≫= thread_names → False) → RInv J (mkRun d' ss' (t' :: ts) (r_pending r)).
Proof.
  intros HR Hp HK Ep Ea Hf Ht Hn Hdis. destruct (threads_split r t ts HR Hp) as (_ & _ & _ & _ & _ & Hact).
  apply (RInv_next J r [t] ts [t']); [done..| | | |].
  - by apply Forall_singleton.
  - change ([t'] ≫= thread_names) with (thread_names t' ++ []). by rewrite app_nil_r.
  - change ([t'] ≫= thread_names) with (thread_names t' ++ []). by rewrite app_nil_r.
  - intros id. rewrite Ea, Hact. cbn [app]. rewrite !holders_cons. unfold thread_id. by rewrite Ep.
Qed.

Lemma next_begin r limits now req hash uploader :
  RInv J r → P limits → shaPattern hash = true → Next r (begin_multipart limits now req hash uploader (r_sessions r) (r_threads r)).
Proof.
  intros HR HP Hs. unfold begin_multipart. destruct (parseMultipart req hash uploader) as [part|e] eqn:E; [|apply safe_ret; intros d ->; by destruct r].
  destruct (parseMultipart_ok _ _ _ _ Hs E) as (Hpart & _). pose proof (HC limits HP).
  apply (next_try r (r_threads r) [] _ (λ ss d, Kept (r_threads r) r d ∧ ss = begin_part (mp_id part) (r_sessions r))
    (λ res, match res with Ok ss => (ss, Began part :: r_threads r) | Err _ => (r_sessions r, r_threads r) end)); [done|done|..].
  - apply (holds_reserve limits); [done..|]. intros id Ht Hk. rewrite (ri_active J r HR). pose proof (active_kept r (r_threads r) id HR (λ _ Hu, Hu) Ht Hk). lia.
  - intros ss d [HK ->]. cbn. apply (RInv_next J r [] (r_threads r) [Began part]); [done..| |constructor|intros n Hn; by apply not_elem_of_nil in Hn|].
    + constructor; [|constructor]. split; [done|]. split; [|done]. intros n Hn. by apply not_elem_of_nil in Hn.
    + intros id. cbn [app ss_active begin_part]. rewrite holders_cons. unfold thread_id. cbn. destruct (String.eqb_spec (mp_id part) id) as [->|Hne].
      * rewrite lookup_insert_eq. cbn. by rewrite (ri_active J r HR).
      * rewrite lookup_insert_ne by done. rewrite (ri_active J r HR). lia.
  - intros e d HK. by apply RInv_same.
Qed.

Lemma next_hold r validate tmp body part ts :
  RInv J r → r_threads r ≡ₚ Began part :: ts → fresh_temp tmp (r_disk r) = true → Next r (hold_multipart validate tmp body part (r_sessions r) ts).
Proof.
  intros HR Hp Hf. destruct (threads_split r _ ts HR Hp) as ((Hpart & _) & Hts & _). destruct (keep_fresh ts _ _ Hf) as [Ht Hk].
  apply (next_try r ts [Began part] _ (λ chunk d, Kept ts r d ∧ chunk = tmp ∧ d_files d !! tmp = Some body ∧ len body = mp_count part)
    (λ res, match res with Ok chunk => (r_sessions r, Held part chunk :: ts) | Err _ => (r_sessions r, Ending part None :: ts) end)); [done|done|..].
  - by apply holds_stage.
  - intros chunk d (HK & -> & Hb & Hl). cbn. apply (RInv_turn r (Began part)); [done..| |apply NoDup_singleton|].
    + split; [done|]. split; [|cbn; eauto]. cbn. intros n ->%list_elem_of_singleton. by eexists.
    + cbn. intros n ->%list_elem_of_singleton (t & Hn & Hin)%list_elem_of_bind. rewrite Forall_forall in Hts. destruct (Hts t Hin) as (_ & Hx & _).
      specialize (Hx tmp Hn). unfold fresh_temp in Hf. rewrite andb_true_iff, negb_true_iff, bool_decide_eq_false in Hf. tauto.
  - intros e d HK. cbn. apply (RInv_turn r (Began part)); [done..| |constructor|]; [|intros n Hn; by apply not_elem_of_nil in Hn].
    split; [done|]. split; [|done]. intros n Hn. by apply not_elem_of_nil in Hn.
Qed.

(** A session that is not being finalized is nobody's. *)
Lemma session_free r ts id :
  RInv J r → ts ⊆ r_threads r → temp_name (multipartPath id) = false → id ∉ ss_finalizing (r_sessions r) → multipartPath id ∉ ts ≫= thread_names.
Proof.
  intros HR Hts Ht Hf (t & Hn & Hin)%list_elem_of_bind. pose proof (ri_threads J r HR) as HT. rewrite Forall_forall in HT. destruct (HT t (Hts t Hin)) as (Hx & Hy & Hz).
  destruct (Hy _ Hn) as [c Hc]. destruct (kept_active r ts id HR Hts Ht) as (u & Hu & Hs).
  - exists c. apply keep_Some. split; [done|]. apply list_elem_of_bind. by exists t.
  - destruct (HT u (Hts u Hu)) as (_ & _ & Hok). destruct u; cbn in *; try done; injection Hs as <-.
    + destruct Hok as (_ & _ & ? & _). done.
    + destruct Hok as (_ & (_ & ? & _) & _). done.
Qed.

Lemma next_commit r env part chunk ts :
  RInv J r → P (be_limits env) → r_threads r ≡ₚ Held part chunk :: ts → Next r (commit_multipart env part chunk (r_sessions r) ts).
Proof.
  intros HR HP Hp. destruct (threads_split r _ ts HR Hp) as (Ht0 & Hts & Hsub & _ & Hdis & _). pose proof Ht0 as (Hpart & _ & Htmp & body & Hb & Hl).
  cbn in Hpart, Hdis. pose proof (HC _ HP). pose proof (session_not_temp part Hpart) as Hnt.
  assert (∀ d, Kept (Held part chunk :: ts) r d → is_Some (d_files d !! chunk)) as Hchunk.
  { intros d (_ & _ & HF). exists body. apply HF, keep_Some. split; [done|]. by left. }
  assert (∀ d, Kept (Held part chunk :: ts) r d → RInv J (mkRun d (r_sessions r) (Ending part (Some chunk) :: ts) (r_pending r))) as Hend.
  { intros d HK. apply (RInv_turn r (Held part chunk)); [done|done|by eapply kept_weaken|done..| |apply NoDup_singleton|done].
    split; [done|]. split; [|done]. cbn. intros n ->%list_elem_of_singleton. by apply Hchunk. }
  apply (next_try r (Held part chunk :: ts) [] _ (λ x d, Kept (Held part chunk :: ts) r d ∧ committed part (r_sessions r) x d)
    (λ res, match res with
            | Ok (Finalize cd, ss) => (ss, Verifying part chunk cd :: ts)
            | Ok (_, ss) => (ss, Ending part (Some chunk) :: ts)
            | Err _ => (r_sessions r, Ending part (Some chunk) :: ts)
            end)); [done|done|..].
  - apply (holds_commit (be_limits env) J _ env part chunk body); [done..| |done|].
    + apply keep_Some. split; [done|]. by left.
    + intros Hf. apply keep_none. cbn. intros [E|Hn]%elem_of_cons; [congruence|]. by eapply session_free.
  - intros [o ss] d [HK Hc]. destruct o as [e| |cd]; cbn in Hc; [subst ss; by apply Hend..|]. destruct Hc as (Ha & Hf & Hss & Hu). cbn in Hss. subst ss. cbn.
    assert (multipartPath (mp_id part) ∉ ts ≫= thread_names) as Hfree by by eapply session_free.
    destruct Hu as [u Hu]. destruct (inv_sessions d (proj1 HK) _ u Hu) as (c & Hc & _).
    apply (RInv_turn r (Held part chunk)); [done|done|by eapply kept_weaken|done..| | | |].
    + intros u' id _ _ Hid. cbn. set_solver.
    + split; [done|]. split; [|split; [done|split; [done|split; [cbn; set_solver|by eexists]]]]. cbn. rewrite (as_path _ _ Ha).
      intros n [->|[->|[]%not_elem_of_nil]%elem_of_cons]%elem_of_cons; [by apply Hchunk|by eexists].
    + cbn. rewrite (as_path _ _ Ha). apply NoDup_cons. split; [|apply NoDup_singleton]. intros ->%list_elem_of_singleton. congruence.
    + cbn. rewrite (as_path _ _ Ha). intros n [->|[->|[]%not_elem_of_nil]%elem_of_cons]%elem_of_cons Hn; [|done]. apply (Hdis chunk); [by left|done].
  - intros e d HK. by apply Hend.
Qed.

Lemma safe_total {A} (C I I' : Disk → Prop) (Q0 : Disk → Prop) (m : IO A) Q :
  (∀ d, ∃ l d' a, m d = (l, d', Ok a)) → safe C I Q0 m Q → safe C I' Q0 m Q.
Proof.
  intros Ht Hm d HP l d' r E. destruct (Hm d HP l d' r E) as [HCl HQ]. split; [done|]. destruct (Ht d) as (l1 & d1 & a & E1). rewrite E in E1. by injection E1 as -> -> ->.
Qed.

(** A request that finalized its session gives it back. *)
Lemma next_give_back r t part chunk cd ts ss' d :
  RInv J r → r_threads r ≡ₚ t :: ts → (t = Verifying part chunk cd ∨ t = Verified part chunk cd) → Kept (Ending part (Some chunk) :: ts) r d →
  ss' = end_finalizing (mp_id part) (r_sessions r) → RInv J (mkRun d ss' (Ending part (Some chunk) :: ts) (r_pending r)).
Proof.
  intros HR Hp Ht HK ->. destruct (threads_split r _ ts HR Hp) as (Ht0 & Hts & Hsub & _ & Hdis & _).
  assert (session_of t = Some (mp_id part) ∧ chunk ∈ thread_names t ∧ thread_part t = part) as (Hs & Hch & Htp) by (destruct Ht as [-> | ->]; cbn; set_solver).
  assert (part_ok part ∧ temp_name chunk = true ∧ is_Some (d_files (r_disk r) !! chunk)) as (Hpart & Htmp & [body Hb]).
  { destruct Ht0 as (H1' & H2' & H3'). rewrite Htp in H1'. split; [done|]. split; [destruct Ht as [-> | ->]; by destruct H3'|by apply H2']. }
  destruct (session_name _ _ t (mp_id part) Ht0 Hs) as [Hn0 _].
  apply (RInv_turn r t); [done|done|by eapply kept_weaken|by rewrite Htp|done| | |apply NoDup_singleton|].
  - intros u id Hu Hsu Hid. cbn. apply elem_of_difference. split; [done|]. intros ->%elem_of_singleton. rewrite Forall_forall in Hts.
    destruct (session_name _ _ u (mp_id part) (Hts u Hu) Hsu) as [Hn1 _]. apply (Hdis _ Hn0). apply list_elem_of_bind. by exists u.
  - split; [done|]. split; [|done]. cbn. intros n ->%list_elem_of_singleton. exists body. destruct HK as (_ & _ & HF). apply HF, keep_Some. split; [done|]. by left.
  - cbn. intros n ->%list_elem_of_singleton Hn. by apply (Hdis chunk).
Qed.

Lemma ending_kept r t part chunk cd ts :
  RInv J r → r_threads r ≡ₚ t :: ts → (t = Verifying part chunk cd ∨ t = Verified part chunk cd) →
  Kept (Ending part (Some chunk) :: ts) r (r_disk r) ∧ assembled part cd ∧ part_ok part ∧ keep (Ending part (Some chunk) :: ts) (r_disk r) !! multipartPath (mp_id part) = None.
Proof.
  intros HR Hp Ht. destruct (threads_split r _ ts HR Hp) as (Ht0 & Hts & Hsub & _ & Hdis & _).
  assert (part_ok part ∧ temp_name chunk = true ∧ assembled part cd ∧ is_Some (d_files (r_disk r) !! chunk) ∧ multipartPath (mp_id part) ∈ thread_names t) as (Hpart & Htmp & Ha & Hc & Hn).
  { destruct Ht0 as (H1' & H2' & H3'), Ht as [-> | ->]; cbn in *; (split; [done|]); (split; [by destruct H3'|]).
    - destruct H3' as (_ & Ha & _). rewrite <-(as_path _ _ Ha). split; [done|]. split; [apply H2'; by left|by right; left].
    - destruct H3' as (_ & (Ha & _) & _). rewrite <-(as_path _ _ Ha). split; [done|]. split; [apply H2'; by left|by right; left]. }
  split; [|split; [done|split; [done|]]].
  - apply kept_of; [done|]. constructor; [|done]. split; [done|]. split; [|done]. cbn. by intros n ->%list_elem_of_singleton.
  - apply keep_none. cbn. intros [<-|Hx]%elem_of_cons; [by rewrite session_not_temp in Htmp|]. by apply (Hdis _ Hn).
Qed.

Lemma discard_total id d : ∃ l d' a, discardMultipart id d = (l, d', Ok a).
Proof. by do 3 eexists. Qed.

Lemma next_verify r canceled part chunk cd ts :
  RInv J r → r_threads r ≡ₚ Verifying part chunk cd :: ts → Next r (verify_multipart canceled part chunk cd (r_sessions r) ts).
Proof.
  intros HR Hp. destruct (ending_kept r _ part chunk cd ts HR Hp (or_introl eq_refl)) as (HK & Ha & Hpart & HS). pose proof (HC L0 HL0).
  apply safe_get. intros d0 ->. destruct (if canceled then _ else _) as [u|e] eqn:Ev.
  - apply safe_ret. intros d [-> _]. cbn. destruct (threads_split r _ ts HR Hp) as ((_ & Hn & Ht & Hh) & Hts & _ & Hnd & Hdis & _).
    apply (RInv_turn r (Verifying part chunk cd)); [done|done|by apply kept_of|done|done|done| |done|done].
    split; [done|]. split; [done|]. split; [done|]. split; [done|]. destruct canceled; [done|]. unfold verifyMultipart in Ev.
      destruct (d_files (r_disk r) !! cd_path cd) as [c|] eqn:Ec; [|done]. destruct u. apply guard_Ok_tt in Ev.
      apply orb_false_iff in Ev as [Hv1%negb_false_iff Hv2%negb_false_iff]. apply Z.eqb_eq in Hv1. apply String.eqb_eq in Hv2. by exists c.
  - eapply safe_bind.
    + eapply safe_conseq; [apply (safe_total _ (Kept (Ending part (Some chunk) :: ts) r)); [|by apply (holds_finalize_failed L0 J _ canceled part cd)]| |]; [|by intros d [-> _]|done].
      intros d. unfold finalize_failed. destruct canceled; by do 3 eexists.
    + intros ss. apply safe_ret. intros d [HKd ->]. cbn. eapply next_give_back; [done|done|by left|done|done].
Qed.

Lemma next_install r env part chunk cd ts :
  RInv J r → P (be_limits env) → r_threads r ≡ₚ Verified part chunk cd :: ts → Next r (install_multipart env part chunk cd (r_sessions r) ts).
Proof.
  intros HR HP Hp. destruct (ending_kept r _ part chunk cd ts HR Hp (or_intror eq_refl)) as (HK & Ha & Hpart & HS). pose proof (HC _ HP).
  destruct (threads_split r _ ts HR Hp) as ((_ & _ & _ & _ & Hb) & _). eapply safe_bind.
  - eapply safe_conseq; [apply (safe_total _ (Kept (Ending part (Some chunk) :: ts) r)); [|by apply (holds_finalize_install (be_limits env) J _ env part cd)]| |]; [|by intros d ->|done].
    intros d. unfold finalize_install. destruct (installUpload env cd d) as [[l1 d1] r1]. destruct (discardMultipart (cd_reservation cd) d1) as [[l2 d2] r2]. by do 3 eexists.
  - intros x. apply safe_ret. intros d [HKd E]. cbn. eapply next_give_back; [done|done|by right|done|done].
Qed.

Lemma next_end r part chunk ts : RInv J r → r_threads r ≡ₚ Ending part chunk :: ts → Next r (end_multipart part chunk (r_sessions r) ts).
Proof.
  intros HR Hp. destruct (threads_split r _ ts HR Hp) as (Ht0 & Hts & Hsub & _ & Hdis & Hact). pose proof (HC L0 HL0). pose proof Ht0 as (Hpart & _ & Htmp).
  destruct chunk as [chunk|]; cbn in Hpart, Hdis, Htmp.
  - eapply (safe_bind _ _ _ _ _ (λ _, Kept ts r)).
    + eapply safe_conseq; [apply (safe_total _ (Kept ts r) _ (Kept ts r) _ (λ _, Kept ts r)); [by do 3 eexists|]|intros d ->; by apply kept_of|done].
      apply safe_commit. intros d HK. assert (IJ J (keep ts (r_disk r)) (on_files (delete chunk) d)) as HK'; [|split; [by eapply IJ_CJ|done]].
      apply IJ_remove_temp; [done| |done]. apply keep_none. intros Hn. by apply (Hdis chunk); [left|].
    + intros []. apply safe_ret. intros d HK. cbn. apply (RInv_turn r (Ending part (Some chunk))); [done|done|done|done|done|done| |constructor|].
      * split; [done|]. split; [|done]. intros n Hn. by apply not_elem_of_nil in Hn.
      * intros n Hn. by apply not_elem_of_nil in Hn.
  - specialize (Hact (mp_id part)) as Ha. rewrite holders_cons in Ha. change (thread_id (Ending part None)) with (mp_id part) in Ha. rewrite String.eqb_refl in Ha.
    eapply (safe_bind _ _ _ _ _ (λ ss d, Kept ts r d ∧ ss = released (mp_id part) (r_sessions r))).
    + eapply safe_conseq; [apply (safe_total _ (Kept ts r)); [|apply (holds_release L0 J (keep ts (r_disk r)) (mp_id part) (r_sessions r))]| |done].
      * intros d. unfold releaseMultipart, io_get. cbv zeta. destruct (0 <? _); [by do 3 eexists|]. destruct (parts_of _ _); by do 3 eexists.
      * intros Hle. apply eq_None_not_Some. intros Hs. pose proof (active_kept r ts _ HR Hsub (session_not_temp part Hpart) Hs). lia.
      * intros d ->. by apply kept_of.
    + intros ss. apply safe_ret. intros d [HK ->]. cbn. apply (RInv_next J r [Ending part None] ts []); [done|done|done| |constructor|constructor|intros n Hn; by apply not_elem_of_nil in Hn|].
      * intros t id _ _ Hid. unfold released. cbv zeta. by case_match.
      * intros id. cbn [app]. specialize (Hact id). rewrite holders_cons in Hact. change (thread_id (Ending part None)) with (mp_id part) in Hact.
        pose proof (holders_nonneg id ts). unfold released. cbv zeta.
        destruct (0 <? _) eqn:En; [apply Z.ltb_lt in En|apply Z.ltb_ge in En]; cbn [ss_active]; destruct (decide (mp_id part = id)) as [E|Hne].
        -- rewrite E, lookup_insert_eq in *. rewrite String.eqb_refl in Hact. cbn. lia.
        -- rewrite lookup_insert_ne by done. apply String.eqb_neq in Hne. rewrite Hne in Hact. lia.
        -- rewrite E, lookup_delete_eq in *. rewrite String.eqb_refl in Hact. cbn. lia.
        -- rewrite lookup_delete_ne by done. apply String.eqb_neq in Hne. rewrite Hne in Hact. lia.
Qed.

Lemma chunk_sound r m : RInv J r → chunk_op P r m → Next r m.
Proof.
  intros HR Hop. inversion Hop; subst; [by apply next_begin|by apply next_hold|by apply next_commit|by apply next_verify|by apply next_install|by apply next_end].
Qed.

(** Every operation ends in the invariant, and leaves disks that can be opened. *)
Lemma op_sound r m : RInv J r → op P r m → Next r m.
Proof.
  intros HR Hop. pose proof (HC L0 HL0). inversion Hop as [| | | | | |? Hc]; subst; [apply next_alone; [done|]..|].
  - pose proof (HC _ H3). destruct (keep_fresh (r_threads r) _ _ H4). by apply (holds_put (be_limits env)).
  - by apply (holds_SetClaimMetadata L0).
  - apply (holds_shrink L0); [done|]. intros db HK. split_and!; [by apply (KeysOK_ext db)|done..].
  - apply (holds_shrink L0); [done|]. intros db HK. split_and!; [by apply (KeysOK_ext db)|done..].
  - eapply safe_conseq; [by apply (holds_SweepExpired L0)|done..].
  - eapply safe_conseq; [apply (holds_cleanup L0 J)|done..]. intros id Ht Hk. rewrite (ri_active J r HR).
    pose proof (active_kept r (r_threads r) id HR (λ _ Hu, Hu) Ht Hk). lia.
  - by apply chunk_sound.
Qed.

(** A statement without a lock. *)
Notation Step r m := (safe (CJ J) (λ _, False) (λ d, d = r_disk r) m (λ ps d, RInv J (mkRun d (r_sessions r) (r_threads r) ps))).

Lemma RInv_pending r ps d : RInv J r → Kept (r_threads r) r d → Forall (λ p, shaPattern (pending_sha p) = true) ps →
  RInv J (mkRun d (r_sessions r) (r_threads r) ps).
Proof. intros HR HI Hp. by destruct (RInv_same r d HR HI) as [? ? ? ? ? _]. Qed.

Lemma step_try {A} r (m : IO A) Q (k : result A → list Removal) :
  RInv J r → safe (CJ J) (Kept (r_threads r) r) (Kept (r_threads r) r) m Q →
  (∀ a d, Q a d → Kept (r_threads r) r d ∧ Forall (λ p, shaPattern (pending_sha p) = true) (k (Ok a))) →
  (∀ e, Forall (λ p, shaPattern (pending_sha p) = true) (k (Err e))) → Step r (run res <- io_try m; io_ret (k res)).
Proof.
  intros HR Hm HQ HE. eapply safe_bind.
  - apply safe_try. eapply safe_conseq; [exact Hm| |done]. intros d ->. by apply (RInv_IJ J r _ []).
  - intros [a|e]; apply safe_ret; [intros d [? ?]%HQ; by apply RInv_pending|intros d Hd; by apply RInv_pending].
Qed.

(** A statement always ends. *)
Lemma step_commit r f ps :
  RInv J r → Forall (λ p, shaPattern (pending_sha p) = true) ps →
  safe (CJ J) (Kept (r_threads r) r) (λ d, d = r_disk r) (commit f) (λ _, Kept (r_threads r) r) → Step r (run _ <- commit f; io_ret ps).
Proof.
  intros HR Hps Hm. eapply safe_bind; [eapply safe_total; [|exact Hm]; by do 3 eexists|].
  intros []. apply safe_ret. intros d Hd. by apply RInv_pending.
Qed.

Lemma unlocked_sound r m : RInv J r → unlocked r m → Step r m.
Proof.
  intros HR Hm. pose proof (HC L0 HL0). pose proof (ri_pending J r HR) as Hps. assert (Kept (r_threads r) r (r_disk r)) as HK by by apply (RInv_IJ J r _ []).
  assert (∀ P (n : IO unit), safe (CJ J) (Kept (r_threads r) r) P n (λ _, Kept (r_threads r) r) → P (r_disk r) →
    safe (CJ J) (Kept (r_threads r) r) (λ d, d = r_disk r) n (λ _, Kept (r_threads r) r)) as Hat by (intros P' n Hn HP; eapply safe_conseq; [exact Hn|by intros d ->|done]).
  inversion Hm as [sha now E|sha u now E|sha reason now E|p ps Hp Hmay E].
  - unfold begin_delete. destruct (shaPattern sha) eqn:Hs; cbn [negb]; [|apply safe_ret; intros d ->; by destruct r].
    apply step_commit; [done|by constructor|]. eapply safe_conseq; [apply (holds_Delete_tx L0 J)|by intros d ->|by intros ? d []].
  - unfold begin_release. destruct (shaPattern sha) eqn:Hs; cbn [negb]; [|apply safe_ret; intros d ->; by destruct r].
    eapply (step_try r (Release_tx sha u now)); [done|apply (holds_Release_tx L0 J)| |done]. intros [] d [? _]; split; [done|by constructor|done..].
  - unfold begin_block. destruct (shaPattern sha) eqn:Hs; cbn [negb]; [|apply safe_ret; intros d ->; by destruct r].
    apply step_commit; [done|by constructor|]. by apply (Hat _ _ (holds_put_block L0 J _ sha reason now)).
  - rewrite Hp in Hps. apply Forall_cons in Hps as [Hs Hps]. destruct p as [sha now|sha|sha]; cbn [next_pending pending_sha may_remove] in *; (apply step_commit; [done|by repeat constructor|]).
    + by apply (Hat _ _ (holds_entomb L0 J _ sha now)).
    + by apply (Hat _ _ (holds_unlist L0 J _ sha)).
    + by apply (Hat _ _ (holds_remove_bytes J _ sha Hs)).
Qed.
End Ops.

(** * internal/blob: opening the store after a crash

    [New] succeeds on every disk that satisfies [CInv], and ends in [Inv]. *)

(** A loop whose invariant knows what is left of the list. *)
Lemma safe_each_left {A} (C I : Disk → Prop) (K : list A → Disk → Prop) (f : A → IO unit) l :
  (∀ a l, safe C I (K (a :: l)) (f a) (λ _, K l)) → safe C I (K l) (io_each f l) (λ _, K []).
Proof.
  intros Hf. induction l as [|a l IH]; cbn; [by apply safe_ret|]. eapply safe_bind; [apply Hf|]. by intros [].
Qed.

Definition name_leb (a b : string) : bool := negb (str_ltb b a).

Lemma dir_sorted d : StronglySorted (ordered name_leb) (dir_names d).
Proof.
  apply StronglySorted_merge_sort.
  - intros s t u. unfold ordered, name_leb. rewrite !negb_true_iff. intros H1 H2. apply not_true_iff_false. intros H3.
    destruct (str_trichotomy s t) as [Hst|[->|Hst]]; [|congruence..]. pose proof (str_ltb_trans _ _ _ H3 Hst). congruence.
  - intros s t. unfold ordered, name_leb. rewrite !negb_true_iff. destruct (str_ltb t s) eqn:E; [right; by apply str_ltb_asym|by left].
Qed.

Lemma elem_of_dir d n : n ∈ dir_names d ↔ is_Some (d_files d !! n).
Proof. unfold dir_names. by rewrite sort_by_perm, elem_of_elements, elem_of_dom. Qed.

Lemma dir_NoDup d : NoDup (dir_names d).
Proof. unfold dir_names. rewrite sort_by_perm. apply NoDup_elements. Qed.

(** Staged names come before digests. *)
Lemma scoped_first sha x : shaPattern sha = true → str_ltb (scoped_name x) sha = true.
Proof.
  intros (a & b & r & -> & Ha & _)%sha_first. unfold scoped_name, str_ltb, String.ltb.
  change (".scoped-" +:+ x) with (String "." ("scoped-" +:+ x)). cbn [String.compare].
  assert (Ascii.compare "." a = Lt) as ->; [|done]. unfold lower_hex_byte in Ha.
  destruct a as [[] [] [] [] [] [] [] []]; vm_compute in Ha |- *; congruence.
Qed.

Lemma prefix_scoped name : HasPrefix name ".scoped-" = true → name = scoped_name (TrimPrefix name ".scoped-").
Proof. intros Hp. unfold scoped_name. unfold TrimPrefix. rewrite Hp. by apply prefix_split. Qed.
Lemma prefix_session name : HasPrefix name ".multipart-" = true → name = multipartPath (TrimPrefix name ".multipart-").
Proof. intros Hp. unfold multipartPath. unfold TrimPrefix. rewrite Hp. by apply prefix_split. Qed.

Section Opening.
Context `{GoUnicode} `{GoSniff} (L : Limits) (J : BlobDB → Prop) `{!Carried L J}.
Notation CJ := (CJ J).
Notation total_on := (safe CJ (λ _, False)).

(** ** The directory *)

Record Left (l : list string) (d : Disk) : Prop := {
  left_crash : CInv d;
  left_carried : J (d_db d);
  left_files n : n ∈ l → is_Some (d_files d !! n);
  left_scoped sha : is_Some (d_files d !! scoped_name sha) → scoped_name sha ∈ l;
  left_nodup : NoDup l;
  left_sorted : StronglySorted (ordered name_leb) l;
}.

Lemma left_first d : CInv d → J (d_db d) → Left (dir_names d) d.
Proof. intros HC HJ. split; [done|done| | |apply dir_NoDup|apply dir_sorted]; intros n; by rewrite elem_of_dir. Qed.

Lemma not_row d name : CInv d → shaPattern name = false → blobs (d_db d) !! name = None.
Proof. intros HC Hs. apply eq_None_not_Some. intros [r Hr]. destruct (keys_rows _ (ci_keys d HC) _ r Hr). congruence. Qed.

Lemma scoped_not_sha x : shaPattern (scoped_name x) = false.
Proof. apply not_true_iff_false. intros Hs. by apply (sha_not_scoped _ x) in Hs. Qed.

(** One name less. *)
Lemma left_step name l d d' :
  Left (name :: l) d → CInv d' → J (d_db d') → (∀ n, n ≠ name → is_Some (d_files d !! n) → is_Some (d_files d' !! n)) →
  (∀ sha, is_Some (d_files d' !! scoped_name sha) → scoped_name sha ≠ name ∧ is_Some (d_files d !! scoped_name sha)) → Left l d'.
Proof.
  intros [_ _ Hf Hs Hn Ho] HC HJ H1 H2. apply NoDup_cons in Hn as [Hna Hn]. inversion Ho; subst. split; [done|done| | |done|done].
  - intros n Hin. apply H1; [by intros ->|]. apply Hf. by right.
  - intros sha Hsc. destruct (H2 sha Hsc) as [Hne Hd]. by destruct (proj1 (elem_of_cons _ _ _) (Hs sha Hd)) as [E|E].
Qed.

Lemma left_skip name l d : Left (name :: l) d → shaPattern name = true ∨ HasPrefix name ".scoped-" = false → Left l d.
Proof.
  intros HL Hx. apply (left_step name l d d HL); [apply HL|apply HL|done|]. intros sha Hs. split; [|done]. intros <-. destruct Hx as [Hx|Hx].
  - by rewrite scoped_not_sha in Hx.
  - unfold scoped_name in Hx. by rewrite prefix_app in Hx.
Qed.

Lemma left_remove name l d : Left (name :: l) d → CInv (on_files (delete name) d) → CJ (on_files (delete name) d) ∧ Left l (on_files (delete name) d).
Proof.
  intros HL HC. split; [split; [done|apply HL]|]. apply (left_step name l d); [done|done|apply HL| |].
  - intros n Hne Hc. cbn. by rewrite lookup_delete_ne.
  - intros sha. cbn. intros [c [Hne Hc]%lookup_delete_Some]. split; [done|by eexists].
Qed.

(** The staged bytes of a row take their place. *)
Lemma CInv_staged sha c d :
  CInv d → d_files d !! scoped_name sha = Some c → CInv (on_files (λ fs, <[sha := c]> (delete (scoped_name sha) fs)) d).
Proof.
  intros [D K S Pr] Hc. destruct (S sha c Hc) as (Hs & Hd & _). split; [|done|..]; cbn.
  - intros n c'. cbn. intros [[<- <-]|[_ [_ Hc']%lookup_delete_Some]]%lookup_insert_Some Hsn; [done|by apply D].
  - intros x c'. cbn. rewrite lookup_insert_ne by by apply sha_not_scoped. intros [_ Hc']%lookup_delete_Some. by apply S.
  - intros x HT Hx. destruct (decide (sha = x)) as [->|Hne]; [left; rewrite lookup_insert_eq; by eexists|].
    assert (shaPattern x = true) as Hsx by (destruct Hx as [rx Hx]; by destruct (keys_rows _ K _ rx Hx)). destruct (Pr x HT Hx) as [Hp|Hp]; [left|right].
    + rewrite lookup_insert_ne by done. rewrite lookup_delete_ne by (intros E; by apply (sha_not_scoped x sha)). done.
    + rewrite lookup_insert_ne by by apply sha_not_scoped. rewrite lookup_delete_ne by (by intros E%(inj scoped_name)). done.
Qed.

(** A check that passes. *)
Lemma total_guard {B} (Q0 : Disk → Prop) b m (k : IO B) Q : b = false → total_on Q0 k Q → total_on Q0 (run _ <- io_of (guard_err b m); k) Q.
Proof. intros -> Hk d HP l d' r. unfold io_bind, io_of. cbn. destruct (k d) as [[l1 d1] r1] eqn:E. intros [= <- <- <-]. by apply (Hk d HP). Qed.

Lemma opens_staged sha l : shaPattern sha = true → total_on (Left (scoped_name sha :: l)) (reconcileStaged (scoped_name sha) sha) (λ _, Left l).
Proof.
  intros Hs. apply safe_get. intros d0 HL. pose proof HL as [HC HJ Hf Hsc Hn Ho]. destruct (Hf (scoped_name sha)) as [content Hc]; [by left|]. rewrite Hc.
  destruct (ci_scoped d0 HC sha content Hc) as (_ & Hd & Hlen). pose proof (not_row d0 _ HC (scoped_not_sha sha)) as Hnr.
  destruct (blobs (d_db d0) !! sha) as [r|] eqn:Er.
  - apply total_guard; [by rewrite (Hlen r eq_refl), Z.eqb_refl|]. apply total_guard; [by rewrite Hd, String.eqb_refl|].
    destruct (d_files d0 !! sha) as [c|] eqn:Ec.
    + apply safe_commit. intros d [-> _]. apply left_remove; [done|]. apply CInv_delete_file; [rewrite Hnr; by intros _ [? ?]| |done].
      intros x _ E _. apply (inj scoped_name) in E as <-. by eexists.
    + apply safe_rename; [apply scoped_nonempty|]. intros d [-> _]. exists content. split; [done|]. cbv zeta. pose proof (CInv_staged sha content d0 HC Hc) as HC'.
      split; [by split|]. apply (left_step (scoped_name sha) l d0); [done|done|done| |].
      * intros n Hne Hx. cbn. apply lookup_insert_is_Some'. right. by rewrite lookup_delete_ne.
      * intros x. cbn. rewrite lookup_insert_ne by by apply sha_not_scoped. intros [y [Hne Hy]%lookup_delete_Some]. split; [done|by eexists].
  - apply safe_commit. intros d [-> _]. apply left_remove; [done|]. apply CInv_delete_file; [rewrite Hnr; by intros _ [? ?]| |done].
    intros x _ E. apply (inj scoped_name) in E as <-. rewrite Er. by intros [? ?].
Qed.

(** No staged file is left when the digests come. *)
Lemma left_no_scoped name l d sha : Left (name :: l) d → shaPattern name = true → d_files d !! scoped_name sha = None.
Proof.
  intros HL Hs. apply eq_None_not_Some. intros Hc%(left_scoped _ _ HL). pose proof (left_sorted _ _ HL) as Ho. inversion Ho as [|? ? Hl Hall]; subst.
  apply elem_of_cons in Hc as [E|Hc]; [by apply (sha_not_scoped _ sha) in Hs|]. rewrite Forall_forall in Hall. specialize (Hall _ Hc).
  unfold ordered, name_leb in Hall. by rewrite scoped_first in Hall.
Qed.

Lemma opens_orphan mtime name l : shaPattern name = true →
  total_on (λ d, Left (name :: l) d ∧ blobs (d_db d) !! name = None) (recoverBlob mtime name) (λ _, Left l).
Proof.
  intros Hs. apply safe_get. intros d0 (HL & Hn). pose proof HL as [HC HJ Hf _ _ _]. destruct (Hf name) as [content Hc]; [by left|]. rewrite Hc.
  pose proof (ci_digest d0 HC name content Hc Hs) as Hd. apply total_guard; [by rewrite Hd, String.eqb_refl|]. set (r := mkBlobRow _ _ _ _ _).
  apply safe_commit. intros d [-> _]. assert (CInv (on_db (insert_blob name r) d0)) as HC'.
  { apply CInv_db; [done|apply KeysOK_insert_blob; [split; [done|by exists content]|apply HC]|]. destruct (blobs_insert_blob name r (d_db d0) Hn) as [-> _].
    intros sha r'. intros [[<- <-]|[_ Hr]]%lookup_insert_Some; [right|by left]. split; [left; by eexists|]. intros c. by rewrite (left_no_scoped name l d0 name HL Hs). }
  assert (J (insert_blob name r (d_db d0))) as HJ' by (apply carry_recover; [apply HC|done|done|cbn; unfold len; lia|done]). split; [by split|].
  apply (left_step name l d0); [done|done|done|done|]. intros sha Hsc. split; [|done]. intros E. by apply (sha_not_scoped name sha).
Qed.

Lemma opens_entry mtime name l : total_on (Left (name :: l)) (reconcile_entry mtime name) (λ _, Left l).
Proof.
  apply safe_get. intros d0 HL. pose proof HL as [HC HJ Hf Hsc _ _]. destruct (HasPrefix name ".scoped-") eqn:Ep.
  - rewrite (prefix_scoped name Ep) in HL. set (sha := TrimPrefix name ".scoped-") in *. destruct (Hf name) as [c Hc]; [by left|].
    rewrite (prefix_scoped name Ep) in Hc. destruct (ci_scoped d0 HC sha c Hc) as (Hs & _). cbv zeta. rewrite Hs. cbn [negb].
    rewrite (prefix_scoped name Ep). eapply safe_conseq; [by apply opens_staged|by intros d [-> _]|done].
  - destruct (HasPrefix name ".upload-" || HasPrefix name ".multipart-chunk-") eqn:Et.
    + change (temp_name name = true) in Et. apply safe_commit. intros d [-> _]. apply left_remove; [done|]. apply CInv_delete_file; [|intros sha _ ->; by apply (temp_not_scoped _ sha) in Et|done].
      rewrite not_row; [by intros _ [? ?]|done|]. apply not_true_iff_false. intros Hs. by rewrite (sha_not_temp _ Hs) in Et.
    + destruct (shaPattern name) eqn:Es; cbn [negb]; [|apply safe_ret; intros d [-> _]; eapply left_skip; [done|by right]].
      destruct (bool_decide (is_Some (tombstones _ !! _)) || _); [apply safe_ret; intros d [-> _]; eapply left_skip; [done|by left]|].
      case_bool_decide as Hb; [apply safe_ret; intros d [-> _]; eapply left_skip; [done|by left]|].
      eapply safe_conseq; [apply (opens_orphan mtime name l Es)| |done]. intros d [-> _]. split; [done|]. by apply eq_None_not_Some.
Qed.

Lemma opens_directory mtime : total_on CJ (reconcile mtime) (λ _ d, CJ d ∧ ∀ sha, d_files d !! scoped_name sha = None).
Proof.
  apply safe_get. intros d0 [HC HJ]. eapply safe_conseq; [apply (safe_each_left _ _ Left (reconcile_entry mtime) (dir_names d0)); intros; apply opens_entry|intros d [-> _]; by apply left_first|].
  intros a d HL. split; [split; apply HL|]. intros sha. apply eq_None_not_Some. intros Hs%(left_scoped _ _ HL). by apply not_elem_of_nil in Hs.
Qed.
(** ** The sessions *)

Definition Clean d : Prop := CJ d ∧ ∀ sha, d_files d !! scoped_name sha = None.

Lemma discard_clean id d : Clean d → CJ (on_db (delete_upload id) d) ∧ Clean (on_files (delete (multipartPath id)) (on_db (delete_upload id) d)).
Proof.
  intros [[HC HJ] HN]. assert (CInv (on_db (delete_upload id) d)) as HC' by (apply CInv_db; [done|apply KeysOK_delete_upload, HC|by left]).
  assert (J (delete_upload id (d_db d))) as HJ' by (apply (carry_shrink (d_db d)); [done|done|apply delete_subseteq|done]).
  split; [by split|]. split; [split; [|done]|].
  - apply CInv_delete_file; [| |done].
    + rewrite not_row; [by intros _ [? ?]|done|]. apply not_true_iff_false. intros Hs. by apply (sha_not_session _ id) in Hs.
    + intros sha _ E. by apply eq_sym, scoped_not_session in E.
  - intros sha. cbn. rewrite lookup_delete_ne; [apply HN|]. intros E. by apply eq_sym, scoped_not_session in E.
Qed.

Lemma opens_discard id (K K' : Disk → Prop) :
  (∀ d, K d → Clean d) → (∀ d, K d → K' (on_files (delete (multipartPath id)) (on_db (delete_upload id) d))) → total_on K (discardMultipart id) (λ _, K').
Proof.
  intros HK Hd. eapply (safe_bind _ _ _ _ _ (λ _ d, ∃ d0, K d0 ∧ d = on_db (delete_upload id) d0)).
  - apply safe_commit. intros d Hk. split; [by apply discard_clean, HK|by exists d].
  - intros []. apply safe_commit. intros d (d0 & Hk & ->). split; [|by apply Hd]. by apply discard_clean, HK.
Qed.

(** The files of sessions that have another length are still to come. *)
Record Sizing (l : list string) (d : Disk) : Prop := {
  sz_clean : Clean d;
  sz_nodup : NoDup l;
  sz_files n : n ∈ l → HasPrefix n ".multipart-" = true → is_Some (d_files d !! n);
  sz_left id u c : uploads (d_db d) !! id = Some u → d_files d !! multipartPath id = Some c → len c ≠ up_length u → multipartPath id ∈ l;
}.

Lemma opens_cleanup now ss : total_on Clean (cleanupMultipart now ss) (λ _, Clean).
Proof.
  apply safe_get. intros d0 Hc. eapply safe_conseq; [apply (safe_each _ _ Clean)|by intros d [-> _]|done].
  intros id _. apply opens_discard; [done|]. intros d. apply discard_clean.
Qed.

Lemma sizing_discard id l d : Sizing (multipartPath id :: l) d → Sizing l (on_files (delete (multipartPath id)) (on_db (delete_upload id) d)).
Proof.
  intros [Hc Hn Hf Hl]. apply NoDup_cons in Hn as [Hna Hn]. split; [by apply discard_clean|done| |]; cbn.
  - intros n Hin Hp. rewrite lookup_delete_ne by (by intros <-). apply Hf; [by right|done].
  - intros i u c [Hne Hu]%lookup_delete_Some [_ Hc']%lookup_delete_Some Hlen. destruct (proj1 (elem_of_cons _ _ _) (Hl i u c Hu Hc' Hlen)) as [E%(inj multipartPath)|E]; [by destruct Hne|done].
Qed.

Lemma opens_session name l : total_on (Sizing (name :: l)) (reconcile_session name) (λ _, Sizing l).
Proof.
  apply safe_get. intros d0 HS. pose proof HS as [Hc Hn Hf Hl]. pose proof Hn as [Hna Hn']%NoDup_cons.
  assert ((∀ id u c, name = multipartPath id → uploads (d_db d0) !! id = Some u → d_files d0 !! name = Some c → len c = up_length u) → Sizing l d0) as Hskip.
  { intros Hx. split; [done|done| |]; [intros n Hin; apply Hf; by right|]. intros id u c Hu Hc' Hlen.
    destruct (proj1 (elem_of_cons _ _ _) (Hl id u c Hu Hc' Hlen)) as [E|E]; [|done]. rewrite E in Hc'. destruct Hlen. by apply (Hx id). }
  destruct (HasPrefix name ".multipart-") eqn:Ep; cbn [negb].
  - pose proof (prefix_session name Ep) as E. revert E. generalize (TrimPrefix name ".multipart-"). intros id ->. cbv zeta.
    destruct (Hf (multipartPath id)) as [content Hct]; [by left|done|]. rewrite Hct. destruct (uploads (d_db d0) !! id) as [u|] eqn:Eu.
    + destruct (Z.eqb_spec (len content) (up_length u)) as [El|El].
      * apply safe_ret. intros d [-> _]. apply Hskip. intros i u' c Ei%(inj multipartPath) Hu' Hc'. congruence.
      * eapply safe_conseq; [apply (opens_discard id (Sizing (multipartPath id :: l)) (Sizing l))|by intros d [-> _]|done]; [intros d Hd; apply Hd|].
        intros d. apply sizing_discard.
    + apply safe_commit. intros d [-> _]. assert (Sizing l (on_files (delete (multipartPath id)) d0)) as HS'.
      { split; [|done|intros n Hin Hp; cbn; rewrite lookup_delete_ne by (by intros <-); apply Hf; [by right|done]|].
        - destruct Hc as [[HC HJ] HN]. split; [split; [|done]|].
          + apply CInv_delete_file; [| |done].
            * rewrite not_row; [by intros _ [? ?]|done|]. apply not_true_iff_false. intros Hs. by apply (sha_not_session _ id) in Hs.
            * intros sha _ E. by apply eq_sym, scoped_not_session in E.
          + intros sha. cbn. rewrite lookup_delete_ne; [apply HN|]. intros E. by apply eq_sym, scoped_not_session in E.
        - intros i u c Hu. cbn in Hu |- *. intros [_ Hc']%lookup_delete_Some Hlen. destruct (proj1 (elem_of_cons _ _ _) (Hl i u c Hu Hc' Hlen)) as [E%(inj multipartPath)|E]; [subst i; congruence|done]. }
      split; [apply HS'|done].
  - apply safe_ret. intros d [-> _]. apply Hskip. intros i u c ->. unfold multipartPath in Ep. by rewrite prefix_app in Ep.
Qed.

(** The sessions without a file are still to come. *)
Record Missing (l : list string) (d : Disk) : Prop := {
  ms_clean : Clean d;
  ms_sizes id u c : uploads (d_db d) !! id = Some u → d_files d !! multipartPath id = Some c → len c = up_length u;
  ms_left id u : uploads (d_db d) !! id = Some u → d_files d !! multipartPath id = None → id ∈ l;
}.

Lemma opens_missing id l : total_on (Missing (id :: l)) (discardMultipart id) (λ _, Missing l).
Proof.
  apply opens_discard; [by intros d []|]. intros d [Hc Hs Hl]. split; [by apply discard_clean|..]; cbn.
  - intros i u c [_ Hu]%lookup_delete_Some [_ Hc']%lookup_delete_Some. by eapply Hs.
  - intros i u [Hne Hu]%lookup_delete_Some Hn. destruct (proj1 (elem_of_cons l i id)) as [E|E]; [|by destruct Hne|done].
    apply (Hl i u Hu). rewrite lookup_delete_ne in Hn; [done|]. by intros E%(inj multipartPath).
Qed.

Lemma opens_sessions now : total_on Clean (reconcileMultipart now) (λ _ d, Inv d ∧ J (d_db d)).
Proof.
  eapply (safe_bind _ _ _ _ _ (λ _, Clean)); [apply opens_cleanup|]. intros []. eapply (safe_bind _ _ _ _ _ (λ _, Sizing [])).
  - apply safe_get. intros d0 Hc. eapply safe_conseq; [apply (safe_each_left _ _ Sizing reconcile_session (dir_names d0)); intros; apply opens_session| |done].
    intros d [-> _]. split; [done|apply dir_NoDup|intros n Hn _; by apply elem_of_dir|]. intros id u c _ Hc' _. apply elem_of_dir. by eexists.
  - intros []. apply safe_get. intros d0 [Hc _ _ Hl]. eapply safe_conseq; [apply (safe_each_left _ _ Missing discardMultipart (missing_sessions d0)); intros; apply opens_missing|..].
    + intros d [-> _]. split; [done|..].
      * intros id u c Hu Hc'. destruct (Z.eq_dec (len c) (up_length u)) as [|Hne]; [done|]. specialize (Hl id u c Hu Hc' Hne). by apply not_elem_of_nil in Hl.
      * intros id u Hu Hn. apply elem_of_lfilter. rewrite elem_of_elements, elem_of_dom, Hn. split; [by eexists|]. apply negb_true_iff, bool_decide_eq_false. by intros [? ?].
    + intros a d [[[HC HJ] HN] Hs Hm]. split; [|done]. split; [done|done|]. intros id u Hu. destruct (d_files d !! multipartPath id) as [c|] eqn:E.
      * exists c. split; [done|]. by eapply Hs.
      * specialize (Hm id u Hu E). by apply not_elem_of_nil in Hm.
Qed.

(** The service opens whatever a crash left. *)
Lemma opens_New mtime now : total_on CJ (New mtime now) (λ _ d, Inv d ∧ J (d_db d)).
Proof. eapply safe_bind; [apply opens_directory|]. intros []. apply opens_sessions. Qed.
End Opening.
End Tidying.
