(* ===== verification/BlobSafe.v ===== *)
(** * internal/blob: what every run of the store satisfies

    The invariant on reachable states and on the disks a crash leaves, the
    bounds of the quotas and the sessions, and what opening keeps. *)

From S2P Require Import Prelude GoLib GoCodec GoLemmas GoStrings Nostr NostrProps Blob Multipart BlobProps BlobRuns.

Scheme reachable_runs := Minimality for reachable Sort Prop
  with crashed_runs := Minimality for crashed Sort Prop.
Combined Scheme runs_ind from reachable_runs, crashed_runs.

Section Runs.
Context {Tdy : Tidy} `{GoUnicode} `{GoSniff} `{GoMime} (P : Limits → Prop) (J : BlobDB → Prop) (HC : ∀ L, P L → Carried L J) (L0 : Limits) (HL0 : P L0) (HJ0 : J no_blobs).

Lemma RInv_open d : Inv d → J (d_db d) → RInv J (mkRun d no_sessions [] []).
Proof. intros HI HJ. split; [done|done|constructor|constructor| |constructor]. intros id. cbn. by rewrite lookup_empty. Qed.

Lemma runs_ok : (∀ r, reachable P r → RInv J r) ∧ (∀ d, crashed P d → CJ J d).
Proof.
  pose proof (HC L0 HL0). apply (runs_ind _ _ _ _ P (RInv J) (CJ J)).
  - apply RInv_open; [apply store_empty|done].
  - intros r m l d ss ts _ HR Hop E. destruct (op_sound P J HC L0 HL0 r m HR Hop (r_disk r) eq_refl l d _ E) as [_ HQ]. exact HQ.
  - intros r m l d ps _ HR Hm E. destruct (unlocked_sound P J HC L0 HL0 r m HR Hm (r_disk r) eq_refl l d _ E) as [_ HQ]. exact HQ.
  - intros d mtime now l d' _ Hd E. destruct (opens_New L0 J mtime now d Hd l d' _ E) as [_ [? ?]]. by apply RInv_open.
  - intros r _ HR. split; [apply inv_crash, HR|apply HR].
  - intros r m l d res d' _ HR Hop E Hin. destruct (op_sound P J HC L0 HL0 r m HR Hop (r_disk r) eq_refl l d res E) as [Hl _].
    rewrite Forall_forall in Hl. by apply Hl.
  - intros d mtime now l d' res d'' _ Hd E Hin. destruct (opens_New L0 J mtime now d Hd l d' res E) as [Hl _]. rewrite Forall_forall in Hl. by apply Hl.
Qed.
End Runs.

(** ** Sums over a table *)

Definition csum {K A} `{Countable K} (f : K → A → Z) (m : gmap K A) : Z := sum_list ((λ ka : K * A, f ka.1 ka.2) <$> map_to_list m).

Lemma sum_list_perm l l' : l ≡ₚ l' → sum_list l = sum_list l'.
Proof. unfold sum_list. induction 1; cbn [foldr]; lia. Qed.

Section Sums.
Context {K A : Type} `{Countable K}.
Implicit Types (m : gmap K A) (f g : K → A → Z).

Lemma csum_empty f : csum f ∅ = 0.
Proof. unfold csum. by rewrite map_to_list_empty. Qed.

Lemma csum_insert f m k a : m !! k = None → csum f (<[k := a]> m) = f k a + csum f m.
Proof. intros E. unfold csum. rewrite (sum_list_perm _ _ (fmap_Permutation _ _ _ (map_to_list_insert m k a E))). done. Qed.

Lemma csum_delete f m k a : m !! k = Some a → csum f m = f k a + csum f (delete k m).
Proof. intros E. rewrite <-(insert_delete_id m k a E) at 1. apply csum_insert, lookup_delete_eq. Qed.

Lemma csum_mono f g m : (∀ k a, m !! k = Some a → f k a ≤ g k a) → csum f m ≤ csum g m.
Proof.
  revert m. refine (map_ind _ _ _); [by rewrite !csum_empty|]. intros k a m E IH Hf. rewrite !csum_insert by done.
  pose proof (Hf k a (lookup_insert_eq _ _ _)). enough (csum f m ≤ csum g m) by lia. apply IH. intros k' a' E'. apply Hf. rewrite lookup_insert_ne; [done|congruence].
Qed.

Lemma csum_ext f g m : (∀ k a, m !! k = Some a → f k a = g k a) → csum f m = csum g m.
Proof. intros Hf. apply Z.le_antisymm; apply csum_mono; intros k a E; by rewrite (Hf k a E). Qed.

Lemma csum_nonneg f m : (∀ k a, m !! k = Some a → 0 ≤ f k a) → 0 ≤ csum f m.
Proof.
  intros Hf. transitivity (csum (λ _ _, 0) m); [|by apply csum_mono]. clear. revert m. refine (map_ind _ _ _); [by rewrite csum_empty|].
  intros k a m E IH. rewrite csum_insert by done. lia.
Qed.

Lemma csum_subseteq f m m' : m ⊆ m' → (∀ k a, m' !! k = Some a → 0 ≤ f k a) → csum f m ≤ csum f m'.
Proof.
  revert m m'. refine (map_ind _ _ _); [intros m' _ Hf; rewrite csum_empty; by apply csum_nonneg|]. intros k a m E IH m' Hsub Hf.
  rewrite csum_insert by done. assert (m' !! k = Some a) as Ek by (eapply lookup_weaken; [apply lookup_insert_eq|done]).
  rewrite (csum_delete f m' k a Ek). enough (csum f m ≤ csum f (delete k m')) by lia. apply IH.
  - apply map_subseteq_spec. intros k' a' E'. assert (k ≠ k') by congruence. rewrite lookup_delete_ne by done. eapply lookup_weaken; [|done]. by rewrite lookup_insert_ne.
  - intros k' a' [_ E']%lookup_delete_Some. by apply Hf.
Qed.

Lemma csum_alter f (u : A → A) m k : (∀ a, f k (u a) = f k a) → csum f (alter u k m) = csum f m.
Proof.
  intros Hf. destruct (m !! k) as [a|] eqn:E; [|by rewrite alter_id by naive_solver].
  rewrite (csum_delete f m k a E), (csum_delete f (alter u k m) k (u a)) by (by rewrite lookup_alter_eq, E). rewrite Hf. do 2 f_equal.
  apply map_eq. intros i. destruct (decide (k = i)) as [->|Hn]; [by rewrite !lookup_delete_eq|]. by rewrite !lookup_delete_ne, lookup_alter_ne.
Qed.

Lemma sum_omap {B} (b : B → bool) (h : B → Z) l : sum_list (omap (λ x, if b x then Some (h x) else None) l) = sum_list ((λ x, if b x then h x else 0) <$> l).
Proof. unfold sum_list in *. induction l as [|x l IH]; [done|]. cbn. destruct (b x); cbn; lia. Qed.
End Sums.

(** ** The quotas as sums *)

Definition claim_size (db : BlobDB) (u sha : string) (r : BlobRow) : Z := if hasClaim db sha u then br_size r else 0.
Definition held_length (u reservation id : string) (up : Upload) : Z := if String.eqb (up_uploader up) u && negb (String.eqb id reservation) then up_length up else 0.

Lemma claimed_bytes_sum db u : claimed_bytes db u = csum (claim_size db u) (blobs db).
Proof.
  unfold claimed_bytes, claimed_blobs, csum. generalize (map_to_list (blobs db)). intros l. unfold sum_list in *.
  induction l as [|[sha r] l IH]; [done|]. cbn in *. unfold claim_size at 1. destruct (hasClaim db sha u); cbn; rewrite IH; reflexivity.
Qed.

Lemma reserved_bytes_sum db u res : reserved_bytes db u res = csum (held_length u res) (uploads db).
Proof. unfold reserved_bytes, csum. by rewrite (sum_omap (λ iu : string * Upload, String.eqb (up_uploader iu.2) u && negb (String.eqb iu.1 res)) (λ iu, up_length iu.2)). Qed.

Lemma upload_total_sum db : upload_total db = csum (λ _ up, up_length up) (uploads db).
Proof. done. Qed.

Lemma user_sessions_sum db u : user_sessions db u = csum (λ _ up, if decide (up_uploader up = u) then 1 else 0) (uploads db).
Proof.
  unfold user_sessions. generalize (uploads db). refine (map_ind _ _ _); [by rewrite map_filter_empty, map_size_empty, csum_empty|].
  intros k a m E IH. rewrite csum_insert by done. destruct (decide (up_uploader a = u)) as [Hu|Hu].
  - rewrite map_filter_insert_True, map_size_insert_None by (done || apply map_lookup_filter_None; by left). lia.
  - rewrite map_filter_insert_False, delete_id by done. lia.
Qed.

Lemma sessions_sum db : Z.of_nat (size (uploads db)) = csum (λ _ (_ : Upload), 1) (uploads db).
Proof.
  generalize (uploads db). refine (map_ind _ _ _); [by rewrite map_size_empty, csum_empty|]. intros k a m E IH.
  rewrite csum_insert, map_size_insert_None by done. lia.
Qed.

Lemma hasClaim_row db sha u : KeysOK db → blobs db !! sha = None → hasClaim db sha u = false.
Proof. intros HK Hn. apply bool_decide_eq_false. intros [c Hc]. destruct (keys_claims db HK (sha, u) c Hc) as [r Hr]. cbn in Hr. congruence. Qed.

(** ** The bounds *)

Record Bounded (L : Limits) (db : BlobDB) : Prop := {
  bd_rows sha r : blobs db !! sha = Some r → 0 ≤ br_size r;
  bd_lengths id u : uploads db !! id = Some u → 0 ≤ up_length u;
  bd_quota u : 0 < UserStorageBytes (currentLimits L) → u ≠ "" → quotaUsage db u ≤ UserStorageBytes (currentLimits L);
  bd_sessions : Z.of_nat (size (uploads db)) ≤ multipartSessionLimit;
  bd_user u : user_sessions db u ≤ multipartUserSessionLimit;
  bd_total : upload_total db ≤ multipartStorageLimit;
}.

Lemma held_nonneg db u res : (∀ id up, uploads db !! id = Some up → 0 ≤ up_length up) → ∀ id up, uploads db !! id = Some up → 0 ≤ held_length u res id up.
Proof. intros Hl id up E. unfold held_length. case_match; [by eapply Hl|done]. Qed.

Lemma size_nonneg db u : (∀ sha r, blobs db !! sha = Some r → 0 ≤ br_size r) → ∀ sha r, blobs db !! sha = Some r → 0 ≤ claim_size db u sha r.
Proof. intros Hl sha r E. unfold claim_size. case_match; [by eapply Hl|done]. Qed.

Lemma hasClaim_subset db db' sha u : claims db' ⊆ claims db → hasClaim db' sha u = true → hasClaim db sha u = true.
Proof. intros Hs. unfold hasClaim. rewrite !bool_decide_eq_true. intros [c Hc]. exists c. by eapply lookup_weaken. Qed.

(** Fewer sessions. *)
Lemma held_subset db db' u res : uploads db' ⊆ uploads db → (∀ id up, uploads db !! id = Some up → 0 ≤ up_length up) → reserved_bytes db' u res ≤ reserved_bytes db u res.
Proof. intros Hs Hl. rewrite !reserved_bytes_sum. apply csum_subseteq; [done|]. by apply held_nonneg. Qed.

Lemma claimed_subset db db' u :
  blobs db' ⊆ blobs db → claims db' ⊆ claims db → (∀ sha r, blobs db !! sha = Some r → 0 ≤ br_size r) → claimed_bytes db' u ≤ claimed_bytes db u.
Proof.
  intros Hb Hc Hr. rewrite !claimed_bytes_sum. transitivity (csum (claim_size db u) (blobs db')).
  - apply csum_mono. intros sha r E. unfold claim_size. destruct (hasClaim db' sha u) eqn:E1; [by rewrite (hasClaim_subset _ _ _ _ Hc E1)|].
    case_match; [|done]. eapply Hr, lookup_weaken; done.
  - apply csum_subseteq; [done|]. by apply size_nonneg.
Qed.

Lemma sessions_subset L db db' : Bounded L db → uploads db' ⊆ uploads db →
  Z.of_nat (size (uploads db')) ≤ multipartSessionLimit ∧ (∀ u, user_sessions db' u ≤ multipartUserSessionLimit) ∧ upload_total db' ≤ multipartStorageLimit.
Proof.
  intros [Br Bl Bq Bs Bu Bt] Hs. split_and!.
  - rewrite sessions_sum in *. etransitivity; [apply csum_subseteq; [exact Hs|done]|done].
  - intros u. specialize (Bu u). rewrite user_sessions_sum in *. etransitivity; [apply csum_subseteq; [exact Hs|]|done]. intros. by case_match.
  - rewrite upload_total_sum in *. etransitivity; [apply csum_subseteq; [exact Hs|done]|done].
Qed.

(** A reservation covers what it excludes. *)
Lemma reserved_release db u res : (∀ id up, uploads db !! id = Some up → 0 ≤ up_length up) →
  csum (held_length u "") (delete res (uploads db)) ≤ reserved_bytes db u res.
Proof.
  intros Hl. rewrite reserved_bytes_sum. transitivity (csum (held_length u res) (delete res (uploads db))).
  - apply csum_mono. intros id up [Hne E]%lookup_delete_Some. apply Hl in E. unfold held_length. apply not_eq_sym, String.eqb_neq in Hne. rewrite Hne.
    destruct (String.eqb (up_uploader up) u); [|done]. case_match; cbn; lia.
  - apply csum_subseteq; [apply delete_subseteq|]. by apply held_nonneg.
Qed.

Lemma quota_room db L u res size : quota_exceeded db L u res size = false → size + quotaUsageExcept db u res ≤ UserStorageBytes L.
Proof. intros Hq%Z.ltb_ge. lia. Qed.

(** The tables after an upload: one blob or claim more, the reservation gone. *)
Lemma bounded_upload L db db' uploader res size :
  Bounded L db → uploads db' = delete res (uploads db) → (∀ sha r, blobs db' !! sha = Some r → 0 ≤ br_size r) →
  (∀ u, claimed_bytes db' u ≤ claimed_bytes db u + if decide (u = uploader ∧ uploader ≠ "") then size else 0) →
  (uploader ≠ "" → 0 < UserStorageBytes (currentLimits L) → (∀ u, claimed_bytes db' u ≤ claimed_bytes db u) ∨ size + quotaUsageExcept db uploader res ≤ UserStorageBytes (currentLimits L)) →
  Bounded L db'.
Proof.
  intros HB Eu Hr Hc Hq. pose proof HB as [Br Bl Bq Bs Bu Bt]. assert (uploads db' ⊆ uploads db) as Hs by (rewrite Eu; apply delete_subseteq).
  destruct (sessions_subset L db db' HB Hs) as (H1 & H2 & H3).
  split; [done|intros id up E; rewrite Eu in E; apply lookup_delete_Some in E as [_ E]; by eapply Bl| |done..]. intros u Hpos Hu.
  specialize (Bq u Hpos Hu). specialize (Hc u). unfold quotaUsage, quotaUsageExcept in *. pose proof (held_subset db db' u "" Hs Bl) as Hh. destruct (decide _) as [[-> _]|Hn]; [|lia].
  destruct (Hq Hu Hpos) as [Hle|Hroom]; [specialize (Hle uploader); lia|]. rewrite (reserved_bytes_sum db'), Eu. pose proof (reserved_release db uploader res Bl). lia.
Qed.

Section Carry.
Context `{GoUnicode} `{GoSniff}.

Lemma save_claims sha u n p pu now db : claims (saveClaimMetadata sha u n p pu now db) = claims db ∧ blobs (saveClaimMetadata sha u n p pu now db) = blobs db.
Proof. unfold saveClaimMetadata. by case_match. Qed.

Lemma release_same id db : claims (release_reservation id db) = claims db ∧ blobs (release_reservation id db) = blobs db.
Proof. unfold release_reservation. by case_match. Qed.

Lemma insert_blob_claims sha r db k : blobs db !! sha = None →
  is_Some (claims (insert_blob sha r db) !! k) ↔ is_Some (claims db !! k) ∨ (br_uploader r ≠ "" ∧ k = (sha, br_uploader r)).
Proof.
  intros E. unfold insert_blob. rewrite E. destruct (String.eqb_spec (br_uploader r) "") as [Hu|Hu]; [naive_solver|]. cbn.
  destruct (claims db !! (sha, br_uploader r)) as [c|] eqn:Ec; cbn.
  - split; [by left|]. intros [?|[_ ->]]; [done|]. by eexists.
  - rewrite lookup_insert_is_Some'. naive_solver.
Qed.

Lemma claimSQL_claims sha u now ex db k : is_Some (claims (claimSQL sha u now ex db) !! k) ↔ is_Some (claims db !! k) ∨ k = (sha, u).
Proof. cbn. rewrite lookup_insert_is_Some'. naive_solver. Qed.

(** What a new blob's transaction leaves. *)
Lemma install_tables env cd terms access e db db' :
  KeysOK db → blobs db !! B_SHA256 e = None → install_tx env cd terms access e db = Ok db' →
  blobs db' = <[B_SHA256 e := entry_row e access]> (blobs db) ∧ uploads db' = delete (cd_reservation cd) (uploads db) ∧
  ∀ k, is_Some (claims db' !! k) ↔ is_Some (claims db !! k) ∨ (B_Uploader e ≠ "" ∧ k = (B_SHA256 e, B_Uploader e)).
Proof.
  intros HK Hn. unfold install_tx. destruct (commit_hook cd e true); [|done]. intros [= <-]. set (db0 := upd_tombstones _ _).
  change (mkBlobRow _ _ _ _ _) with (entry_row e access). set (db1 := insert_blob _ _ db0). destruct (blobs_insert_blob (B_SHA256 e) (entry_row e access) db0 Hn) as [Eb Eu].
  set (db2 := if String.eqb _ _ then _ else _).
  assert (blobs db2 = blobs db1 ∧ uploads db2 = uploads db1 ∧ ∀ k, is_Some (claims db2 !! k) ↔ is_Some (claims db1 !! k)) as (E1 & E2 & E3).
  { unfold db2. destruct (String.eqb_spec (B_Uploader e) "") as [|Hu]; [done|]. destruct (save_claims (B_SHA256 e) (B_Uploader e) (cd_name cd) (cd_metadataPath cd) (cd_purpose cd) (be_now env)
      (claimSQL (B_SHA256 e) (B_Uploader e) (B_Uploaded e) (ExpiresAt terms) db1)) as [Es1 Es2]. rewrite Es1, Es2. split; [done|]. split; [unfold saveClaimMetadata; by case_match|].
    intros k. rewrite claimSQL_claims. split; [|by left]. intros [?| ->]; [done|]. unfold db1. rewrite insert_blob_claims by done. right. done. }
  destruct (release_same (cd_reservation cd) db2) as [Er1 Er2]. split; [rewrite Er2, E1; exact Eb|]. split.
  - rewrite release_uploads; [by rewrite E2; unfold db1; rewrite Eu|]. rewrite E2. unfold db1. rewrite Eu. exact (session_id_nonempty db HK).
  - intros k. rewrite Er1, E3. unfold db1. by rewrite insert_blob_claims.
Qed.

Lemma claim_tables env cd terms existing db db' :
  KeysOK db → claim_tx env cd terms existing db = Ok db' →
  blobs db' = blobs db ∧ uploads db' = delete (cd_reservation cd) (uploads db) ∧
  ∀ k, is_Some (claims db' !! k) ↔ is_Some (claims db !! k) ∨ (cd_uploader cd ≠ "" ∧ k = (cd_hash cd, cd_uploader cd)).
Proof.
  intros HK. unfold claim_tx. destruct (commit_hook cd existing false); [|done]. intros [= <-]. set (db2 := if String.eqb _ _ then _ else _).
  assert (blobs db2 = blobs db ∧ uploads db2 = uploads db ∧ ∀ k, is_Some (claims db2 !! k) ↔ is_Some (claims db !! k) ∨ (cd_uploader cd ≠ "" ∧ k = (cd_hash cd, cd_uploader cd))) as (E1 & E2 & E3).
  { unfold db2. destruct (String.eqb_spec (cd_uploader cd) "") as [Hu|Hu]; [split_and!; [done..|naive_solver]|].
    destruct (save_claims (cd_hash cd) (cd_uploader cd) (cd_name cd) (cd_metadataPath cd) (cd_purpose cd) (be_now env)
      (claimSQL (cd_hash cd) (cd_uploader cd) (be_now env) (ExpiresAt terms) db)) as [Es1 Es2]. rewrite Es1, Es2. split; [done|]. split; [unfold saveClaimMetadata; by case_match|].
    intros k. rewrite claimSQL_claims. naive_solver. }
  destruct (release_same (cd_reservation cd) db2) as [Er1 Er2]. split; [by rewrite Er2|]. split; [|intros k; by rewrite Er1].
  rewrite release_uploads, E2; [done|]. rewrite E2. by apply session_id_nonempty.
Qed.

Lemma hasClaim_iff db db' sha u : (is_Some (claims db' !! (sha, u)) ↔ is_Some (claims db !! (sha, u))) → hasClaim db' sha u = hasClaim db sha u.
Proof. intros E. unfold hasClaim. by apply bool_decide_ext. Qed.

(** A row more, with at most its uploader's claim. *)
Lemma claimed_insert db db' sha r uploader u :
  KeysOK db → blobs db !! sha = None → blobs db' = <[sha := r]> (blobs db) → 0 ≤ br_size r →
  (∀ k, is_Some (claims db' !! k) ↔ is_Some (claims db !! k) ∨ (uploader ≠ "" ∧ k = (sha, uploader))) →
  claimed_bytes db' u ≤ claimed_bytes db u + if decide (u = uploader ∧ uploader ≠ "") then br_size r else 0.
Proof.
  intros HK Hn Eb Hr Hc. rewrite !claimed_bytes_sum, Eb, csum_insert by done.
  assert (csum (claim_size db' u) (blobs db) = csum (claim_size db u) (blobs db)) as ->.
  { apply csum_ext. intros x rx Ex. unfold claim_size. rewrite (hasClaim_iff db db'); [done|]. rewrite Hc. split; [|by left]. intros [?|[_ [= -> _]]]; [done|congruence]. }
  unfold claim_size at 1. destruct (hasClaim db' sha u) eqn:E; [|case_match; lia]. apply bool_decide_eq_true, Hc in E as [E|[Hu [= ->]]].
  - assert (hasClaim db sha u = false) as Hf by by apply hasClaim_row. by apply bool_decide_eq_false in Hf.
  - rewrite decide_True by done. lia.
Qed.

(** A claim more. *)
Lemma claimed_claim db db' sha r uploader u :
  blobs db !! sha = Some r → blobs db' = blobs db → 0 ≤ br_size r →
  (∀ k, is_Some (claims db' !! k) ↔ is_Some (claims db !! k) ∨ (uploader ≠ "" ∧ k = (sha, uploader))) →
  claimed_bytes db' u ≤ claimed_bytes db u + if decide (u = uploader ∧ uploader ≠ "") then br_size r else 0.
Proof.
  intros Hs Eb Hr Hc. rewrite !claimed_bytes_sum, Eb, !(csum_delete _ _ _ _ Hs).
  assert (csum (claim_size db' u) (delete sha (blobs db)) = csum (claim_size db u) (delete sha (blobs db))) as ->.
  { apply csum_ext. intros x rx [Hne Ex]%lookup_delete_Some. unfold claim_size. rewrite (hasClaim_iff db db'); [done|]. rewrite Hc. split; [|by left].
    intros [?|[_ [= E _]]]; [done|congruence]. }
  unfold claim_size. destruct (hasClaim db' sha u) eqn:E; [|repeat case_match; lia]. apply bool_decide_eq_true, Hc in E as [E|[Hu [= ->]]].
  - assert (hasClaim db sha u = true) as -> by by apply bool_decide_eq_true. case_match; lia.
  - rewrite decide_True by done. repeat case_match; lia.
Qed.

Lemma bounded_shrink L db db' : blobs db' ⊆ blobs db → claims db' ⊆ claims db → uploads db' ⊆ uploads db → Bounded L db → Bounded L db'.
Proof.
  intros Hb Hc Hu HB. pose proof HB as [Br Bl Bq Bs Bu Bt]. destruct (sessions_subset L db db' HB Hu) as (H1 & H2 & H3). split; [| | |done..].
  - intros sha r E. eapply Br, lookup_weaken; done.
  - intros id up E. eapply Bl, lookup_weaken; done.
  - intros u Hpos Hne. specialize (Bq u Hpos Hne). unfold quotaUsage, quotaUsageExcept in *.
    pose proof (held_subset db db' u "" Hu Bl). pose proof (claimed_subset db db' u Hb Hc Br). lia.
Qed.

(** A session more. *)
Lemma bounded_session L part up db :
  KeysOK db → uploads db !! mp_id part = None → lookup_blob db (mp_hash part) = None → up_uploader up = mp_uploader part → up_length up = mp_length part →
  checkMultipartQuota db (currentLimits L) part = Ok tt → sessions_full db part = false → 0 ≤ mp_length part → Bounded L db →
  Bounded L (upd_uploads (<[mp_id part := up]>) db).
Proof.
  intros HK Hn Hl Eu El Hq Hfull Hlen HB. pose proof HB as [Br Bl Bq Bs Bu Bt].
  unfold sessions_full in Hfull. rewrite !orb_false_iff, !Z.leb_gt, Z.ltb_ge in Hfull. destruct Hfull as [[Hf1 Hf2] Hf3]. split.
  - done.
  - intros id u'. cbn. intros [[<- <-]|[_ E]]%lookup_insert_Some; [lia|by eapply Bl].
  - intros u Hpos Hu. specialize (Bq u Hpos Hu). unfold quotaUsage, quotaUsageExcept in *. rewrite reserved_bytes_sum. cbn [uploads upd_uploads]. rewrite csum_insert by done.
    rewrite (reserved_bytes_sum db) in Bq. change (claimed_bytes (upd_uploads _ db) u) with (claimed_bytes db u). unfold held_length at 1.
    destruct (String.eqb_spec (up_uploader up) u) as [<-|]; cbn [andb]; [|lia]. destruct (String.eqb (mp_id part) ""); cbn [negb]; [lia|].
    unfold checkMultipartQuota in Hq. rewrite <-Eu in Hq. destruct (Z.eqb_spec (UserStorageBytes (currentLimits L)) 0); [lia|]. cbn in Hq.
    assert (hasClaim db (mp_hash part) (up_uploader up) = false) as Hc by (apply hasClaim_row; [done|]; unfold lookup_blob in Hl; by destruct (blobs db !! mp_hash part)).
    rewrite Hc in Hq. apply guard_Ok_tt in Hq. apply quota_room in Hq. unfold quotaUsageExcept in Hq.
    rewrite reserved_bytes_sum in Hq. enough (csum (held_length (up_uploader up) "") (uploads db) ≤ csum (held_length (up_uploader up) (mp_id part)) (uploads db)) by lia. apply csum_mono.
    intros id u' E. assert (id ≠ mp_id part) as Hne by congruence. apply String.eqb_neq in Hne. unfold held_length. rewrite Hne. apply Bl in E.
    destruct (String.eqb (up_uploader u') _); cbn; [|done]. case_match; cbn; lia.
  - rewrite sessions_sum in *. cbn. rewrite csum_insert by done. lia.
  - intros u. specialize (Bu u). rewrite user_sessions_sum in *. cbn. rewrite csum_insert by done. case_decide as E; [|lia]. rewrite Eu in E. subst u. lia.
  - rewrite upload_total_sum in *. cbn. rewrite csum_insert by done. lia.
Qed.

#[export] Instance carried_bounded L : Carried L (Bounded L).
Proof.
  split.
  - intros db db' Hb Hc Hu. by apply bounded_shrink.
  - intros env cd terms access e db db' EL HK Hn Eu Hsz Hq Ht HB. destruct (install_tables env cd terms access e db db' HK Hn Ht) as (Eb & Eup & Ec).
    apply (bounded_upload L db db' (cd_uploader cd) (cd_reservation cd) (B_Size e)); [done|done|..].
    + rewrite Eb. intros sha r [[<- <-]|[_ E]]%lookup_insert_Some; [done|]. by eapply bd_rows.
    + intros u. rewrite <-Eu in *. apply (claimed_insert db db' (B_SHA256 e) (entry_row e access)); done.
    + intros Hne Hpos. right. apply quota_room. apply Z.ltb_lt in Hpos. apply String.eqb_neq in Hne. by rewrite Hpos, Hne in Hq.
  - intros env cd terms existing db db' EL HK Hl Hq Ht HB. destruct (claim_tables env cd terms existing db db' HK Ht) as (Eb & Eup & Ec).
    unfold lookup_blob in Hl. destruct (blobs db !! cd_hash cd) as [r|] eqn:Er; [|done]. injection Hl as <-. pose proof (bd_rows L db HB _ r Er) as Hr.
    apply (bounded_upload L db db' (cd_uploader cd) (cd_reservation cd) (br_size r)); [done|done|rewrite Eb; apply HB|..].
    + intros u. by apply (claimed_claim db db' (cd_hash cd) r (cd_uploader cd)).
    + intros Hne Hpos. apply Z.ltb_lt in Hpos. apply String.eqb_neq in Hne. rewrite Hpos, Hne in Hq. cbn in Hq. apply andb_false_iff in Hq as [Hq|Hq].
      * left. intros u. rewrite !claimed_bytes_sum, Eb. apply Z.eq_le_incl, csum_ext. intros x rx Ex. unfold claim_size. rewrite (hasClaim_iff db db'); [done|].
        rewrite Ec. split; [|by left]. intros [?|[_ [= -> ->]]]; [done|]. apply negb_false_iff in Hq. by apply bool_decide_eq_true in Hq.
      * right. by apply quota_room.
  - intros part up db. apply bounded_session.
  - intros id f db Hf [Br Bl Bq Bs Bu Bt]. split.
    + done.
    + intros i u. cbn. intros E. destruct (decide (i = id)) as [->|Hne]; [|rewrite lookup_alter_ne in E by done; by eapply Bl].
      rewrite lookup_alter_eq in E. apply fmap_Some in E as (u0 & E & ->). destruct (Hf u0) as [_ ->]. by eapply Bl.
    + intros u Hpos Hu. specialize (Bq u Hpos Hu). unfold quotaUsage, quotaUsageExcept in *. rewrite reserved_bytes_sum in *. cbn. rewrite csum_alter; [done|].
      intros a. unfold held_length. by destruct (Hf a) as [-> ->].
    + rewrite sessions_sum in *. cbn. by rewrite csum_alter.
    + intros u. specialize (Bu u). rewrite user_sessions_sum in *. cbn. rewrite csum_alter; [done|]. intros a. by destruct (Hf a) as [-> _].
    + rewrite upload_total_sum in *. cbn. rewrite csum_alter; [done|]. intros a. by destruct (Hf a) as [_ ->].
  - intros sha r db HK Hn Hu Hr HB. destruct (blobs_insert_blob sha r db Hn) as [Eb Eup]. pose proof HB as [Br Bl Bq Bs Bu Bt].
    destruct (sessions_subset L db (insert_blob sha r db) HB) as (H1 & H2 & H3); [by rewrite Eup|]. split; [| | |done..].
    + rewrite Eb. intros x rx [[<- <-]|[_ E]]%lookup_insert_Some; [done|by eapply Br].
    + rewrite Eup. done.
    + intros u Hpos Hne. specialize (Bq u Hpos Hne). unfold quotaUsage, quotaUsageExcept in *. rewrite (reserved_bytes_sum (insert_blob sha r db)), Eup, <-reserved_bytes_sum.
      pose proof (claimed_insert db (insert_blob sha r db) sha r "" u HK Hn Eb Hr) as Hci. rewrite decide_False in Hci by naive_solver.
      enough (claimed_bytes (insert_blob sha r db) u ≤ claimed_bytes db u + 0) by lia. apply Hci. intros k. rewrite insert_blob_claims by done. rewrite Hu. naive_solver.
Qed.
End Carry.

(** ** Opening keeps the tables *)

Section Kept.
Context `{GoUnicode} `{GoSniff}.

(** A run of [New] only adds rows that nothing has deleted. *)
Record Grown (db0 db : BlobDB) : Prop := {
  gr_blobs : blobs db0 ⊆ blobs db;
  gr_claims : claims db = claims db0;
  gr_metas : metas db = metas db0;
  gr_tombstones : tombstones db = tombstones db0;
  gr_blocks : blocks db = blocks db0;
  gr_gone sha : is_Some (tombstones db0 !! sha) ∨ is_Some (blocks db0 !! sha) → blobs db !! sha = blobs db0 !! sha;
}.

Definition grows (db0 : BlobDB) (d : Disk) : Prop := Grown db0 (d_db d).
Notation growing db0 := (safe (λ _, True) (grows db0) (grows db0)).

Lemma grows_files db0 f : growing db0 (commit_files f) (λ _, grows db0).
Proof. by apply safe_commit. Qed.

Lemma grows_discard db0 id : growing db0 (discardMultipart id) (λ _, grows db0).
Proof.
  eapply (safe_bind _ _ _ _ _ (λ _, grows db0)); [|intros []; apply grows_files]. apply safe_commit. intros d [G1 G2 G3 G4 G5 G6]. split; [done|]. by split.
Qed.

Lemma grows_rename db0 from to : growing db0 (rename from to) (λ _, grows db0).
Proof.
  apply safe_get. intros d0 Hd. destruct (if String.eqb from "" then _ else _); [|apply safe_fail; by intros d [-> _]]. eapply safe_conseq; [apply grows_files|by intros d [-> _]|done].
Qed.

Lemma grows_recover db0 mtime name :
  safe (λ _, True) (grows db0) (λ d, grows db0 d ∧ blobs (d_db d) !! name = None ∧ tombstones (d_db d) !! name = None ∧ blocks (d_db d) !! name = None)
    (recoverBlob mtime name) (λ _, grows db0).
Proof.
  apply safe_get. intros d0 (HG & Hn & Ht & Hb). case_match; [|apply safe_fail; by intros d (-> & _)]. apply safe_guard; [by intros d (-> & _)|]. intros _.
  apply safe_commit. intros d [-> _]. split; [done|]. destruct HG as [G1 G2 G3 G4 G5 G6]. set (r := mkBlobRow _ _ _ _ _).
  destruct (blobs_insert_blob name r (d_db d0) Hn) as [Eb _]. assert (insert_blob name r (d_db d0) = upd_blobs (<[name := r]>) (d_db d0)) as E.
  { unfold insert_blob. by rewrite Hn. }
  unfold grows. cbn [d_db on_db]. rewrite E. split; [|done..|].
  - cbn. apply insert_subseteq_r; [|done]. apply eq_None_not_Some. intros [r0 E0]. pose proof (lookup_weaken _ _ _ _ E0 G1). congruence.
  - intros sha Hs. cbn. rewrite lookup_insert_ne; [by apply G6|]. intros <-. rewrite <-G4, <-G5, Ht, Hb in Hs. by destruct Hs as [[? ?]|[? ?]].
Qed.

Lemma grows_staged db0 name sha : growing db0 (reconcileStaged name sha) (λ _, grows db0).
Proof.
  apply safe_get. intros d1 Hd1. destruct (blobs (d_db d1) !! sha) as [r|]; [|eapply safe_conseq; [apply grows_files|by intros d [-> _]|done]].
  destruct (d_files d1 !! name) as [content|]; [|apply safe_fail; by intros d [-> _]]. do 2 (apply safe_guard; [by intros d [-> _]|]; intros _).
  destruct (d_files d1 !! sha).
  - eapply safe_conseq; [apply grows_files|by intros d [-> _]|done].
  - eapply safe_conseq; [apply grows_rename|by intros d [-> _]|done].
Qed.

Lemma grows_entry db0 mtime name : growing db0 (reconcile_entry mtime name) (λ _, grows db0).
Proof.
  apply safe_get. intros d0 HG. case_match.
  - cbv zeta. case_match; [eapply safe_conseq; [apply grows_files|by intros d [-> _]|done]|]. eapply safe_conseq; [apply (grows_staged db0)|intros d [-> _]; exact HG|done].
  - case_match; [eapply safe_conseq; [apply grows_files|by intros d [-> _]|done]|]. case_match; [apply safe_ret; by intros d [-> _]|].
    destruct (bool_decide (is_Some (tombstones _ !! _)) || _) eqn:Et; [apply safe_ret; by intros d [-> _]|].
    destruct (bool_decide (is_Some (blobs (d_db d0) !! name))) eqn:Hb; [apply safe_ret; by intros d [-> _]|]. apply bool_decide_eq_false in Hb. apply orb_false_iff in Et as [Et1%bool_decide_eq_false Et2%bool_decide_eq_false].
    eapply safe_conseq; [apply (grows_recover db0)| |done]. intros d [-> _]. split_and!; [done|by apply eq_None_not_Some..].
Qed.

Lemma grows_New db0 mtime now : growing db0 (New mtime now) (λ _, grows db0).
Proof.
  eapply (safe_bind _ _ _ _ _ (λ _, grows db0)).
  - apply safe_get. intros d0 HG. eapply safe_conseq; [apply (safe_each _ _ (grows db0)); intros; apply grows_entry|by intros d [-> _]|done].
  - intros []. eapply (safe_bind _ _ _ _ _ (λ _, grows db0)); [|intros []; eapply (safe_bind _ _ _ _ _ (λ _, grows db0))].
    + apply safe_get. intros d0 HG. eapply safe_conseq; [apply (safe_each _ _ (grows db0)); intros; apply grows_discard|by intros d [-> _]|done].
    + apply safe_get. intros d0 HG. eapply safe_conseq; [apply (safe_each _ _ (grows db0)); intros name _|by intros d [-> _]|done].
      apply safe_get. intros d1 HG1. case_match; [apply safe_ret; by intros d [-> _]|]. cbv zeta. repeat case_match; try (apply safe_ret; by intros d [-> _]).
      * eapply safe_conseq; [apply grows_discard|by intros d [-> _]|done].
      * eapply safe_conseq; [apply grows_files|by intros d [-> _]|done].
    + intros []. apply safe_get. intros d0 HG. eapply safe_conseq; [apply (safe_each _ _ (grows db0)); intros; apply grows_discard|by intros d [-> _]|done].
Qed.
End Kept.
