(* ===== verification/BlobClaims.v ===== *)
(** * internal/blob: the contract of the store

    What readers, uploaders and moderators may rely on, in every run and after
    a crash, with the two ways bytes or their protection are lost. *)

From S2P Require Import Prelude GoLib GoCodec GoLemmas GoStrings Nostr NostrProps Blob Multipart BlobProps BlobRuns BlobSafe.

(** ** Deletions *)

Section Deleting.
Context {Tdy : Tidy} `{GoUnicode} `{GoSniff}.

Lemma Delete_runs sha now d : shaPattern sha = true →
  ∃ l, Delete sha now d = (l, on_files (delete sha) (on_db (λ db, delete_metas (λ k, String.eqb k.1 sha) (delete_blob sha (entomb sha now db))) d), Ok tt).
Proof. intros Hs. unfold Delete. rewrite Hs. by eexists. Qed.

Lemma each_Delete now l d : (∀ sha, sha ∈ l → shaPattern sha = true) →
  ∃ tr d', io_each (λ sha, Delete sha now) l d = (tr, d', Ok tt) ∧
    (∀ sha, blobs (d_db d') !! sha = if decide (sha ∈ l) then None else blobs (d_db d) !! sha) ∧
    (∀ name, d_files d' !! name = if decide (name ∈ l) then None else d_files d !! name) ∧
    ∀ k c, claims (d_db d') !! k = Some c ↔ claims (d_db d) !! k = Some c ∧ k.1 ∉ l.
Proof.
  revert d. induction l as [|sha l IH]; intros d Hl.
  - exists [], d. split; [done|]. split_and!; [intros; by rewrite decide_False by apply not_elem_of_nil..|]. intros k c. pose proof (not_elem_of_nil k.1). tauto.
  - destruct (Delete_runs sha now d) as [l1 E1]; [apply Hl; by left|]. set (d1 := on_files _ _) in E1.
    destruct (IH d1) as (tr & d' & E & Hb & Hf & Hc); [intros x Hx; apply Hl; by right|].
    exists (l1 ++ tr), d'. split; [cbn; unfold io_bind; by rewrite E1, E|]. split_and!.
    + intros x. rewrite Hb. cbn. destruct (decide (x = sha)) as [->|Hn].
      { rewrite (decide_True (P := sha ∈ sha :: l)) by (by left). case_decide; [done|apply lookup_delete_eq]. }
      rewrite lookup_delete_ne by done. repeat case_decide; set_solver.
    + intros x. rewrite Hf. cbn. destruct (decide (x = sha)) as [->|Hn].
      { rewrite (decide_True (P := sha ∈ sha :: l)) by (by left). case_decide; [done|apply lookup_delete_eq]. }
      rewrite lookup_delete_ne by done. repeat case_decide; set_solver.
    + intros k c. rewrite Hc. change (claims (d_db d1)) with (claims (delete_blob sha (entomb sha now (d_db d)))). unfold delete_blob. rewrite claims_delete_claims, String.eqb_neq. cbn. set_solver.
Qed.

(** A claim that has run out, and none that keeps the bytes. *)
Definition expired_on (db : BlobDB) (now : Z) (sha : string) : Prop :=
  (∃ u c, claims db !! (sha, u) = Some c ∧ 0 < cl_expires c ≤ now) ∧
  ∀ u c, claims db !! (sha, u) = Some c → cl_expires c ≠ 0 ∧ cl_expires c ≤ now.

Lemma elem_claims_on sha db c : c ∈ claims_on sha db ↔ ∃ u, claims db !! (sha, u) = Some c.
Proof.
  unfold claims_on. rewrite list_elem_of_fmap. split.
  - intros ([[s u] c'] & -> & [Hin Hs]%elem_of_lfilter). cbn in *. apply String.eqb_eq in Hs as ->. exists u. by apply elem_of_map_to_list.
  - intros [u E]. exists ((sha, u), c). split; [done|]. apply elem_of_lfilter. split; [by apply elem_of_map_to_list|]. apply String.eqb_refl.
Qed.

Lemma elem_expired now db sha : sha ∈ expired_blobs now db ↔ expired_on db now sha.
Proof.
  unfold expired_blobs, expired_on. rewrite elem_of_lfilter, elem_of_elements, andb_true_iff, negb_true_iff, existsb_elem, existsb_elem_false.
  setoid_rewrite elem_claims_on. split.
  - intros (_ & (c & [u E] & Hl) & Hall). unfold lapsed in Hl. rewrite andb_true_iff, Z.ltb_lt, Z.leb_le in Hl. split; [by exists u, c|].
    intros v c' E'. specialize (Hall c' (ex_intro _ v E')). unfold live in Hall. rewrite orb_false_iff, Z.eqb_neq, Z.ltb_ge in Hall. done.
  - intros ((u & c & E & Hl) & Hall). split; [|split].
    + apply elem_of_map. exists (sha, u). split; [done|]. apply elem_of_dom. by eexists.
    + exists c. split; [by exists u|]. unfold lapsed. by rewrite andb_true_iff, Z.ltb_lt, Z.leb_le.
    + intros c' [v E']. unfold live. rewrite orb_false_iff, Z.eqb_neq, Z.ltb_ge. by eapply Hall.
Qed.

(** The sweep of lapsed claims removes exactly the blobs all of whose claims have
    run out, row and bytes, and reports how many; every other blob keeps its row and
    bytes, and of the other claims exactly the lapsed ones go. *)
Theorem SweepExpired_exact now d l d' r :
  Inv d → SweepExpired now d = (l, d', r) →
  r = Ok (Z.of_nat (List.length (expired_blobs now (d_db d)))) ∧
  (∀ sha, sha ∈ expired_blobs now (d_db d) ↔ expired_on (d_db d) now sha) ∧
  (∀ sha, expired_on (d_db d) now sha → blobs (d_db d') !! sha = None ∧ d_files d' !! sha = None) ∧
  (∀ sha, ¬ expired_on (d_db d) now sha → blobs (d_db d') !! sha = blobs (d_db d) !! sha ∧ d_files d' !! sha = d_files d !! sha) ∧
  ∀ k c, claims (d_db d') !! k = Some c ↔ claims (d_db d) !! k = Some c ∧ lapsed now c = false ∧ ¬ expired_on (d_db d) now k.1.
Proof.
  intros HI. unfold SweepExpired, io_get. destruct (each_Delete now (expired_blobs now (d_db d)) d) as (tr & d1 & E & Hb & Hf & Hc).
  { intros sha Hs%elem_expired. destruct Hs as [(u & c & Ec & _) _]. destruct (keys_claims _ (ci_keys d (inv_crash d HI)) _ c Ec) as [row Hr].
    by destruct (keys_rows _ (ci_keys d (inv_crash d HI)) _ row Hr). }
  unfold io_bind. rewrite E. cbn. intros [= <- <- <-]. split; [done|]. split; [apply elem_expired|]. split_and!.
  - intros sha Hs%elem_expired. cbn. rewrite Hb, Hf. by rewrite !decide_True.
  - intros sha Hs. rewrite <-elem_expired in Hs. cbn. rewrite Hb, Hf. by rewrite !decide_False.
  - intros k c. rewrite <-elem_expired. cbn [d_db on_db]. rewrite claims_delete_claims, Hc. tauto.
Qed.
End Deleting.

(** ** Releasing a claim *)

Section Releasing.
Context `{GoUnicode} `{GoSniff}.

Lemma claims_of_zero sha db : Nat.eqb (claims_of sha db) 0 = true ↔ ∀ u, claims db !! (sha, u) = None.
Proof.
  unfold claims_of. rewrite Nat.eqb_eq, map_size_empty_iff. split.
  - intros E u. apply eq_None_not_Some. intros [c Hc]. assert (filter (λ kc : string * string * Claim, kc.1.1 = sha) (claims db) !! (sha, u) = Some c) as Hx by (by apply lookup_filter_is).
    by rewrite E, lookup_empty in Hx.
  - intros Hn. apply map_empty. intros [s u]. apply eq_None_not_Some. intros [c [Hc Hs]%lookup_filter_is]. cbn in Hs. subst s. by rewrite Hn in Hc.
Qed.

(** What is left of the claims of a blob without one of them. *)
Lemma claims_without sha u db k c :
  claims (delete_claims (λ k _, bool_decide (k = (sha, u))) db) !! k = Some c ↔ claims db !! k = Some c ∧ k ≠ (sha, u).
Proof. rewrite claims_delete_claims. by rewrite bool_decide_eq_false. Qed.

(** An uploader who gives up a blob loses exactly the own claim; while someone else
    claims the blob its row, bytes and tombstones stay as they are, and the last claim
    takes the row and the bytes with it and leaves a tombstone.  Without a claim nothing
    changes. *)
Theorem DeleteForUploader_exact sha u now d l d' r :
  shaPattern sha = true → DeleteForUploader sha u now d = (l, d', r) →
  match claims (d_db d) !! (sha, u) with
  | None => d' = d ∧ r = Err ErrNoRows
  | Some _ =>
    r = Ok tt ∧ (∀ k c, claims (d_db d') !! k = Some c ↔ claims (d_db d) !! k = Some c ∧ k ≠ (sha, u)) ∧
    ((∃ v c, v ≠ u ∧ claims (d_db d) !! (sha, v) = Some c) → blobs (d_db d') = blobs (d_db d) ∧ d_files d' = d_files d ∧ tombstones (d_db d') = tombstones (d_db d)) ∧
    ((∀ v, v ≠ u → claims (d_db d) !! (sha, v) = None) →
       blobs (d_db d') = delete sha (blobs (d_db d)) ∧ d_files d' = delete sha (d_files d) ∧ tombstones (d_db d') !! sha = Some now)
  end.
Proof.
  intros Hs. unfold DeleteForUploader. rewrite Hs. cbn [negb]. unfold Release_tx, io_bind, io_get, release_claim.
  destruct (claims (d_db d) !! (sha, u)) as [c0|] eqn:E0; [|by intros [= <- <- <-]]. cbv zeta. set (db1 := delete_metas _ _).
  assert (∀ k c, claims db1 !! k = Some c ↔ claims (d_db d) !! k = Some c ∧ k ≠ (sha, u)) as Hc1 by (intros k c; apply claims_without).
  destruct (Nat.eqb (claims_of sha db1) 0) eqn:En.
  - intros [= <- <- <-]. rewrite claims_of_zero in En. cbn [d_db d_files on_db on_files]. split; [done|]. split_and!.
    + intros k c. unfold delete_blob. rewrite claims_delete_claims, String.eqb_neq. change (claims (upd_blobs _ _)) with (claims db1). rewrite Hc1. split; [tauto|].
      intros [Hk Hne]. split; [done|]. intros Ek. destruct k as [s v]. cbn in Ek. subst s. assert (claims db1 !! (sha, v) = Some c) as Hx by by apply Hc1. by rewrite En in Hx.
    + intros (v & c & Hv & Hc). assert (claims db1 !! (sha, v) = Some c) as Hx by (apply Hc1; split; [done|congruence]). by rewrite En in Hx.
    + intros _. split_and!; [done|done|apply lookup_insert_eq].
  - intros [= <- <- <-]. split; [done|]. split; [exact Hc1|]. split; [done|]. intros Hall. exfalso. apply not_true_iff_false in En. apply En.
    apply claims_of_zero. intros v. apply eq_None_not_Some. intros [c [Hc Hne]%Hc1]. destruct (decide (v = u)) as [->|Hv]; [done|]. by rewrite (Hall v Hv) in Hc.
Qed.
End Releasing.

(** ** Merged ranges *)

Definition covers (l : list (Z * Z)) (x : Z) : Prop := ∃ s, s ∈ l ∧ s.1 ≤ x < s.2.
Definition apart_spans (a b : Z * Z) : Prop := a.2 < b.1.

Lemma covers_cons s l x : covers (s :: l) x ↔ s.1 ≤ x < s.2 ∨ covers l x.
Proof. unfold covers. setoid_rewrite elem_of_cons. naive_solver. Qed.

Lemma merge_ranges_spec m l :
  m.1 < m.2 → Forall (λ s, s.1 < s.2) l → StronglySorted (ordered span_leb) (m :: l) →
  (∀ x, covers (merge_ranges m l) x ↔ covers (m :: l) x) ∧ StronglySorted apart_spans (merge_ranges m l) ∧
  Forall (λ s, s.1 < s.2 ∧ m.1 ≤ s.1) (merge_ranges m l).
Proof.
  revert m. induction l as [|s l IH]; intros m Hm Hl Ho; cbn.
  - split; [done|]. split; [repeat constructor|]. constructor; [lia|constructor].
  - inversion Hl as [|? ? Hs Hl']; subst. inversion Ho as [|? ? Ho' Hall]; subst. inversion Hall as [|? ? Hms Hml]; subst. inversion Ho' as [|? ? Ho'' Hsl]; subst.
    unfold ordered, span_leb in Hms. apply Z.leb_le in Hms. destruct (Z.leb_spec s.1 m.2) as [Hle|Hgt].
    + destruct (IH (m.1, Z.max m.2 s.2)) as (Hc & Hso & Hf); cbn; [lia|done|constructor; done|]. split; [|done].
      intros x. rewrite Hc, !covers_cons. cbn. split; [intros [?|?]; [|tauto]|intros [?|[?|?]]; [left|left|tauto]; lia].
      destruct (decide (x < m.2)); [left; lia|right; left; lia].
    + destruct (IH s) as (Hc & Hso & Hf); [done|done|done|]. split; [intros x; by rewrite !covers_cons, Hc, covers_cons|]. split.
      * constructor; [done|]. eapply Forall_impl; [exact Hf|]. intros t [_ Ht]. unfold apart_spans. cbn. lia.
      * constructor; [done|]. eapply Forall_impl; [exact Hf|]. intros t [Ht1 Ht2]. cbn in *. lia.
Qed.

Lemma merged_spec l : Forall (λ s, s.1 < s.2) l →
  (∀ x, covers (merged_ranges l) x ↔ covers l x) ∧ StronglySorted apart_spans (merged_ranges l) ∧ Forall (λ s, s.1 < s.2) (merged_ranges l).
Proof.
  intros Hl. unfold merged_ranges. assert (StronglySorted (ordered span_leb) (sort_by span_leb l)) as Ho.
  { apply StronglySorted_merge_sort; unfold ordered, span_leb; [intros a b c|intros a b]; rewrite !Z.leb_le; lia. }
  pose proof (sort_by_perm span_leb l) as Hp. assert (∀ x, covers (sort_by span_leb l) x ↔ covers l x) as Hcov by (intros x; unfold covers; by setoid_rewrite Hp).
  rewrite <-Hp in Hl. destruct (sort_by span_leb l) as [|m l']; [split_and!; [done|constructor..]|].
  inversion Hl; subst. destruct (merge_ranges_spec m l') as (Hc & Hso & Hf); [done..|]. split; [intros x; by rewrite Hc|]. split; [done|].
  eapply Forall_impl; [exact Hf|]. by intros s [].
Qed.

(** The ranges of the chunks received, merged in one pass over the sorted list,
    cover the same offsets and are pairwise apart, and the merge is the single range of
    the whole file exactly when every offset is covered by some chunk: the test the last
    chunk makes before it finalizes is the right one. *)
Theorem merged_ranges_complete l len :
  0 < len → Forall (λ s, 0 ≤ s.1 < s.2 ∧ s.2 ≤ len) l →
  (∀ x, covers (merged_ranges l) x ↔ covers l x) ∧ StronglySorted apart_spans (merged_ranges l) ∧
  (merged_ranges l = [(0, len)] ↔ ∀ x, 0 ≤ x < len → covers l x).
Proof.
  intros Hlen Hl. destruct (merged_spec l) as (Hc & Hso & Hf); [eapply Forall_impl; [exact Hl|]; intros s; cbn; lia|]. split; [done|]. split; [done|]. split.
  - intros E x Hx. apply Hc. rewrite E. exists (0, len). split; [by left|done].
  - intros Hall. assert (∀ x, 0 ≤ x < len ↔ covers (merged_ranges l) x) as Hiff.
    { intros x. rewrite Hc. split; [apply Hall|]. intros (s & Hin & Hx). rewrite Forall_forall in Hl. specialize (Hl s Hin). cbn in Hl. lia. }
    clear Hall Hc Hl. destruct (merged_ranges l) as [|[a b] m]; [destruct (proj1 (Hiff 0)) as (s & Hin & _); [lia|by apply not_elem_of_nil in Hin]|].
    inversion Hf as [|? ? Hab Hf']; subst. inversion Hso as [|? ? Hso' Hap]; subst. cbn in Hab. rewrite Forall_forall in Hap, Hf'.
    assert (∀ s, s ∈ m → b < s.1 ∧ s.1 < s.2) as Hm by (intros s Hs; split; [by apply (Hap s Hs)|by apply (Hf' s Hs)]).
    assert (0 ≤ a < len) as Ha by (apply Hiff; exists (a, b); split; [by left|cbn; lia]).
    assert (0 ≤ b - 1 < len) as Hb by (apply Hiff; exists (a, b); split; [by left|cbn; lia]).
    assert (a = 0) as ->.
    { destruct (proj1 (Hiff 0)) as (s & [->|Hs]%elem_of_cons & Hx); [lia|cbn in Hx; lia|]. pose proof (Hm s Hs). lia. }
    assert (b = len) as ->.
    { destruct (Z.eq_dec b len) as [|Hne]; [done|]. destruct (proj1 (Hiff b)) as (s & [->|Hs]%elem_of_cons & Hx); [lia|cbn in Hx; lia|]. pose proof (Hm s Hs). lia. }
    destruct m as [|s m]; [done|]. assert (len < s.1 ∧ s.1 < s.2) as Hs by (apply Hm; by left).
    assert (0 ≤ s.1 < len) by (apply Hiff; exists s; split; [by right; left|lia]). lia.
Qed.

(** ** Pages *)

Section Paging.
Context `{GoUnicode} `{GoSniff}.

(** The pages of a client that follows every cursor, in so many requests at
    most: [None] when a request fails or there is a cursor left. *)
Fixpoint walk_pages (fuel : nat) (db : BlobDB) (uploader : string) (limit : Z) (cursor : string) : option (list (list Blob)) :=
  match fuel with
  | O => None
  | S fuel =>
    match ListPage db uploader limit cursor with
    | Ok (entries, next) => if String.eqb next "" then Some [entries] else cons entries <$> walk_pages fuel db uploader limit next
    | Err _ => None
    end
  end.

(** A listing in pages of [n]: all full but the last, which is empty only
    when there is no other. *)
Definition paged (n : nat) (pages : list (list Blob)) (listing : list Blob) : Prop :=
  ∃ full last, pages = full ++ [last] ∧ List.concat pages = listing ∧ Forall (λ p, List.length p = n) full ∧
    (List.length last ≤ n)%nat ∧ (full ≠ [] → last ≠ []).

Definition comes_after (b c : Blob) : bool := (B_Uploaded b <? B_Uploaded c) || (B_Uploaded b =? B_Uploaded c) && str_ltb (B_SHA256 b) (B_SHA256 c).

Lemma leb_after a b : blob_leb a b = negb (comes_after a b).
Proof.
  unfold blob_leb, comes_after. destruct (Z.ltb_spec (B_Uploaded b) (B_Uploaded a)), (Z.ltb_spec (B_Uploaded a) (B_Uploaded b)), (Z.eqb_spec (B_Uploaded a) (B_Uploaded b)); cbn; lia || done.
Qed.

Lemma after_trans a b c : comes_after b a = true → comes_after c b = true → comes_after c a = true.
Proof.
  unfold comes_after. rewrite !orb_true_iff, !andb_true_iff, !Z.ltb_lt, !Z.eqb_eq. intros [?|[? Hab]] [?|[? Hbc]]; [left; lia..|].
  right. split; [lia|by eapply str_ltb_trans].
Qed.

Lemma after_asym a b : comes_after a b = true → comes_after b a = false.
Proof.
  intros Ha. apply not_true_iff_false. intros Hb. revert Ha Hb. unfold comes_after. rewrite !orb_true_iff, !andb_true_iff, !Z.ltb_lt, !Z.eqb_eq.
  intros [?|[? Hab]] [?|[? Hba]]; [lia..|]. apply str_ltb_asym in Hab. congruence.
Qed.

Lemma after_total a b : comes_after a b = true ∨ comes_after b a = true ∨ (B_Uploaded a = B_Uploaded b ∧ B_SHA256 a = B_SHA256 b).
Proof.
  unfold comes_after. rewrite !orb_true_iff, !andb_true_iff, !Z.ltb_lt, !Z.eqb_eq.
  destruct (Z.lt_trichotomy (B_Uploaded a) (B_Uploaded b)) as [?|[?|?]]; [auto| |auto]. destruct (str_trichotomy (B_SHA256 a) (B_SHA256 b)) as [?|[?|?]]; auto.
Qed.

Definition same_key (a b : Blob) : Prop := B_Uploaded a = B_Uploaded b ∧ B_SHA256 a = B_SHA256 b.

Lemma leb_iff a b : blob_leb a b = true ↔ comes_after b a = true ∨ same_key a b.
Proof.
  rewrite leb_after, negb_true_iff. split.
  - intros Hn. destruct (after_total a b) as [E|[E|E]]; [congruence|by left|by right].
  - intros [E|[E1 E2]]; [by apply after_asym|]. unfold comes_after. by rewrite E1, E2, Z.ltb_irrefl, str_ltb_irrefl, andb_false_r.
Qed.

Lemma leb_trans a b c : blob_leb a b = true → blob_leb b c = true → blob_leb a c = true.
Proof.
  rewrite !leb_iff. unfold same_key. intros [E1|[E1 E1']] [E2|[E2 E2']].
  - left. by eapply after_trans.
  - left. unfold comes_after in *. by rewrite <-E2, <-E2'.
  - left. unfold comes_after in *. by rewrite E1, E1'.
  - right. split; congruence.
Qed.

Lemma sort_rows l : NoDup l → (∀ a b, a ∈ l → b ∈ l → B_SHA256 a = B_SHA256 b → a = b) → StronglySorted (λ a b, comes_after b a = true) (sort_by blob_leb l).
Proof.
  intros Hn Hk. pose proof (sort_by_perm blob_leb l) as Hp.
  assert (StronglySorted (ordered blob_leb) (sort_by blob_leb l)) as Ho.
  { apply StronglySorted_merge_sort; unfold ordered.
    - intros a b c. apply leb_trans.
    - intros a b. rewrite !leb_after, !negb_true_iff. destruct (comes_after b a) eqn:E; [left; by apply after_asym|by right]. }
  assert (∀ a b, a ∈ sort_by blob_leb l → b ∈ sort_by blob_leb l → B_SHA256 a = B_SHA256 b → a = b) as Hk' by (intros a b; rewrite Hp; apply Hk).
  rewrite <-Hp in Hn. clear Hk Hp. revert Hn Ho Hk'. generalize (sort_by blob_leb l). clear l. intros l. induction l as [|a l IH]; [constructor|].
  intros [Ha Hn]%NoDup_cons Ho Hk. inversion Ho as [|? ? Ho' Hall]; subst. constructor.
  - apply IH; [done|done|]. intros x y Hx Hy. apply Hk; by right.
  - rewrite Forall_forall in Hall |- *. intros b Hb. specialize (Hall b Hb). apply leb_iff in Hall as [?|[_ E]]; [done|].
    assert (a = b) as -> by (apply Hk; [by left|by right|done]). done.
Qed.

(** What follows an entry, in the order of the listing. *)
Lemma sorted_suffix pre c l : StronglySorted (λ a b, comes_after b a = true) (pre ++ c :: l) → List.filter (λ b, comes_after b c) (pre ++ c :: l) = l.
Proof.
  induction pre as [|p pre IH]; cbn; intros Ho; inversion Ho as [|? ? Ho' Hall]; subst.
  - assert (comes_after c c = false) as -> by (unfold comes_after; by rewrite Z.ltb_irrefl, str_ltb_irrefl, andb_false_r).
    apply lfilter_all. rewrite Forall_forall in Hall. done.
  - assert (comes_after p c = false) as ->; [|by apply IH]. apply after_asym. rewrite Forall_forall in Hall. apply Hall. apply elem_of_app. right. by left.
Qed.

Lemma sorted_unique l l' : StronglySorted (λ a b, comes_after b a = true) l → StronglySorted (λ a b, comes_after b a = true) l' → l ≡ₚ l' → l = l'.
Proof.
  intros Hs1 Hs2 Hp. apply (StronglySorted_unique_strong (λ a b, comes_after b a = true)); [|done..].
  intros a b _ _ Hab Hba. apply after_asym in Hab. congruence.
Qed.

Context (db : BlobDB) (u : string).
Notation rows := (claimed_blobs db u).
Notation L := (ListMetadata db u).

Lemma elem_rows b : b ∈ rows ↔ ∃ r, blobs db !! B_SHA256 b = Some r ∧ hasClaim db (B_SHA256 b) u = true ∧ b = mkBlob (B_SHA256 b) (br_size r) (br_type r) u (br_uploaded r).
Proof.
  unfold claimed_blobs. rewrite list_elem_of_omap. split.
  - intros ([sha r] & Hin & E). cbn in E. apply elem_of_map_to_list in Hin. destruct (hasClaim db sha u) eqn:Ec; [|done]. injection E as <-. cbn. by exists r.
  - intros (r & Hr & Hc & E). exists (B_SHA256 b, r). split; [by apply elem_of_map_to_list|]. cbn. by rewrite Hc, <-E.
Qed.

Lemma rows_key a b : a ∈ rows → b ∈ rows → B_SHA256 a = B_SHA256 b → a = b.
Proof. rewrite !elem_rows. intros (r & Hr & _ & Ea) (s & Hs & _ & Eb) E. rewrite Ea, Eb. rewrite E in Hr |- *. congruence. Qed.

Lemma rows_NoDup : NoDup rows.
Proof.
  unfold claimed_blobs. pose proof (NoDup_fst_map_to_list (blobs db)) as Hn. revert Hn. generalize (map_to_list (blobs db)). induction l as [|[sha r] l IH]; [constructor|].
  cbn [fmap list_fmap]. intros [Hx Hn]%NoDup_cons. cbn. destruct (hasClaim db sha u); [|by apply IH]. apply NoDup_cons. split; [|by apply IH].
  intros ([s r'] & Hin & E)%list_elem_of_omap. cbn in E. destruct (hasClaim db s u); [|done]. injection E as -> _ _ _. apply Hx. apply list_elem_of_fmap. by exists (sha, r').
Qed.


Lemma listing_sorted : StronglySorted (λ a b, comes_after b a = true) L.
Proof. apply sort_rows; [apply rows_NoDup|apply rows_key]. Qed.

Lemma filter_perm (p : Blob → bool) l l' : l ≡ₚ l' → List.filter p l ≡ₚ List.filter p l'.
Proof. induction 1; cbn; repeat case_match; try constructor; try done; by etransitivity. Qed.

Lemma rows_after c : sort_by blob_leb (List.filter (λ b, comes_after b c) rows) = List.filter (λ b, comes_after b c) L.
Proof.
  apply sorted_unique.
  - apply sort_rows; [eapply sublist_NoDup; [apply rows_NoDup|apply lfilter_sublist]|]. intros a b [Ha _]%elem_of_lfilter [Hb _]%elem_of_lfilter. by apply rows_key.
  - generalize listing_sorted. generalize L. intros l. induction 1 as [|a l Hl IH Hall]; cbn; [constructor|]. case_match; [|done]. constructor; [done|].
    rewrite Forall_forall in Hall |- *. intros b [Hb _]%elem_of_lfilter. by apply Hall.
  - rewrite sort_by_perm. apply filter_perm. unfold ListMetadata. by rewrite sort_by_perm.
Qed.

Definition page_of (n : nat) (l : list Blob) : list Blob * string := (take n l, if decide (n < List.length l)%nat then match l !! (n - 1)%nat with Some b => B_SHA256 b | None => "" end else "").

Lemma page_limit_pos limit : 1 ≤ page_limit limit ≤ 100.
Proof. unfold page_limit. destruct (Z.ltb_spec limit 1); cbn; [lia|]. destruct (Z.ltb_spec 100 limit); lia. Qed.

Lemma page_limits limit (l : list Blob) (sel : list Blob) : sel = l → let n := page_limit limit in
  (let entries := take (Z.to_nat n + 1) sel in
   if n <? Z.of_nat (List.length entries)
   then Ok (take (Z.to_nat n) entries, match entries !! (Z.to_nat n - 1)%nat with Some b => B_SHA256 b | None => "" end)
   else Ok (entries, "")) = Ok (page_of (Z.to_nat n) l).
Proof.
  intros -> n. cbv zeta. pose proof (page_limit_pos limit) as Hn. fold n in Hn. unfold page_of. rewrite length_take.
  destruct (decide (Z.to_nat n < List.length l)%nat) as [Hl|Hl].
  - rewrite (proj2 (Z.ltb_lt _ _)) by lia. rewrite take_take, lookup_take_lt by lia. by rewrite Nat.min_l by lia.
  - rewrite (proj2 (Z.ltb_ge _ _)) by lia. by rewrite !take_ge by lia.
Qed.

Lemma ListPage_first limit : ListPage db u limit "" = Ok (page_of (Z.to_nat (page_limit limit)) L).
Proof. unfold ListPage. cbn [String.eqb]. apply (page_limits limit L). done. Qed.

Lemma ListPage_next limit pre c l : KeysOK db → L = pre ++ c :: l → ListPage db u limit (B_SHA256 c) = Ok (page_of (Z.to_nat (page_limit limit)) l).
Proof.
  intros HK EL. assert (c ∈ rows) as Hc by (rewrite <-(sort_by_perm blob_leb rows); change (c ∈ L); rewrite EL; set_solver).
  apply elem_rows in Hc as (r & Hr & Hcl & Ec). destruct (keys_rows db HK _ r Hr) as [(a & b & t & Es & _)%sha_first _].
  unfold ListPage. rewrite (proj2 (String.eqb_neq _ _)) by (rewrite Es; discriminate). rewrite Hr, Hcl.
  apply (page_limits limit l). transitivity (sort_by blob_leb (List.filter (λ b, comes_after b c) rows)).
  - f_equal. apply List.filter_ext. intros x. unfold comes_after. assert (B_Uploaded c = br_uploaded r) as -> by by rewrite Ec. done.
  - rewrite rows_after, EL. apply sorted_suffix. rewrite <-EL. apply listing_sorted.
Qed.

Lemma paged_cons n page pages l : (0 < n)%nat → List.length page = n → l ≠ [] → paged n pages l → paged n (page :: pages) (page ++ l).
Proof.
  intros Hn Hp Hl (full & last & -> & <- & Hf & Hlast & Hne). exists (page :: full), last. split_and!; [done|done|by constructor|done|].
  intros _ ->. destruct full; [done|]. by specialize (Hne ltac:(done)).
Qed.

Lemma walk_suffix limit (HK : KeysOK db) fuel pre l cursor :
  L = pre ++ l → (List.length l < fuel)%nat → (cursor = "" ∧ pre = []) ∨ (∃ pre' c, pre = pre' ++ [c] ∧ cursor = B_SHA256 c) →
  ∃ pages, walk_pages fuel db u limit cursor = Some pages ∧ paged (Z.to_nat (page_limit limit)) pages l.
Proof.
  revert pre l cursor. induction fuel as [|fuel IH]; intros pre l cursor EL Hf Hc; [lia|]. cbn [walk_pages]. set (n := Z.to_nat (page_limit limit)) in *.
  pose proof (page_limit_pos limit) as Hn.
  assert (ListPage db u limit cursor = Ok (page_of n l)) as ->.
  { destruct Hc as [[-> ->]|(pre' & c & -> & ->)]; [cbn in EL; rewrite <-EL; apply ListPage_first|]. apply (ListPage_next limit pre' c l HK). by rewrite EL, <-app_assoc. }
  unfold page_of. destruct (decide (n < List.length l)%nat) as [Hl|Hl].
  2: { exists [take n l]. cbn [String.eqb]. split; [done|]. rewrite take_ge by lia. exists [], l. cbn. rewrite app_nil_r. by split_and!; [..|lia|]. }
  destruct (lookup_lt_is_Some_2 l (n - 1)%nat) as [b Hb]; [lia|]. rewrite Hb.
  assert (take n l = take (n - 1) l ++ [b]) as Et by (replace n with (S (n - 1)) at 1 by lia; by apply take_S_r).
  assert (b ∈ rows) as Hbr by (rewrite <-(sort_by_perm blob_leb rows); change (b ∈ L); rewrite EL; apply elem_of_app; right; by eapply list_elem_of_lookup_2).
  apply elem_rows in Hbr as (r & Hr & _). destruct (keys_rows db HK _ r Hr) as [(x & y & t & Es & _)%sha_first _].
  rewrite (proj2 (String.eqb_neq _ _)) by (rewrite Es; discriminate). destruct (IH (pre ++ take n l) (drop n l) (B_SHA256 b)) as (pages & -> & Hp).
  - by rewrite <-app_assoc, take_drop.
  - rewrite length_drop. lia.
  - right. exists (pre ++ take (n - 1) l), b. by rewrite Et, app_assoc.
  - exists (take n l :: pages). split; [done|]. rewrite <-(take_drop n l) at 2. apply paged_cons; [lia|rewrite length_take; lia| |done].
    intros E%(f_equal List.length). rewrite length_drop in E. cbn in E. lia.
Qed.
End Paging.

(** C39: over well-formed tables, a client that follows the cursors of
    ListPage from the start gets the whole listing of an uploader, each blob once
    and newest first, whatever the page size, and comes to a page without a
    cursor: every page before it is full, with as many blobs as the limit allows,
    and it is not empty unless it is the only one. So there are as many pages as
    the listing fills, and no more requests than one beyond the number of its
    blobs are ever needed. *)
Theorem walk_pages_complete `{GoUnicode} `{GoSniff} db u limit fuel :
  KeysOK db → (List.length (ListMetadata db u) < fuel)%nat →
  ∃ pages, walk_pages fuel db u limit "" = Some pages ∧ paged (Z.to_nat (page_limit limit)) pages (ListMetadata db u).
Proof. intros HK Hf. apply (walk_suffix db u limit HK fuel [] (ListMetadata db u)); [done|done|by left]. Qed.

(** ** The store *)

Section Store.
Context {Tdy : Tidy} `{GoUnicode} `{GoSniff} `{GoMime}.
Notation any_limits := (λ _ : Limits, True).

Lemma runs_inv : (∀ r, reachable any_limits r → RInv (λ _, True) r) ∧ (∀ d, crashed any_limits d → CJ (λ _, True) d).
Proof. exact (runs_ok any_limits (λ _, True) (λ L _, carried_true L) (mkLimits 0 0) I I). Qed.

Lemma reachable_inv r : reachable any_limits r → Inv (r_disk r).
Proof. intros Hr. by apply (proj1 runs_inv). Qed.

Lemma lookup_blob_row db sha entry : lookup_blob db sha = Some entry → is_Some (blobs db !! sha).
Proof. unfold lookup_blob. destruct (blobs db !! sha); [by eexists|done]. Qed.

(** A blob that may be read is answered with the file of its name. *)
Lemma get_answers d : CInv d → ∀ sha entry, lookup_blob (d_db d) sha = Some entry → blocked (d_db d) sha = false →
  Get sha d = match d_files d !! sha with Some content => Ok (entry, content) | None => Err "no such file or directory" end ∧ shaPattern sha = true.
Proof.
  intros HC sha entry El Hb. destruct (lookup_blob_row _ _ _ El) as [r Hr]. destruct (keys_rows _ (ci_keys d HC) _ r Hr) as [Hs _]. split; [|done].
  unfold Get. by rewrite Hs, El, Hb.
Qed.

Lemma get_exact d : CInv d → ∀ sha entry content, Get sha d = Ok (entry, content) →
  lookup_blob (d_db d) sha = Some entry ∧ B_SHA256 entry = sha ∧ sha256_hex content = sha ∧ blocked (d_db d) sha = false.
Proof.
  intros HC sha entry content. unfold Get. intros [Hs Hg]%guard_bind_Ok. apply negb_false_iff in Hs. destruct (lookup_blob (d_db d) sha) as [e|] eqn:El; [|done].
  apply guard_bind_Ok in Hg as [Hb Hg]. destruct (d_files d !! sha) as [c|] eqn:Ec; [|done]. injection Hg as -> ->. split; [done|]. split; [|split; [|done]].
  - unfold lookup_blob in El. destruct (blobs (d_db d) !! sha); [|done]. by injection El as <-.
  - by apply (ci_digest d HC).
Qed.

(** In every run a blob row names a SHA-256 and the size of bytes with that hash, a
    claim has its blob, the names of a claim have their claim, a chunk has its session,
    and a session has its identifier and a file of the announced length. *)
Theorem blob_tables_wellformed r : reachable any_limits r →
  let db := d_db (r_disk r) in
  (∀ sha row, blobs db !! sha = Some row → shaPattern sha = true ∧ ∃ c, sha256_hex c = sha ∧ len c = br_size row) ∧
  (∀ k c, claims db !! k = Some c → is_Some (blobs db !! k.1)) ∧ (∀ k m, metas db !! k = Some m → is_Some (claims db !! k.1)) ∧
  (∀ k n, parts db !! k = Some n → is_Some (uploads db !! k.1)) ∧
  ∀ id up, uploads db !! id = Some up → id = multipartID (up_sha256 up) (up_uploader up) ∧ ∃ c, d_files (r_disk r) !! multipartPath id = Some c ∧ len c = up_length up.
Proof.
  intros HI%reachable_inv. cbv zeta. pose proof (ci_keys _ (inv_crash _ HI)) as [K1 K2 K3 K4 K5]. split_and!; [done..|].
  intros id up Hu. split; [apply (K5 id up Hu)|by apply (inv_sessions _ HI)].
Qed.

(** C13: whatever moment a crash hits, of a request or of an earlier recovery, opening
    the service again succeeds and leads to a run; no blob row, claim or name is lost,
    and nothing deleted or blocked comes back. *)
Theorem blob_crash_recovers d mtime now : crashed any_limits d →
  ∃ l d', New mtime now d = (l, d', Ok tt) ∧ reachable any_limits (mkRun d' no_sessions [] []) ∧
    blobs (d_db d) ⊆ blobs (d_db d') ∧ claims (d_db d') = claims (d_db d) ∧ metas (d_db d') = metas (d_db d) ∧
    ∀ sha, is_Some (tombstones (d_db d) !! sha) ∨ is_Some (blocks (d_db d) !! sha) → blobs (d_db d') !! sha = blobs (d_db d) !! sha.
Proof.
  intros Hc. pose proof (proj2 runs_inv d Hc) as HCJ.
  destruct (New mtime now d) as [[l d'] r] eqn:E. destruct (opens_New (mkLimits 0 0) (λ _, True) mtime now d HCJ l d' r E) as [_ Hr]. destruct r as [[]|e]; [|done].
  destruct (grows_New (d_db d) mtime now d) with (l := l) (d' := d') (r := @Ok unit tt) as [_ [G1 G2 G3 G4 G5 G6]]; [by split|done|].
  exists l, d'. split; [done|]. split; [by eapply run_open|]. by split_and!.
Qed.

(** C14: under fixed limits no run holds more for an uploader than the quota, counting
    the blobs claimed and the lengths reserved by open sessions, nor more sessions or
    temporary bytes than the service allows. *)
Theorem blob_bounds L r : reachable (λ L', L' = L) r →
  let db := d_db (r_disk r) in
  (∀ u, 0 < UserStorageBytes (currentLimits L) → u ≠ "" → claimed_bytes db u + reserved_bytes db u "" ≤ UserStorageBytes (currentLimits L)) ∧
  Z.of_nat (size (uploads db)) ≤ multipartSessionLimit ∧ (∀ u, user_sessions db u ≤ multipartUserSessionLimit) ∧ upload_total db ≤ multipartStorageLimit.
Proof.
  intros Hr. assert (∀ L', L' = L → Carried L' (Bounded L)) as HC by (intros L' ->; apply carried_bounded).
  assert (Bounded L no_blobs) as HB0.
  { split; [done|done| |done| |done].
    - intros u Hpos Hu. unfold quotaUsage, quotaUsageExcept. rewrite claimed_bytes_sum, reserved_bytes_sum. cbn [blobs uploads no_blobs]. rewrite !csum_empty. lia.
    - intros u. rewrite user_sessions_sum. cbn [uploads no_blobs]. by rewrite csum_empty. }
  destruct (proj1 (runs_ok (λ L', L' = L) (Bounded L) HC L eq_refl HB0) r Hr) as [_ [Br Bl Bq Bs Bu Bt] _ _ _ _]. cbv zeta. split_and!; [exact Bq|done..].
Qed.
End Store.

(** C12: take any run of the service: the parts of requests and of uploads in
    chunks that hold its locks, between them the statements of deletions and
    blocks, one at a time, crashes and recoveries. At every moment, in the middle
    of such a part too, what Get answers are the bytes whose SHA-256 is the name
    asked for, of a blob with a row that is not blocked. And between the steps of
    a run in which no deletion removes its file once the blob was stored again,
    every blob with a row that is not blocked can be read. *)
Theorem blob_store_sound `{GoUnicode} `{GoSniff} `{GoMime} :
  (∀ d, crashed (T := anytime) (λ _, True) d → ∀ sha entry content, Get sha d = Ok (entry, content) →
     lookup_blob (d_db d) sha = Some entry ∧ B_SHA256 entry = sha ∧ sha256_hex content = sha ∧ blocked (d_db d) sha = false) ∧
  (∀ r, reachable (T := tidily) (λ _, True) r → ∀ sha entry, lookup_blob (d_db (r_disk r)) sha = Some entry → blocked (d_db (r_disk r)) sha = false →
     ∃ content, Get sha (r_disk r) = Ok (entry, content)).
Proof.
  split.
  - intros d [HC _]%runs_inv. apply (get_exact d HC).
  - intros r HI%reachable_inv sha entry El Hb. pose proof El as Hr%lookup_blob_row.
    destruct (inv_present _ HI sha I Hr) as [c Hc], (get_answers _ (inv_crash _ HI) sha entry El Hb) as [Hg _]. rewrite Hc in Hg. by exists c.
Qed.

(** ** A stored blob, and what goes wrong beside it *)

Section Examples.
#[local] Instance blob_unicode : GoUnicode := ascii_unicode.
#[local] Instance blob_sniff : GoSniff := {| detect_content_type := λ _, "application/octet-stream" |}.
#[local] Instance blob_mime : GoMime := {| parse_media_type := Some |}.
#[local] Instance blob_tidy : Tidy := tidily.

Definition hello_sha : string := "2cf24dba5fb0a30e26e83b2ac5b9e29e1b161e5c1fa7425e73043362938b9824".
Definition hello_limits : Limits := mkLimits 0 100.
Definition hello_env : BlobEnv := mkBlobEnv hello_limits (λ _, Ok (mkTerms 15 false)) 10.
Definition hello_put : PutOptions := mkPut "" "alice" "" "hello.txt" "" "members" "" None.
Definition first_run : Run := mkRun (mkDisk no_blobs ∅) no_sessions [] [].
Definition put_hello : IO (Sessions * list Thread) :=
  alone (putValidatedWithMetadata hello_env ".upload-1" "hello" hello_put (λ _, Ok tt)) no_sessions [].
Definition hello_trace : list Disk := (put_hello (r_disk first_run)).1.1.
Definition stored_run : Run := mkRun (put_hello (r_disk first_run)).1.2 no_sessions [] [].
(** The file has its name, the row is not written. *)
Definition half_stored : Disk := default (r_disk first_run) (hello_trace !! 1%nat).

Lemma alone_ends {A} (m : IO A) ss ts d : alone m ss ts d = ((alone m ss ts d).1.1, (alone m ss ts d).1.2, Ok (ss, ts)).
Proof. unfold alone, io_bind, io_try. destruct (m d) as [[l d'] r]. done. Qed.

Lemma put_hello_ends : put_hello (r_disk first_run) = (hello_trace, r_disk stored_run, Ok (no_sessions, [])).
Proof. exact (alone_ends (putValidatedWithMetadata hello_env ".upload-1" "hello" hello_put (λ _, Ok tt)) no_sessions [] (r_disk first_run)). Qed.

Lemma put_hello_op (P : Limits → Prop) : P hello_limits → op P first_run put_hello.
Proof. intros HP. refine (op_put P first_run hello_env ".upload-1" "hello" hello_put (λ _, Ok tt) HP _). vm_compute. reflexivity. Qed.

Lemma stored_reachable {T : Tidy} (P : Limits → Prop) : P hello_limits → reachable P stored_run.
Proof. intros HP. exact (run_op P first_run put_hello hello_trace (r_disk stored_run) no_sessions [] (run_first P) (put_hello_op P HP) put_hello_ends). Qed.

Lemma half_in_trace : half_stored ∈ hello_trace.
Proof.
  assert ((match hello_trace !! 1%nat with Some _ => true | None => false end) = true) as Hx by (vm_compute; reflexivity). revert Hx. unfold half_stored.
  generalize hello_trace. intros l. destruct (l !! 1%nat) as [d|] eqn:E; [intros _|discriminate]. exact (list_elem_of_lookup_2 l 1 d E).
Qed.

Lemma half_crashed {T : Tidy} (P : Limits → Prop) : P hello_limits → crashed P half_stored.
Proof.
  intros HP. exact (crash_op P first_run put_hello hello_trace (r_disk stored_run) _ half_stored (run_first P) (put_hello_op P HP) put_hello_ends half_in_trace).
Qed.

Lemma stored_row : lookup_blob (d_db (r_disk stored_run)) hello_sha = Some (mkBlob hello_sha 5 "application/octet-stream" "alice" 10).
Proof. vm_compute. reflexivity. Qed.

Lemma blob_store_sound_witness :
  crashed (T := anytime) (λ _, True) half_stored ∧ reachable (T := tidily) (λ _, True) stored_run ∧
  ∃ content, Get hello_sha (r_disk stored_run) = Ok (mkBlob hello_sha 5 "application/octet-stream" "alice" 10, content) ∧ sha256_hex content = hello_sha.
Proof.
  split; [exact (half_crashed (λ _, True) I)|]. split; [exact (stored_reachable (λ _, True) I)|].
  assert (blocked (d_db (r_disk stored_run)) hello_sha = false) as Hb by (vm_compute; reflexivity).
  destruct (proj2 blob_store_sound stored_run (stored_reachable (T := tidily) (λ _, True) I) hello_sha _ stored_row Hb) as [content Hg]. exists content. split; [exact Hg|].
  exact (proj1 (proj2 (proj2 (proj1 blob_store_sound (r_disk stored_run) (crash_idle (T := anytime) _ _ (stored_reachable (λ _, True) I)) _ _ _ Hg)))).
Defined.

Lemma blob_tables_wellformed_witness : reachable (λ _, True) stored_run ∧ ∃ c, sha256_hex c = hello_sha ∧ len c = 5.
Proof.
  split; [exact (stored_reachable (λ _, True) I)|].
  refine (proj2 (proj1 (blob_tables_wellformed stored_run (stored_reachable (λ _, True) I)) hello_sha (mkBlobRow 5 "application/octet-stream" "alice" 10 "members") _)).
  vm_compute. reflexivity.
Defined.

Lemma blob_crash_recovers_witness : crashed (λ _, True) half_stored ∧ ∃ l d', New (λ _, 11) 20 half_stored = (l, d', Ok tt).
Proof.
  split; [exact (half_crashed (λ _, True) I)|].
  destruct (blob_crash_recovers half_stored (λ _, 11) 20 (half_crashed (λ _, True) I)) as (l & d' & E & _). exists l, d'. exact E.
Defined.

Lemma blob_bounds_witness :
  reachable (λ L', L' = hello_limits) stored_run ∧ claimed_bytes (d_db (r_disk stored_run)) "alice" + reserved_bytes (d_db (r_disk stored_run)) "alice" "" ≤ 100.
Proof.
  split; [exact (stored_reachable (λ L', L' = hello_limits) eq_refl)|].
  refine (proj1 (blob_bounds hello_limits stored_run (stored_reachable (λ L', L' = hello_limits) eq_refl)) "alice" _ _); [vm_compute; reflexivity|discriminate].
Defined.

Lemma stored_claim : claims (d_db (r_disk stored_run)) !! (hello_sha, "alice") = Some (mkClaim 10 15).
Proof. vm_compute. reflexivity. Qed.

Lemma stored_list : map_to_list (claims (d_db (r_disk stored_run))) = [((hello_sha, "alice"), mkClaim 10 15)].
Proof. vm_compute. reflexivity. Qed.

Lemma stored_only k c : claims (d_db (r_disk stored_run)) !! k = Some c → k = (hello_sha, "alice") ∧ c = mkClaim 10 15.
Proof. intros E. apply elem_of_map_to_list in E. rewrite stored_list in E. apply list_elem_of_singleton in E. by injection E as -> ->. Qed.

(** The claim of the grant runs out at 15. *)
Lemma stored_expires : expired_on (d_db (r_disk stored_run)) 15 hello_sha.
Proof.
  split.
  - exists "alice", (mkClaim 10 15). split; [exact stored_claim|done].
  - intros u c [_ ->]%stored_only. done.
Qed.

Lemma SweepExpired_exact_witness :
  Inv (r_disk stored_run) ∧ ∃ l d' r, SweepExpired 15 (r_disk stored_run) = (l, d', r) ∧ blobs (d_db d') !! hello_sha = None ∧ d_files d' !! hello_sha = None.
Proof.
  pose proof (reachable_inv stored_run (stored_reachable (λ _, True) I)) as HI. split; [exact HI|].
  destruct (SweepExpired 15 (r_disk stored_run)) as [[l d'] r] eqn:E. exists l, d', r. split; [reflexivity|].
  exact (proj1 (proj2 (proj2 (SweepExpired_exact 15 (r_disk stored_run) l d' r HI E))) hello_sha stored_expires).
Defined.

Lemma DeleteForUploader_exact_witness :
  ∃ l d' r, DeleteForUploader hello_sha "bob" 20 (r_disk stored_run) = (l, d', r) ∧ shaPattern hello_sha = true ∧ d' = r_disk stored_run ∧ r = Err ErrNoRows.
Proof.
  destruct (DeleteForUploader hello_sha "bob" 20 (r_disk stored_run)) as [[l d'] r] eqn:E. exists l, d', r. split; [reflexivity|].
  assert (shaPattern hello_sha = true) as Hs by (vm_compute; reflexivity). split; [exact Hs|].
  pose proof (DeleteForUploader_exact hello_sha "bob" 20 (r_disk stored_run) l d' r Hs E) as Hx.
  destruct (claims (d_db (r_disk stored_run)) !! (hello_sha, "bob")) as [c|] eqn:Ec; [|exact Hx]. apply stored_only in Ec as [Ec _]. discriminate.
Defined.

Lemma merged_ranges_complete_witness :
  merged_ranges [(4, 10); (0, 5)] = [(0, 10)] ∧ ∀ x, 0 ≤ x < 10 → covers [(4, 10); (0, 5)] x.
Proof.
  split; [vm_compute; reflexivity|].
  refine (proj1 (proj2 (proj2 (merged_ranges_complete [(4, 10); (0, 5)] 10 _ _))) _); [reflexivity| |vm_compute; reflexivity].
  constructor; [cbn; lia|]. constructor; [cbn; lia|constructor].
Defined.

Lemma walk_pages_complete_witness :
  ∃ pages, walk_pages 5 (d_db (r_disk stored_run)) "alice" 1 "" = Some pages ∧ paged 1 pages (ListMetadata (d_db (r_disk stored_run)) "alice").
Proof.
  refine (walk_pages_complete (d_db (r_disk stored_run)) "alice" 1 5 _ _).
  - exact (ci_keys _ (inv_crash _ (reachable_inv stored_run (stored_reachable (λ _, True) I)))).
  - apply Nat.ltb_lt. vm_compute. reflexivity.
Defined.

(** The members' blob comes back for everyone when the process stops between
    the file and its row. *)
Lemma members_upload_recovered_public :
  (br_access <$> blobs (d_db (r_disk stored_run)) !! hello_sha) = Some AccessMembers ∧ crashed (λ _, True) half_stored ∧
  let '(_, d', r) := New (λ _, 11) 20 half_stored in
  r = Ok tt ∧ (br_access <$> blobs (d_db d') !! hello_sha) = Some AccessPublic ∧ claims (d_db d') !! (hello_sha, "alice") = None.
Proof. split; [vm_compute; reflexivity|]. split; [exact (half_crashed (λ _, True) I)|]. vm_compute. repeat split. Qed.

(** [Delete] between its transaction and its [os.Remove], with an upload of
    the same bytes in between: the row stays without them. *)
Definition put_again : IO (Sessions * list Thread) :=
  alone (putValidatedWithMetadata hello_env ".upload-2" "hello" hello_put (λ _, Ok tt)) no_sessions [].
Definition deleting_run : Run := mkRun (Delete_tx hello_sha 20 (r_disk stored_run)).1.2 no_sessions [] [ToRemove hello_sha].
Definition again_run : Run := mkRun (put_again (r_disk deleting_run)).1.2 no_sessions [] [ToRemove hello_sha].
Definition raced_run : Run := mkRun (remove hello_sha (r_disk again_run)).1.2 no_sessions [] [].

Lemma raced_reachable : reachable (T := anytime) (λ _, True) raced_run.
Proof.
  assert (shaPattern hello_sha = true) as Hs by (vm_compute; reflexivity).
  assert (reachable (T := anytime) (λ _, True) deleting_run) as Hd.
  { refine (run_unlocked _ stored_run (begin_delete hello_sha 20 []) [r_disk deleting_run] (r_disk deleting_run) [ToRemove hello_sha] (stored_reachable _ I) (un_delete stored_run hello_sha 20) _).
    unfold begin_delete. rewrite Hs. reflexivity. }
  assert (reachable (T := anytime) (λ _, True) again_run) as Ha.
  { refine (run_op _ deleting_run put_again _ _ no_sessions [] Hd _ (alone_ends _ _ _ _)). refine (op_put _ deleting_run hello_env ".upload-2" "hello" hello_put (λ _, Ok tt) I _).
    vm_compute. reflexivity. }
  refine (run_unlocked _ again_run (next_pending (ToRemove hello_sha) []) [r_disk raced_run] (r_disk raced_run) [] Ha (un_next again_run (ToRemove hello_sha) [] _ _) _); [reflexivity|intros []|reflexivity].
Qed.

Lemma delete_race_loses_bytes :
  reachable (T := anytime) (λ _, True) raced_run ∧
  lookup_blob (d_db (r_disk raced_run)) hello_sha = Some (mkBlob hello_sha 5 "application/octet-stream" "alice" 10) ∧ d_files (r_disk raced_run) !! hello_sha = None ∧
  Get hello_sha (r_disk raced_run) = Err "no such file or directory".
Proof. split; [exact raced_reachable|]. vm_compute. repeat split. Qed.
End Examples.
