(* ===== verification/Blossom.v ===== *)
(** * internal/blob: names and addresses of blobs (format.go, blossom.go)

    Content types and extensions, the numbers of a query, the classes of
    [net.IP], the paths of the file doors, Blossom URIs and server lists.
    net/url is the parameter [GoURL], its printer [GoURLText]; the two regular
    expressions of blossom.go are written out on runes. *)

From S2P Require Import Prelude GoLib GoCodec GoLemmas GoStrings Nostr Filter Policy Sites Agents Blob.

Definition IP : Type := list Z.

(** ** format.go *)

Definition ErrNotFound : string := "not found".

Definition extensions : list (string * string) :=
  [("application/json", "json"); ("application/pdf", "pdf"); ("application/vnd.blossom.directory+msgpack", "bdir"); ("audio/mp4", "m4a"); ("audio/mpeg", "mp3");
   ("audio/ogg", "ogg"); ("audio/wav", "wav"); ("image/avif", "avif"); ("image/gif", "gif"); ("image/jpeg", "jpg"); ("image/png", "png"); ("image/svg+xml", "svg");
   ("image/webp", "webp"); ("text/markdown", "md"); ("text/plain", "txt"); ("video/mp4", "mp4"); ("video/quicktime", "mov"); ("video/webm", "webm")].
Definition extensionSuffix (typ : string) : string :=
  match List.find (λ te : string * string, String.eqb te.1 typ) extensions with Some te => "." +:+ te.2 | None => "" end.
Definition contentTypes : list string := extensions.*1.

(** [filepath.Ext] *)
Definition path_Ext (p : string) : string :=
  let base := List.last (Split p (char 47)) "" in
  let i := LastIndexByte base 46 in if i <? 0 then "" else drop_str (Z.to_nat i) base.

Definition parsePageCount (raw : string) : Z :=
  match ParseInt raw with NumOk v => if v <? 1 then 20 else if 100 <? v then 100 else v | _ => 20 end.
Definition parsePage (raw : string) : Z := match ParseInt raw with NumOk v => if v <? 0 then 0 else v | _ => 0 end.
Definition parseListLimit (raw : string) : result Z :=
  if String.eqb raw "" then mret 20
  else match ParseInt raw with
       | NumOk v => guard_err ((v <? 1) || (100 <? v)) "invalid: limit must be between 1 and 100";; mret v
       | _ => Err "invalid: limit must be between 1 and 100"
       end.
Definition chooseStatus (created : bool) (status : Z) : Z := if created then status else 200.
(** The sentinel errors are told apart by their texts, which differ. *)
Definition statusFor (e : string) : Z :=
  if String.eqb e ErrHashMismatch || String.eqb e ErrMultipartConflict then 409
  else if String.eqb e ErrFileTooLarge then 413
  else if String.eqb e ErrQuotaExceeded || String.eqb e ErrBlocked || String.eqb e ErrNotEncrypted then 403
  else if HasPrefix e "auth-required:" then 401
  else if HasPrefix e "invalid:" then 400
  else if HasPrefix e "restricted:" then 403
  else 500.

Fixpoint unique_go (seen : gset string) (values : list string) : list string :=
  match values with
  | [] => []
  | v :: r => if bool_decide (v ∈ seen) || String.eqb v "" then unique_go seen r else v :: unique_go ({[v]} ∪ seen) r
  end.
Definition uniqueStrings (values : list string) : list string := unique_go ∅ values.

(** ** net.IP *)

Definition To4 (ip : IP) : option IP :=
  match ip with
  | [a; b; c; d] => Some [a; b; c; d]
  | [0; 0; 0; 0; 0; 0; 0; 0; 0; 0; 255; 255; a; b; c; d] => Some [a; b; c; d]
  | _ => None
  end.
Definition ip_at (ip : IP) (i : nat) : Z := default 0 (ip !! i).
Definition zero_bytes (l : IP) : bool := forallb (Z.eqb 0) l.
Definition is16 (ip : IP) : bool := Nat.eqb (List.length ip) 16.
Definition IsLoopback (ip : IP) : bool :=
  match To4 ip with Some ip4 => ip_at ip4 0 =? 127 | None => is16 ip && zero_bytes (take 15 ip) && (ip_at ip 15 =? 1) end.
Definition IsPrivateIP (ip : IP) : bool :=
  match To4 ip with
  | Some ip4 => (ip_at ip4 0 =? 10) || (ip_at ip4 0 =? 172) && (Z.land (ip_at ip4 1) 240 =? 16) || (ip_at ip4 0 =? 192) && (ip_at ip4 1 =? 168)
  | None => is16 ip && (Z.land (ip_at ip 0) 254 =? 252)
  end.
Definition IsLinkLocalUnicast (ip : IP) : bool :=
  match To4 ip with
  | Some ip4 => (ip_at ip4 0 =? 169) && (ip_at ip4 1 =? 254)
  | None => is16 ip && (ip_at ip 0 =? 254) && (Z.land (ip_at ip 1) 192 =? 128)
  end.
Definition IsLinkLocalMulticast (ip : IP) : bool :=
  match To4 ip with
  | Some ip4 => (ip_at ip4 0 =? 224) && (ip_at ip4 1 =? 0) && (ip_at ip4 2 =? 0)
  | None => is16 ip && (ip_at ip 0 =? 255) && (Z.land (ip_at ip 1) 15 =? 2)
  end.
Definition IsUnspecified (ip : IP) : bool :=
  match To4 ip with Some ip4 => zero_bytes ip4 | None => is16 ip && zero_bytes ip end.
Definition publicIP (ip : IP) : bool :=
  match ip with
  | [] => false
  | _ =>
    if IsLoopback ip || IsPrivateIP ip || IsLinkLocalUnicast ip || IsLinkLocalMulticast ip || IsUnspecified ip then false
    else match To4 ip with
         | Some ip4 =>
           if (ip_at ip4 0 =? 100) && (64 <=? ip_at ip4 1) && (ip_at ip4 1 <=? 127) then false
           else if (ip_at ip4 0 =? 192) && (ip_at ip4 1 =? 0) && (ip_at ip4 2 =? 0) then false
           else if (ip_at ip4 0 =? 198) && ((ip_at ip4 1 =? 18) || (ip_at ip4 1 =? 19)) then false
           else true
         | None => true
         end
  end.

(** [URL.Hostname] *)
Definition valid_optional_port (port : string) : bool :=
  match port with "" => true | String c r => (byte_of c =? 58) && forallb (λ b, in_range 48 b 57) (bytes_of r) end.
Definition Hostname (u : URL) : string :=
  let host := u_host u in
  let colon := LastIndexByte host 58 in
  let host := if negb (colon =? -1) && valid_optional_port (drop_str (Z.to_nat colon) host) then take_str (Z.to_nat colon) host else host in
  if HasPrefix host "[" && HasSuffix host "]" then TrimSuffix (TrimPrefix host "[") "]" else host.

(** ** Paths *)

Definition lower_alnum (b : Z) : bool := in_range 97 b 122 || in_range 48 b 57.
(** [^/([0-9a-f]{64})(?:\.[a-z0-9]{1,8})?$], its first group *)
Definition blob_path (path : string) : option string :=
  match path with
  | String c rest =>
    let sha := take_str 64 rest in let tail := drop_str 64 rest in
    if (byte_of c =? 47) && shaPattern sha
       && match tail with
          | "" => true
          | String d ext => (byte_of d =? 46) && in_range 1 (len ext) 8 && forallb lower_alnum (bytes_of ext)
          end
    then Some sha else None
  | "" => None
  end.
Definition HandlesPath (path : string) : bool :=
  contains ["/upload"; "/mirror"; "/report"; "/files/metadata"; "/nip96"; "/.well-known/nostr/nip96.json"] path
  || HasPrefix path "/nip96/" || HasPrefix path "/list/" || bool_decide (is_Some (blob_path path)).

(** ** blossom.go *)

Record BlossomURI := mkBlossomURI {
  bu_Hash : string; bu_Extension : string; bu_Servers : list string; bu_Author : string; bu_Authors : list string; bu_Size : Z }.

(** [url.QueryUnescape] *)
Definition unhex (b : Z) : option Z :=
  if in_range 48 b 57 then Some (b - 48) else if in_range 97 b 102 then Some (b - 87) else if in_range 65 b 70 then Some (b - 55) else None.
Fixpoint QueryUnescape (s : string) : option string :=
  match s with
  | "" => Some ""
  | String a r =>
    if byte_of a =? 37 then
      match r with
      | String b (String c r') =>
        match unhex (byte_of b), unhex (byte_of c) with
        | Some x, Some y => (λ t, String (char (16 * x + y)) t) <$> QueryUnescape r'
        | _, _ => None
        end
      | _ => None
      end
    else (λ t, String (if byte_of a =? 43 then char 32 else a) t) <$> QueryUnescape r
  end.
(** [url.ParseQuery]: the pairs in order; a pair that does not decode is left
    out and makes an error. *)
Definition query_pair (part : string) : option (string * string) :=
  let '(k, v) := Cut part "=" in k' ← QueryUnescape k; v' ← QueryUnescape v; Some (k', v').
Fixpoint query_pairs (parts : list string) : result (list (string * string)) :=
  match parts with
  | [] => mret []
  | part :: r =>
    if String.eqb part "" then query_pairs r
    else if Contains part ";" then Err "invalid semicolon separator in query"
    else match query_pair part with Some kv => l ← query_pairs r; mret (kv :: l) | None => Err "invalid URL escape" end
  end.
Definition ParseQuery (query : string) : result (list (string * string)) := query_pairs (Split query (char 38)).
Definition values_of (q : list (string * string)) (k : string) : list string := omap (λ kv : string * string, if String.eqb kv.1 k then Some kv.2 else None) q.
(** [Values.Encode] of the given keys, which are sorted. *)
Definition encode_values (q : list (string * list string)) : string :=
  Join (List.concat ((λ kv : string * list string, (λ v, QueryEscape kv.1 +:+ "=" +:+ QueryEscape v) <$> kv.2) <$> q)) "&".

Definition normalizeServerHint (raw : string) : string :=
  let value := TrimRight (Z.eqb 47) (TrimSpace raw) in
  if Contains value "://" then value else "https://" +:+ value.

(** [(?i)([0-9a-f]{64})(?:\.[a-z0-9]{1,16})?(?:$|[^0-9a-f])] on runes: the
    length of a match of the tail after the digits. *)
Definition hex_rune (r : rune) : bool := let c := rune_code r in in_range 48 c 57 || in_range 97 c 102 || in_range 65 c 70.
Definition ext_rune (r : rune) : bool :=
  let c := rune_code r in in_range 48 c 57 || in_range 97 c 122 || in_range 65 c 90 || (c =? 383) || (c =? 8490).
Definition stop_after (l : list rune) : option (list rune) :=
  match l with [] => Some [] | r :: l => if hex_rune r then None else Some l end.
Fixpoint greedy_ext (n : nat) (l : list rune) : option (list rune) :=
  match n with
  | O => None
  | S m =>
    if Nat.leb (S m) (List.length l) && forallb ext_rune (take (S m) l)
    then match stop_after (drop (S m) l) with Some rest => Some rest | None => greedy_ext m l end
    else greedy_ext m l
  end.
Definition match_tail (l : list rune) : option (list rune) :=
  match l with
  | r :: ext => if rune_code r =? 46 then match greedy_ext 16 ext with Some rest => Some rest | None => stop_after l end else stop_after l
  | [] => Some []
  end.
Definition hash_here (l : list rune) : option (list rune * list rune) :=
  let digits := take 64 l in
  if Nat.eqb (List.length digits) 64 && forallb hex_rune digits then (λ rest, (digits, rest)) <$> match_tail (drop 64 l) else None.
(** [FindAllStringSubmatch]: the last match, left to right without overlap. *)
Fixpoint last_hash (fuel : nat) (last : option (list rune)) (l : list rune) : option (list rune) :=
  match fuel with
  | O => last
  | S fuel =>
    match l with
    | [] => last
    | _ :: r => match hash_here l with Some (digits, rest) => last_hash fuel (Some digits) rest | None => last_hash fuel last r end
    end
  end.
Definition rune_digit (r : rune) : string := str1 (ascii_lower (rune_code r)).
Definition BlobHashFromURL (raw : string) : string :=
  match last_hash (S (String.length raw)) None (runes raw) with Some digits => str_concat (rune_digit <$> digits) | None => "" end.

(** [url.Parse] followed by [URL.String] *)
Class GoURLText := { url_text : string → string }.

Section Blossom.
Context `{GoUnicode} `{GoURL} `{GoURLText}.

Definition validServerHint (raw : string) : bool :=
  let value := TrimSpace raw in
  if String.eqb value "" || ContainsAny (λ b, (b =? 32) || (b =? 9) || (b =? 13) || (b =? 10) || (b =? 64)) value then false
  else match url_parse (normalizeServerHint value) with
       | Some u => negb (String.eqb (Hostname u) "") && negb (u_user u) && String.eqb (u_path u) ""
       | None => false
       end.

Definition blossom_extension (path base : string) : result string :=
  if len base <? len path then
    let ext := ToLower (drop_str (String.length base + 1) path) in
    guard_err (negb (in_range 1 (len ext) 16 && forallb lower_alnum (bytes_of ext))) "invalid: Blossom URI extension";;
    mret ext
  else mret "bin".
Definition ParseBlossomURI (raw : string) : result BlossomURI :=
  guard_err (negb (HasPrefix (ToLower raw) "blossom:")) "invalid: Blossom URI scheme";;
  let body := drop_str 8 raw in
  let parts := SplitN body (char 63) 2 in
  let path := hd "" parts in
  let base := (Cut path ".").1 in
  guard_err (negb (shaPattern (ToLower base))) "invalid: Blossom URI hash";;
  ext ← blossom_extension path base;
  match parts with
  | [_; query] =>
    values ← (match ParseQuery query with Ok q => mret q | Err m => Err ("invalid: Blossom URI query: " +:+ m) end);
    let servers := values_of values "xs" in let authors := values_of values "as" in
    guard_err (existsb (λ s, negb (validServerHint s)) servers) "invalid: Blossom server hint";;
    guard_err (existsb (λ a, negb (shaPattern (ToLower a))) authors) "invalid: Blossom author hint";;
    let authors := ToLower <$> authors in
    let rawSize := hd "" (values_of values "sz") in
    size ← (if String.eqb rawSize "" then mret 0
            else match ParseInt rawSize with
                 | NumOk n => guard_err (n <=? 0) "invalid: Blossom URI size";; mret n
                 | _ => Err "invalid: Blossom URI size"
                 end);
    mret (mkBlossomURI (ToLower base) ext ((λ s, TrimRight (Z.eqb 47) (TrimSpace s)) <$> servers) (hd "" authors) authors size)
  | _ => mret (mkBlossomURI (ToLower base) ext [] "" [] 0)
  end.

Definition BlossomURI_String (u : BlossomURI) : string :=
  let path := "blossom:" +:+ bu_Hash u +:+ (if String.eqb (bu_Extension u) "" then "" else "." +:+ bu_Extension u) in
  let authors := match bu_Authors u with [] => if String.eqb (bu_Author u) "" then [] else [bu_Author u] | l => l end in
  let servers := (λ s, TrimPrefix (TrimPrefix s "https://") "http://") <$> bu_Servers u in
  let size := if 0 <? bu_Size u then [Itoa (bu_Size u)] else [] in
  let encoded := encode_values [("as", authors); ("sz", size); ("xs", servers)] in
  if String.eqb encoded "" then path else path +:+ "?" +:+ encoded.

Definition list_server (tag : list string) : option (result string) :=
  match tag with
  | "server" :: value :: _ =>
    Some (match url_parse (TrimSpace value) with
          | Some u =>
            guard_err (negb (contains ["http"; "https"] (u_scheme u)) || String.eqb (u_host u) "") "invalid: Blossom server list URL";;
            mret (TrimRight (Z.eqb 47) (url_text (TrimSpace value)))
          | None => Err "invalid: Blossom server list URL"
          end)
  | _ => None
  end.
Fixpoint server_list (seen : list string) (tags : list (list string)) : result (list string) :=
  match tags with
  | [] => mret []
  | tag :: r =>
    match list_server tag with
    | None => server_list seen r
    | Some res => server ← res; if contains seen server then server_list seen r else l ← server_list (server :: seen) r; mret (server :: l)
    end
  end.
Definition BlossomServerList (e : Event) : result (list string) :=
  guard_err (negb (Kind e =? 10063)) "invalid: event is not a Blossom server list";;
  servers ← server_list [] (etags e);
  guard_err (Nat.eqb (List.length servers) 0) "invalid: Blossom server list is empty";;
  mret servers.

Definition FallbackURLs (servers : list string) (hash extension : string) : list string :=
  if negb (shaPattern (ToLower hash)) then []
  else
    let extension := if negb (String.eqb extension "") && negb (HasPrefix extension ".") then "." +:+ extension else extension in
    List.concat ((λ server,
      let raw := TrimRight (Z.eqb 47) (TrimSpace server) in
      let name := raw +:+ "/" +:+ ToLower hash +:+ extension in
      if Contains raw "://" then [name] else ["https://" +:+ name; "http://" +:+ name]) <$> servers).
End Blossom.

