(* ===== verification/BlossomProps.v ===== *)
(** * internal/blob: references read back (blossom.go)

    [QueryUnescape] inverts [QueryEscape], and a canonical Blossom reference
    parses to itself. *)

From S2P Require Import Prelude GoLib GoCodec GoLemmas GoStrings Nostr Filter Policy Sites Agents Blob Multipart BlobProps Blossom.

(** ** Query text *)

Lemma escape_byte a r : QueryUnescape ((let b := byte_of a in if unreserved b then str1 b else if b =? 32 then "+" else percent b) +:+ r) = String a <$> QueryUnescape r.
Proof. destruct a as [[] [] [] [] [] [] [] []]; reflexivity. Qed.

Lemma QueryUnescape_Escape s : QueryUnescape (QueryEscape s) = Some s.
Proof. induction s as [|a s IH]; [done|]. unfold QueryEscape in *. cbn [flat_str]. rewrite escape_byte, IH. done. Qed.

(** The bytes of an escaped text. *)
Definition query_byte (b : Z) : bool := unreserved b || (b =? 37) || (b =? 43).
Definition query_text (s : string) : Prop := Forall (λ b, query_byte b = true) (bytes_of s).

Lemma escape_text s : query_text (QueryEscape s).
Proof.
  unfold query_text. induction s as [|a s IH]; [constructor|]. unfold QueryEscape in *. cbn [flat_str]. rewrite bytes_of_app. apply Forall_app. split; [|done].
  apply Forall_forall. intros b. rewrite list_elem_of_In. revert b. apply forallb_forall. destruct a as [[] [] [] [] [] [] [] []]; reflexivity.
Qed.

Lemma query_no_char c s : query_byte (byte_of c) = false → query_text s → no_char c s.
Proof. intros Hc Hs. eapply Forall_impl; [exact Hs|]. intros b Hb ->. congruence. Qed.

Definition part_of (kv : string * string) : string := QueryEscape kv.1 +:+ "=" +:+ QueryEscape kv.2.

Lemma part_no_char c kv : query_byte (byte_of c) = false → byte_of c ≠ 61 → no_char c (part_of kv).
Proof.
  intros Hc Hn. unfold no_char, part_of. rewrite !bytes_of_app. apply Forall_app. split; [by apply query_no_char, escape_text|]. apply Forall_app.
  split; [constructor; [intros E; apply Hn; by rewrite <-E|constructor]|by apply query_no_char, escape_text].
Qed.

Lemma Contains_char c s : no_char c s → Contains s (String c "") = false.
Proof.
  unfold no_char. induction s as [|a s IH]; cbn; [done|]. intros [Ha Hs]%Forall_cons. destruct (ascii_dec c a) as [->|_]; [done|]. by apply IH.
Qed.

Lemma Index_char c a b : no_char c a → Index (a +:+ String c b) (String c "") = Some (String.length a).
Proof.
  unfold no_char. induction a as [|x a IH]; cbn.
  - intros _. destruct (ascii_dec c c); [|done]. by destruct b.
  - intros [Hx Ha]%Forall_cons. destruct (ascii_dec c x) as [->|_]; [done|]. by rewrite IH.
Qed.

Lemma Cut_char c a b : no_char c a → Cut (a +:+ String c b) (String c "") = (a, b).
Proof.
  intros Ha. unfold Cut. rewrite Index_char by done. f_equal; clear Ha; induction a as [|x a IH]; cbn; [done|by rewrite IH|done|done].
Qed.

Lemma Cut_none c s : no_char c s → Cut s (String c "") = (s, "").
Proof.
  intros Hs. unfold Cut. enough (Index s (String c "") = None) as -> by done. unfold no_char in Hs. induction s as [|x s IH]; cbn; [done|].
  apply Forall_cons in Hs as [Hx Hs]. destruct (ascii_dec c x) as [->|_]; [done|]. by rewrite IH.
Qed.

Lemma query_pair_part kv : query_pair (part_of kv) = Some kv.
Proof.
  destruct kv as [k v]. unfold query_pair, part_of. cbn [fst snd]. assert (Cut (QueryEscape k +:+ "=" +:+ QueryEscape v) "=" = (QueryEscape k, QueryEscape v)) as -> by (apply (Cut_char (char 61)); by apply query_no_char, escape_text).
  rewrite !QueryUnescape_Escape. done.
Qed.

Lemma query_pairs_parts l : query_pairs (part_of <$> l) = Ok l.
Proof.
  induction l as [|kv l IH]; [done|]. cbn [fmap list_fmap query_pairs]. assert (part_of kv ≠ "") as Hne by (unfold part_of; by destruct (QueryEscape kv.1)).
  apply String.eqb_neq in Hne. assert (Contains (part_of kv) ";" = false) as Hsemi by by apply (Contains_char (char 59)), part_no_char. rewrite Hne, Hsemi, query_pair_part, IH. done.
Qed.

Lemma split_join sep cur a l : no_char sep a → Forall (no_char sep) l → split_go sep None cur (Join (a :: l) (String sep "")) = (cur +:+ a) :: l.
Proof.
  intros Ha Hl. revert cur a Ha. induction Hl as [|b l Hb Hl IH]; intros cur a Ha.
  - cbn [Join]. revert cur. induction a as [|x a IHa]; intros cur; cbn; [by rewrite str_app_nil_r|]. apply Forall_cons in Ha as [Hx Ha].
    destruct (Ascii.eqb_spec x sep) as [->|_]; [done|]. cbn. rewrite IHa by done. by rewrite str_app_assoc.
  - change (Join (a :: b :: l) (String sep "")) with (a +:+ String sep (Join (b :: l) (String sep ""))). revert cur. induction a as [|x a IHa]; intros cur; cbn [split_go].
    + cbn [append split_go]. rewrite Ascii.eqb_refl. cbn [andb negb]. rewrite str_app_nil_r. by rewrite IH.
    + apply Forall_cons in Ha as [Hx Ha]. cbn. destruct (Ascii.eqb_spec x sep) as [->|_]; [done|]. cbn. rewrite IHa by done. by rewrite str_app_assoc.
Qed.

Lemma split_whole sep n cur s : no_char sep s → split_go sep n cur s = [cur +:+ s].
Proof.
  intros Hs. revert cur. induction s as [|x s IH]; intros cur; cbn [split_go]; [by rewrite str_app_nil_r|]. apply Forall_cons in Hs as [Hx Hs].
  destruct (Ascii.eqb_spec x sep) as [->|_]; [done|]. cbn [andb]. rewrite IH by done. by rewrite str_app_assoc.
Qed.

Lemma ParseQuery_parts l : l ≠ [] → ParseQuery (Join (part_of <$> l) "&") = Ok l.
Proof.
  intros Hl. unfold ParseQuery, Split. destruct l as [|kv l]; [done|]. change "&" with (String (char 38) ""). cbn [fmap list_fmap].
  rewrite split_join; [apply (query_pairs_parts (kv :: l))|by apply part_no_char|]. apply Forall_fmap, Forall_true. intros x. by apply part_no_char.
Qed.

Definition pairs_of (q : list (string * list string)) : list (string * string) := List.concat ((λ kv : string * list string, (λ v, (kv.1, v)) <$> kv.2) <$> q).
Lemma encode_pairs q : encode_values q = Join (part_of <$> pairs_of q) "&".
Proof.
  unfold encode_values, pairs_of. f_equal. induction q as [|[k l] q IH]; [done|]. cbn. rewrite fmap_app, <-IH. f_equal. by rewrite <-list_fmap_compose.
Qed.

Lemma values_app q q' k : values_of (q ++ q') k = values_of q k ++ values_of q' k.
Proof. apply omap_app. Qed.

Lemma values_key k k' (l : list string) : values_of ((λ v, (k', v)) <$> l) k = if String.eqb k' k then l else [].
Proof. induction l as [|v l IH]; cbn; [by destruct (String.eqb k' k)|]. fold (values_of ((λ v, (k', v)) <$> l) k). rewrite IH. by destruct (String.eqb k' k). Qed.

(** ** ASCII *)

Definition ascii_text (s : string) : Prop := Forall (λ b, b < 128) (bytes_of s).

Lemma ascii_app s t : ascii_text s → ascii_text t → ascii_text (s +:+ t).
Proof. unfold ascii_text. rewrite bytes_of_app. intros. by apply Forall_app. Qed.

Lemma ascii_query s : query_text s → ascii_text s.
Proof.
  intros Hs. eapply Forall_impl; [exact Hs|]. intros b. cbn beta. unfold query_byte, unreserved, in_range. rewrite !orb_true_iff, !andb_true_iff, !Z.leb_le, !Z.eqb_eq, containsInt_spec. set_unfold. lia.
Qed.

Lemma ascii_join l sep : Forall ascii_text l → ascii_text sep → ascii_text (Join l sep).
Proof.
  intros Hl Hs. induction Hl as [|a l Ha Hl IH]; [constructor|]. destruct l as [|b l]; [done|].
  change (Join (a :: b :: l) sep) with (a +:+ sep +:+ Join (b :: l) sep). by apply ascii_app; [|apply ascii_app].
Qed.

Lemma ascii_is s : ascii_text s → is_ascii s = true.
Proof. unfold is_ascii. rewrite forallb_forall. unfold ascii_text. rewrite Forall_forall. intros Hs b Hb. apply Z.ltb_lt, Hs. by apply list_elem_of_In. Qed.

Lemma ToLower_ascii `{GoUnicode} s : ascii_text s → ToLower s = str_map ascii_lower s.
Proof. intros Hs. unfold ToLower. by rewrite ascii_is. Qed.

(** A text of digits and small letters. *)
Definition small_text (s : string) : Prop := Forall (λ b, lower_alnum b = true) (bytes_of s).

Lemma small_ascii s : small_text s → ascii_text s.
Proof. intros Hs. eapply Forall_impl; [exact Hs|]. intros b. cbn beta. unfold lower_alnum, in_range. rewrite orb_true_iff, !andb_true_iff, !Z.leb_le. lia. Qed.

Lemma small_lower `{GoUnicode} s : small_text s → ToLower s = s.
Proof.
  intros Hs. rewrite ToLower_ascii by by apply small_ascii. unfold small_text in Hs. induction s as [|a s IH]; [done|]. apply Forall_cons in Hs as [Ha Hs]. cbn. rewrite IH by done.
  unfold ascii_lower. assert (in_range 65 (byte_of a) 90 = false) as -> by (revert Ha; unfold lower_alnum, in_range; rewrite orb_true_iff, !andb_true_iff, !Z.leb_le; lia).
  by rewrite char_byte_of.
Qed.

Lemma small_no_char c s : lower_alnum (byte_of c) = false → small_text s → no_char c s.
Proof. intros Hc Hs. eapply Forall_impl; [exact Hs|]. intros b Hb ->. congruence. Qed.

Lemma sha_small s : shaPattern s = true → small_text s.
Proof.
  intros [_ Hs]%andb_true_iff. apply Forall_forall. intros b Hb. rewrite forallb_forall in Hs. specialize (Hs b (proj1 (list_elem_of_In _ _) Hb)).
  revert Hs. unfold lower_hex_byte, lower_alnum, in_range. rewrite !orb_true_iff, !andb_true_iff, !Z.leb_le. lia.
Qed.

(** ** References *)

Section Reference.
Context `{GoUnicode} `{GoURL}.

(** A reference as [ParseBlossomURI] gives it, its servers without a scheme. *)
Record canonical_uri (u : BlossomURI) : Prop := {
  cu_hash : shaPattern (bu_Hash u) = true;
  cu_extension : in_range 1 (len (bu_Extension u)) 16 = true ∧ small_text (bu_Extension u);
  cu_servers s : s ∈ bu_Servers u → validServerHint s = true ∧ TrimRight (Z.eqb 47) (TrimSpace s) = s ∧ HasPrefix s "https://" = false ∧ HasPrefix s "http://" = false;
  cu_authors a : a ∈ bu_Authors u → shaPattern a = true;
  cu_author : bu_Author u = hd "" (bu_Authors u);
  cu_size : 0 ≤ bu_Size u ≤ int64_max;
}.

Definition hints_of (u : BlossomURI) : list (string * string) :=
  ((λ a, ("as", a)) <$> bu_Authors u) ++ (if 0 <? bu_Size u then [("sz", Itoa (bu_Size u))] else []) ++ ((λ s, ("xs", s)) <$> bu_Servers u).
Definition path_of (u : BlossomURI) : string := bu_Hash u +:+ "." +:+ bu_Extension u.

Lemma join_parts_nonempty kv l : Join (part_of kv :: l) "&" ≠ "".
Proof. unfold part_of. destruct l, (QueryEscape kv.1); discriminate. Qed.

Lemma string_of u : canonical_uri u →
  BlossomURI_String u = "blossom:" +:+ path_of u +:+ (match hints_of u with [] => "" | l => "?" +:+ Join (part_of <$> l) "&" end).
Proof.
  intros Hu. unfold BlossomURI_String. cbv zeta. destruct (String.eqb_spec (bu_Extension u) "") as [E|_].
  { destruct (cu_extension u Hu) as [Hl _]. by rewrite E in Hl. }
  assert (match bu_Authors u with [] => if String.eqb (bu_Author u) "" then [] else [bu_Author u] | l => l end = bu_Authors u) as ->.
  { rewrite (cu_author u Hu). by destruct (bu_Authors u). }
  assert ((λ s, TrimPrefix (TrimPrefix s "https://") "http://") <$> bu_Servers u = bu_Servers u) as ->.
  { assert (∀ s, s ∈ bu_Servers u → HasPrefix s "https://" = false ∧ HasPrefix s "http://" = false) as Hs by (intros s Hin; by destruct (cu_servers u Hu s Hin) as (_ & _ & ?)).
    induction (bu_Servers u) as [|s l IH]; [done|]. cbn. rewrite IH by (intros x Hx; apply Hs; by right). destruct (Hs s) as [H1' H2']; [by left|].
    unfold TrimPrefix at 2. rewrite H1'. unfold TrimPrefix. by rewrite H2'. }
  rewrite encode_pairs. assert (pairs_of [("as", bu_Authors u); ("sz", if 0 <? bu_Size u then [Itoa (bu_Size u)] else []); ("xs", bu_Servers u)] = hints_of u) as ->.
  { unfold pairs_of, hints_of. cbn. rewrite app_nil_r. by destruct (0 <? bu_Size u). }
  unfold path_of. destruct (hints_of u) as [|kv l]; cbn [fmap list_fmap].
  - cbn. by rewrite str_app_nil_r.
  - destruct (String.eqb_spec (Join (part_of kv :: (part_of <$> l)) "&") "") as [E|_]; [|by rewrite !str_app_assoc].
    by apply join_parts_nonempty in E.
Qed.

Lemma string_ascii u : canonical_uri u → ascii_text (BlossomURI_String u).
Proof.
  intros Hu. rewrite string_of by done. destruct (cu_extension u Hu) as [_ He]. unfold path_of.
  repeat apply ascii_app; [by repeat constructor|by apply small_ascii, sha_small, (cu_hash u)|by repeat constructor|by apply small_ascii|].
  destruct (hints_of u) as [|kv l]; [constructor|]. apply ascii_app; [by repeat constructor|]. apply ascii_join; [|by repeat constructor].
  apply Forall_fmap, Forall_true. intros x. cbn. unfold part_of. repeat apply ascii_app; [apply ascii_query, escape_text|by repeat constructor|apply ascii_query, escape_text].
Qed.

Lemma path_no_query u : canonical_uri u → no_char (char 63) (path_of u).
Proof.
  intros Hu. destruct (cu_extension u Hu) as [_ He]. unfold path_of, no_char. rewrite !bytes_of_app. apply Forall_app. split; [by apply small_no_char, sha_small, (cu_hash u)|].
  apply Forall_app. split; [by repeat constructor|by apply small_no_char].
Qed.

Lemma path_cut u : canonical_uri u → Cut (path_of u) "." = (bu_Hash u, bu_Extension u).
Proof. intros Hu. apply (Cut_char (char 46)). by apply small_no_char, sha_small, (cu_hash u). Qed.

Lemma extension_read u : canonical_uri u → blossom_extension (path_of u) (bu_Hash u) = Ok (bu_Extension u).
Proof.
  intros Hu. destruct (cu_extension u Hu) as [Hl He]. unfold blossom_extension. assert (len (bu_Hash u) <? len (path_of u) = true) as ->.
  { apply Z.ltb_lt. unfold path_of, len. rewrite !str_app_length. cbn. lia. }
  assert (drop_str (String.length (bu_Hash u) + 1) (path_of u) = bu_Extension u) as ->.
  { unfold path_of. clear. induction (bu_Hash u) as [|a s IH]; cbn; [by destruct (bu_Extension u)|done]. }
  rewrite small_lower by done. rewrite Hl. assert (forallb lower_alnum (bytes_of (bu_Extension u)) = true) as ->; [|done].
  apply forallb_forall. intros b Hb. unfold small_text in He. rewrite Forall_forall in He. apply He. by apply list_elem_of_In.
Qed.

Lemma existsb_none {A} (p : A → bool) (l : list A) : (∀ x, x ∈ l → p x = false) → existsb p l = false.
Proof. intros Hp. apply existsb_elem_false. done. Qed.

Lemma fmap_id_on {A} (f : A → A) (l : list A) : (∀ x, x ∈ l → f x = x) → f <$> l = l.
Proof. intros Hf. induction l as [|a l IH]; [done|]. cbn. rewrite Hf by (by left). by rewrite IH by (intros x Hx; apply Hf; by right). Qed.

Lemma hints_read u k : values_of (hints_of u) k =
  (if String.eqb "as" k then bu_Authors u else []) ++ (if String.eqb "sz" k then if 0 <? bu_Size u then [Itoa (bu_Size u)] else [] else []) ++ (if String.eqb "xs" k then bu_Servers u else []).
Proof.
  unfold hints_of. rewrite !values_app, !values_key. f_equal. f_equal. destruct (0 <? bu_Size u); [|by destruct (String.eqb "sz" k)].
  exact (values_key k "sz" [Itoa (bu_Size u)]).
Qed.

(** A canonical reference to a blob, printed with its hash, extension and
    hints of servers, authors and size, is parsed back to itself. *)
Theorem BlossomURI_round_trip u : canonical_uri u → ParseBlossomURI (BlossomURI_String u) = Ok u.
Proof.
  intros Hu. unfold ParseBlossomURI. rewrite (ToLower_ascii (BlossomURI_String u)) by by apply string_ascii. assert (HasPrefix (str_map ascii_lower (BlossomURI_String u)) "blossom:" = true) as ->.
  { rewrite string_of by done. cbn. apply HasPrefix_nil. }
  cbn [negb guard_err]. rewrite string_of by done. set (tail := match hints_of u with [] => _ | _ => _ end).
  change (drop_str 8 ("blossom:" +:+ path_of u +:+ tail)) with (path_of u +:+ tail).
  assert (SplitN (path_of u +:+ tail) (char 63) 2 = match hints_of u with [] => [path_of u] | l => [path_of u; Join (part_of <$> l) "&"] end) as ->.
  { unfold tail, SplitN. destruct (hints_of u) as [|kv l].
    - rewrite str_app_nil_r. by apply split_whole, path_no_query.
    - change ("?" +:+ Join (part_of <$> kv :: l) "&") with (String (char 63) (Join (part_of <$> kv :: l) "&")). rewrite split_go_step by by apply path_no_query.
      by rewrite split_go_last. }
  assert (hd "" (match hints_of u with [] => [path_of u] | l => [path_of u; Join (part_of <$> l) "&"] end) = path_of u) as -> by by destruct (hints_of u).
  rewrite path_cut by done. cbn [fst]. rewrite (small_lower (bu_Hash u)) by by apply sha_small, (cu_hash u). rewrite (cu_hash u Hu). cbn [negb guard_err]. rewrite extension_read by done.
  assert (authors : ToLower <$> bu_Authors u = bu_Authors u) by (apply fmap_id_on; intros a Ha; by apply small_lower, sha_small, (cu_authors u Hu)).
  assert (servers : (λ s, TrimRight (Z.eqb 47) (TrimSpace s)) <$> bu_Servers u = bu_Servers u) by (apply fmap_id_on; intros s Hs; by destruct (cu_servers u Hu s Hs) as (_ & ? & _)).
  pose proof (cu_size u Hu) as Hz. destruct (hints_of u) as [|kv l] eqn:Eh.
  - unfold hints_of in Eh. apply app_eq_nil in Eh as [Ea [Ez Es]%app_eq_nil]. apply fmap_nil_inv in Ea, Es. destruct (Z.ltb_spec 0 (bu_Size u)); [done|]. cbn.
    pose proof (cu_author u Hu) as Hau. destruct u. cbn in *. subst. do 2 f_equal. lia.
  - rewrite <-Eh. cbn. rewrite ParseQuery_parts by (by rewrite Eh). cbn. rewrite !hints_read. cbn. rewrite !app_nil_r.
    rewrite (existsb_none _ (bu_Servers u)) by (intros s Hs; destruct (cu_servers u Hu s Hs) as [-> _]; done).
    rewrite (existsb_none _ (bu_Authors u)) by (intros a Ha; rewrite (small_lower a) by (by apply sha_small, (cu_authors u Hu)); by rewrite (cu_authors u Hu a Ha)). cbn. rewrite authors, servers, <-(cu_author u Hu).
    destruct (Z.ltb_spec 0 (bu_Size u)) as [Hp|Hp]; cbn.
    + assert (String.eqb (Itoa (bu_Size u)) "" = false) as -> by (unfold Itoa; destruct (Z.ltb_spec (bu_Size u) 0); [lia|]; apply String.eqb_neq, utoa_nonempty; lia).
      rewrite ParseInt_Itoa by (unfold int64_min; lia). rewrite (proj2 (Z.leb_gt _ _)) by lia. cbn. by destruct u.
    + assert (bu_Size u = 0) as Ez by lia. rewrite <-Ez. by destruct u.
Qed.
End Reference.

(** ** A reference with every hint *)

Section Example.
#[local] Instance blossom_unicode : GoUnicode := ascii_unicode.
#[local] Instance blossom_urls : GoURL := {| url_parse s := Some (mkURL "https" (TrimPrefix s "https://") "" false "" ""); url_string := u_host |}.

Definition sample_hash : string := "2cf24dba5fb0a30e26e83b2ac5b9e29e1b161e5c1fa7425e73043362938b9824".
Definition sample_uri : BlossomURI := mkBlossomURI sample_hash "jpg" ["cdn.example:8443"; "b.example"] sample_hash [sample_hash] 184292.

Lemma sample_canonical : canonical_uri sample_uri.
Proof.
  split; [reflexivity|split; [reflexivity|repeat constructor]| | |reflexivity|split; vm_compute; discriminate].
  - intros s [->|[->|[]%not_elem_of_nil]%elem_of_cons]%elem_of_cons; (split; [vm_compute; reflexivity|split; [vm_compute; reflexivity|split; vm_compute; reflexivity]]).
  - intros a ->%list_elem_of_singleton. reflexivity.
Qed.

Lemma BlossomURI_round_trip_witness : canonical_uri sample_uri ∧ ParseBlossomURI (BlossomURI_String sample_uri) = Ok sample_uri.
Proof. split; [exact sample_canonical|exact (BlossomURI_round_trip sample_uri sample_canonical)]. Defined.

Lemma sample_text : BlossomURI_String sample_uri =
  "blossom:" +:+ sample_hash +:+ ".jpg?as=" +:+ sample_hash +:+ "&sz=184292&xs=cdn.example%3A8443&xs=b.example".
Proof. vm_compute. reflexivity. Qed.
End Example.
