(* ===== verification/BlobHttp.v ===== *)
(** * internal/blob: the HTTP doors (http.go, path_upload.go)

    A handler is a program over the store that yields a response.  The hooks of
    [Config] are the fields of [HttpConfig]; the HTTP client is the field
    [hc_fetch], which a URL with a status, a content type and a body answers, and
    [os.CreateTemp] is [hc_temp].  [route] is the dispatch of [serveHTTP]; chunks
    continue in [Multipart].  [ServeContent] is the one of net/http, with its
    preconditions and ranges: of an answer in several parts it keeps the parts
    and leaves out the boundary and the length. *)

From S2P Require Import Prelude GoLib GoCodec GoLemmas GoStrings Nostr Filter Policy Sites Agents GrantRequests Blob Multipart Blossom.

(** ** Requests and answers *)

Record FormData := mkForm { fd_file : option (string * string); fd_content_type : string; fd_caption : string }.
Record HttpRequest := mkHttp {
  hr_Method : string; hr_Path : string; hr_Header : string → string; hr_Query : string → list string; hr_Body : string;
  hr_Length : Z; hr_Origin : string; hr_Form : option FormData }.
Definition query_get (r : HttpRequest) (name : string) : string := hd "" (hr_Query r name).

(** Bytes of a file, or the ranges of one with their [Content-Range]. *)
Inductive HttpBody := NoBody | JsonBody (j : json) | Text (s : string) | Bytes (content : string) | Parts (l : list (string * string)).
Record Response := mkResponse { rs_Status : Z; rs_Headers : list (string * string); rs_Body : HttpBody }.

Record HttpConfig := mkHttpConfig {
  hc_Authorize : option (HttpRequest → string → result string);
  hc_CanRead : option (string → list string → bool);
  hc_IsOwner : option (string → bool);
  hc_ValidateUpload : option (HttpRequest → string → result unit);
  hc_RecordReport : option (string → string → string → result unit);
  hc_ResolveServers : option (string → result (list string));
  hc_PublicURL : string;
  hc_resolve : string → result (list IP);
  hc_fetch : string → result (Z * string * string);
  hc_env : BlobEnv;
  hc_nanos : Z;
  hc_temp : Disk → string }.

Definition writeJSON (status : Z) (j : json) : Response := mkResponse status [("content-type", "application/json")] (JsonBody j).
Definition fail (status : Z) (m : string) : Response :=
  mkResponse status [("x-reason", m); ("content-type", "application/json")] (JsonBody (JObj [("error", JStr m)])).
Definition answer (status : Z) : Response := mkResponse status [] NoBody.

(** A step whose error is the answer. *)
Definition or_fail {A} (m : IO A) (status : string → Z) (k : A → IO Response) : IO Response :=
  run r <- io_try m; match r with Ok a => k a | Err e => io_ret (fail (status e) e) end.

(** ** [http.ServeContent] *)

(** [http.TimeFormat] and [http.ParseTime], to the second. *)
Class GoHttpTime := { http_time : Z → string; parse_http_time : string → option Z }.

Definition http_space (b : Z) : bool := (b =? 32) || in_range 9 b 10 || (b =? 13).
(** [textproto.TrimString] *)
Definition TrimString (s : string) : string := Trim http_space s.
Definition etag_byte (c : Z) : bool := (c =? 33) || in_range 35 c 126 || (128 <=? c).
(** Where the text of a tag ends, past its closing quote. *)
Fixpoint etag_end (s : string) : option nat :=
  match s with
  | EmptyString => None
  | String a r => if byte_of a =? 34 then Some 1%nat else if etag_byte (byte_of a) then S <$> etag_end r else None
  end.
Definition scanETag (s : string) : string * string :=
  let s := TrimString s in
  let start := if HasPrefix s "W/" then 2%nat else 0%nat in
  match drop_str start s with
  | String q r =>
    if byte_of q =? 34
    then match etag_end r with Some n => (take_str (start + 1 + n) s, drop_str (start + 1 + n) s) | None => ("", "") end
    else ("", "")
  | EmptyString => ("", "")
  end.
Definition etagStrongMatch (a b : string) : bool := String.eqb a b && HasPrefix a (str1 34).
Definition etagWeakMatch (a b : string) : bool := String.eqb (TrimPrefix a "W/") (TrimPrefix b "W/").

(** A header that lists tags: one of them matches, or it is [*]. *)
Fixpoint match_tags (fuel : nat) (matches : string → bool) (s : string) : bool :=
  match fuel with
  | O => false
  | S fuel =>
    match TrimString s with
    | EmptyString => false
    | String a r as t =>
      if byte_of a =? 44 then match_tags fuel matches r
      else if byte_of a =? 42 then true
      else let '(etag, remain) := scanETag t in
           if String.eqb etag "" then false else matches etag || match_tags fuel matches remain
    end
  end.
(** Every round takes a byte. *)
Definition listed (matches : string → bool) (s : string) : bool := match_tags (S (String.length s)) matches s.

Inductive condResult := condNone | condTrue | condFalse.
Definition cond_of (b : bool) : condResult := if b then condTrue else condFalse.

Section Serve.
Context `{GoHttpTime} (r : HttpRequest) (etag : string) (modtime : Z).

Definition is_read : bool := contains ["GET"; "HEAD"] (hr_Method r).
Definition year_one : Z := -62135596800.
Definition isZeroTime : bool := (modtime =? year_one) || (modtime =? 0).
Definition checkIfMatch : condResult :=
  let im := hr_Header r "if-match" in if String.eqb im "" then condNone else cond_of (listed (λ t, etagStrongMatch t etag) im).
Definition checkIfUnmodifiedSince : condResult :=
  let ius := hr_Header r "if-unmodified-since" in
  if String.eqb ius "" || isZeroTime then condNone else match parse_http_time ius with Some t => cond_of (modtime <=? t) | None => condNone end.
Definition checkIfNoneMatch : condResult :=
  let inm := hr_Header r "if-none-match" in if String.eqb inm "" then condNone else cond_of (negb (listed (λ t, etagWeakMatch t etag) inm)).
Definition checkIfModifiedSince : condResult :=
  let ims := hr_Header r "if-modified-since" in
  if negb is_read || String.eqb ims "" || isZeroTime then condNone
  else match parse_http_time ims with Some t => cond_of (negb (modtime <=? t)) | None => condNone end.
Definition checkIfRange : condResult :=
  let ir := hr_Header r "if-range" in
  if negb is_read || String.eqb ir "" then condNone
  else
    let t := (scanETag ir).1 in
    if negb (String.eqb t "") then cond_of (etagStrongMatch t etag)
    else if modtime =? year_one then condFalse
    else match parse_http_time ir with Some t => cond_of (t =? modtime) | None => condFalse end.
(** The status that ends the request, or the range to serve. *)
Definition checkPreconditions : Z + string :=
  let ch := match checkIfMatch with condNone => checkIfUnmodifiedSince | ch => ch end in
  match ch, checkIfNoneMatch, checkIfModifiedSince with
  | condFalse, _, _ => inl 412
  | _, condFalse, _ => inl (if is_read then 304 else 412)
  | _, condNone, condFalse => inl 304
  | _, _, _ =>
    let range := hr_Header r "range" in
    inr (if negb (String.eqb range "") then match checkIfRange with condFalse => "" | _ => range end else range)
  end.

Definition errInvalidRange : string := "invalid range".
Definition errNoOverlap : string := "invalid range: failed to overlap".
(** A range is its start and its length; [None] begins past the end. *)
Definition parse_range_spec (size : Z) (ra : string) : result (option (Z * Z)) :=
  guard_err (negb (ContainsAny (Z.eqb 45) ra)) errInvalidRange;;
  let '(start, stop) := Cut ra "-" in
  let start := TrimString start in let stop := TrimString stop in
  if String.eqb start "" then
    guard_err (String.eqb stop "" || HasPrefix stop "-") errInvalidRange;;
    match ParseInt stop with
    | NumOk i => guard_err (i <? 0) errInvalidRange;; let i := if size <? i then size else i in mret (Some (size - i, size - (size - i)))
    | _ => Err errInvalidRange
    end
  else match ParseInt start with
       | NumOk i =>
         guard_err (i <? 0) errInvalidRange;;
         if size <=? i then mret None
         else if String.eqb stop "" then mret (Some (i, size - i))
         else match ParseInt stop with
              | NumOk j => guard_err (j <? i) errInvalidRange;; let j := if size <=? j then size - 1 else j in mret (Some (i, j - i + 1))
              | _ => Err errInvalidRange
              end
       | _ => Err errInvalidRange
       end.
Definition parseRange (s : string) (size : Z) : result (list (Z * Z)) :=
  if String.eqb s "" then mret []
  else
    guard_err (negb (HasPrefix s "bytes=")) errInvalidRange;;
    specs ← mapM (parse_range_spec size) (List.filter (λ ra, negb (String.eqb ra "")) (TrimString <$> Split (TrimPrefix s "bytes=") (char 44)));
    let ranges := omap id specs in
    guard_err (existsb (λ o : option (Z * Z), match o with None => true | Some _ => false end) specs && bool_decide (ranges = [])) errNoOverlap;;
    mret ranges.
Definition sumRangesSize (l : list (Z * Z)) : Z := wrap64 (sum_list l.*2).
Definition contentRange (size : Z) (ra : Z * Z) : string := "bytes " +:+ Itoa ra.1 +:+ "-" +:+ Itoa (ra.1 + ra.2 - 1) +:+ "/" +:+ Itoa size.
Definition slice_of (content : string) (ra : Z * Z) : string := take_str (Z.to_nat ra.2) (drop_str (Z.to_nat ra.1) content).

Definition without (names : list string) (l : list (string * string)) : list (string * string) := List.filter (λ h, negb (contains names h.1)) l.
Definition ServeContent (headers : list (string * string)) (content : string) : Response :=
  let headers := headers ++ (if isZeroTime then [] else [("Last-Modified", http_time modtime)]) in
  let size := len content in
  let send status headers body := mkResponse status headers (if String.eqb (hr_Method r) "HEAD" then NoBody else body) in
  let whole := send 200 (headers ++ [("Content-Length", Itoa size)]) (Bytes content) in
  let refused e := mkResponse 416 (without ["Content-Type"; "cache-control"; "etag"; "Last-Modified"] headers ++
    (if String.eqb e errNoOverlap then [("Content-Range", "bytes */" +:+ Itoa size)] else []) ++ [("Content-Type", "text/plain; charset=utf-8")]) (Text e) in
  match checkPreconditions with
  | inl status =>
    let unmodified := without (if String.eqb etag "" then ["Content-Type"] else ["Content-Type"; "Last-Modified"]) headers in
    mkResponse status (if status =? 304 then unmodified else headers) NoBody
  | inr range =>
    match parseRange range size with
    | Err e => if String.eqb e errNoOverlap && (size =? 0) then whole else refused e
    | Ok ranges =>
      match (if size <? sumRangesSize ranges then [] else ranges) with
      | [] => whole
      | [ra] => send 206 (headers ++ [("Content-Range", contentRange size ra); ("Content-Length", Itoa ra.2)]) (Bytes (slice_of content ra))
      | ranges => send 206 (without ["Content-Type"] headers ++ [("Content-Type", "multipart/byteranges")])
          (Parts ((λ ra, (contentRange size ra, slice_of content ra)) <$> ranges))
      end
    end
  end.
End Serve.

(** ** Handlers *)

Section Http.
Context `{GoUnicode} `{GoURL} `{GoURLText} `{GoSniff} `{GoJsonDecoder} `{GoHttpTime} `{NostrCrypto} (cfg : HttpConfig).

Definition authorize (r : HttpRequest) (action : string) : result string :=
  match hc_Authorize cfg with Some f => f r action | None => Err "auth-required: authorization is required" end.
Definition isOwner (pubkey : string) : bool := match hc_IsOwner cfg with Some f => f pubkey | None => false end.
Definition validate_upload (r : HttpRequest) (sha : string) : result unit := match hc_ValidateUpload cfg with Some f => f r sha | None => mret tt end.

Definition typeForExtension (raw : string) : string :=
  match url_parse raw with
  | Some u =>
    let name := ToLower (path_Ext (u_path u)) in
    match List.find (λ te : string * string, String.eqb ("." +:+ te.2) name) extensions with Some te => te.1 | None => "application/octet-stream" end
  | None => "application/octet-stream"
  end.
Definition public_host (host : string) : result unit :=
  match hc_resolve cfg host with
  | Ok [] | Err _ => Err "invalid: origin hostname did not resolve"
  | Ok ips => guard_err (negb (forallb publicIP ips)) "invalid: origin resolves to a private address"
  end.
Definition validateMirrorURL (raw : string) : result unit :=
  match url_parse raw with
  | Some u =>
    guard_err (negb (String.eqb (u_scheme u) "https") || String.eqb (Hostname u) "") "invalid: only https urls can be mirrored";;
    public_host (Hostname u)
  | None => Err "invalid: only https urls can be mirrored"
  end.
Definition validatePathUploadURL (raw : string) : result unit :=
  match url_parse raw with
  | Some u =>
    guard_err (negb (contains ["http"; "https"] (u_scheme u)) || String.eqb (Hostname u) "" || u_user u || negb (String.eqb (u_fragment u) ""))
      "invalid: url must be an absolute http or https url";;
    public_host (Hostname u)
  | None => Err "invalid: url must be an absolute http or https url"
  end.

Definition origin (r : HttpRequest) : string := if String.eqb (hc_PublicURL cfg) "" then hr_Origin r else TrimRight (Z.eqb 47) (hc_PublicURL cfg).
Definition blobURL (r : HttpRequest) (b : Blob) : string := origin r +:+ "/" +:+ B_SHA256 b +:+ extensionSuffix (B_Type b).
Definition nip94Tags (r : HttpRequest) (b : Blob) : json :=
  JArr ((λ t : string * string, JArr [JStr t.1; JStr t.2]) <$>
    [("url", blobURL r b); ("m", B_Type b); ("x", B_SHA256 b); ("ox", B_SHA256 b); ("size", Itoa (B_Size b))]).
Definition descriptor (r : HttpRequest) (b : Blob) : json :=
  JObj [("nip94", nip94Tags r b); ("sha256", JStr (B_SHA256 b)); ("size", JNum (Itoa (B_Size b))); ("type", JStr (B_Type b));
        ("uploaded", JNum (Itoa (B_Uploaded b))); ("url", JStr (blobURL r b))].

(** [metadata]: one JSON value whose members are all known. *)
Record MetadataInput := mkMetadataInput { mi_hash : string; mi_name : string; mi_path : string; mi_purpose : string; mi_size : Z; mi_type : string }.
Definition metadata_field (m : MetadataInput) (kv : string * json) : option MetadataInput :=
  let '(key, v) := kv in
  if names key "hash" then (λ s, mkMetadataInput s (mi_name m) (mi_path m) (mi_purpose m) (mi_size m) (mi_type m)) <$> decode_string (mi_hash m) v
  else if names key "name" then (λ s, mkMetadataInput (mi_hash m) s (mi_path m) (mi_purpose m) (mi_size m) (mi_type m)) <$> decode_string (mi_name m) v
  else if names key "path" then (λ s, mkMetadataInput (mi_hash m) (mi_name m) s (mi_purpose m) (mi_size m) (mi_type m)) <$> decode_string (mi_path m) v
  else if names key "purpose" then (λ s, mkMetadataInput (mi_hash m) (mi_name m) (mi_path m) s (mi_size m) (mi_type m)) <$> decode_string (mi_purpose m) v
  else if names key "size" then (λ n, mkMetadataInput (mi_hash m) (mi_name m) (mi_path m) (mi_purpose m) n (mi_type m)) <$> decode_int (mi_size m) v
  else if names key "type" then (λ s, mkMetadataInput (mi_hash m) (mi_name m) (mi_path m) (mi_purpose m) (mi_size m) s) <$> decode_string (mi_type m) v
  else None.
Definition metadata_input (body : string) : result MetadataInput :=
  guard_err (16384 <? len body) "invalid: metadata body";;
  match json_value body with
  | Some (Some (j, rest)) =>
    match decode_struct metadata_field (mkMetadataInput "" "" "" "" 0 "") j, json_value rest with
    | Some input, Some None => mret input
    | _, _ => Err "invalid: metadata body"
    end
  | _ => Err "invalid: metadata body"
  end.
Definition metadata (r : HttpRequest) : IO Response :=
  or_fail (io_of (authorize r "upload")) (λ _, 401) (λ uploader,
  or_fail (io_of (metadata_input (hr_Body r))) (λ _, 400) (λ input,
  let hash := ToLower (TrimSpace (mi_hash input)) in
  or_fail (SetClaimMetadata uploader hash (mi_name input) (mi_path input) (mi_purpose input) (mi_type input) (mi_size input) (be_now (hc_env cfg))) statusFor (λ _,
  io_ret (writeJSON 200 (JObj [("hash", JStr hash); ("ok", JBool true)]))))).

(** What every upload through a door does with its bytes. *)
Definition put_bytes (validate : string → result unit) (content : string) (o : PutOptions) : IO (Blob * bool) :=
  io_get (λ d, putValidatedWithMetadata (hc_env cfg) (hc_temp cfg d) content o validate).

Definition upload (r : HttpRequest) : IO Response :=
  or_fail (io_of (authorize r "upload")) (λ _, 401) (λ pubkey,
  let claimed := ToLower (TrimSpace (hr_Header r "x-sha-256")) in
  or_fail (io_of (guard_err (negb (String.eqb claimed "") && negb (shaPattern claimed)) "invalid: X-SHA-256 must be lowercase hex")) (λ _, 400) (λ _,
  or_fail (io_of (claimMetadata (query_get r "filename") (query_get r "path"))) (λ _, 400) (λ np,
  or_fail (put_bytes (validate_upload r) (hr_Body r)
      (mkPut (contentType (hr_Header r "content-type")) pubkey claimed np.1 np.2 (query_get r "access") (query_get r "purpose") None)) statusFor (λ e,
  io_ret (writeJSON 200 (descriptor r e.1)))))).

Definition uploadHead (r : HttpRequest) : IO Response := io_get (λ d,
  let sha := ToLower (TrimSpace (hr_Header r "x-sha-256")) in
  if negb (shaPattern sha) then io_ret (fail 400 "invalid: X-SHA-256 must be lowercase hex")
  else
    let rawLength := TrimSpace (hr_Header r "x-content-length") in
    if String.eqb rawLength "" then io_ret (fail 411 "invalid: X-Content-Length is required")
    else match ParseInt rawLength with
         | NumOk length =>
           if length <? 0 then io_ret (fail 400 "invalid: X-Content-Length must be a nonnegative integer")
           else or_fail (io_of (authorize r "upload")) (λ _, 401) (λ pubkey,
             let typ := if String.eqb (hr_Header r "x-content-type") "" then hr_Header r "content-type" else hr_Header r "x-content-type" in
             let limits := currentLimits (be_limits (hc_env cfg)) in
             io_ret (
               if String.eqb (TrimSpace typ) "" then fail 400 "invalid: X-Content-Type is required"
               else if bool_decide (is_Some (lookup_blob (d_db d) sha)) && hasClaim (d_db d) sha pubkey then answer 200
               else if (0 <? MaxFileBytes limits) && (MaxFileBytes limits <? length) then fail 413 ErrFileTooLarge
               else if (0 <? UserStorageBytes limits) && (UserStorageBytes limits - quotaUsage (d_db d) pubkey <? length) then fail 403 ErrQuotaExceeded
               else answer 200))
         | _ => io_ret (fail 400 "invalid: X-Content-Length must be a nonnegative integer")
         end).

Definition delete (r : HttpRequest) (sha : string) : IO Response := io_get (λ d,
  or_fail (io_of (authorize r "delete")) (λ _, 401) (λ pubkey,
  match lookup_blob (d_db d) sha with
  | None => io_ret (fail 404 ErrNotFound)
  | Some _ =>
    if negb (hasClaim (d_db d) sha pubkey) && negb (isOwner pubkey) then io_ret (fail 403 "restricted: not the uploader")
    else if isOwner pubkey then or_fail (Delete sha (be_now (hc_env cfg))) (λ _, 500) (λ _, io_ret (answer 204))
    else run res <- io_try (DeleteForUploader sha pubkey (be_now (hc_env cfg)));
         io_ret (match res with
                 | Ok _ => answer 204
                 | Err e => if String.eqb e ErrNoRows then fail 404 ErrNotFound else fail 500 e
                 end)
  end)).

Definition content_headers (sha : string) (entry : Blob) : list (string * string) :=
  [("etag", quote sha); ("Content-Type", B_Type entry); ("x-content-type-options", "nosniff"); ("accept-ranges", "bytes"); ("content-security-policy", "default-src 'none'");
   ("cache-control", match hc_CanRead cfg with None => "public, max-age=31536000, immutable" | Some _ => "private, no-store" end)].
Definition read_blob (r : HttpRequest) (sha pubkey : string) (d : Disk) : Response :=
  match lookup_blob (d_db d) sha with
  | None => fail 404 ErrNotFound
  | Some entry =>
    if match hc_CanRead cfg with Some can => negb (can sha [pubkey]) | None => false end then fail 403 "restricted: read access denied"
    else if blocked (d_db d) sha then fail 403 ErrBlocked
    else match d_files d !! sha with
         | None => fail 404 ErrNotFound
         | Some content => ServeContent r (quote sha) (B_Uploaded entry) (content_headers sha entry) content
         end
  end.
Definition door_path (r : HttpRequest) : string := if HasPrefix (hr_Path r) "/nip96/" then TrimPrefix (hr_Path r) "/nip96" else hr_Path r.
Definition blob (r : HttpRequest) : IO Response :=
  match blob_path (door_path r) with
  | None => io_ret (fail 404 ErrNotFound)
  | Some sha =>
    if String.eqb (hr_Method r) "DELETE" then delete r sha
    else if negb (contains ["GET"; "HEAD"] (hr_Method r)) then io_ret (fail 405 "method not allowed")
    else match hc_CanRead cfg with
         | Some _ => or_fail (io_of (authorize r "get")) (λ _, 401) (λ pubkey, io_get (λ d, io_ret (read_blob r sha pubkey d)))
         | None => io_get (λ d, io_ret (read_blob r sha "" d))
         end
  end.

Definition list_blobs (r : HttpRequest) (pubkey : string) : IO Response := io_get (λ d,
  if negb (shaPattern pubkey) then io_ret (fail 400 "invalid: bad pubkey")
  else or_fail (io_of (authorize r "list")) (λ _, 401) (λ viewer,
    if negb (String.eqb viewer pubkey) && negb (isOwner viewer) then io_ret (fail 403 "restricted: cannot list another uploader's blobs")
    else or_fail (io_of (parseListLimit (query_get r "limit"))) (λ _, 400) (λ limit,
      io_ret (match ListPage (d_db d) pubkey limit (TrimSpace (query_get r "cursor")) with
              | Ok (entries, _) => writeJSON 200 (JArr (descriptor r <$> entries))
              | Err e => if HasSuffix e ErrNoRows then fail 400 "invalid: cursor does not identify a blob" else fail 500 e
              end)))).

(** [report] *)
Definition insert_report (rep : BlobReport) (db : BlobDB) : BlobDB * bool :=
  if existsb (λ o, String.eqb (bp_id o) (bp_id rep) || String.eqb (bp_reporter o) (bp_reporter rep) && String.eqb (bp_target_blob o) (bp_target_blob rep)) (reports db)
  then (db, false) else (upd_reports (λ l, l ++ [rep]) db, true).
Definition report_targets (db : BlobDB) (e : Event) : list (string * string) :=
  omap (λ tag : list string, match tag with
    | "x" :: sha :: _ => if shaPattern sha then (λ b, (sha, B_Uploader b)) <$> lookup_blob db sha else None
    | _ => None
    end) (etags e).
Fixpoint file_reports (e : Event) (i : nat) (targets : list (string * string)) (filed : Z) (db : BlobDB) : result (BlobDB * Z) :=
  match targets with
  | [] => mret (db, filed)
  | (sha, uploader) :: rest =>
    let id := ID e +:+ (if Nat.eqb i 0 then "" else "." +:+ Itoa (Z.of_nat i)) in
    let '(db', new) := insert_report (mkBlobReport id (PubKey e) uploader sha "blob" (Content e) (CreatedAt e)) db in
    if negb new then file_reports e (S i) rest filed db'
    else
      match hc_RecordReport cfg with Some f => f (PubKey e) sha (Content e) | None => mret tt end;;
      file_reports e (S i) rest (filed + 1) db'
  end.
Definition hour : Z := 3600 * 1000000000.
Definition report_event (reporter : string) (body : string) : result Event :=
  match json_value body with
  | Some (Some (j, _)) =>
    match (match j with JObj m => decode_members nil_event m | JNull => Some nil_event | _ => None end) with
    | Some e =>
      guard_err (negb (Kind e =? 1984) || negb (String.eqb (PubKey e) reporter)) "invalid: report must be a signed kind 1984 event";;
      (match Nostr.Validate e with Ok _ => mret tt | Err _ => Err "invalid: report is not a current signed kind 1984 event" end);;
      guard_err ((hour <? hc_nanos cfg - CreatedAt e * 1000000000) || (hour <? CreatedAt e * 1000000000 - hc_nanos cfg))
        "invalid: report is not a current signed kind 1984 event";;
      mret e
    | None => Err "invalid: report must be a signed kind 1984 event"
    end
  | _ => Err "invalid: report must be a signed kind 1984 event"
  end.
Definition report (r : HttpRequest) : IO Response := io_get (λ d,
  or_fail (io_of (authorize r "report")) (λ _, 401) (λ reporter,
  or_fail (io_of (report_event reporter (hr_Body r))) (λ _, 400) (λ e,
  match report_targets (d_db d) e with
  | [] => io_ret (fail 404 "not found: relay holds none of the reported blobs")
  | targets =>
    match file_reports e 0 targets 0 (d_db d) with
    | Err m => io_ret (fail 500 m)
    | Ok (db, filed) =>
      run _ <- commit_db (λ _, db);
      io_ret (writeJSON 200 (JObj [("filed", JNum (Itoa (if filed =? 0 then Z.of_nat (List.length targets) else filed))); ("ok", JBool true)]))
    end
  end))).

(** *** Remote sources *)

Definition success (status : Z) : bool := in_range 200 status 299.
Definition source_type (url header : string) : string :=
  let typ := contentType header in if String.eqb typ "application/octet-stream" then typeForExtension url else typ.
Definition stored_answer (r : HttpRequest) (e : Blob * bool) : Response := writeJSON (chooseStatus e.2 201) (descriptor r e.1).

(** [mirror] *)
Definition mirror_url (body : string) : option string :=
  match json_value body with
  | Some (Some (j, _)) =>
    match decode_struct (λ url (kv : string * json), if names kv.1 "url" then decode_string url kv.2 else Some url) "" j with
    | Some url => if String.eqb url "" then None else Some url
    | None => None
    end
  | _ => None
  end.
(** The URL asked for, the hash expected, the extension and the hints. *)
Definition mirror_reference (url : string) : result (string * string * string * list string * list string) :=
  if HasPrefix (ToLower url) "blossom:" then
    u ← ParseBlossomURI url; mret ("", bu_Hash u, bu_Extension u, bu_Servers u, bu_Authors u)
  else mret (url, BlobHashFromURL url, "", [], []).
Definition resolved_urls (pubkey hash extension : string) (authors : list string) : list string :=
  match hc_ResolveServers cfg with
  | Some resolve =>
    if String.eqb hash "" then []
    else
      let authors := match authors with [] => if String.eqb pubkey "" then [] else [pubkey] | l => l end in
      List.concat ((λ author, match resolve author with Ok servers => FallbackURLs servers hash extension | Err _ => [] end) <$> uniqueStrings authors)
  | None => []
  end.
Fixpoint mirror_from (r : HttpRequest) (pubkey hash : string) (last : option string) (candidates : list string) : IO Response :=
  match candidates with
  | [] => let e := default "error: no mirror origin available" last in io_ret (fail (statusFor e) e)
  | candidate :: rest =>
    match validateMirrorURL candidate with
    | Err e => mirror_from r pubkey hash (Some e) rest
    | Ok _ =>
      match hc_fetch cfg candidate with
      | Err e => mirror_from r pubkey hash (Some e) rest
      | Ok (status, header, content) =>
        if negb (success status) then mirror_from r pubkey hash (Some ("error: origin answered " +:+ Itoa status)) rest
        else
          run res <- io_try (put_bytes (validate_upload r) content (mkPut (source_type candidate header) pubkey hash "" "" "" "" None));
          match res with
          | Ok e => io_ret (stored_answer r e)
          | Err e => if String.eqb e ErrHashMismatch then mirror_from r pubkey hash (Some e) rest else io_ret (fail (statusFor e) e)
          end
      end
    end
  end.
Definition mirror (r : HttpRequest) : IO Response :=
  or_fail (io_of (authorize r "mirror")) (λ _, 401) (λ pubkey,
  match mirror_url (hr_Body r) with
  | None => io_ret (fail 400 "invalid: body needs a url")
  | Some url =>
    or_fail (io_of (mirror_reference url)) (λ _, 400) (λ ref,
    let '(url, hash, extension, servers, authors) := ref in
    let candidates := (if String.eqb url "" then [] else [url]) ++ FallbackURLs servers hash extension ++ resolved_urls pubkey hash extension authors in
    mirror_from r pubkey hash None (uniqueStrings candidates))
  end).

(** [pathUpload] *)
Definition maxPathUploadSources : Z := 8.
Definition validate_sources (urls : list string) : result unit := first_err (validatePathUploadURL <$> urls).
Fixpoint upload_from (r : HttpRequest) (pubkey hash : string) (mismatch : bool) (urls : list string) : IO Response :=
  match urls with
  | [] => io_ret (if mismatch then fail 409 ErrHashMismatch else fail 502 "error: no usable remote source")
  | url :: rest =>
    match hc_fetch cfg url with
    | Err _ => upload_from r pubkey hash mismatch rest
    | Ok (status, header, content) =>
      if negb (success status) then upload_from r pubkey hash mismatch rest
      else
        run res <- io_try (put_bytes (validate_upload r) content
          (mkPut (source_type url header) pubkey hash "" "" (query_get r "access") (query_get r "purpose") None));
        match res with
        | Ok e => io_ret (stored_answer r e)
        | Err e => if String.eqb e ErrHashMismatch then upload_from r pubkey hash true rest else io_ret (fail (statusFor e) e)
        end
    end
  end.
Definition pathUpload (r : HttpRequest) (hash : string) : IO Response :=
  or_fail (io_of (authorize r "upload")) (λ _, 401) (λ pubkey,
  match hr_Query r "url" with
  | [] =>
    or_fail (put_bytes (validate_upload r) (hr_Body r)
        (mkPut (contentType (hr_Header r "content-type")) pubkey hash (query_get r "filename") (query_get r "path") (query_get r "access") (query_get r "purpose") None)) statusFor (λ e,
    io_ret (stored_answer r e))
  | urls =>
    if negb (String.eqb (hr_Body r) "") then io_ret (fail 400 "invalid: remote upload body must be empty")
    else if maxPathUploadSources <? Z.of_nat (List.length urls) then io_ret (fail 400 "invalid: at most 8 remote sources per upload")
    else or_fail (io_of (validate_sources urls)) (λ _, 400) (λ _, upload_from r pubkey hash false urls)
  end).

(** *** NIP-96 *)

(** [Request.FormValue]: a query parameter comes before a part of the form. *)
Definition form_value (r : HttpRequest) (name part : string) : string := match hr_Query r name with v :: _ => v | [] => part end.
Definition nip96List (r : HttpRequest) (pubkey : string) : IO Response := io_get (λ d,
  let count := parsePageCount (query_get r "count") in let page := parsePage (query_get r "page") in
  let total := Z.of_nat (size (filter (λ kc : (string * string) * Claim, kc.1.2 = pubkey) (claims (d_db d)))) in
  let files := take (Z.to_nat count) (drop (Z.to_nat (wrap64 (page * count))) (sort_by blob_leb (claimed_blobs (d_db d) pubkey))) in
  let file b := JObj [("content", JStr ""); ("created_at", JNum (Itoa (B_Uploaded b))); ("tags", nip94Tags r b)] in
  io_ret (writeJSON 200 (JObj [("count", JNum (Itoa count)); ("files", JArr (file <$> files)); ("page", JNum (Itoa page)); ("total", JNum (Itoa total))]))).
Definition nip96Upload (r : HttpRequest) (pubkey : string) : IO Response :=
  match hr_Form r with
  | None => io_ret (fail 400 "invalid: body is not multipart form data")
  | Some form =>
    match fd_file form with
    | None => io_ret (fail 400 "invalid: form needs a file field")
    | Some (content, header) =>
      let typ := contentType header in
      let typ := if String.eqb typ "application/octet-stream" then contentType (form_value r "content_type" (fd_content_type form)) else typ in
      or_fail (put_bytes (λ _, mret tt) content (mkPut typ pubkey "" "" "" "" "" None)) statusFor (λ e,
      let event := JObj [("content", JStr (form_value r "caption" (fd_caption form))); ("tags", nip94Tags r e.1)] in
      io_ret (writeJSON (chooseStatus e.2 201)
        (JObj [("message", JStr "Upload successful."); ("nip94_event", event); ("status", JStr "success"); ("url", JStr (blobURL r e.1))])))
    end
  end.
Definition nip96 (r : HttpRequest) : IO Response :=
  if String.eqb (hr_Method r) "GET" then or_fail (io_of (authorize r "list")) (λ _, 401) (nip96List r)
  else if negb (String.eqb (hr_Method r) "POST") then io_ret (fail 405 "method not allowed")
  else or_fail (io_of (authorize r "upload")) (λ _, 401) (nip96Upload r).
Definition nip96Info (r : HttpRequest) : json :=
  let plan := JObj [("file_expiration", JArr [JNum "0"; JNum "0"]); ("is_nip98_required", JBool true); ("max_byte_size", JNum "0");
                    ("media_transformations", JObj []); ("name", JStr "Self-hosted")] in
  JObj [("api_url", JStr (origin r +:+ "/nip96")); ("content_types", JArr (JStr <$> contentTypes)); ("download_url", JStr (origin r));
        ("plans", JObj [("self-hosted", plan)]); ("supported_nips", JArr [JNum "94"; JNum "98"])].

(** *** Dispatch *)

Inductive Route :=
| RPreflight | RInfo | RUploadHead | RUpload | RMirror | RMetadata | RChunk (hash : string) | RPathUpload (hash : string) | RReport
| RList (pubkey : string) | RNip96 | RBlob.
Definition route (r : HttpRequest) : Route :=
  let path := hr_Path r in let meth := String.eqb (hr_Method r) in
  if meth "OPTIONS" then RPreflight
  else if String.eqb path "/.well-known/nostr/nip96.json" then RInfo
  else if String.eqb path "/upload" && meth "HEAD" then RUploadHead
  else if String.eqb path "/upload" && meth "PUT" then RUpload
  else if String.eqb path "/mirror" && meth "PUT" then RMirror
  else if String.eqb path "/files/metadata" && meth "POST" then RMetadata
  else
    let rest :=
      if String.eqb path "/report" && meth "PUT" then RReport
      else if HasPrefix path "/list/" && meth "GET" then RList (TrimPrefix path "/list/")
      else if String.eqb path "/nip96" then RNip96
      else RBlob in
    match blob_path path with
    | Some hash => if meth "PATCH" then RChunk hash else if meth "PUT" then RPathUpload hash else rest
    | None => rest
    end.

Definition preflight (r : HttpRequest) : Response :=
  mkResponse 204 (match blob_path (hr_Path r) with Some _ => [("Allow", "GET, HEAD, PUT, PATCH, DELETE, OPTIONS")] | None => [] end) NoBody.
(** [serveHTTP] past the headers every answer carries; a chunk is a request of
    several steps, [Multipart.begin_multipart] and what follows it. *)
Definition serve (r : HttpRequest) : option (IO Response) :=
  match route r with
  | RPreflight => Some (io_ret (preflight r))
  | RInfo => Some (io_ret (writeJSON 200 (nip96Info r)))
  | RUploadHead => Some (uploadHead r)
  | RUpload => Some (upload r)
  | RMirror => Some (mirror r)
  | RMetadata => Some (metadata r)
  | RChunk _ => None
  | RPathUpload hash => Some (pathUpload r hash)
  | RReport => Some (report r)
  | RList pubkey => Some (list_blobs r pubkey)
  | RNip96 => Some (nip96 r)
  | RBlob => Some (blob r)
  end.
End Http.
