(* ===== verification/BlobHttpProps.v ===== *)
(** * internal/blob: what the HTTP doors let through

    One traversal of the handlers serves several contracts: a request is a
    run of the operations of the store, only the read door yields bytes and
    only to those who may read them, rows and claims go only to those who may
    remove them, and the bytes of remote sources come from public hosts. *)

From S2P Require Import Prelude GoLib GoCodec GoLemmas GoStrings Nostr NostrProps Filter Policy Sites Agents GrantRequests Blob Multipart BlobProps BlobRuns BlobSafe Blossom BlobHttp.

(** The bytes an answer carries. *)
Definition delivered (resp : Response) : list string := match rs_Body resp with Bytes content => [content] | Parts l => l.*2 | _ => [] end.
Definition plain (resp : Response) : Prop := delivered resp = [].

(** ** Ranges *)

Definition inside (size : Z) (ra : Z * Z) : Prop := 0 ≤ ra.1 ∧ 0 ≤ ra.2 ∧ ra.1 + ra.2 ≤ size.

Lemma parse_range_spec_inside size ra o : 0 ≤ size → parse_range_spec size ra = Ok (Some o) → inside size o.
Proof.
  intros Hs. unfold parse_range_spec. intros [_ E]%guard_bind_Ok. destruct (Cut ra "-") as [start stop]. cbv zeta in E.
  destruct (String.eqb (TrimString start) "").
  - apply guard_bind_Ok in E as [_ E]. destruct (ParseInt (TrimString stop)) as [i| |]; [|done..]. apply guard_bind_Ok in E as [Hi%Z.ltb_ge E].
    injection E as <-. unfold inside. cbn. destruct (Z.ltb_spec size i); lia.
  - destruct (ParseInt (TrimString start)) as [i| |]; [|done..]. apply guard_bind_Ok in E as [Hi%Z.ltb_ge E]. destruct (Z.leb_spec size i); [done|].
    destruct (String.eqb (TrimString stop) ""); [injection E as <-; unfold inside; cbn; lia|]. destruct (ParseInt (TrimString stop)) as [j| |]; [|done..].
    apply guard_bind_Ok in E as [Hj%Z.ltb_ge E]. injection E as <-. unfold inside. cbn. destruct (Z.leb_spec size j); lia.
Qed.

Lemma mapM_Ok {A B} (f : A → result B) l k : mapM f l = Ok k → Forall2 (λ a b, f a = Ok b) l k.
Proof.
  revert k. induction l as [|a l IH]; intros k; cbn; [intros [= <-]; constructor|]. intros (b & Hb & (k' & Hk & [= <-])%result_bind_Ok)%result_bind_Ok.
  constructor; [done|by apply IH].
Qed.

Lemma parseRange_inside s size ranges : 0 ≤ size → parseRange s size = Ok ranges → Forall (inside size) ranges.
Proof.
  intros Hs. unfold parseRange. destruct (String.eqb s ""); [intros [= <-]; constructor|]. intros [_ E]%guard_bind_Ok.
  apply result_bind_Ok in E as (specs & Hm%mapM_Ok & E). cbv zeta in E. apply guard_bind_Ok in E as [_ [= <-]].
  apply Forall_forall. intros ra (o & Ho & Eo)%list_elem_of_omap. cbn in Eo. subst o. destruct (list_elem_of_lookup_1 _ _ Ho) as [i Hi].
  destruct (Forall2_lookup_r _ _ _ _ _ Hm Hi) as (x & _ & Hx). by eapply parse_range_spec_inside.
Qed.

(** What an answer carries of a file: all of it, the range it names, or the
    ranges its parts name. *)
Definition carries (resp : Response) (file : string) : Prop :=
  match rs_Body resp with
  | Bytes content => rs_Status resp = 200 ∧ content = file ∨
      rs_Status resp = 206 ∧ ∃ ra, inside (len file) ra ∧ ("Content-Range", contentRange (len file) ra) ∈ rs_Headers resp ∧ content = slice_of file ra
  | Parts l => rs_Status resp = 206 ∧ Forall (λ p, ∃ ra, inside (len file) ra ∧ p = (contentRange (len file) ra, slice_of file ra)) l
  | _ => True
  end.

Lemma ServeContent_carries `{GoHttpTime} r etag modtime headers content :
  let resp := ServeContent r etag modtime headers content in carries resp content ∧ (delivered resp ≠ [] → hr_Method r ≠ "HEAD").
Proof.
  cbv zeta. unfold ServeContent. cbv zeta. set (hs := headers ++ _).
  assert (∀ status h body, (hr_Method r ≠ "HEAD" → carries (mkResponse status h body) content) →
    carries (mkResponse status h (if String.eqb (hr_Method r) "HEAD" then NoBody else body)) content ∧
    (delivered (mkResponse status h (if String.eqb (hr_Method r) "HEAD" then NoBody else body)) ≠ [] → hr_Method r ≠ "HEAD")) as Hsend.
  { intros status h body Hb. destruct (String.eqb_spec (hr_Method r) "HEAD"); [done|]. split; [by apply Hb|done]. }
  assert (∀ status h, carries (mkResponse status h NoBody) content ∧ (delivered (mkResponse status h NoBody) ≠ [] → hr_Method r ≠ "HEAD")) as Hnone by done.
  destruct (checkPreconditions r etag modtime) as [status|range]; [apply Hnone|].
  assert (0 ≤ len content) as Hl by (unfold len; lia). destruct (parseRange range (len content)) as [ranges|e] eqn:Ep.
  - apply parseRange_inside in Ep; [|done]. assert (Forall (inside (len content)) (if len content <? sumRangesSize ranges then [] else ranges)) as Hr by (destruct (len content <? sumRangesSize ranges); [constructor|exact Ep]).
    revert Hr. generalize (if len content <? sumRangesSize ranges then [] else ranges). intros l Hr. destruct l as [|ra [|rb l]].
    + apply Hsend. intros _. by left.
    + apply Hsend. intros _. right. split; [done|]. exists ra. inversion Hr; subst. split; [done|]. split; [|done]. cbn. apply elem_of_app. right. by left.
    + apply Hsend. intros _. split; [done|]. apply Forall_fmap. eapply Forall_impl; [exact Hr|]. intros x Hx. by exists x.
  - destruct (String.eqb e errNoOverlap && (len content =? 0)); [apply Hsend; intros _; by left|]. done.
Qed.

Lemma length_TrimRight cut s : (String.length (TrimRight cut s) <= String.length s)%nat.
Proof.
  induction s as [|a s IH]; [done|]. cbn [TrimRight]. destruct (TrimRight cut s); [destruct (cut (byte_of a)); cbn; lia|]. cbn in *. lia.
Qed.

Lemma length_TrimString s : (String.length (TrimString s) <= String.length s)%nat.
Proof. unfold TrimString, Trim. etransitivity; [apply length_TrimRight|apply length_TrimLeft]. Qed.

Lemma scanETag_shorter s etag remain : scanETag s = (etag, remain) → etag ≠ "" → (String.length remain < String.length s)%nat.
Proof.
  unfold scanETag. cbv zeta. pose proof (length_TrimString s) as Hs. set (t := TrimString s) in *. set (start := if HasPrefix t "W/" then _ else _).
  destruct (drop_str start t) as [|q r] eqn:Ed; [by intros [= <- <-]|]. destruct (byte_of q =? 34); [|by intros [= <- <-]].
  destruct (etag_end r) as [n|]; [|by intros [= <- <-]]. intros [= <- <-] _. apply (f_equal String.length) in Ed. rewrite length_drop_str in Ed |- *. cbn in Ed. lia.
Qed.

(** The rounds [listed] allows are enough. *)
Lemma listed_enough matches s fuel : (String.length s < fuel)%nat → match_tags fuel matches s = listed matches s.
Proof.
  unfold listed. assert (∀ n m s, (String.length s < n)%nat → (String.length s < m)%nat → match_tags n matches s = match_tags m matches s) as Hm; [|intros; apply Hm; lia].
  clear. induction n as [|n IH]; intros m s Hn Hm; [lia|]. destruct m as [|m]; [lia|]. cbn [match_tags]. pose proof (length_TrimString s) as Ht.
  destruct (TrimString s) as [|a r]; [done|]. cbn [String.length] in Ht. destruct (byte_of a =? 44); [apply IH; lia|]. destruct (byte_of a =? 42); [done|].
  destruct (scanETag (String a r)) as [etag remain] eqn:Es. destruct (String.eqb_spec etag "") as [|Hne]; [done|].
  pose proof (scanETag_shorter _ _ _ Es Hne) as Hs. cbn [String.length] in Hs. by rewrite (IH m) by lia.
Qed.

(** ** The traversal *)

Section Doors.
Context `{GoUnicode} `{GoURL} `{GoURLText} `{GoSniff} `{GoJsonDecoder} `{GoHttpTime} `{NostrCrypto} (cfg : HttpConfig) (r : HttpRequest).
(** [C] holds on every disk left, [G] of the disk of an operation, [E] where
    the request starts, [R] of the answer. *)
Context (C G E : Disk → Prop) (R : Response → Disk → Prop).
Context (Hstart : ∀ d, E d → G d) (Hplain : ∀ resp d, plain resp → G d → R resp d).
Context (Hput : ∀ validate content o, safe C G G (put_bytes cfg validate content o) (λ _, G)).
Context (Hmeta : ∀ u sha n p pu t s now, safe C G G (SetClaimMetadata u sha n p pu t s now) (λ _, G)).
Context (Hreport : ∀ f, safe C G G (commit_db (upd_reports f)) (λ _, G)).
Context (Hread : ∀ sha pubkey d, blob_path (door_path r) = Some sha → hr_Method r ∈ ["GET"; "HEAD"] →
  match hc_CanRead cfg with Some _ => authorize cfg r "get" = Ok pubkey | None => True end → G d → R (read_blob cfg r sha pubkey d) d).
Context (Hdelete : ∀ sha, blob_path (door_path r) = Some sha → hr_Method r = "DELETE" → safe C G E (delete cfg r sha) R).
Notation door m := (safe C G G m R).

Lemma door_plain resp : plain resp → door (io_ret resp).
Proof. intros Hp. apply safe_ret. auto. Qed.

Lemma door_fail {A} (m : IO A) status k : safe C G G m (λ _, G) → (∀ a, door (k a)) → door (or_fail m status k).
Proof.
  intros Hm Hk. eapply safe_bind; [by apply safe_try|]. intros [a|e]; [apply Hk|by apply door_plain].
Qed.

Lemma check_from {A} (P : Disk → Prop) (m : result A) status k :
  (∀ d, P d → G d) → (∀ a, m = Ok a → safe C G P (k a) R) → safe C G P (or_fail (io_of m) status k) R.
Proof.
  intros HP Hk. eapply safe_bind; [apply (safe_try C P); apply (safe_of C P P m (λ x d, m = Ok x ∧ P d)); [done|by intros ? ?]|].
  intros [x|e]; [|apply safe_ret; intros d Hd; apply Hplain; [done|auto]]. intros d [Hm Hd]. by apply (Hk x Hm).
Qed.

Lemma door_check {A} (m : result A) status k : (∀ a, m = Ok a → door (k a)) → door (or_fail (io_of m) status k).
Proof. by apply check_from. Qed.

Lemma door_get f : (∀ d0, G d0 → door (f d0)) → door (io_get f).
Proof. intros Hf. apply safe_get. intros d0 HG. eapply safe_conseq; [by apply Hf|by intros d [-> _]|done]. Qed.

Lemma door_upload : door (upload cfg r).
Proof. unfold upload. do 3 (apply door_check; intros ? _). apply door_fail; [apply Hput|]. intros e. by apply door_plain. Qed.

Lemma door_head : door (uploadHead cfg r).
Proof.
  apply door_get. intros d0 _. cbv zeta. destruct (negb _); [by apply door_plain|]. destruct (String.eqb _ ""); [by apply door_plain|].
  destruct (ParseInt _) as [n| |]; [|by apply door_plain..]. destruct (n <? 0); [by apply door_plain|].
  apply door_check. intros pk _. cbv zeta. apply door_plain. by repeat case_match.
Qed.

Lemma door_metadata : door (metadata cfg r).
Proof. unfold metadata. do 2 (apply door_check; intros ? _). cbv zeta. apply door_fail; [apply Hmeta|]. intros e. by apply door_plain. Qed.

Lemma door_mirror_from pubkey hash last candidates : door (mirror_from cfg r pubkey hash last candidates).
Proof.
  revert last. induction candidates as [|c l IH]; intros last; cbn; [by apply door_plain|].
  destruct (validateMirrorURL cfg c); [|apply IH]. destruct (hc_fetch cfg c) as [[[status header] content]|e]; [|apply IH].
  destruct (negb (success status)); [apply IH|]. eapply safe_bind; [apply safe_try, Hput|].
  intros [e|e]; [by apply door_plain|]. destruct (String.eqb e ErrHashMismatch); [apply IH|by apply door_plain].
Qed.

Lemma door_mirror : door (mirror cfg r).
Proof.
  apply door_check. intros pk _. destruct (mirror_url _) as [url|]; [|by apply door_plain]. apply door_check.
  intros [[[[u h] e] s] a] _. apply door_mirror_from.
Qed.

Lemma door_upload_from pubkey hash mismatch urls : door (upload_from cfg r pubkey hash mismatch urls).
Proof.
  revert mismatch. induction urls as [|c l IH]; intros mismatch; cbn; [apply door_plain; by destruct mismatch|].
  destruct (hc_fetch cfg c) as [[[status header] content]|e]; [|apply IH].
  destruct (negb (success status)); [apply IH|]. eapply safe_bind; [apply safe_try, Hput|].
  intros [e|e]; [by apply door_plain|]. destruct (String.eqb e ErrHashMismatch); [apply IH|by apply door_plain].
Qed.

Lemma door_path_upload hash : door (pathUpload cfg r hash).
Proof.
  apply door_check. intros pk _. destruct (hr_Query r "url") as [|u l] eqn:Eu.
  - apply door_fail; [apply Hput|]. intros e. by apply door_plain.
  - cbv zeta. destruct (negb _); [by apply door_plain|]. destruct (Z.ltb maxPathUploadSources (Z.of_nat (List.length (u :: l)))); [by apply door_plain|]. apply door_check. intros ? ?. apply door_upload_from.
Qed.

Lemma door_list pubkey : door (list_blobs cfg r pubkey).
Proof.
  apply door_get. intros d0 _. destruct (negb _); [by apply door_plain|]. apply door_check. intros viewer _. destruct (_ && _); [by apply door_plain|].
  apply door_check. intros limit _. apply door_plain. by repeat case_match.
Qed.

Lemma door_nip96 : door (nip96 cfg r).
Proof.
  unfold nip96. destruct (String.eqb _ "GET").
  - apply door_check. intros pk _. apply door_get. intros d0 _. by apply door_plain.
  - destruct (negb _); [by apply door_plain|]. apply door_check. intros pk _. unfold nip96Upload. destruct (hr_Form r) as [form|]; [|by apply door_plain].
    destruct (fd_file form) as [[content header]|]; [|by apply door_plain]. apply door_fail; [apply Hput|]. intros e. by apply door_plain.
Qed.

Lemma file_reports_only e i targets filed db db' n :
  file_reports cfg e i targets filed db = Ok (db', n) → db' = upd_reports (λ _, reports db') db.
Proof.
  revert i filed db. induction targets as [|[sha up] l IH]; intros i filed db; cbn; [intros [= <- _]; by destruct db|].
  set (rep := mkBlobReport _ _ _ _ _ _ _). unfold insert_report. destruct (existsb _ (reports db)); cbn; [by apply IH|].
  intros Hk. apply result_bind_Ok in Hk as ([] & _ & Hk). rewrite (IH _ _ _ Hk). by destruct db.
Qed.

Lemma door_report : door (report cfg r).
Proof.
  apply safe_get. intros d0 HG0. assert (∀ d, d = d0 ∧ G d → G d) as Hd0 by tauto. apply check_from; [done|]. intros reporter _. apply check_from; [done|]. intros e _.
  assert (∀ resp, plain resp → safe C G (λ d, d = d0 ∧ G d) (io_ret resp) R) as Hret by (intros resp Hp; apply safe_ret; intros d [_ ?]; by apply Hplain).
  destruct (report_targets (d_db d0) e) as [|t ts]; [by apply Hret|]. cbv zeta. set (targets := t :: ts).
  destruct (file_reports cfg e 0 targets 0 (d_db d0)) as [[db n]|m] eqn:Ef; [|by apply Hret]. apply file_reports_only in Ef.
  eapply (safe_bind _ _ _ _ _ (λ _ : unit, G)); [|intros u; by apply door_plain]. intros d [-> HG] l d' res Hrun. apply (Hreport (λ _, reports db) d0 HG l d' res).
  rewrite <-Hrun. unfold commit_db, commit, on_db. by rewrite <-Ef.
Qed.

Lemma door_blob : safe C G E (blob cfg r) R.
Proof.
  unfold blob. cbv zeta. assert (∀ m, door m → safe C G E m R) as Hdoor by (intros m Hm; by eapply safe_conseq).
  destruct (blob_path (door_path r)) as [sha|] eqn:Ep; [|by apply Hdoor, door_plain].
  destruct (String.eqb_spec (hr_Method r) "DELETE") as [Hm|Hm]; [by apply Hdelete|]. apply Hdoor. destruct (negb _) eqn:Ec; [by apply door_plain|].
  apply negb_false_iff, contains_spec in Ec. pose proof (λ pubkey d, Hread sha pubkey d eq_refl Ec) as Hr. destruct (hc_CanRead cfg).
  - apply door_check. intros pk Hpk. apply safe_get. intros d0 HG. apply safe_ret. intros d [-> _]. by apply Hr.
  - apply safe_get. intros d0 HG. apply safe_ret. intros d [-> _]. by apply Hr.
Qed.

Lemma serve_safe m : serve cfg r = Some m → safe C G E m R.
Proof.
  assert (∀ m, door m → safe C G E m R) as Hdoor by (intros m' Hm; by eapply safe_conseq).
  unfold serve. destruct (route r); intros [= <-]; [apply Hdoor..|apply door_blob].
  - by apply door_plain.
  - by apply door_plain.
  - apply door_head.
  - apply door_upload.
  - apply door_mirror.
  - apply door_metadata.
  - apply door_path_upload.
  - apply door_report.
  - apply door_list.
  - apply door_nip96.
Qed.
End Doors.

(** ** A request is a run of the store *)

Section Runs.
Context {Tdy : Tidy} `{GoUnicode} `{GoURL} `{GoURLText} `{GoSniff} `{GoMime} `{GoJsonDecoder} `{GoHttpTime} `{NostrCrypto} (P : Limits → Prop) (cfg : HttpConfig).
Context (HP : P (be_limits (hc_env cfg))) (Htemp : ∀ d, fresh_temp (hc_temp cfg d) d = true) (ss : Sessions) (ts : list Thread) (ps : list Removal).
Definition running (d : Disk) : Prop := reachable P (mkRun d ss ts ps).
Notation stays m := (safe (crashed P) running running m (λ _, running)).

Lemma stays_op {A} (m : IO A) (Q : Disk → Prop) :
  (∀ d, Q d → running d ∧ op P (mkRun d ss ts ps) (alone m ss ts)) → safe (crashed P) running Q m (λ _, running).
Proof.
  intros Hop d HQ l d' res E. destruct (Hop d HQ) as [HG Ho].
  assert (alone m ss ts d = (l, d', Ok (ss, ts))) as Ea by (unfold alone, io_bind, io_try; rewrite E; cbn; by rewrite app_nil_r).
  assert (running d') as HG' by exact (run_op P _ _ l d' ss ts HG Ho Ea). split; [|by destruct res].
  apply Forall_forall. intros d'' Hin. exact (crash_op P _ _ l d' _ d'' HG Ho Ea Hin).
Qed.

Lemma stays_put validate content o : stays (put_bytes cfg validate content o).
Proof. apply safe_get. intros d0 _. apply stays_op. intros d [-> HG]. split; [done|]. by constructor. Qed.

Lemma stays_meta u sha n p pu t s now : stays (SetClaimMetadata u sha n p pu t s now).
Proof. apply stays_op. intros d HG. split; [done|]. constructor. Qed.

Lemma stays_report f : stays (commit_db (upd_reports f)).
Proof. apply stays_op. intros d HG. split; [done|]. apply op_report. Qed.

(** Deletions and blocks whose statements come one after the other. *)
Lemma stays_next p ps' d d' : reachable P (mkRun d ss ts (p :: ps)) → may_remove d p → next_pending p ps d = ([d'], d', Ok ps') → reachable P (mkRun d' ss ts ps').
Proof. intros Hr Hm E. exact (run_unlocked P _ _ [d'] d' ps' Hr (un_next (mkRun d ss ts (p :: ps)) p ps (reflexivity _) Hm) E). Qed.

Lemma stays_Delete sha now : stays (Delete sha now).
Proof.
  unfold Delete. destruct (shaPattern sha) eqn:Hs; cbn [negb]; [|by apply safe_fail].
  apply (safe_bind _ _ _ _ _ (λ _ d, reachable P (mkRun d ss ts (ToRemove sha :: ps)) ∧ blobs (d_db d) !! sha = None)).
  - apply safe_commit. intros d HG. match goal with |- crashed P ?x ∧ _ => assert (reachable P (mkRun x ss ts (ToRemove sha :: ps))) as Hr end.
    { refine (run_unlocked P _ (begin_delete sha now ps) _ _ _ HG (un_delete _ sha now) _). unfold begin_delete. rewrite Hs. reflexivity. }
    split; [exact (crash_idle P _ Hr)|]. split; [exact Hr|]. apply lookup_delete_eq.
  - intros ?. apply safe_commit. intros d [Hr Hn]. assert (running (on_files (base.delete sha) d)) as HG by (eapply stays_next; [exact Hr|by intros _|reflexivity]).
    split; [exact (crash_idle P _ HG)|done].
Qed.

Lemma released_row sha u now db db' : release_claim sha u now db = Ok (db', true) → blobs db' !! sha = None.
Proof.
  unfold release_claim. destruct (claims db !! (sha, u)); [|done]. cbv zeta. destruct (Nat.eqb _ 0); [|done]. intros [= <-]. apply lookup_delete_eq.
Qed.

Lemma stays_DeleteForUploader sha u now : stays (DeleteForUploader sha u now).
Proof.
  unfold DeleteForUploader. destruct (shaPattern sha) eqn:Hs; cbn [negb]; [|by apply safe_fail].
  apply (safe_bind _ _ _ _ _ (λ removed d, reachable P (mkRun d ss ts (if removed : bool then ToRemove sha :: ps else ps)) ∧ (removed = true → blobs (d_db d) !! sha = None))).
  - apply safe_get. intros d0 HG0. destruct (release_claim sha u now (d_db d0)) as [[db removed]|e] eqn:E; [|apply safe_fail; by intros d [-> _]].
    apply (safe_bind _ _ _ _ _ (λ _ d, d = on_db (λ _, db) d0)).
    + apply safe_commit. intros d [-> _]. split; [|done]. refine (crash_idle P _ (run_unlocked P _ (begin_release sha u now ps) _ _ (if removed then ToRemove sha :: ps else ps) HG0 (un_release _ sha u now) _)).
      unfold begin_release, Release_tx, io_try, io_get, io_bind. rewrite Hs. cbn. rewrite E. by destruct removed.
    + intros ?. apply safe_ret. intros d ->. split; [|intros ->; by eapply released_row].
      refine (run_unlocked P _ (begin_release sha u now ps) _ _ (if removed then ToRemove sha :: ps else ps) HG0 (un_release _ sha u now) _).
      unfold begin_release, Release_tx, io_try, io_get, io_bind. rewrite Hs. cbn. rewrite E. by destruct removed.
  - intros [|]; [|by apply safe_ret; intros d [? _]]. apply safe_commit. intros d [Hr Hn].
    assert (running (on_files (base.delete sha) d)) as HG by (eapply stays_next; [exact Hr|by intros _; apply Hn|reflexivity]). split; [exact (crash_idle P _ HG)|done].
Qed.

Lemma stays_Block sha reason now : stays (Block sha reason now).
Proof.
  unfold Block. destruct (shaPattern sha) eqn:Hs; cbn [negb]; [|by apply safe_fail].
  apply (safe_bind _ _ _ _ _ (λ _ d, reachable P (mkRun d ss ts (ToEntomb sha now :: ps)))).
  { apply safe_commit. intros d HG. match goal with |- crashed P ?x ∧ _ => assert (reachable P (mkRun x ss ts (ToEntomb sha now :: ps))) as Hr; [|exact (conj (crash_idle P _ Hr) Hr)] end.
    refine (run_unlocked P _ (begin_block sha reason now ps) _ _ _ HG (un_block _ sha reason now) _). unfold begin_block. rewrite Hs. reflexivity. }
  intros ?. apply (safe_bind _ _ _ _ _ (λ _ d, reachable P (mkRun d ss ts (ToUnlist sha :: ps)))).
  { apply safe_commit. intros d HG. match goal with |- crashed P ?x ∧ _ => assert (reachable P (mkRun x ss ts (ToUnlist sha :: ps))) as Hr; [|exact (conj (crash_idle P _ Hr) Hr)] end.
    eapply stays_next; [exact HG|done|reflexivity]. }
  intros ?. apply (safe_bind _ _ _ _ _ (λ _ d, reachable P (mkRun d ss ts (ToRemove sha :: ps)) ∧ blobs (d_db d) !! sha = None)).
  { apply safe_commit. intros d HG. match goal with |- crashed P ?x ∧ _ => assert (reachable P (mkRun x ss ts (ToRemove sha :: ps))) as Hr by (eapply stays_next; [exact HG|done|reflexivity]) end.
    split; [exact (crash_idle P _ Hr)|]. split; [exact Hr|]. apply lookup_delete_eq. }
  intros ?. apply safe_commit. intros d [Hr Hn]. assert (running (on_files (base.delete sha) d)) as HG by (eapply stays_next; [exact Hr|by intros _|reflexivity]).
  split; [exact (crash_idle P _ HG)|done].
Qed.

(** [delete], whatever is true of the disk it ends in. *)
Lemma delete_safe (C G E : Disk → Prop) (R : Response → Disk → Prop) r sha :
  (∀ d, E d → G d) → (∀ resp d, plain resp → G d → R resp d) →
  (∀ pk, authorize cfg r "delete" = Ok pk → isOwner cfg pk = true → safe C G E (Delete sha (be_now (hc_env cfg))) (λ _ d, ∀ resp, plain resp → R resp d)) →
  (∀ pk, authorize cfg r "delete" = Ok pk →
     safe C G (λ d, E d ∧ hasClaim (d_db d) sha pk = true) (DeleteForUploader sha pk (be_now (hc_env cfg))) (λ _ d, ∀ resp, plain resp → R resp d)) →
  safe C G E (delete cfg r sha) R.
Proof.
  intros HE HR Hown Hrel. apply safe_get. intros d0 HE0. apply check_from; [done|by intros d [_ ?]; apply HE|]. intros pk Hpk.
  assert (∀ resp, plain resp → safe C G (λ d, d = d0 ∧ E d) (io_ret resp) R) as Hret by (intros resp Hp; apply safe_ret; intros d [_ ?]; by apply HR, HE).
  destruct (lookup_blob (d_db d0) sha); [|by apply Hret]. destruct (negb (hasClaim (d_db d0) sha pk) && negb (isOwner cfg pk)) eqn:Ec; [by apply Hret|].
  destruct (isOwner cfg pk) eqn:Eo.
  - eapply safe_bind; [apply safe_try; eapply safe_conseq; [by apply (Hown pk)|by intros d [_ ?]|done]|].
    intros [u|e]; apply safe_ret; intros d Hd; [by apply Hd|by apply HR].
  - rewrite andb_true_r, negb_false_iff in Ec. eapply safe_bind; [apply safe_try; eapply safe_conseq; [by apply (Hrel pk)|by intros d [-> ?]|done]|].
    intros [u|e]; apply safe_ret; intros d Hd; [by apply Hd|apply HR; [by case_match|done]].
Qed.

Lemma stays_delete r sha : safe (crashed P) running running (delete cfg r sha) (λ _, running).
Proof.
  apply delete_safe; [done|done|..].
  - intros pk _ _. eapply safe_conseq; [apply stays_Delete|done|by intros].
  - intros pk _. eapply safe_conseq; [apply stays_DeleteForUploader|by intros d []|by intros].
Qed.

Lemma serve_stays r m : serve cfg r = Some m → stays m.
Proof.
  intros Hm. eapply serve_safe; [..|exact Hm]; [done|done|apply stays_put|apply stays_meta|apply stays_report|done|]. intros sha _ _. apply stays_delete.
Qed.
End Runs.

(** ** What a request cannot take away *)

Section Kept.
Context `{GoUnicode} `{GoSniff}.

Record Kept (db0 db : BlobDB) : Prop := {
  kept_blobs : blobs db0 ⊆ blobs db;
  kept_claims : dom (claims db0) ⊆ dom (claims db);
}.
Definition keeps (db0 : BlobDB) (d : Disk) : Prop := Kept db0 (d_db d).
Notation keeping db0 m := (safe (λ _, True) (keeps db0) (keeps db0) m (λ _, keeps db0)).

Lemma Kept_refl db : Kept db db.
Proof. by split. Qed.

Lemma Kept_trans db db' db'' : Kept db db' → Kept db' db'' → Kept db db''.
Proof. intros [] []. split; by etrans. Qed.

Lemma Kept_claim k c db : Kept db (upd_claims (<[k := c]>) db).
Proof. split; [done|]. cbn. rewrite dom_insert_L. set_solver. Qed.

Lemma Kept_save sha u n p pu now db : Kept db (saveClaimMetadata sha u n p pu now db).
Proof. unfold saveClaimMetadata. by destruct (_ || _). Qed.

Lemma Kept_release id db : Kept db (release_reservation id db).
Proof. unfold release_reservation. by destruct (String.eqb id ""). Qed.

Lemma Kept_insert sha row db : Kept db (insert_blob sha row db).
Proof.
  unfold insert_blob. destruct (blobs db !! sha) eqn:E; [done|]. set (db1 := upd_blobs _ _).
  assert (Kept db db1) by (split; [by apply insert_subseteq|done]). destruct (String.eqb _ ""); [done|]. destruct (claims db1 !! _); [done|].
  eapply Kept_trans; [done|apply Kept_claim].
Qed.

Lemma Kept_named sha u n p pu now ex at_ db :
  Kept db (if String.eqb u "" then db else saveClaimMetadata sha u n p pu now (claimSQL sha u at_ ex db)).
Proof. destruct (String.eqb u ""); [done|]. eapply Kept_trans; [apply Kept_claim|apply Kept_save]. Qed.

Lemma Kept_install env cd terms access e db db' : install_tx env cd terms access e db = Ok db' → Kept db db'.
Proof.
  unfold install_tx. destruct (commit_hook cd e true); [|done]. intros [= <-]. eapply Kept_trans; [|apply Kept_release].
  eapply Kept_trans; [|apply Kept_named]. eapply (Kept_trans _ (upd_tombstones (base.delete (B_SHA256 e)) db)); [done|apply Kept_insert].
Qed.

Lemma Kept_claim_tx env cd terms e db db' : claim_tx env cd terms e db = Ok db' → Kept db db'.
Proof.
  unfold claim_tx. destruct (commit_hook cd e false); [|done]. intros [= <-]. eapply Kept_trans; [apply Kept_named|apply Kept_release].
Qed.

Lemma keeps_files db0 f : keeping db0 (commit_files f).
Proof. by apply safe_commit. Qed.

Lemma keeps_rename db0 from to : keeping db0 (rename from to).
Proof.
  apply safe_get. intros d0 _. destruct (if String.eqb from "" then _ else _).
  - eapply safe_conseq; [apply keeps_files|by intros d []|done].
  - apply safe_fail. by intros d [].
Qed.

Lemma keeps_some {A B} db0 (o : option A) (m : A → IO B) (n : IO B) : (∀ a, keeping db0 (m a)) → keeping db0 n → keeping db0 (match o with Some a => m a | None => n end).
Proof. intros Hm Hn. destruct o; [apply Hm|apply Hn]. Qed.

Lemma keeps_get {A} db0 (f : Disk → IO A) : (∀ d, keeping db0 (f d)) → keeping db0 (io_get f).
Proof. intros Hf. apply safe_get. intros d0 _. eapply safe_conseq; [apply Hf|by intros d []|done]. Qed.

Lemma keeps_tx db0 (f : BlobDB → result BlobDB) : (∀ db db', f db = Ok db' → Kept db db') → keeping db0 (commit_tx f).
Proof.
  intros Hf. apply safe_get. intros d0 HK. destruct (f (d_db d0)) eqn:E; [|by apply safe_fail; intros d []].
  apply safe_commit. intros d _. split; [done|]. eapply Kept_trans; [exact HK|by apply Hf].
Qed.

Lemma keeps_bind {A B} db0 (m : IO A) (k : A → IO B) : keeping db0 m → (∀ a, keeping db0 (k a)) → keeping db0 (io_bind m k).
Proof. apply safe_bind. Qed.

Lemma keeps_temp {A} db0 tmp (m : IO A) : keeping db0 m → keeping db0 (temp_remove tmp m).
Proof.
  intros Hm d HK l d' res. unfold temp_remove. destruct (m d) as [[l1 d1] r1] eqn:E. cbn. intros [= <- <- <-].
  destruct (safe_keeps _ _ _ _ _ Hm (λ _ _ HQ, HQ) d l1 d1 r1 HK E) as [_ HK1]. split; [by apply Forall_forall|by destruct r1].
Qed.

Lemma rows_ret {A} db0 (a : A) : keeping db0 (io_ret a).
Proof. by apply safe_ret. Qed.

Lemma keeps_guard {B} db0 b m (k : IO B) : keeping db0 k → keeping db0 (run _ <- io_of (guard_err b m); k).
Proof. intros Hk. by apply safe_guard. Qed.

Lemma keeps_of {A B} db0 (m : result A) (k : A → IO B) : (∀ a, keeping db0 (k a)) → keeping db0 (run a <- io_of m; k a).
Proof. intros Hk. by apply safe_pure. Qed.

Lemma rows_db db0 f : (∀ db, Kept db (f db)) → keeping db0 (commit_db f).
Proof. intros Hf. apply safe_commit. intros d HK. split; [done|]. eapply Kept_trans; [exact HK|apply Hf]. Qed.

Lemma keeps_install db0 env cd : keeping db0 (installUpload env cd).
Proof.
  apply keeps_get. intros d0. cbv zeta. apply keeps_of. intros acc. apply keeps_guard. apply keeps_of. intros terms. do 2 apply keeps_guard. apply keeps_some.
  - intros e. apply keeps_get. intros d1. cbv zeta. apply keeps_of. intros ea. do 3 apply keeps_guard.
    apply keeps_bind; [apply keeps_tx; apply Kept_claim_tx|]. intros ?. apply keeps_bind; [|intros ?; apply rows_ret].
    apply keeps_get. intros d2. destruct (d_files d2 !! _); [apply rows_ret|apply keeps_rename].
  - apply keeps_get. intros d1. cbv zeta. apply keeps_guard. apply keeps_guard.
    apply keeps_bind; [apply keeps_some; intros; apply keeps_rename|]. intros ?. apply keeps_bind.
    { apply safe_get. intros d2 HK2. destruct (install_tx _ _ _ _ _ _) as [db|m] eqn:Ei.
      - apply safe_commit. intros d _. split; [done|]. eapply Kept_trans; [exact HK2|by eapply Kept_install].
      - apply (safe_conseq _ _ _ (keeps db0) _ _ (λ _, keeps db0)); [|by intros d []|done]. apply keeps_bind; [apply keeps_some; [intros; apply keeps_files|apply rows_ret]|].
        intros ?. by apply safe_fail. }
    intros ?. apply keeps_bind; [apply keeps_some; [intros; apply keeps_rename|apply rows_ret]|]. intros ?.
    apply keeps_get. intros d2. destruct (lookup_blob _ _); apply rows_ret.
Qed.

Lemma keeps_put db0 env tmp content o validate : keeping db0 (putValidatedWithMetadata env tmp content o validate).
Proof.
  unfold putValidatedWithMetadata. apply keeps_of. intros access. apply keeps_of. intros np. cbv zeta. destruct (stream_limit _ _) as [limit quota].
  apply keeps_temp. apply keeps_bind; [apply keeps_files|]. intros ?. do 3 apply keeps_guard. apply keeps_of. intros ?. apply keeps_install.
Qed.

(** *** Chunks *)

Lemma keeps_discard db0 id : keeping db0 (discardMultipart id).
Proof. apply keeps_bind; [by apply rows_db|]. intros ?. apply keeps_files. Qed.

Lemma rows_each {A} db0 (f : A → IO unit) l : (∀ a, keeping db0 (f a)) → keeping db0 (io_each f l).
Proof. intros Hf. by apply safe_each. Qed.

Lemma keeps_admission db0 limits now part : keeping db0 (multipartAdmission limits now part).
Proof.
  apply keeps_get. intros d. cbv zeta. do 2 apply keeps_guard. apply keeps_some.
  - intros e. apply keeps_guard. by apply safe_of.
  - apply keeps_some; [intros u|]; [apply keeps_guard|]; apply keeps_of; intros ?; [by apply rows_db|].
    apply keeps_get. intros d1. cbv zeta. apply keeps_guard. apply keeps_bind; [apply keeps_files|]. intros ?. by apply rows_db.
Qed.

Lemma keeps_reserve db0 limits now part ss : keeping db0 (reserveMultipart limits now part ss).
Proof.
  apply keeps_bind; [apply keeps_get; intros d; apply rows_each; apply keeps_discard|]. intros ?. apply keeps_guard.
  apply keeps_bind; [apply keeps_admission|]. intros ?. apply rows_ret.
Qed.

Lemma rows_stage db0 validate tmp body part : keeping db0 (stageMultipart validate tmp body part).
Proof. do 2 apply keeps_guard. apply keeps_of. intros ?. apply keeps_bind; [apply keeps_files|]. intros ?. apply rows_ret. Qed.

Lemma keeps_on_error {A} db0 (m : IO A) cleanup : keeping db0 m → keeping db0 cleanup → keeping db0 (on_error m cleanup).
Proof.
  intros Hm Hc d HK l d' res. unfold on_error. destruct (m d) as [[l1 d1] r1] eqn:E. destruct (safe_keeps _ _ _ _ _ Hm (λ _ _ HQ, HQ) d l1 d1 r1 HK E) as [HC1 HK1].
  destruct r1 as [a|e]; [by intros [= <- <- <-]|]. destruct (cleanup d1) as [[l2 d2] r2] eqn:E2. intros [= <- <- <-].
  destruct (safe_keeps _ _ _ _ _ Hc (λ _ _ HQ, HQ) d1 l2 d2 r2 HK1 E2) as [HC2 HK2]. split; [by apply Forall_app|done].
Qed.

Lemma rows_commit db0 env part chunk ss : keeping db0 (commitMultipart env part chunk ss).
Proof.
  apply keeps_guard. apply keeps_bind; [apply keeps_admission|]. intros ?. apply keeps_get. intros d. cbv zeta.
  destruct (match uploads (d_db d) !! mp_id part with Some u => _ | None => _ end) as [[name path] purpose]. apply keeps_some.
  - intros e. apply keeps_guard. apply keeps_bind; [apply keeps_install|]. intros ?. apply rows_ret.
  - apply keeps_of. intros ranges. apply keeps_bind.
    + apply keeps_on_error; [|apply keeps_discard]. apply keeps_get. intros d1. repeat case_match; first [apply keeps_files|by apply safe_fail].
    + intros ?. apply keeps_bind; [by apply rows_db|]. intros ?. apply rows_ret.
Qed.

Lemma keeps_try {A B} db0 (m : IO A) (k : result A → B) : keeping db0 m → keeping db0 (run res <- io_try m; io_ret (k res)).
Proof.
  intros Hm. apply keeps_bind; [|intros ?; apply rows_ret]. intros d HK l d' res. unfold io_try. destruct (m d) as [[l1 d1] r1] eqn:E. intros [= <- <- <-].
  by apply (safe_keeps _ _ _ _ _ Hm (λ _ _ HQ, HQ) d l1 d1 r1 HK).
Qed.

Lemma keeps_finalize db0 canceled cd ss : keeping db0 (finalize_failed canceled cd ss).
Proof. apply keeps_bind; [destruct canceled; [apply rows_ret|apply keeps_discard]|]. intros ?. apply rows_ret. Qed.

(** No part of a chunk's request takes a row or a claim away. *)
Lemma keeps_chunk `{GoMime} P st m db0 : chunk_op P st m → keeping db0 m.
Proof.
  intros Hop. inversion Hop; subst.
  - unfold begin_multipart. destruct (parseMultipart _ _ _); [|apply rows_ret]. apply (keeps_try db0 _ (λ res, match res with Ok ss => _ | Err _ => _ end)), keeps_reserve.
  - apply (keeps_try db0 _ (λ res, match res with Ok chunk => _ | Err _ => _ end)), rows_stage.
  - apply (keeps_try db0 _ (λ res, match res with Ok (Finalize cd, ss) => _ | Ok (_, ss) => _ | Err _ => _ end)), rows_commit.
  - apply keeps_get. intros d. destruct (if canceled then _ else _); [apply rows_ret|]. apply keeps_bind; [apply keeps_finalize|]. intros ?. apply rows_ret.
  - apply keeps_bind; [|intros ?; apply rows_ret]. intros d HK l d' res. unfold finalize_install. destruct (installUpload env cd d) as [[l1 d1] r1] eqn:E1.
    destruct (discardMultipart (cd_reservation cd) d1) as [[l2 d2] r2] eqn:E2. intros [= <- <- <-].
    destruct (safe_keeps _ _ _ _ _ (keeps_install db0 env cd) (λ _ _ HQ, HQ) d l1 d1 r1 HK E1) as [HC1 HK1].
    destruct (safe_keeps _ _ _ _ _ (keeps_discard db0 (cd_reservation cd)) (λ _ _ HQ, HQ) d1 l2 d2 r2 HK1 E2) as [HC2 HK2]. split; [by apply Forall_app|done].
  - destruct chunk as [chunk|]; cbn [end_multipart]; [apply keeps_bind; [apply keeps_files|]; intros ?; apply rows_ret|].
    apply keeps_bind; [|intros ?; apply rows_ret]. apply keeps_get. intros d. cbv zeta. destruct (0 <? _); [apply rows_ret|]. apply keeps_bind; [|intros ?; apply rows_ret].
    destruct (parts_of _ _); [apply keeps_discard|apply rows_ret].
Qed.
End Kept.
