(* ===== verification/BlobHttpClaims.v ===== *)
(** * internal/blob: the contract of the HTTP doors

    Requests as runs of the store, who reads, who removes, which remote hosts
    are asked, and the text of a Blossom reference. *)

From S2P Require Import Prelude GoLib GoCodec GoLemmas GoStrings Nostr NostrProps Filter Policy Sites Agents GrantRequests Blob Multipart BlobProps BlobRuns BlobSafe BlobClaims.
From S2P Require Import Blossom BlobHttp BlobHttpProps.

Section Contract.
Context {Tdy : Tidy} `{GoUnicode} `{GoURL} `{GoURLText} `{GoSniff} `{GoMime} `{GoJsonDecoder} `{GoHttpTime} `{NostrCrypto} (cfg : HttpConfig).

(** ** Requests are runs *)

Lemma blob_path_sha path sha : blob_path path = Some sha → shaPattern sha = true.
Proof.
  unfold blob_path. destruct path as [|c rest]; [done|]. cbv zeta. case_match eqn:Eb; [|done]. intros [= <-].
  by apply andb_true_iff in Eb as [[_ ?]%andb_true_iff _].
Qed.

(** C40: every request but a chunk is, whatever its result, a run of the
    operations of the store, and stopping in the middle leaves a disk of a crash;
    a chunk names a hash that is one. *)
Theorem serve_is_a_run (P : Limits → Prop) req st :
  P (be_limits (hc_env cfg)) → (∀ d, fresh_temp (hc_temp cfg d) d = true) → reachable P st →
  match serve cfg req with
  | Some m => ∀ l d' res, m (r_disk st) = (l, d', res) →
      reachable P (mkRun d' (r_sessions st) (r_threads st) (r_pending st)) ∧ ∀ d'', d'' ∈ l → crashed P d''
  | None => ∃ hash, route req = RChunk hash ∧ shaPattern hash = true
  end.
Proof.
  intros HP Ht Hr. destruct (serve cfg req) as [m|] eqn:Es.
  - intros l d' res E. destruct st as [d ss ts ps]. destruct (serve_stays P cfg HP Ht ss ts ps req m Es d Hr l d' res E) as [HC HG].
    rewrite Forall_forall in HC. split; [by destruct res|done].
  - unfold serve in Es. destruct (route req) as [| | | | | |hash| | | | |] eqn:Er; try done. exists hash. split; [done|].
    unfold route in Er. cbv zeta in Er. repeat (case_match; try done); injection Er as <-; by eapply blob_path_sha.
Qed.

(** ** Reading *)

(** C35: an answer of the HTTP doors, to a request that is not a chunk, with bytes of a
    file, whole or in ranges, is an answer to a GET for a hash; the blob has a row and is not blocked, and the caller is
    authenticated and may read it where the host restricts reading.  The file has that
    hash: an answer 200 carries all of it, an answer 206 the range its Content-Range
    names, or parts that each are the range theirs names, all inside the file. *)
Theorem bytes_only_to_readers req st m l d' resp :
  (∀ d, fresh_temp (hc_temp cfg d) d = true) → reachable (λ _, True) st →
  serve cfg req = Some m → m (r_disk st) = (l, d', Ok resp) → delivered resp ≠ [] →
  ∃ sha file, blob_path (door_path req) = Some sha ∧ hr_Method req = "GET" ∧ is_Some (blobs (d_db d') !! sha) ∧ blocked (d_db d') sha = false ∧
    (∀ can, hc_CanRead cfg = Some can → ∃ pk, authorize cfg req "get" = Ok pk ∧ can sha [pk] = true) ∧
    sha256_hex file = sha ∧
    match rs_Body resp with
    | Bytes content => rs_Status resp = 200 ∧ content = file ∨
        rs_Status resp = 206 ∧ ∃ ra, inside (len file) ra ∧ ("Content-Range", contentRange (len file) ra) ∈ rs_Headers resp ∧ content = slice_of file ra
    | Parts parts => rs_Status resp = 206 ∧ Forall (λ p, ∃ ra, inside (len file) ra ∧ p = (contentRange (len file) ra, slice_of file ra)) parts
    | _ => True
    end.
Proof.
  intros Ht Hr Hm E Hb. destruct st as [d ss ts ps]. set (P := λ _ : Limits, True).
  set (R := λ (resp : Response) (d : Disk), delivered resp ≠ [] → ∃ sha file, blob_path (door_path req) = Some sha ∧ hr_Method req = "GET" ∧
    is_Some (blobs (d_db d) !! sha) ∧ blocked (d_db d) sha = false ∧ (∀ can, hc_CanRead cfg = Some can → ∃ pk, authorize cfg req "get" = Ok pk ∧ can sha [pk] = true) ∧
    sha256_hex file = sha ∧ carries resp file).
  assert (∀ resp d, plain resp → running P ss ts ps d → R resp d) as Hplain by (intros x y Hx _ Hc; by destruct Hc).
  destruct (serve_safe cfg req (crashed P) (running P ss ts ps) (running P ss ts ps) R) with (m := m) (d := d) (l := l) (d' := d') (r := Ok resp : result Response) as [_ HR]; try done.
  - by apply stays_put.
  - by apply stays_meta.
  - by apply stays_report.
  - intros sha pk d0 Hs Hread Hpk HG Hc. unfold read_blob, lookup_blob in *. destruct (blobs (d_db d0) !! sha) as [row|] eqn:Er; [|by destruct Hc]. cbn [fmap option_fmap option_map] in *.
    destruct (match hc_CanRead cfg with Some can => negb (can sha [pk]) | None => false end) eqn:Ec; [by destruct Hc|]. destruct (blocked (d_db d0) sha) eqn:Ebl; [by destruct Hc|].
    destruct (d_files d0 !! sha) as [file|] eqn:Ef; [|by destruct Hc].
    destruct (ServeContent_carries req (quote sha) (B_Uploaded (blob_of sha row)) (content_headers cfg sha (blob_of sha row)) file) as [Hca Hget]. exists sha, file.
    split; [done|]. split; [specialize (Hget Hc); set_solver|]. split; [by eexists|]. split; [done|]. split.
    { intros can Ecan. rewrite Ecan in Hpk, Ec. exists pk. split; [done|]. by apply negb_false_iff. }
    split; [apply (ci_digest d0); [by apply inv_crash, (reachable_inv (mkRun d0 ss ts ps))|done|by eapply blob_path_sha]|exact Hca].
  - intros sha _ _. apply delete_safe; [done|done|..].
    + intros pk _ _. eapply safe_conseq; [apply stays_Delete|done|]. intros ? x HG y Hy. by apply Hplain.
    + intros pk _. eapply safe_conseq; [apply stays_DeleteForUploader|by intros x []|]. intros ? x HG y Hy. by apply Hplain.
  - exact (HR Hb).
Qed.

(** ** Removing *)

(** What may be missing after a request for [db0]'s tables. *)
Definition rightful req (db0 db : BlobDB) : Prop :=
  (∀ sha row, blobs db0 !! sha = Some row → blobs db !! sha = Some row ∨
     hr_Method req = "DELETE" ∧ blob_path (door_path req) = Some sha ∧ ∃ pk, authorize cfg req "delete" = Ok pk ∧
       (isOwner cfg pk = true ∨ hasClaim db0 sha pk = true ∧ ∀ u, u ≠ pk → claims db0 !! (sha, u) = None)) ∧
  (∀ sha u, is_Some (claims db0 !! (sha, u)) → is_Some (claims db !! (sha, u)) ∨
     hr_Method req = "DELETE" ∧ blob_path (door_path req) = Some sha ∧ ∃ pk, authorize cfg req "delete" = Ok pk ∧ (isOwner cfg pk = true ∨ u = pk)).

Lemma kept_rightful req db0 db : Kept db0 db → rightful req db0 db.
Proof. intros [Sb Sc]. split; [intros sha row Hr; left; by eapply lookup_weaken|]. intros sha u. rewrite <-!elem_of_dom. left. by apply Sc. Qed.

Lemma owner_deletes req sha pk now db0 :
  blob_path (door_path req) = Some sha → hr_Method req = "DELETE" → authorize cfg req "delete" = Ok pk → isOwner cfg pk = true →
  safe (λ _, True) (keeps db0) (λ d, d_db d = db0) (Delete sha now) (λ _ d, rightful req db0 (d_db d)).
Proof.
  intros Hp Hm Ha Ho. unfold Delete. rewrite (blob_path_sha _ _ Hp). cbn [negb]. apply (safe_bind _ _ _ _ _ (λ _ d, rightful req db0 (d_db d))); [|intros ?; by apply safe_commit].
  apply safe_commit. intros d <-. split; [done|]. cbn [d_db on_db]. split.
  - intros s row Hr. destruct (decide (s = sha)) as [->|Hne]; [right|left]; [eauto 10|]. cbn. by rewrite lookup_delete_ne.
  - intros s u [c Hc]. destruct (decide (s = sha)) as [->|Hne]; [right; eauto 10|left]. exists c.
    change (claims (delete_blob sha (entomb sha now (d_db d))) !! (s, u) = Some c). unfold delete_blob. rewrite claims_delete_claims. split; [done|]. by apply String.eqb_neq.
Qed.

Lemma uploader_deletes req sha pk now db0 :
  blob_path (door_path req) = Some sha → hr_Method req = "DELETE" → authorize cfg req "delete" = Ok pk →
  safe (λ _, True) (keeps db0) (λ d, d_db d = db0 ∧ hasClaim (d_db d) sha pk = true) (DeleteForUploader sha pk now) (λ _ d, rightful req db0 (d_db d)).
Proof.
  intros Hp Hm Ha. unfold DeleteForUploader. rewrite (blob_path_sha _ _ Hp). cbn [negb].
  apply (safe_bind _ _ _ _ _ (λ _ d, rightful req db0 (d_db d))); [|intros removed; destruct removed; [by apply safe_commit|by apply safe_ret]].
  apply safe_get. intros d0 [<- Hcl]. destruct (release_claim sha pk now (d_db d0)) as [[db removed]|m] eqn:E; [|apply safe_fail; intros d [-> _]; apply Kept_refl].
  apply (safe_bind _ _ _ _ _ (λ _ d, rightful req (d_db d0) (d_db d))); [|intros ?; by apply safe_ret].
  apply safe_commit. intros d _. split; [done|]. cbn [d_db on_db]. revert E. unfold release_claim. destruct (claims (d_db d0) !! (sha, pk)) as [c0|] eqn:E0; [|done].
  cbv zeta. set (db1 := delete_metas _ _). intros [= <- _].
  assert (∀ k c, claims db1 !! k = Some c ↔ claims (d_db d0) !! k = Some c ∧ k ≠ (sha, pk)) as Hc1 by (intros k c; apply claims_without).
  destruct (Nat.eqb (claims_of sha db1) 0) eqn:En.
  - rewrite claims_of_zero in En. assert (∀ u, u ≠ pk → claims (d_db d0) !! (sha, u) = None) as Hsole.
    { intros u Hu. apply eq_None_not_Some. intros [c Hc]. assert (claims db1 !! (sha, u) = Some c) as Hx by (apply Hc1; split; [done|congruence]). by rewrite En in Hx. }
    split.
    + intros s row Hr. destruct (decide (s = sha)) as [->|Hne]; [right; eauto 10|left]. cbn. by rewrite lookup_delete_ne.
    + intros s u [c Hc]. destruct (decide (s = sha)) as [->|Hne].
      * right. destruct (decide (u = pk)) as [->|Hu]; [eauto 10|]. by rewrite Hsole in Hc.
      * left. exists c. unfold delete_blob. rewrite claims_delete_claims. split; [|by apply String.eqb_neq]. change (claims db1 !! (s, u) = Some c). apply Hc1. split; [done|congruence].
  - split; [by left|]. intros s u [c Hc]. destruct (decide ((s, u) = (sha, pk))) as [[= -> ->]|Hne]; [right; eauto 10|]. left. exists c. by apply Hc1.
Qed.

(** C36: no request changes the row of a blob or takes one away but a DELETE of
    that blob, by an authenticated owner of the tenant, or by the holder of its
    only claim; a claim leaves only at the word of its holder or of an owner.  A request
    with a chunk takes no row or claim away in any of its parts. *)
Theorem removal_needs_right req :
  match serve cfg req with
  | Some m => ∀ d l d' res, m d = (l, d', res) →
      (∀ sha row, blobs (d_db d) !! sha = Some row → blobs (d_db d') !! sha = Some row ∨
         hr_Method req = "DELETE" ∧ blob_path (door_path req) = Some sha ∧ ∃ pk, authorize cfg req "delete" = Ok pk ∧
           (isOwner cfg pk = true ∨ hasClaim (d_db d) sha pk = true ∧ ∀ u, u ≠ pk → claims (d_db d) !! (sha, u) = None)) ∧
      (∀ sha u, is_Some (claims (d_db d) !! (sha, u)) → is_Some (claims (d_db d') !! (sha, u)) ∨
         hr_Method req = "DELETE" ∧ blob_path (door_path req) = Some sha ∧ ∃ pk, authorize cfg req "delete" = Ok pk ∧ (isOwner cfg pk = true ∨ u = pk))
  | None => ∀ P st m, chunk_op P st m → ∀ d l d' res, m d = (l, d', res) →
      (∀ sha row, blobs (d_db d) !! sha = Some row → blobs (d_db d') !! sha = Some row) ∧
      ∀ k, is_Some (claims (d_db d) !! k) → is_Some (claims (d_db d') !! k)
  end.
Proof.
  destruct (serve cfg req) as [m|] eqn:Hm.
  2: { intros P st m Hop d l d' res E. destruct (safe_keeps _ _ _ _ _ (keeps_chunk P st m (d_db d) Hop) (λ _ _ HQ, HQ) d l d' res (Kept_refl _) E) as [_ [Sb Sc]].
       split; [intros sha row Hr; by eapply lookup_weaken|]. intros k. rewrite <-!elem_of_dom. apply Sc. }
  intros d l d' res E. change (rightful req (d_db d) (d_db d')). set (db0 := d_db d).
  assert (∀ x, d_db x = db0 → keeps db0 x) as Hstart by (intros x Hx; unfold keeps; rewrite Hx; apply Kept_refl).
  assert (∀ resp x, plain resp → keeps db0 x → rightful req db0 (d_db x)) as Hplain by (intros ? x _ Hx; by apply kept_rightful).
  destruct (serve_safe cfg req (λ _, True) (keeps db0) (λ d, d_db d = db0) (λ _ d, rightful req db0 (d_db d))) with (m := m) (d := d) (l := l) (d' := d') (r := res) as [_ HR]; try done.
  - intros validate content o. apply keeps_get. intros x. apply keeps_put.
  - intros u sha n p pu t s now. unfold SetClaimMetadata. apply safe_pure; [done|]. intros [[n' p'] t'] _. apply keeps_tx. intros db db' Ht. by destruct (claims db !! _); [injection Ht as <-|].
  - intros f. apply safe_commit. intros x [Sb Sc]. split; [done|]. by split.
  - intros sha pk x _ _ _. apply kept_rightful.
  - intros sha Hp Hd. apply delete_safe; [done|done|..].
    + intros pk Ha Ho. eapply safe_conseq; [by eapply owner_deletes|done|]. by intros ? x Hx y _.
    + intros pk Ha. eapply safe_conseq; [by eapply uploader_deletes|done|]. by intros ? x Hx y _.
  - destruct res; [exact HR|by apply kept_rightful].
Qed.

(** ** Remote sources *)

(** A URL the doors may fetch. *)
Definition vetted (url : string) : Prop :=
  ∃ u ips, url_parse url = Some u ∧ (u_scheme u = "http" ∨ u_scheme u = "https") ∧ Hostname u ≠ "" ∧
    hc_resolve cfg (Hostname u) = Ok ips ∧ ips ≠ [] ∧ ∀ ip, ip ∈ ips → publicIP ip = true.

Lemma public_host_ok host : public_host cfg host = Ok tt → ∃ ips, hc_resolve cfg host = Ok ips ∧ ips ≠ [] ∧ ∀ ip, ip ∈ ips → publicIP ip = true.
Proof.
  unfold public_host. destruct (hc_resolve cfg host) as [[|ip ips]|e]; [done| |done]. rewrite guard_Ok_tt, negb_false_iff, forallb_elem.
  intros Hall. exists (ip :: ips). by split.
Qed.

Lemma mirror_vetted url : validateMirrorURL cfg url = Ok tt → vetted url.
Proof.
  unfold validateMirrorURL. destruct (url_parse url) as [u|] eqn:Eu; [|done]. intros [Hg Hh]%guard_bind_Ok. apply orb_false_iff in Hg as [Hs Hn].
  apply negb_false_iff, String.eqb_eq in Hs. apply String.eqb_neq in Hn. destruct (public_host_ok _ Hh) as (ips & ?). exists u, ips. by split_and!; [|right|..]; destruct_and?.
Qed.

Lemma path_vetted url : validatePathUploadURL cfg url = Ok tt → vetted url.
Proof.
  unfold validatePathUploadURL. destruct (url_parse url) as [u|] eqn:Eu; [|done]. intros [Hg Hh]%guard_bind_Ok. rewrite !orb_false_iff in Hg.
  destruct Hg as [[[Hs Hn] _] _]. apply String.eqb_neq in Hn. destruct (public_host_ok _ Hh) as (ips & ?). exists u, ips. split_and!; [done| |done|destruct_and?; done..].
  apply negb_false_iff, contains_spec in Hs. set_solver.
Qed.
End Contract.

Definition with_fetch (f : string → result (Z * string * string)) (cfg : HttpConfig) : HttpConfig :=
  mkHttpConfig (hc_Authorize cfg) (hc_CanRead cfg) (hc_IsOwner cfg) (hc_ValidateUpload cfg) (hc_RecordReport cfg) (hc_ResolveServers cfg) (hc_PublicURL cfg)
    (hc_resolve cfg) f (hc_env cfg) (hc_nanos cfg) (hc_temp cfg).

Section Sources.
Context `{GoUnicode} `{GoURL} `{GoURLText} `{GoSniff} `{GoMime} `{GoJsonDecoder} `{GoHttpTime} `{NostrCrypto} (cfg : HttpConfig) (f : string → result (Z * string * string)).
Context (Hf : ∀ url, vetted cfg url → f url = hc_fetch cfg url).
Notation cfg' := (with_fetch f cfg).

Lemma bind_same {A B} (m m' : IO A) (k k' : A → IO B) d : m d = m' d → (∀ a d, k a d = k' a d) → io_bind m k d = io_bind m' k' d.
Proof. intros Hm Hk. unfold io_bind. rewrite Hm. destruct (m' d) as [[l d1] [a|e]]; [by rewrite Hk|done]. Qed.

Lemma mirror_same req pubkey hash last candidates d : mirror_from cfg req pubkey hash last candidates d = mirror_from cfg' req pubkey hash last candidates d.
Proof.
  revert last d. induction candidates as [|c l IH]; intros last d; cbn [mirror_from]; [done|]. change (validateMirrorURL cfg' c) with (validateMirrorURL cfg c).
  destruct (validateMirrorURL cfg c) as [[]|e] eqn:Ev; [|apply IH]. change (hc_fetch cfg' c) with (f c). rewrite (Hf c) by by apply mirror_vetted.
  destruct (hc_fetch cfg c) as [[[status header] content]|e]; [|apply IH]. destruct (negb (success status)); [apply IH|].
  apply bind_same; [done|]. intros [e|e] d'; [done|]. destruct (String.eqb e ErrHashMismatch); [apply IH|done].
Qed.

Lemma upload_same req pubkey hash mismatch urls d : Forall (λ url, validatePathUploadURL cfg url = Ok tt) urls →
  upload_from cfg req pubkey hash mismatch urls d = upload_from cfg' req pubkey hash mismatch urls d.
Proof.
  intros Hu. revert mismatch d. induction Hu as [|c l Hc _ IH]; intros mismatch d; cbn [upload_from]; [done|].
  change (hc_fetch cfg' c) with (f c). rewrite (Hf c) by by apply path_vetted.
  destruct (hc_fetch cfg c) as [[[status header] content]|e]; [|apply IH]. destruct (negb (success status)); [apply IH|].
  apply bind_same; [done|]. intros [e|e] d'; [done|]. destruct (String.eqb e ErrHashMismatch); [apply IH|done].
Qed.

Lemma fail_same {A} (m m' : IO A) status (k k' : A → IO Response) d : m d = m' d → (∀ a d, k a d = k' a d) → or_fail m status k d = or_fail m' status k' d.
Proof. intros Hm Hk. apply bind_same; [unfold io_try; by rewrite Hm|]. intros [a|e] d'; [apply Hk|done]. Qed.

Lemma check_same {A} (m : result A) status (k k' : A → IO Response) d : (∀ a d, m = Ok a → k a d = k' a d) → or_fail (io_of m) status k d = or_fail (io_of m) status k' d.
Proof. intros Hk. unfold or_fail, io_bind, io_try, io_of. destruct m as [a|e]; [by rewrite (Hk a)|done]. Qed.

Lemma sources_valid urls : validate_sources cfg urls = Ok tt → Forall (λ url, validatePathUploadURL cfg url = Ok tt) urls.
Proof.
  unfold validate_sources. induction urls as [|u l IH]; cbn; [constructor|]. destruct (validatePathUploadURL cfg u) as [[]|e] eqn:E; [|done]. intros Hl. constructor; auto.
Qed.

(** C38: the doors fetch only http and https URLs whose host resolves, at the time
    of the check, to public addresses alone: what any other URL would answer
    changes neither the response nor the disk. *)
Theorem sources_are_vetted req : 
  match serve cfg req, serve cfg' req with Some m, Some m' => ∀ d, m d = m' d | None, None => True | _, _ => False end.
Proof.
  unfold serve. destruct (route req) as [| | | | | |hash|hash| | | |]; try done.
  - intros d. unfold mirror. change (authorize cfg' req) with (authorize cfg req). apply check_same. intros pk d1 _. destruct (mirror_url (hr_Body req)) as [url|]; [|done].
    apply check_same. intros [[[[u h] e] s] a] d2 _. apply mirror_same.
  - intros d. unfold pathUpload. change (authorize cfg' req) with (authorize cfg req). apply check_same. intros pk d1 _. destruct (hr_Query req "url") as [|u l]; [done|]. cbv zeta.
    destruct (negb (String.eqb (hr_Body req) "")); [done|]. destruct (Z.ltb maxPathUploadSources (Z.of_nat (List.length (u :: l)))); [done|].
    change (validate_sources cfg' (u :: l)) with (validate_sources cfg (u :: l)). apply check_same. intros [] d2 Hv. apply upload_same. by apply sources_valid.
Qed.
End Sources.

(** ** The doors on a concrete tenant *)

Section Examples.
#[local] Instance http_unicode : GoUnicode := blob_unicode.
#[local] Instance http_sniff : GoSniff := blob_sniff.
#[local] Instance http_mime : GoMime := blob_mime.
#[local] Instance http_decoder : GoJsonDecoder := {| json_value _ := Some (Some (JObj [("url", JStr "https://cdn.example/hello")], "")) |}.
#[local] Instance http_time_text : GoHttpTime := {| http_time _ := "Thu, 01 Jan 1970 00:00:10 GMT"; parse_http_time _ := None |}.
#[local] Instance http_tidy : Tidy := anytime.
#[local] Instance http_crypto : NostrCrypto := toy_crypto.
(** Every text is an https URL whose host follows the scheme. *)
#[local] Instance http_urls : GoURL := {| url_parse s := Some (mkURL "https" (Cut (TrimPrefix s "https://") "/").1 "" false "" ""); url_string := u_host |}.
#[local] Instance http_text : GoURLText := {| url_text s := s |}.

Definition door_temp (d : Disk) : string := ".upload-" +:+ fresh ((λ n, drop_str 8 n) <$> elements (dom (d_files d))).
Definition door (who : string) : HttpConfig :=
  mkHttpConfig (Some (λ _ _, Ok who)) (Some (λ _ readers, contains readers "alice")) (Some (String.eqb "root")) None None None "https://relay.example"
    (λ host, Ok (if String.eqb host "cdn.example" then [[93; 184; 216; 34]] else [[10; 0; 0; 1]])) (λ url, Ok (200, "text/plain", url)) hello_env 0 door_temp.
Definition ask (method path : string) : HttpRequest := mkHttp method path (λ _, "") (λ _, []) "" 0 "" None.
Definition get_hello : HttpRequest := ask "GET" ("/" +:+ hello_sha +:+ ".txt").

Lemma door_temp_fresh who d : fresh_temp (hc_temp (door who) d) d = true.
Proof.
  unfold fresh_temp, door, hc_temp, door_temp. rewrite prefix_app. cbn [orb andb]. apply negb_true_iff, bool_decide_eq_false. intros Hin.
  apply (infinite_is_fresh ((λ n, drop_str 8 n) <$> elements (dom (d_files d)))). apply list_elem_of_fmap. eexists. split; [|by apply elem_of_elements, elem_of_dom]. reflexivity.
Qed.

Lemma serve_is_a_run_witness :
  (∀ d, fresh_temp (hc_temp (door "alice") d) d = true) ∧ reachable (λ _, True) stored_run ∧
  let '(_, d', _) := blob (door "alice") get_hello (r_disk stored_run) in reachable (λ _, True) (mkRun d' no_sessions [] []).
Proof.
  split; [exact (door_temp_fresh "alice")|]. split; [exact (stored_reachable (λ _, True) I)|]. destruct (blob (door "alice") get_hello (r_disk stored_run)) as [[l d'] res] eqn:E.
  exact (proj1 (serve_is_a_run (door "alice") (λ _, True) get_hello stored_run I (door_temp_fresh "alice") (stored_reachable (λ _, True) I) l d' res E)).
Defined.

(** Alice asks for three of the five bytes. *)
Definition get_range : HttpRequest :=
  mkHttp "GET" ("/" +:+ hello_sha +:+ ".txt") (λ name, if String.eqb name "range" then "bytes=1-3" else "") (λ _, []) "" 0 "" None.
Definition hello_answer (d : Disk) : Response := read_blob (door "alice") get_range hello_sha "alice" d.

Lemma hello_file : d_files (r_disk stored_run) !! hello_sha = Some "hello".
Proof. vm_compute. reflexivity. Qed.

Lemma hello_visible : blocked (d_db (r_disk stored_run)) hello_sha = false.
Proof. vm_compute. reflexivity. Qed.

Lemma hello_read d : blob (door "alice") get_range d = ([], d, Ok (hello_answer d)).
Proof. reflexivity. Qed.

Lemma hello_served : rs_Body (hello_answer (r_disk stored_run)) = Bytes "ell" ∧ rs_Status (hello_answer (r_disk stored_run)) = 206.
Proof.
  unfold hello_answer. generalize stored_row hello_file hello_visible. generalize (r_disk stored_run). intros d Hr Hf Hb. unfold read_blob. rewrite Hr, Hb, Hf. vm_compute. by split.
Qed.

Lemma bytes_only_to_readers_witness :
  rs_Body (hello_answer (r_disk stored_run)) = Bytes "ell" ∧ ∃ file ra, sha256_hex file = hello_sha ∧ "ell" = slice_of file ra.
Proof.
  destruct hello_served as [Hb Hst]. split; [exact Hb|].
  destruct (bytes_only_to_readers (door "alice") get_range stored_run (blob (door "alice") get_range) [] (r_disk stored_run) (hello_answer (r_disk stored_run))
    (door_temp_fresh "alice") (stored_reachable (λ _, True) I) eq_refl (hello_read _)) as (sha & file & Hp & _ & _ & _ & _ & Hs & Hc).
  - unfold delivered. rewrite Hb. discriminate.
  - assert (blob_path (door_path get_range) = Some hello_sha) as Hq by reflexivity. rewrite Hq in Hp. injection Hp as <-. rewrite Hb, Hst in Hc.
    destruct Hc as [[Hx _]|(_ & ra & _ & _ & Hx)]; [discriminate Hx|]. exists file, ra. split; [exact Hs|exact Hx].
Defined.

(** Bob, who has no claim, and the uploader ask for the deletion. *)
Definition delete_hello : HttpRequest := ask "DELETE" ("/" +:+ hello_sha).
Lemma bob_no_claim : hasClaim (d_db (r_disk stored_run)) hello_sha "bob" = false.
Proof. vm_compute. reflexivity. Qed.

Lemma hello_blob_row : blobs (d_db (r_disk stored_run)) !! hello_sha = Some (mkBlobRow 5 "application/octet-stream" "alice" 10 "members").
Proof. vm_compute. reflexivity. Qed.

Lemma removal_needs_right_witness :
  let '(_, d', _) := blob (door "bob") delete_hello (r_disk stored_run) in blobs (d_db d') !! hello_sha = Some (mkBlobRow 5 "application/octet-stream" "alice" 10 "members").
Proof.
  destruct (blob (door "bob") delete_hello (r_disk stored_run)) as [[l d'] res] eqn:E.
  destruct (removal_needs_right (door "bob") delete_hello (r_disk stored_run) l d' res E) as [Hb _].
  destruct (Hb hello_sha (mkBlobRow 5 "application/octet-stream" "alice" 10 "members") hello_blob_row) as [Hk|(_ & _ & pk & [= <-] & [Ho|[Hcl _]])]; [exact Hk|discriminate Ho|].
  rewrite bob_no_claim in Hcl. discriminate Hcl.
Defined.

(** Only cdn.example is asked, whatever the other hosts hold. *)
Definition host_of (url : string) : string := match url_parse url with Some u => Hostname u | None => "" end.
Definition other_hosts (url : string) : result (Z * string * string) :=
  if String.eqb (host_of url) "cdn.example" then Ok (200, "text/plain", url) else Ok (200, "text/html", "secret").
Lemma sources_are_vetted_witness :
  mirror (door "alice") (ask "PUT" "/mirror") (r_disk stored_run) = mirror (with_fetch other_hosts (door "alice")) (ask "PUT" "/mirror") (r_disk stored_run).
Proof.
  refine (sources_are_vetted (door "alice") other_hosts _ (ask "PUT" "/mirror") (r_disk stored_run)). intros url (u & ips & Eu & _ & _ & Hips & _ & Hpub).
  unfold other_hosts, host_of. rewrite Eu. unfold door, hc_resolve in Hips. destruct (String.eqb (Hostname u) "cdn.example"); [reflexivity|].
  injection Hips as <-. specialize (Hpub [10; 0; 0; 1] (list_elem_of_here _ _)). vm_compute in Hpub. discriminate Hpub.
Defined.

(** The policy of a stored blob that differs is answered as a failure of the
    server, and so is a name for a blob the caller does not claim. *)
Lemma conflicts_answered_500 :
  statusFor ErrAccessConflict = 500 ∧ statusFor "not found: uploader blob claim" = 500 ∧ statusFor ErrMultipartConflict = 409.
Proof. by vm_compute. Qed.
End Examples.
